(* ===== verification/_CoqProject ===== *)
-Q . S2P
Prelude.v
Answer.v
Range.v
RangeFacts.v
RangeSets.v
RangeNorm.v
RangeProps.v
Job.v
JobProps.v
JobHolds.v
Pack.v
PackProps.v
FifoLock.v
FifoLockProps.v
HTable.v
HTableProps.v
Bitfield.v
UniqueFifo.v
SUser.v
QState.v
QStateProps.v
Utilization.v
Binary64.v
UtilizationQuery.v
UtilizationFacts.v
UtilizationProps.v
UtilizationBelow.v
UtilizationDouble.v
CullDescr.v
CullDescrFacts.v
CullRegistry.v
CullPack.v
CullTree.v
CullWire.v
CullUnwire.v
CullOwn.v
CullDescrProps.v
CullPackProps.v
CullWhat.v
CullWhatProps.v
Host.v
HostProps.v
Expr.v
ExprProps.v
Text.v
RangeText.v
RangeTextProps.v
CalTime.v
Calendar.v
CalFacts.v
CalState.v
CalDays.v
CalEntry.v
CalStateProps.v
CalWeek.v
CalParse.v
CalParseFacts.v
CalProps.v
Qeti.v
QetiProps.v
HGroup.v
HGroupFacts.v
HGroupProps.v
SList.v
SListFacts.v
SListProps.v
TaskQueue.v
TaskQueueProps.v
TopologyString.v
TopologyUnits.v
TopologyFacts.v
TopologyBits.v
TopologyUnitFacts.v
TopologySearch.v
TopologyOrder.v
Binding.v
BindingFacts.v
BindingProps.v
BindingHostProps.v
TopologyProps.v
