(* ===== verification/Prelude.v ===== *)
(** Verification of the core of the cluster scheduler
    ===================================================

    The repository is a batch system: a master daemon ([daemons/qmaster]) keeps jobs, hosts and
    queues, a scheduler in it decides which job runs when and where ([libs/sched]), execution
    daemons run the jobs and command line clients talk to the master.  Everything the parts
    exchange or store is a list of typed elements ([libs/cull]); the object library
    ([libs/sgeobj]) defines the element types and the operations on them, the utility library
    ([libs/uti]) the containers and locks underneath.  This development models the parts of
    these libraries that carry state and decisions of their own.  All paths are relative to
    [src/source].

    Parts and files
    ---------------

    - [Prelude] (this file): 32 and 64 bit arithmetic, bits of machine words, tactics.
    - [Answer]: answer lists, the error channel of the object library
      ([libs/sgeobj/sge_answer.cc]).  An argument [lList **] is an [option (option list)]:
      no pointer, null list, list.
    - [Range] (definitions), [RangeFacts], [RangeSets], [RangeNorm] (lemmas) and
      [RangeProps] (properties): sets of task ids as lists of min-max:step ranges
      ([libs/sgeobj/sge_range.cc]).  The C library's sort is the interface [SortByMin].
    - [Job], [JobProps], [JobHolds]: the task ids of array jobs, in five range lists by hold, and
      the enrolled tasks ([libs/sgeobj/sge_job.cc], two functions of [sge_object.cc]).  They
      call the functions of [Range] as the code does.
    - [Pack], [PackProps]: pack buffers ([libs/cull/pack.cc]).  Memory comes through the
      interface [Allocator], which may refuse and hands out arbitrary contents; an access
      outside a block is a result of its own.
    - [FifoLock], [FifoLockProps]: the reader/writer lock of the data stores
      ([libs/uti/sge_lock_fifo.cc]).  What a thread does between two waits is an atomic
      section, an executable function; [step] interleaves the sections of any number of
      threads, [reachable] is what can happen.
    - [HTable], [HTableProps]: the hash table under the CULL indexes
      ([libs/uti/sge_htable.cc]).  A key type is an instance of [HashKey].
    - [Bitfield]: bit sets of fixed size ([libs/uti/sge_bitfield.cc]).
    - [UniqueFifo]: a queue that drops duplicates ([libs/uti/ocs_UniqueFifo.h]).
    - [SUser]: the number of jobs per user and its limit ([libs/sgeobj/sge_suser.cc]).
    - [QState], [QStateProps]: the state word of a queue instance, its letters and its
      transitions ([libs/sgeobj/sge_qinstance_state.cc]).
    - [Utilization] (booking), [UtilizationQuery] (questions), [UtilizationFacts] (lemmas),
      [UtilizationProps], [UtilizationBelow], [UtilizationDouble] (properties): the resource
      diagrams the scheduler books jobs, reservations and calendars in
      ([libs/sched/sge_resource_utilization.cc]), and the decision on one consumable
      ([ri_time_by_slots] in [libs/sched/sge_select_queue.cc]).  The amounts are [double]s: the
      operations take them through the class [Amount], whose instance [binary64] is the
      arithmetic of the machine.  What is shown of maxima and start times needs only that
      amounts are ordered ([OrderedAmount]).  Sums are shown for the integers first
      ([ExactAmount], used by lemmas only) and carried over to [double]s in
      [UtilizationDouble]: [Binary64] shows that nothing is rounded on whole multiples of a
      power of two below [2 ^ 53] of them.  Topology strings
      and the binding strategy are used through the class [Topology] and the field
      [a_test_strategy], so the theorems hold for any implementation of them; the instance
      [topology_strings] of [TopologyProps] is the one of the code.
    - [CullDescr]: the object types of CULL ([libs/cull/cull_list.h],
      [libs/cull/cull_listP.h]), their reductions to some of the fields and the registry that
      shares and counts these ([libs/cull/ocs_cull_descr.cc]).  The registry's memory is
      explicit, and using a freed block is a result of its own.  [CullDescrFacts] says which
      fields of a type a block stands for, [CullRegistry] keeps the registry well formed,
      [CullDescrProps] holds the properties.
    - [CullPack]: packing of lists ([libs/cull/cull_pack.cc], with the functions of
      [cull_what.cc], [cull_db.cc] and [cull_list.cc] it calls).  A function runs on a state of
      allocator, registry, pack buffer and descriptor table, and returns a value or a code.
      The lists a field holds are nested values; packing one is a recursion on the value,
      unpacking one a recursion with fuel.  [CullTree] is what a list means without pointers,
      [CullWire] what packing writes, [CullUnwire] what unpacking reads, [CullOwn] who holds
      references while arbitrary bytes are read, [CullPackProps] the properties.
    - [CullWhat], [CullWhatProps]: the rest of [cull_pack.cc], field selections, conditions and
      byte arrays.
    - [Host], [HostProps]: what makes a name a pattern, an expression, a group or a matcher
      ([libs/uti/ocs_Pattern.h]), and how host names are stored and compared
      ([libs/uti/sge_hostname.cc]).
    - [Expr], [ExprProps]: wildcard expressions of requests ([libs/sgeobj/sge_eval_expression.cc]).
    - [Text]: numbers and tokens in strings; [RangeText], [RangeTextProps]: range lists as text
      (the printing and parsing functions of [sge_range.cc]).  [strtod] is the interface
      [Strtod].
    - [CalTime], [Calendar], [CalParse]: year and week calendars ([libs/sgeobj/sge_calendar.cc]),
      their times, the state at a moment and the parser of the fields.  Local time is the
      interface of the C library's [localtime_r] and [mktime].  [CalFacts],
      [CalState], [CalDays], [CalEntry], [CalStateProps], [CalWeek] and [CalParseFacts] hold
      the lemmas, [CalProps] the properties.
    - [Qeti], [QetiProps]: the iterator over the moments at which resource diagrams change
      ([libs/sched/sge_qeti.cc]) and the search for a reservation over it (the loop of
      [parallel_reservation_max_time_slots] in [sge_select_queue.cc]).  It walks the diagrams
      of [Utilization]; what is tried at a moment is a parameter.
    - [HGroup], [HGroupFacts], [HGroupProps]: host groups ([libs/sgeobj/sge_href.cc],
      [sge_hgroup.cc], [ocs_Matcher.cc]) and the check of a changed group in
      [daemons/qmaster/sge_hgroup_qmaster.cc].  Names are compared by [Host], expressions over
      groups are evaluated by [Expr].
    - [SList], [SListFacts], [SListProps]: doubly linked lists ([libs/uti/sge_sl.cc]), with
      their nodes in a heap.  [TaskQueue], [TaskQueueProps]: queues of tasks between threads on
      top of them ([libs/uti/sge_tq.cc], and the requests that wait for their session in
      [daemons/qmaster/ocs_MirrorReaderDataStore.cc]); a step of a thread is what it does under
      the mutex from one wait to the next.

    - [TopologyString], [TopologyUnits]: the processors of a host as a tree of letters
      ([libs/sgeobj/ocs_TopologyString.cc], with the units, starts and stops of a request from
      [ocs_BindingUnit.cc], [ocs_BindingStart.cc], [ocs_BindingStop.cc] and
      [ocs_BindingType.cc]): text and tree, marking, sorting; the search for free units and
      marking the units found.  [TopologyFacts] relates text and tree, [TopologyBits] and
      [TopologyUnitFacts] say which threads an operation takes, [TopologySearch] what the
      recursion of the search visits, [TopologyOrder] what holds for trees with cores of one
      kind.
    - [Binding]: core binding.  The scheduler tests and applies the request of a job on a host
      ([libs/sched/ocs_BindingSchedd.cc], defaults from [libs/sgeobj/ocs_BindingObj.cc]), the
      result is booked on the host ([host_debit_binding] in [libs/sgeobj/sge_host.cc]), and the
      execution side gets the union of what was granted
      ([libs/sgeobj/ocs_GrantedResources.cc]).  [BindingFacts] holds the lemmas on the loops
      over slots, [BindingProps], [BindingHostProps] and [TopologyProps] the properties and
      their witnesses.

    A function of the code is a function here, with the name it has in the code and the state it
    changes passed in and out; its loops are named after what they do.  Attributes of 32 and 64
    bits are integers and every operation on them wraps ([u32], [u64], [s32]).  Null pointers
    are [None] where the code distinguishes them.  Trace output, logging and freeing of memory
    are left out.

    What is shown
    -------------

    - Range lists: the documented conditions on a list ([rl_ok], those of
      [sgeobj/cull/sge_range_RN_L.h]) are kept, and inserting, removing, union, difference,
      intersection, normalising and compressing are the operations on sets of ids
      ([RangeProps]); normalising terminates on any list and the id loops enumerate a list once.
    - Jobs: setting a hold gives one task exactly the requested hold and changes no other;
      enrolling moves one task and unenrolling undoes it; sorting tasks by hold is a partition;
      the counts count every task once ([JobProps], [JobHolds]).
    - Pack buffers: what was packed is unpacked unchanged behind a header, unpacking arbitrary
      bytes stays inside the message, counting mode counts what packing writes ([PackProps]).
    - Types and lists: a reduced type holds the requested fields and is shared; any well typed
      list, however nested, is unpacked by any receiver as the list that was sent, and what
      arrives is well typed again and arrives unchanged when it is sent on; selections and
      conditions arrive as they were; whatever bytes arrive, unpacking a type descriptor ends, stays
      inside the message, hands out counted references only and leaves those of others alone
      ([unpacked_descr_held]); a list of any bytes is read the same way unless a value is freed
      as one of another type, which [foreign_free_element_mistyped] shows to happen
      ([CullDescrProps], [CullPackProps], [CullWhatProps]).
    - FIFO lock: in every interleaving a writer excludes everybody, the queue of the
      threads in the order of their arrival is served from its front, a queued thread is never left without
      somebody who wakes the queue, the array is never accessed outside ([FifoLockProps]).
    - Containers: the hash table is a finite map through all growing and shrinking, a bitfield
      is a set of bits, list and set of the queue without duplicates stay in step.
    - Queue instance states: the twelve flags are a set, the letters are read back as the same
      states, an action is valid exactly when it is documented.
    - Users: the limit holds for every sequence of registrations.
    - Resource diagrams: the maximum over a window is exact and the start time found is the
      earliest, for any amounts.  For [double]s that are multiples of a power of two (slots,
      licences, bytes), a diagram is the sum of its bookings at every moment and in canonical
      form, giving a booking back undoes it, and requests that [ri_time_by_slots] admitted never
      exceed the total; [fractional_residue] and [fractional_oversubscription] show what
      rounding does to other amounts.  End times never wrap; giving instances of a resource map back undoes taking them.
    - Names and texts: host names compare as equal exactly when they are stored as equal names;
      an expression is evaluated as the tree its grammar gives it ([ExprProps]); a printed range
      list is parsed back to the same ids ([RangeTextProps]).
    - Calendars: the state at a moment is the one the active entries give and stays until the
      reported change; the manual page says the same except in the second in which a range ends
      and on days of the year field at other times of day ([reads_as_documented]); a queue counts
      as open in a time frame exactly when no active entry closes it throughout; any text of a
      field that fits the buffer of the scanner is read to its end or refused ([CalProps]).
    - Reservations: the iterator visits every moment of change once, last one first, and the
      search keeps the earliest moment that has an assignment ([QetiProps]).
    - Host groups: a change that would close a cycle is refused and any other one accepted, so
      that resolving a group ends and collects exactly the hosts below it, with or without the
      cache; the explanation finds a route exactly to the members ([HGroupProps]).
    - Simple lists are sequences, whatever the calls, and give back all memory; sorted insertion
      keeps them in order ([SListProps]).  Task queues hand out every task once and in order,
      no wake-up is lost, null is returned only at shutdown ([TaskQueueProps]).
    - Topologies: text and tree agree and reading ends on any text; a search returns the first
      free units of its section, as many as are asked for ([TopologyProps]).  Core binding: every
      slot of a job gets free processors of its own, as many slots are bound as were promised
      ([BindingProps]); what is booked on a host is the set of threads of the bindings booked and
      not released, releasing restores the text, and a job in an advance reservation is offered
      the threads granted to it on the host only, if any were granted there
      ([BindingHostProps]).
    - Examples and some theorems record behaviour that differs from what the code or its
      documentation means to do: [id_loop_diverges], [move_first_n_ids_effect],
      [smallest_unenrolled_task_id], [answer_list_log_reports_last], [packbuf_bounds],
      [try_lock_blocks], [bitwise_copy_leaves_stray_bits], [null_list_not_counted],
      [empty_string_matches_everything], [fractional_residue],
      [fractional_oversubscription],
      [unbound_booking_forgets_binding], [foreign_free_element_mistyped], [what_length_wraps],
      [byte_array_roundtrip], [open_in_time_frame_hangs], [given_start_tried_alone],
      [cycle_never_ends], [sort_empty_fails], [packed_cores], [efficiency_threads_taken],
      [more_than_asked], [unknown_letter_outside], [sorted_slot_binds_used_core],
      [second_call_binds_again], [core_without_threads_found_again], [lower_case_sorts_used_first]
      and the examples of [CalProps].

    Bounds and fuel
    ---------------

    - [Range.id_loop] runs as many rounds as the range has ids; [id_loop_enumerates] shows that
      this is enough for every range whose next id fits in 32 bits, and running out means that
      the counter has wrapped around and the loop of the code does not end.
    - [Range.remove_overlaps] has one round per range of the list: every round consumes one.
    - [Pack.grow_size] has as many rounds as the missing bytes have chunks, plus one.
    - [HTable.hash_compute_size] has 31 rounds, the bits of a positive [int].  The map theorem
      is stated up to [2^30] slots, the largest power the shift on [int] can make.
    - Unpacking a list, a selection or a condition has one unit of fuel for every level of
      nesting and every element; both take at least four bytes, and the theorems show that
      more fuel than bytes is enough.
    - [Expr.expression_fuel] is eight rounds for every character and eight more;
      [functions_return] shows that the three functions need no more.  The loop over the tokens
      of a range list has one round for every character and one more; every token is at least
      one character.
    - A calendar entry is evaluated for the day and at most the next one ([entry_fuel]); the loop
      over the week entries marks one in every round; the parser's loops have one round for
      every character; the loop over the changes of a time frame has at most one round for every
      second of it.  The text of a field is shorter than the 1000 bytes of the scanner's buffer.
    - The search for a reservation has one round for every entry of a diagram and one more, as
      every round goes back to an earlier entry.  Resolving groups nests no deeper than there
      are groups, plus one; on a cycle no fuel is enough ([cycle_never_ends]).  The explanation
      of a membership looks 33 levels deep, the bound of the code.
    - Walks over a simple list have one round for every node in the heap.  There are fewer than
      [2^32] calls on a list and threads at a task queue, so that their counters do not wrap.
    - Reading a topology takes one unit of fuel for every character, as every call reads one.
      The loop over the slots of a job has one round for every thread of the host and one more;
      every slot takes at least one thread, as [slots_bound_apart] and [tested_slots_applied]
      show.  A letter outside the alphabet writes in front of an array, which is the result
      [Outside]; running out of fuel is [Exhausted].
    - The queue of the FIFO lock has 512 places, the constant of the code; the theorems hold for
      any number of threads.

    Not modelled
    ------------

    Of the object types and lists, the hash indexes a list may have (and with them the failure
    of allocating one while a list is unpacked), statistics and profiling are left out; a function that holds the mutex of the registry is one step, so the window
    between giving up the last reference and erasing the entry is not interleaved.

    Of calendars, zones with daylight saving time have no theorem, and [calender_state_changes]
    is defined without one.  Of host groups, the merging of a request into the member list and
    the guards of reserved groups are left out.  Of resource diagrams, the functions that walk
    the attributes of a job, queue or calendar and call the booking for each of them are left
    out, as they read most object types of the system; so is the refinement of [ri_time_by_slots] for
    the instances of a resource map, and what it does before: finding the attribute and comparing
    it without regard to time.  Of topologies, the characteristics of
    nodes are left out, which no build compiles in; of core binding, the side of the execution
    daemon ([libs/sgeobj/ocs_Binding.cc], [libs/uti/ocs_Topo.cc]), which drives a third party
    library, and the options of the command line.

    The communication, GDI and spooling libraries, the daemons and the clients are mostly input
    and output around the libraries above; the event master and its clients ([libs/evm],
    [libs/evc]), which number, resend and acknowledge events, are left out.  The policies of the scheduler ([sgeee.cc],
    [sge_urgency.cc]) are formulas over rounded floating point numbers; the search for queues of
    a job ([sge_select_queue.cc]), quotas, complexes and the generic list operations of
    [libs/cull] are left out for their size. *)
From Stdlib Require Export ZArith Lia ZifyBool.
From stdpp Require Export base tactics numbers list gmap strings sorting.

Global Open Scope Z_scope.

Coercion Z.of_nat : nat >-> Z.
(** ** Machine integers *)

(** [u32 z] and [u64 z] are the values a [uint32_t] and a [uint64_t] hold
    after an arithmetic expression has been evaluated. *)
Definition u32 (z : Z) : Z := z mod 4294967296.
Definition u64 (z : Z) : Z := z mod 18446744073709551616.

(** The [int] with the bits of [z]. *)
Definition s32 (z : Z) : Z := (z + 2147483648) mod 4294967296 - 2147483648.

Definition is_u32 (z : Z) : Prop := 0 <= z < 4294967296.
Definition is_u64 (z : Z) : Prop := 0 <= z < 18446744073709551616.

Create HintDb ocs discriminated.

(** Decides the comparisons of the goal, closing the cases whose assumptions contradict. *)
Ltac zcases :=
  repeat match goal with
  | |- context [?a <=? ?b] => destruct (Z.leb_spec a b); try lia
  | |- context [?a <? ?b] => destruct (Z.ltb_spec a b); try lia
  | |- context [?a =? ?b] => destruct (Z.eqb_spec a b); try lia
  end.

Lemma u32_range z : is_u32 (u32 z).
Proof. unfold is_u32, u32. apply Z.mod_pos_bound. lia. Qed.

Lemma u32_small z : 0 <= z < 4294967296 -> u32 z = z.
Proof. intros. apply Z.mod_small. lia. Qed.

Lemma u32_add_cases z :
  0 <= z < 8589934592 ->
  (z < 4294967296 /\ u32 z = z) \/ (4294967296 <= z /\ u32 z = z - 4294967296).
Proof.
  intros. destruct (Z_lt_le_dec z 4294967296); [left | right].
  - split; [lia|]. apply u32_small. lia.
  - split; [lia|]. unfold u32. symmetry. apply Z.mod_unique with 1; lia.
Qed.

Lemma u32_sub_cases z :
  -4294967296 <= z < 4294967296 ->
  (0 <= z /\ u32 z = z) \/ (z < 0 /\ u32 z = z + 4294967296).
Proof.
  intros. destruct (Z_lt_le_dec z 0); [right | left].
  - split; [lia|]. unfold u32. symmetry. apply Z.mod_unique with (-1); lia.
  - split; [lia|]. apply u32_small. lia.
Qed.

(** ** Bits of machine words *)

Lemma land_pow2_zero x k : 0 <= k -> (Z.land x (2 ^ k) =? 0) = negb (Z.testbit x k).
Proof.
  intros Hk. destruct (Z.testbit x k) eqn:E; simpl.
  - apply Z.eqb_neq. intros H.
    assert (Z.testbit (Z.land x (2 ^ k)) k = false) as H' by (by rewrite H, Z.bits_0).
    rewrite Z.land_spec, E, Z.pow2_bits_true in H' by done. done.
  - apply Z.eqb_eq, Z.bits_inj_0. intros n. rewrite Z.land_spec.
    destruct (decide (n = k)) as [->|Hn]; [by rewrite E|].
    rewrite Z.pow2_bits_false by congruence. apply andb_false_r.
Qed.

(** A [uint32_t] has no bit from 32 on, and a number without such a bit fits. *)
Lemma u32_high x n : is_u32 x -> 32 <= n -> Z.testbit x n = false.
Proof.
  intros [? ?] Hn. rewrite <- (Z.mod_small x (2 ^ 32)) by (change (2 ^ 32) with 4294967296; lia).
  apply Z.mod_pow2_bits_high. lia.
Qed.

Lemma u32_of_bits x : 0 <= x -> (forall n, 32 <= n -> Z.testbit x n = false) -> is_u32 x.
Proof.
  intros H0 Hb. split; [done|].
  assert (x = x mod 2 ^ 32) as ->.
  { apply Z.bits_inj'. intros n Hn. destruct (Z_lt_le_dec n 32).
    - rewrite Z.mod_pow2_bits_low by lia. done.
    - rewrite Z.mod_pow2_bits_high by lia. by apply Hb. }
  pose proof (Z.mod_pos_bound x (2 ^ 32)). lia.
Qed.

#[export] Hint Resolve u32_range : ocs.
