(* ===== verification/Answer.v ===== *)
(** Answer lists ([sge_answer.cc]): the error channel every operation of the
    object library reports through.

    An answer is a [status], a [quality] and a text.  A C function receives the
    channel as an [lList **]: [answer_arg] is that argument, [None] when the
    caller passes [nullptr] for it, [Some l] otherwise, where [l] is the
    [lList *] it points at ([None] again for [nullptr]).  Printing functions
    return the printed lines as a trace. *)

From S2P Require Import Prelude.

Module Answer.

(** ** Data *)

(** [answer_quality_t]; the numbers are the enumerators' values. *)
Inductive answer_quality :=
  | ANSWER_QUALITY_CRITICAL
  | ANSWER_QUALITY_ERROR
  | ANSWER_QUALITY_WARNING
  | ANSWER_QUALITY_INFO
  | ANSWER_QUALITY_END.

#[export] Instance answer_quality_eq_dec : EqDecision answer_quality.
Proof. solve_decision. Defined.

Definition quality_code (q : answer_quality) : Z :=
  match q with
  | ANSWER_QUALITY_CRITICAL => 0
  | ANSWER_QUALITY_ERROR => 1
  | ANSWER_QUALITY_WARNING => 2
  | ANSWER_QUALITY_INFO => 3
  | ANSWER_QUALITY_END => 4
  end.

(** [an_status_t]: consecutive values from [STATUS_OK = 1]. *)
Definition STATUS_OK : Z := 1.
Definition STATUS_ESEMANTIC : Z := 2.
Definition STATUS_EEXIST : Z := 3.
Definition STATUS_EUNKNOWN : Z := 4.
Definition STATUS_ENOIMP : Z := 5.
Definition STATUS_ENOKEY : Z := 6.
Definition STATUS_ESYNTAX : Z := 7.
Definition STATUS_EDENIED2HOST : Z := 8.
Definition STATUS_ENOMGR : Z := 9.
Definition STATUS_ENOOPR : Z := 10.
Definition STATUS_NOQMASTER : Z := 11.
Definition STATUS_NOCOMMD : Z := 12.
Definition STATUS_NOCONFIG : Z := 13.
Definition STATUS_EMALLOC : Z := 17.
Definition STATUS_ERROR1 : Z := 23.

(** [AN_Type]; the quality attribute is a [uint32_t], any number. *)
Record answer := Ans { an_text : string; an_status : Z; an_quality : Z }.

Abbreviation answer_list := (list answer).
Abbreviation answer_arg := (option (option (list answer))).

(** ** Operations on one answer *)

Definition answer_has_quality (a : answer) (q : answer_quality) : bool :=
  an_quality a =? quality_code q.

Definition non_recoverable : list Z :=
  [STATUS_NOQMASTER; STATUS_NOCOMMD; STATUS_ENOKEY; STATUS_NOCONFIG].

Definition answer_is_recoverable (a : option answer) : bool :=
  match a with
  | None => true
  | Some a => negb (existsb (Z.eqb (an_status a)) non_recoverable)
  end.

(** [quality_text[quality]] after the clamp of an out-of-range quality. *)
Definition answer_get_quality_text (a : answer) : string :=
  let q := if quality_code ANSWER_QUALITY_END <=? an_quality a
           then quality_code ANSWER_QUALITY_CRITICAL else an_quality a in
  default "" (["CRITICAL"; "ERROR"; "WARNING"; "INFO"]%string !! Z.to_nat q).

Definition answer_get_status (a : answer) : Z := an_status a.

(** ** Operations on the list *)

Definition answer_list_has_quality (al : answer_arg) (q : answer_quality) : bool :=
  match al with
  | None => false
  | Some l => existsb (fun a => answer_has_quality a q) (default [] l)
  end.

Definition answer_list_remove_quality (l : answer_list) (q : answer_quality) : answer_list :=
  List.filter (fun a => negb (answer_has_quality a q)) l.

Definition answer_list_has_status (al : answer_arg) (status : Z) : bool :=
  match al with
  | None => false
  | Some l => existsb (fun a => answer_get_status a =? status) (default [] l)
  end.

Definition answer_list_has_error (al : answer_arg) : bool :=
  answer_list_has_quality al ANSWER_QUALITY_ERROR
  || answer_list_has_quality al ANSWER_QUALITY_CRITICAL.

(** The list cell is created on demand and the new answer goes last. *)
Definition answer_list_add_elem (al : answer_arg) (a : answer) : bool * answer_arg :=
  match al with
  | None => (false, None)
  | Some l => (true, Some (Some (default [] l ++ [a])))
  end.

Definition answer_list_add (al : answer_arg) (text : string) (status : Z)
    (q : answer_quality) : bool * answer_arg :=
  answer_list_add_elem al (Ans text status (quality_code q)).

Definition answer_list_replace (al new_list : answer_arg) : answer_arg * answer_arg :=
  match al with
  | None => (None, new_list)
  | Some _ =>
      match new_list with
      | Some l => (Some l, Some None)
      | None => (Some None, None)
      end
  end.

(** [lAddList] moves every element of the second list and frees it. *)
Definition answer_list_append_list (al new_list : answer_arg) : answer_arg * answer_arg :=
  match al, new_list with
  | Some l, Some (Some n) => (Some (Some (default [] l ++ n)), Some None)
  | _, _ => (al, new_list)
  end.

(** What the printing loops write: which stream, with which prefix. *)
Inductive output := Stdout (line : string) | Stderr (line : string).

Definition answer_print_text (a : answer) (prefix : string) : string :=
  (prefix ++ an_text a)%string.

(** [answer_list_print_err_warn]: the loop carries [(do_exit, status)]. *)
Definition print_err_warn_step (critical_prefix err_prefix warn_prefix : string)
    (st : bool * Z * list output) (a : answer) : bool * Z * list output :=
  let '(do_exit, status, out) := st in
  let severe p :=
    (true, if do_exit then status else answer_get_status a,
     out ++ [Stderr (answer_print_text a p)]) in
  if answer_has_quality a ANSWER_QUALITY_CRITICAL then severe critical_prefix
  else if answer_has_quality a ANSWER_QUALITY_ERROR then severe err_prefix
  else if answer_has_quality a ANSWER_QUALITY_WARNING then
    (do_exit, status, out ++ [Stdout (answer_print_text a warn_prefix)])
  else (do_exit, status, out ++ [Stdout (answer_print_text a "")]).

Definition answer_list_print_err_warn (l : answer_list)
    (critical_prefix err_prefix warn_prefix : string) : Z * list output :=
  let '(_, status, out) :=
    fold_left (print_err_warn_step critical_prefix err_prefix warn_prefix) l
      (false, 0, []) in
  (status, out).

Definition handle_request_step (st : Z * list output) (a : answer) : Z * list output :=
  let '(ret, out) := st in
  if answer_has_quality a ANSWER_QUALITY_CRITICAL
     || answer_has_quality a ANSWER_QUALITY_ERROR
     || answer_has_quality a ANSWER_QUALITY_WARNING
  then (if ret =? STATUS_OK then an_status a else ret,
        out ++ [Stdout (answer_print_text a "")])
  else (ret, out).

(** [MSG_ANSWER_NOANSWERLIST] is a localised message. *)
Definition answer_list_handle_request_answer_list (msg_noanswerlist : string)
    (al : answer_arg) : Z * list output * answer_arg :=
  match al with
  | Some (Some l) =>
      let '(ret, out) := fold_left handle_request_step l (STATUS_OK, []) in
      (ret, out, Some None)
  | _ => (STATUS_EUNKNOWN, [Stdout msg_noanswerlist], al)
  end.

(** [answer_log] returns whether the answer is an error; the [ERROR], ...
    macros write one log line. *)
Inductive log_line := Log (q : answer_quality) (text : string).

Definition answer_log (a : answer) (show_info : bool) : bool * list log_line :=
  if answer_has_quality a ANSWER_QUALITY_CRITICAL then
    (true, [Log ANSWER_QUALITY_CRITICAL (an_text a)])
  else if answer_has_quality a ANSWER_QUALITY_ERROR then
    (true, [Log ANSWER_QUALITY_ERROR (an_text a)])
  else if answer_has_quality a ANSWER_QUALITY_WARNING then
    (false, [Log ANSWER_QUALITY_WARNING (an_text a)])
  else if answer_has_quality a ANSWER_QUALITY_INFO then
    (false, if show_info then [Log ANSWER_QUALITY_INFO (an_text a)] else [])
  else (false, []).

Definition answer_list_log_step (show_info : bool) (st : bool * list log_line)
    (a : answer) : bool * list log_line :=
  let '(r, lines) := answer_log a show_info in (r, st.2 ++ lines).

(** The return value is overwritten in every iteration. *)
Definition answer_list_log (al : answer_arg) (is_free_list show_info : bool) :
    bool * list log_line * answer_arg :=
  match al with
  | Some (Some l) =>
      let '(ret, lines) := fold_left (answer_list_log_step show_info) l (false, []) in
      (ret, lines, if is_free_list then Some None else al)
  | _ => (false, [], al)
  end.

Definition answer_list_output (al : answer_arg) : bool * list log_line * answer_arg :=
  answer_list_log al true true.

(** ** Facts *)

(** The answers a caller has to react to. *)
Definition severe (a : answer) : bool :=
  answer_has_quality a ANSWER_QUALITY_CRITICAL || answer_has_quality a ANSWER_QUALITY_ERROR.

Definition first_status (p : answer -> bool) (d : Z) (l : answer_list) : Z :=
  match List.find p l with Some a => an_status a | None => d end.

Lemma severe_has_error l : answer_list_has_error (Some (Some l)) = existsb severe l.
Proof.
  unfold answer_list_has_error, answer_list_has_quality, severe; simpl.
  induction l as [|a l IH]; simpl; [done|]. rewrite <- IH.
  destruct (answer_has_quality a ANSWER_QUALITY_CRITICAL),
    (answer_has_quality a ANSWER_QUALITY_ERROR), (existsb _ l); simpl; try done;
    destruct (existsb _ l); done.
Qed.

Lemma print_err_warn_fold c e w l st :
  (fold_left (print_err_warn_step c e w) l st).1.2 =
    (if st.1.1 then st.1.2 else first_status severe st.1.2 l).
Proof.
  revert st. induction l as [|a l IH]; intros [[d s] o]; simpl.
  { unfold first_status; simpl. by destruct d. }
  rewrite IH. unfold print_err_warn_step, first_status, severe, answer_get_status; simpl.
  destruct (answer_has_quality a ANSWER_QUALITY_CRITICAL); simpl; [by destruct d|].
  destruct (answer_has_quality a ANSWER_QUALITY_ERROR); simpl; [by destruct d|].
  destruct (answer_has_quality a ANSWER_QUALITY_WARNING); done.
Qed.

Lemma print_err_warn_output_length c e w l st :
  length (fold_left (print_err_warn_step c e w) l st).2 = (length st.2 + length l)%nat.
Proof.
  revert st. induction l as [|a l IH]; intros [[d s] o]; simpl; [lia|].
  rewrite IH. unfold print_err_warn_step; simpl.
  repeat case_match; simpl; rewrite length_app; simpl; lia.
Qed.

Lemma answer_list_log_fold i l st :
  (fold_left (answer_list_log_step i) l st).1 =
    match last l with Some a => severe a | None => st.1 end.
Proof.
  revert st. induction l as [|a l IH] using rev_ind; intros st; [done|].
  rewrite fold_left_app, last_snoc; simpl. unfold answer_list_log_step at 1, answer_log, severe.
  repeat case_match; simpl in *; simplify_eq; rewrite ?orb_true_r; try done;
    by destruct (answer_has_quality a ANSWER_QUALITY_CRITICAL).
Qed.

(** ** Properties *)

(** [answer_list_print_err_warn] returns the status of the first answer of
    quality ERROR or CRITICAL and 0 exactly when it finds none, and it prints one
    line for every answer, whatever its quality. *)
Theorem print_err_warn_first_error (l : answer_list) (c e w : string) :
  (answer_list_print_err_warn l c e w).1 = first_status severe 0 l /\
  length (answer_list_print_err_warn l c e w).2 = length l.
Proof.
  unfold answer_list_print_err_warn. split.
  - pose proof (print_err_warn_fold c e w l (false, 0, [])) as H.
    destruct (fold_left _ l _) as [[? ?] ?]. exact H.
  - pose proof (print_err_warn_output_length c e w l (false, 0, [])) as H.
    destruct (fold_left _ l _) as [[? ?] ?]. exact H.
Qed.

(** The value [answer_list_log] returns tells about the LAST answer only: an
    error that is followed by a warning or an info message goes unreported, although
    the list has an error in the sense of [answer_list_has_error]. *)
Theorem answer_list_log_reports_last (l : answer_list) (b i : bool) (a : answer) :
  (answer_list_log (Some (Some (l ++ [a]))) b i).1.1 = severe a /\
  (severe a = false -> answer_list_has_error (Some (Some l)) = true ->
   (answer_list_log (Some (Some (l ++ [a]))) b i).1.1 = false /\
   answer_list_has_error (Some (Some (l ++ [a]))) = true).
Proof.
  pose proof (answer_list_log_fold i (l ++ [a]) (false, [])) as H.
  rewrite last_snoc in H. unfold answer_list_log.
  destruct (fold_left _ (l ++ [a]) _) as [r o]; simpl in *. split; [done|].
  intros Hs He. split; [congruence|].
  rewrite severe_has_error in *. by rewrite existsb_app, He.
Qed.

Example answer_list_log_reports_last_witness :
  (answer_list_log (Some (Some ([Ans "no memory" STATUS_ERROR1 1] ++ [Ans "done" STATUS_OK 3])))
     true true).1.1 = false.
Proof.
  apply (answer_list_log_reports_last [Ans "no memory" STATUS_ERROR1 1] true true
           (Ans "done" STATUS_OK 3)); reflexivity.
Defined.

End Answer.
