(* ===== verification/Range.v ===== *)
(** Range lists ([sge_range.cc]): sets of task ids kept as [min]-[max]:[step]
    triples.

    [range] is an [RN_Type] element, an [lList *] of them is an
    [option (list range)] ([None] for [nullptr]) where the code tells the two
    apart and a [list range] where it does not.  The attributes are [uint32_t], so
    every sum and difference of the code wraps ([u32]).  Memory allocation is
    taken to succeed: the branches that report "unable to create range list" and
    the like are not modelled. *)

From S2P Require Import Prelude Answer.
Import Answer.

(** [lPSortList(list, "%I+", RN_min)] sorts with the C library's [qsort], whose
    order on equal keys is unspecified: all the development relies on is that the
    result is a permutation in ascending order of [RN_min]. *)
Record range := Range { rn_min : Z; rn_max : Z; rn_step : Z }.

#[export] Instance range_eq_dec : EqDecision range.
Proof. solve_decision. Defined.

Definition min_le (a b : range) : Prop := rn_min a <= rn_min b.

Class SortByMin := {
  sort_by_min : list range -> list range;
  sort_by_min_perm : forall l, sort_by_min l ≡ₚ l;
  sort_by_min_sorted : forall l, StronglySorted min_le (sort_by_min l);
}.

Module Ranges.

(** ** Accessors *)

Definition range_get_all_ids (r : option range) : Z * Z * Z :=
  match r with
  | Some r => (rn_min r, rn_max r, rn_step r)
  | None => (0, 0, 0)
  end.

(** Overwrites all three attributes, so the old element does not matter. *)
Definition range_set_all_ids (min max step : Z) : range :=
  if min =? max then Range min max 1 else Range min max step.

Definition range_correct_end (r : range) : range :=
  let '(start, end_, step) := range_get_all_ids (Some r) in
  if 0 <? step then
    let end' :=
      if u32 (end_ - start) mod step =? 0 then end_
      else
        let factor := u32 (end_ - start) / step in
        u32 (start + u32 (factor * step)) in
    range_set_all_ids start end' step
  else range_set_all_ids start end_ (u32 (end_ - start)).

Definition range_is_overlapping (this_elem r : range) : bool :=
  rn_min r <=? rn_max this_elem.

Definition range_get_number_of_ids (r : range) : Z :=
  u32 (1 + u32 (rn_max r - rn_min r) / rn_step r).

Definition range_list_get_number_of_ids (l : list range) : Z :=
  fold_left (fun ret r => u32 (ret + range_get_number_of_ids r)) l 0.

Definition range_list_is_empty (l : list range) : bool :=
  range_list_get_number_of_ids l =? 0.

Definition no_elements : string := "range_list containes no elements".

Definition range_list_get_first_id (l : list range) (al : answer_arg) : Z * answer_arg :=
  match l with
  | r :: _ => (rn_min r, al)
  | [] => (0, (answer_list_add al no_elements STATUS_ERROR1 ANSWER_QUALITY_ERROR).2)
  end.

Definition range_list_get_last_id (l : list range) (al : answer_arg) : Z * answer_arg :=
  match last l with
  | Some r => (rn_max r, al)
  | None => (0, (answer_list_add al no_elements STATUS_ERROR1 ANSWER_QUALITY_ERROR).2)
  end.

Definition range_containes_id_less_than (r : range) (id : Z) : bool := rn_min r <? id.

Definition range_list_containes_id_less_than (l : list range) (id : Z) : bool :=
  existsb (fun r => range_containes_id_less_than r id) l.

Definition range_is_id_within (r : range) (id : Z) : bool :=
  (rn_min r <=? id) && (id <=? rn_max r) && (u32 (id - rn_min r) mod rn_step r =? 0).

Definition range_list_is_id_within (l : list range) (id : Z) : bool :=
  existsb (fun r => range_is_id_within r id) l.

(** ** The id loop

    [for (; start <= end; start += step)] on [uint32_t].  [range_ids] lists the
    values [start] takes; [None] is a loop that is still running after as many
    rounds as the range has ids, i.e. one whose [start] has wrapped around. *)

Fixpoint id_loop (fuel : nat) (start end_ step : Z) : option (list Z) :=
  if start <=? end_ then
    match fuel with
    | O => None
    | S fuel => cons start <$> id_loop fuel (u32 (start + step)) end_ step
    end
  else Some [].

Definition range_fuel (r : range) : nat :=
  S (Z.to_nat ((rn_max r - rn_min r) / rn_step r)).

Definition range_ids (r : range) : option (list Z) :=
  id_loop (range_fuel r) (rn_min r) (rn_max r) (rn_step r).

Fixpoint range_list_ids (l : list range) : option (list Z) :=
  match l with
  | [] => Some []
  | r :: l => ids ← range_ids r; rest ← range_list_ids l; Some (ids ++ rest)
  end.

(** ** Joining neighbours: [range_list_compress] *)

(** One round of the loop: [range1] absorbs [range2], or it does not. *)
Definition range_join (r1 r2 : range) : option range :=
  let '(start1, end1, step1) := range_get_all_ids (Some r1) in
  let '(start2, end2, step2) := range_get_all_ids (Some r2) in
  if (u32 (end1 + step1) =? start2) && (step1 =? step2) then
    Some (range_set_all_ids start1 end2 step2)
  else if (start1 =? end1) && (step1 =? 1) && (end1 =? u32 (start2 - step2)) then
    Some (range_set_all_ids start1 end2 step2)
  else if (start2 =? end2) && (step2 =? 1) && (u32 (end1 + step1) =? end2) then
    Some (range_set_all_ids start1 end2 step1)
  else if (start1 =? end1) && (start2 =? end2) && (step1 =? step2) && (step1 =? 1) then
    Some (range_set_all_ids start1 start2 (u32 (start2 - start1)))
  else None.

(** After a join the loop stays on [range1]; otherwise it moves to its successor. *)
Fixpoint compress_from (r1 : range) (l : list range) : list range :=
  match l with
  | [] => [r1]
  | r2 :: l' =>
      match range_join r1 r2 with
      | Some r => compress_from r l'
      | None => r1 :: compress_from r2 l'
      end
  end.

Definition range_list_compress (l : list range) : list range :=
  match l with
  | [] => []
  | r :: l' => compress_from r l'
  end.

(** ** Removing one id *)

Definition range_holds_id (r : range) (id : Z) : bool :=
  (rn_min r <=? id) && (id <=? rn_max r) && (u32 (id - rn_min r) mod rn_step r =? 0).

(** The element(s) that take the place of the range [id] was found in. *)
Definition range_without_id (r : range) (id : Z) : list range :=
  let '(start, end_, step) := range_get_all_ids (Some r) in
  if (id =? start) && ((id =? end_) || (end_ <? u32 (id + step))) then []
  else if id =? start then [range_set_all_ids (u32 (start + step)) end_ step]
  else if id =? end_ then [range_set_all_ids start (u32 (end_ - step)) step]
  else [range_set_all_ids start (u32 (id - step)) step;
        range_set_all_ids (u32 (id + step)) end_ step].

(** The first range that holds [id] is changed, the search stops there. *)
Fixpoint remove_id_walk (l : list range) (id : Z) : list range :=
  match l with
  | [] => []
  | r :: l' =>
      if range_holds_id r id then range_without_id r id ++ l'
      else r :: remove_id_walk l' id
  end.

(** A list that has become empty is freed. *)
Definition range_list_remove_id (l : option (list range)) (id : Z) : option (list range) :=
  match l with
  | None => None
  | Some l =>
      match remove_id_walk l id with
      | [] => None
      | l' => Some l'
      end
  end.

(** ** Inserting one id

    The loop walks from the last range to the first.  [before] are the ranges up
    to and including [range], nearest first, [after] the ranges from [next_range]
    on. *)

Definition insert_new (before after : list range) (id : Z) : list range :=
  rev before ++ range_set_all_ids id id 1 :: after.

(** Branches [4] and [5]. *)
Definition insert_at_next (before after : list range) (id : Z) : list range :=
  match after with
  | next :: rest =>
      if u32 (rn_min next - rn_step next) =? id then
        rev before ++ range_set_all_ids id (rn_max next) (rn_step next) :: rest
      else insert_new before after id
  | [] => insert_new before after id
  end.

(** The branches [already part], [3], [4] and [5]. *)
Definition insert_edge (before after : list range) (id : Z) : list range :=
  let unchanged := rev before ++ after in
  let is_next_start :=
    match after with next :: _ => rn_min next =? id | [] => false end in
  match before with
  | r :: prevs =>
      if (rn_max r =? id) || is_next_start then unchanged
      else if u32 (rn_max r + rn_step r) =? id then
        rev prevs ++ range_set_all_ids (rn_min r) id (rn_step r) :: after
      else insert_at_next before after id
  | [] => if is_next_start then unchanged else insert_at_next before after id
  end.

(** Branch [2]: [id] lies behind the start of [next_range]. *)
Definition insert_split (before : list range) (next : range) (rest : list range) (id : Z) :
    list range :=
  let '(next_start, next_end, next_step) := range_get_all_ids (Some next) in
  if u32 (id - next_start) mod next_step =? 0 then rev before ++ next :: rest
  else
    let factor := u32 (id - next_start) / next_step in
    let prev_id := u32 (next_start + u32 (factor * next_step)) in
    let next_id := u32 (next_start + u32 (u32 (factor + 1) * next_step)) in
    rev before ++ range_set_all_ids next_start prev_id next_step
      :: range_set_all_ids id id 1
      :: range_set_all_ids next_id next_end next_step :: rest.

Definition insert_at (before after : list range) (id : Z) : list range :=
  match after with
  | next :: rest =>
      if rn_min next <? id then insert_split before next rest id
      else insert_edge before after id
  | [] => insert_edge before after id
  end.

Fixpoint insert_walk (before after : list range) (id : Z) : list range :=
  match before with
  | [] => after ++ [range_set_all_ids id id 1]
  | r :: prevs =>
      if id <? rn_max r then
        match prevs with
        | [] => insert_at [] (r :: after) id
        | _ :: _ => insert_walk prevs (r :: after) id
        end
      else insert_at before after id
  end.

Section WithSort.
Context `{Sorting : SortByMin}.

Definition range_list_insert_id (l : list range) (id : Z) : list range :=
  insert_walk (rev (sort_by_min l)) [] id.

Definition range_list_insert_ids (l : list range) (ids : list Z) : list range :=
  fold_left range_list_insert_id ids l.

Definition range_list_remove_ids (l : option (list range)) (ids : list Z) :
    option (list range) :=
  fold_left range_list_remove_id ids l.

(** ** Normalising: [range_list_sort_uniq_compress] *)

Definition maybe_correct (correct_end : bool) (r : range) : range :=
  if correct_end then range_correct_end r else r.

(** The inner loop: [(tmp_list additions, rest)] after every range that
    overlaps [range1] has been moved to [tmp_list]. *)
Fixpoint take_overlapping (ce : bool) (r1 : range) (l : list range) :
    list range * list range :=
  match l with
  | [] => ([], [])
  | r2 :: l' =>
      let r2' := maybe_correct ce r2 in
      if range_is_overlapping r1 r2' then
        let '(tmp, rest) := take_overlapping ce r1 l' in (r2' :: tmp, rest)
      else ([], r2' :: l')
  end.

(** The outer loop: [(kept, tmp_list)].  Every round consumes a range. *)
Fixpoint remove_overlaps (fuel : nat) (ce : bool) (l : list range) : list range * list range :=
  match fuel, l with
  | S fuel, r1 :: l' =>
      let r1' := maybe_correct ce r1 in
      let '(tmp, rest) := take_overlapping ce r1' l' in
      let '(kept, tmp') := remove_overlaps fuel ce rest in
      (r1' :: kept, tmp ++ tmp')
  | _, _ => ([], [])
  end.

Definition range_list_sort_uniq_compress (l : list range) (correct_end : bool) :
    option (list range) :=
  let '(kept, tmp) := remove_overlaps (length l) correct_end (sort_by_min l) in
  ids ← range_list_ids tmp;
  Some (range_list_compress (range_list_insert_ids kept ids)).

(** ** Set operations

    The result is [None] when an id loop does not terminate; otherwise the new
    [*range_list] and [answer_list]. *)

Definition set_error (al : answer_arg) (what : string) : option (list range) * answer_arg :=
  (None, (answer_list_add al what STATUS_ERROR1 ANSWER_QUALITY_ERROR).2).

Definition range_list_calculate_union_set (old : option (list range)) (al : answer_arg)
    (l1 l2 : option (list range)) : option (option (list range) * answer_arg) :=
  match (match l1 with Some l => Some l | None => l2 end) with
  | None => Some (old, al)
  | Some src =>
      norm ← range_list_sort_uniq_compress src true;
      if answer_list_has_error al then Some (set_error al "unable to calculate union set")
      else
        match l1, l2 with
        | Some _, Some l2 =>
            ids ← range_list_ids l2;
            Some (Some (range_list_compress (range_list_insert_ids norm ids)), al)
        | _, _ => Some (Some norm, al)
        end
  end.

Definition range_list_calculate_difference_set (old : option (list range)) (al : answer_arg)
    (l1 l2 : option (list range)) : option (option (list range) * answer_arg) :=
  match l1 with
  | None => Some (old, al)
  | Some src =>
      norm ← range_list_sort_uniq_compress src true;
      if answer_list_has_error al then Some (set_error al "unable to calculate union set")
      else
        match l2 with
        | Some l2 =>
            ids ← range_list_ids l2;
            Some (range_list_compress <$> range_list_remove_ids (Some norm) ids, al)
        | None => Some (Some norm, al)
        end
  end.

Definition range_list_calculate_intersection_set (al : answer_arg)
    (l1 l2 : option (list range)) : option (option (list range) * answer_arg) :=
  match l1, l2 with
  | Some l1, Some l2 =>
      ids ← range_list_ids l1;
      Some (match List.filter (range_list_is_id_within l2) ids with
            | [] => None
            | hits => Some (range_list_compress (map (fun id => range_set_all_ids id id 1) hits))
            end, al)
  | _, _ => Some (None, al)
  end.

(** ** Splitting: [range_list_move_first_n_ids]

    The [break] on [n == 0] leaves the loop over the ids of ONE range; [n] is a
    [uint32_t] and keeps counting down from there. *)

Fixpoint move_ids (l2 : list range) (n : Z) (ids : list Z) : list range * Z :=
  match ids with
  | [] => (l2, n)
  | id :: ids' =>
      let l2' := range_list_compress (range_list_insert_id l2 id) in
      let n' := u32 (n - 1) in
      if n' =? 0 then (l2', n') else move_ids l2' n' ids'
  end.

Fixpoint move_ranges (l2 : list range) (n : Z) (l : list range) : option (list range) :=
  match l with
  | [] => Some l2
  | r :: l' => ids ← range_ids r; let '(l2', n') := move_ids l2 n ids in move_ranges l2' n' l'
  end.

Definition range_list_move_first_n_ids (l l2 : option (list range)) (n : Z) :
    option (option (list range) * option (list range)) :=
  match l with
  | None => Some (l, l2)
  | Some src =>
      moved ← move_ranges (default [] l2) n src;
      ids ← range_list_ids moved;
      Some (range_list_remove_ids l ids,
            match l2, moved with None, [] => None | _, _ => Some moved end)
  end.

End WithSort.
End Ranges.
