(* ===== verification/RangeFacts.v ===== *)
(** Facts about range lists: what a list means as a set of ids, the invariant the
    operations keep, and the effect of every operation on the set. *)

From S2P Require Import Prelude Answer Range.
Import Ranges.

Create Rewrite HintDb ids.

(** ** The ids of a range *)

(** [x] is one of [min], [min + step], ... that do not exceed [max]. *)
Definition id_in (x : Z) (r : range) : Prop :=
  exists j, 0 <= j /\ x = rn_min r + j * rn_step r /\ x <= rn_max r.

Definition ids_in (x : Z) (l : list range) : Prop := Exists (id_in x) l.

(** [range_ok B r]: the ids and the step of [r] are below the bound [B] and the
    range is not empty.  [max] may be off the step grid. *)
Definition range_ok (B : Z) (r : range) : Prop :=
  0 <= rn_min r /\ rn_min r <= rn_max r /\ rn_max r < B /\ 1 <= rn_step r < B.

(** [max] is an id of the range. *)
Definition aligned (r : range) : Prop := id_in (rn_max r) r.

Definition before (a b : range) : Prop := rn_max a < rn_min b.

(** The representation invariant: ascending, disjoint as intervals, every end on
    its grid. *)
Record rl_ok (B : Z) (l : list range) : Prop := {
  rl_ranges : Forall (fun r => range_ok B r /\ aligned r) l;
  rl_sorted : StronglySorted before l;
}.

Definition below (x : Z) (l : list range) : Prop := Forall (fun r => rn_max r < x) l.
Definition above (x : Z) (l : list range) : Prop := Forall (fun r => x < rn_min r) l.

Ltac destruct_bool :=
  repeat match goal with
  | |- context [if ?b then _ else _] => let E := fresh "E" in destruct b eqn:E
  | H : context [if ?b then _ else _] |- _ => let E := fresh "E" in destruct b eqn:E
  end.

(** ** List structure *)

Lemma ids_in_nil x : ids_in x [] <-> False.
Proof. unfold ids_in. rewrite Exists_nil. done. Qed.

Lemma ids_in_cons x r l : ids_in x (r :: l) <-> id_in x r \/ ids_in x l.
Proof. unfold ids_in. by rewrite Exists_cons. Qed.

Lemma ids_in_app x l1 l2 : ids_in x (l1 ++ l2) <-> ids_in x l1 \/ ids_in x l2.
Proof. unfold ids_in. by rewrite Exists_app. Qed.

Lemma ids_in_rev x l : ids_in x (rev l) <-> ids_in x l.
Proof.
  induction l as [|r l IH]; simpl; [done|].
  rewrite ids_in_app, !ids_in_cons, IH, ids_in_nil. tauto.
Qed.

Lemma ids_in_perm x l1 l2 : l1 ≡ₚ l2 -> ids_in x l1 <-> ids_in x l2.
Proof. intros H. unfold ids_in. by rewrite H. Qed.

Lemma ids_in_elem x l : ids_in x l <-> exists r, r ∈ l /\ id_in x r.
Proof. unfold ids_in. by rewrite Exists_exists. Qed.

#[export] Hint Rewrite ids_in_nil ids_in_cons ids_in_app ids_in_rev : ids.

Lemma below_app x l1 l2 : below x (l1 ++ l2) <-> below x l1 /\ below x l2.
Proof. apply Forall_app. Qed.

Lemma above_app x l1 l2 : above x (l1 ++ l2) <-> above x l1 /\ above x l2.
Proof. apply Forall_app. Qed.

Lemma below_cons x r l : below x (r :: l) <-> rn_max r < x /\ below x l.
Proof. exact (Forall_cons _ r l). Qed.

Lemma above_cons x r l : above x (r :: l) <-> x < rn_min r /\ above x l.
Proof. exact (Forall_cons _ r l). Qed.

Lemma below_rev x l : below x (rev l) <-> below x l.
Proof.
  induction l as [|r l IH]; simpl; [done|].
  rewrite below_app, !below_cons, IH. unfold below. rewrite Forall_nil. tauto.
Qed.

Lemma below_mono x y l : x <= y -> below x l -> below y l.
Proof. intros ? H. eapply Forall_impl; [exact H|]. simpl; intros; lia. Qed.

Lemma above_mono x y l : y <= x -> above x l -> above y l.
Proof. intros ? H. eapply Forall_impl; [exact H|]. simpl; intros; lia. Qed.

Lemma rl_ok_nil B : rl_ok B [].
Proof. split; constructor. Qed.

Ltac solve_rl :=
  repeat first [assumption | lia | done | apply rl_ok_nil | split].

Lemma rl_ok_app B l1 l2 :
  rl_ok B (l1 ++ l2) <->
  rl_ok B l1 /\ rl_ok B l2 /\ (forall a b, a ∈ l1 -> b ∈ l2 -> before a b).
Proof.
  split.
  - intros [Hf Hs]. rewrite Forall_app in Hf. rewrite StronglySorted_app in Hs.
    destruct Hf, Hs as (? & ? & ?). repeat split; auto.
  - intros ([Hf1 Hs1] & [Hf2 Hs2] & Hb). split; [by rewrite Forall_app|].
    rewrite StronglySorted_app. auto.
Qed.

Lemma rl_ok_singleton B r : rl_ok B [r] <-> range_ok B r /\ aligned r.
Proof.
  split.
  - intros [Hf _]. by rewrite Forall_singleton in Hf.
  - intros H. split; [by rewrite Forall_singleton|]. repeat constructor.
Qed.

Lemma rl_ok_cons B r l :
  rl_ok B (r :: l) <-> (range_ok B r /\ aligned r) /\ rl_ok B l /\ above (rn_max r) l.
Proof.
  change (r :: l) with ([r] ++ l). rewrite rl_ok_app, rl_ok_singleton.
  unfold above. rewrite Forall_forall.
  split; intros (? & ? & H); (split; [done|]; split; [done|]).
  - intros b Hb. apply (H r b); [set_solver|done].
  - intros a b Ha Hb. apply list_elem_of_singleton in Ha as ->. by apply H.
Qed.

(** What lies in front of and behind a range of a well-formed list. *)
Lemma rl_ok_around B l1 r l2 :
  rl_ok B (l1 ++ r :: l2) ->
  rl_ok B l1 /\ (range_ok B r /\ aligned r) /\ rl_ok B l2 /\
  below (rn_min r) l1 /\ above (rn_max r) l2.
Proof.
  rewrite rl_ok_app, rl_ok_cons. intros (H1 & (Hr & H2 & Ha) & Hb).
  split; [done|]. split; [done|]. split; [done|]. split; [|done].
  unfold below. rewrite Forall_forall. intros a Hin. apply (Hb a r); [done|set_solver].
Qed.

(** Putting [mid] between [l1] and [l2]: it has to lie in a gap [lo]..[hi]. *)
Lemma rl_ok_splice B lo hi l1 mid l2 :
  rl_ok B l1 -> rl_ok B mid -> rl_ok B l2 ->
  below lo l1 -> above hi l2 -> lo <= hi ->
  Forall (fun r => lo <= rn_min r /\ rn_max r <= hi) mid ->
  rl_ok B (l1 ++ mid ++ l2).
Proof.
  intros H1 Hm H2 Hb Ha Hlh Hin.
  unfold below, above in *. rewrite !Forall_forall in *.
  rewrite !rl_ok_app. split; [done|]. split; [split; [done|split; [done|]]|].
  - intros a b Hia Hib. unfold before. specialize (Hin _ Hia). specialize (Ha _ Hib). lia.
  - intros a b Hia Hib. unfold before. specialize (Hb _ Hia).
    apply elem_of_app in Hib as [Hib|Hib]; [specialize (Hin _ Hib)|specialize (Ha _ Hib)]; lia.
Qed.

Lemma aligned_len r : aligned r -> exists k, 0 <= k /\ rn_max r = rn_min r + k * rn_step r.
Proof. intros (k & ? & ? & _). eauto. Qed.

(** ** One range *)

Lemma id_in_bounds B x r : range_ok B r -> id_in x r -> rn_min r <= x <= rn_max r.
Proof. intros (? & ? & ? & ?) (j & ? & ? & ?). nia. Qed.

Lemma id_in_min B r : range_ok B r -> id_in (rn_min r) r.
Proof. intros (? & ? & ? & ?). exists 0. lia. Qed.

Lemma mod_grid a s x :
  0 < s -> a <= x -> (x - a) mod s = 0 <-> exists j, 0 <= j /\ x = a + j * s.
Proof.
  intros Hs Hax. split.
  - intros Hm. exists ((x - a) / s). pose proof (Z.div_mod (x - a) s ltac:(lia)).
    split; [apply Z.div_pos; lia | nia].
  - intros (j & _ & ->). replace (a + j * s - a) with (j * s) by lia. apply Z.mod_mul. lia.
Qed.

Lemma rl_ok_ranges B l : rl_ok B l -> Forall (range_ok B) l.
Proof. intros [H _]. eapply Forall_impl; [exact H|]. simpl. tauto. Qed.

Lemma set_all_ids_in x min max step :
  min <= max -> 1 <= step ->
  id_in x (range_set_all_ids min max step) <->
  exists j, 0 <= j /\ x = min + j * step /\ x <= max.
Proof.
  intros. unfold range_set_all_ids, id_in. destruct (min =? max) eqn:E; simpl; [|done].
  split; intros (j & ? & ? & ?); exists 0; nia.
Qed.

Lemma set_all_ids_min min max step : rn_min (range_set_all_ids min max step) = min.
Proof. unfold range_set_all_ids. by destruct (min =? max). Qed.

Lemma set_all_ids_max min max step : rn_max (range_set_all_ids min max step) = max.
Proof. unfold range_set_all_ids. by destruct (min =? max). Qed.

Lemma set_all_ids_single_in x id : id_in x (range_set_all_ids id id 1) <-> x = id.
Proof.
  rewrite set_all_ids_in by lia. split.
  - intros (j & ? & ? & ?). lia.
  - intros ->. exists 0. lia.
Qed.

Lemma ids_in_bounds B x l lo hi :
  Forall (range_ok B) l ->
  Forall (fun r => lo <= rn_min r /\ rn_max r <= hi) l -> ids_in x l -> lo <= x <= hi.
Proof.
  intros Hok Hl Hx. apply ids_in_elem in Hx as (r & Hin & Hx).
  rewrite Forall_forall in Hok, Hl. specialize (Hl _ Hin).
  pose proof (id_in_bounds B x r (Hok _ Hin) Hx). lia.
Qed.

Lemma replace_ok B l1 r mid l2 :
  rl_ok B (l1 ++ r :: l2) -> rl_ok B mid ->
  Forall (fun r' => rn_min r <= rn_min r' /\ rn_max r' <= rn_max r) mid ->
  rl_ok B (l1 ++ mid ++ l2).
Proof.
  intros Hl Hm Hin. apply rl_ok_around in Hl as (H1 & [Hr _] & H2 & Hb & Ha).
  apply rl_ok_splice with (rn_min r) (rn_max r); auto. apply Hr.
Qed.

#[export] Hint Rewrite set_all_ids_min set_all_ids_max : ids.

Section Bound.
Context (B : Z) (HB : 2 <= B <= 4294967296).

Lemma within_iff x r : range_ok B r -> range_is_id_within r x = true <-> id_in x r.
Proof.
  intros (? & ? & ? & ?). unfold range_is_id_within, id_in. rewrite !andb_true_iff.
  split.
  - intros [[? ?] Hm]. rewrite u32_small in Hm by lia.
    apply Z.eqb_eq, mod_grid in Hm; [|lia|lia].
    destruct Hm as (j & ? & ?). exists j. lia.
  - intros (j & ? & ? & ?). rewrite u32_small by nia. split; [split; nia|].
    apply Z.eqb_eq, mod_grid; [lia|nia|]. eauto.
Qed.

Lemma within_list_iff x l :
  Forall (range_ok B) l -> range_list_is_id_within l x = true <-> ids_in x l.
Proof.
  intros Hl. unfold range_list_is_id_within. induction Hl as [|r l Hr Hl IH]; simpl.
  - rewrite ids_in_nil. done.
  - rewrite orb_true_iff, ids_in_cons, IH, within_iff by done. done.
Qed.

Lemma set_all_ids_good min max step :
  0 <= min -> min <= max -> max < B -> 1 <= step < B ->
  (exists k, 0 <= k /\ max = min + k * step) ->
  range_ok B (range_set_all_ids min max step) /\ aligned (range_set_all_ids min max step).
Proof.
  intros ? ? ? ? (k & ? & ?). unfold range_set_all_ids, aligned, id_in, range_ok.
  destruct (min =? max) eqn:E; simpl.
  - split; [lia|]. exists 0. lia.
  - split; [lia|]. exists k. lia.
Qed.

(** ** Inserting *)

Lemma single_good id :
  0 <= id < B -> range_ok B (range_set_all_ids id id 1) /\ aligned (range_set_all_ids id id 1).
Proof. intros. apply set_all_ids_good; try lia. exists 0. lia. Qed.

(** Replacing the range between [l1] and [l2] by [mid]. *)
Lemma insert_new_spec bf af id :
  rl_ok B (rev bf) -> rl_ok B af -> below id bf -> above id af -> 0 <= id < B ->
  rl_ok B (insert_new bf af id) /\
  forall x, ids_in x (insert_new bf af id) <-> x = id \/ ids_in x (rev bf ++ af).
Proof.
  intros Hbf Haf Hb Ha Hid. unfold insert_new. split.
  - apply (rl_ok_splice B id id _ [range_set_all_ids id id 1]); auto; try lia.
    + apply rl_ok_singleton, single_good. lia.
    + by rewrite below_rev.
    + rewrite Forall_singleton, set_all_ids_min, set_all_ids_max. lia.
  - intros x. rewrite !ids_in_app, ids_in_cons, set_all_ids_single_in. tauto.
Qed.

Lemma insert_split_spec bf next rest id :
  rl_ok B (rev bf ++ next :: rest) -> rn_min next < id < rn_max next ->
  rl_ok B (insert_split bf next rest id) /\
  forall x, ids_in x (insert_split bf next rest id) <->
            x = id \/ ids_in x (rev bf ++ next :: rest).
Proof.
  intros Hl Hid. pose proof (rl_ok_around _ _ _ _ Hl) as (_ & [Hok Hal] & _).
  destruct Hok as (? & ? & ? & ?). destruct (aligned_len _ Hal) as (k & Hk & Hmax).
  unfold insert_split; simpl. set (a := rn_min next) in *. set (s := rn_step next) in *.
  rewrite (u32_small (id - a)) by lia.
  destruct ((id - a) mod s =? 0) eqn:E; simpl.
  { apply Z.eqb_eq, mod_grid in E as (j & ? & ?); [|lia|lia].
    split; [done|]. intros x. rewrite !ids_in_app, !ids_in_cons.
    split; [tauto|]. intros [->|?]; [|done]. right. left. exists j. fold a s. nia. }
  apply Z.eqb_neq in E.
  set (f := (id - a) / s) in *.
  pose proof (Z.div_mod (id - a) s ltac:(lia)) as Hdm. fold f in Hdm.
  pose proof (Z.mod_pos_bound (id - a) s ltac:(lia)) as Hmod.
  assert (0 <= f) by (apply Z.div_pos; lia).
  assert (f + 1 <= k) by nia.
  assert (0 <= f * s <= rn_max next) by nia.
  assert (0 <= (f + 1) * s <= rn_max next) by nia.
  assert (f + 1 < 4294967296) by nia.
  rewrite (u32_small (f * s)), (u32_small (a + f * s)), (u32_small (f + 1)),
    (u32_small ((f + 1) * s)), (u32_small (a + (f + 1) * s)) by nia.
  set (p := a + f * s). set (q := a + (f + 1) * s).
  assert (p < id < q /\ q <= rn_max next) as [? ?] by (subst p q; nia).
  assert (a <= p) by (subst p; nia).
  assert (range_ok B (range_set_all_ids a p s) /\ aligned (range_set_all_ids a p s)) as Hp.
  { apply set_all_ids_good; try lia. exists f. subst p. lia. }
  assert (range_ok B (range_set_all_ids q (rn_max next) s) /\
          aligned (range_set_all_ids q (rn_max next) s)) as Hq.
  { apply set_all_ids_good; try lia. exists (k - f - 1). subst q. nia. }
  split.
  - apply (replace_ok B (rev bf) next
      [range_set_all_ids a p s; range_set_all_ids id id 1; range_set_all_ids q (rn_max next) s]
      rest Hl).
    + rewrite !rl_ok_cons. unfold above. rewrite ?Forall_cons, ?Forall_nil, !set_all_ids_min,
        !set_all_ids_max.
      pose proof (single_good id ltac:(lia)). solve_rl.
    + repeat (apply List.Forall_cons; [rewrite set_all_ids_min, set_all_ids_max; lia|]).
      constructor.
  - intros x. rewrite !ids_in_app, !ids_in_cons, set_all_ids_single_in, !set_all_ids_in by lia.
    unfold id_in at 1. fold a s.
    assert ((exists j, 0 <= j /\ x = a + j * s /\ x <= rn_max next) <->
      (exists j, 0 <= j /\ x = a + j * s /\ x <= p) \/
      (exists j, 0 <= j /\ x = q + j * s /\ x <= rn_max next)) as ->; [|tauto].
    split.
    + intros (j & ? & ? & ?). destruct (Z_le_gt_dec j f); [left|right].
      * exists j. subst p. nia.
      * exists (j - f - 1). subst q. nia.
    + intros [(j & ? & ? & ?)|(j & ? & ? & ?)].
      * exists j. nia.
      * exists (j + f + 1). subst q. nia.
Qed.

Lemma at_next_spec bf af id :
  rl_ok B (rev bf ++ af) -> below id bf -> above id af -> 0 <= id < B ->
  rl_ok B (insert_at_next bf af id) /\
  forall x, ids_in x (insert_at_next bf af id) <-> x = id \/ ids_in x (rev bf ++ af).
Proof.
  intros Hl Hb Ha Hid. pose proof Hl as Hl'. apply rl_ok_app in Hl' as (Hbf & Haf & _).
  unfold insert_at_next. destruct af as [|next rest]; [by apply insert_new_spec|].
  destruct (u32 (rn_min next - rn_step next) =? id) eqn:E; [|by apply insert_new_spec].
  apply rl_ok_around in Hl as (_ & [Hok Hal] & Hrest & Hlow & Habove).
  apply above_cons in Ha as [Hlt _]. destruct Hok as (? & ? & ? & ?).
  destruct (aligned_len _ Hal) as (k & ? & ?).
  pose proof (u32_sub_cases (rn_min next - rn_step next) ltac:(lia)).
  assert (id = rn_min next - rn_step next) as Hid' by lia. clear E.
  assert (range_ok B (range_set_all_ids id (rn_max next) (rn_step next)) /\
          aligned (range_set_all_ids id (rn_max next) (rn_step next))) as Hn.
  { apply set_all_ids_good; try lia. exists (k + 1). nia. }
  split.
  - apply (rl_ok_splice B id (rn_max next) _ [_] rest); auto; try lia.
    + by apply rl_ok_singleton.
    + by rewrite below_rev.
    + rewrite Forall_singleton, set_all_ids_min, set_all_ids_max. lia.
  - intros x. rewrite !ids_in_app, !ids_in_cons, set_all_ids_in by lia.
    assert ((exists j, 0 <= j /\ x = id + j * rn_step next /\ x <= rn_max next) <->
            x = id \/ id_in x next) as ->; [|tauto].
    unfold id_in. split.
    + intros (j & ? & ? & ?). destruct (decide (j = 0)); [left; lia|].
      right. exists (j - 1). nia.
    + intros [->|(j & ? & ? & ?)]; [exists 0|exists (j + 1)]; nia.
Qed.

Lemma insert_edge_spec bf af id :
  rl_ok B (rev bf ++ af) -> below (id + 1) bf -> above (id - 1) af -> 0 <= id < B ->
  rl_ok B (insert_edge bf af id) /\
  forall x, ids_in x (insert_edge bf af id) <-> x = id \/ ids_in x (rev bf ++ af).
Proof.
  intros Hl Hb Ha Hid. unfold insert_edge.
  assert (ids_in id (rev bf ++ af) -> rl_ok B (rev bf ++ af) /\
    forall x, ids_in x (rev bf ++ af) <-> x = id \/ ids_in x (rev bf ++ af)) as Hsame.
  { intros Hin. split; [done|]. intros x. split; [tauto|]. by intros [->|?]. }
  set (isns := match af with [] => false | next :: _ => rn_min next =? id end).
  assert (isns = true -> ids_in id (rev bf ++ af)) as Hns.
  { subst isns. destruct af as [|next rest]; [done|]. intros E.
    apply Z.eqb_eq in E as <-. apply rl_ok_around in Hl as (_ & [Hok _] & _).
    rewrite ids_in_app, ids_in_cons. right; left. by apply (id_in_min B). }
  assert (isns = false -> above id af) as Hab.
  { subst isns. destruct af as [|next rest]; [by constructor|]. intros E.
    apply rl_ok_around in Hl as (_ & [(? & ? & ? & ?) _] & _ & _ & Habove).
    apply above_cons in Ha as [? _]. apply above_cons. split; [lia|].
    eapply above_mono; [|exact Habove]. lia. }
  destruct bf as [|r prevs].
  { destruct isns; [by auto|]. apply at_next_spec; auto. constructor. }
  pose proof Hl as Hl'. simpl in Hl'. rewrite <- app_assoc in Hl'. simpl in Hl'.
  pose proof (rl_ok_around _ _ _ _ Hl') as (Hprevs & [Hok Hal] & Haf & Hlow & Habove).
  pose proof Hok as (? & ? & ? & ?). apply below_cons in Hb as [Hrid Hb].
  destruct (rn_max r =? id) eqn:E1; simpl.
  { apply Z.eqb_eq in E1 as <-. apply Hsame. simpl. rewrite !ids_in_app, !ids_in_cons.
    left; right; left. exact Hal. }
  destruct isns eqn:Eisns; [by auto|].
  assert (below id (r :: prevs)) as Hbelow.
  { apply below_cons. split; [lia|]. rewrite below_rev in Hlow.
    eapply below_mono; [|exact Hlow]. lia. }
  destruct (u32 (rn_max r + rn_step r) =? id) eqn:E2; [|by apply at_next_spec; auto].
  destruct (aligned_len _ Hal) as (k & ? & ?).
  pose proof (u32_add_cases (rn_max r + rn_step r) ltac:(lia)).
  assert (id = rn_max r + rn_step r) as -> by lia.
  assert (range_ok B (range_set_all_ids (rn_min r) (rn_max r + rn_step r) (rn_step r)) /\
    aligned (range_set_all_ids (rn_min r) (rn_max r + rn_step r) (rn_step r))) as Hn.
  { apply set_all_ids_good; try lia. exists (k + 1). nia. }
  split.
  - apply (rl_ok_splice B (rn_min r) (rn_max r + rn_step r) _ [_] af); auto; try lia.
    + by apply rl_ok_singleton.
    + rewrite Forall_singleton, set_all_ids_min, set_all_ids_max. lia.
  - intros x. simpl. rewrite <- app_assoc. simpl.
    rewrite !ids_in_app, !ids_in_cons, set_all_ids_in by lia.
    assert ((exists j, 0 <= j /\ x = rn_min r + j * rn_step r /\ x <= rn_max r + rn_step r) <->
            x = rn_max r + rn_step r \/ id_in x r) as ->; [|tauto].
    unfold id_in. split.
    + intros (j & ? & ? & ?). destruct (Z_le_gt_dec j k); [right|left].
      * exists j. nia.
      * assert (j = k + 1) by nia. nia.
    + intros [->|(j & ? & ? & ?)]; [exists (k + 1)|exists j]; nia.
Qed.

(** [id] does not precede the end of the ranges behind it and precedes the end of
    the ranges in front. *)
Lemma insert_at_spec bf af id :
  rl_ok B (rev bf ++ af) -> below (id + 1) bf ->
  match af with next :: _ => id < rn_max next | [] => True end -> 0 <= id < B ->
  rl_ok B (insert_at bf af id) /\
  forall x, ids_in x (insert_at bf af id) <-> x = id \/ ids_in x (rev bf ++ af).
Proof.
  intros Hl Hb Hnext Hid. unfold insert_at. destruct af as [|next rest].
  { apply insert_edge_spec; auto. constructor. }
  destruct (rn_min next <? id) eqn:E.
  - apply insert_split_spec; [done|lia].
  - apply insert_edge_spec; auto.
    apply rl_ok_around in Hl as (_ & [(? & ? & ? & ?) _] & _ & _ & Habove).
    apply above_cons. split; [lia|]. eapply above_mono; [|exact Habove]. lia.
Qed.

Lemma insert_walk_spec bf af id :
  rl_ok B (rev bf ++ af) -> (bf = [] -> af = []) ->
  match af with next :: _ => id < rn_max next | [] => True end -> 0 <= id < B ->
  rl_ok B (insert_walk bf af id) /\
  forall x, ids_in x (insert_walk bf af id) <-> x = id \/ ids_in x (rev bf ++ af).
Proof.
  revert af. induction bf as [|r prevs IH]; intros af Hl Hemp Hnext Hid; cbn [insert_walk].
  { rewrite Hemp by done. simpl. split.
    - apply rl_ok_singleton, single_good; lia.
    - intros x. rewrite ids_in_cons, set_all_ids_single_in. done. }
  assert (rl_ok B (rev prevs ++ r :: af)) as Hl'.
  { simpl in Hl. by rewrite <- app_assoc in Hl. }
  assert (rev (r :: prevs) ++ af = rev prevs ++ r :: af) as Heq.
  { simpl. by rewrite <- app_assoc. }
  rewrite Heq. destruct (id <? rn_max r) eqn:E.
  - destruct prevs as [|r' prevs].
    + apply insert_at_spec; auto; [constructor|lia].
    + apply IH; auto; [done|lia].
  - rewrite <- Heq. apply insert_at_spec; auto.
    apply rl_ok_around in Hl' as (_ & [(? & ? & ? & ?) _] & _ & Hlow & _).
    apply below_cons. split; [lia|]. rewrite below_rev in Hlow.
    eapply below_mono; [|exact Hlow]. lia.
Qed.

Context `{Sorting : SortByMin}.

(** Sorting a well-formed list does nothing. *)
Lemma sort_ok l : rl_ok B l -> sort_by_min l = l.
Proof.
  intros [Hf Hs]. apply (StronglySorted_unique_strong min_le).
  - intros a b Ha Hb Hab Hba. rewrite sort_by_min_perm in Ha.
    assert (forall l, StronglySorted before l -> Forall (fun r => range_ok B r /\ aligned r) l ->
      a ∈ l -> b ∈ l -> rn_min a = rn_min b -> a = b) as Hinj.
    { clear. induction 1 as [|r l Hs IH Hr]; intros Hok Ha Hb Hm; [set_solver|].
      apply Forall_cons in Hok as [[(? & ? & ? & ?) _] Hok].
      rewrite Forall_forall in Hr. unfold before in Hr.
      apply elem_of_cons in Ha as [->|Ha]; apply elem_of_cons in Hb as [->|Hb]; auto.
      - specialize (Hr _ Hb). lia.
      - specialize (Hr _ Ha). lia. }
    apply (Hinj l); auto. unfold min_le in *. lia.
  - apply sort_by_min_sorted.
  - clear - Hs Hf. induction Hs as [|r l Hs IH Hr]; constructor.
    + apply IH. by apply Forall_cons in Hf as [_ Hf].
    + apply Forall_cons in Hf as [[(? & ? & ? & ?) _] _]. eapply Forall_impl; [exact Hr|].
      unfold before, min_le. simpl. lia.
  - apply sort_by_min_perm.
Qed.

Lemma insert_id_spec l id :
  rl_ok B l -> 0 <= id < B ->
  rl_ok B (range_list_insert_id l id) /\
  forall x, ids_in x (range_list_insert_id l id) <-> x = id \/ ids_in x l.
Proof.
  intros Hl Hid. unfold range_list_insert_id. rewrite sort_ok by done.
  destruct (insert_walk_spec (rev l) [] id) as [H1 H2]; auto.
  - by rewrite rev_involutive, app_nil_r.
  - split; [done|]. intros x. rewrite H2, app_nil_r, rev_involutive. done.
Qed.

Lemma insert_ids_spec l ids :
  rl_ok B l -> Forall (fun id => 0 <= id < B) ids ->
  rl_ok B (range_list_insert_ids l ids) /\
  forall x, ids_in x (range_list_insert_ids l ids) <-> x ∈ ids \/ ids_in x l.
Proof.
  unfold range_list_insert_ids. intros Hl Hids. revert l Hl.
  induction Hids as [|id ids Hid Hids IH]; intros l Hl; simpl; [split; [done|]; set_solver|].
  destruct (insert_id_spec l id Hl Hid) as [H1 H2]. destruct (IH _ H1) as [H3 H4].
  split; [done|]. intros x. rewrite H4, H2, elem_of_cons. tauto.
Qed.

End Bound.
