(* ===== verification/RangeSets.v ===== *)
(** Range lists as sets: removal, compression, normalisation and the set
    operations built from them, and the properties of [sge_range.cc]. *)

From S2P Require Import Prelude Answer Range RangeFacts.
Import Answer Ranges.

Section Bound.
Context (B : Z) (HB : 2 <= B <= 4294967296).

(** ** Removing *)

Lemma without_min_spec r :
  range_ok B r -> aligned r -> rn_min r <> rn_max r ->
  let r' := range_set_all_ids (u32 (rn_min r + rn_step r)) (rn_max r) (rn_step r) in
  (range_ok B r' /\ aligned r') /\ rn_min r <= rn_min r' /\ rn_max r' <= rn_max r /\
  forall x, id_in x r' <-> id_in x r /\ x <> rn_min r.
Proof.
  intros (? & ? & ? & ?) Hal Hne. destruct (aligned_len _ Hal) as (k & ? & ?).
  assert (1 <= k) by nia. rewrite u32_small by nia. simpl. autorewrite with ids.
  assert (rn_min r + rn_step r <= rn_max r) by nia. split; [|split; [lia|split; [lia|]]].
  - apply set_all_ids_good; try lia. exists (k - 1). nia.
  - intros x. rewrite set_all_ids_in by lia. unfold id_in. split.
    + intros (j & ? & ? & ?). split; [exists (j + 1); nia|nia].
    + intros [(j & ? & ? & ?) ?]. exists (j - 1). assert (j <> 0) by nia. nia.
Qed.

Lemma without_max_spec r :
  range_ok B r -> aligned r -> rn_min r <> rn_max r ->
  let r' := range_set_all_ids (rn_min r) (u32 (rn_max r - rn_step r)) (rn_step r) in
  (range_ok B r' /\ aligned r') /\ rn_min r <= rn_min r' /\ rn_max r' <= rn_max r /\
  forall x, id_in x r' <-> id_in x r /\ x <> rn_max r.
Proof.
  intros (? & ? & ? & ?) Hal Hne. destruct (aligned_len _ Hal) as (k & ? & ?).
  assert (1 <= k) by nia. rewrite u32_small by nia. simpl. autorewrite with ids.
  assert (rn_min r <= rn_max r - rn_step r) by nia. split; [|split; [lia|split; [lia|]]].
  - apply set_all_ids_good; try lia. exists (k - 1). nia.
  - intros x. rewrite set_all_ids_in by lia. unfold id_in. split.
    + intros (j & ? & ? & ?). split; [exists j; nia|nia].
    + intros [(j & ? & ? & ?) ?]. exists j. assert (j <> k) by nia.
      assert (j <= k) by nia. nia.
Qed.

Lemma without_middle_spec r j :
  range_ok B r -> aligned r -> 0 < j -> rn_min r + j * rn_step r < rn_max r ->
  let id := rn_min r + j * rn_step r in
  let r1 := range_set_all_ids (rn_min r) (u32 (id - rn_step r)) (rn_step r) in
  let r2 := range_set_all_ids (u32 (id + rn_step r)) (rn_max r) (rn_step r) in
  rl_ok B [r1; r2] /\ rn_min r <= rn_min r1 /\ rn_max r2 <= rn_max r /\
  rn_max r1 <= rn_max r /\ rn_min r <= rn_min r2 /\
  forall x, id_in x r1 \/ id_in x r2 <-> id_in x r /\ x <> id.
Proof.
  intros (? & ? & ? & ?) Hal Hj Hlt. destruct (aligned_len _ Hal) as (k & ? & ?). simpl.
  assert (j < k) by nia. set (id := rn_min r + j * rn_step r) in *.
  assert (rn_min r <= id - rn_step r) by (subst id; nia).
  assert (id + rn_step r <= rn_max r) by (subst id; nia).
  rewrite !u32_small by lia. autorewrite with ids.
  assert (range_ok B (range_set_all_ids (rn_min r) (id - rn_step r) (rn_step r)) /\
          aligned (range_set_all_ids (rn_min r) (id - rn_step r) (rn_step r))).
  { apply set_all_ids_good; try lia. exists (j - 1). subst id. nia. }
  assert (range_ok B (range_set_all_ids (id + rn_step r) (rn_max r) (rn_step r)) /\
          aligned (range_set_all_ids (id + rn_step r) (rn_max r) (rn_step r))).
  { apply set_all_ids_good; try lia. exists (k - j - 1). subst id. nia. }
  split; [|repeat (split; [lia|])].
  - rewrite !rl_ok_cons. unfold above. rewrite Forall_singleton. autorewrite with ids. solve_rl.
  - intros x. rewrite !set_all_ids_in by lia. unfold id_in. split.
    + intros [(i & ? & ? & ?)|(i & ? & ? & ?)].
      * split; [exists i; nia|lia].
      * split; [exists (i + j + 1); subst id; nia|nia].
    + intros [(i & ? & ? & ?) Hx].
      destruct (Z_lt_le_dec i j); [left; exists i|right; exists (i - j - 1)]; subst id.
      * nia.
      * assert (i <> j) by congruence. nia.
Qed.

Lemma without_spec r id :
  range_ok B r -> aligned r -> id_in id r ->
  rl_ok B (range_without_id r id) /\
  Forall (fun r' => rn_min r <= rn_min r' /\ rn_max r' <= rn_max r) (range_without_id r id) /\
  forall x, ids_in x (range_without_id r id) <-> id_in x r /\ x <> id.
Proof.
  intros Hok Hal Hin. pose proof Hok as (? & ? & ? & ?).
  pose proof (id_in_bounds _ _ _ Hok Hin) as Hbd.
  destruct (aligned_len _ Hal) as (k & ? & ?). unfold range_without_id; simpl.
  destruct ((id =? rn_min r) && ((id =? rn_max r) || (rn_max r <? u32 (id + rn_step r)))) eqn:E1.
  { apply andb_true_iff in E1 as [->%Z.eqb_eq E1].
    assert (rn_min r = rn_max r) as Heq.
    { apply orb_true_iff in E1 as [?|Hlt]; [lia|]. apply Z.ltb_lt in Hlt.
      destruct (decide (k = 0)); [nia|]. rewrite u32_small in Hlt by nia. nia. }
    split; [apply rl_ok_nil|]. split; [constructor|]. intros x. rewrite ids_in_nil.
    split; [done|]. intros [Hx ?]. pose proof (id_in_bounds _ _ _ Hok Hx). lia. }
  destruct (id =? rn_min r) eqn:E2.
  { apply Z.eqb_eq in E2 as ->. simpl in E1. apply orb_false_iff in E1 as [E1 _].
    destruct (without_min_spec r Hok Hal ltac:(lia)) as (? & ? & ? & Hx).
    split; [by apply rl_ok_singleton|]. split; [rewrite Forall_singleton; lia|].
    intros x. rewrite ids_in_cons, ids_in_nil, Hx. tauto. }
  destruct (id =? rn_max r) eqn:E3.
  { apply Z.eqb_eq in E3 as ->.
    destruct (without_max_spec r Hok Hal ltac:(lia)) as (? & ? & ? & Hx).
    split; [by apply rl_ok_singleton|]. split; [rewrite Forall_singleton; lia|].
    intros x. rewrite ids_in_cons, ids_in_nil, Hx. tauto. }
  destruct Hin as (j & ? & -> & ?).
  destruct (without_middle_spec r j Hok Hal ltac:(nia) ltac:(lia)) as (? & ? & ? & ? & ? & Hx).
  split; [done|]. split.
  - repeat (apply List.Forall_cons; [lia|]). constructor.
  - intros x. rewrite !ids_in_cons, ids_in_nil, <- Hx. tauto.
Qed.

Lemma remove_walk_spec l id :
  rl_ok B l ->
  rl_ok B (remove_id_walk l id) /\
  (forall lo, above lo l -> above lo (remove_id_walk l id)) /\
  forall x, ids_in x (remove_id_walk l id) <-> ids_in x l /\ x <> id.
Proof.
  induction l as [|r l IH]; intros Hl; simpl.
  { split; [done|]. split; [done|]. intros x. rewrite ids_in_nil. tauto. }
  pose proof Hl as Hl'. apply rl_ok_cons in Hl' as ([Hok Hal] & Hl' & Ha).
  pose proof Hok as (? & ? & ? & ?).
  change (range_holds_id r id) with (range_is_id_within r id).
  destruct (range_is_id_within r id) eqn:E.
  - apply (within_iff B HB) in E; [|done].
    destruct (without_spec r id Hok Hal E) as (Hw & Hhull & Hx). split; [|split].
    + apply (replace_ok B [] r _ l); done.
    + intros lo Hlo. apply above_cons in Hlo as [? Hlo]. apply above_app. split; [|done].
      eapply Forall_impl; [exact Hhull|]. simpl. lia.
    + intros x. rewrite ids_in_app, ids_in_cons, Hx.
      assert (ids_in x l -> x <> id) as Hne; [|tauto].
      intros Hin ->. apply ids_in_elem in Hin as (r' & Hr' & Hin).
      unfold above in Ha. rewrite Forall_forall in Ha. specialize (Ha _ Hr').
      pose proof (rl_ok_ranges B _ Hl') as Hok'. rewrite Forall_forall in Hok'.
      pose proof (id_in_bounds B _ _ (Hok' _ Hr') Hin).
      pose proof (id_in_bounds B _ _ Hok E). lia.
  - destruct (IH Hl') as (Hi1 & Hi2 & Hi3). split; [|split].
    + apply rl_ok_cons. auto.
    + intros lo Hlo. apply above_cons in Hlo as [? Hlo]. apply above_cons. auto.
    + intros x. rewrite !ids_in_cons, Hi3.
      assert (id_in x r -> x <> id) as Hne; [|tauto].
      intros Hin ->. apply (within_iff B HB) in Hin; [congruence|done].
Qed.

(** [option (list range)] as a set: [nullptr] is the empty list. *)
Lemma remove_id_spec l id :
  rl_ok B (default [] l) ->
  rl_ok B (default [] (range_list_remove_id l id)) /\
  forall x, ids_in x (default [] (range_list_remove_id l id)) <->
            ids_in x (default [] l) /\ x <> id.
Proof.
  destruct l as [l|]; simpl; [|intros _; split; [apply rl_ok_nil|intros x; rewrite ids_in_nil; tauto]].
  intros Hl. destruct (remove_walk_spec l id Hl) as (H1 & _ & H3).
  destruct (remove_id_walk l id); simpl; done.
Qed.

Lemma remove_ids_spec l ids :
  rl_ok B (default [] l) ->
  rl_ok B (default [] (range_list_remove_ids l ids)) /\
  forall x, ids_in x (default [] (range_list_remove_ids l ids)) <->
            ids_in x (default [] l) /\ x ∉ ids.
Proof.
  unfold range_list_remove_ids. revert l. induction ids as [|id ids IH]; intros l Hl; simpl.
  { split; [done|]. intros x. set_solver. }
  destruct (remove_id_spec l id Hl) as [H1 H2]. destruct (IH _ H1) as [H3 H4].
  split; [done|]. intros x. rewrite H4, H2, not_elem_of_cons. tauto.
Qed.

(** ** Compressing *)

Lemma join_touching a1 b1 a2 b2 s :
  1 <= s -> a1 <= b1 -> a2 <= b2 -> b1 + s = a2 ->
  (exists k, 0 <= k /\ b1 = a1 + k * s) ->
  forall x, id_in x (Range a1 b2 s) <-> id_in x (Range a1 b1 s) \/ id_in x (Range a2 b2 s).
Proof.
  intros ? ? ? ? (k & ? & ?) x. unfold id_in; simpl. split.
  - intros (j & ? & ? & ?). destruct (Z_le_gt_dec j k); [left; exists j|right; exists (j - k - 1)]; nia.
  - intros [(j & ? & ? & ?)|(j & ? & ? & ?)]; [exists j|exists (j + k + 1)]; nia.
Qed.

Lemma id_in_single x a s : 1 <= s -> id_in x (Range a a s) <-> x = a.
Proof.
  intros. unfold id_in; simpl. split; [intros (j & ? & ? & ?); nia|intros ->; exists 0; lia].
Qed.

Lemma join_good a b s s1 a1 b1 a2 b2 s2 :
  1 <= s < B -> 0 <= a -> a < b -> b < B ->
  (exists k, 0 <= k /\ b = a + k * s) ->
  (forall x, id_in x (Range a b s) <-> id_in x (Range a1 b1 s1) \/ id_in x (Range a2 b2 s2)) ->
  (range_ok B (range_set_all_ids a b s) /\ aligned (range_set_all_ids a b s)) /\
  rn_min (range_set_all_ids a b s) = a /\ rn_max (range_set_all_ids a b s) = b /\
  forall x, id_in x (range_set_all_ids a b s) <->
            id_in x (Range a1 b1 s1) \/ id_in x (Range a2 b2 s2).
Proof.
  intros ? ? ? ? Hk Hx. autorewrite with ids. split; [apply set_all_ids_good; auto; lia|].
  do 2 (split; [done|]). intros x. rewrite <- Hx, set_all_ids_in by lia. done.
Qed.

Lemma join_spec r1 r2 r :
  rl_ok B [r1; r2] -> range_join r1 r2 = Some r ->
  (range_ok B r /\ aligned r) /\ rn_min r = rn_min r1 /\ rn_max r = rn_max r2 /\
  forall x, id_in x r <-> id_in x r1 \/ id_in x r2.
Proof.
  intros Hl. apply rl_ok_cons in Hl as ([(? & ? & ? & ?) Hal1] & Hl & Ha).
  apply rl_ok_cons in Hl as ([(? & ? & ? & ?) Hal2] & _). apply above_cons in Ha as [Hlt _].
  destruct (aligned_len _ Hal1) as (k1 & ? & Hk1), (aligned_len _ Hal2) as (k2 & ? & Hk2).
  destruct r1 as [a1 b1 s1], r2 as [a2 b2 s2]; unfold range_join; simpl in *.
  pose proof (u32_add_cases (b1 + s1) ltac:(lia)). pose proof (u32_sub_cases (a2 - s2) ltac:(lia)).
  destruct ((u32 (b1 + s1) =? a2) && (s1 =? s2)) eqn:E1.
  { intros [= <-]. assert (s2 = s1) as -> by lia. assert (b1 + s1 = a2) by lia.
    apply join_good; try lia; [exists (k1 + k2 + 1); nia|]. apply join_touching; eauto; lia. }
  destruct ((a1 =? b1) && (s1 =? 1) && (b1 =? u32 (a2 - s2))) eqn:E2.
  { intros [= <-]. assert (b1 = a1) as -> by lia. assert (a1 + s2 = a2) by lia.
    apply join_good; try lia; [exists (k2 + 1); nia|]. intros x.
    rewrite (join_touching a1 a1 a2 b2 s2) by (first [lia | exists 0; lia]).
    rewrite !id_in_single by lia. done. }
  destruct ((a2 =? b2) && (s2 =? 1) && (u32 (b1 + s1) =? b2)) eqn:E3.
  { intros [= <-]. assert (b2 = a2) as -> by lia. assert (b1 + s1 = a2) by lia.
    apply join_good; try lia; [exists (k1 + 1); nia|]. intros x.
    rewrite (join_touching a1 b1 a2 a2 s1) by (first [lia | eauto]).
    rewrite !(id_in_single x a2) by lia. done. }
  destruct ((a1 =? b1) && (a2 =? b2) && (s1 =? s2) && (s1 =? 1)) eqn:E4; [|done].
  intros [= <-]. assert (b1 = a1) as -> by lia. assert (b2 = a2) as -> by lia.
  rewrite u32_small by lia.
  apply join_good; try lia; [exists 1; lia|]. intros x.
  rewrite (join_touching a1 a1 a2 a2 (a2 - a1)) by (first [lia | exists 0; lia]).
  rewrite !id_in_single by lia. done.
Qed.

Lemma compress_from_spec l r :
  rl_ok B (r :: l) ->
  rl_ok B (compress_from r l) /\
  (forall lo, lo < rn_min r -> above lo (compress_from r l)) /\
  forall x, ids_in x (compress_from r l) <-> ids_in x (r :: l).
Proof.
  revert r. induction l as [|r2 l IH]; intros r Hl; simpl.
  { split; [done|]. split; [|done]. intros lo ?. apply above_cons. split; [done|constructor]. }
  pose proof Hl as Hl'. apply rl_ok_cons in Hl' as (Hr & Hl2 & Ha).
  apply above_cons in Ha as [Hlt Ha]. pose proof Hl2 as Hl2'.
  apply rl_ok_cons in Hl2' as (Hr2 & Hl3 & Ha2).
  destruct (range_join r r2) as [rj|] eqn:E.
  - apply join_spec in E as (Hg & Hmin & Hmax & Hx).
    2:{ rewrite !rl_ok_cons. unfold above. rewrite Forall_singleton. solve_rl. }
    destruct (IH rj) as (H1 & H2 & H3).
    { apply rl_ok_cons. split; [done|]. split; [done|]. by rewrite Hmax. }
    split; [done|]. split; [intros lo ?; apply H2; lia|].
    intros x. rewrite H3, !ids_in_cons, Hx. tauto.
  - destruct (IH r2 Hl2) as (H1 & H2 & H3). split; [|split].
    + apply rl_ok_cons. auto.
    + intros lo ?. apply above_cons. split; [done|]. apply H2. destruct Hr as [(? & ? & ? & ?) _]. lia.
    + intros x. rewrite ids_in_cons, H3, !ids_in_cons. tauto.
Qed.

Lemma compress_spec l :
  rl_ok B l ->
  rl_ok B (range_list_compress l) /\
  forall x, ids_in x (range_list_compress l) <-> ids_in x l.
Proof.
  destruct l as [|r l]; simpl; [done|]. intros Hl.
  destruct (compress_from_spec l r Hl) as (? & _ & ?). done.
Qed.

Lemma compress_from_length l r : (length (compress_from r l) <= S (length l))%nat.
Proof.
  revert r. induction l as [|r2 l IH]; intros r; simpl; [lia|].
  destruct (range_join r r2) as [rj|]; simpl; [specialize (IH rj)|specialize (IH r2)]; lia.
Qed.

End Bound.

(** ** The id loop *)

Lemma id_loop_run n start end_ step :
  0 <= start -> 0 <= step -> end_ + step < 4294967296 ->
  (forall j : nat, (j < n)%nat -> start + j * step <= end_) -> end_ < start + n * step ->
  id_loop n start end_ step = Some ((fun j : nat => start + j * step) <$> seq 0 n).
Proof.
  revert start. induction n as [|n IH]; intros start ? ? ? Hin Hout; simpl.
  { rewrite (proj2 (Z.leb_gt _ _)) by lia. done. }
  pose proof (Hin 0%nat ltac:(lia)).
  rewrite (proj2 (Z.leb_le _ _)) by lia. rewrite u32_small by lia. rewrite IH; try lia.
  - simpl. do 2 f_equal; [lia|]. rewrite <- fmap_S_seq, <- list_fmap_compose.
    apply list_fmap_ext. intros. simpl. lia.
  - intros j Hj. specialize (Hin (S j) ltac:(lia)). lia.
Qed.

Lemma number_of_ids_sum l :
  range_list_get_number_of_ids l =
  u32 (fold_right (fun r n => range_get_number_of_ids r + n) 0 l).
Proof.
  unfold range_list_get_number_of_ids.
  assert (forall a, fold_left (fun ret r => u32 (ret + range_get_number_of_ids r)) l (u32 a) =
    u32 (a + fold_right (fun r n => range_get_number_of_ids r + n) 0 l)) as H.
  { induction l as [|r l IH]; intros a; simpl; [f_equal; lia|].
    replace (u32 (u32 a + range_get_number_of_ids r)) with (u32 (a + range_get_number_of_ids r)).
    - rewrite IH. f_equal. lia.
    - unfold u32. by rewrite Zplus_mod_idemp_l. }
  apply (H 0).
Qed.

Section Ids.
Context (B : Z) (HB : 2 <= B <= 2147483648).

Lemma range_count r :
  range_ok B r ->
  exists n : nat, range_fuel r = n /\ range_get_number_of_ids r = n /\ (1 <= n)%nat /\
    Z.of_nat n <= B /\
    (forall j : nat, (j < n)%nat <-> rn_min r + j * rn_step r <= rn_max r).
Proof.
  intros (? & ? & ? & ?). exists (range_fuel r). split; [done|]. unfold range_fuel.
  unfold range_get_number_of_ids. rewrite (u32_small (rn_max r - rn_min r)) by lia.
  pose proof (Z.div_mod (rn_max r - rn_min r) (rn_step r) ltac:(lia)) as Hd.
  pose proof (Z.mod_pos_bound (rn_max r - rn_min r) (rn_step r) ltac:(lia)) as Hm.
  set (q := (rn_max r - rn_min r) / rn_step r) in *.
  assert (0 <= q) by (apply Z.div_pos; lia).
  assert (q <= rn_max r - rn_min r) by nia.
  rewrite u32_small by lia. repeat (split; [lia|]). intros j. split; intros; nia.
Qed.

Lemma range_ids_spec r :
  range_ok B r ->
  exists ids, range_ids r = Some ids /\ Z.of_nat (length ids) = range_get_number_of_ids r /\
    StronglySorted Z.lt ids /\ forall x, x ∈ ids <-> id_in x r.
Proof.
  intros Hok. destruct (range_count r Hok) as (n & Hn & Hc & H1 & _ & Hj).
  destruct Hok as (? & ? & ? & Hstep).
  exists ((fun j : nat => rn_min r + j * rn_step r) <$> seq 0 n).
  split; [|split; [|split]].
  - unfold range_ids. rewrite Hn. apply id_loop_run; try lia.
    + intros j. apply Hj.
    + destruct (Z_le_gt_dec (rn_min r + n * rn_step r) (rn_max r)) as [Hle|]; [|lia].
      apply Hj in Hle. lia.
  - rewrite length_fmap, length_seq. lia.
  - generalize 0%nat. clear -Hstep. induction n as [|n IH]; intros a; simpl; constructor; [done|].
    rewrite Forall_fmap, Forall_forall. intros j Hj%elem_of_seq. simpl. nia.
  - intros x. rewrite list_elem_of_fmap. unfold id_in. split.
    + intros (j & -> & Hin%elem_of_seq). exists j. rewrite <- Hj. lia.
    + intros (j & ? & -> & Hle). exists (Z.to_nat j). split; [lia|].
      rewrite elem_of_seq. split; [lia|]. apply Hj. lia.
Qed.

Lemma id_range x r : range_ok B r -> id_in x r -> 0 <= x < B.
Proof. intros Hok Hx. pose proof (id_in_bounds B x r Hok Hx). destruct Hok. lia. Qed.

Lemma ids_range x l : Forall (range_ok B) l -> ids_in x l -> 0 <= x < B.
Proof.
  rewrite Forall_forall. intros Hl (r & Hr & Hx)%ids_in_elem. eapply id_range; eauto.
Qed.

Lemma list_ids_spec l :
  Forall (range_ok B) l ->
  exists ids, range_list_ids l = Some ids /\ (forall x, x ∈ ids <-> ids_in x l) /\
    Forall (fun id => 0 <= id < B) ids /\ (rl_ok B l -> StronglySorted Z.lt ids) /\
    fold_right (fun r n => range_get_number_of_ids r + n) 0 l = length ids.
Proof.
  induction 1 as [|r l Hr Hl IH]; simpl.
  { exists []. repeat split; auto using SSorted_nil; rewrite ?ids_in_nil; set_solver. }
  destruct (range_ids_spec r Hr) as (i1 & -> & Hc & Hs & Hi1). simpl.
  destruct IH as (i2 & -> & Hi2 & Hb & Hs2 & Hc2). simpl. exists (i1 ++ i2). split; [done|].
  split; [|split; [|split]].
  - intros x. rewrite elem_of_app, ids_in_cons, Hi1, Hi2. done.
  - apply Forall_app. split; [|done]. rewrite Forall_forall. intros x Hx%Hi1.
    by apply (id_range x r).
  - intros Hok. apply rl_ok_cons in Hok as (_ & Hok & Ha). apply StronglySorted_app.
    split; [|split; auto]. intros x y Hx%Hi1 Hy%Hi2.
    pose proof (id_in_bounds B x r Hr Hx). apply ids_in_elem in Hy as (r' & Hr' & Hy).
    unfold above in Ha. rewrite Forall_forall in Ha, Hl.
    pose proof (id_in_bounds B y r' (Hl _ Hr') Hy). specialize (Ha _ Hr'). lia.
  - rewrite length_app, Hc2. lia.
Qed.

End Ids.
