(* ===== verification/RangeNorm.v ===== *)
(** Normalising a range list ([range_list_sort_uniq_compress]) and the set
    operations that start from a normalised list; splitting a range list
    ([range_list_move_first_n_ids]). *)

From S2P Require Import Prelude Answer Range RangeFacts RangeSets.
Import Answer Ranges.

(** Two range lists are equivalent when they denote the same ids. *)
Definition rl_equiv (l1 l2 : list range) : Prop := forall x, ids_in x l1 <-> ids_in x l2.

#[export] Instance rl_equiv_equivalence : Equivalence rl_equiv.
Proof.
  split; intros l; unfold rl_equiv.
  - done.
  - intros l2 H x. by rewrite H.
  - intros l2 l3 H1 H2 x. by rewrite H1, H2.
Qed.

#[export] Instance ids_in_proper x : Proper (rl_equiv ==> iff) (ids_in x).
Proof. intros l1 l2 H. apply H. Qed.

#[export] Instance rl_equiv_app : Proper (rl_equiv ==> rl_equiv ==> rl_equiv) (@app range).
Proof. intros a1 a2 Ha b1 b2 Hb x. by rewrite !ids_in_app, (Ha x), (Hb x). Qed.

#[export] Instance rl_equiv_cons r : Proper (rl_equiv ==> rl_equiv) (cons r).
Proof. intros a1 a2 Ha x. by rewrite !ids_in_cons, (Ha x). Qed.

Lemma rl_equiv_perm l1 l2 : l1 ≡ₚ l2 -> rl_equiv l1 l2.
Proof. intros H x. by apply ids_in_perm. Qed.

Section Norm.
Context (B : Z) (HB : 2 <= B <= 2147483648).
Let HB' : 2 <= B <= 4294967296 := ltac:(lia).

Lemma correct_end_spec r :
  range_ok B r ->
  range_ok B (range_correct_end r) /\ aligned (range_correct_end r) /\
  rn_min (range_correct_end r) = rn_min r /\ rn_max (range_correct_end r) <= rn_max r /\
  forall x, id_in x (range_correct_end r) <-> id_in x r.
Proof.
  intros (? & ? & ? & ?). unfold range_correct_end; simpl.
  rewrite (proj2 (Z.ltb_lt 0 _)) by lia. rewrite (u32_small (rn_max r - rn_min r)) by lia.
  pose proof (Z.div_mod (rn_max r - rn_min r) (rn_step r) ltac:(lia)) as Hd.
  pose proof (Z.mod_pos_bound (rn_max r - rn_min r) (rn_step r) ltac:(lia)) as Hm.
  set (q := (rn_max r - rn_min r) / rn_step r) in *.
  assert (0 <= q) by (apply Z.div_pos; lia).
  assert (0 <= q * rn_step r <= rn_max r - rn_min r) by nia.
  rewrite (u32_small (q * _)), (u32_small (rn_min r + _)) by lia.
  set (e := if _ =? 0 then _ else _).
  assert (e = rn_min r + q * rn_step r) as -> by (subst e; destruct (_ =? 0) eqn:E; [apply Z.eqb_eq in E; lia|done]).
  autorewrite with ids.
  destruct (set_all_ids_good B HB' (rn_min r) (rn_min r + q * rn_step r) (rn_step r));
    [lia|lia|lia|lia|eauto|].
  do 2 (split; [done|]). split; [done|]. split; [lia|]. intros x.
  rewrite set_all_ids_in by lia. unfold id_in.
  split; intros (j & ? & ? & ?); exists j; [nia|]. assert (j <= q) by nia. nia.
Qed.

(** What [maybe_correct ce] needs to give a range with its end on the grid. *)
Definition fixable (ce : bool) (r : range) : Prop :=
  range_ok B r /\ (ce = true \/ aligned r).

Lemma maybe_correct_spec ce r :
  fixable ce r ->
  (range_ok B (maybe_correct ce r) /\ aligned (maybe_correct ce r)) /\
  rn_min (maybe_correct ce r) = rn_min r /\
  forall x, id_in x (maybe_correct ce r) <-> id_in x r.
Proof.
  intros [Hok Hce]. destruct ce; simpl.
  - destruct (correct_end_spec r Hok) as (? & ? & ? & ? & ?). auto.
  - destruct Hce as [?|?]; [done|]. repeat split; auto; apply Hok.
Qed.

Lemma fixable_correct ce r : fixable ce r -> fixable ce (maybe_correct ce r).
Proof. intros H. destruct (maybe_correct_spec ce r H) as ([? ?] & _). split; auto. Qed.

Lemma take_overlapping_spec ce r1 l tmp rest :
  Forall (fixable ce) l -> StronglySorted min_le l ->
  take_overlapping ce r1 l = (tmp, rest) ->
  Forall (range_ok B) tmp /\ Forall (fixable ce) rest /\ StronglySorted min_le rest /\
  above (rn_max r1) rest /\ (length rest <= length l)%nat /\ rl_equiv (tmp ++ rest) l.
Proof.
  revert tmp rest. induction l as [|r2 l IH]; intros tmp rest Hf Hs; simpl.
  { intros [= <- <-]. repeat split; auto; constructor. }
  apply Forall_cons in Hf as [Hr2 Hf]. inversion_clear Hs as [|? ? Hs' Hle].
  destruct (maybe_correct_spec ce r2 Hr2) as ([Hok2 Hal2] & Hmin & Hids).
  destruct (range_is_overlapping r1 (maybe_correct ce r2)) eqn:E.
  - destruct (take_overlapping ce r1 l) as [tmp' rest'] eqn:Et. intros [= <- <-].
    destruct (IH _ _ Hf Hs' eq_refl) as (? & ? & ? & ? & ? & He).
    split; [by constructor|]. repeat (split; [first [done|lia]|]).
    intros x. simpl. rewrite !ids_in_cons, Hids, (He x). done.
  - intros [= <- <-]. unfold range_is_overlapping in E.
    split; [constructor|]. split; [constructor; [by apply fixable_correct|done]|].
    assert (Forall (min_le (maybe_correct ce r2)) l).
    { unfold min_le in *. by rewrite Hmin. }
    split; [by constructor|]. split; [|split; [simpl; lia|]].
    + apply above_cons. split; [lia|]. eapply Forall_impl; [exact Hle|].
      unfold min_le. intros. lia.
    + intros x. simpl. by rewrite !ids_in_cons, Hids.
Qed.

Lemma remove_overlaps_spec n ce l kept tmp :
  (length l <= n)%nat -> Forall (fixable ce) l -> StronglySorted min_le l ->
  remove_overlaps n ce l = (kept, tmp) ->
  rl_ok B kept /\ Forall (range_ok B) tmp /\ (forall lo, above lo l -> above lo kept) /\
  rl_equiv (kept ++ tmp) l.
Proof.
  revert l kept tmp. induction n as [|n IH]; intros l kept tmp Hn Hf Hs; simpl.
  { destruct l; [|simpl in Hn; lia]. intros [= <- <-].
    repeat split; auto; try constructor; done. }
  destruct l as [|r1 l].
  { intros [= <- <-]. repeat split; auto; try constructor; done. }
  apply Forall_cons in Hf as [Hr1 Hf]. inversion_clear Hs as [|? ? Hs' Hle].
  destruct (maybe_correct_spec ce r1 Hr1) as ([Hok1 Hal1] & Hmin & Hids).
  destruct (take_overlapping ce (maybe_correct ce r1) l) as [t rest] eqn:Et.
  apply take_overlapping_spec in Et as (Ht & Hfr & Hsr & Har & Hlr & He); [|done..].
  destruct (remove_overlaps n ce rest) as [kept' tmp'] eqn:Er.
  simpl in Hn. apply IH in Er as (Hk & Ht' & Hab & He'); [|lia|done..]. intros [= <- <-].
  split; [|split; [|split]].
  - apply rl_ok_cons. split; [done|]. split; [done|]. by apply Hab.
  - apply Forall_app. done.
  - intros lo [? Hlo]%above_cons. apply above_cons. split; [lia|]. apply Hab.
    destruct Hok1 as (? & ? & ? & ?). eapply above_mono; [|exact Har]. lia.
  - intros x. specialize (He x). specialize (He' x). revert He He'.
    rewrite !ids_in_app, !ids_in_cons, Hids. tauto.
Qed.

Section WithSort.
Context `{Sorting : SortByMin}.

Lemma sort_uniq_compress_spec l ce :
  Forall (fixable ce) l ->
  exists out, range_list_sort_uniq_compress l ce = Some out /\ rl_ok B out /\ rl_equiv out l.
Proof.
  intros Hf. unfold range_list_sort_uniq_compress.
  destruct (remove_overlaps (length l) ce (sort_by_min l)) as [kept tmp] eqn:E.
  apply remove_overlaps_spec in E as (Hk & Ht & _ & He).
  - destruct (list_ids_spec B HB tmp Ht) as (ids & -> & Hids & Hb & _). simpl.
    destruct (insert_ids_spec B HB' kept ids Hk Hb) as [H1 H2].
    destruct (compress_spec B HB' _ H1) as [H3 H4].
    exists (range_list_compress (range_list_insert_ids kept ids)).
    split; [done|]. split; [done|]. intros x. specialize (He x).
    rewrite (rl_equiv_perm _ _ (sort_by_min_perm l) x), ids_in_app in He.
    rewrite H4, H2, Hids. tauto.
  - by rewrite (Permutation_length (sort_by_min_perm l)).
  - by rewrite sort_by_min_perm.
  - apply sort_by_min_sorted.
Qed.

Lemma fixable_all l : Forall (range_ok B) l -> Forall (fixable true) l.
Proof. intros H. eapply Forall_impl; [exact H|]. intros. split; auto. Qed.

Lemma union_spec old al l1 l2 :
  answer_list_has_error al = false ->
  Forall (range_ok B) l1 -> Forall (range_ok B) l2 ->
  exists u, range_list_calculate_union_set old al (Some l1) (Some l2) = Some (Some u, al) /\
    rl_ok B u /\ rl_equiv u (l1 ++ l2).
Proof.
  intros Hal H1 H2. unfold range_list_calculate_union_set.
  destruct (sort_uniq_compress_spec l1 true (fixable_all _ H1)) as (n & -> & Hn & He). simpl.
  rewrite Hal. destruct (list_ids_spec B HB l2 H2) as (ids & -> & Hids & Hb & _). simpl.
  destruct (insert_ids_spec B HB' n ids Hn Hb) as [H3 H4].
  destruct (compress_spec B HB' _ H3) as [H5 H6]. eexists. split; [done|]. split; [done|].
  intros x. rewrite H6, H4, Hids, ids_in_app, (He x). tauto.
Qed.

Lemma difference_spec old al l1 l2 :
  answer_list_has_error al = false ->
  Forall (range_ok B) l1 -> Forall (range_ok B) l2 ->
  exists d, range_list_calculate_difference_set old al (Some l1) (Some l2) = Some (d, al) /\
    rl_ok B (default [] d) /\
    forall x, ids_in x (default [] d) <-> ids_in x l1 /\ ~ ids_in x l2.
Proof.
  intros Hal H1 H2. unfold range_list_calculate_difference_set.
  destruct (sort_uniq_compress_spec l1 true (fixable_all _ H1)) as (n & -> & Hn & He). simpl.
  rewrite Hal. destruct (list_ids_spec B HB l2 H2) as (ids & -> & Hids & _). simpl.
  destruct (remove_ids_spec B HB' (Some n) ids Hn) as [H3 H4]. eexists. split; [done|].
  destruct (range_list_remove_ids (Some n) ids) as [d|]; simpl in *.
  - destruct (compress_spec B HB' _ H3) as [H5 H6]. split; [done|].
    intros x. rewrite H6, H4, Hids, (He x). done.
  - split; [done|]. intros x. rewrite H4, Hids, (He x). done.
Qed.

(** Single ids in ascending order form a well-formed list. *)
Lemma singles_spec ids :
  StronglySorted Z.lt ids -> Forall (fun id => 0 <= id < B) ids ->
  rl_ok B (map (fun id => range_set_all_ids id id 1) ids) /\
  forall x, ids_in x (map (fun id => range_set_all_ids id id 1) ids) <-> x ∈ ids.
Proof.
  induction 1 as [|id ids Hs IH Hlt]; intros Hb; simpl.
  { split; [apply rl_ok_nil|]. intros x. rewrite ids_in_nil. set_solver. }
  apply Forall_cons in Hb as [Hid Hb]. destruct (IH Hb) as [H1 H2]. split.
  - apply rl_ok_cons. split; [apply (single_good B HB'); done|]. split; [done|].
    unfold above. rewrite Forall_map, set_all_ids_max. eapply Forall_impl; [exact Hlt|].
    intros y ?. rewrite set_all_ids_min. done.
  - intros x. rewrite ids_in_cons, set_all_ids_single_in, H2, elem_of_cons. done.
Qed.

Lemma filter_sorted (P : Z -> bool) ids :
  StronglySorted Z.lt ids -> StronglySorted Z.lt (List.filter P ids).
Proof.
  induction 1 as [|id ids Hs IH Hlt]; simpl; [constructor|]. destruct (P id); [|done].
  constructor; [done|]. rewrite Forall_forall in *. intros y Hy. apply Hlt.
  apply list_elem_of_In in Hy. apply filter_In in Hy as [Hy _]. by apply list_elem_of_In.
Qed.

Lemma intersection_spec al l1 l2 :
  rl_ok B l1 -> Forall (range_ok B) l2 ->
  exists i, range_list_calculate_intersection_set al (Some l1) (Some l2) = Some (i, al) /\
    rl_ok B (default [] i) /\
    forall x, ids_in x (default [] i) <-> ids_in x l1 /\ ids_in x l2.
Proof.
  intros H1 H2. unfold range_list_calculate_intersection_set.
  destruct (list_ids_spec B HB l1 (rl_ok_ranges _ _ H1)) as (ids & -> & Hids & Hb & Hs & _).
  simpl. specialize (Hs H1). set (hits := List.filter _ ids).
  assert (forall x, x ∈ hits <-> ids_in x l1 /\ ids_in x l2) as Hh.
  { intros x. unfold hits. rewrite list_elem_of_In, filter_In, <- list_elem_of_In, Hids.
    by rewrite (within_list_iff B HB' x l2 H2). }
  destruct (singles_spec hits) as [H3 H4].
  { by apply filter_sorted. }
  { rewrite Forall_forall in *. intros x Hx%Hh. apply Hb, Hids, Hx. }
  eexists. split; [done|]. revert Hh H3 H4. clearbody hits. intros Hh H3 H4.
  destruct hits as [|h hs]; cbn [default].
  - split; [apply rl_ok_nil|]. intros x. rewrite ids_in_nil, <- Hh. set_solver.
  - destruct (compress_spec B HB' _ H3) as [H5 H6]. split; [done|].
    intros x. rewrite H6, H4, Hh. done.
Qed.

End WithSort.
End Norm.

(** ** Splitting: how the counter of ids still to be moved behaves across ranges *)

Section Move.
Context (B : Z) (HB : 2 <= B <= 2147483648) `{Sorting : SortByMin}.
Let HB' : 2 <= B <= 4294967296 := ltac:(lia).

(** [m] is the number of ids the loop still moves: a counter of [0] is [2^32]. *)
Lemma move_ids_spec ids l2 m :
  rl_ok B l2 -> Forall (fun id => 0 <= id < B) ids -> 1 <= m <= 4294967296 ->
  let res := move_ids l2 (u32 m) ids in
  rl_ok B res.1 /\
  (forall x, ids_in x res.1 <-> x ∈ take (Z.to_nat m) ids \/ ids_in x l2) /\
  res.2 = u32 (Z.max 0 (m - length ids)).
Proof.
  revert l2 m. induction ids as [|id ids IH]; intros l2 m Hl Hids Hm; simpl.
  { split; [done|]. split; [|f_equal; lia]. intros x. rewrite take_nil. set_solver. }
  apply Forall_cons in Hids as [Hid Hids].
  destruct (insert_id_spec B HB' l2 id Hl Hid) as [H1 H2].
  destruct (compress_spec B HB' _ H1) as [H3 H4].
  assert (u32 (u32 m - 1) = u32 (m - 1)) as ->.
  { unfold u32. rewrite Zminus_mod_idemp_l. done. }
  set (l2' := range_list_compress _) in *.
  assert (forall x, ids_in x l2' <-> x = id \/ ids_in x l2) as Hx.
  { intros x. by rewrite H4, H2. }
  destruct (decide (m = 1)) as [->|].
  - simpl. split; [done|]. split; [|f_equal; lia].
    intros x. rewrite Hx. simpl. rewrite take_0, list_elem_of_singleton. done.
  - rewrite (u32_small (m - 1)) by lia. rewrite (proj2 (Z.eqb_neq _ _)) by lia.
    destruct (IH l2' (m - 1) H3 Hids ltac:(lia)) as (Ha & Hb & Hc). simpl in Ha, Hb, Hc.
    rewrite (u32_small (m - 1)) in Ha, Hb, Hc by lia. split; [done|]. split.
    + intros x. rewrite Hb, Hx. replace (Z.to_nat m) with (S (Z.to_nat (m - 1))) by lia.
      simpl. rewrite elem_of_cons. tauto.
    + rewrite Hc. f_equal. lia.
Qed.

(** When the counter does not reach 0, every id is moved. *)
Lemma move_ranges_all l l2 m :
  rl_ok B l2 -> Forall (range_ok B) l -> 1 <= m <= 4294967296 ->
  fold_right (fun r n => range_get_number_of_ids r + n) 0 l <= m ->
  exists out, move_ranges l2 (u32 m) l = Some out /\ rl_ok B out /\
    forall x, ids_in x out <-> ids_in x l \/ ids_in x l2.
Proof.
  intros Hl2 Hl. revert l2 m Hl2. induction Hl as [|r l Hr Hl IH]; intros l2 m Hl2 Hm Hc; simpl.
  { exists l2. do 2 (split; [done|]). intros x. rewrite ids_in_nil. tauto. }
  simpl in Hc. destruct (list_ids_spec B HB l Hl) as (il & _ & _ & _ & _ & Hcl).
  destruct (range_ids_spec B HB r Hr) as (ids & -> & Hlen & _ & Hids). simpl.
  pose proof (move_ids_spec ids l2 m Hl2) as Hmv.
  destruct (move_ids l2 (u32 m) ids) as [l2' n'].
  destruct Hmv as (H1 & H2 & H3); [|done|].
  { rewrite Forall_forall. intros x Hx%Hids. by apply (id_range B x r). }
  simpl in H1, H2, H3. rewrite Hcl, <- Hlen in Hc.
  assert (forall x, ids_in x l2' <-> id_in x r \/ ids_in x l2) as Hx.
  { intros x. rewrite H2, take_ge, Hids by lia. done. }
  assert (exists out, move_ranges l2' n' l = Some out /\ rl_ok B out /\
            forall x, ids_in x out <-> ids_in x l \/ ids_in x l2') as (out & -> & Ho & Hox).
  { subst n'. destruct (decide (m = length ids)) as [->|].
    - replace (Z.max 0 (length ids - length ids)) with 0 by lia.
      change (u32 0) with (u32 4294967296). apply IH; [done|lia|lia].
    - rewrite Z.max_r by lia. apply IH; [done|lia|lia]. }
  exists out. do 2 (split; [done|]). intros x. rewrite Hox, Hx, ids_in_cons. tauto.
Qed.

(** The counter reaches 0 inside the first range: the loop over its ids stops, the
    loop over the ranges goes on with a counter of 0. *)
Lemma move_ranges_first r l ids n :
  Forall (range_ok B) (r :: l) -> range_ids r = Some ids -> 1 <= n <= length ids ->
  fold_right (fun r n => range_get_number_of_ids r + n) 0 l < 4294967296 ->
  exists out, move_ranges [] n (r :: l) = Some out /\ rl_ok B out /\
    forall x, ids_in x out <-> x ∈ take (Z.to_nat n) ids \/ ids_in x l.
Proof.
  intros [Hr Hl]%Forall_cons Hids Hn Hc.
  destruct (range_ids_spec B HB r Hr) as (ids' & Hids' & Hlen & _ & Hin).
  rewrite Hids in Hids'. injection Hids' as <-.
  destruct (range_count B HB r Hr) as (c & _ & Hcc & _ & Hcb & _).
  simpl. rewrite Hids. simpl.
  pose proof (move_ids_spec ids [] n (rl_ok_nil _)) as Hmv.
  rewrite u32_small in Hmv by lia. destruct (move_ids [] n ids) as [l2' n'].
  destruct Hmv as (H1 & H2 & H3); [|lia|].
  { rewrite Forall_forall. intros x Hx%Hin. by apply (id_range B x r). }
  simpl in H1, H2, H3. rewrite Z.max_l in H3 by lia. subst n'.
  destruct (move_ranges_all l l2' 4294967296 H1 Hl) as (out & Ho & Hok & Hx); [lia|lia|].
  change (u32 4294967296) with (u32 0) in Ho. exists out. do 2 (split; [done|]).
  intros x. rewrite Hx, H2, ids_in_nil. tauto.
Qed.

Lemma move_first_spec r l ids n :
  rl_ok B (r :: l) -> range_ids r = Some ids -> 1 <= n <= length ids ->
  fold_right (fun r n => range_get_number_of_ids r + n) 0 l < 4294967296 ->
  exists kept moved,
    range_list_move_first_n_ids (Some (r :: l)) None n = Some (kept, Some moved) /\
    rl_ok B (default [] kept) /\ rl_ok B moved /\
    (forall x, ids_in x moved <-> x ∈ take (Z.to_nat n) ids \/ ids_in x l) /\
    (forall x, ids_in x (default [] kept) <->
       ids_in x (r :: l) /\ ~ (x ∈ take (Z.to_nat n) ids \/ ids_in x l)).
Proof.
  intros Hl Hids Hn Hc.
  destruct (move_ranges_first r l ids n (rl_ok_ranges _ _ Hl) Hids Hn Hc)
    as (moved & Hm & Hok & Hx).
  destruct (list_ids_spec B HB moved (rl_ok_ranges _ _ Hok)) as (mids & Hmids & Hin & _).
  destruct (remove_ids_spec B HB' (Some (r :: l)) mids Hl) as [H1 H2].
  exists (range_list_remove_ids (Some (r :: l)) mids), moved. split.
  - unfold range_list_move_first_n_ids. cbn [default]. rewrite Hm. simpl. rewrite Hmids. simpl.
    destruct moved as [|r1 mv]; [|done]. exfalso.
    destruct ids as [|i ids']; [simpl in Hn; lia|].
    specialize (Hx i). rewrite ids_in_nil in Hx. apply Hx. left.
    replace (Z.to_nat n) with (S (Z.to_nat (n - 1))) by lia. simpl. set_solver.
  - do 3 (split; [done|]). intros x. rewrite H2, Hin, Hx. done.
Qed.

End Move.
