(* ===== verification/RangeProps.v ===== *)
(** What [sge_range.cc] promises, stated with the code's own membership test
    [range_list_is_id_within]. *)

From S2P Require Import Prelude Answer Range RangeFacts RangeSets RangeNorm.
Import Answer Ranges.

Module RangeProps.

(** Task ids are below 2^31 wherever an id loop is involved: [start += step] then
    stays below 2^32. *)
Definition task_bound : Z := 2147483648.
Definition id_bound : Z := 4294967296.

#[local] Lemma task_bound_ok : 2 <= task_bound <= 2147483648.
Proof. unfold task_bound. lia. Qed.
#[local] Lemma id_bound_ok : 2 <= id_bound <= 4294967296.
Proof. unfold id_bound. lia. Qed.
#[local] Lemma task_bound_ok' : 2 <= task_bound <= 4294967296.
Proof. unfold task_bound. lia. Qed.

#[local] Hint Resolve task_bound_ok id_bound_ok task_bound_ok' rl_ok_ranges : core.

(** A merge sort is one instance of the sorting interface. *)
#[local] Instance min_le_dec a b : Decision (min_le a b) := decide (rn_min a <= rn_min b).
#[local] Instance min_le_trans : Transitive min_le.
Proof. intros a b c. unfold min_le. lia. Qed.
#[local] Instance min_le_total : Total min_le.
Proof. intros a b. unfold min_le. lia. Qed.

Definition merge_sort_by_min : SortByMin := {|
  sort_by_min := merge_sort min_le;
  sort_by_min_perm := merge_sort_Permutation min_le;
  sort_by_min_sorted := StronglySorted_merge_sort min_le;
|}.

(** Turning a set equation into an equation of membership tests. *)
Lemma within_eq B l x b :
  2 <= B <= 4294967296 -> Forall (range_ok B) l -> (ids_in x l <-> b = true) ->
  range_list_is_id_within l x = b.
Proof.
  intros HB Hl Hb. apply eq_true_iff_eq. rewrite (within_list_iff B HB x l Hl). done.
Qed.

Lemma within_in B l x :
  2 <= B <= 4294967296 -> Forall (range_ok B) l ->
  range_list_is_id_within l x = true <-> ids_in x l.
Proof. intros HB Hl. by apply (within_list_iff B HB). Qed.

Ltac by_membership :=
  repeat (rewrite ?orb_true_iff, ?andb_true_iff, ?negb_true_iff, ?Z.eqb_eq, ?Z.eqb_neq).

(** A decision procedure for [rl_ok], so that concrete lists can be checked. *)
Fixpoint rl_okb (B : Z) (lo : Z) (l : list range) : bool :=
  match l with
  | [] => true
  | r :: l' =>
      (lo <? rn_min r) && (rn_min r <=? rn_max r) && (rn_max r <? B) &&
      (1 <=? rn_step r) && (rn_step r <? B) && ((rn_max r - rn_min r) mod rn_step r =? 0) &&
      rl_okb B (rn_max r) l'
  end.

Lemma rl_okb_sound B lo l : -1 <= lo -> rl_okb B lo l = true -> rl_ok B l /\ above lo l.
Proof.
  revert lo. induction l as [|r l IH]; intros lo Hlo; simpl.
  { split; [apply rl_ok_nil|constructor]. }
  rewrite !andb_true_iff. intros [[[[[[? ?] ?] ?] ?] Hm] Hl].
  destruct (IH (rn_max r) ltac:(lia) Hl) as [Ha Hb]. split.
  - apply rl_ok_cons. split; [|done]. split; [split; lia|].
    apply Z.eqb_eq, mod_grid in Hm as (j & ? & ?); [|lia|lia]. exists j. lia.
  - apply above_cons. split; [lia|]. eapply above_mono; [|exact Hb]. lia.
Qed.

Ltac rl_ok_compute := apply (rl_okb_sound _ (-1)); [lia|reflexivity].

(** C19: [range_list_insert_id] on a well-formed list (ascending, disjoint, every end
    on its grid) gives a well-formed list that holds exactly the old ids and the new
    one, for every sorting routine and over the whole of [uint32_t]. *)
Theorem insert_id_adds_exactly `{SortByMin} (l : list range) (id : Z) :
  rl_ok id_bound l -> 0 <= id < id_bound ->
  rl_ok id_bound (range_list_insert_id l id) /\
  forall x, range_list_is_id_within (range_list_insert_id l id) x =
            (x =? id) || range_list_is_id_within l x.
Proof.
  intros Hl Hid. destruct (insert_id_spec id_bound id_bound_ok l id Hl Hid) as [H1 H2].
  split; [done|]. intros x. apply (within_eq id_bound); eauto. rewrite H2. by_membership.
  by rewrite (within_in id_bound) by eauto.
Qed.

Lemma insert_id_adds_exactly_witness :
  let l := [Range 1 9 2; Range 20 20 1] in
  rl_ok id_bound l /\
  range_list_is_id_within (range_list_insert_id (Sorting := merge_sort_by_min) l 4) 4 =
    (4 =? 4) || range_list_is_id_within l 4.
Proof.
  split; [rl_ok_compute|].
  apply (insert_id_adds_exactly (H := merge_sort_by_min) [Range 1 9 2; Range 20 20 1] 4).
  - rl_ok_compute.
  - unfold id_bound. lia.
Defined.

(** [range_list_remove_id] keeps the list well formed and removes exactly the
    id; a list that becomes empty is freed. *)
Theorem remove_id_removes_exactly (l : list range) (id : Z) :
  rl_ok id_bound l ->
  rl_ok id_bound (default [] (range_list_remove_id (Some l) id)) /\
  (forall x, range_list_is_id_within (default [] (range_list_remove_id (Some l) id)) x =
             negb (x =? id) && range_list_is_id_within l x) /\
  (range_list_remove_id (Some l) id = None <->
   forall x, range_list_is_id_within l x = true -> x = id).
Proof.
  intros Hl. destruct (remove_id_spec id_bound id_bound_ok (Some l) id Hl) as [H1 H2].
  change (default [] (Some l)) with l in H2. split; [done|]. split.
  - intros x. apply (within_eq id_bound); eauto. rewrite H2. by_membership.
    rewrite (within_in id_bound) by eauto. tauto.
  - setoid_rewrite (within_in id_bound l); eauto. split.
    + intros Hn x Hx. rewrite Hn in H2. simpl in H2. specialize (H2 x).
      rewrite ids_in_nil in H2. destruct (decide (x = id)); [done|tauto].
    + intros Hall. destruct (range_list_remove_id (Some l) id) as [[|r l']|] eqn:E; [|exfalso|done].
      * simpl in E. by destruct (remove_id_walk l id).
      * simpl in H2, H1. apply rl_ok_cons in H1 as ([Hr _] & _).
        assert (ids_in (rn_min r) (r :: l')) as Hin.
        { rewrite ids_in_cons. left. by apply (id_in_min id_bound). }
        apply H2 in Hin as [Hin Hne]. by apply Hne, Hall.
Qed.

Lemma remove_id_removes_exactly_witness :
  let l := [Range 1 9 2] in
  rl_ok id_bound l /\
  rl_ok id_bound (default [] (range_list_remove_id (Some l) 5)).
Proof.
  split; [rl_ok_compute|]. apply (remove_id_removes_exactly [Range 1 9 2] 5). rl_ok_compute.
Defined.

(** [range_list_sort_uniq_compress] terminates and normalises: from any list of
    non-empty ranges (unsorted, overlapping, ends off the grid) it makes a
    well-formed list with the same ids. *)
Theorem sort_uniq_compress_normalises `{SortByMin} (l : list range) :
  Forall (range_ok task_bound) l ->
  exists out, range_list_sort_uniq_compress l true = Some out /\
    rl_ok task_bound out /\
    forall x, range_list_is_id_within out x = range_list_is_id_within l x.
Proof.
  intros Hl.
  destruct (sort_uniq_compress_spec task_bound task_bound_ok l true (fixable_all _ l Hl))
    as (out & -> & Hok & He).
  exists out. do 2 (split; [done|]). intros x. apply (within_eq task_bound); eauto.
  rewrite (He x), (within_in task_bound) by eauto. done.
Qed.

Lemma sort_uniq_compress_normalises_witness :
  exists out,
    range_list_sort_uniq_compress (Sorting := merge_sort_by_min)
      [Range 5 10 2; Range 1 6 1] true = Some out /\
    rl_ok task_bound out /\
    forall x, range_list_is_id_within out x =
      range_list_is_id_within [Range 5 10 2; Range 1 6 1] x.
Proof.
  apply (sort_uniq_compress_normalises (H := merge_sort_by_min)).
  repeat (apply List.Forall_cons; [unfold range_ok, task_bound; simpl; lia|]). constructor.
Defined.

(** [range_list_calculate_union_set]: the result replaces whatever [*range_list]
    held, is normalised, and holds exactly the ids of the two lists. *)
Theorem union_set_correct `{SortByMin} (old : option (list range)) (al : answer_arg)
    (l1 l2 : list range) :
  answer_list_has_error al = false ->
  Forall (range_ok task_bound) l1 -> Forall (range_ok task_bound) l2 ->
  exists u, range_list_calculate_union_set old al (Some l1) (Some l2) = Some (Some u, al) /\
    rl_ok task_bound u /\
    forall x, range_list_is_id_within u x =
              range_list_is_id_within l1 x || range_list_is_id_within l2 x.
Proof.
  intros Hal H1 H2.
  destruct (union_spec task_bound task_bound_ok old al l1 l2 Hal H1 H2) as (u & -> & Hok & He).
  exists u. do 2 (split; [done|]). intros x. apply (within_eq task_bound); eauto.
  rewrite (He x), ids_in_app. by_membership. rewrite !(within_in task_bound) by eauto. done.
Qed.

Lemma union_set_correct_witness :
  exists u, range_list_calculate_union_set (Sorting := merge_sort_by_min) None (Some (Some []))
      (Some [Range 5 10 2]) (Some [Range 1 6 1]) = Some (Some u, Some (Some [])) /\
    rl_ok task_bound u /\
    forall x, range_list_is_id_within u x =
      range_list_is_id_within [Range 5 10 2] x || range_list_is_id_within [Range 1 6 1] x.
Proof.
  apply (union_set_correct (H := merge_sort_by_min));
    [reflexivity | | ];
    (apply List.Forall_cons; [unfold range_ok, task_bound; simpl; lia|constructor]).
Defined.

(** [range_list_calculate_difference_set]: exactly the ids of the first list that
    are not in the second, normalised; an empty difference is a null list. *)
Theorem difference_set_correct `{SortByMin} (old : option (list range)) (al : answer_arg)
    (l1 l2 : list range) :
  answer_list_has_error al = false ->
  Forall (range_ok task_bound) l1 -> Forall (range_ok task_bound) l2 ->
  exists d, range_list_calculate_difference_set old al (Some l1) (Some l2) = Some (d, al) /\
    rl_ok task_bound (default [] d) /\
    forall x, range_list_is_id_within (default [] d) x =
              range_list_is_id_within l1 x && negb (range_list_is_id_within l2 x).
Proof.
  intros Hal H1 H2.
  destruct (difference_spec task_bound task_bound_ok old al l1 l2 Hal H1 H2)
    as (d & -> & Hok & He).
  exists d. do 2 (split; [done|]). intros x. apply (within_eq task_bound); eauto.
  rewrite He. by_membership. rewrite <- not_true_iff_false.
  rewrite !(within_in task_bound) by eauto. done.
Qed.

Lemma difference_set_correct_witness :
  exists d, range_list_calculate_difference_set (Sorting := merge_sort_by_min) None
      (Some (Some [])) (Some [Range 1 10 1]) (Some [Range 2 10 2]) = Some (d, Some (Some [])) /\
    rl_ok task_bound (default [] d) /\
    forall x, range_list_is_id_within (default [] d) x =
      range_list_is_id_within [Range 1 10 1] x && negb (range_list_is_id_within [Range 2 10 2] x).
Proof.
  apply (difference_set_correct (H := merge_sort_by_min));
    [reflexivity | | ];
    (apply List.Forall_cons; [unfold range_ok, task_bound; simpl; lia|constructor]).
Defined.

(** [range_list_calculate_intersection_set] of a normalised first list and any
    second list: exactly the common ids, normalised. *)
Theorem intersection_set_correct (al : answer_arg) (l1 l2 : list range) :
  rl_ok task_bound l1 -> Forall (range_ok task_bound) l2 ->
  exists i, range_list_calculate_intersection_set al (Some l1) (Some l2) = Some (i, al) /\
    rl_ok task_bound (default [] i) /\
    forall x, range_list_is_id_within (default [] i) x =
              range_list_is_id_within l1 x && range_list_is_id_within l2 x.
Proof.
  intros H1 H2.
  destruct (intersection_spec task_bound task_bound_ok al l1 l2 H1 H2) as (i & -> & Hok & He).
  exists i. do 2 (split; [done|]). intros x. apply (within_eq task_bound); eauto.
  rewrite He. by_membership. rewrite !(within_in task_bound) by eauto. done.
Qed.

Lemma intersection_set_correct_witness :
  exists i, range_list_calculate_intersection_set (Some (Some []))
      (Some [Range 1 10 1; Range 20 24 2]) (Some [Range 8 30 3]) = Some (i, Some (Some [])) /\
    rl_ok task_bound (default [] i) /\
    forall x, range_list_is_id_within (default [] i) x =
      range_list_is_id_within [Range 1 10 1; Range 20 24 2] x &&
      range_list_is_id_within [Range 8 30 3] x.
Proof.
  apply intersection_set_correct; [rl_ok_compute|].
  apply List.Forall_cons; [unfold range_ok, task_bound; simpl; lia|constructor].
Defined.

(** union, difference and intersection of two lists of ranges are those of the sets
    of ids: the results are normalised and replace what the result pointer held, and no
    error is reported.  The intersection asks for a normalised first list. *)
Theorem set_operations_correct `{SortByMin} (old : option (list range)) (al : answer_arg)
    (l1 l2 : list range) :
  answer_list_has_error al = false ->
  Forall (range_ok task_bound) l1 -> Forall (range_ok task_bound) l2 ->
  (exists u, range_list_calculate_union_set old al (Some l1) (Some l2) = Some (Some u, al) /\
    rl_ok task_bound u /\
    forall x, range_list_is_id_within u x =
              range_list_is_id_within l1 x || range_list_is_id_within l2 x) /\
  (exists d, range_list_calculate_difference_set old al (Some l1) (Some l2) = Some (d, al) /\
    rl_ok task_bound (default [] d) /\
    forall x, range_list_is_id_within (default [] d) x =
              range_list_is_id_within l1 x && negb (range_list_is_id_within l2 x)) /\
  (rl_ok task_bound l1 ->
   exists i, range_list_calculate_intersection_set al (Some l1) (Some l2) = Some (i, al) /\
    rl_ok task_bound (default [] i) /\
    forall x, range_list_is_id_within (default [] i) x =
              range_list_is_id_within l1 x && range_list_is_id_within l2 x).
Proof.
  intros Hal H1 H2. split; [by apply union_set_correct|]. split; [by apply difference_set_correct|].
  intros Hok. by apply intersection_set_correct.
Qed.

Lemma set_operations_correct_witness :
  exists i, range_list_calculate_intersection_set (Some (Some []))
      (Some [Range 1 10 1; Range 20 24 2]) (Some [Range 8 30 3]) = Some (i, Some (Some [])) /\
    rl_ok task_bound (default [] i) /\
    forall x, range_list_is_id_within (default [] i) x =
      range_list_is_id_within [Range 1 10 1; Range 20 24 2] x &&
      range_list_is_id_within [Range 8 30 3] x.
Proof.
  refine (proj2 (proj2 (set_operations_correct (H := merge_sort_by_min) None (Some (Some []))
    [Range 1 10 1; Range 20 24 2] [Range 8 30 3] eq_refl _ _)) _).
  - repeat (apply List.Forall_cons; [unfold range_ok, task_bound; simpl; lia|]). constructor.
  - repeat (apply List.Forall_cons; [unfold range_ok, task_bound; simpl; lia|]). constructor.
  - rl_ok_compute.
Defined.

(** On a well-formed list [range_list_compress] keeps the set of ids, keeps the
    list well formed and never makes it longer. *)
Theorem compress_keeps_ids (l : list range) :
  rl_ok id_bound l ->
  rl_ok id_bound (range_list_compress l) /\
  (length (range_list_compress l) <= length l)%nat /\
  forall x, range_list_is_id_within (range_list_compress l) x = range_list_is_id_within l x.
Proof.
  intros Hl. destruct (compress_spec id_bound id_bound_ok l Hl) as [H1 H2].
  split; [done|]. split.
  - destruct l as [|r l]; [done|]. apply compress_from_length.
  - intros x. apply (within_eq id_bound); eauto. rewrite H2, (within_in id_bound) by eauto. done.
Qed.

Lemma compress_keeps_ids_witness :
  let l := [Range 1 3 1; Range 4 4 1; Range 6 6 1] in
  rl_ok id_bound l /\ (length (range_list_compress l) <= length l)%nat.
Proof.
  split; [rl_ok_compute|]. apply (compress_keeps_ids [Range 1 3 1; Range 4 4 1; Range 6 6 1]).
  rl_ok_compute.
Defined.

(** The id loop over a list terminates and lists exactly the members; on a
    well-formed list in strictly ascending order, as many of them as
    [range_list_get_number_of_ids] says as long as their number fits [uint32_t]. *)
Theorem id_loop_enumerates (l : list range) :
  rl_ok task_bound l ->
  exists ids, range_list_ids l = Some ids /\ StronglySorted Z.lt ids /\
    (forall x, x ∈ ids <-> range_list_is_id_within l x = true) /\
    range_list_get_number_of_ids l = u32 (length ids).
Proof.
  intros Hl. pose proof (rl_ok_ranges _ _ Hl) as Hr.
  destruct (list_ids_spec task_bound task_bound_ok l Hr) as (ids & -> & Hin & _ & Hs & Hc).
  exists ids. split; [done|]. split; [auto|]. split.
  - intros x. rewrite Hin, (within_in task_bound) by eauto. done.
  - rewrite <- Hc. apply number_of_ids_sum.
Qed.

Lemma id_loop_enumerates_witness :
  let l := [Range 1 9 4; Range 20 20 1] in
  rl_ok task_bound l /\
  exists ids, range_list_ids l = Some ids /\ StronglySorted Z.lt ids /\
    (forall x, x ∈ ids <-> range_list_is_id_within l x = true) /\
    range_list_get_number_of_ids l = u32 (length ids).
Proof.
  split; [rl_ok_compute|]. apply (id_loop_enumerates [Range 1 9 4; Range 20 20 1]).
  rl_ok_compute.
Defined.

(** [range_list_move_first_n_ids] when the first range has at least [n] ids: it
    moves the first [n] ids of that range, and then every id of every later range;
    the ids that stay are the other ones. *)
Theorem move_first_n_ids_effect `{SortByMin} (r : range) (l : list range) (ids : list Z)
    (n : Z) :
  rl_ok task_bound (r :: l) -> range_ids r = Some ids -> 1 <= n <= length ids ->
  fold_right (fun r n => range_get_number_of_ids r + n) 0 l < id_bound ->
  exists kept moved,
    range_list_move_first_n_ids (Some (r :: l)) None n = Some (kept, Some moved) /\
    rl_ok task_bound (default [] kept) /\ rl_ok task_bound moved /\
    forall x,
      range_list_is_id_within moved x =
        bool_decide (x ∈ take (Z.to_nat n) ids) || range_list_is_id_within l x /\
      range_list_is_id_within (default [] kept) x =
        range_list_is_id_within (r :: l) x && negb (range_list_is_id_within moved x).
Proof.
  intros Hl Hids Hn Hc.
  destruct (move_first_spec task_bound task_bound_ok r l ids n Hl Hids Hn Hc)
    as (kept & moved & -> & Hk & Hm & Hxm & Hxk).
  pose proof Hl as Hl'. apply rl_ok_cons in Hl' as (_ & Hl' & _).
  exists kept, moved. do 3 (split; [done|]). intros x. split.
  - apply (within_eq task_bound); eauto. rewrite Hxm, orb_true_iff, bool_decide_eq_true.
    rewrite (within_in task_bound) by eauto. done.
  - apply (within_eq task_bound); eauto. rewrite Hxk, andb_true_iff, negb_true_iff.
    rewrite <- not_true_iff_false, !(within_in task_bound), Hxm by eauto. done.
Qed.

Lemma move_first_n_ids_effect_witness :
  exists kept moved,
    range_list_move_first_n_ids (Sorting := merge_sort_by_min)
      (Some [Range 1 4 1; Range 10 12 1]) None 2 = Some (kept, Some moved) /\
    rl_ok task_bound (default [] kept) /\ rl_ok task_bound moved /\
    forall x,
      range_list_is_id_within moved x =
        bool_decide (x ∈ take (Z.to_nat 2) [1; 2; 3; 4]) ||
        range_list_is_id_within [Range 10 12 1] x /\
      range_list_is_id_within (default [] kept) x =
        range_list_is_id_within [Range 1 4 1; Range 10 12 1] x &&
        negb (range_list_is_id_within moved x).
Proof.
  apply (move_first_n_ids_effect (H := merge_sort_by_min) (Range 1 4 1) [Range 10 12 1]).
  - rl_ok_compute.
  - reflexivity.
  - simpl. lia.
  - reflexivity.
Defined.

(** The id loop over a range that ends at 2^32-1 never ends: [start] wraps to 0. *)
Example id_loop_diverges : range_ids (Range 4294967293 4294967295 1) = None.
Proof. reflexivity. Qed.

(** Asked for the first two of the ids 1-4 and 10-12, the function moves 1-2 and
    10-12. *)
Example move_first_n_ids_too_many :
  range_list_move_first_n_ids (Sorting := merge_sort_by_min)
    (Some [Range 1 4 1; Range 10 12 1]) None 2 =
  Some (Some [Range 3 4 1], Some [Range 1 2 1; Range 10 12 1]).
Proof. reflexivity. Qed.

End RangeProps.
