(* ===== verification/Job.v ===== *)
(** Array jobs ([sge_job.cc], [sge_object.cc]): the task ids of a job, their holds,
    and the array tasks ("ja tasks") enrolled for them.

    A job keeps the ids of its pending tasks in five range lists: those without a
    hold and, per kind of hold, those with it.  A task that starts to run is
    enrolled: its id leaves the lists and an element appears in [JB_ja_tasks]. *)

From S2P Require Import Prelude Answer Range.
Import Answer Ranges.

Module Job.

(** ** Data *)

Definition MINUS_H_TGT_USER : Z := 1.
Definition MINUS_H_TGT_OPERATOR : Z := 2.
Definition MINUS_H_TGT_SYSTEM : Z := 4.
Definition MINUS_H_TGT_JA_AD : Z := 8.
Definition MINUS_H_TGT_ALL : Z := 15.

Definition JIDLE : Z := 0x0.
Definition JHELD : Z := 0x10.
Definition JMIGRATING : Z := 0x20.
Definition JQUEUED : Z := 0x40.
Definition JRUNNING : Z := 0x80.
Definition JSUSPENDED : Z := 0x100.
Definition JTRANSFERING : Z := 0x200.
Definition JDELETED : Z := 0x400.
Definition JWAITING : Z := 0x800.
Definition JEXITING : Z := 0x1000.
Definition JSUSPENDED_ON_SUBORDINATE : Z := 0x2000.
Definition JSUSPENDED_ON_SLOTWISE_SUBORDINATE : Z := 0x4000.
Definition JERROR : Z := 0x8000.
Definition JSUSPENDED_ON_THRESHOLD : Z := 0x10000.
Definition JFINISHED : Z := 0x10000.
Definition JFINISHED_DISPLAY : Z := 0x40000.

(** [JAT_Type], as far as [sge_job.cc] reads and writes it here. *)
Record ja_task := JaTask {
  JAT_task_number : Z;
  JAT_status : Z;
  JAT_state : Z;
  JAT_hold : Z;
  JAT_job_restarted : Z;
}.

(** The five attributes that hold task ids. *)
Inductive id_attr := JB_ja_n_h_ids | JB_ja_u_h_ids | JB_ja_o_h_ids | JB_ja_s_h_ids | JB_ja_a_h_ids.

#[export] Instance id_attr_eq_dec : EqDecision id_attr.
Proof. solve_decision. Defined.

(** [JB_Type]: [JB_ja_tasks] is a list of elements (an absent list is empty), the id
    attributes keep the difference between an absent and an empty list. *)
Record job := Job {
  JB_ja_structure : option (list range);
  JB_ids : id_attr -> option (list range);
  JB_ja_tasks : list ja_task;
  JB_ja_template : option ja_task;
}.

(** [lSetList] / [lXchgList] on one of the id attributes. *)
Definition set_ids (j : job) (a : id_attr) (l : option (list range)) : job :=
  Job (JB_ja_structure j) (fun b => if decide (b = a) then l else JB_ids j b)
    (JB_ja_tasks j) (JB_ja_template j).

Definition with_tasks (j : job) (ts : list ja_task) : job :=
  Job (JB_ja_structure j) (JB_ids j) ts (JB_ja_template j).

Definition with_template (j : job) (t : option ja_task) : job :=
  Job (JB_ja_structure j) (JB_ids j) (JB_ja_tasks j) t.

(** [lGetList] as the range functions that only read take it. *)
Definition ids_of (j : job) (a : id_attr) : list range := default [] (JB_ids j a).

Definition hold_attrs : list (id_attr * Z) :=
  [(JB_ja_u_h_ids, MINUS_H_TGT_USER); (JB_ja_o_h_ids, MINUS_H_TGT_OPERATOR);
   (JB_ja_s_h_ids, MINUS_H_TGT_SYSTEM); (JB_ja_a_h_ids, MINUS_H_TGT_JA_AD)].

Definition all_attrs : list id_attr :=
  [JB_ja_n_h_ids; JB_ja_u_h_ids; JB_ja_o_h_ids; JB_ja_s_h_ids; JB_ja_a_h_ids].

(** ** Templates of unenrolled tasks

    The template element of the job itself is overwritten: the functions return the
    changed job and the task. *)

Definition job_get_ja_task_template_pending (j : job) (id : Z) : job * option ja_task :=
  match JB_ja_template j with
  | None => (j, None)
  | Some t =>
      let t' := JaTask id (JAT_status t) (Z.lor JQUEUED JWAITING) (JAT_hold t)
                  (JAT_job_restarted t) in
      (with_template j (Some t'), Some t')
  end.

Definition job_get_ja_task_template_hold (j : job) (id hold_state : Z) :
    job * option ja_task :=
  match job_get_ja_task_template_pending j id with
  | (j', None) => (j', None)
  | (j', Some t) =>
      let state := Z.lor JQUEUED JWAITING in
      let state := if hold_state =? 0 then state else Z.lor state JHELD in
      let t' := JaTask id JIDLE state hold_state (JAT_job_restarted t) in
      (with_template j' (Some t'), Some t')
  end.

Definition job_accumulate_hold_flags (j : job) (id : Z) : Z :=
  fold_left (fun ret '(a, flag) =>
               if range_list_is_id_within (ids_of j a) id then Z.lor ret flag else ret)
    hold_attrs 0.

Definition job_get_ja_task_hold_state : job -> Z -> Z := job_accumulate_hold_flags.

Definition job_get_ja_task_template (j : job) (id : Z) : job * option ja_task :=
  job_get_ja_task_template_hold j id (job_get_ja_task_hold_state j id).

(** ** Membership and counts *)

Definition job_is_enrolled (j : job) (id : Z) : bool :=
  negb (existsb (fun a => range_list_is_id_within (ids_of j a) id) all_attrs).

Definition job_is_ja_task_defined (j : job) (id : Z) : bool :=
  range_list_is_id_within (default [] (JB_ja_structure j)) id.

Definition job_search_task (j : job) (id : Z) : option ja_task :=
  find (fun t => JAT_task_number t =? id) (JB_ja_tasks j).

Definition job_get_enrolled_ja_tasks (j : job) : Z := length (JB_ja_tasks j).

Definition job_get_submit_task_ids (j : job) : Z * Z * Z :=
  match default [] (JB_ja_structure j) with
  | r :: _ => (rn_min r, rn_max r, if rn_step r =? 0 then 1 else rn_step r)
  | [] => (1, 1, 1)
  end.

Definition job_get_submit_ja_tasks (j : job) : Z :=
  let '(start, end_, step) := job_get_submit_task_ids j in
  u32 (u32 (end_ - start) / step + 1).

Definition job_is_rescheduled (t : ja_task) : bool :=
  (JAT_status t =? JIDLE) && negb (Z.land (JAT_state t) JQUEUED =? 0) &&
  negb (Z.land (JAT_state t) JWAITING =? 0).

(** Without [count_all] the loop stops at the first hit. *)
Definition job_count_rescheduled_ja_tasks (j : job) (count_all : bool) : Z :=
  let n := length (List.filter job_is_rescheduled (JB_ja_tasks j)) in
  if count_all then n else Z.min 1 n.

Definition job_count_pending_tasks (j : job) (count_all : bool) : Z :=
  if count_all then
    u32 (range_list_get_number_of_ids (ids_of j JB_ja_n_h_ids) +
         job_count_rescheduled_ja_tasks j true)
  else if match JB_ids j JB_ja_n_h_ids with Some _ => true | None => false end ||
          negb (job_count_rescheduled_ja_tasks j false =? 0)
  then 1 else 0.

Definition extreme (find_min : bool) (a b : Z) : Z :=
  if find_min then Z.min a b else Z.max a b.

Definition job_get_extreme_unenrolled_task_id (j : job) (find_min : bool) : Z :=
  let id a :=
    (if find_min then range_list_get_first_id (ids_of j a) None
     else range_list_get_last_id (ids_of j a) None).1 in
  let pick ret a :=
    if (0 <? ret) && (0 <? id a) then extreme find_min ret (id a)
    else if 0 <? id a then id a else ret in
  let ret := fold_left pick [JB_ja_u_h_ids; JB_ja_o_h_ids; JB_ja_s_h_ids] (id JB_ja_n_h_ids) in
  if (ret =? 0) && (0 <? id JB_ja_a_h_ids) then extreme find_min ret (id JB_ja_a_h_ids)
  else if 0 <? id JB_ja_a_h_ids then id JB_ja_a_h_ids else ret.

Definition job_get_smallest_unenrolled_task_id (j : job) : Z :=
  job_get_extreme_unenrolled_task_id j true.

Definition job_get_biggest_unenrolled_task_id (j : job) : Z :=
  job_get_extreme_unenrolled_task_id j false.

Definition job_get_smallest_enrolled_task_id (j : job) : Z :=
  match JB_ja_tasks j with
  | [] => 0
  | t :: ts => fold_left (fun ret t => Z.min ret (JAT_task_number t)) ts (JAT_task_number t)
  end.

Definition job_get_biggest_enrolled_task_id (j : job) : Z :=
  match rev (JB_ja_tasks j) with
  | [] => 0
  | t :: ts => fold_left (fun ret t => Z.max ret (JAT_task_number t)) ts (JAT_task_number t)
  end.

(** ** Enrolling and holds *)

Definition object_delete_range_id (j : job) (a : id_attr) (id : Z) : job :=
  set_ids j a (range_list_compress <$> range_list_remove_id (JB_ids j a) id).

(** The task element that now exists for [id] is returned. *)
Definition job_enroll (j : job) (id : Z) : job * option ja_task :=
  let j := object_delete_range_id j JB_ja_n_h_ids id in
  match job_search_task j id with
  | Some t => (j, Some t)
  | None =>
      match job_get_ja_task_template_pending j id with
      | (j', Some t) => (with_tasks j' (JB_ja_tasks j' ++ [t]), Some t)
      | (j', None) => (j', None)
      end
  end.

Definition job_create_task (j : job) (id : Z) : job * option ja_task :=
  if job_is_ja_task_defined j id then job_enroll j id else (j, None).

Definition job_delete_not_enrolled_ja_task (j : job) (id : Z) : job :=
  fold_left (fun j a => object_delete_range_id j a id) all_attrs j.

(** The first task with the number [id] is changed in place. *)
Fixpoint update_task (f : ja_task -> ja_task) (id : Z) (ts : list ja_task) : list ja_task :=
  match ts with
  | [] => []
  | t :: ts => if JAT_task_number t =? id then f t :: ts else t :: update_task f id ts
  end.

(** [x & ~flag] for a [uint32_t] [x]. *)
Definition clear_bits (x flag : Z) : Z := Z.ldiff x flag.

Definition set_task_hold (hold : Z) (t : ja_task) : ja_task :=
  JaTask (JAT_task_number t) (JAT_status t)
    (if hold =? 0 then clear_bits (JAT_state t) JHELD else Z.lor (JAT_state t) JHELD)
    hold (JAT_job_restarted t).

(** ** Sorting out which task has which hold

    [hold_state] of [job_create_hold_id_lists]. *)
Definition hold_states : list Z :=
  let u := MINUS_H_TGT_USER in let o := MINUS_H_TGT_OPERATOR in
  let s := MINUS_H_TGT_SYSTEM in let a := MINUS_H_TGT_JA_AD in
  [0; u; o; s; a; Z.lor u o; Z.lor u s; Z.lor u a; Z.lor o s; Z.lor o a; Z.lor s a;
   Z.lor (Z.lor u o) s; Z.lor (Z.lor u o) a; Z.lor (Z.lor u s) a; Z.lor (Z.lor o s) a;
   Z.lor (Z.lor (Z.lor u o) s) a].

Section WithSort.
Context `{Sorting : SortByMin}.

(** The calls of the code pass no answer list and a null result list. *)
Definition inter (l1 l2 : option (list range)) : option (option (list range)) :=
  fst <$> range_list_calculate_intersection_set None l1 l2.

Definition diff (l1 l2 : option (list range)) : option (option (list range)) :=
  fst <$> range_list_calculate_difference_set None None l1 l2.

Definition job_create_hold_id_lists (j : job) : option (list (option (list range)) * list Z) :=
  let u := JB_ids j JB_ja_u_h_ids in
  let o := JB_ids j JB_ja_o_h_ids in
  let s := JB_ids j JB_ja_s_h_ids in
  let a := JB_ids j JB_ja_a_h_ids in
  list0 ← inter u o;
  list1 ← inter u s;
  list2 ← inter u a;
  list3 ← inter o s;
  list4 ← inter o a;
  list5 ← inter s a;
  list6 ← inter list0 list3;
  list7 ← inter list0 list4;
  list8 ← inter list1 list5;
  list9 ← inter list3 list5;
  id15 ← inter list6 list7;
  id14 ← diff list9 id15;
  id13 ← diff list8 id15;
  id12 ← diff list7 id15;
  id11 ← diff list6 id15;
  list10 ← diff list5 list8;
  id10 ← diff list10 id14;
  list11 ← diff list4 list7;
  id9 ← diff list11 id14;
  list12 ← diff list3 list6;
  id8 ← diff list12 id14;
  list13 ← diff list2 list7;
  id7 ← diff list13 id13;
  list14 ← diff list1 list6;
  id6 ← diff list14 id13;
  list15 ← diff list0 list6;
  id5 ← diff list15 id12;
  list16 ← diff a list2;
  list17 ← diff list16 list11;
  id4 ← diff list17 id10;
  list18 ← diff s list1;
  list19 ← diff list18 list12;
  id3 ← diff list19 id10;
  list20 ← diff o list0;
  list21 ← diff list20 list12;
  id2 ← diff list21 id9;
  list22 ← diff u list0;
  list23 ← diff list22 list14;
  id1 ← diff list23 id7;
  let id0 := JB_ids j JB_ja_n_h_ids in
  Some ([id0; id1; id2; id3; id4; id5; id6; id7; id8; id9; id10; id11; id12; id13; id14; id15],
        hold_states).

Definition job_get_not_enrolled_ja_tasks (j : job) : option Z :=
  '(uo, al) ← range_list_calculate_union_set None (Some None)
                (JB_ids j JB_ja_u_h_ids) (JB_ids j JB_ja_o_h_ids);
  '(uos, al) ← range_list_calculate_union_set None al uo (JB_ids j JB_ja_s_h_ids);
  '(uosa, al) ← range_list_calculate_union_set None al uos (JB_ids j JB_ja_a_h_ids);
  Some (u32 (range_list_get_number_of_ids (ids_of j JB_ja_n_h_ids) +
             range_list_get_number_of_ids (default [] uosa))).

Definition job_get_ja_tasks (j : job) : option Z :=
  n ← job_get_not_enrolled_ja_tasks j;
  Some (u32 (n + u32 (job_get_enrolled_ja_tasks j))).

(** [ja_task] is a position of [JB_ja_tasks]; [None] is a null pointer. *)
Definition job_unenroll (j : job) (ja_task : option nat) : job :=
  match (i ← ja_task; t ← JB_ja_tasks j !! i; Some (i, t)) with
  | None => j
  | Some (i, t) =>
      let ids := range_list_compress
                   (range_list_insert_id (ids_of j JB_ja_n_h_ids) (JAT_task_number t)) in
      with_tasks (set_ids j JB_ja_n_h_ids (Some ids)) (delete i (JB_ja_tasks j))
  end.

(** [range_list_insert_id] creates the list it inserts into. *)
Definition insert_ids_opt (l : option (list range)) (id : Z) : option (list range) :=
  Some (range_list_insert_id (default [] l) id).

(** One round of the loop of [job_set_hold_state]: [if_function], [else_function]. *)
Definition set_hold_list (id new_hold_state : Z) (j : job) (entry : id_attr * Z) : job :=
  let '(a, mask) := entry in
  let remove := bool_decide (a = JB_ja_n_h_ids) in
  let l := if xorb (Z.land new_hold_state mask =? 0) remove
           then range_list_remove_id (JB_ids j a) id
           else insert_ids_opt (JB_ids j a) id in
  set_ids j a (range_list_compress <$> l).

Definition job_set_hold_state (j : job) (id new_hold_state : Z) : job :=
  if job_is_enrolled j id then
    with_tasks j (update_task (set_task_hold new_hold_state) id (JB_ja_tasks j))
  else
    fold_left (set_hold_list id new_hold_state)
      ((JB_ja_n_h_ids, MINUS_H_TGT_ALL) :: hold_attrs) j.

Definition job_get_hold_state (j : job) (id : Z) : Z :=
  if job_is_enrolled j id then
    match job_search_task j id with
    | Some t => Z.land (JAT_hold t) MINUS_H_TGT_ALL
    | None => 0
    end
  else job_accumulate_hold_flags j id.

End WithSort.

(** ** Initial lists *)

(** [lCopyList] of an absent list is a null pointer. *)
Definition job_initialize_id_lists (j : job) (al : answer_arg) : job * answer_arg * Z :=
  match JB_ja_structure j with
  | None => (j, (answer_list_add al "memory allocation failed job_initialize_id_lists" STATUS_EMALLOC
                   ANSWER_QUALITY_ERROR).2, -1)
  | Some l =>
      (Job (JB_ja_structure j)
         (fun a => if decide (a = JB_ja_n_h_ids) then Some l else None)
         (JB_ja_tasks j) (JB_ja_template j), al, 0)
  end.

Definition object_set_range_id (l : option (list range)) (start end_ step : Z) :
    option (list range) :=
  match l with
  | Some (_ :: rest) => Some (Range start end_ step :: rest)
  | _ => Some [Range start end_ step]
  end.

Definition job_set_submit_task_ids (j : job) (start end_ step : Z) : job :=
  Job (object_set_range_id (JB_ja_structure j) start end_ step) (JB_ids j)
    (JB_ja_tasks j) (JB_ja_template j).

Definition job_list_register_new_job (njobs max_jobs : Z) (force : bool) : Z :=
  if (0 <? max_jobs) && negb force && (max_jobs <=? njobs) then 1 else 0.

(** ** State display *)

(** [VALID(a, b)]: [(a|b)==b]; [ISSET(a, b)]: [(a&b)==b]. *)
Definition VALID (a b : Z) : bool := Z.lor a b =? b.
Definition ISSET (a b : Z) : bool := Z.land a b =? b.

Definition state_symbols (op : Z) : list (bool * string) :=
  [(VALID JDELETED op, "d"); (VALID JERROR op, "E");
   (VALID JSUSPENDED_ON_SUBORDINATE op || VALID JSUSPENDED_ON_SLOTWISE_SUBORDINATE op, "S");
   (VALID JSUSPENDED_ON_THRESHOLD op, "T"); (VALID JHELD op, "h");
   (VALID JMIGRATING op, "R"); (VALID JQUEUED op, "q"); (VALID JRUNNING op, "r");
   (VALID JSUSPENDED op, "s"); (VALID JTRANSFERING op, "t"); (VALID JWAITING op, "w");
   (VALID JEXITING op, "x"); (VALID JFINISHED_DISPLAY op, "f")]%string.

Definition job_get_state_string (op : Z) : string :=
  String.concat "" (map snd (List.filter fst (state_symbols op))).

(** [has_predecessors]: [JB_jid_predecessor_list] is present. *)
Definition jatask_combine_state_and_status_for_output (has_predecessors : bool)
    (t : ja_task) : Z :=
  let status := JAT_status t in
  let state := JAT_state t in
  let state :=
    if status =? JRUNNING then clear_bits (Z.lor state JRUNNING) JTRANSFERING
    else if status =? JTRANSFERING then clear_bits (Z.lor state JTRANSFERING) JRUNNING
    else if status =? JFINISHED then
      clear_bits (Z.lor state JFINISHED_DISPLAY) (Z.lor (Z.lor JRUNNING JTRANSFERING) JEXITING)
    else state in
  let state :=
    if ISSET state JSUSPENDED_ON_SUBORDINATE || ISSET state JSUSPENDED ||
       ISSET state JSUSPENDED_ON_SLOTWISE_SUBORDINATE
    then clear_bits state JRUNNING else state in
  let state :=
    if has_predecessors || negb (JAT_hold t =? 0) then Z.lor state JHELD else state in
  if JAT_job_restarted t =? 0 then state
  else Z.lor (clear_bits state JWAITING) JMIGRATING.

End Job.
