(* ===== verification/JobProps.v ===== *)
(** Array jobs: the invariant of the task id lists, and that holds, enrolling and
    counting do to single tasks what they promise. *)

From S2P Require Import Prelude Answer Range RangeFacts RangeSets RangeNorm RangeProps Job.
Import Answer Ranges RangeProps Job.

Module JobProps.

(** [wi j a x]: the task id [x] is in the id list [a]. *)
Definition wi (j : job) (a : id_attr) (x : Z) : bool := range_list_is_id_within (ids_of j a) x.

Definition is_task_id (x : Z) : Prop := 0 <= x < task_bound.

Definition ids_ok (l : option (list range)) : Prop := rl_ok task_bound (default [] l).

Definition lists_ok (j : job) : Prop := forall a, ids_ok (JB_ids j a).

(** The invariant: every id list is well formed; a task without hold has no hold;
    task numbers are unique; an enrolled task is in no id list. *)
Record job_ok (j : job) : Prop := {
  jo_lists : lists_ok j;
  jo_disjoint : forall x a, a <> JB_ja_n_h_ids ->
    wi j JB_ja_n_h_ids x = true -> wi j a x = false;
  jo_tasks : NoDup (map JAT_task_number (JB_ja_tasks j));
  jo_enrolled : forall t, t ∈ JB_ja_tasks j -> job_is_enrolled j (JAT_task_number t) = true;
}.

(** ** The lists as membership functions *)

Definition flags_of (u o s a : bool) : Z :=
  let ret := 0 in
  let ret := if u then Z.lor ret MINUS_H_TGT_USER else ret in
  let ret := if o then Z.lor ret MINUS_H_TGT_OPERATOR else ret in
  let ret := if s then Z.lor ret MINUS_H_TGT_SYSTEM else ret in
  if a then Z.lor ret MINUS_H_TGT_JA_AD else ret.

Lemma accumulate_flags j x :
  job_accumulate_hold_flags j x =
  flags_of (wi j JB_ja_u_h_ids x) (wi j JB_ja_o_h_ids x) (wi j JB_ja_s_h_ids x)
    (wi j JB_ja_a_h_ids x).
Proof. reflexivity. Qed.

Lemma is_enrolled_wi j x :
  job_is_enrolled j x =
  negb (wi j JB_ja_n_h_ids x || wi j JB_ja_u_h_ids x || wi j JB_ja_o_h_ids x ||
        wi j JB_ja_s_h_ids x || wi j JB_ja_a_h_ids x).
Proof.
  unfold job_is_enrolled, all_attrs; simpl. unfold wi. rewrite orb_false_r, !orb_assoc. done.
Qed.

Lemma enrolled_no_list j x : job_is_enrolled j x = true <-> forall a, wi j a x = false.
Proof.
  rewrite is_enrolled_wi, negb_true_iff, !orb_false_iff. split; [|auto].
  intros H a. destruct a; tauto.
Qed.

Lemma is_enrolled_ext j1 j2 x :
  (forall a, wi j1 a x = wi j2 a x) -> job_is_enrolled j1 x = job_is_enrolled j2 x.
Proof. intros H. by rewrite !is_enrolled_wi, !H. Qed.

Lemma flags_ext j1 j2 x :
  (forall a, wi j1 a x = wi j2 a x) ->
  job_accumulate_hold_flags j1 x = job_accumulate_hold_flags j2 x.
Proof. intros H. by rewrite !accumulate_flags, !H. Qed.

Lemma wi_set_ids j a l b x :
  wi (set_ids j a l) b x =
  if decide (b = a) then range_list_is_id_within (default [] l) x else wi j b x.
Proof. unfold wi, ids_of, set_ids; simpl. by destruct (decide (b = a)). Qed.

Lemma lists_ok_set_ids j a l : lists_ok j -> ids_ok l -> lists_ok (set_ids j a l).
Proof. intros Hj Hl b. unfold set_ids; simpl. destruct (decide (b = a)); [done|apply Hj]. Qed.

(** ** One list: removal and insertion, each followed by compression *)

Lemma remove_compress l id :
  ids_ok l ->
  ids_ok (range_list_compress <$> range_list_remove_id l id) /\
  forall x, range_list_is_id_within
              (default [] (range_list_compress <$> range_list_remove_id l id)) x =
            negb (x =? id) && range_list_is_id_within (default [] l) x.
Proof.
  intros Hl. destruct (remove_id_spec task_bound ltac:(done) l id Hl) as [H1 H2].
  assert (rl_ok task_bound (default [] (range_list_compress <$> range_list_remove_id l id)) /\
    forall x, ids_in x (default [] (range_list_compress <$> range_list_remove_id l id)) <->
              ids_in x (default [] (range_list_remove_id l id))) as [H3 H4].
  { destruct (range_list_remove_id l id); simpl; [|done]. by apply (compress_spec task_bound). }
  split; [done|]. intros x. apply (within_eq task_bound); [done|by apply rl_ok_ranges|].
  rewrite H4, H2, andb_true_iff, negb_true_iff, Z.eqb_neq.
  rewrite (within_in task_bound) by (try done; by apply rl_ok_ranges). tauto.
Qed.

Section WithSort.
Context `{Sorting : SortByMin}.

Lemma insert_compress l id :
  ids_ok l -> is_task_id id ->
  ids_ok (range_list_compress <$> insert_ids_opt l id) /\
  forall x, range_list_is_id_within
              (default [] (range_list_compress <$> insert_ids_opt l id)) x =
            (x =? id) || range_list_is_id_within (default [] l) x.
Proof.
  intros Hl Hid. unfold insert_ids_opt, ids_ok; simpl.
  destruct (insert_id_spec task_bound ltac:(done) (default [] l) id Hl Hid) as [H1 H2].
  destruct (compress_spec task_bound ltac:(done) _ H1) as [H3 H4].
  split; [done|]. intros x. apply (within_eq task_bound); [done|by apply rl_ok_ranges|].
  rewrite H4, H2, orb_true_iff, Z.eqb_eq.
  rewrite (within_in task_bound) by (try done; by apply rl_ok_ranges). done.
Qed.

(** ** Setting holds *)

(** Whether [id] ends up in the list [a]. *)
Definition new_bit (h : Z) (entry : id_attr * Z) : bool :=
  xorb (negb (Z.land h entry.2 =? 0)) (bool_decide (entry.1 = JB_ja_n_h_ids)).

Lemma set_hold_list_spec id h j entry :
  lists_ok j -> is_task_id id ->
  lists_ok (set_hold_list id h j entry) /\
  forall b x, wi (set_hold_list id h j entry) b x =
    if decide (b = entry.1) then if x =? id then new_bit h entry else wi j b x
    else wi j b x.
Proof.
  intros Hj Hid. destruct entry as [a m]. unfold set_hold_list, new_bit; simpl.
  destruct (remove_compress (JB_ids j a) id (Hj a)) as [R1 R2].
  destruct (insert_compress (JB_ids j a) id (Hj a) Hid) as [I1 I2].
  destruct (Z.land h m =? 0), (bool_decide (a = JB_ja_n_h_ids)); simpl xorb; cbv iota;
    (split; [by apply lists_ok_set_ids|]); intros b x; rewrite wi_set_ids;
    (destruct (decide (b = a)) as [->|]; [|done]); rewrite ?R2, ?I2;
    unfold wi, ids_of; destruct (x =? id); done.
Qed.

Lemma set_hold_lists_spec id h entries j :
  lists_ok j -> is_task_id id ->
  let j' := fold_left (set_hold_list id h) entries j in
  lists_ok j' /\ JB_ja_tasks j' = JB_ja_tasks j /\
  forall b x, wi j' b x =
    if x =? id
    then fold_left (fun acc e => if decide (b = e.1) then new_bit h e else acc) entries (wi j b x)
    else wi j b x.
Proof.
  intros Hj Hid. revert j Hj. induction entries as [|e entries IH]; intros j Hj; simpl.
  { split; [done|]. split; [done|]. intros b x. by destruct (x =? id). }
  destruct (set_hold_list_spec id h j e Hj Hid) as [H1 H2].
  destruct (IH _ H1) as (H3 & H4 & H5). split; [done|]. split.
  - rewrite H4. by destruct e.
  - intros b x. rewrite H5, H2. destruct (x =? id); [done|]. by destruct (decide (b = e.1)).
Qed.

Lemma update_task_numbers f id ts :
  (forall t, JAT_task_number (f t) = JAT_task_number t) ->
  map JAT_task_number (update_task f id ts) = map JAT_task_number ts.
Proof.
  intros Hf. induction ts as [|t ts IH]; simpl; [done|].
  destruct (JAT_task_number t =? id); simpl; congruence.
Qed.

Lemma find_update_task f id ts x :
  (forall t, JAT_task_number (f t) = JAT_task_number t) ->
  find (fun t => JAT_task_number t =? x) (update_task f id ts) =
  if x =? id then f <$> find (fun t => JAT_task_number t =? x) ts
  else find (fun t => JAT_task_number t =? x) ts.
Proof.
  intros Hf. destruct (x =? id) eqn:Ex.
  - apply Z.eqb_eq in Ex as ->. induction ts as [|t ts IH]; simpl; [done|].
    destruct (JAT_task_number t =? id) eqn:E; simpl; [by rewrite Hf, E|by rewrite E].
  - induction ts as [|t ts IH]; simpl; [done|].
    destruct (JAT_task_number t =? id) eqn:E; simpl.
    + rewrite Hf. rewrite (proj2 (Z.eqb_neq _ x)) by lia. done.
    + by rewrite IH.
Qed.

(** [h & 15] bit by bit. *)
Lemma land_all h :
  Z.land h MINUS_H_TGT_ALL =
  flags_of (negb (Z.land h 1 =? 0)) (negb (Z.land h 2 =? 0)) (negb (Z.land h 4 =? 0))
    (negb (Z.land h 8 =? 0)) /\
  (Z.land h MINUS_H_TGT_ALL =? 0) =
  (Z.land h 1 =? 0) && (Z.land h 2 =? 0) && (Z.land h 4 =? 0) && (Z.land h 8 =? 0).
Proof.
  assert (0 <= Z.land h 15 < 16) as Hm.
  { change 15 with (Z.ones 4). rewrite Z.land_ones by lia. apply Z.mod_pos_bound. lia. }
  assert (forall m, Z.land 15 m = m -> Z.land h m = Z.land (Z.land h 15) m) as Hl.
  { intros m Hm0. rewrite <- Hm0 at 1. by rewrite Z.land_assoc. }
  rewrite (Hl 1), (Hl 2), (Hl 4), (Hl 8) by reflexivity. unfold MINUS_H_TGT_ALL.
  revert Hm. generalize (Z.land h 15). intros m Hm.
  assert (m ∈ seqZ 0 16) as Hin by (apply elem_of_seqZ; lia). clear Hm Hl.
  vm_compute in Hin. repeat (apply elem_of_cons in Hin as [->|Hin]; [by split|]).
  by apply not_elem_of_nil in Hin.
Qed.

(** ** The properties *)

(** A small job: tasks 1-10, 3 and 4 held by the user, 7 by user and system, 9
    enrolled. *)
Definition sample_job : job :=
  Job (Some [Range 1 10 1])
    (fun a => match a with
              | JB_ja_n_h_ids => Some [Range 1 2 1; Range 5 6 1; Range 8 10 2]
              | JB_ja_u_h_ids => Some [Range 3 4 1; Range 7 7 1]
              | JB_ja_s_h_ids => Some [Range 7 7 1]
              | _ => None
              end)
    [JaTask 9 JIDLE (Z.lor JQUEUED JWAITING) 0 0]
    (Some (JaTask 0 JIDLE 0 0 0)).

End WithSort.

Lemma within_bounds l x :
  rl_ok task_bound l -> range_list_is_id_within l x = true -> is_task_id x.
Proof.
  intros Hl Hx. apply (within_in task_bound) in Hx; [|done|by apply rl_ok_ranges].
  by apply (ids_range task_bound x l); [apply rl_ok_ranges|].
Qed.

Lemma sample_job_ok : job_ok sample_job.
Proof.
  split.
  - intros a. destruct a; unfold ids_ok; simpl; first [apply rl_ok_nil | rl_ok_compute].
  - intros x a Ha Hn. apply not_true_is_false. intros Hx.
    assert (is_task_id x) as Hb by (eapply within_bounds; [|exact Hn]; rl_ok_compute).
    assert (1 <= x <= 10) as Hr.
    { revert Hn. unfold wi, ids_of, range_list_is_id_within, range_is_id_within; simpl. lia. }
    assert (x ∈ seqZ 1 10) as Hin by (apply elem_of_seqZ; lia). clear Hb Hr.
    vm_compute in Hin.
    repeat (apply elem_of_cons in Hin as [->|Hin]; [by destruct a|]).
    by apply not_elem_of_nil in Hin.
  - simpl. apply NoDup_singleton.
  - intros t Ht. apply list_elem_of_singleton in Ht as ->. reflexivity.
Qed.

Section Props.
Context `{Sorting : SortByMin}.

(** [j'] differs from [j] in the hold of [id], which is now [h]. *)
Record hold_set (j j' : job) (id h : Z) : Prop := {
  hs_ok : job_ok j';
  hs_hold : job_get_hold_state j' id = Z.land h MINUS_H_TGT_ALL;
  hs_others : forall x, x <> id -> job_get_hold_state j' x = job_get_hold_state j x;
  hs_enrolled : forall x, job_is_enrolled j' x = job_is_enrolled j x;
}.

Lemma set_hold_enrolled j id h t :
  job_ok j -> job_is_enrolled j id = true -> job_search_task j id = Some t ->
  hold_set j (with_tasks j (update_task (set_task_hold h) id (JB_ja_tasks j))) id h.
Proof.
  intros [Hl Hd Ht He] E Hs.
  set (j' := with_tasks j _).
  assert (forall x, job_is_enrolled j' x = job_is_enrolled j x) as Hen by done.
  assert (forall x, job_search_task j' x =
    if x =? id then set_task_hold h <$> job_search_task j x else job_search_task j x) as Hse.
  { intros x. by apply find_update_task. }
  split; [split; auto| | |]; auto.
  - by unfold j'; cbn [JB_ja_tasks with_tasks]; rewrite update_task_numbers.
  - intros t1 Hin. rewrite Hen.
    assert (JAT_task_number t1 ∈ map JAT_task_number (JB_ja_tasks j)) as Hin'.
    { rewrite <- (update_task_numbers (set_task_hold h) id) by done.
      by apply (list_elem_of_fmap_2 JAT_task_number). }
    apply list_elem_of_fmap in Hin' as (t0 & -> & Hin0). by apply He.
  - unfold job_get_hold_state. rewrite Hen, E, Hse, Z.eqb_refl.
    by rewrite Hs.
  - intros x Hx. unfold job_get_hold_state. rewrite Hen, Hse.
    by rewrite (proj2 (Z.eqb_neq x id) Hx).
Qed.

Lemma set_hold_pending j id h :
  job_ok j -> is_task_id id -> job_is_enrolled j id = false ->
  hold_set j (fold_left (set_hold_list id h)
                ((JB_ja_n_h_ids, MINUS_H_TGT_ALL) :: hold_attrs) j) id h.
Proof.
  intros [Hl Hd Ht He] Hid E. destruct (land_all h) as [Hflags Hzero].
  destruct (set_hold_lists_spec id h ((JB_ja_n_h_ids, MINUS_H_TGT_ALL) :: hold_attrs) j Hl Hid)
    as (H1 & H2 & H3).
  set (j' := fold_left _ _ _) in *.
  assert (forall b x, x <> id -> wi j' b x = wi j b x) as Hother.
  { intros b x Hx. by rewrite H3, (proj2 (Z.eqb_neq x id) Hx). }
  assert (forall b, wi j' b id =
    match b with
    | JB_ja_n_h_ids => Z.land h MINUS_H_TGT_ALL =? 0
    | JB_ja_u_h_ids => negb (Z.land h 1 =? 0)
    | JB_ja_o_h_ids => negb (Z.land h 2 =? 0)
    | JB_ja_s_h_ids => negb (Z.land h 4 =? 0)
    | JB_ja_a_h_ids => negb (Z.land h 8 =? 0)
    end) as Hself.
  { intros b. rewrite H3, Z.eqb_refl. destruct b; unfold new_bit, hold_attrs; simpl;
      rewrite ?xorb_true_r, ?negb_involutive, ?xorb_false_r; done. }
  assert (job_is_enrolled j' id = false) as E'.
  { rewrite is_enrolled_wi, !Hself, Hzero. by destruct (Z.land h 1 =? 0),
      (Z.land h 2 =? 0), (Z.land h 4 =? 0), (Z.land h 8 =? 0). }
  assert (forall x, job_is_enrolled j' x = job_is_enrolled j x) as Hen.
  { intros x. destruct (decide (x = id)) as [->|Hx]; [congruence|].
    apply is_enrolled_ext. auto. }
  split; [split; auto| | |]; auto.
  - intros x a Ha Hn. destruct (decide (x = id)) as [->|Hx].
    + rewrite Hself, Hzero in Hn. rewrite Hself. rewrite !andb_true_iff in Hn.
      destruct Hn as [[[-> ->] ->] ->]. by destruct a.
    + rewrite Hother in * by done. by apply Hd.
  - intros t Hin. rewrite Hen. apply He. by rewrite <- H2.
  - unfold job_get_hold_state. rewrite E', accumulate_flags, !Hself. by rewrite Hflags.
  - intros x Hx. unfold job_get_hold_state, job_search_task. rewrite Hen, H2.
    destruct (job_is_enrolled j x); [done|]. apply flags_ext. auto.
Qed.

(** C1: [job_set_hold_state] on any task of the job, enrolled or not: afterwards
    [job_get_hold_state] returns the requested hold (cut to the four hold bits), no
    other task's hold changes, no task changes sides between enrolled and not
    enrolled, and the invariant of the id lists is kept. *)
Theorem set_hold_state_correct (j : job) (id h : Z) :
  job_ok j -> is_task_id id ->
  (job_is_enrolled j id = true -> exists t, job_search_task j id = Some t) ->
  let j' := job_set_hold_state j id h in
  job_ok j' /\ job_get_hold_state j' id = Z.land h MINUS_H_TGT_ALL /\
  (forall x, x <> id -> job_get_hold_state j' x = job_get_hold_state j x) /\
  (forall x, job_is_enrolled j' x = job_is_enrolled j x).
Proof.
  intros Hj Hid Hs j'. assert (hold_set j j' id h) as []; [|done].
  unfold j', job_set_hold_state. destruct (job_is_enrolled j id) eqn:E.
  - destruct (Hs eq_refl) as (t & Ht). by apply (set_hold_enrolled j id h t).
  - by apply set_hold_pending.
Qed.

End Props.

Lemma set_hold_state_correct_witness :
  let j' := job_set_hold_state (Sorting := merge_sort_by_min) sample_job 5 6 in
  job_ok j' /\ job_get_hold_state j' 5 = 6.
Proof.
  destruct (set_hold_state_correct (Sorting := merge_sort_by_min) sample_job 5 6)
    as (H1 & H2 & _).
  - apply sample_job_ok.
  - unfold is_task_id, task_bound. lia.
  - vm_compute. discriminate.
  - split; [exact H1|exact H2].
Defined.

(** ** Enrolling *)

Lemma search_task_none j id :
  job_is_enrolled j id = false ->
  (forall t, t ∈ JB_ja_tasks j -> job_is_enrolled j (JAT_task_number t) = true) ->
  job_search_task j id = None.
Proof.
  intros Hn He. unfold job_search_task. destruct (find _ _) as [t|] eqn:E; [|done].
  apply find_some in E as [Ht ->%Z.eqb_eq%eq_sym]. apply list_elem_of_In, He in Ht. congruence.
Qed.

(** What [job_enroll] makes of a pending task without hold. *)
Lemma enroll_spec j id t :
  job_ok j -> job_get_hold_state j id = 0 -> job_is_enrolled j id = false ->
  JB_ja_template j = Some t ->
  let new := JaTask id (JAT_status t) (Z.lor JQUEUED JWAITING) (JAT_hold t)
               (JAT_job_restarted t) in
  (job_enroll j id).2 = Some new /\
  JB_ja_tasks (job_enroll j id).1 = JB_ja_tasks j ++ [new] /\
  wi j JB_ja_n_h_ids id = true /\
  lists_ok (job_enroll j id).1 /\
  forall a x, wi (job_enroll j id).1 a x =
              (if decide (a = JB_ja_n_h_ids) then negb (x =? id) else true) && wi j a x.
Proof.
  intros [Hl Hd Ht He] Hh Hn Htmp. cbv zeta.
  assert (wi j JB_ja_n_h_ids id = true) as Hin.
  { unfold job_get_hold_state in Hh. rewrite Hn, accumulate_flags in Hh.
    rewrite is_enrolled_wi in Hn. revert Hh Hn.
    destruct (wi j JB_ja_n_h_ids id), (wi j JB_ja_u_h_ids id), (wi j JB_ja_o_h_ids id),
      (wi j JB_ja_s_h_ids id), (wi j JB_ja_a_h_ids id); done. }
  unfold job_enroll. set (j1 := object_delete_range_id j JB_ja_n_h_ids id).
  assert (job_search_task j1 id = None) as ->.
  { change (job_search_task j id = None). by apply search_task_none. }
  unfold job_get_ja_task_template_pending. change (JB_ja_template j1) with (JB_ja_template j).
  rewrite Htmp. cbn [fst snd with_tasks with_template JB_ja_tasks]. do 3 (split; [done|]).
  destruct (remove_compress (JB_ids j JB_ja_n_h_ids) id (Hl _)) as [R1 R2]. split.
  - by apply (lists_ok_set_ids j JB_ja_n_h_ids).
  - intros a x. change (wi j1 a x =
      (if decide (a = JB_ja_n_h_ids) then negb (x =? id) else true) && wi j a x).
    unfold j1, object_delete_range_id. rewrite wi_set_ids.
    destruct (decide (a = JB_ja_n_h_ids)) as [->|]; [|done]. by rewrite R2.
Qed.

Lemma find_app_new ts (new : ja_task) x :
  ~ JAT_task_number new ∈ map JAT_task_number ts ->
  find (fun t => JAT_task_number t =? x) (ts ++ [new]) =
  if x =? JAT_task_number new then Some new else find (fun t => JAT_task_number t =? x) ts.
Proof.
  induction ts as [|t ts IH]; simpl; intros Hn.
  - rewrite Z.eqb_sym. by destruct (x =? JAT_task_number new).
  - apply not_elem_of_cons in Hn as [Hne Hn]. rewrite IH by done.
    destruct (JAT_task_number t =? x) eqn:E; [|done].
    rewrite (proj2 (Z.eqb_neq x _)) by lia. done.
Qed.

(** [job_enroll] of a pending task without hold moves exactly that task from the
    id lists to the enrolled tasks, queued and waiting, and keeps the invariant. *)
Theorem enroll_correct (j : job) (id : Z) (t : ja_task) :
  job_ok j -> job_get_hold_state j id = 0 -> job_is_enrolled j id = false ->
  JB_ja_template j = Some t ->
  let j' := (job_enroll j id).1 in
  job_ok j' /\ job_is_enrolled j' id = true /\
  (job_enroll j id).2 = job_search_task j' id /\
  (exists t', job_search_task j' id = Some t' /\ JAT_state t' = Z.lor JQUEUED JWAITING) /\
  forall x, x <> id -> job_is_enrolled j' x = job_is_enrolled j x /\
                       job_search_task j' x = job_search_task j x.
Proof.
  intros Hj Hh Hn Htmp j'. pose proof Hj as [Hl Hd Ht He].
  destruct (enroll_spec j id t Hj Hh Hn Htmp) as (Hret & Hts & Hin & Hl' & Hwi).
  fold j' in Hret, Hts, Hl', Hwi.
  set (new := JaTask id _ _ _ _) in *.
  assert (~ id ∈ map JAT_task_number (JB_ja_tasks j)) as Hfresh.
  { intros (t0 & -> & Ht0)%list_elem_of_fmap. apply He in Ht0. congruence. }
  assert (forall x, job_search_task j' x = if x =? id then Some new else job_search_task j x)
    as Hse.
  { intros x. unfold job_search_task. rewrite Hts. by apply find_app_new. }
  assert (forall x, x <> id -> job_is_enrolled j' x = job_is_enrolled j x) as Hen.
  { intros x Hx. apply is_enrolled_ext. intros a. rewrite Hwi, (proj2 (Z.eqb_neq x id) Hx).
    by destruct (decide _). }
  assert (job_is_enrolled j' id = true) as Heid.
  { apply enrolled_no_list. intros a. rewrite Hwi, Z.eqb_refl.
    destruct (decide (a = JB_ja_n_h_ids)); [done|]. simpl. by apply Hd. }
  split; [split|split; [|split; [|split]]].
  - done.
  - intros x a Ha. rewrite !Hwi, decide_True by done. rewrite decide_False by done. simpl.
    intros [_ Hx]%andb_true_iff. by apply Hd.
  - rewrite Hts, map_app. apply NoDup_app. split; [done|]. split; [|apply NoDup_singleton].
    intros x Hx Hx'. apply list_elem_of_singleton in Hx' as ->. done.
  - intros t0. rewrite Hts, elem_of_app, list_elem_of_singleton. intros [Hin0| ->]; [|done].
    rewrite Hen; [by apply He|]. intros <-. apply Hfresh. by apply (list_elem_of_fmap_2 JAT_task_number).
  - done.
  - by rewrite Hse, Z.eqb_refl.
  - exists new. by rewrite Hse, Z.eqb_refl.
  - intros x Hx. rewrite Hse, (proj2 (Z.eqb_neq x id) Hx). auto.
Qed.

Lemma enroll_correct_witness :
  let j' := (job_enroll sample_job 5).1 in
  job_ok j' /\ job_is_enrolled j' 5 = true.
Proof.
  destruct (enroll_correct sample_job 5 (JaTask 0 JIDLE 0 0 0)) as (H1 & H2 & _).
  - apply sample_job_ok.
  - reflexivity.
  - reflexivity.
  - reflexivity.
  - split; [exact H1|exact H2].
Defined.

(** [job_unenroll] undoes [job_enroll]: the enrolled tasks are the old ones and
    every id is in the lists it was in before. *)
Theorem unenroll_enroll `{Sorting : SortByMin} (j : job) (id : Z) (t : ja_task) :
  job_ok j -> is_task_id id -> job_get_hold_state j id = 0 -> job_is_enrolled j id = false ->
  JB_ja_template j = Some t ->
  let j' := job_unenroll (job_enroll j id).1 (Some (length (JB_ja_tasks j))) in
  JB_ja_tasks j' = JB_ja_tasks j /\ forall a x, wi j' a x = wi j a x.
Proof.
  intros Hj Hid Hh Hn Htmp j'.
  destruct (enroll_spec j id t Hj Hh Hn Htmp) as (_ & Hts & Hin & Hl' & Hwi).
  set (je := (job_enroll j id).1) in *.
  assert (JB_ja_tasks je !! length (JB_ja_tasks j) =
    Some (JaTask id (JAT_status t) (Z.lor JQUEUED JWAITING) (JAT_hold t) (JAT_job_restarted t)))
    as Hlk by (rewrite Hts; by apply list_lookup_middle).
  subst j'. unfold job_unenroll. cbn [mbind option_bind]. rewrite Hlk.
  cbn [mbind option_bind JB_ja_tasks with_tasks JAT_task_number]. rewrite Hts.
  destruct (insert_compress (JB_ids je JB_ja_n_h_ids) id (Hl' _) Hid) as [I1 I2]. split.
  - by rewrite delete_middle, app_nil_r.
  - intros a x. change (wi (set_ids je JB_ja_n_h_ids
      (range_list_compress <$> insert_ids_opt (JB_ids je JB_ja_n_h_ids) id)) a x = wi j a x).
    rewrite wi_set_ids. destruct (decide (a = JB_ja_n_h_ids)) as [->|Ha].
    + rewrite I2. change (range_list_is_id_within _ x) with (wi je JB_ja_n_h_ids x).
      rewrite Hwi, decide_True by done. destruct (x =? id) eqn:E; [|done].
      apply Z.eqb_eq in E as ->. done.
    + by rewrite Hwi, decide_False by done.
Qed.

Lemma unenroll_enroll_witness :
  let j' := job_unenroll (Sorting := merge_sort_by_min) (job_enroll sample_job 5).1 (Some 1%nat) in
  JB_ja_tasks j' = JB_ja_tasks sample_job /\ forall a x, wi j' a x = wi sample_job a x.
Proof.
  apply (unenroll_enroll (Sorting := merge_sort_by_min) sample_job 5 (JaTask 0 JIDLE 0 0 0));
    try reflexivity.
  - apply sample_job_ok.
  - unfold is_task_id, task_bound. lia.
Defined.

End JobProps.
