(* ===== verification/JobHolds.v ===== *)
(** Array jobs: sorting pending tasks by hold, counting them, and the smallest
    pending task id. *)

From S2P Require Import Prelude Answer Range RangeFacts RangeSets RangeNorm RangeProps Job JobProps.
Import Answer Ranges RangeProps Job JobProps.

Module JobHolds.

(** [has l f]: the optional list [l] is well formed and [f] is its membership test. *)
Definition has (l : option (list range)) (f : Z -> bool) : Prop :=
  ids_ok l /\ forall x, range_list_is_id_within (default [] l) x = f x.

Lemma has_wi j a : lists_ok j -> has (JB_ids j a) (wi j a).
Proof. intros Hj. split; [apply Hj|done]. Qed.

Lemma has_in l f x : has l f -> ids_in x (default [] l) <-> f x = true.
Proof.
  intros [Hl Hf]. rewrite <- Hf, (within_in task_bound); [done|done|by apply rl_ok_ranges].
Qed.

Lemma has_intro l f :
  ids_ok l -> (forall x, ids_in x (default [] l) <-> f x = true) -> has l f.
Proof.
  intros Hl Hf. split; [done|]. intros x. apply (within_eq task_bound); [done| |apply Hf].
  by apply rl_ok_ranges.
Qed.

Lemma has_none (f : Z -> bool) : (forall x, f x = false) -> has None f.
Proof. intros Hf. split; [apply rl_ok_nil|]. intros x. by rewrite Hf. Qed.

Section WithSort.
Context `{Sorting : SortByMin}.

Lemma inter_has l1 l2 f1 f2 :
  has l1 f1 -> has l2 f2 ->
  exists i, inter l1 l2 = Some i /\ has i (fun x => f1 x && f2 x).
Proof.
  intros H1 H2. unfold inter. destruct l1 as [l1|], l2 as [l2|].
  - destruct (intersection_spec task_bound ltac:(done) None l1 l2)
      as (i & -> & Hi & Hx); [apply H1|apply rl_ok_ranges, H2|].
    exists i. split; [done|]. apply has_intro; [done|]. intros x.
    by rewrite Hx, andb_true_iff, <- (has_in _ _ _ H1), <- (has_in _ _ _ H2).
  - exists None. split; [done|]. apply has_none. intros x. destruct H2 as [_ <-].
    apply andb_false_r.
  - exists None. split; [done|]. apply has_none. intros x. by destruct H1 as [_ <-].
  - exists None. split; [done|]. apply has_none. intros x. by destruct H1 as [_ <-].
Qed.

Lemma normalised l f al :
  answer_list_has_error al = false -> has (Some l) f ->
  exists n, range_list_sort_uniq_compress l true = Some n /\ has (Some n) f.
Proof.
  intros Hal H.
  destruct (sort_uniq_compress_spec task_bound ltac:(done) l true) as (n & -> & Hn & He).
  { apply (fixable_all task_bound). apply rl_ok_ranges, H. }
  exists n. split; [done|]. apply has_intro; [done|]. intros x.
  by rewrite <- (has_in _ _ _ H), <- (He x).
Qed.

Lemma diff_has l1 l2 f1 f2 :
  has l1 f1 -> has l2 f2 ->
  exists d, diff l1 l2 = Some d /\ has d (fun x => f1 x && negb (f2 x)).
Proof.
  intros H1 H2. unfold diff. destruct l1 as [l1|].
  2:{ exists None. split; [done|]. apply has_none. intros x. by destruct H1 as [_ <-]. }
  destruct l2 as [l2|].
  - destruct (difference_spec task_bound ltac:(done) None None l1 l2)
      as (d & -> & Hd & Hx); [done|apply rl_ok_ranges, H1|apply rl_ok_ranges, H2|].
    exists d. split; [done|]. apply has_intro; [done|]. intros x.
    rewrite Hx, andb_true_iff, negb_true_iff, <- not_true_iff_false.
    by rewrite <- (has_in _ _ _ H1), <- (has_in _ _ _ H2).
  - destruct (normalised l1 f1 None ltac:(done) H1) as (n & Hn & Hhas).
    exists (Some n). unfold range_list_calculate_difference_set. rewrite Hn. split; [done|].
    apply has_intro; [apply Hhas|]. intros x. rewrite (has_in _ _ _ Hhas).
    destruct H2 as [_ <-]. by rewrite andb_true_r.
Qed.

Lemma union_has al l1 l2 f1 f2 :
  answer_list_has_error al = false -> has l1 f1 -> has l2 f2 ->
  exists u, range_list_calculate_union_set None al l1 l2 = Some (u, al) /\
    has u (fun x => f1 x || f2 x).
Proof.
  intros Hal H1 H2. destruct l1 as [l1|], l2 as [l2|].
  - destruct (union_spec task_bound ltac:(done) None al l1 l2)
      as (u & -> & Hu & Hx); [done|apply rl_ok_ranges, H1|apply rl_ok_ranges, H2|].
    exists (Some u). split; [done|]. apply has_intro; [done|]. intros x. simpl.
    rewrite (Hx x), ids_in_app, orb_true_iff.
    by rewrite <- (has_in _ _ _ H1), <- (has_in _ _ _ H2).
  - destruct (normalised l1 f1 al Hal H1) as (n & Hn & Hhas).
    exists (Some n). unfold range_list_calculate_union_set. rewrite Hn. simpl. rewrite Hal.
    split; [done|]. apply has_intro; [apply Hhas|]. intros x. rewrite (has_in _ _ _ Hhas).
    destruct H2 as [_ <-]. by rewrite orb_false_r.
  - destruct (normalised l2 f2 al Hal H2) as (n & Hn & Hhas).
    exists (Some n). unfold range_list_calculate_union_set. rewrite Hn. simpl. rewrite Hal.
    split; [done|]. apply has_intro; [apply Hhas|]. intros x. rewrite (has_in _ _ _ Hhas).
    by destruct H1 as [_ <-].
  - exists None. split; [done|]. apply has_none. intros x. by destruct H1 as [_ <-], H2 as [_ <-].
Qed.

(** Runs the next set operation of a bind chain. *)
Ltac set_step :=
  match goal with
  | |- context [inter ?l1 ?l2] =>
      let l := fresh "l" in let H := fresh "H" in
      edestruct (inter_has l1 l2) as (l & -> & H); [eassumption..|]
  | |- context [diff ?l1 ?l2] =>
      let l := fresh "l" in let H := fresh "H" in
      edestruct (diff_has l1 l2) as (l & -> & H); [eassumption..|]
  end; cbn [mbind option_bind]; cbn beta in *.

Lemma create_hold_id_lists_spec j :
  lists_ok j ->
  exists ls, job_create_hold_id_lists j = Some (JB_ids j JB_ja_n_h_ids :: ls, hold_states) /\
    Forall2 (fun l h => has l (fun x => job_accumulate_hold_flags j x =? h))
      ls (tail hold_states).
Proof.
  intros Hj. unfold job_create_hold_id_lists. cbv zeta.
  pose proof (has_wi j JB_ja_u_h_ids Hj) as Hu. pose proof (has_wi j JB_ja_o_h_ids Hj) as Ho.
  pose proof (has_wi j JB_ja_s_h_ids Hj) as Hs. pose proof (has_wi j JB_ja_a_h_ids Hj) as Ha.
  repeat set_step. eexists. split; [reflexivity|].
  repeat (apply Forall2_cons; split); try apply Forall2_nil_2; try done;
    (split; [match goal with H : has ?l _ |- ids_ok ?l => apply H end|]); intros x;
    match goal with H : has ?l _ |- range_list_is_id_within (default [] ?l) _ = _ =>
      rewrite (proj2 H) end;
    rewrite accumulate_flags;
    destruct (wi j JB_ja_u_h_ids x), (wi j JB_ja_o_h_ids x), (wi j JB_ja_s_h_ids x),
      (wi j JB_ja_a_h_ids x); reflexivity.
Qed.

(** [job_create_hold_id_lists]: all 40 set operations terminate; list [k] > 0
    holds exactly the tasks whose accumulated hold flags are [hold_state[k]], and every
    pending task is in exactly one of the 16 lists. *)
Theorem hold_id_lists_partition (j : job) :
  job_ok j ->
  exists ls, job_create_hold_id_lists j = Some (JB_ids j JB_ja_n_h_ids :: ls, hold_states) /\
    length ls = 15%nat /\
    (forall k l h, ls !! k = Some l -> hold_states !! S k = Some h ->
       rl_ok task_bound (default [] l) /\
       forall x, range_list_is_id_within (default [] l) x =
                 (job_accumulate_hold_flags j x =? h)) /\
    forall x, job_is_enrolled j x = false ->
      length (List.filter (fun l => range_list_is_id_within (default [] l) x)
                (JB_ids j JB_ja_n_h_ids :: ls)) = 1%nat.
Proof.
  intros Hj. destruct (create_hold_id_lists_spec j (jo_lists j Hj)) as (ls & -> & Hls).
  exists ls. split; [done|]. split; [by apply Forall2_length in Hls|]. split.
  - intros k l h Hk Hh. eapply Forall2_lookup_lr in Hls as [H1 H2]; eauto.
  - intros x Hx. rewrite is_enrolled_wi in Hx.
    pose proof (jo_disjoint j Hj x) as Hd.
    assert (length (List.filter (fun l => range_list_is_id_within (default [] l) x) ls) =
            length (List.filter (fun h => job_accumulate_hold_flags j x =? h) (tail hold_states)))
      as Hlen.
    { clear -Hls. induction Hls as [|l h ls hs [_ Hl] Hls IH]; simpl; [done|].
      rewrite Hl. destruct (_ =? h); simpl; congruence. }
    simpl. change (range_list_is_id_within _ x) with (wi j JB_ja_n_h_ids x) at 1.
    destruct (wi j JB_ja_n_h_ids x) eqn:En; simpl; rewrite Hlen, accumulate_flags.
    + rewrite !Hd by done. reflexivity.
    + clear Hd Hlen En. revert Hx.
      destruct (wi j JB_ja_u_h_ids x), (wi j JB_ja_o_h_ids x), (wi j JB_ja_s_h_ids x),
        (wi j JB_ja_a_h_ids x); done.
Qed.

(** ** Counting *)

Lemma has_ids l f :
  has l f ->
  exists ids, NoDup ids /\ (forall x, x ∈ ids <-> f x = true) /\
    range_list_get_number_of_ids (default [] l) = u32 (length ids).
Proof.
  intros Hl. pose proof (proj1 Hl) as Hok. pose proof (rl_ok_ranges _ _ Hok) as Hr.
  destruct (list_ids_spec task_bound ltac:(done) _ Hr) as (ids & _ & Hin & _ & Hs & Hc).
  exists ids. split; [|split].
  - specialize (Hs Hok). clear -Hs. induction Hs as [|x ids Hs IH Hx]; constructor; [|done].
    intros Hin. rewrite Forall_forall in Hx. specialize (Hx _ Hin). lia.
  - intros x. by rewrite Hin, (has_in _ _ _ Hl).
  - rewrite <- Hc. apply number_of_ids_sum.
Qed.

(** [job_get_not_enrolled_ja_tasks] terminates and counts every pending task
    once, however many holds it has (as a [uint32_t]); [job_get_ja_tasks] adds the
    enrolled ones. *)
Theorem task_counts_correct (j : job) :
  job_ok j ->
  exists ids, NoDup ids /\ (forall x, x ∈ ids <-> job_is_enrolled j x = false) /\
    job_get_not_enrolled_ja_tasks j = Some (u32 (length ids)) /\
    job_get_ja_tasks j = Some (u32 (length ids + length (JB_ja_tasks j))).
Proof.
  intros Hj. pose proof (jo_lists j Hj) as Hl.
  assert (exists ids, NoDup ids /\ (forall x, x ∈ ids <-> job_is_enrolled j x = false) /\
    job_get_not_enrolled_ja_tasks j = Some (u32 (length ids))) as (ids & H1 & H2 & H3).
  { unfold job_get_not_enrolled_ja_tasks.
    destruct (union_has (Some None) _ _ _ _ ltac:(done) (has_wi j JB_ja_u_h_ids Hl)
      (has_wi j JB_ja_o_h_ids Hl)) as (uo & -> & Huo). cbn [mbind option_bind].
    destruct (union_has (Some None) _ _ _ _ ltac:(done) Huo (has_wi j JB_ja_s_h_ids Hl))
      as (uos & -> & Huos). cbn [mbind option_bind].
    destruct (union_has (Some None) _ _ _ _ ltac:(done) Huos (has_wi j JB_ja_a_h_ids Hl))
      as (uosa & -> & Huosa). cbn [mbind option_bind].
    destruct (has_ids _ _ Huosa) as (i2 & Hn2 & Hi2 & ->).
    destruct (has_ids _ _ (has_wi j JB_ja_n_h_ids Hl)) as (i1 & Hn1 & Hi1 & Hc1).
    change (ids_of j JB_ja_n_h_ids) with (default [] (JB_ids j JB_ja_n_h_ids)). rewrite Hc1.
    exists (i1 ++ i2). split; [|split].
    - apply NoDup_app. split; [done|]. split; [|done]. intros x Hx1%Hi1 Hx2%Hi2.
      pose proof (jo_disjoint j Hj x) as Hd. rewrite !Hd in Hx2 by done. done.
    - intros x. rewrite elem_of_app, Hi1, Hi2, is_enrolled_wi.
      destruct (wi j JB_ja_n_h_ids x), (wi j JB_ja_u_h_ids x), (wi j JB_ja_o_h_ids x),
        (wi j JB_ja_s_h_ids x), (wi j JB_ja_a_h_ids x); simpl; intuition congruence.
    - f_equal. rewrite length_app. unfold u32. rewrite <- Zplus_mod. f_equal. lia. }
  exists ids. do 3 (split; [done|]). unfold job_get_ja_tasks. rewrite H3.
  cbn [mbind option_bind]. unfold job_get_enrolled_ja_tasks, u32. by rewrite <- Zplus_mod.
Qed.

End WithSort.

Lemma hold_id_lists_partition_witness :
  exists ls, job_create_hold_id_lists (Sorting := merge_sort_by_min) sample_job =
    Some (JB_ids sample_job JB_ja_n_h_ids :: ls, hold_states) /\ length ls = 15%nat.
Proof.
  destruct (hold_id_lists_partition (Sorting := merge_sort_by_min) sample_job)
    as (ls & H1 & H2 & _).
  - apply sample_job_ok.
  - exists ls. split; [exact H1|exact H2].
Defined.

Lemma task_counts_correct_witness :
  exists ids, NoDup ids /\ (forall x, x ∈ ids <-> job_is_enrolled sample_job x = false) /\
    job_get_not_enrolled_ja_tasks (Sorting := merge_sort_by_min) sample_job =
      Some (u32 (length ids)) /\
    job_get_ja_tasks (Sorting := merge_sort_by_min) sample_job =
      Some (u32 (length ids + length (JB_ja_tasks sample_job))).
Proof. apply (task_counts_correct (Sorting := merge_sort_by_min)), sample_job_ok. Defined.

(** ** The smallest pending task *)

(** [m] is the least task id with [P], or 0 when there is none. *)
Definition least_id (P : Z -> Prop) (m : Z) : Prop :=
  (m = 0 /\ forall x, ~ P x) \/ (0 < m /\ P m /\ forall x, P x -> m <= x).

Lemma least_id_iff P Q m : (forall x, P x <-> Q x) -> least_id P m -> least_id Q m.
Proof.
  intros H [(? & Hn)|(? & Hm & Hl)]; [left|right]; setoid_rewrite <- H; auto.
Qed.

Lemma least_id_or P Q m n :
  least_id P m -> least_id Q n ->
  least_id (fun x => P x \/ Q x)
    (if (0 <? m) && (0 <? n) then Z.min m n else if 0 <? n then n else m).
Proof.
  intros [(-> & Hp)|(Hm & Hpm & Hp)] [(-> & Hq)|(Hn & Hqn & Hq)]; simpl.
  - left. split; [done|]. intros x [Hx|Hx]; [by apply Hp in Hx|by apply Hq in Hx].
  - rewrite (proj2 (Z.ltb_lt 0 n)) by done. right. split; [done|]. split; [by right|].
    intros x [Hx|Hx]; [by apply Hp in Hx|auto].
  - rewrite (proj2 (Z.ltb_lt 0 m)) by done. right. split; [done|]. split; [by left|].
    intros x [Hx|Hx]; [auto|by apply Hq in Hx].
  - rewrite (proj2 (Z.ltb_lt 0 m)), (proj2 (Z.ltb_lt 0 n)) by done. right. simpl.
    split; [lia|]. split.
    + destruct (Z.min_spec m n) as [[_ ->]|[_ ->]]; auto.
    + intros x [Hx|Hx]; [apply Hp in Hx|apply Hq in Hx]; lia.
Qed.

Lemma first_id_least l f :
  has l f -> (forall x, f x = true -> 0 < x) ->
  least_id (fun x => f x = true) (range_list_get_first_id (default [] l) None).1.
Proof.
  intros Hl Hpos. pose proof Hl as [Hok _]. destruct (default [] l) as [|r rs] eqn:E.
  - left. split; [done|]. intros x. rewrite <- (has_in _ _ x Hl), E, ids_in_nil. tauto.
  - right. unfold range_list_get_first_id; cbn [fst].
    unfold ids_ok in Hok. rewrite E in Hok. apply rl_ok_cons in Hok as ([Hr _] & Hrs & Ha).
    assert (f (rn_min r) = true) as Hm.
    { apply (has_in _ _ _ Hl). rewrite E, ids_in_cons. left. by apply (id_in_min task_bound). }
    split; [by apply Hpos|]. split; [done|]. intros x Hx. apply (has_in _ _ _ Hl) in Hx.
    rewrite E in Hx. apply ids_in_cons in Hx as [Hx|Hx].
    + pose proof (id_in_bounds task_bound x r Hr Hx). lia.
    + apply ids_in_elem in Hx as (r' & Hr' & Hx).
      apply rl_ok_ranges in Hrs. rewrite Forall_forall in Hrs. unfold above in Ha.
      rewrite Forall_forall in Ha. specialize (Ha _ Hr').
      pose proof (id_in_bounds task_bound x r' (Hrs _ Hr') Hx).
      destruct Hr as (? & ? & ? & ?). lia.
Qed.

Definition pending (j : job) (x : Z) : Prop := job_is_enrolled j x = false.
Definition pending_other (j : job) (x : Z) : Prop :=
  exists b, b <> JB_ja_a_h_ids /\ wi j b x = true.

Lemma pending_iff j x : pending j x <-> pending_other j x \/ wi j JB_ja_a_h_ids x = true.
Proof.
  unfold pending, pending_other. rewrite is_enrolled_wi, negb_false_iff, !orb_true_iff. split.
  - intros [[[[?|?]|?]|?]|?]; first [by right | left; eexists; split; [|eassumption]; done].
  - intros [(b & ? & ?)|?]; [destruct b|]; first [done|tauto].
Qed.

(** [job_get_smallest_unenrolled_task_id]: without array dependency holds it is
    the smallest pending task id (0 if there is none).  With such holds the result is
    the smallest id among THEM, or 0 when no other list has an id. *)
Theorem smallest_unenrolled_task_id (j : job) :
  lists_ok j -> (forall a x, wi j a x = true -> 0 < x) ->
  let m := job_get_smallest_unenrolled_task_id j in
  let a := (range_list_get_first_id (ids_of j JB_ja_a_h_ids) None).1 in
  least_id (fun x => wi j JB_ja_a_h_ids x = true) a /\
  if a =? 0 then least_id (pending j) m
  else (m = a /\ exists x, pending_other j x) \/ (m = 0 /\ forall x, ~ pending_other j x).
Proof.
  intros Hl Hpos m a.
  pose proof (fun b => first_id_least _ _ (has_wi j b Hl) (Hpos b)) as Hf.
  pose proof (Hf JB_ja_a_h_ids) as Ha. fold (ids_of j JB_ja_a_h_ids) in Ha. fold a in Ha.
  pose proof (least_id_or _ _ _ _ (least_id_or _ _ _ _ (least_id_or _ _ _ _
    (Hf JB_ja_n_h_ids) (Hf JB_ja_u_h_ids)) (Hf JB_ja_o_h_ids)) (Hf JB_ja_s_h_ids)) as Ho.
  split; [done|]. unfold m, job_get_smallest_unenrolled_task_id,
    job_get_extreme_unenrolled_task_id, extreme. cbn [fold_left].
  change (range_list_get_first_id (ids_of j JB_ja_a_h_ids) None).1 with a.
  unfold ids_of. set (ret := if _ && _ then _ else _) in *. clearbody ret.
  apply (least_id_iff _ (pending_other j)) in Ho.
  2:{ intros x. unfold pending_other. split.
      - intros [[[?|?]|?]|?]; (eexists; split; [|eassumption]; done).
      - intros (b & ? & ?). destruct b; first [done|tauto]. }
  destruct Ha as [(-> & Hna)|(Ha & Hia & Hla)]; simpl.
  - rewrite andb_false_r. eapply least_id_iff; [|exact Ho]. intros x. rewrite pending_iff.
    specialize (Hna x). tauto.
  - rewrite (proj2 (Z.eqb_neq a 0)), (proj2 (Z.ltb_lt 0 a)) by lia. rewrite andb_true_r.
    destruct Ho as [(-> & Hno)|(Hr & Hir & _)].
    + right. split; [simpl; lia|done].
    + left. rewrite (proj2 (Z.eqb_neq ret 0)) by lia. eauto.
Qed.

Lemma smallest_unenrolled_task_id_witness :
  let a := (range_list_get_first_id (ids_of sample_job JB_ja_a_h_ids) None).1 in
  least_id (fun x => wi sample_job JB_ja_a_h_ids x = true) a.
Proof.
  apply (smallest_unenrolled_task_id sample_job).
  - apply sample_job_ok.
  - intros a x. unfold wi, ids_of, range_list_is_id_within, range_is_id_within.
    destruct a; simpl; lia.
Defined.

(** Tasks 3-4 wait for another array job: with 1-2 pending as well the function says
    3; alone it says 0. *)
Example smallest_with_dependency_holds :
  let j ids := Job (Some [Range 1 4 1])
    (fun a => match a with
              | JB_ja_n_h_ids => ids | JB_ja_a_h_ids => Some [Range 3 4 1] | _ => None
              end) [] None in
  job_get_smallest_unenrolled_task_id (j (Some [Range 1 2 1])) = 3 /\
  job_get_smallest_unenrolled_task_id (j None) = 0.
Proof. by split. Qed.

End JobHolds.
