(* ===== verification/Pack.v ===== *)
(** Pack buffers ([libs/cull/pack.cc]): the byte stream CULL data is written to and
    read from.

    The memory of a buffer is a list of bytes; a pointer into it is an offset.
    [malloc], [realloc] and [strdup] go through the [Allocator] interface, which may
    refuse at any time and hands out memory with arbitrary contents.  An access
    outside the memory is [OutOfBounds], the abort of [sge_malloc] is [Aborted]. *)

From S2P Require Import Prelude.

(** Libc's allocator: [alloc h n] is the new heap and, if there is memory, a block of
    [n] bytes. *)
Class Allocator := {
  heap : Type;
  alloc : heap -> Z -> heap * option (list Z);
  alloc_length : forall h n h' m, alloc h n = (h', Some m) -> Z.of_nat (length m) = n;
}.

Module Pack.

Inductive outcome (A : Type) := Ok (a : A) | OutOfBounds | Aborted.
Arguments Ok {A} a.
Arguments OutOfBounds {A}.
Arguments Aborted {A}.

#[export] Instance outcome_bind : MBind outcome := fun A B f o =>
  match o with
  | Ok a => f a
  | OutOfBounds => OutOfBounds
  | Aborted => Aborted
  end.

Definition PACK_SUCCESS : Z := 0.
Definition PACK_ENOMEM : Z := -1.
Definition PACK_FORMAT : Z := -2.
Definition PACK_BADARG : Z := -3.
Definition PACK_VERSION : Z := -4.
Definition PACK_AUTHINFO : Z := -5.

Definition CHUNK : Z := 1048576.
Definition INTSIZE : Z := 4.
Definition DOUBLESIZE : Z := 8.
Definition CULL_VERSION : Z := 0x10023000.

Record sge_pack_buffer := PackBuffer {
  head_ptr : option (list Z);
  cur_ptr : Z;
  mem_size : Z;
  bytes_used : Z;
  just_count : bool;
  version : Z;
  auth_info : option (list Z);
}.

Definition zero_pb : sge_pack_buffer := PackBuffer None 0 0 0 false 0 None.

Definition pack_get_chunk : Z := CHUNK.
(** [size_t] values returned as [int]. *)
Definition pb_used (pb : sge_pack_buffer) : Z := s32 (bytes_used pb).
Definition pb_unused (pb : sge_pack_buffer) : Z := s32 (mem_size pb - bytes_used pb).
Definition pb_filled (pb : sge_pack_buffer) : bool := 2 * INTSIZE <? pb_used pb.

(** ** Network byte order *)

(** The [n] low bytes of [v], highest first ([htonl], [htobe64]). *)
Fixpoint be_bytes (n : nat) (v : Z) : list Z :=
  match n with
  | O => []
  | S n => Z.shiftr v (8 * n) mod 256 :: be_bytes n v
  end.

(** [ntohl], [be64toh]. *)
Definition of_be_bytes (l : list Z) : Z := fold_left (fun acc b => acc * 256 + b) l 0.

(** ** Memory *)

(** [memcpy] into the buffer at the offset [off]. *)
Definition write_at (m : list Z) (off : Z) (bs : list Z) : outcome (list Z) :=
  if (0 <=? off) && (off + length bs <=? length m) then
    Ok (take (Z.to_nat off) m ++ bs ++ drop (Z.to_nat (off + length bs)) m)
  else OutOfBounds.

Definition read_at (m : list Z) (off n : Z) : outcome (list Z) :=
  if (0 <=? off) && (0 <=? n) && (off + n <=? length m) then
    Ok (take (Z.to_nat n) (drop (Z.to_nat off) m))
  else OutOfBounds.

(** A null [head_ptr] is not dereferenceable. *)
Definition memory (pb : sge_pack_buffer) : list Z := default [] (head_ptr pb).

(** Copies [bs] to [cur_ptr] and moves [cur_ptr] behind it. *)
Definition put (pb : sge_pack_buffer) (bs : list Z) : outcome sge_pack_buffer :=
  m ← write_at (memory pb) (cur_ptr pb) bs;
  Ok (PackBuffer (Some m) (cur_ptr pb + length bs) (mem_size pb) (bytes_used pb)
        (just_count pb) (version pb) (auth_info pb)).

Definition used_more (pb : sge_pack_buffer) (n : Z) : sge_pack_buffer :=
  PackBuffer (head_ptr pb) (cur_ptr pb) (mem_size pb) (bytes_used pb + n) (just_count pb)
    (version pb) (auth_info pb).

(** [memchr(p, 0, n)] on the [n] bytes at [p]. *)
Fixpoint find_nul (l : list Z) : option nat :=
  match l with
  | [] => None
  | b :: l => if b =? 0 then Some 0%nat else S <$> find_nul l
  end.

Section WithAllocator.
Context `{Alloc : Allocator}.

Definition sge_malloc (h : heap) (n : Z) : outcome (heap * option (list Z)) :=
  if n =? 0 then Ok (h, None)
  else match alloc h n with
       | (h', Some m) => Ok (h', Some m)
       | (_, None) => Aborted
       end.

(** [realloc] keeps the old contents; [sge_realloc] with [do_abort] 0 frees the old
    block when there is no memory. *)
Definition sge_realloc (h : heap) (old : list Z) (n : Z) : heap * option (list Z) :=
  match alloc h n with
  | (h', Some m) => (h', Some (old ++ drop (length old) m))
  | (h', None) => (h', None)
  end.

(** [pb->mem_size = size; realloc; cur_ptr = &head_ptr[bytes_used]]: the flag tells
    whether there was memory. *)
Definition pb_realloc (h : heap) (pb : sge_pack_buffer) (size : Z) :
    heap * sge_pack_buffer * bool :=
  let '(h', m) := sge_realloc h (memory pb) size in
  match m with
  | Some _ =>
      (h', PackBuffer m (bytes_used pb) size (bytes_used pb) (just_count pb) (version pb)
             (auth_info pb), true)
  | None =>
      (h', PackBuffer None (cur_ptr pb) size (bytes_used pb) (just_count pb) (version pb)
             (auth_info pb), false)
  end.

(** ** Packing *)

(** The common body: one [CHUNK] more when the [need]ed bytes do not fit, then the
    copy. *)
Definition pack_fixed (h : heap) (pb : sge_pack_buffer) (need : Z) (bs : list Z) :
    outcome (heap * sge_pack_buffer * Z) :=
  if just_count pb then Ok (h, used_more pb need, PACK_SUCCESS)
  else
    let '(h, pb, ok) :=
      if mem_size pb <? bytes_used pb + need then pb_realloc h pb (mem_size pb + CHUNK)
      else (h, pb, true) in
    if ok then pb ← put pb bs; Ok (h, used_more pb need, PACK_SUCCESS)
    else Ok (h, pb, PACK_ENOMEM).

Definition packint (h : heap) (pb : sge_pack_buffer) (i : Z) :=
  pack_fixed h pb INTSIZE (be_bytes 4 i).

Definition packint64 (h : heap) (pb : sge_pack_buffer) (i : Z) :=
  pack_fixed h pb (INTSIZE * 2) (be_bytes 8 i).

(** A [double] is its 64 bit representation. *)
Definition packdouble (h : heap) (pb : sge_pack_buffer) (bits : Z) :=
  pack_fixed h pb DOUBLESIZE (be_bytes 8 bits).

(** No check and no accounting: it overwrites an integer packed before. *)
Definition repackint (pb : sge_pack_buffer) (i : Z) : outcome (sge_pack_buffer * Z) :=
  if just_count pb then Ok (pb, PACK_SUCCESS)
  else pb ← put pb (be_bytes 4 i); Ok (pb, PACK_SUCCESS).

(** [while (bytes_used + n > mem_size) mem_size += CHUNK], with as many rounds as are
    ever needed. *)
Fixpoint grow_size (fuel : nat) (size want : Z) : Z :=
  match fuel with
  | O => size
  | S fuel => if size <? want then grow_size fuel (size + CHUNK) want else size
  end.

Definition grow_fuel (size want : Z) : nat := Z.to_nat ((want - size) / CHUNK + 1).

(** A [char *] is the bytes in front of its terminator; [None] is a null pointer. *)
Definition packstr (h : heap) (pb : sge_pack_buffer) (str : option (list Z)) :
    outcome (heap * sge_pack_buffer * Z) :=
  match str with
  | None => pack_fixed h pb 1 [0]
  | Some s =>
      let n := Z.of_nat (length s) + 1 in
      if just_count pb then Ok (h, used_more pb n, PACK_SUCCESS)
      else
        let '(h, pb, ok) :=
          if mem_size pb <? bytes_used pb + n then
            let want := bytes_used pb + n in
            pb_realloc h pb (grow_size (grow_fuel (mem_size pb) want) (mem_size pb) want)
          else (h, pb, true) in
        if ok then pb ← put pb (s ++ [0]); Ok (h, used_more pb n, PACK_SUCCESS)
        else Ok (h, pb, PACK_ENOMEM)
  end.

(** The test is made in 32 bits, and one [CHUNK] is all the buffer grows by. *)
Definition packbuf (h : heap) (pb : sge_pack_buffer) (buf : list Z) :
    outcome (heap * sge_pack_buffer * Z) :=
  let buf_size := Z.of_nat (length buf) in
  if just_count pb then Ok (h, used_more pb buf_size, PACK_SUCCESS)
  else
    let '(h, pb, ok) :=
      if u32 (mem_size pb) <? u32 (buf_size + u32 (bytes_used pb)) then
        pb_realloc h pb (mem_size pb + CHUNK)
      else (h, pb, true) in
    if ok then pb ← put pb buf; Ok (h, used_more pb buf_size, PACK_SUCCESS)
    else Ok (h, pb, PACK_ENOMEM).

(** ** Unpacking *)

Definition advance (pb : sge_pack_buffer) (n : Z) : sge_pack_buffer :=
  PackBuffer (head_ptr pb) (cur_ptr pb + n) (mem_size pb) (bytes_used pb + n) (just_count pb)
    (version pb) (auth_info pb).

Definition unpack_fixed (pb : sge_pack_buffer) (n : Z) : outcome (sge_pack_buffer * Z * Z) :=
  if mem_size pb <? bytes_used pb + n then Ok (pb, 0, PACK_FORMAT)
  else
    bs ← read_at (memory pb) (cur_ptr pb) n;
    Ok (advance pb n, of_be_bytes bs, PACK_SUCCESS).

Definition unpackint (pb : sge_pack_buffer) := unpack_fixed pb INTSIZE.
Definition unpackint64 (pb : sge_pack_buffer) := unpack_fixed pb (INTSIZE * 2).
Definition unpackdouble (pb : sge_pack_buffer) := unpack_fixed pb DOUBLESIZE.

(** The result [None] with [PACK_SUCCESS] is a null pointer; with another code
    [*str] is left as it was. *)
Definition unpackstr (h : heap) (pb : sge_pack_buffer) :
    outcome (heap * sge_pack_buffer * option (list Z) * Z) :=
  let remaining := u64 (mem_size pb - bytes_used pb) in
  if remaining <? 1 then Ok (h, pb, None, PACK_FORMAT)
  else
    first ← read_at (memory pb) (cur_ptr pb) 1;
    if bool_decide (first = [0]) then Ok (h, advance pb 1, None, PACK_SUCCESS)
    else
      rest ← read_at (memory pb) (cur_ptr pb) remaining;
      match find_nul rest with
      | None => Ok (h, pb, None, PACK_FORMAT)
      | Some k =>
          let n := Z.of_nat k + 1 in
          match alloc h n with
          | (h', None) => Ok (h', pb, None, PACK_ENOMEM)
          | (h', Some _) => Ok (h', advance pb n, Some (take k rest), PACK_SUCCESS)
          end
      end.

(** [buf_size] is an [int]; in the sum and in [sge_malloc] it becomes a [size_t]. *)
Definition unpackbuf (h : heap) (pb : sge_pack_buffer) (buf_size : Z) :
    outcome (heap * sge_pack_buffer * option (list Z) * Z) :=
  if buf_size =? 0 then Ok (h, pb, None, PACK_SUCCESS)
  else if mem_size pb <? u64 (buf_size + bytes_used pb) then Ok (h, pb, None, PACK_FORMAT)
  else
    '(h, _) ← sge_malloc h (u64 buf_size);
    bs ← read_at (memory pb) (cur_ptr pb) (u64 buf_size);
    Ok (h, PackBuffer (head_ptr pb) (cur_ptr pb + buf_size) (mem_size pb)
             (u64 (bytes_used pb + buf_size)) (just_count pb) (version pb) (auth_info pb),
        Some bs, PACK_SUCCESS).

(** ** Making buffers *)

(** [component]: what [component_get_auth_info] answers.  The codes of the three
    header writes are not looked at. *)
Definition init_packbuffer (h : heap) (initial_size : Z) (just_count with_auth_info : bool)
    (component : option (list Z)) : outcome (heap * sge_pack_buffer * Z) :=
  if just_count then Ok (h, PackBuffer None 0 0 0 true 0 None, PACK_SUCCESS)
  else
    let size := if initial_size =? 0 then CHUNK else initial_size + 2 * INTSIZE in
    let auth := if with_auth_info then component else None in
    if with_auth_info && bool_decide (component = None) then Ok (h, zero_pb, PACK_AUTHINFO)
    else
      let size := match auth with Some a => size + length a + 1 | None => size + 1 end in
      '(h, m) ← sge_malloc h size;
      match m with
      | None => Ok (h, PackBuffer None 0 0 0 false 0 auth, PACK_ENOMEM)
      | Some _ =>
          let pb := PackBuffer m 0 size 0 false CULL_VERSION auth in
          '(h, pb, _) ← packint h pb 0;
          '(h, pb, _) ← packint h pb (version pb);
          '(h, pb, _) ← packstr h pb (auth_info pb);
          Ok (h, pb, PACK_SUCCESS)
      end.

(** [parse_auth]: whether [component_parse_auth_info] accepts the identity. *)
Definition init_packbuffer_from_buffer (parse_auth : option (list Z) -> bool) (h : heap)
    (buf : list Z) (with_auth_info : bool) : outcome (heap * sge_pack_buffer * Z) :=
  let pb := PackBuffer (Some buf) 0 (length buf) 0 false 0 None in
  if 0 <? length buf then
    '(pb, pad, ret) ← unpackint pb;
    if negb (ret =? PACK_SUCCESS) then Ok (h, pb, ret) else
    '(pb, vers, ret) ← unpackint pb;
    if negb (ret =? PACK_SUCCESS) then Ok (h, pb, ret) else
    '(h, pb, auth, ret) ← unpackstr h pb;
    if negb (ret =? PACK_SUCCESS) then Ok (h, pb, ret) else
    let pb := PackBuffer (head_ptr pb) (cur_ptr pb) (mem_size pb) (bytes_used pb) false 0 auth in
    if negb (pad =? 0) || negb (vers =? CULL_VERSION) then Ok (h, pb, PACK_VERSION) else
    let pb := PackBuffer (head_ptr pb) (cur_ptr pb) (mem_size pb) (bytes_used pb) false vers auth in
    if with_auth_info && negb (parse_auth auth) then Ok (h, pb, PACK_AUTHINFO)
    else Ok (h, pb, PACK_SUCCESS)
  else Ok (h, PackBuffer (Some buf) 0 0 0 false CULL_VERSION None, PACK_SUCCESS).

(** [memcmp] reads both buffers up to [bytes_used] of the first. *)
Definition pb_are_equivalent (pb1 pb2 : sge_pack_buffer) : outcome bool :=
  b1 ← read_at (memory pb1) 0 (bytes_used pb1);
  b2 ← read_at (memory pb2) 0 (bytes_used pb1);
  Ok ((bytes_used pb1 =? bytes_used pb2) && bool_decide (b1 = b2)).

End WithAllocator.

Definition cull_pack_strerror (errnum : Z) : string :=
  if errnum =? PACK_SUCCESS then "packing successful"
  else if errnum =? PACK_ENOMEM then "can't allocate memory"
  else if errnum =? PACK_FORMAT then "invalid input parameter"
  else if errnum =? PACK_BADARG then "bad argument"
  else if errnum =? PACK_VERSION then "wrong cull version"
  else if errnum =? PACK_AUTHINFO then "incorrect authentication information"
  else "".

End Pack.
