(* ===== verification/PackProps.v ===== *)
(** Pack buffers: what is packed can be unpacked, counting mode counts what packing
    writes, and no unpacking routine reads outside the buffer, whatever its bytes. *)

From S2P Require Import Prelude Pack.
Import Pack.

Module PackProps.

(** ** Bytes *)

Lemma be_bytes_length n v : length (be_bytes n v) = n.
Proof. revert v. induction n as [|n IH]; intros v; simpl; [done|by rewrite IH]. Qed.

Lemma of_be_bytes_acc n v acc :
  fold_left (fun a b => a * 256 + b) (be_bytes n v) acc = acc * 256 ^ n + v mod 256 ^ n.
Proof.
  revert acc. induction n as [|n IH]; intros acc.
  - simpl. rewrite Z.mod_1_r. lia.
  - cbn [be_bytes fold_left]. rewrite IH, Nat2Z.inj_succ, Z.pow_succ_r by lia.
    assert (0 < 256 ^ n) by (apply Z.pow_pos_nonneg; lia).
    rewrite (Z.mul_comm 256), Z.rem_mul_r by lia.
    rewrite Z.shiftr_div_pow2, Z.pow_mul_r by lia. change (2 ^ 8) with 256. ring.
Qed.

Lemma of_be_be_bytes n v : of_be_bytes (be_bytes n v) = v mod 256 ^ n.
Proof. unfold of_be_bytes. rewrite of_be_bytes_acc. lia. Qed.

Lemma find_nul_app s rest :
  Forall (fun b => b <> 0) s -> find_nul (s ++ 0 :: rest) = Some (length s).
Proof.
  induction 1 as [|b s Hb Hs IH]; simpl; [done|].
  rewrite (proj2 (Z.eqb_neq b 0) Hb), IH. done.
Qed.

Lemma find_nul_lt l k : find_nul l = Some k -> (k < length l)%nat.
Proof.
  revert k. induction l as [|b l IH]; intros k; simpl; [done|].
  destruct (b =? 0); [intros [= <-]; lia|].
  destruct (find_nul l) as [k'|]; simpl; [|done]. intros [= <-]. specialize (IH k' eq_refl). lia.
Qed.

(** ** Writing *)

(** A buffer that is being written: [cur_ptr] is behind the last byte used. *)
Record writing (pb : sge_pack_buffer) (bs : list Z) : Prop := {
  wr_real : just_count pb = false;
  wr_mem : exists m, head_ptr pb = Some m /\ Z.of_nat (length m) = mem_size pb /\
                     take (Z.to_nat (bytes_used pb)) m = bs;
  wr_used : 0 <= bytes_used pb <= mem_size pb;
  wr_cur : cur_ptr pb = bytes_used pb;
}.

Lemma writing_length pb bs : writing pb bs -> Z.of_nat (length bs) = bytes_used pb.
Proof. intros [_ (m & _ & Hm & <-) Hu _]. rewrite length_take. lia. Qed.

Lemma put_spec pb bs new :
  writing pb bs -> bytes_used pb + length new <= mem_size pb ->
  exists pb', put pb new = Ok pb' /\ writing (used_more pb' (length new)) (bs ++ new) /\
    mem_size pb' = mem_size pb /\ bytes_used pb' = bytes_used pb /\
    version pb' = version pb /\ auth_info pb' = auth_info pb.
Proof.
  intros Hw Hfit. pose proof (writing_length _ _ Hw) as Hlen.
  destruct Hw as [Hr (m & Hm & Hl & Hbs) Hu Hc].
  unfold put, write_at, memory. rewrite Hm; cbn [default]. rewrite Hc.
  rewrite (proj2 (Z.leb_le 0 _)), (proj2 (Z.leb_le _ (length m))) by lia. cbn [andb].
  eexists. split; [reflexivity|]. split; [|done]. split; simpl; [done| | |done].
  - eexists. split; [reflexivity|]. split.
    + rewrite !length_app, length_take, length_drop. lia.
    + rewrite app_assoc, Hbs, take_app_length'; [done|]. rewrite length_app. lia.
  - lia.
Qed.

Section WithAllocator.
Context `{Alloc : Allocator}.

Lemma pb_realloc_spec h pb bs size h' pb' ok :
  writing pb bs -> mem_size pb <= size -> pb_realloc h pb size = (h', pb', ok) ->
  if ok then writing pb' bs /\ mem_size pb' = size /\ bytes_used pb' = bytes_used pb
  else head_ptr pb' = None.
Proof.
  intros [Hr (m & Hm & Hl & Hbs) Hu Hc] Hs. unfold pb_realloc, sge_realloc, memory.
  rewrite Hm; cbn [default]. destruct (alloc h size) as [h1 [fresh|]] eqn:E; intros [= <- <- <-].
  2:{ done. }
  apply alloc_length in E. simpl. split; [|done].
  split; simpl; [done| |lia|done]. eexists. split; [reflexivity|]. split.
  - rewrite length_app, length_drop. lia.
  - rewrite take_app_le by lia. done.
Qed.

(** The outcome of a packing routine that appends [new]: success, or no memory and
    the buffer is gone. *)
Definition appends (pb : sge_pack_buffer) (bs new : list Z)
    (res : outcome (heap * sge_pack_buffer * Z)) : Prop :=
  match res with
  | Ok (h', pb', ret) =>
      (ret = PACK_SUCCESS /\ writing pb' (bs ++ new) /\
       bytes_used pb' = bytes_used pb + length new /\ mem_size pb <= mem_size pb') \/
      (ret = PACK_ENOMEM /\ head_ptr pb' = None)
  | _ => False
  end.

(** Reallocation if necessary, then the copy. *)
Lemma grow_and_put h pb bs new (c : bool) size need :
  writing pb bs -> need = Z.of_nat (length new) -> mem_size pb <= size ->
  bytes_used pb + need <= (if c then size else mem_size pb) ->
  appends pb bs new
    (let '(h, pb, ok) := if c then pb_realloc h pb size else (h, pb, true) in
     if ok then pb ← put pb new; Ok (h, used_more pb need, PACK_SUCCESS)
     else Ok (h, pb, PACK_ENOMEM)).
Proof.
  intros Hw -> Hs Hfit. destruct c.
  - destruct (pb_realloc h pb size) as [[h1 pb1] ok] eqn:E.
    apply (pb_realloc_spec _ _ _ _ _ _ _ Hw Hs) in E. destruct ok; [|by right].
    destruct E as (Hw1 & Hm1 & Hu1).
    destruct (put_spec pb1 bs new Hw1 ltac:(lia)) as (pb2 & -> & Hw2 & Hm2 & Hu2).
    left. simpl. split; [done|]. split; [done|]. lia.
  - destruct (put_spec pb bs new Hw ltac:(lia)) as (pb2 & -> & Hw2 & Hm2 & Hu2).
    left. simpl. split; [done|]. split; [done|]. lia.
Qed.

Lemma pack_fixed_spec h pb bs new need :
  writing pb bs -> need = Z.of_nat (length new) -> need <= CHUNK ->
  appends pb bs new (pack_fixed h pb need new).
Proof.
  intros Hw Hn Hc. pose proof (wr_used _ _ Hw). unfold pack_fixed. rewrite (wr_real _ _ Hw).
  unfold CHUNK in *. apply grow_and_put; [done|done|lia|].
  destruct (mem_size pb <? bytes_used pb + need) eqn:E; lia.
Qed.

Lemma grow_size_spec (fuel : nat) size want :
  (want - size) / CHUNK + 1 <= Z.of_nat fuel ->
  size <= grow_size fuel size want /\ want <= grow_size fuel size want.
Proof.
  unfold CHUNK. revert size. induction fuel as [|fuel IH]; intros size Hf; simpl.
  - pose proof (Z.div_mod (want - size) 1048576 ltac:(lia)).
    pose proof (Z.mod_pos_bound (want - size) 1048576 ltac:(lia)). lia.
  - destruct (size <? want) eqn:E; [|lia].
    destruct (IH (size + CHUNK)) as [H1 H2]; unfold CHUNK in *; [|lia].
    replace (want - (size + 1048576)) with (want - size + (-1) * 1048576) by lia.
    rewrite Z.div_add by lia. lia.
Qed.

Definition str_bytes (str : option (list Z)) : list Z := default [] str ++ [0].

Lemma packstr_spec h pb bs str :
  writing pb bs -> appends pb bs (str_bytes str) (packstr h pb str).
Proof.
  intros Hw. pose proof (wr_used _ _ Hw). destruct str as [s|]; unfold str_bytes; simpl default.
  - unfold packstr. rewrite (wr_real _ _ Hw). cbv zeta.
    set (want := bytes_used pb + (length s + 1)%Z).
    destruct (grow_size_spec (grow_fuel (mem_size pb) want) (mem_size pb) want) as [H1 H2].
    { unfold grow_fuel. lia. }
    apply grow_and_put; [done|rewrite length_app; simpl; lia|done|].
    destruct (mem_size pb <? want) eqn:E; subst want; lia.
  - apply pack_fixed_spec; [done|done|unfold CHUNK; lia].
Qed.

(** ** Reading *)

(** A buffer that is being read: [rest] are the bytes not consumed yet. *)
Record reading (pb : sge_pack_buffer) (rest : list Z) : Prop := {
  rd_mem : exists m, head_ptr pb = Some m /\ Z.of_nat (length m) = mem_size pb /\
                     drop (Z.to_nat (bytes_used pb)) m = rest;
  rd_used : 0 <= bytes_used pb <= mem_size pb;
  rd_cur : cur_ptr pb = bytes_used pb;
  rd_size : is_u64 (mem_size pb);
}.

Lemma reading_length pb rest :
  reading pb rest -> Z.of_nat (length rest) = mem_size pb - bytes_used pb.
Proof. intros [(m & _ & Hm & <-) Hu _ _]. rewrite length_drop. lia. Qed.

Lemma read_at_spec pb rest n :
  reading pb rest -> 0 <= n <= length rest ->
  read_at (memory pb) (cur_ptr pb) n = Ok (take (Z.to_nat n) rest).
Proof.
  intros Hr Hn. pose proof (reading_length _ _ Hr) as Hl.
  destruct Hr as [(m & Hm & Hlm & <-) Hu Hc _]. unfold read_at, memory. rewrite Hm, Hc.
  change (default [] (Some m)) with m. destruct (_ && _) eqn:E; [done|lia].
Qed.

Lemma advance_spec pb rest n :
  reading pb rest -> 0 <= n <= length rest ->
  reading (advance pb n) (drop (Z.to_nat n) rest).
Proof.
  intros Hr Hn. pose proof (reading_length _ _ Hr) as Hl.
  destruct Hr as [(m & Hm & Hlm & <-) Hu Hc Hs]. split; simpl; [|lia|lia|done].
  exists m. split; [done|]. split; [done|]. rewrite drop_drop. f_equal. lia.
Qed.

Lemma unpack_fixed_spec pb rest n :
  reading pb rest -> 0 <= n ->
  unpack_fixed pb n =
  if length rest <? n then Ok (pb, 0, PACK_FORMAT)
  else Ok (advance pb n, of_be_bytes (take (Z.to_nat n) rest), PACK_SUCCESS).
Proof.
  intros Hr Hn. pose proof (reading_length _ _ Hr) as Hl. unfold unpack_fixed.
  destruct (mem_size pb <? bytes_used pb + n) eqn:E, (length rest <? n) eqn:E'; try lia; [done|].
  rewrite (read_at_spec pb rest n Hr) by lia. done.
Qed.

Lemma unpackstr_spec h pb rest :
  reading pb rest ->
  unpackstr h pb =
  match rest with
  | [] => Ok (h, pb, None, PACK_FORMAT)
  | b :: _ =>
      if b =? 0 then Ok (h, advance pb 1, None, PACK_SUCCESS)
      else match find_nul rest with
           | None => Ok (h, pb, None, PACK_FORMAT)
           | Some k =>
               match alloc h (Z.of_nat k + 1) with
               | (h', None) => Ok (h', pb, None, PACK_ENOMEM)
               | (h', Some _) =>
                   Ok (h', advance pb (Z.of_nat k + 1), Some (take k rest), PACK_SUCCESS)
               end
           end
  end.
Proof.
  intros Hr. pose proof (reading_length _ _ Hr) as Hl. pose proof (rd_used _ _ Hr).
  pose proof (rd_size _ _ Hr) as Hs. unfold is_u64 in Hs. unfold unpackstr.
  assert (u64 (mem_size pb - bytes_used pb) = length rest) as ->.
  { unfold u64. rewrite Z.mod_small by lia. lia. }
  destruct rest as [|b rest']; [done|].
  rewrite (proj2 (Z.ltb_ge _ _)) by (simpl; lia).
  rewrite (read_at_spec pb (b :: rest') 1 Hr) by (simpl length; lia).
  change (take (Z.to_nat 1) (b :: rest')) with [b]. cbn [mbind outcome_bind].
  assert (bool_decide ([b] = [0]) = (b =? 0)) as ->.
  { destruct (b =? 0) eqn:E.
    - apply Z.eqb_eq in E as ->. done.
    - apply bool_decide_eq_false. intros [= ->]. done. }
  destruct (b =? 0); [done|].
  rewrite (read_at_spec pb (b :: rest') _ Hr) by lia. cbn [mbind outcome_bind].
  rewrite Nat2Z.id, take_ge by done. done.
Qed.

(** ** Sequences of items *)

(** What CULL packs is a sequence of these. *)
Inductive item := Int32 (i : Z) | Int64 (i : Z) | Double (bits : Z) | Str (s : option (list Z)).

Definition item_ok (it : item) : Prop :=
  match it with
  | Int32 i => is_u32 i
  | Int64 i | Double i => is_u64 i
  | Str s => Forall (fun b => 0 < b < 256) (default [] s)
  end.

Definition item_bytes (it : item) : list Z :=
  match it with
  | Int32 i => be_bytes 4 i
  | Int64 i | Double i => be_bytes 8 i
  | Str s => str_bytes s
  end.

Definition items_bytes (its : list item) : list Z := concat (map item_bytes its).

Definition pack_item (h : heap) (pb : sge_pack_buffer) (it : item) :=
  match it with
  | Int32 i => packint h pb i
  | Int64 i => packint64 h pb i
  | Double d => packdouble h pb d
  | Str s => packstr h pb s
  end.

(** Callers stop at the first code that is not [PACK_SUCCESS]. *)
Fixpoint pack_items (h : heap) (pb : sge_pack_buffer) (its : list item) :
    outcome (heap * sge_pack_buffer * Z) :=
  match its with
  | [] => Ok (h, pb, PACK_SUCCESS)
  | it :: its =>
      '(h, pb, ret) ← pack_item h pb it;
      if ret =? PACK_SUCCESS then pack_items h pb its else Ok (h, pb, ret)
  end.

(** Unpacking an item of the same kind as [it]. *)
Definition unpack_item (h : heap) (pb : sge_pack_buffer) (it : item) :
    outcome (heap * sge_pack_buffer * item * Z) :=
  match it with
  | Int32 _ => '(pb, i, ret) ← unpackint pb; Ok (h, pb, Int32 i, ret)
  | Int64 _ => '(pb, i, ret) ← unpackint64 pb; Ok (h, pb, Int64 i, ret)
  | Double _ => '(pb, i, ret) ← unpackdouble pb; Ok (h, pb, Double i, ret)
  | Str _ => '(h, pb, s, ret) ← unpackstr h pb; Ok (h, pb, Str s, ret)
  end.

Fixpoint unpack_items (h : heap) (pb : sge_pack_buffer) (shape : list item) :
    outcome (heap * sge_pack_buffer * list item * Z) :=
  match shape with
  | [] => Ok (h, pb, [], PACK_SUCCESS)
  | it :: shape =>
      '(h, pb, x, ret) ← unpack_item h pb it;
      if ret =? PACK_SUCCESS then
        '(h, pb, xs, ret) ← unpack_items h pb shape; Ok (h, pb, x :: xs, ret)
      else Ok (h, pb, [], ret)
  end.

(** An empty string comes back as a null pointer. *)
Definition unpacked (it : item) : item :=
  match it with Str (Some []) => Str None | _ => it end.

Lemma pack_item_spec h pb bs it :
  writing pb bs -> appends pb bs (item_bytes it) (pack_item h pb it).
Proof.
  intros Hw. destruct it; simpl; [| | |by apply packstr_spec];
    (apply pack_fixed_spec; [done|by rewrite be_bytes_length|unfold CHUNK, INTSIZE, DOUBLESIZE; lia]).
Qed.

Lemma pack_items_spec h pb bs its :
  writing pb bs -> appends pb bs (items_bytes its) (pack_items h pb its).
Proof.
  revert h pb bs. induction its as [|it its IH]; intros h pb bs Hw.
  { left. split; [done|]. unfold items_bytes; simpl. rewrite app_nil_r. split; [done|lia]. }
  simpl. pose proof (pack_item_spec h pb bs it Hw) as Hi.
  destruct (pack_item h pb it) as [[[h1 pb1] ret]| |]; [|done..].
  destruct Hi as [(-> & Hw1 & Hu1 & Hm1)|(-> & Hn)]; cbn [mbind outcome_bind]; [|by right].
  change (PACK_SUCCESS =? PACK_SUCCESS) with true. cbv iota.
  pose proof (IH h1 pb1 _ Hw1) as H2. unfold items_bytes in *. simpl.
  destruct (pack_items h1 pb1 its) as [[[h2 pb2] ret]| |]; [|done..].
  destruct H2 as [(-> & Hw2 & Hu2 & Hm2)|(-> & Hn)]; [left|by right].
  rewrite app_assoc, length_app. split; [done|]. split; [done|]. lia.
Qed.

Lemma unpack_fixed_be pb n v rest :
  reading pb (be_bytes n v ++ rest) -> 0 <= v < 256 ^ n ->
  unpack_fixed pb n = Ok (advance pb n, v, PACK_SUCCESS) /\ reading (advance pb n) rest.
Proof.
  intros Hr Hv. rewrite (unpack_fixed_spec _ _ _ Hr) by lia.
  rewrite (proj2 (Z.ltb_ge _ _)) by (rewrite length_app, be_bytes_length; lia).
  rewrite Nat2Z.id, take_app_length', of_be_be_bytes, Z.mod_small
    by (rewrite ?be_bytes_length; done).
  split; [done|]. pose proof (advance_spec pb _ n Hr) as Ha.
  rewrite Nat2Z.id, drop_app_length' in Ha by (by rewrite be_bytes_length). apply Ha.
  rewrite length_app, be_bytes_length. lia.
Qed.

(** Success with the item, or no memory for a string. *)
Lemma unpack_item_spec h pb it rest :
  item_ok it -> reading pb (item_bytes it ++ rest) ->
  (exists h' pb', unpack_item h pb it = Ok (h', pb', unpacked it, PACK_SUCCESS) /\
                  reading pb' rest /\ mem_size pb' = mem_size pb) \/
  (exists h' x, unpack_item h pb it = Ok (h', pb, x, PACK_ENOMEM)).
Proof.
  intros Hok Hr. destruct it as [i|i|i|s]; simpl in *.
  - destruct (unpack_fixed_be pb 4 i rest Hr Hok) as [He Hr']. left. unfold unpackint.
    change (unpack_fixed pb _) with (unpack_fixed pb 4%nat). rewrite He.
    eexists _, _. split; [reflexivity|]. done.
  - destruct (unpack_fixed_be pb 8 i rest Hr Hok) as [He Hr']. left. unfold unpackint64.
    change (unpack_fixed pb _) with (unpack_fixed pb 8%nat). rewrite He.
    eexists _, _. split; [reflexivity|]. done.
  - destruct (unpack_fixed_be pb 8 i rest Hr Hok) as [He Hr']. left. unfold unpackdouble.
    change (unpack_fixed pb _) with (unpack_fixed pb 8%nat). rewrite He.
    eexists _, _. split; [reflexivity|]. done.
  - rewrite (unpackstr_spec _ _ _ Hr). unfold str_bytes in *.
    destruct s as [[|b s]|]; simpl default in *.
    1,3: left; eexists _, _; (split; [reflexivity|]); (split; [|done]);
      apply (advance_spec _ _ 1 Hr); simpl length; lia.
    assert (Forall (fun b => b <> 0) (b :: s)) as Hnz.
    { eapply Forall_impl; [exact Hok|]. simpl. lia. }
    rewrite <- app_assoc in *. cbn [app] in *.
    assert ((b =? 0) = false) as Hb by (inversion_clear Hnz; lia). rewrite Hb.
    pose proof (find_nul_app (b :: s) rest Hnz) as Hf. cbn [app] in Hf. rewrite Hf.
    destruct (alloc h _) as [h' [m|]]; [left|right; eauto].
    change (b :: s ++ 0 :: rest) with ((b :: s) ++ [0] ++ rest).
    rewrite take_app_length'; [|done].
    eexists _, _. split; [reflexivity|]. split; [|done].
    pose proof (advance_spec pb _ (Z.of_nat (length (b :: s)) + 1) Hr) as Ha.
    replace (drop _ _) with rest in Ha; [apply Ha; simpl; rewrite length_app; simpl; lia|].
    change (b :: s ++ 0 :: rest) with ((b :: s) ++ [0] ++ rest).
    rewrite app_assoc, drop_app_length'; [done|]. rewrite length_app. simpl. lia.
Qed.

Lemma unpack_items_spec h pb its rest :
  Forall item_ok its -> reading pb (items_bytes its ++ rest) ->
  (exists h' pb', unpack_items h pb its = Ok (h', pb', map unpacked its, PACK_SUCCESS) /\
                  reading pb' rest /\ mem_size pb' = mem_size pb) \/
  (exists h' pb' x, unpack_items h pb its = Ok (h', pb', x, PACK_ENOMEM)).
Proof.
  intros Hok. revert h pb. induction Hok as [|it its Hit Hok IH]; intros h pb Hr; simpl.
  { left. eauto. }
  unfold items_bytes in *. simpl in Hr. rewrite <- app_assoc in Hr.
  destruct (unpack_item_spec h pb it _ Hit Hr) as [(h1 & pb1 & -> & Hr1 & Hm1)|(h1 & x & ->)];
    cbn [mbind outcome_bind]; [|right; eauto].
  change (PACK_SUCCESS =? PACK_SUCCESS) with true. cbv iota.
  destruct (IH h1 pb1 Hr1) as [(h2 & pb2 & -> & Hr2 & Hm2)|(h2 & pb2 & xs & ->)];
    cbn [mbind outcome_bind]; [left|right; eauto].
  eexists _, _. split; [reflexivity|]. split; [done|]. congruence.
Qed.

(** ** The header *)

Definition header_items (auth : option (list Z)) : list item :=
  [Int32 0; Int32 CULL_VERSION; Str auth].

Definition no_component_nul (auth : option (list Z)) : Prop :=
  Forall (fun b => 0 < b < 256) (default [] auth).

Lemma header_bytes_length auth :
  Z.of_nat (length (items_bytes (header_items auth))) = 9 + length (default [] auth).
Proof.
  unfold items_bytes, header_items. cbn [map concat item_bytes].
  rewrite !length_app, !be_bytes_length. unfold str_bytes. rewrite length_app. cbn [length]. lia.
Qed.

(** A packing routine whose bytes fit does not touch the allocator. *)
Lemma pack_item_fits h pb bs it :
  writing pb bs -> bytes_used pb + length (item_bytes it) <= mem_size pb ->
  exists pb', pack_item h pb it = Ok (h, pb', PACK_SUCCESS) /\ writing pb' (bs ++ item_bytes it) /\
    mem_size pb' = mem_size pb /\ bytes_used pb' = bytes_used pb + length (item_bytes it) /\
    version pb' = version pb /\ auth_info pb' = auth_info pb.
Proof.
  intros Hw Hfit.
  destruct (put_spec pb bs _ Hw Hfit) as (pb' & Hput & Hw' & Hm & Hu & Hv & Ha).
  exists (used_more pb' (length (item_bytes it))).
  assert (forall need bytes, bytes = item_bytes it -> need = Z.of_nat (length bytes) ->
    pack_fixed h pb need bytes = Ok (h, used_more pb' need, PACK_SUCCESS)) as Hfix.
  { intros need bytes -> ->. unfold pack_fixed. rewrite (wr_real _ _ Hw).
    rewrite (proj2 (Z.ltb_ge _ _)) by lia. by rewrite Hput. }
  split; [|split; [done|]; simpl; lia || (repeat split; first [done|lia])].
  destruct it as [i|i|i|[s|]]; try (apply Hfix; done).
  simpl. unfold packstr. rewrite (wr_real _ _ Hw). cbv zeta.
  simpl in Hfit, Hput. unfold str_bytes in *. simpl default in *. rewrite length_app in *.
  rewrite (proj2 (Z.ltb_ge _ _)) by (simpl in *; lia). rewrite Hput. cbn [mbind outcome_bind].
  do 3 f_equal. f_equal. simpl. lia.
Qed.

(** Either the buffer holds its header, or there was no identity. *)
Lemma init_packbuffer_spec h size with_auth component h' pb ret :
  0 <= size ->
  init_packbuffer h size false with_auth component = Ok (h', pb, ret) ->
  (ret = PACK_SUCCESS /\
   writing pb (items_bytes (header_items (if with_auth then component else None)))) \/
  (ret = PACK_AUTHINFO /\ with_auth = true /\ component = None).
Proof.
  intros Hs. unfold init_packbuffer.
  set (auth := if with_auth then component else None).
  destruct (with_auth && bool_decide (component = None)) eqn:Ea.
  { apply andb_true_iff in Ea as [-> Ec%bool_decide_eq_true]. intros [= <- <- <-]. auto. }
  set (size0 := if size =? 0 then CHUNK else _).
  assert (8 <= size0) by (unfold size0, CHUNK, INTSIZE; destruct (size =? 0) eqn:E; lia).
  set (sz := match auth with Some a => _ | None => _ end).
  assert (9 + length (default [] auth) <= sz) by (subst sz; destruct auth; simpl; lia).
  unfold sge_malloc. rewrite (proj2 (Z.eqb_neq sz 0)) by lia.
  destruct (alloc h sz) as [h1 [m|]] eqn:E; [|done]. apply alloc_length in E.
  cbn [mbind outcome_bind]. set (pb0 := PackBuffer (Some m) 0 sz 0 false CULL_VERSION auth).
  assert (writing pb0 []) as Hw0.
  { split; [done| |simpl; lia|done]. by exists m. }
  assert (forall i, length (item_bytes (Int32 i)) = 4%nat) as Hl0 by done.
  assert (Z.of_nat (length (item_bytes (Str auth))) = length (default [] auth) + 1) as Hl1.
  { simpl item_bytes. unfold str_bytes. rewrite length_app. simpl. lia. }
  unfold items_bytes, header_items. cbn [map concat]. rewrite app_nil_r.
  destruct (pack_item_fits h1 pb0 _ (Int32 0) Hw0) as (pb1 & E1 & Hw1 & Hm1 & Hu1 & Hv1 & Ha1);
    [rewrite Hl0; simpl; lia|].
  simpl pack_item in E1. rewrite E1. cbn [mbind outcome_bind].
  destruct (pack_item_fits h1 pb1 _ (Int32 CULL_VERSION) Hw1)
    as (pb2 & E2 & Hw2 & Hm2 & Hu2 & Hv2 & Ha2); [rewrite Hu1, Hm1, !Hl0; simpl; lia|].
  rewrite Hv1. simpl version. simpl pack_item in E2. rewrite E2. cbn [mbind outcome_bind].
  destruct (pack_item_fits h1 pb2 _ (Str auth) Hw2)
    as (pb3 & E3 & Hw3 & Hm3 & Hu3 & Hv3 & Ha3); [rewrite Hu2, Hm2, Hu1, Hm1, Hl1, !Hl0; simpl; lia|].
  rewrite Ha2, Ha1. simpl auth_info. simpl pack_item in E3. rewrite E3. cbn [mbind outcome_bind].
  intros [= <- <- <-]. left. split; [done|]. rewrite <- !app_assoc in Hw3. done.
Qed.

(** Reading the header back. *)
Lemma init_from_buffer_spec parse h auth rest with_auth :
  no_component_nul auth ->
  let buf := items_bytes (header_items auth) ++ rest in
  is_u64 (length buf) ->
  let auth' := match auth with Some [] => None | _ => auth end in
  (exists h' pb, init_packbuffer_from_buffer parse h buf with_auth =
      Ok (h', pb, if with_auth && negb (parse auth') then PACK_AUTHINFO else PACK_SUCCESS) /\
     reading pb rest /\ mem_size pb = length buf) \/
  (exists h' pb, init_packbuffer_from_buffer parse h buf with_auth = Ok (h', pb, PACK_ENOMEM)).
Proof.
  intros Hnul buf Hsz auth'. unfold init_packbuffer_from_buffer.
  pose proof (header_bytes_length auth) as Hlen.
  assert ((0 <? length buf) = true) as -> by (subst buf; rewrite length_app; lia).
  set (pb0 := PackBuffer (Some buf) 0 (length buf) 0 false 0 None).
  assert (reading pb0 buf) as Hr0.
  { split; [exists buf; by rewrite drop_0|simpl; lia|done|done]. }
  subst buf. unfold items_bytes, header_items in Hr0. cbn [map concat] in Hr0.
  rewrite app_nil_r, <- !app_assoc in Hr0.
  destruct (unpack_fixed_be pb0 4 0 _ Hr0 ltac:(lia)) as [E1 Hr1].
  change (unpackint pb0) with (unpack_fixed pb0 4%nat). rewrite E1. cbn [mbind outcome_bind].
  cbn [negb Z.eqb PACK_SUCCESS].
  destruct (unpack_fixed_be _ 4 CULL_VERSION _ Hr1 ltac:(by compute)) as [E2 Hr2].
  set (pb1 := advance pb0 _) in *.
  change (unpackint pb1) with (unpack_fixed pb1 4%nat). rewrite E2. cbn [mbind outcome_bind].
  cbn [negb Z.eqb PACK_SUCCESS]. set (pb2 := advance pb1 _) in *.
  destruct (unpack_item_spec h pb2 (Str auth) rest Hnul Hr2)
    as [(h3 & pb3 & E3 & Hr3 & Hm3)|(h3 & x & E3)]; simpl in E3.
  - destruct (unpackstr h pb2) as [[[[h4 pb4] s] ret]| |]; [|done..].
    cbn [mbind outcome_bind] in E3. injection E3 as -> -> Hx ->. cbn [mbind outcome_bind].
    cbn [negb Z.eqb PACK_SUCCESS]. left.
    change (CULL_VERSION =? CULL_VERSION) with true. cbn [negb orb].
    assert (s = auth') as ->.
    { destruct auth as [[|]|]; simpl in Hx; injection Hx; done. }
    eexists h3, _. split.
    { destruct (with_auth && negb (parse auth')); reflexivity. }
    destruct Hr3 as [Hmem Hu Hc Hsize]. split; [|simpl; rewrite Hm3; simpl; unfold items_bytes, header_items; cbn [map concat item_bytes]; rewrite !app_nil_r, <- ?app_assoc; done].
    split; simpl; done.
  - destruct (unpackstr h pb2) as [[[[h4 pb4] s] ret]| |]; [|done..].
    cbn [mbind outcome_bind] in E3. injection E3 as -> -> _ ->. right. eauto.
Qed.

(** ** Arbitrary input *)

Definition read_ok (res : outcome (heap * sge_pack_buffer * Z)) : Prop :=
  match res with
  | Ok (_, pb, ret) => ret = PACK_SUCCESS -> exists rest, reading pb rest
  | _ => False
  end.

Lemma unpack_item_safe h pb it rest :
  reading pb rest ->
  exists h' pb' x ret, unpack_item h pb it = Ok (h', pb', x, ret) /\ exists rest', reading pb' rest'.
Proof.
  intros Hr. destruct it as [i|i|i|s]; simpl.
  1-3: unfold unpackint, unpackint64, unpackdouble; rewrite (unpack_fixed_spec _ _ _ Hr)
    by (unfold INTSIZE, DOUBLESIZE; lia);
    destruct (_ <? _) eqn:E; cbn [mbind outcome_bind]; eexists _, _, _, _;
    (split; [reflexivity|]); [by exists rest|];
    eexists; apply (advance_spec _ _ _ Hr); unfold INTSIZE, DOUBLESIZE in *; lia.
  rewrite (unpackstr_spec _ _ _ Hr). destruct rest as [|b rest].
  { eexists _, _, _, _. split; [reflexivity|]. eauto. }
  destruct (b =? 0).
  { eexists _, _, _, _. split; [reflexivity|]. eexists.
    apply (advance_spec _ _ 1 Hr). simpl. lia. }
  destruct (find_nul (b :: rest)) as [k|] eqn:E.
  2:{ eexists _, _, _, _. split; [reflexivity|]. eauto. }
  apply find_nul_lt in E.
  destruct (alloc h _) as [h' [m|]]; (eexists _, _, _, _; split; [reflexivity|]); [|eauto].
  eexists. apply (advance_spec _ _ _ Hr). lia.
Qed.

Lemma unpack_items_safe h pb shape rest :
  reading pb rest -> exists res, unpack_items h pb shape = Ok res.
Proof.
  revert h pb rest. induction shape as [|it shape IH]; intros h pb rest Hr; simpl; [eauto|].
  destruct (unpack_item_safe h pb it rest Hr) as (h1 & pb1 & x & ret & -> & rest1 & Hr1).
  cbn [mbind outcome_bind]. destruct (ret =? PACK_SUCCESS); [|eauto].
  destruct (IH h1 pb1 rest1 Hr1) as ([[[h2 pb2] xs] ret2] & ->). cbn [mbind outcome_bind]. eauto.
Qed.

Lemma init_from_buffer_safe parse h buf with_auth :
  is_u64 (length buf) -> read_ok (init_packbuffer_from_buffer parse h buf with_auth).
Proof.
  intros Hsz. unfold init_packbuffer_from_buffer. destruct (0 <? length buf) eqn:E0.
  2:{ intros _. exists []. destruct buf; [|simpl in E0; lia].
      split; [by exists []|simpl; lia|done|done]. }
  set (pb0 := PackBuffer (Some buf) 0 (length buf) 0 false 0 None).
  assert (reading pb0 buf) as Hr0.
  { split; [exists buf; by rewrite drop_0|simpl; lia|done|done]. }
  clearbody pb0.
  destruct (unpack_item_safe h pb0 (Int32 0) _ Hr0) as (h1 & pb1 & x1 & ret1 & E1 & r1 & Hr1).
  simpl in E1. destruct (unpackint pb0) as [[[pb1' pad] ret1']| |]; [|done..].
  injection E1 as <- -> _ ->. cbn [mbind outcome_bind]. destruct (ret1 =? PACK_SUCCESS) eqn:S1;
    cbn [negb]; [|intros ->; done].
  destruct (unpack_item_safe h pb1 (Int32 0) _ Hr1) as (h2 & pb2 & x2 & ret2 & E2 & r2 & Hr2).
  simpl in E2. destruct (unpackint pb1) as [[[pb2' vers] ret2']| |]; [|done..].
  injection E2 as <- -> _ ->. cbn [mbind outcome_bind]. destruct (ret2 =? PACK_SUCCESS) eqn:S2;
    cbn [negb]; [|intros ->; done].
  destruct (unpack_item_safe h pb2 (Str None) _ Hr2) as (h3 & pb3 & x3 & ret3 & E3 & r3 & Hr3).
  simpl in E3. destruct (unpackstr h pb2) as [[[[h3' pb3'] auth] ret3']| |]; [|done..].
  injection E3 as -> -> _ ->. cbn [mbind outcome_bind]. destruct (ret3 =? PACK_SUCCESS) eqn:S3;
    cbn [negb]; [|intros ->; done].
  destruct (negb (pad =? 0) || _); [done|]. destruct (with_auth && _); [done|].
  intros _. exists r3. destruct Hr3. by split.
Qed.

(** ** The properties *)

(** C4: end to end, for every allocator: what is packed into a fresh buffer (header
    with version and identity, then any sequence of integers, doubles and strings)
    comes back from its bytes unchanged and in order and leaves no byte behind; the
    only change is that an empty string returns as a null pointer.  The reader can
    fail in one way: no memory for a string. *)
Theorem pack_unpack_roundtrip (parse : option (list Z) -> bool) (size : Z) (with_auth : bool)
    (component : option (list Z)) (its : list item) (h h1 h2 h3 : heap)
    (pb1 pb2 : sge_pack_buffer) :
  0 <= size -> no_component_nul component -> Forall item_ok its ->
  (forall a, parse a = true) ->
  init_packbuffer h size false with_auth component = Ok (h1, pb1, PACK_SUCCESS) ->
  pack_items h1 pb1 its = Ok (h2, pb2, PACK_SUCCESS) ->
  is_u64 (bytes_used pb2) ->
  let buf := take (Z.to_nat (bytes_used pb2)) (memory pb2) in
  (exists h4 pb3 h5 pb4,
     init_packbuffer_from_buffer parse h3 buf with_auth = Ok (h4, pb3, PACK_SUCCESS) /\
     unpack_items h4 pb3 its = Ok (h5, pb4, map unpacked its, PACK_SUCCESS) /\
     bytes_used pb4 = mem_size pb4) \/
  (exists h4 pb3, init_packbuffer_from_buffer parse h3 buf with_auth = Ok (h4, pb3, PACK_ENOMEM)) \/
  (exists h4 pb3 h5 pb4 x,
     init_packbuffer_from_buffer parse h3 buf with_auth = Ok (h4, pb3, PACK_SUCCESS) /\
     unpack_items h4 pb3 its = Ok (h5, pb4, x, PACK_ENOMEM)).
Proof.
  intros Hs Hnul Hok Hparse Hinit Hpack Hsz buf.
  apply init_packbuffer_spec in Hinit as [[_ Hw]|(? & _)]; [|done..].
  set (auth := if with_auth then component else None) in *.
  pose proof (pack_items_spec h1 pb1 _ its Hw) as Hp. rewrite Hpack in Hp.
  destruct Hp as [(_ & Hw2 & _)|[? _]]; [|done].
  pose proof (writing_length _ _ Hw2) as Hlen.
  assert (buf = items_bytes (header_items auth) ++ items_bytes its) as Hbuf.
  { destruct (wr_mem _ _ Hw2) as (m & Hm & _ & Htake). unfold buf, memory.
    rewrite Hm. exact Htake. }
  rewrite Hbuf.
  assert (no_component_nul auth) as Ha by (subst auth; destruct with_auth; [done|constructor]).
  destruct (init_from_buffer_spec parse h3 auth (items_bytes its) with_auth Ha)
    as [(h4 & pb3 & -> & Hr & Hm)|(h4 & pb3 & ->)]; [by rewrite Hlen| |right; left; eauto].
  rewrite Hparse. rewrite andb_false_r.
  rewrite <- (app_nil_r (items_bytes its)) in Hr.
  destruct (unpack_items_spec h4 pb3 its [] Hok Hr) as [(h5 & pb4 & E & Hr4 & Hm4)|(h5 & pb4 & x & E)].
  - left. exists h4, pb3, h5, pb4. split; [done|]. split; [done|].
    pose proof (reading_length _ _ Hr4) as Hl. simpl in Hl. lia.
  - right; right. exists h4, pb3, h5, pb4, x. done.
Qed.

(** packing into a buffer never writes outside it and never loses data: the bytes
    of the items are appended, or memory ran out.  Counting mode touches no memory
    and counts exactly the bytes a real buffer would use. *)
Theorem packing_appends_and_counts (h : heap) (pb pbc : sge_pack_buffer) (bs : list Z)
    (its : list item) :
  writing pb bs -> just_count pbc = true ->
  (exists h' pb' ret, pack_items h pb its = Ok (h', pb', ret) /\
     (ret = PACK_SUCCESS ->
      writing pb' (bs ++ items_bytes its) /\
      bytes_used pb' = bytes_used pb + length (items_bytes its)) /\
     (ret <> PACK_SUCCESS -> ret = PACK_ENOMEM /\ head_ptr pb' = None)) /\
  pack_items h pbc its = Ok (h, used_more pbc (length (items_bytes its)), PACK_SUCCESS).
Proof.
  intros Hw Hc. split.
  - pose proof (pack_items_spec h pb bs its Hw) as Hp.
    destruct (pack_items h pb its) as [[[h' pb'] ret]| |]; [|done..].
    exists h', pb', ret. split; [done|]. destruct Hp as [(-> & ? & ? & ?)|(-> & ?)]; done.
  - revert pbc Hc. induction its as [|it its IH]; intros pbc Hc; simpl.
    + unfold used_more. rewrite Z.add_0_r. by destruct pbc.
    + assert (pack_item h pbc it = Ok (h, used_more pbc (length (item_bytes it)), PACK_SUCCESS))
        as ->.
      { destruct it as [| | |[s|]]; simpl; unfold packint, packint64, packdouble, packstr,
          pack_fixed; rewrite Hc; try done.
        unfold str_bytes. rewrite length_app, Nat2Z.inj_add. done. }
      cbn [mbind outcome_bind]. change (PACK_SUCCESS =? PACK_SUCCESS) with true. cbv iota.
      rewrite IH by done. unfold items_bytes; simpl. unfold used_more; simpl.
      rewrite length_app, Nat2Z.inj_add, Z.add_assoc. done.
Qed.

(** C28: whatever bytes a message consists of, opening it and unpacking any sequence
    of items from it reads only inside the message. *)
Theorem unpacking_stays_inside (parse : option (list Z) -> bool) (h : heap) (buf : list Z)
    (with_auth : bool) (shape : list item) :
  is_u64 (length buf) ->
  exists h1 pb ret, init_packbuffer_from_buffer parse h buf with_auth = Ok (h1, pb, ret) /\
    (ret = PACK_SUCCESS -> exists res, unpack_items h1 pb shape = Ok res).
Proof.
  intros Hsz. pose proof (init_from_buffer_safe parse h buf with_auth Hsz) as Hi.
  destruct (init_packbuffer_from_buffer parse h buf with_auth) as [[[h1 pb] ret]| |]; [|done..].
  exists h1, pb, ret. split; [done|]. intros Hret. destruct (Hi Hret) as (rest & Hr).
  by apply (unpack_items_safe h1 pb shape rest).
Qed.

(** [packbuf] appends up to [CHUNK] bytes correctly; a larger block behind a full
    buffer is copied past the end of the memory, because the buffer grows by one
    [CHUNK] only. *)
Theorem packbuf_bounds (h : heap) (pb : sge_pack_buffer) (bs buf : list Z) :
  writing pb bs -> mem_size pb + CHUNK < 4294967296 ->
  length buf + mem_size pb < 4294967296 ->
  (length buf <= CHUNK -> appends pb bs buf (packbuf h pb buf)) /\
  (CHUNK < length buf -> bytes_used pb = mem_size pb ->
   (exists h' m, alloc h (mem_size pb + CHUNK) = (h', Some m)) ->
   packbuf h pb buf = OutOfBounds).
Proof.
  intros Hw Hm Hb. pose proof (wr_used _ _ Hw) as Hu. unfold CHUNK in *.
  assert (forall k, 0 <= k < 4294967296 -> u32 k = k) as Hk by (intros; apply u32_small; lia).
  unfold packbuf. rewrite (wr_real _ _ Hw), (Hk (mem_size pb)), (Hk (bytes_used pb)), Hk by lia.
  unfold CHUNK. split.
  - intros Hl. apply grow_and_put; [done|done|lia|].
    destruct (mem_size pb <? length buf + bytes_used pb) eqn:E; lia.
  - intros Hl Hfull (h' & m & Hal). rewrite (proj2 (Z.ltb_lt _ _)) by lia.
    destruct (pb_realloc h pb (mem_size pb + 1048576)) as [[h1 pb1] ok] eqn:E.
    assert (ok = true) as ->.
    { unfold pb_realloc, sge_realloc in E. rewrite Hal in E. injection E. done. }
    destruct (pb_realloc_spec h pb bs (mem_size pb + 1048576) h1 pb1 true Hw ltac:(lia) E)
      as (Hw1 & Hm1 & Hu1).
    unfold put, write_at. rewrite (wr_cur _ _ Hw1). destruct (wr_mem _ _ Hw1) as (m1 & E1 & Hl1 & _).
    unfold memory. rewrite E1. change (default [] (Some m1)) with m1.
    destruct (_ && _) eqn:Eb; [lia|done].
Qed.

End WithAllocator.

(** ** Witnesses *)

(** An allocator that always has memory, filled with zeros. *)
Definition calloc : Allocator.
Proof.
  refine {| heap := unit; alloc h n := (h, if 0 <=? n then Some (repeat 0 (Z.to_nat n)) else None) |}.
  intros h n h' m [= <- Hm]. destruct (0 <=? n) eqn:E; [|done]. injection Hm as <-.
  rewrite repeat_length. lia.
Defined.

Definition sample_items : list item := [Int32 7; Str (Some [104; 105]); Str (Some []); Int64 300].

Definition fresh : outcome (heap (Allocator := calloc) * sge_pack_buffer * Z) :=
  init_packbuffer (Alloc := calloc) tt 64 false true (Some [97]).

Definition fresh_pb : sge_pack_buffer :=
  match fresh with Ok (_, pb, _) => pb | _ => zero_pb end.

Definition packed_pb : sge_pack_buffer :=
  match pack_items (Alloc := calloc) tt fresh_pb sample_items with
  | Ok (_, pb, _) => pb
  | _ => zero_pb
  end.

Lemma pack_unpack_roundtrip_witness :
  let buf := take (Z.to_nat (bytes_used packed_pb)) (memory packed_pb) in
  (exists h4 pb3 h5 pb4,
     init_packbuffer_from_buffer (Alloc := calloc) (fun _ => true) tt buf true =
       Ok (h4, pb3, PACK_SUCCESS) /\
     unpack_items h4 pb3 sample_items = Ok (h5, pb4, map unpacked sample_items, PACK_SUCCESS) /\
     bytes_used pb4 = mem_size pb4) \/
  (exists h4 pb3, init_packbuffer_from_buffer (Alloc := calloc) (fun _ => true) tt buf true =
     Ok (h4, pb3, PACK_ENOMEM)) \/
  (exists h4 pb3 h5 pb4 x,
     init_packbuffer_from_buffer (Alloc := calloc) (fun _ => true) tt buf true =
       Ok (h4, pb3, PACK_SUCCESS) /\
     unpack_items h4 pb3 sample_items = Ok (h5, pb4, x, PACK_ENOMEM)).
Proof.
  apply (pack_unpack_roundtrip (Alloc := calloc) (fun _ => true) 64 true (Some [97])
           sample_items tt tt tt tt fresh_pb packed_pb).
  - lia.
  - repeat constructor.
  - unfold sample_items. repeat (apply List.Forall_cons; [cbn; unfold is_u32, is_u64;
      try lia; repeat (apply List.Forall_cons; [lia|]); constructor|]). constructor.
  - reflexivity.
  - vm_compute. reflexivity.
  - vm_compute. reflexivity.
  - vm_compute. split; [discriminate|reflexivity].
Defined.

Lemma fresh_writing : writing fresh_pb (items_bytes (header_items (Some [97]))).
Proof.
  split; [done| |vm_compute; split; discriminate|reflexivity].
  exists (memory fresh_pb). split; [|split]; vm_compute; reflexivity.
Qed.

Lemma packing_appends_and_counts_witness :
  pack_items (Alloc := calloc) tt (PackBuffer None 0 0 0 true 0 None) sample_items =
  Ok (tt, used_more (PackBuffer None 0 0 0 true 0 None) (length (items_bytes sample_items)),
      PACK_SUCCESS).
Proof.
  apply (packing_appends_and_counts (Alloc := calloc) tt fresh_pb _
           (items_bytes (header_items (Some [97]))) sample_items fresh_writing).
  reflexivity.
Defined.

Lemma unpacking_stays_inside_witness :
  exists h1 pb ret,
    init_packbuffer_from_buffer (Alloc := calloc) (fun _ => true) tt [0; 0; 0; 0; 16; 2] true =
      Ok (h1, pb, ret) /\
    (ret = PACK_SUCCESS -> exists res, unpack_items h1 pb [Str None] = Ok res).
Proof.
  apply (unpacking_stays_inside (Alloc := calloc)). unfold is_u64. simpl. lia.
Defined.

Lemma packbuf_bounds_witness :
  appends (Alloc := calloc) fresh_pb (items_bytes (header_items (Some [97]))) [1; 2; 3]
    (packbuf (Alloc := calloc) tt fresh_pb [1; 2; 3]).
Proof.
  apply (packbuf_bounds (Alloc := calloc) tt fresh_pb _ [1; 2; 3] fresh_writing);
    vm_compute; (reflexivity || discriminate).
Defined.

End PackProps.
