(* ===== verification/FifoLock.v ===== *)
(** The FIFO reader/writer lock ([libs/uti/sge_lock_fifo.cc]).

    Every function runs under the lock's mutex from one [pthread_cond_wait] to the
    next, so an execution is a sequence of such atomic sections.  A section is an
    executable function on the lock; [None] is an access outside the queue array.  A
    thread that waits on a condition may run its next section at any time: POSIX allows
    a spurious wake-up, and a signal is nothing more than that.  Condition signals are
    therefore not part of the state. *)

From S2P Require Import Prelude.

Module FifoLock.

(** [MAX_TOTAL_COMPONENT_THREADS]. *)
Definition FIFO_LOCK_QUEUE_LENGTH : Z := 512.

Record sge_fifo_elem := Elem { is_reader : bool; is_signaled : bool }.

Record sge_fifo_rw_lock := Lock {
  array : list sge_fifo_elem;
  head : Z;
  tail : Z;
  size : Z;
  reader_active : Z;
  reader_waiting : Z;
  writer_active : Z;
  writer_waiting : Z;
  waiting : Z;
  signaled : Z;
}.

Definition sge_fifo_lock_init : sge_fifo_rw_lock :=
  Lock (replicate (Z.to_nat FIFO_LOCK_QUEUE_LENGTH) (Elem false false))
    0 0 FIFO_LOCK_QUEUE_LENGTH 0 0 0 0 0 0.

(** ** Field updates *)

Definition with_queue (l : sge_fifo_rw_lock) (a : list sge_fifo_elem) (hd tl : Z) :=
  Lock a hd tl (size l) (reader_active l) (reader_waiting l) (writer_active l)
    (writer_waiting l) (waiting l) (signaled l).

(** [reader_active += d] or [writer_active += d]. *)
Definition add_active (l : sge_fifo_rw_lock) (r : bool) (d : Z) :=
  Lock (array l) (head l) (tail l) (size l)
    (if r then reader_active l + d else reader_active l) (reader_waiting l)
    (if r then writer_active l else writer_active l + d) (writer_waiting l)
    (waiting l) (signaled l).

(** [reader_waiting += d] or [writer_waiting += d]. *)
Definition add_waiting (l : sge_fifo_rw_lock) (r : bool) (d : Z) :=
  Lock (array l) (head l) (tail l) (size l)
    (reader_active l) (if r then reader_waiting l + d else reader_waiting l)
    (writer_active l) (if r then writer_waiting l else writer_waiting l + d)
    (waiting l) (signaled l).

Definition add_outside (l : sge_fifo_rw_lock) (d : Z) :=
  Lock (array l) (head l) (tail l) (size l) (reader_active l) (reader_waiting l)
    (writer_active l) (writer_waiting l) (waiting l + d) (signaled l).

Definition add_signaled (l : sge_fifo_rw_lock) (d : Z) :=
  Lock (array l) (head l) (tail l) (size l) (reader_active l) (reader_waiting l)
    (writer_active l) (writer_waiting l) (waiting l) (signaled l + d).

(** ** Array accesses *)

Definition slot (a : list sge_fifo_elem) (i : Z) : option sge_fifo_elem :=
  if 0 <=? i then a !! Z.to_nat i else None.

Definition store (a : list sge_fifo_elem) (i : Z) (e : sge_fifo_elem) :
    option (list sge_fifo_elem) :=
  _ ← slot a i; Some (<[Z.to_nat i := e]> a).

(** [i++; if (i == size) i = 0]. *)
Definition next_index (l : sge_fifo_rw_lock) (i : Z) : Z :=
  if i + 1 =? size l then 0 else i + 1.

(** [array[head].is_signaled = true; signaled++]. *)
Definition signal_head (l : sge_fifo_rw_lock) : option sge_fifo_rw_lock :=
  e ← slot (array l) (head l);
  a ← store (array l) (head l) (Elem (is_reader e) true);
  Some (add_signaled (with_queue l a (head l) (tail l)) 1).

(** ** Atomic sections *)

(** Where a thread is: between calls, waiting for room in the queue, waiting at an
    index of the queue, or holding the lock. *)
Inductive phase := Idle | Outside (r : bool) | Queued (r : bool) (index : Z) | Holding (r : bool).

Definition queue_full (l : sge_fifo_rw_lock) : bool :=
  reader_waiting l + writer_waiting l =? FIFO_LOCK_QUEUE_LENGTH.

Definition must_queue (l : sge_fifo_rw_lock) (r : bool) : bool :=
  if r then 0 <? writer_active l + writer_waiting l + signaled l
  else 0 <? writer_active l + reader_active l + signaled l.

(** Behind the loop that waits for room: take the lock, or append to the queue. *)
Definition enter (l : sge_fifo_rw_lock) (r : bool) : option (sge_fifo_rw_lock * phase) :=
  if must_queue l r then
    let index := tail l in
    a ← store (array l) index (Elem r false);
    Some (add_waiting (with_queue l a (head l) (next_index l index)) r 1, Queued r index)
  else Some (add_active l r 1, Holding r).

Definition sge_fifo_lock_internal (l : sge_fifo_rw_lock) (r : bool) :
    option (sge_fifo_rw_lock * phase) :=
  if queue_full l then Some (add_outside l 1, Outside r) else enter l r.

(** Waking up in the loop that waits for room. *)
Definition outside_wakes (l : sge_fifo_rw_lock) (r : bool) : option (sge_fifo_rw_lock * phase) :=
  sge_fifo_lock_internal (add_outside l (-1)) r.

(** The end of the wait in the queue: leave it, pass the signal on to a reader behind. *)
Definition leave_queue (l : sge_fifo_rw_lock) (r : bool) : option (sge_fifo_rw_lock * phase) :=
  let l := add_signaled l (-1) in
  let index := head l in
  let l := with_queue l (array l) (next_index l index) (tail l) in
  e ← slot (array l) index;
  l ← (if is_reader e && (0 <? reader_waiting l) then
         n ← slot (array l) (head l);
         if is_reader n then signal_head l else Some l
       else Some l);
  a ← store (array l) index (Elem false false);
  Some (add_active (with_queue l a (head l) (tail l)) r 1, Holding r).

(** Waking up at [index] of the queue. *)
Definition queue_wakes (l : sge_fifo_rw_lock) (r : bool) (index : Z) :
    option (sge_fifo_rw_lock * phase) :=
  let l := add_waiting l r (-1) in
  e ← slot (array l) index;
  if is_signaled e then leave_queue l r
  else Some (add_waiting l r 1, Queued r index).

(** [Idle] is the answer [false]. *)
Definition sge_fifo_try_lock (l : sge_fifo_rw_lock) (r : bool) :
    option (sge_fifo_rw_lock * phase) :=
  let someone_blocks_us :=
    if r then 0 <? writer_active l + writer_waiting l
    else 0 <? writer_active l + reader_active l + signaled l in
  if queue_full l || someone_blocks_us then Some (l, Idle)
  else sge_fifo_lock_internal l r.

Definition sge_fifo_ulock (l : sge_fifo_rw_lock) (r : bool) : option (sge_fifo_rw_lock * phase) :=
  let l := add_active l r (-1) in
  l ← (if (reader_active l + writer_active l + signaled l =? 0) &&
          (0 <? reader_waiting l + writer_waiting l)
       then signal_head l else Some l);
  Some (l, Idle).

Definition sge_fifo_get_details (l : sge_fifo_rw_lock) : Z * Z * Z * Z * Z * Z :=
  (reader_active l, reader_waiting l, writer_active l, writer_waiting l, waiting l, signaled l).

(** ** Interleavings

    A thread here is one acquisition: a thread that holds several read locks counts
    once for each. *)

Record state := State { lock : sge_fifo_rw_lock; pc : nat -> phase }.

Definition initial : state := State sge_fifo_lock_init (fun _ => Idle).

Definition upd (f : nat -> phase) (t : nat) (p : phase) : nat -> phase :=
  fun t' => if decide (t' = t) then p else f t'.

(** The section thread [t] runs next; [Idle] threads choose what to call. *)
Inductive call := CallLock (r : bool) | CallTry (r : bool) | Continue.

Definition section (l : sge_fifo_rw_lock) (p : phase) (c : call) :
    option (option (sge_fifo_rw_lock * phase)) :=
  match p, c with
  | Idle, CallLock r => Some (sge_fifo_lock_internal l r)
  | Idle, CallTry r => Some (sge_fifo_try_lock l r)
  | Outside r, Continue => Some (outside_wakes l r)
  | Queued r i, Continue => Some (queue_wakes l r i)
  | Holding r, Continue => Some (sge_fifo_ulock l r)
  | _, _ => None
  end.

Inductive step : state -> nat -> state -> Prop :=
  | step_section s t c l' p' :
      section (lock s) (pc s t) c = Some (Some (l', p')) ->
      step s t (State l' (upd (pc s) t p')).

Inductive reachable : state -> Prop :=
  | reachable_initial : reachable initial
  | reachable_step s t s' : reachable s -> step s t s' -> reachable s'.

End FifoLock.
