(* ===== verification/FifoLockProps.v ===== *)
(** The FIFO lock: an abstract queue and a set of holders that every interleaving
    respects; mutual exclusion, order, absence of lost signals and array bounds
    follow. *)

From S2P Require Import Prelude FifoLock.
Import FifoLock.

Module FifoLockProps.

Notation N := FIFO_LOCK_QUEUE_LENGTH.

Lemma N_pos : 0 < N.
Proof. reflexivity. Qed.

(** ** Counting *)

Definition count (b : bool) (l : list (nat * bool)) : Z :=
  length (List.filter (fun p => Bool.eqb p.2 b) l).

Lemma count_cons b t r l : count b ((t, r) :: l) = (if Bool.eqb r b then 1 else 0) + count b l.
Proof. unfold count; simpl. destruct (Bool.eqb r b); simpl; lia. Qed.

Lemma count_app b l1 l2 : count b (l1 ++ l2) = count b l1 + count b l2.
Proof. unfold count. rewrite List.filter_app, length_app. lia. Qed.

Lemma count_snoc b l t r :
  count b (l ++ [(t, r)]) = count b l + (if Bool.eqb r b then 1 else 0).
Proof. rewrite count_app, count_cons. change (count b []) with 0. lia. Qed.

Lemma count_nonneg b l : 0 <= count b l.
Proof. unfold count. lia. Qed.

Lemma count_perm b l1 l2 : l1 ≡ₚ l2 -> count b l1 = count b l2.
Proof.
  induction 1 as [|[t r] l1 l2 _ IH|[t1 r1] [t2 r2] l|l1 l2 l3 _ IH1 _ IH2];
    rewrite ?count_cons; lia.
Qed.

Lemma count_length l : count true l + count false l = length l.
Proof.
  induction l as [|[t r] l IH]; [done|]. rewrite !count_cons. simpl length.
  destruct r; simpl; lia.
Qed.

(** ** The ring *)

(** Index of the [k]-th thread of the queue. *)
Definition pos (h k : Z) : Z := if h + k <? N then h + k else h + k - N.

Lemma pos_range h k : 0 <= h < N -> 0 <= k <= N -> 0 <= pos h k < N.
Proof. unfold pos. intros. destruct (h + k <? N) eqn:E; lia. Qed.

Lemma pos_inj h j k : 0 <= h < N -> 0 <= j < N -> 0 <= k < N -> pos h j = pos h k -> j = k.
Proof. unfold pos. intros. destruct (h + j <? N) eqn:E, (h + k <? N) eqn:E'; lia. Qed.

Lemma pos_0 h : 0 <= h < N -> pos h 0 = h.
Proof. unfold pos. intros. destruct (h + 0 <? N) eqn:E; lia. Qed.

Lemma pos_pos h k : 0 <= h < N -> 0 <= k < N -> pos (pos h 1) k = pos h (k + 1).
Proof.
  unfold pos. intros. pose proof N_pos.
  destruct (h + 1 <? N) eqn:E1, (h + (k + 1) <? N) eqn:E2;
    match goal with |- (if ?c then _ else _) = _ => destruct c eqn:E3 end; lia.
Qed.

Lemma next_index_pos l h k :
  size l = N -> 0 <= h < N -> 0 <= k < N -> next_index l (pos h k) = pos h (k + 1).
Proof.
  unfold next_index, pos. intros ->. intros.
  destruct (h + k <? N) eqn:E1, (h + (k + 1) <? N) eqn:E2;
    match goal with |- (if ?c then _ else _) = _ => destruct c eqn:E3 end; lia.
Qed.

Lemma slot_some a i e : 0 <= i -> a !! Z.to_nat i = Some e -> slot a i = Some e.
Proof. intros ? He. unfold slot. rewrite (proj2 (Z.leb_le 0 i)) by lia. done. Qed.

Lemma store_some a i e : 0 <= i < length a -> store a i e = Some (<[Z.to_nat i := e]> a).
Proof.
  intros Hi. unfold store. destruct (lookup_lt_is_Some_2 a (Z.to_nat i)) as [x Hx]; [lia|].
  by rewrite (slot_some a i x ltac:(lia) Hx).
Qed.

(** Different places of the queue are different elements of the array. *)
Lemma pos_slots_differ h j k :
  0 <= h < N -> 0 <= j < N -> 0 <= k < N -> j <> k -> Z.to_nat (pos h j) <> Z.to_nat (pos h k).
Proof.
  intros Hh Hj Hk Hjk Heq. apply Z2Nat.inj in Heq; [|by apply pos_range; lia..].
  apply pos_inj in Heq; lia.
Qed.

Lemma head_slot_differs h k :
  0 <= h < N -> 0 < k < N -> Z.to_nat h <> Z.to_nat (pos h k).
Proof. intros Hh Hk. rewrite <- (pos_0 h) at 1 by done. apply pos_slots_differ; lia. Qed.

(** Arithmetic that depends on whether the thread reads or writes. *)
Ltac by_kind r := destruct r; simpl in *; lia.

(** ** The invariant

    [q]: the threads in the queue, first come first; [hs]: the threads that hold the
    lock; the boolean says whether a thread wants to read. *)
Record inv (s : state) (q hs : list (nat * bool)) : Prop := {
  i_size : size (lock s) = N;
  i_len : Z.of_nat (length (array (lock s))) = N;
  i_head : 0 <= head (lock s) < N;
  i_count : Z.of_nat (length q) <= N;
  i_tail : tail (lock s) = pos (head (lock s)) (length q);
  i_slots : forall (k : nat) t r, q !! k = Some (t, r) ->
    array (lock s) !! Z.to_nat (pos (head (lock s)) k) =
      Some (Elem r (bool_decide (k = 0%nat) && (signaled (lock s) =? 1))) /\
    pc s t = Queued r (pos (head (lock s)) k);
  i_queued : forall t r i, pc s t = Queued r i ->
    exists k : nat, q !! k = Some (t, r) /\ i = pos (head (lock s)) k;
  i_holders : forall t r, (t, r) ∈ hs <-> pc s t = Holding r;
  i_nodup : NoDup hs;
  i_rw : reader_waiting (lock s) = count true q;
  i_ww : writer_waiting (lock s) = count false q;
  i_ra : reader_active (lock s) = count true hs;
  i_wa : writer_active (lock s) = count false hs;
  i_excl : writer_active (lock s) = 0 \/
           (writer_active (lock s) = 1 /\ reader_active (lock s) = 0);
  i_sig : signaled (lock s) = 0 \/ signaled (lock s) = 1;
  i_sig_head : signaled (lock s) = 1 ->
    exists t r q', q = (t, r) :: q' /\ writer_active (lock s) = 0 /\
                   (r = false -> reader_active (lock s) = 0);
  i_block : signaled (lock s) = 0 -> forall t r q', q = (t, r) :: q' ->
    0 < reader_active (lock s) + writer_active (lock s) /\
    (r = true -> writer_active (lock s) = 1);
}.

Lemma inv_initial : inv initial [] [].
Proof.
  split; unfold initial, sge_fifo_lock_init; cbn [lock pc array head tail size reader_active
    reader_waiting writer_active writer_waiting waiting signaled]; try done; try lia; auto.
  - intros t r. split; [set_solver|done].
  - constructor.
Qed.

Lemma upd_same f t p : upd f t p t = p.
Proof. unfold upd. by rewrite decide_True. Qed.

Lemma upd_other f t p t' : t' <> t -> upd f t p t' = f t'.
Proof. intros. unfold upd. by rewrite decide_False. Qed.

Lemma inv_nonneg s q hs : inv s q hs ->
  0 <= reader_waiting (lock s) /\ 0 <= writer_waiting (lock s) /\
  0 <= reader_active (lock s) /\ 0 <= writer_active (lock s) /\
  reader_waiting (lock s) + writer_waiting (lock s) = length q.
Proof.
  intros Hi. rewrite (i_rw _ _ _ Hi), (i_ww _ _ _ Hi), (i_ra _ _ _ Hi), (i_wa _ _ _ Hi).
  rewrite count_length. repeat split; apply count_nonneg.
Qed.

(** A thread outside the queue that does not hold the lock is in neither list. *)
Lemma fresh_not_in s q hs t :
  inv s q hs -> (forall r i, pc s t <> Queued r i) -> (forall r, pc s t <> Holding r) ->
  (forall k r, q !! k <> Some (t, r)) /\ (forall r, ~ (t, r) ∈ hs).
Proof.
  intros Hi Hq Hh. split.
  - intros k r Hk. apply (i_slots _ _ _ Hi) in Hk as [_ Hk]. by apply Hq in Hk.
  - intros r Hr. apply (i_holders _ _ _ Hi) in Hr. by apply Hh in Hr.
Qed.

(** A thread that is neither in the queue nor a holder. *)
Definition outside (p : phase) : Prop :=
  (forall r i, p <> Queued r i) /\ (forall r, p <> Holding r).

Lemma inv_add_outside s q hs d :
  inv s q hs -> inv (State (add_outside (lock s) d) (pc s)) q hs.
Proof. intros []; split; done. Qed.

Lemma upd_queued pc0 t p t' r i :
  outside p -> upd pc0 t p t' = Queued r i -> pc0 t' = Queued r i.
Proof.
  intros [Hq _] H. destruct (decide (t' = t)) as [->|].
  - rewrite upd_same in H. by apply Hq in H.
  - by rewrite upd_other in H.
Qed.

Lemma inv_pc_outside s q hs t p :
  inv s q hs -> outside (pc s t) -> outside p ->
  inv (State (lock s) (upd (pc s) t p)) q hs.
Proof.
  intros Hi [Hq Hh] Hp. destruct (fresh_not_in s q hs t Hi Hq Hh) as [Hnq Hnh].
  destruct Hi. split; cbn [lock pc]; try done.
  - intros k t' r Hk. rewrite upd_other; [by apply i_slots0|]. intros ->. by apply Hnq in Hk.
  - intros t' r i H. apply upd_queued in H; auto.
  - intros t' r. rewrite i_holders0. destruct (decide (t' = t)) as [->|].
    + rewrite upd_same. split; intros H; [by apply Hh in H|by apply (proj2 Hp) in H].
    + by rewrite upd_other.
Qed.

(** Taking the lock at once. *)
Lemma inv_take s q hs t r :
  inv s q hs -> outside (pc s t) -> must_queue (lock s) r = false ->
  inv (State (add_active (lock s) r 1) (upd (pc s) t (Holding r))) q ((t, r) :: hs) /\ q = [].
Proof.
  intros Hi [Hq Hh] Hm. destruct (fresh_not_in s q hs t Hi Hq Hh) as [Hnq Hnh].
  pose proof (inv_nonneg s q hs Hi) as Hnn. unfold must_queue in Hm.
  assert (q = []) as ->.
  { destruct q as [|[t1 r1] q1]; [done|]. exfalso.
    pose proof (i_ww _ _ _ Hi) as Hww. pose proof (i_rw _ _ _ Hi) as Hrw.
    rewrite count_cons in Hww, Hrw. pose proof (count_nonneg false q1).
    destruct (i_sig _ _ _ Hi) as [H0|H1]; [|destruct r; lia].
    destruct (i_block _ _ _ Hi H0 t1 r1 q1 eq_refl) as [Hb1 Hb2].
    destruct r, r1; simpl in *; lia. }
  split; [|done]. destruct Hi. split; cbn [lock pc]; try done.
  - intros t' r' i H. destruct (decide (t' = t)) as [->|].
    + by rewrite upd_same in H.
    + rewrite upd_other in H by done. by apply i_queued0.
  - intros t' r'. rewrite elem_of_cons. destruct (decide (t' = t)) as [->|].
    + rewrite upd_same. split; [intros [[= ->]|H]; [done|by apply Hnh in H]|intros [= ->]; auto].
    + rewrite upd_other, <- i_holders0 by done. split; [intros [[= ]|?]; done|auto].
  - constructor; [apply Hnh|done].
  - simpl. rewrite i_ra0, count_cons. destruct r; simpl; lia.
  - simpl. rewrite i_wa0, count_cons. destruct r; simpl; lia.
  - simpl. destruct r; lia.
  - intros H1. destruct r; simpl in *; lia.
Qed.

(** Joining the queue. *)
Lemma inv_queue s q hs t r :
  inv s q hs -> outside (pc s t) -> must_queue (lock s) r = true -> length q < N ->
  exists l' i, enter (lock s) r = Some (l', Queued r i) /\
    inv (State l' (upd (pc s) t (Queued r i))) (q ++ [(t, r)]) hs.
Proof.
  intros Hi [Hq Hh] Hm Hlen. destruct (fresh_not_in s q hs t Hi Hq Hh) as [Hnq Hnh].
  pose proof (inv_nonneg s q hs Hi) as Hnn. pose proof (i_head _ _ _ Hi) as Hhd.
  pose proof (pos_range (head (lock s)) (length q) Hhd ltac:(lia)) as Hpr.
  unfold enter. rewrite Hm, (i_tail _ _ _ Hi).
  rewrite store_some by (rewrite (i_len _ _ _ Hi); done). cbn [mbind option_bind].
  do 2 eexists. split; [reflexivity|].
  rewrite next_index_pos by (first [apply (i_size _ _ _ Hi) | lia]).
  unfold must_queue in Hm. destruct Hi.
  split; cbn [lock pc with_queue add_waiting size array head tail reader_active reader_waiting
    writer_active writer_waiting waiting signaled]; try done.
  - by rewrite length_insert.
  - rewrite length_app. simpl. lia.
  - rewrite length_app. f_equal. simpl. lia.
  - intros k t' r' Hk. apply lookup_app_Some in Hk as [Hk|[Hk1 Hk2]].
    + pose proof (lookup_lt_Some _ _ _ Hk) as Hlt. destruct (i_slots0 _ _ _ Hk) as [H1 H2].
      assert (t' <> t) as Hne by (intros ->; by apply Hnq in Hk).
      rewrite upd_other by done. split; [|done]. rewrite list_lookup_insert_ne; [done|].
      intros Heq. apply Z2Nat.inj in Heq; [|lia|apply pos_range; lia].
      apply pos_inj in Heq; lia.
    + apply list_lookup_singleton_Some in Hk2 as [Hk2 [= <- <-]].
      assert (k = length q) as -> by lia. rewrite upd_same. split; [|done].
      rewrite list_lookup_insert_eq by lia. do 2 f_equal. symmetry.
      apply andb_false_iff. destruct (decide (length q = 0%nat)) as [H0|]; [right|left].
      * apply Z.eqb_neq. intros H1. destruct (i_sig_head0 H1) as (? & ? & ? & -> & _). done.
      * by apply bool_decide_eq_false.
  - intros t' r' i H. destruct (decide (t' = t)) as [->|].
    + rewrite upd_same in H. injection H as <- <-. exists (length q).
      by rewrite list_lookup_middle.
    + rewrite upd_other in H by done. apply i_queued0 in H as (k & Hk & ->).
      exists k. split; [|done]. by apply lookup_app_l_Some.
  - intros t' r'. rewrite i_holders0. destruct (decide (t' = t)) as [->|].
    + rewrite upd_same. split; [intros H; by apply Hh in H|done].
    + by rewrite upd_other.
  - rewrite count_snoc. destruct r; simpl; lia.
  - rewrite count_snoc. destruct r; simpl; lia.
  - intros H1. destruct (i_sig_head0 H1) as (t1 & r1 & q1 & -> & ?). by exists t1, r1, (q1 ++ [(t, r)]).
  - intros H0 t1 r1 q1 Heq. destruct q as [|[t2 r2] q2].
    + injection Heq as <- <- <-. simpl in *. change (count false []) with 0 in *.
      destruct r; lia.
    + injection Heq as <- <- _. by apply (i_block0 H0 t2 r2 q2).
Qed.

Lemma signal_head_some l r b :
  0 <= head l -> array l !! Z.to_nat (head l) = Some (Elem r b) ->
  signal_head l =
  Some (add_signaled (with_queue l (<[Z.to_nat (head l) := Elem r true]> (array l))
                        (head l) (tail l)) 1).
Proof.
  intros Hh Hl. unfold signal_head, store. by rewrite (slot_some _ _ _ Hh Hl).
Qed.

(** The parts of the invariant that a change of [pc] from holding to idle keeps. *)
Lemma holders_release (pc0 : nat -> phase) t r hs hs' :
  (forall t' r', (t', r') ∈ hs <-> pc0 t' = Holding r') -> NoDup hs -> hs ≡ₚ (t, r) :: hs' ->
  NoDup hs' /\ forall t' r', (t', r') ∈ hs' <-> upd pc0 t Idle t' = Holding r'.
Proof.
  intros Hh Hn Hp. assert (NoDup ((t, r) :: hs')) as Hn' by (by rewrite <- Hp).
  apply NoDup_cons in Hn' as [Hnot Hn']. split; [done|]. intros t' r'.
  assert ((t', r') ∈ hs <-> (t', r') ∈ (t, r) :: hs') as Hin by (by rewrite Hp).
  rewrite elem_of_cons, Hh in Hin. destruct (decide (t' = t)) as [->|Hne].
  - rewrite upd_same. split; [|done]. intros H. exfalso.
    assert (pc0 t = Holding r) as H1 by (apply Hh; rewrite Hp; set_solver).
    assert (pc0 t = Holding r') as H2 by (apply Hin; by right).
    rewrite H1 in H2. injection H2 as ->. done.
  - rewrite upd_other by done. rewrite Hin. split; [by right|]. intros [[= -> _]|?]; done.
Qed.

Lemma inv_unlock s q hs t r :
  inv s q hs -> pc s t = Holding r ->
  exists l' hs', sge_fifo_ulock (lock s) r = Some (l', Idle) /\ hs ≡ₚ (t, r) :: hs' /\
    inv (State l' (upd (pc s) t Idle)) q hs'.
Proof.
  intros Hi Hpc. pose proof (inv_nonneg s q hs Hi) as Hnn.
  assert ((t, r) ∈ hs) as Hin by (by apply (i_holders _ _ _ Hi)).
  apply elem_of_Permutation in Hin as (hs' & Hp).
  destruct (holders_release (pc s) t r hs hs' (i_holders _ _ _ Hi) (i_nodup _ _ _ Hi) Hp)
    as [Hnd Hhol].
  pose proof (count_perm true _ _ Hp) as Hct. pose proof (count_perm false _ _ Hp) as Hcf.
  rewrite count_cons in Hct, Hcf.
  pose proof (count_nonneg true hs'). pose proof (count_nonneg false hs').
  assert (forall t' r' i, upd (pc s) t Idle t' = Queued r' i -> pc s t' = Queued r' i) as Hqd.
  { intros t' r' i. by apply upd_queued. }
  assert (forall k t' r', q !! k = Some (t', r') -> t' <> t) as Hqt.
  { intros k t' r' Hk ->. apply (i_slots _ _ _ Hi) in Hk as [_ Hk]. congruence. }
  unfold sge_fifo_ulock. set (l1 := add_active (lock s) r (-1)).
  destruct ((reader_active l1 + writer_active l1 + signaled l1 =? 0) &&
            (0 <? reader_waiting l1 + writer_waiting l1)) eqn:E.
  - destruct q as [|[t1 r1] q1]; [simpl in *; destruct r; lia|].
    pose proof (i_head _ _ _ Hi) as Hhd.
    destruct (i_slots _ _ _ Hi 0%nat t1 r1 eq_refl) as [Hs0 _].
    rewrite pos_0 in Hs0 by done.
    rewrite (signal_head_some l1 r1 _ ltac:(simpl; lia) Hs0). cbn [mbind option_bind].
    do 2 eexists. split; [reflexivity|]. split; [exact Hp|]. destruct Hi.
    assert (signaled (lock s) = 0) as Hsig0 by (destruct r; simpl in *; lia).
    split; cbn [lock pc with_queue add_active add_signaled size array head tail reader_active
      reader_waiting writer_active writer_waiting waiting signaled l1] in *; try done; auto; try (by_kind r).
    + by rewrite length_insert.
    + intros k t' r' Hk. destruct (i_slots0 _ _ _ Hk) as [H1 H2].
      rewrite upd_other by (by eapply Hqt). split; [|done].
      destruct k as [|k].
      * rewrite pos_0 by done. rewrite list_lookup_insert_eq by lia.
        injection Hk as -> ->. rewrite Hsig0. done.
      * pose proof (lookup_lt_Some _ _ _ Hk) as Hlt. simpl length in *.
        rewrite list_lookup_insert_ne by (apply head_slot_differs; lia).
        rewrite H1. do 2 f_equal.
    + intros _. exists t1, r1, q1. split; [done|]. by_kind r.
  - cbn [mbind option_bind]. do 2 eexists. split; [reflexivity|]. split; [exact Hp|].
    destruct Hi.
    split; cbn [lock pc add_active size array head tail reader_active
      reader_waiting writer_active writer_waiting waiting signaled l1] in *; try done; auto;
      try (by_kind r).
    + intros k t' r' Hk. rewrite upd_other by (by eapply Hqt). by apply i_slots0.
    + intros Hs1. destruct (i_sig_head0 Hs1) as (t1 & r1 & q1 & -> & Hw & Hr).
      exists t1, r1, q1. split; [done|]. destruct r, r1; simpl in *; lia.
    + intros Hs1 t1 r1 q1 ->. destruct (i_block0 Hs1 t1 r1 q1 eq_refl) as [Hb1 Hb2].
      simpl length in *. destruct r, r1; simpl in *; lia.
Qed.

Lemma add_waiting_back l r : add_waiting (add_waiting l r (-1)) r 1 = l.
Proof.
  destruct l, r; unfold add_waiting; simpl; f_equal; lia.
Qed.

(** What [leave_queue] does to the lock when [q = (t, r) :: q']: pass the signal on to
    a reader behind a reader, free the slot, take the lock. *)
Definition after_leave (l : sge_fifo_rw_lock) (r pass : bool) : sge_fifo_rw_lock :=
  let hd := pos (head l) 1 in
  let a := if pass then <[Z.to_nat hd := Elem true true]> (array l) else array l in
  Lock (<[Z.to_nat (head l) := Elem false false]> a) hd (tail l) (size l)
    (if r then reader_active l + 1 else reader_active l)
    (if r then reader_waiting l - 1 else reader_waiting l)
    (if r then writer_active l else writer_active l + 1)
    (if r then writer_waiting l else writer_waiting l - 1)
    (waiting l) (if pass then signaled l else signaled l - 1).

Definition passes_on (r : bool) (q' : list (nat * bool)) : bool :=
  r && match q' with (_, r1) :: _ => r1 | [] => false end.

Lemma queue_wakes_signaled s t r q' hs :
  inv s ((t, r) :: q') hs -> signaled (lock s) = 1 ->
  queue_wakes (lock s) r (head (lock s)) =
  Some (after_leave (lock s) r (passes_on r q'), Holding r).
Proof.
  intros Hi H1. pose proof (i_head _ _ _ Hi) as Hhd. pose proof (i_size _ _ _ Hi) as Hsz.
  pose proof (i_len _ _ _ Hi) as Hlen. pose proof (i_count _ _ _ Hi) as Hct.
  pose proof (i_rw _ _ _ Hi) as Hrw. rewrite count_cons in Hrw.
  simpl length in Hct. pose proof N_pos.
  destruct (i_slots _ _ _ Hi 0%nat t r eq_refl) as [Hs0 _].
  rewrite pos_0, H1 in Hs0 by done. cbn in Hs0.
  pose proof (slot_some _ _ _ (proj1 Hhd) Hs0) as Hslot.
  assert (next_index (lock s) (head (lock s)) = pos (head (lock s)) 1) as Hnext.
  { rewrite <- (pos_0 (head (lock s))) at 1 by done. by rewrite next_index_pos by lia. }
  unfold queue_wakes. cbn [add_waiting array]. rewrite Hslot. cbn [mbind option_bind is_signaled].
  unfold leave_queue. cbn [add_waiting add_signaled with_queue array head tail reader_waiting].
  change (next_index (add_signaled _ _) _) with (next_index (lock s) (head (lock s))).
  rewrite Hnext, Hslot. cbn [mbind option_bind is_reader].
  assert (Z.of_nat (length (array (lock s))) = N) as Hlen' by done.
  assert (forall b : bool, store (if b then <[Z.to_nat (pos (head (lock s)) 1) := Elem true true]>
      (array (lock s)) else array (lock s)) (head (lock s)) (Elem false false) =
    Some (<[Z.to_nat (head (lock s)) := Elem false false]>
      (if b then <[Z.to_nat (pos (head (lock s)) 1) := Elem true true]>
      (array (lock s)) else array (lock s)))) as Hstore.
  { intros b. apply store_some. destruct b; rewrite ?length_insert; lia. }
  unfold after_leave, passes_on.
  destruct q' as [|[t1 r1] q'].
  - change (count true []) with 0 in Hrw. replace (0 <? _) with false by (destruct r; simpl in *; lia).
    rewrite !andb_false_r. cbn [mbind option_bind].
    cbn [with_queue add_signaled add_waiting array head tail]. rewrite (Hstore false).
    cbn [mbind option_bind]. by destruct r.
  - rewrite count_cons in Hrw. pose proof (count_nonneg true q').
    destruct (i_slots _ _ _ Hi 1%nat t1 r1 eq_refl) as [Hs1 _]. cbn in Hs1.
    pose proof (pos_range (head (lock s)) 1 Hhd ltac:(lia)) as Hp1.
    pose proof (slot_some _ _ _ (proj1 Hp1) Hs1) as Hslot1.
    destruct r; cbn [andb].
    + destruct (0 <? _) eqn:E; cbn [mbind option_bind].
      * rewrite Hslot1. cbn [mbind option_bind is_reader].
        destruct r1; cbn [mbind option_bind].
        -- rewrite (signal_head_some _ true false); [|simpl; lia|exact Hs1].
           cbn [mbind option_bind]. cbn [with_queue add_signaled add_waiting array head tail].
           rewrite (Hstore true). cbn [mbind option_bind]. do 2 f_equal; try (unfold add_active; simpl; f_equal; lia).
        -- cbn [with_queue add_signaled add_waiting array head tail].
           rewrite (Hstore false). cbn [mbind option_bind]. do 2 f_equal; try (unfold add_active; simpl; f_equal; lia).
      * assert (r1 = false) as -> by (destruct r1; [simpl in *; lia|done]).
        cbn [with_queue add_signaled add_waiting array head tail].
        rewrite (Hstore false). cbn [mbind option_bind]. do 2 f_equal; try (unfold add_active; simpl; f_equal; lia).
    + cbn [mbind option_bind]. cbn [with_queue add_signaled add_waiting array head tail].
      rewrite (Hstore false). cbn [mbind option_bind]. do 2 f_equal; try (unfold add_active; simpl; f_equal; lia).
Qed.

Lemma inv_leave s t r q' hs :
  inv s ((t, r) :: q') hs -> signaled (lock s) = 1 ->
  inv (State (after_leave (lock s) r (passes_on r q')) (upd (pc s) t (Holding r)))
    q' ((t, r) :: hs).
Proof.
  intros Hi H1. pose proof (inv_nonneg _ _ _ Hi) as Hnn. pose proof N_pos.
  destruct (i_sig_head _ _ _ Hi H1) as (? & ? & ? & [= <- <- <-] & Hw0 & Hr0).
  destruct (i_slots _ _ _ Hi 0%nat t r eq_refl) as [_ Hpt].
  assert (forall k t' r', q' !! k = Some (t', r') -> t' <> t) as Hne.
  { intros k t' r' Hk ->. pose proof (lookup_lt_Some _ _ _ Hk) as Hlt.
    pose proof (i_count _ _ _ Hi) as Hc. simpl length in Hc.
    destruct (i_slots _ _ _ Hi (S k) t r' Hk) as [_ Hk']. rewrite Hpt in Hk'.
    injection Hk' as _ Heq. apply pos_inj in Heq; [lia|apply Hi|lia|lia]. }
  assert (~ (t, r) ∈ hs) as Hnh.
  { intros Hh. apply (i_holders _ _ _ Hi) in Hh. congruence. }
  set (pass := passes_on r q').
  destruct Hi. rewrite count_cons in i_rw0, i_ww0. simpl length in *.
  split; cbn [lock pc after_leave size array head tail reader_active reader_waiting
    writer_active writer_waiting waiting signaled]; try done.
  - rewrite length_insert. destruct pass; rewrite ?length_insert; lia.
  - apply pos_range; lia.
  - lia.
  - rewrite i_tail0, pos_pos by lia. f_equal. lia.
  - intros k t' r' Hk. pose proof (lookup_lt_Some _ _ _ Hk) as Hlt.
    destruct (i_slots0 (S k) t' r' Hk) as [Hs Hp].
    rewrite upd_other by (by eapply Hne). rewrite pos_pos by lia.
    replace (k + 1)%Z with (Z.of_nat (S k)) by lia. split; [|done].
    rewrite list_lookup_insert_ne by (apply head_slot_differs; lia).
    rewrite bool_decide_eq_false_2 in Hs by done. cbn [andb] in Hs.
    destruct k as [|k].
    + destruct q' as [|[t1 r1] q1]; [done|]. injection Hk as -> ->.
      subst pass. unfold passes_on. rewrite H1. destruct r, r'; cbn [andb].
      * rewrite list_lookup_insert_eq by (pose proof (pos_range (head (lock s)) 1); lia). done.
      * rewrite Hs. done.
      * rewrite Hs. done.
      * rewrite Hs. done.
    + rewrite bool_decide_eq_false_2 by done. cbn [andb].
      destruct pass; [|done]. by rewrite list_lookup_insert_ne by (apply pos_slots_differ; lia).
  - intros t' r' i H2. destruct (decide (t' = t)) as [->|Hn].
    + by rewrite upd_same in H2.
    + rewrite upd_other in H2 by done. apply i_queued0 in H2 as ([|k] & Hk & ->).
      * injection Hk as -> ->. done.
      * exists k. split; [done|]. pose proof (lookup_lt_Some _ _ _ Hk) as Hlt. simpl in Hlt.
        rewrite pos_pos by lia. f_equal. lia.
  - intros t' r'. rewrite elem_of_cons, i_holders0. destruct (decide (t' = t)) as [->|Hn].
    + rewrite upd_same. split; [intros [[= ->]|H2]; [done|congruence]|intros [= ->]; auto].
    + rewrite upd_other by done. split; [intros [[= -> _]|?]; done|auto].
  - by constructor.
  - by_kind r.
  - by_kind r.
  - rewrite count_cons. by_kind r.
  - rewrite count_cons. by_kind r.
  - destruct r; [left|right]; specialize (Hr0); simpl in *; lia.
  - destruct pass; lia.
  - destruct pass eqn:Ep; [|lia]. intros _. subst pass. unfold passes_on in Ep.
    destruct q' as [|[t1 r1] q1]; [by rewrite andb_false_r in Ep|].
    apply andb_true_iff in Ep as [-> ->]. exists t1, true, q1. split; [done|]. done.
  - destruct pass eqn:Ep; [lia|]. intros _ t1 r1 q1 ->. subst pass. unfold passes_on in Ep.
    destruct r, r1; simpl in *; try done; specialize (Hr0); lia.
Qed.

(** ** The abstract lock

    A queue and a multiset of holders.  [compatible r hs]: a reader tolerates readers,
    a writer nobody. *)
Definition compatible (r : bool) (hs : list (nat * bool)) : Prop :=
  if r then count false hs = 0 else hs = [].

(** What thread [t] may do to the queue and the holders. *)
Inductive spec_step (t : nat) : list (nat * bool) * list (nat * bool) ->
    list (nat * bool) * list (nat * bool) -> Prop :=
  | spec_stutter q hs : spec_step t (q, hs) (q, hs)
  | spec_take r hs : compatible r hs -> spec_step t ([], hs) ([], (t, r) :: hs)
  | spec_join r q hs : length q < N -> spec_step t (q, hs) (q ++ [(t, r)], hs)
  | spec_grant r q hs : compatible r hs -> spec_step t ((t, r) :: q, hs) (q, (t, r) :: hs)
  | spec_release r q hs hs' : hs ≡ₚ (t, r) :: hs' -> spec_step t (q, hs) (q, hs').

(** The threads that wait, in the order in which they arrived: one that starts to wait comes
    last, one that stops waiting is taken out wherever it is. *)
Definition arrived (t : nat) (p p' : phase) (q : list (nat * bool)) : list (nat * bool) :=
  match p, p' with
  | Queued _ _, Queued _ _ => q
  | _, Queued r _ => q ++ [(t, r)]
  | Queued _ _, _ => filter (fun x => x.1 <> t) q
  | _, _ => q
  end.

(** An execution that ends in [s], with the arrivals that still wait. *)
Inductive execution : state -> list (nat * bool) -> Prop :=
  | execution_initial : execution initial []
  | execution_step s q t s' :
      execution s q -> step s t s' -> execution s' (arrived t (pc s t) (pc s' t) q).

Lemma compatible_counts r hs :
  count false hs = 0 -> (r = false -> count true hs = 0) -> compatible r hs.
Proof.
  intros Hf Ht. destruct r; [done|]. specialize (Ht eq_refl).
  pose proof (count_length hs). destruct hs; [done|]. simpl length in *. lia.
Qed.

(** The outcome of a section: a new lock and phase, matched by the abstract lock. *)
Definition simulated (s : state) (t : nat) (q hs : list (nat * bool))
    (res : option (sge_fifo_rw_lock * phase)) : Prop :=
  exists l' p' q' hs', res = Some (l', p') /\
    inv (State l' (upd (pc s) t p')) q' hs' /\ spec_step t (q, hs) (q', hs') /\
    q' = arrived t (pc s t) p' q.

Lemma arrived_outside t p p' q : outside p -> outside p' -> arrived t p p' q = q.
Proof.
  intros [H _] [H' _]. destruct p as [|r|r i|r]; [..|by destruct (H r i)|];
    by destruct p' as [|r'|r' i'|r']; [..|destruct (H' r' i')|].
Qed.

Lemma arrived_join t p r i q : outside p -> arrived t p (Queued r i) q = q ++ [(t, r)].
Proof. intros [H _]. by destruct p as [|r'|r' i'|r']; [..|destruct (H r' i')|]. Qed.

Lemma arrived_take t p r q : outside p -> arrived t p (Holding r) q = q.
Proof. intros [H _]. by destruct p as [|r'|r' i'|r']; [..|destruct (H r' i')|]. Qed.

(** A thread is in the queue once. *)
Lemma queue_once s t r q hs :
  inv s ((t, r) :: q) hs -> Forall (fun x => x.1 <> t) q.
Proof.
  intros Hi. apply Forall_lookup. intros k [t' r'] Hk. cbn [fst]. intros ->.
  pose proof (lookup_lt_Some _ _ _ Hk) as Hlt. pose proof (i_count _ _ _ Hi) as Hc.
  simpl length in Hc. destruct (i_slots _ _ _ Hi 0%nat t r eq_refl) as [_ Hp].
  destruct (i_slots _ _ _ Hi (S k) t r' Hk) as [_ Hp']. rewrite Hp in Hp'.
  injection Hp' as _ Heq. apply pos_inj in Heq; [lia|apply Hi|lia|lia].
Qed.

Lemma arrived_grant s t r i q hs :
  inv s ((t, r) :: q) hs -> arrived t (Queued r i) (Holding r) ((t, r) :: q) = q.
Proof.
  intros Hi%queue_once. cbn [arrived]. rewrite filter_cons_False by (cbn; tauto).
  induction Hi as [|x q Hx _ IH]; [done|]. by rewrite filter_cons_True, IH.
Qed.

Lemma internal_simulated s q hs t r :
  inv s q hs -> outside (pc s t) ->
  simulated s t q hs (sge_fifo_lock_internal (lock s) r).
Proof.
  intros Hi Ho. pose proof (inv_nonneg s q hs Hi) as Hnn. pose proof (i_count _ _ _ Hi) as Hc.
  unfold simulated, sge_fifo_lock_internal, queue_full.
  destruct (reader_waiting (lock s) + writer_waiting (lock s) =? N) eqn:E.
  - do 2 eexists. exists q, hs. split; [reflexivity|].
    split; [|split; [constructor|by rewrite arrived_outside]].
    apply (inv_pc_outside (State (add_outside (lock s) 1) (pc s)));
      [by apply inv_add_outside|done|done].
  - destruct (must_queue (lock s) r) eqn:Em.
    + destruct (inv_queue s q hs t r Hi Ho Em ltac:(lia)) as (l' & i & -> & Hi').
      do 4 eexists. split; [reflexivity|]. split; [exact Hi'|].
      split; [constructor; lia|by rewrite arrived_join].
    + destruct (inv_take s q hs t r Hi Ho Em) as [Hi' ->].
      unfold enter. rewrite Em. do 4 eexists. split; [reflexivity|]. split; [exact Hi'|].
      split; [|by rewrite arrived_take]. constructor. unfold must_queue in Em.
      pose proof (i_ra _ _ _ Hi). pose proof (i_wa _ _ _ Hi).
      destruct (i_sig _ _ _ Hi), r; apply compatible_counts; intros; try done; lia.
Qed.

Lemma section_simulated s q hs t c res :
  inv s q hs -> section (lock s) (pc s t) c = Some res -> simulated s t q hs res.
Proof.
  intros Hi Hsec. destruct (pc s t) as [|r|r i|r] eqn:Ep, c as [r'|r'|]; try done;
    injection Hsec as <-.
  - apply internal_simulated; [done|by rewrite Ep].
  - unfold sge_fifo_try_lock. destruct (queue_full (lock s) || _).
    + do 2 eexists. exists q, hs. split; [reflexivity|].
      split; [|split; [constructor|by rewrite Ep]].
      apply inv_pc_outside; [done|by rewrite Ep|done].
    + apply internal_simulated; [done|by rewrite Ep].
  - unfold outside_wakes.
    apply (internal_simulated (State (add_outside (lock s) (-1)) (pc s)) q hs t r);
      [by apply inv_add_outside|simpl; by rewrite Ep].
  - destruct (i_queued _ _ _ Hi t r i Ep) as (k & Hk & ->).
    destruct (i_slots _ _ _ Hi k t r Hk) as [Hs _].
    pose proof (i_head _ _ _ Hi) as Hhd. pose proof (lookup_lt_Some _ _ _ Hk) as Hlt.
    pose proof (i_count _ _ _ Hi) as Hc.
    destruct (bool_decide (k = 0%nat) && (signaled (lock s) =? 1)) eqn:Esig.
    + apply andb_true_iff in Esig as [->%bool_decide_eq_true H1%Z.eqb_eq].
      destruct q as [|[t1 r1] q']; [done|]. injection Hk as -> ->.
      rewrite pos_0 by done. rewrite (queue_wakes_signaled s t r q' hs Hi H1).
      do 4 eexists. split; [reflexivity|]. split; [by apply inv_leave|].
      split; [|rewrite Ep; symmetry; by eapply arrived_grant]. constructor.
      destruct (i_sig_head _ _ _ Hi H1) as (? & ? & ? & [= <- <- <-] & Hw0 & Hr0).
      apply compatible_counts; [by rewrite <- (i_wa _ _ _ Hi)|].
      intros ->. rewrite <- (i_ra _ _ _ Hi). auto.
    + unfold queue_wakes. cbn [add_waiting array].
      rewrite (slot_some _ _ _ (proj1 (pos_range _ k Hhd ltac:(lia))) Hs).
      cbn [mbind option_bind is_signaled].
      change (add_waiting _ r 1) with (add_waiting (add_waiting (lock s) r (-1)) r 1).
      rewrite add_waiting_back. do 2 eexists. exists q, hs. split; [reflexivity|].
      split; [|split; [constructor|by rewrite Ep]]. destruct Hi. split; cbn [lock pc]; try done.
      * intros k' t' r' Hk'. destruct (decide (t' = t)) as [->|Hn].
        -- rewrite upd_same, <- Ep. by apply i_slots0.
        -- rewrite upd_other by done. by apply i_slots0.
      * intros t' r' i. destruct (decide (t' = t)) as [->|Hn].
        -- rewrite upd_same, <- Ep. apply i_queued0.
        -- rewrite upd_other by done. apply i_queued0.
      * intros t' r'. rewrite i_holders0. destruct (decide (t' = t)) as [->|Hn].
        -- by rewrite upd_same, Ep.
        -- by rewrite upd_other.
  - destruct (inv_unlock s q hs t r Hi Ep) as (l' & hs' & He & Hp & Hi').
    do 4 eexists. split; [exact He|]. split; [exact Hi'|].
    split; [by apply (spec_release t r)|by rewrite Ep].
Qed.

Lemma step_simulated s q hs t s' :
  inv s q hs -> step s t s' ->
  exists hs', inv s' (arrived t (pc s t) (pc s' t) q) hs' /\
    spec_step t (q, hs) (arrived t (pc s t) (pc s' t) q, hs').
Proof.
  intros Hi Hs. destruct Hs as [s t c l' p' Hsec].
  destruct (section_simulated s q hs t c _ Hi Hsec) as (l & p & q' & hs' & [= <- <-] & ? & ? & ->).
  cbn [pc]. rewrite upd_same. eauto.
Qed.

Lemma execution_inv s q : execution s q -> exists hs, inv s q hs.
Proof.
  induction 1 as [|s q t s' Hr (hs & Hi) Hs].
  - exists []. apply inv_initial.
  - destruct (step_simulated s q hs t s' Hi Hs) as (hs' & ? & _). eauto.
Qed.

Lemma reachable_execution s : reachable s -> exists q, execution s q.
Proof.
  induction 1 as [|s t s' Hr (q & He) Hs]; [exists []; constructor|].
  eexists. by eapply execution_step.
Qed.

Lemma reachable_inv s : reachable s -> exists q hs, inv s q hs.
Proof. intros (q & He)%reachable_execution. exists q. by apply execution_inv. Qed.

(** ** The properties *)

(** C13: mutual exclusion: in every reachable state of any number of threads, a thread
    that holds the write lock is the only holder. *)
Theorem writer_excludes_all (s : state) (t t' : nat) (r : bool) :
  reachable s -> pc s t = Holding false -> pc s t' = Holding r -> t' = t.
Proof.
  intros (q & hs & Hi)%reachable_inv Ht Ht'.
  apply (i_holders _ _ _ Hi) in Ht, Ht'.
  pose proof (i_ra _ _ _ Hi) as Hra. pose proof (i_wa _ _ _ Hi) as Hwa.
  apply elem_of_Permutation in Ht as (hs1 & Hp).
  rewrite (count_perm true _ _ Hp), count_cons in Hra.
  rewrite (count_perm false _ _ Hp), count_cons in Hwa. simpl in Hra, Hwa.
  rewrite Hp, elem_of_cons in Ht'. destruct Ht' as [[= -> _]|Ht']; [done|]. exfalso.
  pose proof (count_nonneg true hs1). pose proof (count_nonneg false hs1).
  apply elem_of_Permutation in Ht' as (hs2 & Hp2).
  rewrite (count_perm true _ _ Hp2), count_cons in Hra.
  rewrite (count_perm false _ _ Hp2), count_cons in Hwa.
  pose proof (count_nonneg true hs2). pose proof (count_nonneg false hs2).
  destruct (i_excl _ _ _ Hi), r; simpl in *; lia.
Qed.

(** C30: the lock refines a FIFO queue. Along every execution of any number of threads, let the
    queue be the threads that wait, in the order in which they arrived. Then every atomic section
    of a thread appends it to that queue, hands it the lock when it is the FIRST of the queue, lets
    it in directly only when the queue is empty, takes it out of the holders, or changes
    nothing; a reader is only let in beside readers, a writer only alone; and queue and holders
    are exactly the threads the code keeps in the queue and lets hold the lock. *)
Theorem fifo_lock_refines_queue (s s' : state) (t : nat) (q : list (nat * bool)) :
  execution s q -> step s t s' ->
  let q' := arrived t (pc s t) (pc s' t) q in
  exists hs hs',
    (forall x r, (exists i, pc s x = Queued r i) <-> (x, r) ∈ q) /\
    (forall x r, pc s x = Holding r <-> (x, r) ∈ hs) /\
    (forall x r, (exists i, pc s' x = Queued r i) <-> (x, r) ∈ q') /\
    (forall x r, pc s' x = Holding r <-> (x, r) ∈ hs') /\
    NoDup hs /\ NoDup hs' /\ spec_step t (q, hs) (q', hs').
Proof.
  intros (hs & Hi)%execution_inv Hs q'.
  destruct (step_simulated s q hs t s' Hi Hs) as (hs' & Hi' & Hspec). fold q' in Hi', Hspec.
  assert (forall s q hs, inv s q hs ->
    (forall x r, (exists i, pc s x = Queued r i) <-> (x, r) ∈ q) /\
    (forall x r, pc s x = Holding r <-> (x, r) ∈ hs)) as Habs.
  { intros s0 q0 hs0 H0. split; intros x r; [|symmetry; apply H0]. split.
    - intros (i & Hx). apply (i_queued _ _ _ H0) in Hx as (k & Hk & _).
      by eapply list_elem_of_lookup_2.
    - intros (k & Hk)%list_elem_of_lookup. eexists. by apply (i_slots _ _ _ H0). }
  destruct (Habs _ _ _ Hi), (Habs _ _ _ Hi'). exists hs, hs'.
  split_and!; try done; [apply Hi|apply Hi'].
Qed.

(** C37: no lost wake-up in the queue: as long as a thread waits in the queue, somebody
    holds the lock, or the thread that was queued first has been signaled and takes
    the lock when it runs. *)
Theorem queue_never_stuck (s : state) (t : nat) (r : bool) (i : Z) :
  reachable s -> pc s t = Queued r i ->
  (exists t' r', pc s t' = Holding r') \/
  (exists t' r' i' l', pc s t' = Queued r' i' /\ i' = head (lock s) /\
     queue_wakes (lock s) r' i' = Some (l', Holding r')).
Proof.
  intros (q & hs & Hi)%reachable_inv Ht.
  destruct (i_queued _ _ _ Hi t r i Ht) as (k & Hk & _).
  destruct q as [|[t1 r1] q']; [done|]. destruct (i_sig _ _ _ Hi) as [H0|H1].
  - left. destruct (i_block _ _ _ Hi H0 t1 r1 q' eq_refl) as [Hact _].
    rewrite (i_ra _ _ _ Hi), (i_wa _ _ _ Hi), count_length in Hact.
    destruct hs as [|[t2 r2] hs']; [simpl in Hact; lia|]. exists t2, r2.
    apply (i_holders _ _ _ Hi). set_solver.
  - right. destruct (i_slots _ _ _ Hi 0%nat t1 r1 eq_refl) as [_ Hp].
    rewrite pos_0 in Hp by apply Hi. exists t1, r1, (head (lock s)). eexists.
    split; [done|]. split; [done|]. by apply queue_wakes_signaled with t1 hs.
Qed.

(** no section of any thread in any reachable state accesses the queue array out
    of bounds, and the counters the code keeps are the numbers of threads: at most
    one writer is active and at most one thread is signaled. *)
Theorem fifo_lock_safe (s : state) (t : nat) (c : call) (res : option (sge_fifo_rw_lock * phase)) :
  reachable s -> section (lock s) (pc s t) c = Some res ->
  (exists l' p', res = Some (l', p')) /\
  0 <= writer_active (lock s) <= 1 /\ 0 <= signaled (lock s) <= 1 /\
  0 <= reader_waiting (lock s) + writer_waiting (lock s) <= FIFO_LOCK_QUEUE_LENGTH.
Proof.
  intros (q & hs & Hi)%reachable_inv Hs.
  destruct (section_simulated s q hs t c _ Hi Hs) as (l & p & _ & _ & -> & _).
  split; [eauto|]. pose proof (inv_nonneg _ _ _ Hi). pose proof (i_count _ _ _ Hi).
  destruct (i_excl _ _ _ Hi), (i_sig _ _ _ Hi); lia.
Qed.

(** ** Concrete runs *)

(** Runs the sections [cs]; a section that is not possible is skipped. *)
Definition run_one (s : state) (tc : nat * call) : state :=
  match section (lock s) (pc s tc.1) tc.2 with
  | Some (Some (l', p')) => State l' (upd (pc s) tc.1 p')
  | _ => s
  end.

Definition run (cs : list (nat * call)) : state := fold_left run_one cs initial.

Lemma run_reachable cs : reachable (run cs).
Proof.
  unfold run. assert (forall s, reachable s -> reachable (fold_left run_one cs s)) as H;
    [|apply H; constructor].
  induction cs as [|[t c] cs IH]; intros s Hs; simpl; [done|]. apply IH.
  unfold run_one; simpl. destruct (section (lock s) (pc s t) c) as [[[l' p']|]|] eqn:E; try done.
  econstructor; [exact Hs|]. by econstructor.
Qed.

(** Thread 0 writes, thread 1 queues for reading. *)
Definition write_then_read : state := run [(0%nat, CallLock false); (1%nat, CallLock true)].

Lemma writer_excludes_all_witness : 0%nat = 0%nat.
Proof.
  apply (writer_excludes_all write_then_read 0 0 false);
    [apply run_reachable | vm_compute; reflexivity | vm_compute; reflexivity].
Defined.

Lemma queue_never_stuck_witness :
  (exists t' r', pc write_then_read t' = Holding r') \/
  (exists t' r' i' l', pc write_then_read t' = Queued r' i' /\
     i' = head (lock write_then_read) /\
     queue_wakes (lock write_then_read) r' i' = Some (l', Holding r')).
Proof.
  apply (queue_never_stuck write_then_read 1 true 0);
    [apply run_reachable | vm_compute; reflexivity].
Defined.

Lemma fifo_lock_safe_witness :
  (exists l' p', sge_fifo_ulock (lock write_then_read) false = Some (l', p')) /\
  0 <= writer_active (lock write_then_read) <= 1 /\
  0 <= signaled (lock write_then_read) <= 1 /\
  0 <= reader_waiting (lock write_then_read) + writer_waiting (lock write_then_read) <=
    FIFO_LOCK_QUEUE_LENGTH.
Proof.
  apply (fifo_lock_safe write_then_read 0 Continue); [apply run_reachable | reflexivity].
Defined.

(** The same runs with the queue of arrivals. *)
Definition follow_one (sq : state * list (nat * bool)) (tc : nat * call) :
    state * list (nat * bool) :=
  let s' := run_one sq.1 tc in (s', arrived tc.1 (pc sq.1 tc.1) (pc s' tc.1) sq.2).

Definition follow (cs : list (nat * call)) : state * list (nat * bool) :=
  fold_left follow_one cs (initial, []).

Lemma follow_execution cs : execution (follow cs).1 (follow cs).2.
Proof.
  unfold follow. assert (forall sq, execution sq.1 sq.2 ->
    let sq' := fold_left follow_one cs sq in execution sq'.1 sq'.2) as H;
    [|apply H; constructor].
  induction cs as [|[t c] cs IH]; intros sq Hs; simpl; [done|]. apply IH.
  unfold follow_one, run_one; cbn [fst snd].
  destruct (section (lock sq.1) (pc sq.1 t) c) as [[[l' p']|]|] eqn:E.
  - eapply execution_step; [exact Hs|]. by econstructor.
  - by destruct (pc sq.1 t).
  - by destruct (pc sq.1 t).
Qed.

(** Thread 0 writes, 1 and 2 queue for reading; 0 leaves, and 1 takes the lock. *)
Definition handed_over : list (nat * call) :=
  [(0%nat, CallLock false); (1%nat, CallLock true); (2%nat, CallLock true); (0%nat, Continue)].

Lemma fifo_lock_refines_queue_witness :
  let s := (follow handed_over).1 in
  let s' := run_one s (1%nat, Continue) in
  (follow handed_over).2 = [(1%nat, true); (2%nat, true)] /\ pc s' 1 = Holding true /\
  exists hs hs', (forall x r, pc s' x = Holding r <-> (x, r) ∈ hs') /\
    spec_step 1 ((follow handed_over).2, hs)
      (arrived 1 (pc s 1) (pc s' 1) (follow handed_over).2, hs').
Proof.
  intros s s'. split; [vm_compute; reflexivity|]. split; [vm_compute; reflexivity|].
  destruct (fifo_lock_refines_queue s s' 1 (follow handed_over).2 (follow_execution handed_over))
    as (hs & hs' & _ & _ & _ & Hh & _ & _ & Hs).
  - destruct (section (lock s) (pc s 1) Continue) as [[[l' p']|]|] eqn:E;
      [|vm_compute in E; discriminate E|vm_compute in E; discriminate E].
    subst s'. unfold run_one. cbn [fst snd]. rewrite E. apply (step_section s 1 Continue). exact E.
  - exists hs, hs'. split; [exact Hh|exact Hs].
Defined.

(** [sge_fifo_try_lock] can block: the writer has left, the queued reader 1 is signaled
    but has not run yet, and reader 2 tries. *)
Example try_lock_blocks :
  let s := run [(0%nat, CallLock false); (1%nat, CallLock true); (0%nat, Continue);
                (2%nat, CallTry true)] in
  reachable s /\ pc s 2 = Queued true 1.
Proof. split; [apply run_reachable | vm_compute; reflexivity]. Qed.

End FifoLockProps.
