(* ===== verification/HTable.v ===== *)
(** The hash table ([libs/uti/sge_htable.cc]): chains of buckets in an array of [2^size]
    slots that grows and shrinks with the number of entries.

    A chain is a list of (key, data) pairs, front first.  The three functions a table is
    created with (duplicate, hash, compare) are the interface [HashKey]; a duplicated
    key is an equal key.  Allocation is taken to succeed. *)

From S2P Require Import Prelude.

(** What a key type promises to the table. *)
Class HashKey (K : Type) := {
  hash_func : K -> Z;
  compare_func : K -> K -> Z;
  compare_func_eq : forall a b, compare_func a b = 0 <-> a = b;
}.

Module HTable.

(** ** Key types *)

(** [(val_a > val_b) - (val_a < val_b)]. *)
Definition three_way (a b : Z) : Z := Z.b2z (b <? a) - Z.b2z (a <? b).

Lemma three_way_eq a b : three_way a b = 0 <-> a = b.
Proof. unfold three_way. destruct (b <? a) eqn:E1, (a <? b) eqn:E2; simpl; lia. Qed.

(** Keys are [uint32_t], [uint64_t] and [long] values; the hash value is an [int]. *)
Definition hash_func_uint32_t (key : Z) : Z := s32 key.
Definition hash_func_uint64_t (key : Z) : Z := s32 key.
Definition hash_func_long (key : Z) : Z := s32 key.
Definition hash_func_pointer (key : Z) : Z := s32 (Z.shiftr key 7).

(** Strings are their bytes; the terminator is hashed as well. *)
Definition hash_func_string (key : option (list Z)) : Z :=
  match key with
  | None => 0
  | Some key => s32 (fold_left (fun hash c => u32 (hash + u32 (u32 (Z.shiftl hash 3) + c)))
                       (key ++ [0]) 0)
  end.

Fixpoint strcmp (a b : list Z) : Z :=
  match a, b with
  | [], [] => 0
  | [], y :: _ => - y
  | x :: _, [] => x
  | x :: a, y :: b => if x =? y then strcmp a b else x - y
  end.

Fixpoint hash_compute_size_loop (fuel : nat) (n size : Z) : Z :=
  match fuel with
  | O => size
  | S fuel => if 0 <? n then hash_compute_size_loop fuel (Z.shiftr n 1) (size + 1) else size
  end.

(** An [int] has 31 bits: that many rounds are enough. *)
Definition hash_compute_size (number_of_elem : Z) : Z :=
  hash_compute_size_loop 31 number_of_elem 0.

#[export] Instance uint32_key : HashKey Z :=
  {| hash_func := hash_func_uint32_t; compare_func := three_way;
     compare_func_eq := three_way_eq |}.

(** ** The table *)

Record htable_rec (K V : Type) := HTab {
  table : list (list (K * V));
  size : Z;
  mask : Z;
  numentries : Z;
}.
Arguments HTab {K V}.
Arguments table {K V}.
Arguments size {K V}.
Arguments mask {K V}.
Arguments numentries {K V}.

(** [1 << size] on [int]. *)
Definition slots (size : Z) : Z := s32 (Z.shiftl 1 size).

Section Table.
Context {K V : Type} `{Key : HashKey K}.

Notation htable := (htable_rec K V).

Definition slot_of (mask : Z) (k : K) : nat := Z.to_nat (Z.land (hash_func k) mask).

Definition chain (t : list (list (K * V))) (i : nat) : list (K * V) := nth i t [].

Definition sge_htable_create (size : Z) : htable :=
  HTab (replicate (Z.to_nat (slots size)) []) size (slots size - 1) 0.

(** Moves one bucket to the front of its chain in the new array. *)
Definition rehash_one (mask : Z) (t : list (list (K * V))) (e : K * V) : list (list (K * V)) :=
  let i := slot_of mask e.1 in
  <[i := e :: chain t i]> t.

Definition sge_htable_resize (ht : htable) (grow : bool) : htable :=
  if negb grow && (size ht <=? 2) then ht
  else
    let size' := if grow then size ht + 1 else size ht - 1 in
    let mask' := slots size' - 1 in
    HTab (fold_left (rehash_one mask') (concat (table ht)) (replicate (Z.to_nat (slots size')) []))
      size' mask' (numentries ht).

(** Replaces the data of the first bucket with the key; [None] if there is none. *)
Fixpoint chain_replace (k : K) (data : V) (c : list (K * V)) : option (list (K * V)) :=
  match c with
  | [] => None
  | (k', v) :: c' =>
      if compare_func k' k =? 0 then Some ((k', data) :: c')
      else cons (k', v) <$> chain_replace k data c'
  end.

Definition sge_htable_store (ht : htable) (k : K) (data : V) : htable :=
  let i := slot_of (mask ht) k in
  match chain_replace k data (chain (table ht) i) with
  | Some c => HTab (<[i := c]> (table ht)) (size ht) (mask ht) (numentries ht)
  | None =>
      let ht' := HTab (<[i := (k, data) :: chain (table ht) i]> (table ht)) (size ht) (mask ht)
                   (numentries ht + 1) in
      if Z.shiftl (mask ht') 0 <? numentries ht' then sge_htable_resize ht' true else ht'
  end.

Fixpoint chain_lookup (k : K) (c : list (K * V)) : option V :=
  match c with
  | [] => None
  | (k', v) :: c' => if compare_func k' k =? 0 then Some v else chain_lookup k c'
  end.

Definition sge_htable_lookup (ht : htable) (k : K) : option V :=
  chain_lookup k (chain (table ht) (slot_of (mask ht) k)).

(** The chain without the first bucket with the key. *)
Fixpoint chain_delete (k : K) (c : list (K * V)) : option (list (K * V)) :=
  match c with
  | [] => None
  | (k', v) :: c' =>
      if compare_func k' k =? 0 then Some c' else cons (k', v) <$> chain_delete k c'
  end.

Definition sge_htable_delete (ht : htable) (k : K) : htable :=
  let i := slot_of (mask ht) k in
  match chain_delete k (chain (table ht) i) with
  | None => ht
  | Some c =>
      let ht' := HTab (<[i := c]> (table ht)) (size ht) (mask ht) (numentries ht - 1) in
      if numentries ht' <? Z.shiftr (mask ht') 1 then sge_htable_resize ht' false else ht'
  end.

(** The entries in the order the callback sees them. *)
Definition sge_htable_for_each_ep (ht : htable) : list (K * V) := concat (table ht).

Definition sge_htable_get_size (ht : option htable) : Z :=
  match ht with Some ht => numentries ht | None => 0 end.

(** Slots, entries, empty chains and longest chain. *)
Definition sge_htable_statistics (ht : htable) : Z * Z * Z * Z :=
  (slots (size ht), numentries ht,
   Z.of_nat (length (List.filter (fun c : list (K * V) => bool_decide (length c = 0%nat)) (table ht))),
   fold_left (fun m (c : list (K * V)) => Z.max m (length c)) (table ht) 0).

(** ** The table as a map *)

(** At most [2^30] slots, as many as the array has; every entry in the slot of its
    hash value; no key twice; not more entries than slots, less one. *)
Record ht_ok (ht : htable) : Prop := {
  ok_size : 0 <= size ht <= 30;
  ok_mask : mask ht = 2 ^ size ht - 1;
  ok_len : Z.of_nat (length (table ht)) = 2 ^ size ht;
  ok_place : forall i c e, table ht !! i = Some c -> e ∈ c -> slot_of (mask ht) e.1 = i;
  ok_keys : NoDup (map fst (concat (table ht)));
  ok_count : numentries ht = length (concat (table ht));
  ok_load : numentries ht <= mask ht;
}.

Lemma slots_pow size : 0 <= size <= 30 -> slots size = 2 ^ size.
Proof.
  intros H. unfold slots, s32. rewrite Z.shiftl_1_l.
  assert (0 < 2 ^ size) by (apply Z.pow_pos_nonneg; lia).
  assert (2 ^ size <= 2 ^ 30) by (apply Z.pow_le_mono_r; lia).
  rewrite Z.mod_small by lia. lia.
Qed.

Lemma slot_of_lt size k : 0 <= size -> (slot_of (2 ^ size - 1) k < Z.to_nat (2 ^ size))%nat.
Proof.
  intros H. unfold slot_of. assert (0 < 2 ^ size) by (apply Z.pow_pos_nonneg; lia).
  replace (2 ^ size - 1) with (Z.ones size) by (rewrite Z.ones_equiv; lia).
  rewrite Z.land_ones by done. pose proof (Z.mod_pos_bound (hash_func k) (2 ^ size)). lia.
Qed.

Lemma chain_lookup_nth t i c : t !! i = Some c -> chain t i = c.
Proof. unfold chain. intros H. by erewrite nth_lookup_Some. Qed.

(** Replacing a segment of one chain replaces a segment of all the entries. *)
Lemma concat_split (t : list (list (K * V))) i c1 mid c2 :
  t !! i = Some (c1 ++ mid ++ c2) ->
  exists X Y, concat t = X ++ mid ++ Y /\
    forall mid', concat (<[i := c1 ++ mid' ++ c2]> t) = X ++ mid' ++ Y.
Proof.
  intros H. exists (concat (take i t) ++ c1), (c2 ++ concat (drop (S i) t)).
  pose proof (lookup_lt_Some _ _ _ H) as Hi. split.
  - rewrite <- (take_drop_middle t i _ H) at 1. rewrite concat_app. simpl.
    by rewrite <- !app_assoc.
  - intros mid'. rewrite insert_take_drop by done. rewrite concat_app. simpl.
    by rewrite <- !app_assoc.
Qed.

Lemma chain_find k (c : list (K * V)) :
  (~ k ∈ map fst c /\ chain_lookup k c = None /\ chain_delete k c = None /\
   forall d, chain_replace k d c = None) \/
  (exists c1 v c2, c = c1 ++ (k, v) :: c2 /\ chain_lookup k c = Some v /\
     chain_delete k c = Some (c1 ++ c2) /\
     forall d, chain_replace k d c = Some (c1 ++ (k, d) :: c2)).
Proof.
  induction c as [|[k' v] c IH]; simpl.
  { left. split; [set_solver|done]. }
  destruct (compare_func k' k =? 0) eqn:E.
  - apply Z.eqb_eq, compare_func_eq in E as ->. right. exists [], v, c. done.
  - apply Z.eqb_neq in E. rewrite compare_func_eq in E.
    destruct IH as [(H1 & H2 & H3 & H4)|(c1 & v1 & c2 & -> & H2 & H3 & H4)].
    + left. split; [set_solver|]. split; [done|]. rewrite H3. split; [done|].
      intros d. by rewrite H4.
    + right. exists ((k', v) :: c1), v1, c2. split; [done|]. split; [done|].
      rewrite H3. split; [done|]. intros d. by rewrite H4.
Qed.

Lemma ok_slot ht k :
  ht_ok ht -> exists c, table ht !! slot_of (mask ht) k = Some c /\
                        chain (table ht) (slot_of (mask ht) k) = c.
Proof.
  intros Hok. destruct (lookup_lt_is_Some_2 (table ht) (slot_of (mask ht) k)) as [c Hc].
  - rewrite (ok_mask _ Hok). pose proof (slot_of_lt (size ht) k).
    pose proof (ok_size _ Hok). pose proof (ok_len _ Hok). lia.
  - exists c. split; [done|]. by apply chain_lookup_nth.
Qed.

(** An entry with the key [k] is in the chain of [k]. *)
Lemma ok_in_chain ht k c :
  ht_ok ht -> table ht !! slot_of (mask ht) k = Some c ->
  k ∈ map fst (concat (table ht)) -> k ∈ map fst c.
Proof.
  intros Hok Hc Hk. apply list_elem_of_fmap in Hk as ([k1 v] & -> & Hin).
  apply list_elem_of_In, in_concat in Hin as (c' & Hc' & Hin).
  apply list_elem_of_In in Hc', Hin. apply list_elem_of_lookup in Hc' as (i & Hi).
  pose proof (ok_place _ Hok i c' _ Hi Hin) as Hp. simpl in Hp. subst i.
  simpl in Hc. rewrite Hc in Hi. injection Hi as ->. by apply (list_elem_of_fmap_2 fst c' (k1, v)).
Qed.

(** ** Resizing *)

Lemma rehash_one_spec mask (t : list (list (K * V))) e :
  (slot_of mask e.1 < length t)%nat ->
  (forall i c e', t !! i = Some c -> e' ∈ c -> slot_of mask e'.1 = i) ->
  length (rehash_one mask t e) = length t /\
  concat (rehash_one mask t e) ≡ₚ e :: concat t /\
  forall i c e', rehash_one mask t e !! i = Some c -> e' ∈ c -> slot_of mask e'.1 = i.
Proof.
  intros Hi Hp. unfold rehash_one. set (i := slot_of mask e.1) in *.
  destruct (lookup_lt_is_Some_2 t i Hi) as [c Hc]. rewrite (chain_lookup_nth t i c Hc).
  split; [by rewrite length_insert|]. split.
  - destruct (concat_split t i [] [] c Hc) as (X & Y & -> & HXY).
    change (e :: c) with ([] ++ [e] ++ c). rewrite (HXY [e]). simpl. by rewrite Permutation_middle.
  - intros j c' e' Hj He'. destruct (decide (i = j)) as [<-|Hne].
    + rewrite list_lookup_insert_eq in Hj by done. injection Hj as <-.
      apply elem_of_cons in He' as [->|He']; [done|by apply (Hp i c)].
    + rewrite list_lookup_insert_ne in Hj by done. by apply (Hp j c').
Qed.

Lemma rehash_spec mask es (t : list (list (K * V))) :
  (forall k, slot_of mask k < length t)%nat ->
  (forall i c e', t !! i = Some c -> e' ∈ c -> slot_of mask e'.1 = i) ->
  let t' := fold_left (rehash_one mask) es t in
  length t' = length t /\ concat t' ≡ₚ es ++ concat t /\
  forall i c e', t' !! i = Some c -> e' ∈ c -> slot_of mask e'.1 = i.
Proof.
  revert t. induction es as [|e es IH]; intros t Hi Hp; simpl; [done|].
  destruct (rehash_one_spec mask t e (Hi _) Hp) as (H1 & H2 & H3).
  destruct (IH (rehash_one mask t e)) as (H4 & H5 & H6); [by rewrite H1|done|].
  split; [congruence|]. split; [|done]. rewrite H5, H2. by rewrite Permutation_middle.
Qed.

Lemma concat_replicate_nil n : concat (replicate n ([] : list (K * V))) = [].
Proof. induction n; done. Qed.

(** What resizing needs: everything but the load bound, and room for the new size. *)
Lemma resize_spec ht size' :
  0 <= size' <= 30 -> NoDup (map fst (concat (table ht))) ->
  numentries ht = length (concat (table ht)) -> numentries ht <= 2 ^ size' - 1 ->
  let mask' := slots size' - 1 in
  let ht' := HTab (fold_left (rehash_one mask') (concat (table ht))
                     (replicate (Z.to_nat (slots size')) [])) size' mask' (numentries ht) in
  ht_ok ht' /\ concat (table ht') ≡ₚ concat (table ht).
Proof.
  intros Hs Hk Hc Hl. cbv zeta. rewrite slots_pow by done.
  assert (0 < 2 ^ size') by (apply Z.pow_pos_nonneg; lia).
  destruct (rehash_spec (2 ^ size' - 1) (concat (table ht))
    (replicate (Z.to_nat (2 ^ size')) [])) as (H1 & H2 & H3).
  - intros k. rewrite length_replicate. apply slot_of_lt. lia.
  - intros i c e Hi. apply lookup_replicate in Hi as [-> _]. set_solver.
  - rewrite concat_replicate_nil, app_nil_r in H2. rewrite length_replicate in H1.
    split; [|done]. split; cbn [table size mask numentries]; try done.
    + rewrite H1. lia.
    + by rewrite H2.
    + by rewrite H2.
Qed.

(** ** Functional behaviour

    [holds ht k v]: the table has the entry. *)
Definition holds (ht : htable) (k : K) (v : V) : Prop := (k, v) ∈ concat (table ht).

Lemma holds_perm ht ht' k v :
  concat (table ht') ≡ₚ concat (table ht) -> holds ht' k v <-> holds ht k v.
Proof. intros H. unfold holds. by rewrite H. Qed.

Lemma middle_unique {X Y : list (K * V)} {k v} :
  NoDup (map fst (X ++ (k, v) :: Y)) -> forall w, ~ (k, w) ∈ X ++ Y.
Proof.
  rewrite map_app. simpl. rewrite <- Permutation_middle. intros [Hn _]%NoDup_cons w Hw.
  apply Hn. rewrite <- map_app. by apply (list_elem_of_fmap_2 fst _ (k, w)).
Qed.

Lemma lookup_holds ht k v : ht_ok ht -> sge_htable_lookup ht k = Some v <-> holds ht k v.
Proof.
  intros Hok. destruct (ok_slot ht k Hok) as (c & Hc & Hch).
  unfold sge_htable_lookup, holds. rewrite Hch.
  destruct (chain_find k c) as [(H1 & H2 & _)|(c1 & v1 & c2 & -> & H2 & _)]; rewrite H2.
  - split; [done|]. intros Hin. exfalso. apply H1, (ok_in_chain ht k c Hok Hc).
    by apply (list_elem_of_fmap_2 fst _ (k, v)).
  - destruct (concat_split _ _ c1 [(k, v1)] c2 Hc) as (X & Y & Hall & _). simpl in Hall.
    pose proof (ok_keys _ Hok) as Hk. rewrite Hall in *.
    rewrite elem_of_app, elem_of_cons. split; [intros [= ->]; auto|].
    pose proof (middle_unique Hk v) as Hu. rewrite elem_of_app in Hu.
    intros [?|[[= ->]|?]]; tauto.
Qed.

(** Changing one chain: the new table is well formed except for its load. *)
Lemma chain_update ht k c1 mid c2 mid' n :
  ht_ok ht -> table ht !! slot_of (mask ht) k = Some (c1 ++ mid ++ c2) ->
  Forall (fun e => e.1 = k) mid' ->
  let ht' := HTab (<[slot_of (mask ht) k := c1 ++ mid' ++ c2]> (table ht)) (size ht) (mask ht) n in
  exists X Y, concat (table ht) = X ++ mid ++ Y /\ concat (table ht') = X ++ mid' ++ Y /\
    Z.of_nat (length (table ht')) = 2 ^ size ht /\
    forall i c e, table ht' !! i = Some c -> e ∈ c -> slot_of (mask ht) e.1 = i.
Proof.
  intros Hok Hc Hmid ht'. destruct (concat_split _ _ _ _ _ Hc) as (X & Y & H1 & H2).
  exists X, Y. split; [done|]. split; [apply H2|]. subst ht'. cbn [table].
  split; [rewrite length_insert; apply Hok|]. intros i c e Hi He.
  destruct (decide (slot_of (mask ht) k = i)) as [<-|Hne].
  - rewrite list_lookup_insert_eq in Hi by (by eapply lookup_lt_Some).
    injection Hi as <-. rewrite !elem_of_app in He.
    destruct He as [He|[He|He]].
    + apply (ok_place _ Hok _ _ _ Hc). rewrite !elem_of_app. auto.
    + rewrite Forall_forall in Hmid. by rewrite (Hmid _ He).
    + apply (ok_place _ Hok _ _ _ Hc). rewrite !elem_of_app. auto.
  - rewrite list_lookup_insert_ne in Hi by done. by apply (ok_place _ Hok i c).
Qed.

Lemma store_spec ht k d :
  ht_ok ht -> numentries ht < 2 ^ 30 - 1 ->
  ht_ok (sge_htable_store ht k d) /\
  forall k' v', holds (sge_htable_store ht k d) k' v' <->
                (k' = k /\ v' = d) \/ (k' <> k /\ holds ht k' v').
Proof.
  intros Hok Hn. destruct (ok_slot ht k Hok) as (c & Hc & Hch).
  unfold sge_htable_store. rewrite Hch.
  destruct (chain_find k c) as [(H1 & _ & _ & Hrep)|(c1 & v1 & c2 & -> & _ & _ & Hrep)];
    rewrite Hrep.
  - destruct (chain_update ht k [] [] c [(k, d)] (numentries ht + 1) Hok Hc)
      as (X & Y & Hold & Hnew & Hlen & Hplace); [by apply Forall_singleton|].
    simpl app in *. set (ht' := HTab _ _ _ _) in *.
    assert (~ k ∈ map fst (concat (table ht))) as Hfresh.
    { intros Hin. by apply H1, (ok_in_chain ht k c). }
    assert (concat (table ht') ≡ₚ (k, d) :: concat (table ht)) as Hperm.
    { rewrite Hnew, Hold. by rewrite Permutation_middle. }
    assert (forall k' v', holds ht' k' v' <->
      (k' = k /\ v' = d) \/ (k' <> k /\ holds ht k' v')) as Hh.
    { intros k' v'. unfold holds. rewrite Hperm, elem_of_cons.
      assert ((k', v') ∈ concat (table ht) -> k' <> k) as Hne; [|naive_solver].
      intros Hin ->. apply Hfresh. by apply (list_elem_of_fmap_2 fst _ (k, v')). }
    assert (NoDup (map fst (concat (table ht')))) as Hkeys.
    { rewrite Hperm. simpl. constructor; [done|apply Hok]. }
    assert (numentries ht' = length (concat (table ht'))) as Hcount.
    { rewrite Hperm. simpl. rewrite (ok_count _ Hok). lia. }
    destruct Hok. rewrite Z.shiftl_0_r.
    destruct (mask ht' <? numentries ht') eqn:E.
    + unfold sge_htable_resize. cbn [negb andb].
      assert (mask ht = numentries ht) as Hfull by (simpl in E; lia).
      assert (size ht < 30).
      { destruct (Z.eq_dec (size ht) 30) as [Heq|]; [|lia]. rewrite Heq in *. lia. }
      destruct (resize_spec ht' (size ht' + 1)) as [Hok' Hp']; try done.
      * simpl. lia.
      * simpl. rewrite Z.pow_add_r by lia. assert (0 < 2 ^ size ht) by (apply Z.pow_pos_nonneg; lia). lia.
      * split; [exact Hok'|]. intros k' v'. rewrite <- Hh. by apply holds_perm.
    + split; [|done]. split; try done. simpl in *. lia.
  - destruct (chain_update ht k c1 [(k, v1)] c2 [(k, d)] (numentries ht) Hok Hc)
      as (X & Y & Hold & Hnew & Hlen & Hplace); [by apply Forall_singleton|].
    cbn [app] in *. set (ht' := HTab _ _ _ _) in *.
    pose proof (ok_keys _ Hok) as Hkeys. rewrite Hold in Hkeys.
    pose proof (middle_unique Hkeys) as Hu.
    assert (map fst (concat (table ht')) = map fst (concat (table ht))) as Hmap.
    { rewrite Hold, Hnew, !map_app. done. }
    split.
    + destruct Hok. split; try done.
      * by rewrite Hmap.
      * change (numentries ht') with (numentries ht). rewrite ok_count0. rewrite <- (length_map fst (concat (table ht))), <- Hmap.
        by rewrite length_map.
    + intros k' v'. unfold holds. rewrite Hold, Hnew, !elem_of_app, !elem_of_cons.
      pose proof (Hu v') as Hu1. rewrite elem_of_app in Hu1. naive_solver.
Qed.

Lemma delete_spec ht k :
  ht_ok ht ->
  ht_ok (sge_htable_delete ht k) /\
  forall k' v', holds (sge_htable_delete ht k) k' v' <-> k' <> k /\ holds ht k' v'.
Proof.
  intros Hok. destruct (ok_slot ht k Hok) as (c & Hc & Hch).
  unfold sge_htable_delete. rewrite Hch.
  destruct (chain_find k c) as [(H1 & _ & Hdel & _)|(c1 & v1 & c2 & -> & _ & Hdel & _)];
    rewrite Hdel.
  { split; [done|]. intros k' v'. split; [|tauto]. intros Hin. split; [|done]. intros ->.
    apply H1, (ok_in_chain ht k c Hok Hc). by apply (list_elem_of_fmap_2 fst _ (k, v')). }
  destruct (chain_update ht k c1 [(k, v1)] c2 [] (numentries ht - 1) Hok Hc)
    as (X & Y & Hold & Hnew & Hlen & Hplace); [constructor|].
  cbn [app] in *. set (ht' := HTab _ _ _ _) in *.
  pose proof (ok_keys _ Hok) as Hkeys. rewrite Hold in Hkeys.
  pose proof (middle_unique Hkeys) as Hu.
  assert (forall k' v', holds ht' k' v' <-> k' <> k /\ holds ht k' v') as Hh.
  { intros k' v'. unfold holds. rewrite Hold, Hnew, !elem_of_app, !elem_of_cons.
    pose proof (Hu v') as Hu1. rewrite elem_of_app in Hu1. naive_solver. }
  assert (NoDup (map fst (concat (table ht')))) as Hkeys'.
  { rewrite map_app in Hkeys. simpl in Hkeys. rewrite <- Permutation_middle in Hkeys.
    apply NoDup_cons in Hkeys as [_ Hkeys]. by rewrite Hnew, map_app. }
  assert (numentries ht' = length (concat (table ht'))) as Hcount.
  { rewrite Hnew. simpl. rewrite (ok_count _ Hok), Hold, !length_app. simpl. lia. }
  destruct Hok. assert (0 < 2 ^ size ht) by (apply Z.pow_pos_nonneg; lia).
  destruct (numentries ht' <? Z.shiftr (mask ht') 1) eqn:E.
  - unfold sge_htable_resize. cbn [negb andb].
    destruct (size ht' <=? 2) eqn:E2.
    + split; [|done]. split; try done. simpl in *. lia.
    + destruct (resize_spec ht' (size ht' - 1)) as [Hok' Hp']; try done.
      * simpl in *. lia.
      * change (mask ht') with (mask ht) in E. change (numentries ht') with (numentries ht - 1) in *.
        change (size ht' - 1) with (size ht - 1). simpl in E2.
        assert (2 ^ size ht = 2 * 2 ^ (size ht - 1)) as Hpow.
        { rewrite <- Z.pow_succ_r by lia. f_equal. lia. }
        rewrite Z.shiftr_div_pow2 in E by lia. change (2 ^ 1) with 2 in E. rewrite Hpow in *.
        revert E ok_mask0. generalize (2 ^ (size ht - 1)). intros P E Hm.
        pose proof (Z.div_mod (mask ht) 2). pose proof (Z.mod_pos_bound (mask ht) 2). lia.
      * split; [exact Hok'|]. intros k' v'. rewrite <- Hh. by apply holds_perm.
  - split; [|done]. split; try done. simpl in *. lia.
Qed.

End Table.
End HTable.
