(* ===== verification/HTableProps.v ===== *)
(** The hash table refines a finite map, through every growing and shrinking. *)

From S2P Require Import Prelude HTable.
Import HTable.

Module HTableProps.

Section Map.
Context {K V : Type} `{Key : HashKey K} `{Countable K}.

(** [ht] represents the finite map [m]. *)
Definition represents (ht : htable_rec K V) (m : gmap K V) : Prop :=
  ht_ok ht /\ forall k v, holds ht k v <-> m !! k = Some v.

Lemma represents_lookup ht m k : represents ht m -> sge_htable_lookup ht k = m !! k.
Proof.
  intros [Hok Hm]. apply option_eq. intros v. by rewrite (lookup_holds ht k v Hok), Hm.
Qed.

Lemma represents_entries ht m :
  represents ht m ->
  sge_htable_for_each_ep ht ≡ₚ map_to_list m /\ numentries ht = base.size m.
Proof.
  intros [Hok Hm]. assert (sge_htable_for_each_ep ht ≡ₚ map_to_list m) as Hp.
  { apply NoDup_Permutation.
    - pose proof (ok_keys _ Hok) as Hk. by apply NoDup_fmap_1 in Hk.
    - apply NoDup_map_to_list.
    - intros [k v]. rewrite elem_of_map_to_list. apply Hm. }
  split; [done|]. rewrite (ok_count _ Hok). change (concat (table ht)) with (sge_htable_for_each_ep ht).
  by rewrite Hp, length_map_to_list.
Qed.

Lemma represents_store ht m k v :
  represents ht m -> numentries ht < 2 ^ 30 - 1 ->
  represents (sge_htable_store ht k v) (<[k := v]> m).
Proof.
  intros [Hok Hm] Hn. destruct (store_spec ht k v Hok Hn) as [Hok' Hh]. split; [done|].
  intros k' v'. rewrite Hh, lookup_insert_Some, Hm. naive_solver.
Qed.

Lemma represents_delete ht m k :
  represents ht m -> represents (sge_htable_delete ht k) (delete k m).
Proof.
  intros [Hok Hm]. destruct (delete_spec ht k Hok) as [Hok' Hh]. split; [done|].
  intros k' v'. rewrite Hh, lookup_delete_Some, Hm. naive_solver.
Qed.

Lemma represents_create size :
  0 <= size <= 30 -> represents (sge_htable_create size) ∅.
Proof.
  intros Hs. assert (0 < 2 ^ size) by (apply Z.pow_pos_nonneg; lia).
  unfold sge_htable_create. rewrite slots_pow by done. split.
  - split; cbn [table HTable.size mask numentries]; try done; try lia.
    + rewrite length_replicate. lia.
    + intros i c e Hi. apply lookup_replicate in Hi as [-> _]. set_solver.
    + rewrite concat_replicate_nil. constructor.
    + by rewrite concat_replicate_nil.
  - intros k v. unfold holds. cbn [table]. rewrite concat_replicate_nil, lookup_empty. set_solver.
Qed.

(** A use of the table. *)
Inductive op := Store (k : K) (v : V) | Delete (k : K).

Definition run_op (ht : htable_rec K V) (o : op) : htable_rec K V :=
  match o with Store k v => sge_htable_store ht k v | Delete k => sge_htable_delete ht k end.

Definition map_op (m : gmap K V) (o : op) : gmap K V :=
  match o with Store k v => <[k := v]> m | Delete k => delete k m end.

Lemma map_op_size m o : (base.size (map_op m o) <= S (base.size m))%nat.
Proof.
  destruct o as [k v|k]; unfold map_op.
  - rewrite map_size_insert. destruct (m !! k); unfold id; lia.
  - rewrite map_size_delete. destruct (m !! k); unfold id; lia.
Qed.

Lemma run_ops_represent ops ht m :
  represents ht m -> base.size m + length ops < 2 ^ 30 ->
  represents (fold_left run_op ops ht) (fold_left map_op ops m).
Proof.
  revert ht m. induction ops as [|o ops IH]; intros ht m Hr Hn; simpl; [done|].
  simpl length in Hn. pose proof (map_op_size m o). apply IH; [|lia].
  destruct (represents_entries ht m Hr) as [_ Hcount].
  destruct o as [k v|k]; simpl; [apply represents_store|apply represents_delete]; try done. lia.
Qed.

(** C23: any sequence of stores and deletes on a fresh table (of any initial size, with
    any hash function) behaves like a finite map: the lookups, the entries passed to
    [sge_htable_for_each_ep] and their number are the map's, each entry is in the slot
    of its hash value, and there are never more entries than slots. *)
Theorem htable_refines_map (size0 : Z) (ops : list op) :
  0 <= size0 <= 30 -> length ops < 2 ^ 30 ->
  let ht := fold_left run_op ops (sge_htable_create size0) in
  let m := fold_left map_op ops ∅ in
  ht_ok ht /\ (forall k, sge_htable_lookup ht k = m !! k) /\
  sge_htable_for_each_ep ht ≡ₚ map_to_list m /\
  sge_htable_get_size (Some ht) = base.size m.
Proof.
  intros Hs Hn ht m.
  assert (represents ht m) as Hr.
  { apply run_ops_represent; [by apply represents_create|]. rewrite map_size_empty. lia. }
  destruct (represents_entries ht m Hr) as [He Hc].
  split; [apply Hr|]. split; [|done]. intros k. by apply represents_lookup.
Qed.

End Map.

Lemma htable_refines_map_witness :
  let ops := [Store 5 1; Store 21 2; Store 37 3; Delete 21; Store 5 4] in
  let ht := fold_left (run_op (Key := uint32_key)) ops (sge_htable_create 0) in
  let m := fold_left map_op ops (∅ : gmap Z Z) in
  ht_ok ht /\ (forall k, sge_htable_lookup (Key := uint32_key) ht k = m !! k) /\
  sge_htable_for_each_ep ht ≡ₚ map_to_list m /\
  sge_htable_get_size (Some ht) = base.size m.
Proof.
  apply (htable_refines_map (Key := uint32_key) 0
           [Store 5 1; Store 21 2; Store 37 3; Delete 21; Store 5 4]).
  - lia.
  - simpl. lia.
Defined.

End HTableProps.
