(* ===== verification/Bitfield.v ===== *)
(** Bitfields ([libs/uti/sge_bitfield.cc]): a size in bits and a byte buffer, inline for
    up to [fixed_bits] bits and allocated above. *)

From S2P Require Import Prelude.

Module Bitfield.

(** [sizeof(char * ) * 8]. *)
Definition fixed_bits : Z := 64.

Definition sge_bitfield_get_size_bytes (size : Z) : Z :=
  size / 8 + (if 0 <? size mod 8 then 1 else 0).

(** [buf] is the inline buffer of 8 bytes or the allocated one, whichever the size
    selects; bytes are 0..255. *)
Record bitfield := BF { size : Z; buf : list Z }.

(** Bytes of the buffer the size selects. *)
Definition buffer_length (size : Z) : Z :=
  if size <=? fixed_bits then fixed_bits / 8 else sge_bitfield_get_size_bytes size.

Definition cleared (size : Z) : list Z := replicate (Z.to_nat (buffer_length size)) 0.

(** A null pointer is [None]; allocation succeeds. *)
Definition sge_bitfield_init (size : Z) : bitfield := BF size (cleared size).

Definition sge_bitfield_new (size : Z) : option bitfield := Some (sge_bitfield_init size).

Definition byte_at (b : bitfield) (i : Z) : Z := nth (Z.to_nat i) (buf b) 0.

Definition with_byte (b : bitfield) (i v : Z) : bitfield :=
  BF (size b) (<[Z.to_nat i := v]> (buf b)).

Definition sge_bitfield_set (bf : option bitfield) (bit : Z) : bool * option bitfield :=
  match bf with
  | Some b =>
      if size b <=? bit then (false, bf)
      else (true, Some (with_byte b (bit / 8)
                          (Z.lor (byte_at b (bit / 8)) (Z.shiftl 1 (bit mod 8)))))
  | None => (false, None)
  end.

Definition sge_bitfield_get (bf : option bitfield) (bit : Z) : bool :=
  match bf with
  | Some b =>
      (bit <? size b) && (0 <? Z.land (byte_at b (bit / 8)) (Z.shiftl 1 (bit mod 8)))
  | None => false
  end.

Definition sge_bitfield_clear (bf : option bitfield) (bit : Z) : bool * option bitfield :=
  match bf with
  | Some b =>
      if size b <=? bit then (false, bf)
      else (true, Some (with_byte b (bit / 8)
                          (Z.land (byte_at b (bit / 8)) (Z.lxor 255 (Z.shiftl 1 (bit mod 8))))))
  | None => (false, None)
  end.

(** The inline buffer is copied as a whole. *)
Definition sge_bitfield_copy (source target : option bitfield) : bool * option bitfield :=
  match source, target with
  | Some s, Some t =>
      if size s =? size t then
        (true, Some (BF (size t)
           (if size s <=? fixed_bits then buf s
            else take (Z.to_nat (sge_bitfield_get_size_bytes (size s))) (buf s) ++
                 drop (Z.to_nat (sge_bitfield_get_size_bytes (size s))) (buf t))))
      else (false, target)
  | _, _ => (false, target)
  end.

Definition sge_bitfield_bitwise_copy (source target : option bitfield) : bool * option bitfield :=
  match source, target with
  | Some s, Some t =>
      let char_size :=
        Z.to_nat (if size t <? size s then sge_bitfield_get_size_bytes (size t)
                  else sge_bitfield_get_size_bytes (size s)) in
      (true, Some (BF (size t) (take char_size (buf s) ++ drop char_size (buf t))))
  | _, _ => (false, target)
  end.

Definition sge_bitfield_changed (bf : option bitfield) : bool :=
  match bf with
  | Some b =>
      existsb (fun c => negb (c =? 0))
        (take (Z.to_nat (sge_bitfield_get_size_bytes (size b))) (buf b))
  | None => false
  end.

Definition sge_bitfield_reset (bf : option bitfield) : bool * option bitfield :=
  match bf with
  | Some b =>
      (true, Some (BF (size b)
         (if fixed_bits <? size b
          then replicate (Z.to_nat (sge_bitfield_get_size_bytes (size b))) 0 ++
               drop (Z.to_nat (sge_bitfield_get_size_bytes (size b))) (buf b)
          else cleared (size b))))
  | None => (false, None)
  end.

(** ** Well-formed bitfields and their bits *)

Record bf_ok (b : bitfield) : Prop := {
  bf_size : 0 <= size b;
  bf_len : Z.of_nat (length (buf b)) = buffer_length (size b);
  bf_bytes : Forall (fun c => 0 <= c < 256) (buf b);
}.

(** Bit [i] of the buffer, without the size check. *)
Definition raw_bit (b : bitfield) (i : Z) : bool := Z.testbit (byte_at b (i / 8)) (i mod 8).

Lemma size_bytes_bound size : 0 <= size -> size <= 8 * sge_bitfield_get_size_bytes size <= size + 7.
Proof.
  intros. unfold sge_bitfield_get_size_bytes. pose proof (Z.div_mod size 8).
  pose proof (Z.mod_pos_bound size 8). destruct (0 <? size mod 8) eqn:E; lia.
Qed.

Lemma buffer_fits size bit : 0 <= bit < size -> 0 <= bit / 8 < buffer_length size.
Proof.
  intros H. split; [apply Z.div_pos; lia|]. unfold buffer_length.
  pose proof (size_bytes_bound size). pose proof (Z.div_mod bit 8).
  pose proof (Z.mod_pos_bound bit 8). unfold fixed_bits.
  change (64 / 8) with 8. destruct (size <=? 64) eqn:E; lia.
Qed.

Lemma land_bit c k : 0 <= c -> 0 <= k -> (0 <? Z.land c (Z.shiftl 1 k)) = Z.testbit c k.
Proof.
  intros Hc Hk. rewrite Z.shiftl_1_l. destruct (Z.testbit c k) eqn:E.
  - apply Z.ltb_lt. assert (Z.land c (2 ^ k) <> 0); [|pose proof (Z.land_nonneg c (2 ^ k)); lia].
    intros H. assert (Z.testbit (Z.land c (2 ^ k)) k = true) as Hb.
    { rewrite Z.land_spec, E, Z.pow2_bits_true by done. done. }
    rewrite H, Z.bits_0 in Hb. done.
  - apply Z.ltb_ge. assert (Z.land c (2 ^ k) = 0) as ->; [|done]. apply Z.bits_inj'. intros n Hn.
    rewrite Z.land_spec, Z.bits_0. destruct (decide (n = k)) as [->|Hne]; [by rewrite E|].
    rewrite Z.pow2_bits_false by done. apply andb_false_r.
Qed.

Lemma byte_at_range b i : bf_ok b -> 0 <= byte_at b i < 256.
Proof.
  intros Hb. unfold byte_at. destruct (nth_in_or_default (Z.to_nat i) (buf b) 0) as [Hin| ->]; [|lia].
  pose proof (bf_bytes _ Hb) as Hf. rewrite Forall_forall in Hf. apply Hf. by apply list_elem_of_In.
Qed.

Lemma get_raw b i : bf_ok b -> 0 <= i -> sge_bitfield_get (Some b) i = (i <? size b) && raw_bit b i.
Proof.
  intros Hb Hi. unfold sge_bitfield_get, raw_bit. f_equal.
  apply land_bit; [apply byte_at_range; done|apply Z.mod_pos_bound; lia].
Qed.

Lemma byte_at_with b i v j :
  0 <= i < length (buf b) -> 0 <= j -> byte_at (with_byte b i v) j = if j =? i then v else byte_at b j.
Proof.
  intros Hi Hj. unfold byte_at, with_byte; cbn [buf]. destruct (j =? i) eqn:E.
  - apply Z.eqb_eq in E as ->. apply nth_lookup_Some, list_lookup_insert_eq. lia.
  - rewrite !nth_lookup, list_lookup_insert_ne by lia. done.
Qed.

Lemma with_byte_ok b i v : bf_ok b -> 0 <= v < 256 -> bf_ok (with_byte b i v).
Proof.
  intros [Hs Hl Hb] Hv. split; cbn [size buf with_byte]; [done|by rewrite length_insert|].
  by apply Forall_insert.
Qed.

Lemma byte_bits c : (forall n, 8 <= n -> Z.testbit c n = false) -> 0 <= c -> c < 256.
Proof.
  intros Hb Hc. destruct (Z_lt_le_dec c 256) as [|Hge]; [done|]. exfalso.
  assert (8 <= Z.log2 c) as Hlog by (change 8 with (Z.log2 256); by apply Z.log2_le_mono).
  specialize (Hb _ Hlog). rewrite Z.bit_log2 in Hb by lia. done.
Qed.

Lemma byte_high c n : 0 <= c < 256 -> 8 <= n -> Z.testbit c n = false.
Proof.
  intros Hc Hn. destruct (decide (c = 0)) as [->|]; [apply Z.bits_0|].
  apply Z.bits_above_log2; [lia|]. assert (Z.log2 c < 8); [apply Z.log2_lt_pow2; lia|lia].
Qed.

(** Setting the byte of bit [bit] changes only bits of that byte. *)
Lemma raw_bit_with b bit v i :
  bf_ok b -> 0 <= bit < size b -> 0 <= i ->
  raw_bit (with_byte b (bit / 8) v) i =
  if i / 8 =? bit / 8 then Z.testbit v (i mod 8) else raw_bit b i.
Proof.
  intros Hb Hbit Hi. unfold raw_bit. pose proof (buffer_fits (size b) bit Hbit).
  rewrite byte_at_with; [|rewrite (bf_len _ Hb); done|apply Z.div_pos; lia].
  by destruct (i / 8 =? bit / 8).
Qed.

Lemma same_bit i bit :
  0 <= i -> 0 <= bit -> (i =? bit) = (i / 8 =? bit / 8) && (i mod 8 =? bit mod 8).
Proof.
  intros. pose proof (Z.div_mod i 8). pose proof (Z.div_mod bit 8).
  destruct (i =? bit) eqn:E, (i / 8 =? bit / 8) eqn:E1, (i mod 8 =? bit mod 8) eqn:E2; simpl;
    try done; exfalso; apply Z.eqb_eq in E || apply Z.eqb_neq in E; subst; lia.
Qed.

Lemma set_spec b bit :
  bf_ok b -> 0 <= bit < size b ->
  exists b', sge_bitfield_set (Some b) bit = (true, Some b') /\ bf_ok b' /\ size b' = size b /\
    forall i, 0 <= i -> raw_bit b' i = (i =? bit) || raw_bit b i.
Proof.
  intros Hb Hbit. unfold sge_bitfield_set. rewrite (proj2 (Z.leb_gt _ _)) by lia.
  eexists. split; [reflexivity|]. pose proof (byte_at_range b (bit / 8) Hb) as Hr.
  pose proof (Z.mod_pos_bound bit 8 ltac:(lia)) as Hm.
  split; [|split; [done|]].
  - apply with_byte_ok; [done|]. rewrite Z.shiftl_1_l.
    assert (0 <= Z.lor (byte_at b (bit / 8)) (2 ^ (bit mod 8))) as Hnn.
    { apply Z.lor_nonneg. split; [lia|apply Z.pow_nonneg; lia]. }
    split; [done|]. apply byte_bits; [|done]. intros n Hn.
    rewrite Z.lor_spec, byte_high, Z.pow2_bits_false by lia. done.
  - intros i Hi. rewrite raw_bit_with by done. rewrite (same_bit i bit) by lia. unfold raw_bit.
    destruct (i / 8 =? bit / 8) eqn:E; [|done]. apply Z.eqb_eq in E. rewrite E.
    rewrite Z.lor_spec, Z.shiftl_1_l. cbn [andb].
    destruct (i mod 8 =? bit mod 8) eqn:E2.
    + apply Z.eqb_eq in E2. rewrite E2, Z.pow2_bits_true by lia. by rewrite orb_true_r.
    + rewrite Z.pow2_bits_false by lia. by rewrite orb_false_r.
Qed.

Lemma clear_spec b bit :
  bf_ok b -> 0 <= bit < size b ->
  exists b', sge_bitfield_clear (Some b) bit = (true, Some b') /\ bf_ok b' /\ size b' = size b /\
    forall i, 0 <= i -> raw_bit b' i = negb (i =? bit) && raw_bit b i.
Proof.
  intros Hb Hbit. unfold sge_bitfield_clear. rewrite (proj2 (Z.leb_gt _ _)) by lia.
  eexists. split; [reflexivity|]. pose proof (byte_at_range b (bit / 8) Hb) as Hr.
  pose proof (Z.mod_pos_bound bit 8 ltac:(lia)) as Hm.
  split; [|split; [done|]].
  - apply with_byte_ok; [done|]. split; [apply Z.land_nonneg; lia|].
    apply byte_bits; [|apply Z.land_nonneg; lia]. intros n Hn.
    rewrite Z.land_spec, byte_high by lia. done.
  - intros i Hi. rewrite raw_bit_with by done. rewrite (same_bit i bit) by lia. unfold raw_bit.
    destruct (i / 8 =? bit / 8) eqn:E; [|done]. apply Z.eqb_eq in E. rewrite E.
    pose proof (Z.mod_pos_bound i 8 ltac:(lia)) as Hmi.
    rewrite Z.land_spec, Z.lxor_spec, Z.shiftl_1_l. change 255 with (Z.ones 8).
    rewrite Z.ones_spec_low by lia. cbn [andb].
    destruct (i mod 8 =? bit mod 8) eqn:E2.
    + apply Z.eqb_eq in E2. rewrite E2, Z.pow2_bits_true by lia. simpl. apply andb_false_r.
    + rewrite Z.pow2_bits_false by lia. simpl. apply andb_true_r.
Qed.

(** ** The properties *)

(** a bitfield behaves like a set of bit numbers below its size: a new one is
    empty, setting and clearing change exactly the addressed bit, and a bit beyond the
    size is refused and reads as not set. *)
Theorem bitfield_is_bit_set (b : bitfield) (bit : Z) :
  bf_ok b -> 0 <= bit ->
  (forall i, 0 <= i -> sge_bitfield_get (Some (sge_bitfield_init (size b))) i = false) /\
  (bit < size b ->
   exists b1 b2, sge_bitfield_set (Some b) bit = (true, Some b1) /\
     sge_bitfield_clear (Some b) bit = (true, Some b2) /\ bf_ok b1 /\ bf_ok b2 /\
     forall i, 0 <= i ->
       sge_bitfield_get (Some b1) i = (i =? bit) || sge_bitfield_get (Some b) i /\
       sge_bitfield_get (Some b2) i = negb (i =? bit) && sge_bitfield_get (Some b) i) /\
  (size b <= bit ->
   sge_bitfield_set (Some b) bit = (false, Some b) /\
   sge_bitfield_clear (Some b) bit = (false, Some b) /\
   sge_bitfield_get (Some b) bit = false).
Proof.
  intros Hb Hbit. split; [|split].
  - intros i Hi. unfold sge_bitfield_get, byte_at. cbn [buf sge_bitfield_init].
    unfold cleared. rewrite nth_lookup.
    destruct (replicate _ 0 !! _) as [c|] eqn:E; [apply lookup_replicate in E as [-> _]|];
      apply andb_false_r.
  - intros Hlt. destruct (set_spec b bit Hb ltac:(lia)) as (b1 & -> & Hok1 & Hs1 & H1).
    destruct (clear_spec b bit Hb ltac:(lia)) as (b2 & -> & Hok2 & Hs2 & H2).
    exists b1, b2. do 4 (split; [done|]). intros i Hi.
    rewrite !get_raw, H1, H2, Hs1, Hs2 by done.
    destruct (i =? bit) eqn:E; simpl; [|done]. apply Z.eqb_eq in E as ->.
    rewrite (proj2 (Z.ltb_lt _ _)) by lia. done.
  - intros Hge. unfold sge_bitfield_set, sge_bitfield_clear, sge_bitfield_get.
    rewrite (proj2 (Z.leb_le _ _)), (proj2 (Z.ltb_ge _ _)) by lia. done.
Qed.

Lemma bitfield_is_bit_set_witness :
  let b := sge_bitfield_init 100 in
  bf_ok b /\ sge_bitfield_set (Some b) 100 = (false, Some b).
Proof.
  assert (bf_ok (sge_bitfield_init 100)) as Hok.
  { split; [simpl; lia|reflexivity|]. apply Forall_replicate. lia. }
  split; [exact Hok|].
  apply (bitfield_is_bit_set (sge_bitfield_init 100) 100 Hok); vm_compute; congruence.
Defined.

(** Copying bits 0-15 of a 16 bit field into a 4 bit field leaves bit 6 of the source
    behind: no bit is set, yet the field counts as changed. *)
Example bitwise_copy_leaves_stray_bits :
  let s := (sge_bitfield_set (Some (sge_bitfield_init 16)) 6).2 in
  let t := (sge_bitfield_bitwise_copy s (Some (sge_bitfield_init 4))).2 in
  (forall i, 0 <= i < 4 -> sge_bitfield_get t i = false) /\ sge_bitfield_changed t = true.
Proof.
  split; [|reflexivity]. intros i Hi.
  assert (i = 0 \/ i = 1 \/ i = 2 \/ i = 3) as [->|[->|[->| ->]]] by lia; reflexivity.
Qed.

End Bitfield.
