(* ===== verification/UniqueFifo.v ===== *)
(** The queue without duplicates ([libs/uti/ocs_UniqueFifo.h]): a deque and a set kept
    in step. *)

From S2P Require Import Prelude.

Module UniqueFifo.

Section Fifo.
Context {T : Type} `{Countable T}.

Record fifo := Fifo { order_ : list T; seen_ : gset T }.

Definition empty_fifo : fifo := Fifo [] ∅.

Definition push (f : fifo) (value : T) : bool * fifo :=
  if decide (value ∈ seen_ f) then (false, f)
  else (true, Fifo (order_ f ++ [value]) ({[value]} ∪ seen_ f)).

(** The caller makes sure the queue is not empty: [None] is the undefined behaviour of
    [front] on an empty deque. *)
Definition pop_front (f : fifo) : option (T * fifo) :=
  match order_ f with
  | [] => None
  | value :: order => Some (value, Fifo order (seen_ f ∖ {[value]}))
  end.

Definition is_empty (f : fifo) : bool := match order_ f with [] => true | _ => false end.
Definition fifo_size (f : fifo) : nat := length (order_ f).
Definition clear (f : fifo) : fifo := Fifo [] ∅.

Inductive action := Push (v : T) | Pop | Clear.

(** A client that pops only when the queue is not empty. *)
Definition act (f : fifo) (a : action) : fifo :=
  match a with
  | Push v => (push f v).2
  | Pop => match pop_front f with Some (_, f') => f' | None => f end
  | Clear => clear f
  end.

Definition in_step (f : fifo) : Prop :=
  NoDup (order_ f) /\ forall v, v ∈ seen_ f <-> v ∈ order_ f.

Lemma in_step_act f a : in_step f -> in_step (act f a).
Proof.
  intros [Hn Hs]. destruct a as [v| |]; simpl.
  - unfold push. destruct (decide (v ∈ seen_ f)) as [Hin|Hin]; simpl; [done|].
    rewrite Hs in Hin. split; simpl.
    + apply NoDup_app. split; [done|]. split; [|apply NoDup_singleton]. set_solver.
    + set_solver.
  - unfold pop_front. destruct (order_ f) as [|v order] eqn:E; [by split; rewrite ?E|].
    apply NoDup_cons in Hn as [Hn1 Hn2]. split; simpl; [done|]. set_solver.
  - split; [constructor|set_solver].
Qed.

(** After any sequence of pushes, pops and clears the deque and the set hold the
    same values, none twice; a push is accepted exactly when the value is not queued
    and then goes to the end; a pop returns the oldest value, which may be pushed
    again afterwards. *)
Theorem fifo_in_step (actions : list action) (v : T) :
  let f := fold_left act actions empty_fifo in
  NoDup (order_ f) /\ (forall x, x ∈ seen_ f <-> x ∈ order_ f) /\
  (push f v).1 = negb (bool_decide (v ∈ order_ f)) /\
  order_ (push f v).2 = (if (push f v).1 then order_ f ++ [v] else order_ f) /\
  match pop_front f with
  | None => order_ f = []
  | Some (x, f') => order_ f = x :: order_ f' /\ (push f' x).1 = true
  end.
Proof.
  intros f. assert (in_step f) as [Hn Hs].
  { unfold f. assert (in_step empty_fifo) as H0 by (split; [constructor|set_solver]).
    revert H0. generalize empty_fifo. induction actions as [|a l IH]; intros g Hg; simpl; [done|].
    by apply IH, in_step_act. }
  split; [done|]. split; [done|]. split; [|split].
  - unfold push. destruct (decide (v ∈ seen_ f)) as [Hin|Hin]; rewrite Hs in Hin; simpl.
    + by rewrite bool_decide_eq_true_2.
    + by rewrite bool_decide_eq_false_2.
  - unfold push. by destruct (decide (v ∈ seen_ f)).
  - unfold pop_front. destruct (order_ f) as [|x order] eqn:E; [done|]. split; [done|].
    unfold push. by rewrite decide_False by set_solver.
Qed.

End Fifo.
End UniqueFifo.
