(* ===== verification/SUser.v ===== *)
(** Job counters per submit user ([libs/sgeobj/sge_suser.cc]).

    [master_suser_list] is passed by value: [suser_list_add] on a null list makes a list
    the caller never sees. The owner of a job is never null; appending to the list succeeds. *)

From S2P Require Import Prelude.

Module SUser.

(** [SU_Type]. *)
Record suser := SU { SU_name : string; SU_jobs : Z }.

Definition suser_list_find (l : option (list suser)) (name : string) : option suser :=
  match l with
  | Some l => find (fun u => bool_decide (SU_name u = name)) l
  | None => None
  end.

(** The list and the element found in it or appended to it. *)
Definition suser_list_add (l : option (list suser)) (name : string) :
    list suser * suser :=
  match suser_list_find l name with
  | Some u => (default [] l, u)
  | None => (default [] l ++ [SU name 0], SU name 0)
  end.

(** Changes the counter of the element [suser_list_find] returns. *)
Fixpoint set_jobs (l : list suser) (name : string) (f : Z -> Z) : list suser :=
  match l with
  | [] => []
  | u :: l =>
      if decide (SU_name u = name) then SU (SU_name u) (f (SU_jobs u)) :: l
      else u :: set_jobs l name f
  end.

Definition suser_increase_job_counter (jobs : Z) : Z := u32 (jobs + 1).
Definition suser_decrease_job_counter (jobs : Z) : Z := if jobs =? 0 then jobs else u32 (jobs - 1).
Definition suser_get_job_counter (u : option suser) : Z :=
  match u with Some u => SU_jobs u | None => 0 end.

(** [by_value l l']: what the caller's list is when the callee ends with [l']. *)
Definition by_value (l : option (list suser)) (l' : list suser) : option (list suser) :=
  match l with Some _ => Some l' | None => None end.

Definition suser_check_new_job (owner : string) (max_u_jobs : Z) (l : option (list suser)) :
    Z * option (list suser) :=
  let '(l', u) := suser_list_add l owner in
  (if (max_u_jobs =? 0) || (SU_jobs u <? max_u_jobs) then 0 else 1, by_value l l').

Definition suser_register_new_job (owner : string) (max_u_jobs : Z) (force : bool)
    (l : option (list suser)) : Z * option (list suser) :=
  let '(ret, l) := if force then (0, l) else suser_check_new_job owner max_u_jobs l in
  if ret =? 0 then
    let '(l', _) := suser_list_add l owner in
    (ret, by_value l (set_jobs l' owner suser_increase_job_counter))
  else (ret, l).

Definition suser_job_count (owner : string) (l : option (list suser)) : Z :=
  suser_get_job_counter (suser_list_find l owner).

Definition suser_unregister_job (owner : string) (l : option (list suser)) :
    option (list suser) :=
  match suser_list_find l owner with
  | Some _ => (fun l => set_jobs l owner suser_decrease_job_counter) <$> l
  | None => l
  end.

(** ** Counters *)

Lemma find_set_jobs l name f x :
  find (fun u => bool_decide (SU_name u = x)) (set_jobs l name f) =
  if decide (x = name)
  then (fun u => SU (SU_name u) (f (SU_jobs u))) <$> find (fun u => bool_decide (SU_name u = x)) l
  else find (fun u => bool_decide (SU_name u = x)) l.
Proof.
  induction l as [|u l IH]; simpl; [by destruct (decide _)|].
  destruct (decide (SU_name u = name)) as [E|E]; simpl.
  - destruct (decide (x = name)) as [->|Hx].
    + rewrite !bool_decide_eq_true_2 by done. done.
    + rewrite !bool_decide_eq_false_2 by congruence. done.
  - rewrite IH. destruct (decide (x = name)) as [->|Hx]; [|done].
    rewrite bool_decide_eq_false_2 by done. done.
Qed.

Lemma count_set_jobs l name f x :
  suser_job_count x (Some (set_jobs l name f)) =
  if decide (x = name)
  then match suser_list_find (Some l) name with Some u => f (SU_jobs u) | None => 0 end
  else suser_job_count x (Some l).
Proof.
  unfold suser_job_count, suser_list_find. rewrite find_set_jobs.
  destruct (decide (x = name)) as [->|]; [|done]. by destruct (find _ l).
Qed.

Lemma find_app_one l u x :
  find (fun u => bool_decide (SU_name u = x)) (l ++ [u]) =
  match find (fun u => bool_decide (SU_name u = x)) l with
  | Some v => Some v
  | None => if decide (SU_name u = x) then Some u else None
  end.
Proof.
  induction l as [|v l IH]; simpl.
  - by destruct (decide (SU_name u = x)) as [E|E];
      [rewrite bool_decide_eq_true_2|rewrite bool_decide_eq_false_2].
  - by destruct (bool_decide _).
Qed.

(** Adding an entry changes no counter, and the returned element is in the list. *)
Lemma add_spec l name :
  let '(l', u) := suser_list_add (Some l) name in
  suser_list_find (Some l') name = Some u /\ SU_jobs u = suser_job_count name (Some l) /\
  forall x, suser_job_count x (Some l') = suser_job_count x (Some l).
Proof.
  unfold suser_list_add, suser_job_count, suser_list_find.
  destruct (find (fun u => bool_decide (SU_name u = name)) l) as [u|] eqn:E; simpl.
  - by rewrite E.
  - rewrite find_app_one, E. simpl.
    rewrite decide_True by done. split; [done|]. split; [done|]. intros x.
    rewrite find_app_one. destruct (find (fun u => bool_decide (SU_name u = x)) l); [done|].
    simpl. by destruct (decide (name = x)).
Qed.

Lemma register_spec owner max force l :
  exists l', suser_register_new_job owner max force (Some l) =
    (if force || (max =? 0) || (suser_job_count owner (Some l) <? max) then 0 else 1, Some l') /\
    forall x, suser_job_count x (Some l') =
      if decide (x = owner /\ (force || (max =? 0) || (suser_job_count owner (Some l) <? max)))
      then u32 (suser_job_count owner (Some l) + 1)
      else suser_job_count x (Some l).
Proof.
  assert (forall l0, exists l1, suser_list_add (Some l0) owner = l1 /\
    forall x, suser_job_count x (Some (set_jobs l1.1 owner suser_increase_job_counter)) =
      if decide (x = owner) then u32 (suser_job_count owner (Some l0) + 1)
      else suser_job_count x (Some l0)) as Hreg.
  { intros l0. pose proof (add_spec l0 owner) as Ha. destruct (suser_list_add (Some l0) owner) as [l1 u].
    destruct Ha as (Hf & Hj & Hx). exists (l1, u). split; [done|]. intros x. simpl.
    rewrite count_set_jobs, Hf, Hj, Hx. done. }
  unfold suser_register_new_job. destruct force; cbn [orb].
  - destruct (Hreg l) as ([l1 u] & -> & Hx). simpl in *. eexists. split; [reflexivity|].
    intros x. rewrite Hx. destruct (decide (x = owner)) as [->|Hne].
    + by rewrite decide_True.
    + rewrite decide_False; [done|]. intros [? _]; done.
  - unfold suser_check_new_job. pose proof (add_spec l owner) as Ha.
    destruct (suser_list_add (Some l) owner) as [l1 u]. destruct Ha as (Hf & Hj & Hx).
    rewrite Hj. cbn [by_value]. destruct ((max =? 0) || (suser_job_count owner (Some l) <? max)).
    + destruct (Hreg l1) as ([l2 u2] & -> & Hx2). simpl in *. eexists. split; [reflexivity|].
      intros x. rewrite Hx2, !Hx. destruct (decide (x = owner)) as [->|Hne].
      * by rewrite decide_True.
      * rewrite decide_False; [done|]. intros [? _]; done.
    + simpl. eexists. split; [reflexivity|]. intros x. rewrite Hx, decide_False; [done|].
      intros [_ []].
Qed.

Lemma unregister_spec owner l :
  exists l', suser_unregister_job owner (Some l) = Some l' /\
    forall x, suser_job_count x (Some l') =
      if decide (x = owner) then suser_decrease_job_counter (suser_job_count owner (Some l))
      else suser_job_count x (Some l).
Proof.
  unfold suser_unregister_job. destruct (suser_list_find (Some l) owner) as [u|] eqn:E.
  - eexists. split; [reflexivity|]. intros x. rewrite count_set_jobs, E.
    unfold suser_job_count at 2. by rewrite E.
  - exists l. split; [done|]. intros x. destruct (decide (x = owner)) as [->|]; [|done].
    unfold suser_job_count. by rewrite E.
Qed.

(** ** The properties *)

Inductive event := Register (owner : string) (force : bool) | Unregister (owner : string).

Definition handle (max : Z) (l : option (list suser)) (e : event) : option (list suser) :=
  match e with
  | Register owner force => (suser_register_new_job owner max force l).2
  | Unregister owner => suser_unregister_job owner l
  end.

(** with a limit per user, no sequence of unforced registrations and
    unregistrations on a master list brings a user over the limit: a registration is
    refused (return value 1, no counter changes) exactly when the owner has reached
    it, and otherwise counts the job for its owner and nobody else. *)
Theorem user_limit_kept (max : Z) (events : list event) (owner : string) :
  0 < max < 4294967296 ->
  Forall (fun e => match e with Register _ force => force = false | _ => True end) events ->
  exists l, fold_left (handle max) events (Some []) = Some l /\
    (forall x, 0 <= suser_job_count x (Some l) <= max) /\
    exists l', suser_register_new_job owner max false (Some l) =
        (if suser_job_count owner (Some l) <? max then 0 else 1, Some l') /\
      forall x, suser_job_count x (Some l') =
        suser_job_count x (Some l) +
        (if decide (x = owner /\ suser_job_count owner (Some l) < max) then 1 else 0).
Proof.
  intros Hmax Hev.
  assert (exists l, fold_left (handle max) events (Some []) = Some l /\
    forall x, 0 <= suser_job_count x (Some l) <= max) as (l & Hl & Hb).
  { assert (exists l0, Some [] = Some l0 /\ forall x, 0 <= suser_job_count x (Some l0) <= max)
      as (l0 & -> & H0) by (exists []; split; [done|]; intros x; unfold suser_job_count; simpl; lia).
    revert l0 H0. induction Hev as [|e events He Hev IH]; intros l0 H0; simpl; [eauto|].
    destruct e as [o force|o]; simpl.
    - subst force. destruct (register_spec o max false l0) as (l1 & -> & Hx). simpl. apply IH.
      intros x. rewrite Hx. destruct (decide _) as [[-> Hc]|]; [|done].
      pose proof (H0 o). apply Is_true_true in Hc. cbn [orb] in Hc. rewrite u32_small; lia.
    - destruct (unregister_spec o l0) as (l1 & -> & Hx). apply IH. intros x. rewrite Hx.
      destruct (decide (x = o)); [|done]. pose proof (H0 o). unfold suser_decrease_job_counter.
      destruct (_ =? 0) eqn:E; [lia|]. rewrite u32_small; lia. }
  exists l. split; [done|]. split; [done|].
  destruct (register_spec owner max false l) as (l' & -> & Hx). cbn [orb] in *.
  rewrite (proj2 (Z.eqb_neq max 0)) in * by lia. cbn [orb] in *. exists l'. split; [done|].
  intros x. rewrite Hx. pose proof (Hb owner).
  destruct (decide (x = owner /\ suser_job_count owner (Some l) < max)) as [[-> Hc]|Hc].
  - rewrite decide_True by (split; [done|]; apply Is_true_true; lia). rewrite u32_small; lia.
  - rewrite decide_False; [lia|]. intros [-> Hc']. apply Hc. split; [done|].
    apply Is_true_true in Hc'. lia.
Qed.

Lemma user_limit_kept_witness :
  exists l, fold_left (handle 2) [Register "a" false; Register "a" false; Register "a" false;
      Unregister "a"; Register "b" false] (Some []) = Some l /\
    (forall x, 0 <= suser_job_count x (Some l) <= 2).
Proof.
  destruct (user_limit_kept 2 [Register "a" false; Register "a" false; Register "a" false;
      Unregister "a"; Register "b" false] "a") as (l & H1 & H2 & _).
  - lia.
  - repeat (apply List.Forall_cons; [done|]). constructor.
  - exists l. split; [exact H1|exact H2].
Defined.

(** On a null master list a registration succeeds and is not counted. *)
Example null_list_not_counted :
  suser_register_new_job "a" 5 false None = (0, None) /\ suser_job_count "a" None = 0.
Proof. by split. Qed.

End SUser.
