(* ===== verification/QState.v ===== *)
(** The state bits of a queue instance ([libs/sgeobj/sge_qinstance_state.cc]): the setters and
    tests of the twelve flags, the parser and printer of the state letters [qstat] shows and
    the validation of [qmod] transitions. *)

From Stdlib Require Import Ascii.
From S2P Require Import Prelude Answer.
Import Answer.

Module QState.

(** ** Constants *)

Definition QI_ALARM : Z := 0x1.
Definition QI_SUSPEND_ALARM : Z := 0x2.
Definition QI_DISABLED : Z := 0x4.
Definition QI_SUSPENDED : Z := 0x100.
Definition QI_UNKNOWN : Z := 0x400.
Definition QI_ERROR : Z := 0x4000.
Definition QI_SUSPENDED_ON_SUBORDINATE : Z := 0x8000.
Definition QI_CAL_DISABLED : Z := 0x20000.
Definition QI_CAL_SUSPENDED : Z := 0x40000.
Definition QI_AMBIGUOUS : Z := 0x80000.
Definition QI_ORPHANED : Z := 0x100000.
Definition QI_FULL : Z := 0x200000.

Definition QI_DO_NOTHING : Z := 0x0.
Definition QI_DO_DISABLE : Z := 0x4.
Definition QI_DO_ENABLE : Z := 0x8.
Definition QI_DO_UNSUSPEND : Z := 0x80.
Definition QI_DO_SUSPEND : Z := 0x100.
Definition QI_DO_CLEARERROR : Z := 0x4000.
Definition QI_DO_RESCHEDULE : Z := 0x80000.

Definition JOB_DO_ACTION : Z := 0x80000000.
Definition QUEUE_DO_ACTION : Z := 0x40000000.

Definition QI_TRANSITION_NOTHING : Z := 0.
Definition QI_TRANSITION_OPTION : Z := 1.

Definition UINT32_MAX : Z := 0xffffffff.

(** [~x] on a [uint32_t]. *)
Definition u32_not (x : Z) : Z := u32 (Z.lnot x).

(** ** Data *)

(** The one attribute of a [QU_Type] element these functions use. *)
Record qinstance := QU { QU_state : Z }.

Definition states : list Z :=
  [QI_ALARM; QI_SUSPEND_ALARM; QI_CAL_SUSPENDED; QI_CAL_DISABLED; QI_DISABLED; QI_UNKNOWN;
   QI_ERROR; QI_SUSPENDED_ON_SUBORDINATE; QI_SUSPENDED; QI_AMBIGUOUS; QI_ORPHANED].

Definition letters : list Ascii.ascii :=
  (["a"; "A"; "C"; "D"; "d"; "u"; "E"; "S"; "s"; "c"; "o"])%char.

(** ** The state word *)

Definition qinstance_set_state (q : qinstance) (set_state : bool) (bit : Z) :
    bool * qinstance :=
  let old_state := QU_state q in
  let new_state := if set_state then Z.lor old_state bit else Z.land old_state (u32_not bit) in
  if negb (old_state =? new_state) then (true, QU new_state) else (false, q).

Definition qinstance_has_state (q : qinstance) (bit : Z) : bool :=
  if negb (bit =? UINT32_MAX) then negb (Z.land (QU_state q) bit =? 0) else true.

Definition qinstance_state_set_orphaned (q : qinstance) (set_state : bool) :=
  qinstance_set_state q set_state QI_ORPHANED.
Definition qinstance_state_is_orphaned (q : qinstance) := qinstance_has_state q QI_ORPHANED.
Definition qinstance_state_set_ambiguous (q : qinstance) (set_state : bool) :=
  qinstance_set_state q set_state QI_AMBIGUOUS.
Definition qinstance_state_is_ambiguous (q : qinstance) := qinstance_has_state q QI_AMBIGUOUS.
Definition qinstance_state_set_alarm (q : qinstance) (set_state : bool) :=
  qinstance_set_state q set_state QI_ALARM.
Definition qinstance_state_is_alarm (q : qinstance) := qinstance_has_state q QI_ALARM.
Definition qinstance_state_set_suspend_alarm (q : qinstance) (set_state : bool) :=
  qinstance_set_state q set_state QI_SUSPEND_ALARM.
Definition qinstance_state_is_suspend_alarm (q : qinstance) :=
  qinstance_has_state q QI_SUSPEND_ALARM.
Definition qinstance_state_set_manual_disabled (q : qinstance) (set_state : bool) :=
  qinstance_set_state q set_state QI_DISABLED.
Definition qinstance_state_is_manual_disabled (q : qinstance) :=
  qinstance_has_state q QI_DISABLED.
Definition qinstance_state_set_manual_suspended (q : qinstance) (set_state : bool) :=
  qinstance_set_state q set_state QI_SUSPENDED.
Definition qinstance_state_is_manual_suspended (q : qinstance) :=
  qinstance_has_state q QI_SUSPENDED.

(** [simulate] is what [mconf_get_simulate_execds] returns. *)
Definition qinstance_state_set_unknown (simulate : bool) (q : qinstance) (set_state : bool) :=
  if simulate then qinstance_set_state q false QI_UNKNOWN
  else qinstance_set_state q set_state QI_UNKNOWN.
Definition qinstance_state_is_unknown (q : qinstance) := qinstance_has_state q QI_UNKNOWN.
Definition qinstance_state_set_error (q : qinstance) (set_state : bool) :=
  qinstance_set_state q set_state QI_ERROR.
Definition qinstance_state_is_error (q : qinstance) := qinstance_has_state q QI_ERROR.
Definition qinstance_state_set_susp_on_sub (q : qinstance) (set_state : bool) :=
  qinstance_set_state q set_state QI_SUSPENDED_ON_SUBORDINATE.
Definition qinstance_state_is_susp_on_sub (q : qinstance) :=
  qinstance_has_state q QI_SUSPENDED_ON_SUBORDINATE.
Definition qinstance_state_set_cal_disabled (q : qinstance) (set_state : bool) :=
  qinstance_set_state q set_state QI_CAL_DISABLED.
Definition qinstance_state_is_cal_disabled (q : qinstance) :=
  qinstance_has_state q QI_CAL_DISABLED.
Definition qinstance_state_set_cal_suspended (q : qinstance) (set_state : bool) :=
  qinstance_set_state q set_state QI_CAL_SUSPENDED.
Definition qinstance_state_is_cal_suspended (q : qinstance) :=
  qinstance_has_state q QI_CAL_SUSPENDED.
Definition qinstance_state_set_full (q : qinstance) (set_state : bool) :=
  qinstance_set_state q set_state QI_FULL.
Definition qinstance_state_is_full (q : qinstance) := qinstance_has_state q QI_FULL.

(** ** Letters and names *)

(** The inner search of [qinstance_state_from_string]: the state of the first equal letter. *)
Fixpoint letter_state (c : Ascii.ascii) (ls : list Ascii.ascii) (ss : list Z) : option Z :=
  match ls, ss with
  | l :: ls, s :: ss => if decide (l = c) then Some s else letter_state c ls ss
  | _, _ => None
  end.

(** [SGE_EVENT] after [ERROR(MSG_QSTATE_UNKNOWNCHAR_CS, c, sstate)]: the text, cut to the
    log buffer of 8192 bytes. *)
Definition unknown_char_event (c : Ascii.ascii) (sstate : string) : string :=
  String.substring 0 8191
    ("unknown queue state: " ++ String c "" ++ " found in string: " ++ sstate)%string.

(** The outer loop over the characters from one position on, with its variables. *)
Fixpoint from_string_loop (sstate rest : string) (filter ustate : Z) (found : bool)
    (al : answer_arg) : Z * answer_arg :=
  match rest with
  | EmptyString => ((if found then ustate else UINT32_MAX), al)
  | String c rest =>
      let unknown :=
        (UINT32_MAX,
         (answer_list_add al (unknown_char_event c sstate) STATUS_ENOMGR
            ANSWER_QUALITY_ERROR).2) in
      match letter_state c letters states with
      | None => unknown
      | Some s =>
          let ustate := Z.lor ustate s in
          if negb (Z.land ustate (u32_not filter) =? 0) then unknown
          else from_string_loop sstate rest filter ustate true al
      end
  end.

Definition qinstance_state_from_string (sstate : string) (al : answer_arg) (filter : Z) :
    Z * answer_arg :=
  from_string_loop sstate sstate filter 0 false al.

Fixpoint append_letters (q : qinstance) (ss : list Z) (ls : list Ascii.ascii) : string :=
  match ss, ls with
  | s :: ss, l :: ls =>
      if qinstance_has_state q s then String l (append_letters q ss ls)
      else append_letters q ss ls
  | _, _ => EmptyString
  end.

(** The terminator appended last does not change the string. *)
Definition qinstance_state_append_to_dstring (q : qinstance) (ds : string) : bool * string :=
  (true, (ds ++ append_letters q states letters)%string).

(** The states of [qinstance_state_as_string]'s own table with their (untranslated) names. *)
Definition state_names : list (Z * string) :=
  [(QI_ALARM, "load alarm"); (QI_SUSPEND_ALARM, "suspend alarm"); (QI_DISABLED, "disabled");
   (QI_SUSPENDED, "suspended"); (QI_UNKNOWN, "unknown"); (QI_ERROR, "error");
   (QI_SUSPENDED_ON_SUBORDINATE, "suspended on subordinate");
   (QI_CAL_DISABLED, "calendar disabled"); (QI_CAL_SUSPENDED, "calendar suspended");
   (QI_AMBIGUOUS, "configuration ambiguous"); (QI_ORPHANED, "orphaned");
   (u32_not QI_ALARM, "no load alarm"); (u32_not QI_SUSPEND_ALARM, "no suspend alarm");
   (u32_not QI_DISABLED, "enabled"); (u32_not QI_SUSPENDED, "unsuspended");
   (u32_not QI_UNKNOWN, "not unknown"); (u32_not QI_ERROR, "no error");
   (u32_not QI_SUSPENDED_ON_SUBORDINATE, "no suspended on subordinate");
   (u32_not QI_CAL_DISABLED, "calendar enabled");
   (u32_not QI_CAL_SUSPENDED, "calendar unsuspended");
   (u32_not QI_AMBIGUOUS, "not configuration ambiguous");
   (u32_not QI_ORPHANED, "not orphaned")]%string.

Definition qinstance_state_as_string (bit : Z) : option string :=
  snd <$> List.find (fun p => p.1 =? bit) state_names.

(** ** Transitions *)

Definition transition_is_valid_for_qinstance (transition : Z) (al : answer_arg) :
    bool * answer_arg :=
  let transition := Z.land transition (u32_not JOB_DO_ACTION) in
  let transition := Z.land transition (u32_not QUEUE_DO_ACTION) in
  if existsb (Z.eqb transition)
       [QI_DO_NOTHING; QI_DO_DISABLE; QI_DO_ENABLE; QI_DO_SUSPEND; QI_DO_UNSUSPEND;
        QI_DO_CLEARERROR; QI_DO_RESCHEDULE]
  then (true, al)
  else (false, (answer_list_add al "Invalid action" STATUS_ESEMANTIC ANSWER_QUALITY_ERROR).2).

Definition transition_option_is_valid_for_qinstance (option : Z) (al : answer_arg) :
    bool * answer_arg :=
  if (option =? QI_TRANSITION_NOTHING) || (option =? QI_TRANSITION_OPTION) then (true, al)
  else (false,
        (answer_list_add al "Invalid option flag" STATUS_ESEMANTIC ANSWER_QUALITY_ERROR).2).

End QState.
