(* ===== verification/QStateProps.v ===== *)
(** Properties of the queue instance state: the flags are a set, and the letters [qstat] prints
    are read back as the same states. *)

From Stdlib Require Import Ascii.
From S2P Require Import Prelude Answer QState.
Import Answer QState.

Module QStateProps.

(** ** The flags *)

Inductive flag :=
  Orphaned | Ambiguous | Alarm | Suspend_alarm | Manual_disabled | Manual_suspended | Unknown
  | Error | Susp_on_sub | Cal_disabled | Cal_suspended | Full.

#[export] Instance flag_eq_dec : EqDecision flag.
Proof. solve_decision. Defined.

Definition bit_no (f : flag) : Z :=
  match f with
  | Alarm => 0 | Suspend_alarm => 1 | Manual_disabled => 2 | Manual_suspended => 8
  | Unknown => 10 | Error => 14 | Susp_on_sub => 15 | Cal_disabled => 17 | Cal_suspended => 18
  | Ambiguous => 19 | Orphaned => 20 | Full => 21
  end.

(** The setter and the test of each flag. *)
Definition set_flag (simulate : bool) (f : flag) : qinstance -> bool -> bool * qinstance :=
  match f with
  | Orphaned => qinstance_state_set_orphaned
  | Ambiguous => qinstance_state_set_ambiguous
  | Alarm => qinstance_state_set_alarm
  | Suspend_alarm => qinstance_state_set_suspend_alarm
  | Manual_disabled => qinstance_state_set_manual_disabled
  | Manual_suspended => qinstance_state_set_manual_suspended
  | Unknown => qinstance_state_set_unknown simulate
  | Error => qinstance_state_set_error
  | Susp_on_sub => qinstance_state_set_susp_on_sub
  | Cal_disabled => qinstance_state_set_cal_disabled
  | Cal_suspended => qinstance_state_set_cal_suspended
  | Full => qinstance_state_set_full
  end.

Definition is_flag (f : flag) : qinstance -> bool :=
  match f with
  | Orphaned => qinstance_state_is_orphaned
  | Ambiguous => qinstance_state_is_ambiguous
  | Alarm => qinstance_state_is_alarm
  | Suspend_alarm => qinstance_state_is_suspend_alarm
  | Manual_disabled => qinstance_state_is_manual_disabled
  | Manual_suspended => qinstance_state_is_manual_suspended
  | Unknown => qinstance_state_is_unknown
  | Error => qinstance_state_is_error
  | Susp_on_sub => qinstance_state_is_susp_on_sub
  | Cal_disabled => qinstance_state_is_cal_disabled
  | Cal_suspended => qinstance_state_is_cal_suspended
  | Full => qinstance_state_is_full
  end.

Lemma bit_no_inj f g : bit_no f = bit_no g -> f = g.
Proof. by destruct f, g. Qed.

Lemma bit_no_range f : 0 <= bit_no f < 32.
Proof. destruct f; simpl; lia. Qed.

(** ** One bit *)

Lemma u32_not_bits x n : 0 <= n < 32 -> Z.testbit (u32_not x) n = negb (Z.testbit x n).
Proof.
  intros Hn. unfold u32_not, u32. change 4294967296 with (2 ^ 32).
  rewrite Z.mod_pow2_bits_low, Z.lnot_spec by lia. done.
Qed.

Lemma u32_not_high x n : 32 <= n -> Z.testbit (u32_not x) n = false.
Proof.
  intros. unfold u32_not, u32. change 4294967296 with (2 ^ 32).
  apply Z.mod_pow2_bits_high. lia.
Qed.

Lemma has_bit q k :
  0 <= k < 32 -> qinstance_has_state q (2 ^ k) = Z.testbit (QU_state q) k.
Proof.
  intros Hk. unfold qinstance_has_state. rewrite (proj2 (Z.eqb_neq _ UINT32_MAX)).
  - simpl. by rewrite land_pow2_zero, negb_involutive by lia.
  - intros H. assert (Z.testbit (2 ^ k) (if decide (k = 0) then 1 else 0) =
      Z.testbit UINT32_MAX (if decide (k = 0) then 1 else 0)) as H' by (by rewrite H).
    destruct (decide (k = 0)) as [->|]; [done|].
    rewrite Z.pow2_bits_false in H' by lia. done.
Qed.

Lemma set_bit q b k :
  is_u32 (QU_state q) -> 0 <= k < 32 ->
  exists q', qinstance_set_state q b (2 ^ k) = (xorb (Z.testbit (QU_state q) k) b, q') /\
    is_u32 (QU_state q') /\
    forall n, 0 <= n -> Z.testbit (QU_state q') n =
                if decide (n = k) then b else Z.testbit (QU_state q) n.
Proof.
  intros Hq Hk. unfold qinstance_set_state.
  set (new := if b then _ else _).
  assert (forall n, 0 <= n -> Z.testbit new n =
            if decide (n = k) then b else Z.testbit (QU_state q) n) as Hn.
  { intros n Hn. subst new. destruct b.
    - rewrite Z.lor_spec. destruct (decide (n = k)) as [->|].
      + rewrite Z.pow2_bits_true by lia. apply orb_true_r.
      + rewrite Z.pow2_bits_false by congruence. apply orb_false_r.
    - rewrite Z.land_spec. destruct (Z_lt_le_dec n 32).
      + rewrite u32_not_bits by lia. destruct (decide (n = k)) as [->|].
        * rewrite Z.pow2_bits_true by lia. apply andb_false_r.
        * rewrite Z.pow2_bits_false by congruence. apply andb_true_r.
      + rewrite u32_not_high, (u32_high _ n Hq) by lia. by destruct (decide _) as [->|]; [lia|]. }
  assert (is_u32 new) as Hu.
  { apply u32_of_bits.
    - destruct Hq. subst new. destruct b.
      + apply Z.lor_nonneg. split; [done|]. apply Z.pow_nonneg. lia.
      + apply Z.land_nonneg. by left.
    - intros n ?. rewrite Hn by lia. rewrite decide_False by lia. by apply u32_high. }
  destruct (Z.eqb_spec (QU_state q) new) as [E|E]; simpl.
  - exists q. rewrite <- E in Hn. rewrite (Hn k), decide_True by lia. rewrite xorb_nilpotent.
    by split_and!.
  - exists (QU new). split_and!; [|done|done]. f_equal.
    destruct (xorb _ _) eqn:Hx; [done|]. exfalso. apply E. apply xorb_eq in Hx.
    apply Z.bits_inj'. intros n ?. rewrite Hn by done. by destruct (decide _) as [->|].
Qed.

Lemma is_flag_bit f q : is_flag f q = Z.testbit (QU_state q) (bit_no f).
Proof. rewrite <- has_bit by apply bit_no_range. by destruct f. Qed.

Lemma set_flag_bit simulate f q b :
  set_flag simulate f q b =
  qinstance_set_state q (b && negb (simulate && bool_decide (f = Unknown))) (2 ^ bit_no f).
Proof. destruct f, simulate; simpl; by rewrite ?andb_true_r, ?andb_false_r. Qed.

(** ** Parsing and printing letters *)

Lemma land_lor_zero a b m : (Z.land (Z.lor a b) m =? 0) = (Z.land a m =? 0) && (Z.land b m =? 0).
Proof.
  apply eq_true_iff_eq. rewrite andb_true_iff, !Z.eqb_eq, Z.land_lor_distr_l. apply Z.lor_eq_0_iff.
Qed.

(** The states of [ss] that [q] has, as one word. *)
Definition held (q : qinstance) (ss : list Z) : Z :=
  fold_right (fun s m => if qinstance_has_state q s then Z.lor s m else m) 0 ss.

Lemma nothing_printed (P : Z -> Ascii.ascii -> Prop) q ss ls :
  Forall2 P ss ls -> append_letters q ss ls = EmptyString -> held q ss = 0.
Proof.
  induction 1 as [|s l ss ls _ H IH]; [done|]. simpl.
  destruct (qinstance_has_state q s); [done|]. done.
Qed.

Lemma loop_append q full filter ss ls u found al :
  Forall2 (fun s l => s <> 0 /\ letter_state l letters states = Some s) ss ls ->
  Z.land u (u32_not filter) = 0 ->
  from_string_loop full (append_letters q ss ls) filter u found al =
  if Z.land (held q ss) (u32_not filter) =? 0
  then ((if found || negb (held q ss =? 0) then Z.lor u (held q ss) else UINT32_MAX), al)
  else (UINT32_MAX,
        match append_letters q ss ls with
        | EmptyString => al
        | _ => (answer_list_add al (unknown_char_event
                  (default "000"%char (snd <$> List.find (fun p => qinstance_has_state q p.1 &&
                     negb (Z.land p.1 (u32_not filter) =? 0)) (zip ss ls))) full)
                 STATUS_ENOMGR ANSWER_QUALITY_ERROR).2
        end).
Proof.
  intros H. revert u found. induction H as [|s l ss ls [Hs0 Hl] H IH]; intros u found Hu.
  { cbn. rewrite Z.lor_0_r, orb_false_r. done. }
  cbn [append_letters held fold_right zip_with List.find fst]. fold (held q ss).
  destruct (qinstance_has_state q s) eqn:Hq; cbn [andb].
  - cbn [from_string_loop]. rewrite Hl, land_lor_zero, Hu. cbn [Z.eqb andb].
    rewrite land_lor_zero.
    destruct (Z.land s (u32_not filter) =? 0) eqn:E; cbn [negb andb]; [|done].
    rewrite IH by (apply Z.eqb_eq; rewrite land_lor_zero, Hu, E; done).
    rewrite Z.lor_assoc. cbn [orb].
    rewrite (proj2 (Z.eqb_neq (Z.lor s (held q ss)) 0)) by (intros [? _]%Z.lor_eq_0_iff; done).
    rewrite orb_true_r. destruct (_ =? 0) eqn:E2; [done|].
    destruct (append_letters q ss ls) eqn:E3; [|done]. exfalso.
    by rewrite (nothing_printed _ _ _ _ H E3) in E2.
  - by rewrite IH.
Qed.

Lemma held_land q ss :
  Forall (fun s => exists k, 0 <= k < 32 /\ s = 2 ^ k) ss ->
  held q ss = Z.land (QU_state q) (fold_right Z.lor 0 ss).
Proof.
  induction 1 as [|s ss (k & Hk & ->) H IH]; simpl; [by rewrite Z.land_0_r|].
  rewrite Z.land_lor_distr_r, <- IH. fold (held q ss). rewrite has_bit by done.
  assert (Z.land (QU_state q) (2 ^ k) = if Z.testbit (QU_state q) k then 2 ^ k else 0) as ->.
  { apply Z.bits_inj'. intros n Hn. rewrite Z.land_spec.
    destruct (decide (n = k)) as [->|Hnk].
    - rewrite Z.pow2_bits_true, andb_true_r by lia.
      destruct (Z.testbit (QU_state q) k); [by rewrite Z.pow2_bits_true by lia|by rewrite Z.bits_0].
    - rewrite Z.pow2_bits_false, andb_false_r by congruence.
      destruct (Z.testbit (QU_state q) k); [by rewrite Z.pow2_bits_false by congruence|].
      by rewrite Z.bits_0. }
  by destruct (Z.testbit (QU_state q) k).
Qed.

Lemma states_bits : Forall (fun s => exists k, 0 <= k < 32 /\ s = 2 ^ k) states.
Proof.
  apply (Forall_impl (fun s => Z.log2 s < 32 /\ s = 2 ^ Z.log2 s)).
  - repeat constructor.
  - intros s [? E]. exists (Z.log2 s). split; [|done]. split; [apply Z.log2_nonneg|done].
Qed.

Lemma states_letters :
  Forall2 (fun s l => s <> 0 /\ letter_state l letters states = Some s) states letters.
Proof. repeat (constructor; [split; [done|vm_compute; reflexivity]|]). constructor. Qed.

(** ** The properties *)

(** What a sequence of setter calls returns and leaves; [spec_run] is the same on a set of
    flags, given as its characteristic function. *)
Fixpoint run (simulate : bool) (q : qinstance) (ops : list (flag * bool)) :
    list bool * qinstance :=
  match ops with
  | [] => ([], q)
  | (f, b) :: ops =>
      let '(changed, q) := set_flag simulate f q b in
      let '(rest, q) := run simulate q ops in (changed :: rest, q)
  end.

Fixpoint spec_run (simulate : bool) (s : flag -> bool) (ops : list (flag * bool)) :
    list bool * (flag -> bool) :=
  match ops with
  | [] => ([], s)
  | (f, b) :: ops =>
      let b := b && negb (simulate && bool_decide (f = Unknown)) in
      let '(rest, s') := spec_run simulate (fun g => if decide (g = f) then b else s g) ops in
      (xorb (s f) b :: rest, s')
  end.

(** the twelve flags of a queue instance are independent: after any sequence of setter
    calls every test answers what a set of flags updated in the same order holds (with
    simulated execution daemons the unknown flag is only ever cleared), every call has
    returned whether its flag changed, the word is still a [uint32_t] and its remaining bits
    are untouched. *)
Theorem flags_are_a_set (simulate : bool) (q : qinstance) (ops : list (flag * bool)) :
  is_u32 (QU_state q) ->
  let '(changed, q') := run simulate q ops in
  let '(changed', s') := spec_run simulate (fun f => is_flag f q) ops in
  changed = changed' /\ (forall f, is_flag f q' = s' f) /\ is_u32 (QU_state q') /\
  forall n, 0 <= n -> (forall f, bit_no f <> n) ->
    Z.testbit (QU_state q') n = Z.testbit (QU_state q) n.
Proof.
  assert (forall s, (forall f, is_flag f q = s f) -> is_u32 (QU_state q) ->
    let '(changed, q') := run simulate q ops in
    let '(changed', s') := spec_run simulate s ops in
    changed = changed' /\ (forall f, is_flag f q' = s' f) /\ is_u32 (QU_state q') /\
    forall n, 0 <= n -> (forall f, bit_no f <> n) ->
      Z.testbit (QU_state q') n = Z.testbit (QU_state q) n) as Hgen; [|by apply Hgen].
  revert q. induction ops as [|[f b] ops IH]; intros q s Hs Hq; simpl; [done|].
  rewrite set_flag_bit. set (b' := b && _).
  destruct (set_bit q b' (bit_no f) Hq (bit_no_range f)) as (q1 & -> & Hq1 & Hbits).
  specialize (IH q1 (fun g => if decide (g = f) then b' else s g)).
  destruct (run simulate q1 ops) as [ch q2], (spec_run simulate _ ops) as [ch' s2].
  destruct IH as (-> & Hf & Hu & Hn); [|done|].
  - intros g. rewrite is_flag_bit, Hbits by apply bit_no_range.
    destruct (decide (bit_no g = bit_no f)) as [E|E].
    + by rewrite decide_True by by apply bit_no_inj.
    + rewrite decide_False by (intros ->; done). by rewrite <- Hs, is_flag_bit.
  - split_and!; [by rewrite <- Hs, is_flag_bit|done|done|].
    intros n H0 Hno. rewrite Hn, Hbits by done. by rewrite decide_False by (intros ->; by eapply Hno).
Qed.

Lemma flags_are_a_set_witness :
  let '(changed, q') := run true (QU 0x80000001)
    [(Error, true); (Unknown, true); (Alarm, false); (Error, true); (Full, true)] in
  changed = [true; false; true; false; true] /\ is_flag Error q' = true /\
  is_flag Unknown q' = false /\ is_flag Alarm q' = false /\
  Z.testbit (QU_state q') 31 = Z.testbit 0x80000001 31.
Proof.
  assert (is_u32 (QU_state (QU 0x80000001))) as Hu by (vm_compute; done).
  pose proof (flags_are_a_set true (QU 0x80000001)
    [(Error, true); (Unknown, true); (Alarm, false); (Error, true); (Full, true)] Hu) as H.
  destruct (run true _ _) as [ch q'] eqn:E. destruct (spec_run true _ _) as [ch' s'] eqn:E'.
  destruct H as (-> & Hf & _ & Hn). injection E' as <- <-. rewrite !Hf.
  rewrite (Hn 31) by (done || intros []; simpl; lia). repeat split.
Defined.

(** printing the states of a queue instance and reading the letters back gives the
    states the letters can show, when the filter allows all of them; when it does not, the
    result is [UINT32_MAX] and one error answer naming a letter is added. A queue instance
    with none of these states prints nothing, and nothing reads back as [UINT32_MAX] too. *)
Theorem state_letters_roundtrip (q : qinstance) (filter : Z) (l : option answer_list) :
  let shown := Z.land (QU_state q) (fold_right Z.lor 0 states) in
  let '(ok, text) := qinstance_state_append_to_dstring q "" in
  let '(state, al) := qinstance_state_from_string text (Some l) filter in
  ok = true /\
  if shown =? 0 then state = UINT32_MAX /\ al = Some l
  else if Z.land shown (u32_not filter) =? 0 then state = shown /\ al = Some l
  else state = UINT32_MAX /\
    exists c, al = Some (Some (default [] l ++
      [Ans (unknown_char_event c text) STATUS_ENOMGR (quality_code ANSWER_QUALITY_ERROR)])).
Proof.
  intros shown. unfold qinstance_state_append_to_dstring, qinstance_state_from_string.
  rewrite (loop_append q _ filter states letters 0 false (Some l) states_letters) by done.
  rewrite held_land by apply states_bits. fold shown. cbn [orb String.append].
  destruct (Z.eqb_spec shown 0) as [E|E].
  - rewrite E. done.
  - destruct (Z.land shown (u32_not filter) =? 0); cbn [negb]; [done|]. split; [done|].
    split; [done|]. destruct (append_letters q states letters) eqn:Ea; [|by eexists].
    exfalso. apply E. subst shown. rewrite <- held_land by apply states_bits.
    by apply (nothing_printed _ _ _ _ states_letters).
Qed.

(** No flag is lost by the printer, whatever else the state word holds. *)
Example print_and_read :
  qinstance_state_append_to_dstring (QU 0x204404) "" = (true, "duE"%string) /\
  qinstance_state_from_string "duE" (Some None) UINT32_MAX = (0x4404, Some None).
Proof. by vm_compute. Qed.

(** The documentation promises 0 when no state was set; [UINT32_MAX] is returned, the mask
    [qinstance_has_state] finds in every queue instance. *)
Example empty_string_matches_everything (q : qinstance) :
  qinstance_state_from_string "" None UINT32_MAX = (UINT32_MAX, None) /\
  qinstance_has_state q UINT32_MAX = true.
Proof. done. Qed.

(** An action is a valid transition exactly when it is one of the seven documented ones
    once the two bits naming its target are masked out; the flags of the target never
    matter, and a refused action adds exactly one error answer. *)
Theorem transition_validation (action : Z) (job queue : bool) (l : option answer_list) :
  0 <= action < QUEUE_DO_ACTION ->
  transition_is_valid_for_qinstance
    (action + (if job then JOB_DO_ACTION else 0) + (if queue then QUEUE_DO_ACTION else 0))
    (Some l) =
  if existsb (Z.eqb action)
       [QI_DO_NOTHING; QI_DO_DISABLE; QI_DO_ENABLE; QI_DO_SUSPEND; QI_DO_UNSUSPEND;
        QI_DO_CLEARERROR; QI_DO_RESCHEDULE]
  then (true, Some l)
  else (false, Some (Some (default [] l ++
          [Ans "Invalid action" STATUS_ESEMANTIC (quality_code ANSWER_QUALITY_ERROR)]))).
Proof.
  intros Ha. unfold transition_is_valid_for_qinstance.
  assert (Z.land (Z.land (action + (if job then JOB_DO_ACTION else 0) +
    (if queue then QUEUE_DO_ACTION else 0)) (u32_not JOB_DO_ACTION)) (u32_not QUEUE_DO_ACTION)
    = action) as ->; [|by destruct (existsb _ _)].
  rewrite <- Z.land_assoc.
  change (Z.land (u32_not JOB_DO_ACTION) (u32_not QUEUE_DO_ACTION)) with (Z.ones 30).
  rewrite Z.land_ones by lia. unfold QUEUE_DO_ACTION, JOB_DO_ACTION in *.
  symmetry. apply Z.mod_unique with ((if job then 2 else 0) + (if queue then 1 else 0));
    destruct job, queue; lia.
Qed.

Lemma transition_validation_witness :
  transition_is_valid_for_qinstance 0xC0000008 (Some None) = (true, Some None).
Proof. exact (transition_validation 8 true true None ltac:(by vm_compute)). Defined.

End QStateProps.
