(* ===== verification/Utilization.v ===== *)
(** Resource diagrams of the scheduler ([libs/sched/sge_resource_utilization.cc]): how a
    resource is booked over time.

    A diagram is the list of the moments where the booked amount changes.  Amounts are
    [double]s: the operations take them through the class [Amount], [binary64] is the instance
    with the machine's arithmetic.  Core bindings are topology strings; this file uses them
    through the class [Topology], the interface of [ocs::TopologyString]. *)

From Stdlib Require Import SpecFloat.
From S2P Require Import Prelude.

Module Utilization.

(** ** Interfaces *)

(** The operations on [double] the code uses. *)
Class Amount (A : Type) := {
  amt_zero : A;
  amt_add : A -> A -> A;
  amt_sub : A -> A -> A;
  amt_eqb : A -> A -> bool;
  amt_leb : A -> A -> bool;
  amt_ltb : A -> A -> bool;
  amt_mul : A -> A -> A;
  amt_of_int : Z -> A;
}.

#[export] Instance binary64 : Amount spec_float := {
  amt_zero := S754_zero false;
  amt_add := SFadd 53 1024;
  amt_sub := SFsub 53 1024;
  amt_eqb := SFeqb;
  amt_leb := SFleb;
  amt_ltb := SFltb;
  amt_mul := SFmul 53 1024;
  amt_of_int := fun n => binary_normalize 53 1024 n 0 false;
}.

(** Amounts that are whole numbers: slots, licences, bytes. *)
#[export] Instance whole_amount : Amount Z := {
  amt_zero := 0;
  amt_add := Z.add;
  amt_sub := Z.sub;
  amt_eqb := Z.eqb;
  amt_leb := Z.leb;
  amt_ltb := Z.ltb;
  amt_mul := Z.mul;
  amt_of_int := fun n => n;
}.

(** What the diagrams use of [ocs::TopologyString]: [topo_show] is
    [to_string(true, true, true)], [topo_show_free] the same with every unit printed as
    unused, [topo_mark a b used] is [a.mark_nodes_as_used_or_unused(b, used)]. *)
Class Topology (T : Type) := {
  topo_empty : T;
  topo_is_empty : T -> bool;
  topo_of : string -> T;
  topo_show : T -> string;
  topo_show_free : T -> string;
  topo_mark : T -> T -> bool -> T;
}.

(** ** Times *)

Definition UINT64_MAX : Z := 18446744073709551615.
Definition DISPATCH_TIME_NOW : Z := 0.
Definition DISPATCH_TIME_QUEUE_END : Z := UINT64_MAX.

(** Conversion of a natural number to [double] (round to nearest, ties to even); the sum of
    two [double]s is the exact sum rounded in the same way. *)
Definition to_double (z : Z) : Z :=
  let ulp := 2 ^ Z.max 0 (Z.log2 z - 52) in
  let q := z / ulp in
  let r := z mod ulp in
  (if (ulp <? 2 * r) || ((2 * r =? ulp) && Z.odd q) then q + 1 else q) * ulp.

Definition utilization_endtime (start duration : Z) : Z :=
  if to_double (to_double start + to_double duration) <? to_double UINT64_MAX
  then u64 (start + duration) else UINT64_MAX.

(** ** Instances of resource maps: [RESL_Type] lists, identifier and amount *)

Abbreviation resl := (list (string * Z)).

Fixpoint resl_get (l : resl) (id : string) : option Z :=
  match l with
  | [] => None
  | (k, v) :: l => if decide (k = id) then Some v else resl_get l id
  end.

Fixpoint resl_set (l : resl) (id : string) (v : Z) : resl :=
  match l with
  | [] => []
  | (k, w) :: l => if decide (k = id) then (k, v) :: l else (k, w) :: resl_set l id v
  end.

Fixpoint resl_remove (l : resl) (id : string) : resl :=
  match l with
  | [] => []
  | (k, w) :: l => if decide (k = id) then l else (k, w) :: resl_remove l id
  end.

(** The body of the loop over [change]: one identifier taken or given back. *)
Definition rsmap_step (add : bool) (ids : resl) (c : string * Z) : resl :=
  let '(id, amount) := c in
  match resl_get ids id with
  | None => if add then ids ++ [(id, u32 (0 + amount))] else ids
  | Some in_use =>
      if add then resl_set ids id (u32 (in_use + amount))
      else if amount <? in_use then resl_set ids id (in_use - amount)
      else resl_remove ids id
  end.

Definition utilization_rsmap_set (previous change : resl) (add : bool) : resl :=
  fold_left (rsmap_step add) change previous.

Definition utilization_rsmap_equal (a b : resl) : bool :=
  (length a =? length b) &&
  forallb (fun '(id, v) => match resl_get b id with Some w => w =? v | None => false end) a.

Section operations.
Context {A : Type} {HA : Amount A} {T : Type} {HT : Topology T}.

(** ** Data *)

(** [RDE_Type]; an absent list of instances is an empty one. *)
Record rde := RDE {
  RDE_time : Z;
  RDE_amount : A;
  RDE_resource_map_list : resl;
  RDE_binding_inuse : option string;
}.

Abbreviation diagram := (list rde).

(** [RUE_Type]; a diagram that was never created is [None]. *)
Record rue := RUE {
  RUE_name : string;
  RUE_utilized_now : A;
  RUE_utilized_now_resource_map_list : resl;
  RUE_utilized_now_binding_inuse : option string;
  RUE_utilized : option diagram;
  RUE_utilized_now_nonexclusive : A;
  RUE_utilized_nonexclusive : option diagram;
}.

Inductive tag := NO_TAG | QUEUE_TAG | HOST_TAG | GLOBAL_TAG | PE_TAG | RQS_TAG.

#[export] Instance tag_eq_dec : EqDecision tag.
Proof. solve_decision. Defined.

(** ** Searching a diagram *)

Fixpoint find_from (d : diagram) (time : Z) (i : nat) (prev : option nat) :
    option nat * option nat :=
  match d with
  | [] => (None, prev)
  | r :: d =>
      if time =? RDE_time r then (Some i, prev)
      else if time <? RDE_time r then (None, prev)
      else find_from d time (S i) (Some i)
  end.

(** The positions of the entry at [time] and of the last entry before it. *)
Definition utilization_find_time_or_prevstart_or_prev (d : diagram) (time : Z) :
    option nat * option nat :=
  find_from d time 0 None.

(** ** Normalising a diagram *)

Definition same_entry (r r' : rde) : bool :=
  amt_eqb (RDE_amount r) (RDE_amount r') &&
  bool_decide (RDE_binding_inuse r = RDE_binding_inuse r') &&
  utilization_rsmap_equal (RDE_resource_map_list r) (RDE_resource_map_list r').

Fixpoint drop_leading_zero (d : diagram) : diagram :=
  match d with
  | r :: d' => if amt_eqb (RDE_amount r) amt_zero then drop_leading_zero d' else d
  | [] => []
  end.

(** The loop over the rest of the list; [r] is the last entry that stays. *)
Fixpoint drop_repeated (r : rde) (d : diagram) : diagram :=
  match d with
  | [] => []
  | r' :: d => if same_entry r r' then drop_repeated r d else r' :: drop_repeated r' d
  end.

Definition utilization_normalize (d : diagram) : diagram :=
  match drop_leading_zero d with
  | [] => []
  | r :: d => r :: drop_repeated r d
  end.

(** ** Booking *)

(** [TopologyString::elem_mark_nodes_as_used_or_unused] on the attribute of an entry. *)
Definition elem_mark_nodes_as_used_or_unused (attr : option string) (now to_use : T)
    (mark_used : bool) : option string :=
  if topo_is_empty to_use then attr
  else Some (topo_show
    (if topo_is_empty now
     then topo_of (if mark_used then topo_show to_use else topo_show_free to_use)
     else topo_mark now to_use mark_used)).

Definition topo_or_empty (s : option string) : T :=
  match s with Some s => topo_of s | None => topo_empty end.

(** What a booking puts on the entries of its window besides the amount: the binding
    ([None] unless [handle_binding]), the instances ([None] unless [handle_rsmap]). *)
Record booking := Booking {
  bk_amount : A;
  bk_binding : option T;
  bk_rsmap : option resl;
}.

Definition rsmap_taken (b : booking) : bool := amt_leb amt_zero (bk_amount b).

(** An entry inside the window. *)
Definition book_entry (b : booking) (r : rde) : rde :=
  RDE (RDE_time r) (amt_add (RDE_amount r) (bk_amount b))
    (match bk_rsmap b with
     | Some rs => utilization_rsmap_set (RDE_resource_map_list r) rs (rsmap_taken b)
     | None => RDE_resource_map_list r
     end)
    (match bk_binding b with
     | Some t => elem_mark_nodes_as_used_or_unused (RDE_binding_inuse r)
                   (topo_or_empty (RDE_binding_inuse r)) t true
     | None => RDE_binding_inuse r
     end).

(** A created entry starts without instances and without binding. *)
Definition new_entry (time : Z) (amount : A) (b : booking) (prev : option rde) (take used : bool) : rde :=
  RDE time amount
    (match bk_rsmap b with
     | Some rs => utilization_rsmap_set (from_option RDE_resource_map_list [] prev) rs take
     | None => []
     end)
    (match bk_binding b with
     | Some t => elem_mark_nodes_as_used_or_unused None (topo_or_empty (prev ≫= RDE_binding_inuse)) t used
     | None => None
     end).

Definition start_entry (b : booking) (start_time : Z) (prev : option rde) : rde :=
  new_entry start_time (amt_add (bk_amount b) (from_option RDE_amount amt_zero prev)) b prev
    (rsmap_taken b) true.

Definition end_entry (b : booking) (end_time : Z) (prev : rde) : rde :=
  new_entry end_time (amt_sub (RDE_amount prev) (bk_amount b)) b (Some prev)
    (negb (rsmap_taken b)) false.

(** The loop from the entry after the start; [prev] is the entry before [d]. *)
Fixpoint book_until (b : booking) (end_time : Z) (prev : rde) (d : diagram) : diagram :=
  match d with
  | [] => [end_entry b end_time prev]
  | r :: d' =>
      if end_time =? RDE_time r then d
      else if end_time <? RDE_time r then end_entry b end_time prev :: d
      else let r := book_entry b r in r :: book_until b end_time r d'
  end.

Definition book (b : booking) (start_time end_time : Z) (d : diagram) : diagram :=
  let '(start, prev) := utilization_find_time_or_prevstart_or_prev d start_time in
  let '(d, i) :=
    match start with
    | Some i => (alter (book_entry b) i d, i)
    | None =>
        let i := match prev with Some p => S p | None => O end in
        (take i d ++ start_entry b start_time (prev ≫= (d !!.)) :: drop i d, i)
    end in
  utilization_normalize
    (take (S i) d ++
     match d !! i with Some r => book_until b end_time r (drop (S i) d) | None => [] end).

(** The topology units of every element of [binding_touse], united; the code expects at least
    one element in a list that is not null. *)
Definition binding_union (binding_touse : list string) : T :=
  fold_left (fun acc s => topo_mark acc (topo_of s) true) binding_touse topo_empty.

Definition SGE_ATTR_SLOTS : string := "slots".

Definition make_booking (name : string) (utilization : A) (level : tag)
    (binding_touse : option (list string)) (rsmap_inuse : resl) : booking :=
  Booking utilization
    (if bool_decide (level = HOST_TAG) && bool_decide (name = SGE_ATTR_SLOTS)
     then binding_union <$> binding_touse else None)
    (if (bool_decide (level = HOST_TAG) || bool_decide (level = GLOBAL_TAG))
        && (0 <? length rsmap_inuse)
     then Some rsmap_inuse else None).

(** [max_reservations] is what [sconf_get_max_reservations] returns. The record
    [serf_record_entry] writes for monitoring is not modelled. *)
Definition utilization_add (max_reservations : Z) (cr : rue) (start_time duration : Z)
    (utilization : A) (level : tag) (for_job implicit_non_exclusive : bool)
    (binding_touse : option (list string)) (rsmap_inuse : resl) : rue :=
  let resource_diagram :=
    if implicit_non_exclusive then RUE_utilized_nonexclusive cr else RUE_utilized cr in
  if for_job && ((max_reservations =? 0) || (duration =? 0)) &&
     match resource_diagram with None => true | Some _ => false end
  then cr
  else
    let end_time := utilization_endtime start_time duration in
    let b := make_booking (RUE_name cr) utilization level binding_touse rsmap_inuse in
    let d := Some (book b start_time end_time (default [] resource_diagram)) in
    if implicit_non_exclusive
    then RUE (RUE_name cr) (RUE_utilized_now cr) (RUE_utilized_now_resource_map_list cr)
           (RUE_utilized_now_binding_inuse cr) (RUE_utilized cr)
           (RUE_utilized_now_nonexclusive cr) d
    else RUE (RUE_name cr) (RUE_utilized_now cr) (RUE_utilized_now_resource_map_list cr)
           (RUE_utilized_now_binding_inuse cr) d (RUE_utilized_now_nonexclusive cr)
           (RUE_utilized_nonexclusive cr).

End operations.

Arguments rde : clear implicits.
Arguments rue : clear implicits.
Arguments booking : clear implicits.

End Utilization.
