(* ===== verification/Binary64.v ===== *)
(** The [double]s that stand for whole multiples of a unit, and the operations on them that
    round nothing.

    The arithmetic is the one of the machine ([SpecFloat] with 53 digits and the exponents of
    binary64).  A [double] has 53 binary digits: the multiples of [2 ^ k] up to [2 ^ 53] units
    are represented, and a sum, a difference, a product or a comparison that stays below
    [2 ^ 53] units is exact. *)

From Stdlib Require Import SpecFloat.
From S2P Require Import Prelude.

Module Binary64.

(** The units: the smallest normal number to the largest one that leaves room for 53 digits. *)
Definition unit_ok (k : Z) : Prop := -1022 <= k <= 971.

(** The mantissa of [p] with all 53 digits in use. *)
Definition full_mantissa (p : positive) : positive :=
  Z.to_pos (Zpos p * 2 ^ (52 - Z.log2 (Zpos p))).

Definition full_exponent (k : Z) (p : positive) : Z := k + Z.log2 (Zpos p) - 52.

(** [z] times [2 ^ k]. *)
Definition double_of (k z : Z) : spec_float :=
  match z with
  | Z0 => S754_zero false
  | Zpos p => S754_finite false (full_mantissa p) (full_exponent k p)
  | Zneg p => S754_finite true (full_mantissa p) (full_exponent k p)
  end.

(** Representable without rounding. *)
Definition small (z : Z) : Prop := Z.abs z < 2 ^ 53.

(** ** Digits *)

Lemma digits2_log2 p : Zpos (digits2_pos p) = Z.log2 (Zpos p) + 1.
Proof.
  induction p as [p IH|p IH|]; cbn [digits2_pos]; [| |done]; rewrite Pos2Z.inj_succ, IH.
  - rewrite (Pos2Z.inj_xI p), Z.log2_succ_double by lia. lia.
  - rewrite (Pos2Z.inj_xO p), Z.log2_double by lia. lia.
Qed.

Lemma log2_small p : small (Zpos p) -> 0 <= Z.log2 (Zpos p) <= 52.
Proof.
  intros H. split; [apply Z.log2_nonneg|].
  assert (Z.log2 (Zpos p) < 53); [|lia]. by apply Z.log2_lt_pow2.
Qed.

Lemma log2_shift z n : 0 < z -> 0 <= n -> Z.log2 (z * 2 ^ n) = Z.log2 z + n.
Proof. intros. rewrite Z.log2_mul_pow2; lia. Qed.

Lemma shifted_pos z n : 0 < z -> 0 <= n -> 0 < z * 2 ^ n.
Proof. intros. apply Z.mul_pos_pos; [done|]. by apply Z.pow_pos_nonneg. Qed.

Lemma full_mantissa_Z p :
  small (Zpos p) -> Zpos (full_mantissa p) = Zpos p * 2 ^ (52 - Z.log2 (Zpos p)).
Proof.
  intros H%log2_small. unfold full_mantissa. rewrite Z2Pos.id; [done|].
  apply shifted_pos; lia.
Qed.

(** ** Shifting digits out *)

Lemma iter_pos_nat {A} (f : A -> A) n x : SpecFloat.iter_pos f n x = Nat.iter (Pos.to_nat n) f x.
Proof.
  revert x. induction n as [n IH|n IH|]; intros x; cbn [SpecFloat.iter_pos]; [| |done].
  - rewrite !IH, Pos2Nat.inj_xI, Nat.iter_succ_r, <- Nat.iter_add. f_equal. lia.
  - rewrite !IH, Pos2Nat.inj_xO, <- Nat.iter_add. f_equal. lia.
Qed.

Lemma shr_1_double m :
  0 < m -> shr_1 (Build_shr_record (2 * m) false false) = Build_shr_record m false false.
Proof. destruct m; [done| |done]. done. Qed.

Lemma shr_iter_exact n m :
  0 < m ->
  Nat.iter n shr_1 (Build_shr_record (m * 2 ^ Z.of_nat n) false false) =
  Build_shr_record m false false.
Proof.
  intros Hm. induction n as [|n IH]; [cbn [Nat.iter]; by rewrite Z.mul_1_r|].
  rewrite Nat.iter_succ_r.
  replace (m * 2 ^ Z.of_nat (S n)) with (2 * (m * 2 ^ Z.of_nat n)); [|].
  2:{ rewrite Nat2Z.inj_succ, Z.pow_succ_r by lia. lia. }
  rewrite shr_1_double; [done|]. apply shifted_pos; lia.
Qed.

(** Shifting [n] zero digits out loses nothing. *)
Lemma shr_exact m e n :
  0 < m -> 0 <= n ->
  shr (Build_shr_record (m * 2 ^ n) false false) e n = (Build_shr_record m false false, e + n).
Proof.
  intros Hm Hn. destruct n as [|p|p]; [|cbn [shr]|lia].
  - cbn [shr]. rewrite Z.mul_1_r, Z.add_0_r. done.
  - rewrite iter_pos_nat, <- (positive_nat_Z p). by rewrite shr_iter_exact.
Qed.

(** ** Rounding *)

Lemma fexp_normal k z :
  unit_ok k -> 0 < z -> fexp 53 1024 (Z.log2 z + 1 + k) = k + Z.log2 z - 52.
Proof.
  unfold unit_ok, fexp, emin. intros Hk Hz. pose proof (Z.log2_nonneg z). lia.
Qed.

Lemma Zdigits2_log2 z : 0 < z -> Zdigits2 z = Z.log2 z + 1.
Proof. destruct z; [done| |done]. intros _. apply digits2_log2. Qed.

(** [m * 2 ^ e] is [z] units and has at least 53 digits. *)
Lemma round_aux_exact sx k p m e :
  unit_ok k -> small (Zpos p) -> e <= full_exponent k p ->
  m = Zpos p * 2 ^ (k - e) ->
  binary_round_aux 53 1024 sx m e loc_Exact =
  S754_finite sx (full_mantissa p) (full_exponent k p).
Proof.
  intros Hk Hp He ->. pose proof (log2_small _ Hp) as Hl. unfold full_exponent in *.
  set (z := Zpos p) in *. set (l := Z.log2 z) in *.
  assert (0 < z) as Hz by done. unfold binary_round_aux, shr_fexp.
  rewrite Zdigits2_log2, log2_shift by (try apply shifted_pos; lia).
  replace (Z.log2 z + (k - e) + 1 + e) with (Z.log2 z + 1 + k) by lia.
  rewrite fexp_normal by done. cbn [shr_record_of_loc].
  replace (z * 2 ^ (k - e)) with (z * 2 ^ (52 - l) * 2 ^ (k + l - 52 - e)).
  2:{ rewrite <- Z.mul_assoc, <- Z.pow_add_r by lia. do 2 f_equal. lia. }
  rewrite shr_exact by (try apply shifted_pos; lia).
  cbn [shr_m loc_of_shr_record round_nearest_even].
  rewrite Zdigits2_log2, log2_shift by (try apply shifted_pos; lia). fold l.
  replace (l + (52 - l) + 1 + (e + (k + l - 52 - e))) with (l + 1 + k) by lia.
  unfold l at 3. rewrite fexp_normal by done. fold l.
  replace (k + l - 52 - (e + (k + l - 52 - e))) with 0 by lia. cbn [shr shr_m shr_record_of_loc].
  pose proof (full_mantissa_Z p Hp) as Hf. fold z l in Hf. rewrite <- Hf.
  rewrite (proj2 (Z.leb_le _ _)) by (unfold unit_ok in Hk; lia). f_equal. lia.
Qed.

Lemma iter_xO n m : Zpos (Pos.iter xO m n) = Zpos m * 2 ^ Zpos n.
Proof.
  induction n as [|n IH] using Pos.peano_ind; [cbn [Pos.iter]; lia|].
  rewrite Pos.iter_succ, Pos2Z.inj_succ, Z.pow_succ_r by lia.
  rewrite (Pos2Z.inj_xO (Pos.iter _ _ _)), IH. lia.
Qed.

Lemma shl_align_Z m e e' :
  e' <= e -> Zpos (fst (shl_align m e e')) = Zpos m * 2 ^ (e - e').
Proof.
  intros He. unfold shl_align. destruct (e' - e) as [|p|p] eqn:E; [|lia|].
  - replace (e - e') with 0 by lia. cbn [fst]. lia.
  - cbn [fst]. rewrite iter_xO. do 2 f_equal. lia.
Qed.

Lemma binary_round_exact sx k p m e :
  unit_ok k -> small (Zpos p) -> e <= k -> Zpos m = Zpos p * 2 ^ (k - e) ->
  binary_round 53 1024 sx m e = S754_finite sx (full_mantissa p) (full_exponent k p).
Proof.
  intros Hk Hp He Hm. pose proof (log2_small _ Hp) as Hl. unfold binary_round.
  assert (fexp 53 1024 (Z.pos (digits2_pos m) + e) = full_exponent k p) as ->.
  { rewrite digits2_log2, Hm, log2_shift by lia. unfold full_exponent.
    rewrite <- fexp_normal by done. f_equal. lia. }
  destruct (Z_le_gt_dec e (full_exponent k p)) as [Hle|Hgt].
  - assert (shl_align m e (full_exponent k p) = (m, e)) as ->.
    { unfold shl_align. by destruct (full_exponent k p - e) eqn:E; [..|lia]. }
    by apply round_aux_exact.
  - destruct (shl_align m e (full_exponent k p)) as [mz ez] eqn:E.
    assert (ez = full_exponent k p) as ->.
    { unfold shl_align in E. by destruct (full_exponent k p - e) eqn:E'; [lia..|]; simplify_eq. }
    apply round_aux_exact; [done..|].
    pose proof (shl_align_Z m e (full_exponent k p) ltac:(lia)) as Ha. rewrite E in Ha.
    cbn [fst] in Ha. rewrite Ha, Hm, <- Z.mul_assoc, <- Z.pow_add_r by lia. do 2 f_equal. lia.
Qed.

Lemma normalize_exact k z m e :
  unit_ok k -> small z -> e <= k -> m = z * 2 ^ (k - e) ->
  binary_normalize 53 1024 m e false = double_of k z.
Proof.
  intros Hk Hz He ->. assert (0 < 2 ^ (k - e)) by (apply Z.pow_pos_nonneg; lia).
  destruct z as [|p|p]; [done|..].
  - destruct (Zpos p * 2 ^ (k - e)) as [|m|m] eqn:E; [nia| |nia].
    by apply binary_round_exact.
  - destruct (Zneg p * 2 ^ (k - e)) as [|m|m] eqn:E; [nia|nia|].
    apply binary_round_exact; [done|done|done|]. nia.
Qed.

(** ** Sums and differences *)

(** A number that is not zero, in one formula for both signs. *)
Lemma double_of_finite k z :
  small z -> z <> 0 ->
  exists s p, double_of k z = S754_finite s (full_mantissa p) (full_exponent k p) /\
    small (Zpos p) /\ cond_Zopp s (Zpos p) = z.
Proof. destruct z as [|p|p]; [done|exists false, p|exists true, p]; done. Qed.

Lemma full_exponent_le k p : small (Zpos p) -> full_exponent k p <= k.
Proof. intros H%log2_small. unfold full_exponent. lia. Qed.

(** The mantissa aligned with a smaller exponent. *)
Lemma aligned k s p e :
  small (Zpos p) -> e <= full_exponent k p ->
  cond_Zopp s (Zpos (fst (shl_align (full_mantissa p) (full_exponent k p) e))) =
  cond_Zopp s (Zpos p) * 2 ^ (k - e).
Proof.
  intros Hp He. pose proof (log2_small _ Hp).
  rewrite shl_align_Z, full_mantissa_Z, <- Z.mul_assoc, <- Z.pow_add_r by first [done|lia].
  replace (52 - Z.log2 (Zpos p) + (full_exponent k p - e)) with (k - e)
    by (unfold full_exponent; lia).
  destruct s; cbn [cond_Zopp]; lia.
Qed.

Lemma double_add k x y :
  unit_ok k -> small x -> small y -> small (x + y) ->
  SFadd 53 1024 (double_of k x) (double_of k y) = double_of k (x + y).
Proof.
  intros Hk Hx Hy Hxy.
  destruct (Z.eq_dec x 0) as [->|Hx0]; [by destruct y|].
  destruct (Z.eq_dec y 0) as [->|Hy0]; [rewrite Z.add_0_r; by destruct x|].
  destruct (double_of_finite k x Hx Hx0) as (s & p & -> & Hp & Ex).
  destruct (double_of_finite k y Hy Hy0) as (s' & q & -> & Hq & Ey).
  cbn [SFadd]. pose proof (full_exponent_le k p Hp).
  apply normalize_exact; [done|done|lia|].
  rewrite !aligned, Ex, Ey by first [done|lia]. lia.
Qed.

Lemma double_sub k x y :
  unit_ok k -> small x -> small y -> small (x - y) ->
  SFsub 53 1024 (double_of k x) (double_of k y) = double_of k (x - y).
Proof.
  intros Hk Hx Hy Hxy.
  destruct (Z.eq_dec x 0) as [->|Hx0]; [by destruct y|].
  destruct (Z.eq_dec y 0) as [->|Hy0]; [rewrite Z.sub_0_r; by destruct x|].
  destruct (double_of_finite k x Hx Hx0) as (s & p & -> & Hp & Ex).
  destruct (double_of_finite k y Hy Hy0) as (s' & q & -> & Hq & Ey).
  cbn [SFsub]. pose proof (full_exponent_le k p Hp).
  apply normalize_exact; [done|done|lia|].
  rewrite !aligned, Ex, Ey by first [done|lia]. lia.
Qed.

(** ** Products *)

(** [x] units, [y] times. *)
Lemma double_mul k x y :
  unit_ok k -> 0 <= x -> 0 <= y -> small x -> small y -> small (x * y) ->
  SFmul 53 1024 (double_of k x) (double_of 0 y) = double_of k (x * y).
Proof.
  intros Hk Hx0 Hy0 Hx Hy Hxy.
  destruct x as [|p|p]; [by destruct y|..|lia].
  destruct y as [|q|q]; [done|..|lia].
  cbn [double_of SFmul xorb]. change (Zpos p * Zpos q) with (Zpos (p * q)) in *.
  cbn [double_of]. pose proof (log2_small _ Hx). pose proof (log2_small _ Hy).
  pose proof (Z.log2_mul_below (Zpos p) (Zpos q) ltac:(lia) ltac:(lia)) as Hl.
  assert (full_exponent k p + full_exponent 0 q <= full_exponent k (p * q)) as He.
  { unfold full_exponent. rewrite (Pos2Z.inj_mul p q). lia. }
  apply round_aux_exact; [done|done|done|].
  rewrite Pos2Z.inj_mul, !full_mantissa_Z, Pos2Z.inj_mul by done.
  replace (k - (full_exponent k p + full_exponent 0 q))
    with ((52 - Z.log2 (Zpos p)) + (52 - Z.log2 (Zpos q))) by (unfold full_exponent; lia).
  rewrite Z.pow_add_r by lia. lia.
Qed.

(** ** Comparisons *)

Lemma compare_magnitude k p q :
  small (Zpos p) -> small (Zpos q) ->
  match full_exponent k p ?= full_exponent k q with
  | Lt => Lt
  | Gt => Gt
  | Eq => Pos.compare_cont Eq (full_mantissa p) (full_mantissa q)
  end = (Zpos p ?= Zpos q).
Proof.
  intros Hp Hq. pose proof (log2_small _ Hp). unfold full_exponent.
  destruct (Z.compare_spec (k + Z.log2 (Zpos p) - 52) (k + Z.log2 (Zpos q) - 52)) as [E|E|E].
  - change (Pos.compare_cont Eq (full_mantissa p) (full_mantissa q))
      with (Zpos (full_mantissa p) ?= Zpos (full_mantissa q)).
    rewrite !full_mantissa_Z by done.
    assert (Z.log2 (Zpos p) = Z.log2 (Zpos q)) as <- by lia.
    symmetry. apply Zmult_compare_compat_r. apply Z.lt_gt, Z.pow_pos_nonneg; lia.
  - symmetry. apply Z.compare_lt_iff, Z.log2_lt_cancel. lia.
  - symmetry. apply Z.compare_gt_iff, Z.log2_lt_cancel. lia.
Qed.

Lemma double_compare k x y :
  small x -> small y -> SFcompare (double_of k x) (double_of k y) = Some (x ?= y).
Proof.
  intros Hx Hy. destruct x as [|p|p], y as [|q|q]; cbn [double_of SFcompare]; try done.
  - by rewrite compare_magnitude.
  - f_equal. assert ((Zneg p ?= Zneg q) = CompOpp (Zpos p ?= Zpos q)) as -> by done.
    rewrite <- (compare_magnitude k p q) by done.
    by destruct (full_exponent k p ?= full_exponent k q).
Qed.

Lemma double_eqb k x y :
  small x -> small y -> SFeqb (double_of k x) (double_of k y) = (x =? y).
Proof. intros. unfold SFeqb. rewrite double_compare by done. by rewrite Z.eqb_compare. Qed.

Lemma double_leb k x y :
  small x -> small y -> SFleb (double_of k x) (double_of k y) = (x <=? y).
Proof. intros. unfold SFleb. rewrite double_compare by done. by rewrite Z.leb_compare. Qed.

Lemma double_ltb k x y :
  small x -> small y -> SFltb (double_of k x) (double_of k y) = (x <? y).
Proof. intros. unfold SFltb. rewrite double_compare by done. by rewrite Z.ltb_compare. Qed.

Lemma double_inj k x y : small x -> small y -> double_of k x = double_of k y -> x = y.
Proof.
  intros Hx Hy E. apply Z.eqb_eq. rewrite <- (double_eqb k) by done. rewrite E.
  by rewrite double_eqb, Z.eqb_refl.
Qed.

Lemma small_le x y : Z.abs x <= Z.abs y -> small y -> small x.
Proof. unfold small. lia. Qed.

(** 0.5 is one half, 3 slots are the [double] 3.0. *)
Example double_of_half : double_of (-1) 1 = S754_finite false 4503599627370496 (-53).
Proof. reflexivity. Qed.

Example double_of_three :
  double_of 0 3 = SFadd 53 1024 (double_of 0 1) (double_of 0 2) /\
  double_of 0 3 = double_of (-2) 12.
Proof. by vm_compute. Qed.

End Binary64.
