(* ===== verification/UtilizationQuery.v ===== *)
(** Questions the scheduler asks a resource diagram
    ([libs/sched/sge_resource_utilization.cc]): the maximum over a window, the amount at queue
    end, the first time a request fits and the instances of a resource map taken in a window;
    and the decision the scheduler takes on the answers.

    Reading an attribute of a null element aborts the process; [None] stands for that. The
    argument [request] of the code is only passed on and never used, it is left out. *)

From S2P Require Import Prelude Utilization.
Import Utilization.

Module UtilizationQuery.

Section operations.
Context {A : Type} {HA : Amount A} {T : Type} {HT : Topology T}.

Abbreviation diagram := (list (rde A)).

(** What the searches use of [sge_assignment_t]; [a_test_strategy] is
    [BindingSchedd::test_strategy] for this assignment and the host in question. *)
Record assignment := Assignment {
  a_now : Z;
  a_duration : Z;
  a_test_strategy : A -> T -> A;
}.

(** [host] tells whether the host argument is not null. *)
Definition increase_util_depending_on_binding (a : option assignment) (host : bool)
    (binding_inuse : T) (util total slots : A) : A :=
  match a, host with
  | Some a, true =>
      let util_candidate := amt_sub total (a_test_strategy a slots binding_inuse) in
      if amt_ltb util util_candidate then util_candidate else util
  | _, _ => util
  end.

Definition diagram_of (d : option diagram) : diagram := default [] d.

Section query.
Variable a : option assignment.
Variable host : bool.
Variable total slots : A.

Definition increase (t : T) (util : A) : A :=
  increase_util_depending_on_binding a host t util total slots.

(** ** Queue end *)

Definition entry_util (r : rde A) : A :=
  match RDE_binding_inuse r with
  | Some s => increase (topo_of s) (RDE_amount r)
  | None => RDE_amount r
  end.

(** The last entry, or the one before it when the last one is at the end of time. *)
Definition queue_end_entry (d : diagram) : option (option (rde A)) :=
  match reverse d with
  | [] => Some None
  | ep :: before =>
      if negb (RDE_time ep =? UINT64_MAX) then Some (Some ep)
      else match before with p :: _ => Some (Some p) | [] => None end
  end.

Definition utilization_queue_end (cr : rue A) (for_excl_request : bool) (binding_inuse : T) :
    option (A * T) :=
  ep ← queue_end_entry (diagram_of (RUE_utilized cr));
  let max := from_option entry_util amt_zero ep in
  let str := ep ≫= RDE_binding_inuse in
  '(max, str) ←
    (if for_excl_request then
       ep ← queue_end_entry (diagram_of (RUE_utilized_nonexclusive cr));
       Some match ep with
            | Some r => if amt_ltb max (entry_util r) then (entry_util r, RDE_binding_inuse r)
                        else (max, str)
            | None => (max, str)
            end
     else Some (max, str));
  Some (max, match str with Some s => topo_of s | None => binding_inuse end).

(** ** The maximum over a window *)

(** The loop [while (rde != nullptr && end_time > RDE_time)]. *)
Fixpoint max_before_end (end_time : Z) (d : diagram) (max : A) (combined : T) : A * T :=
  match d with
  | [] => (max, combined)
  | r :: d =>
      if RDE_time r <? end_time then
        let '(candidate_max, combined) :=
          match RDE_binding_inuse r with
          | Some s =>
              let c := topo_mark combined (topo_of s) true in (increase c (RDE_amount r), c)
          | None => (RDE_amount r, combined)
          end in
        max_before_end end_time d
          (if amt_ltb max candidate_max then candidate_max else max) combined
      else (max, combined)
  end.

(** The search in one of the two diagrams. *)
Definition window_max (d : diagram) (start_time end_time : Z) (combined : T) : A * T :=
  let '(start, prev) := utilization_find_time_or_prevstart_or_prev d start_time in
  match (match start with Some i => Some i | None => prev end) with
  | Some i =>
      match d !! i with
      | Some r =>
          let combined := match RDE_binding_inuse r with Some s => topo_of s | None => combined end in
          let max := match RDE_binding_inuse r with
                     | Some _ => increase combined (RDE_amount r)
                     | None => RDE_amount r
                     end in
          max_before_end end_time (drop (S i) d) max combined
      | None => (amt_zero, combined)
      end
  | None => max_before_end end_time d amt_zero combined
  end.

Definition utilization_max (cr : rue A) (start_time duration : Z) (for_excl_request : bool)
    (combined_binding_inuse : T) : option (A * T) :=
  let end_time := utilization_endtime start_time duration in
  if start_time =? DISPATCH_TIME_NOW then
    let max := RUE_utilized_now cr in
    let max := match RUE_utilized_now_binding_inuse cr with
               | Some s => increase (topo_of s) max
               | None => max
               end in
    let max := if for_excl_request
               then (if amt_ltb (RUE_utilized_now_nonexclusive cr) max then max
                     else RUE_utilized_now_nonexclusive cr)
               else max in
    Some (max, combined_binding_inuse)
  else if start_time =? DISPATCH_TIME_QUEUE_END then
    utilization_queue_end cr for_excl_request combined_binding_inuse
  else
    let '(max, combined) :=
      window_max (diagram_of (RUE_utilized cr)) start_time end_time combined_binding_inuse in
    Some
      (if for_excl_request then
         let '(max_nonexclusive, combined_nonexclusive) :=
           window_max (diagram_of (RUE_utilized_nonexclusive cr)) start_time end_time
             topo_empty in
         if amt_ltb max max_nonexclusive
         then (max_nonexclusive, topo_of (topo_show combined_nonexclusive))
         else (max, combined)
       else (max, combined)).

(** ** The first time a request fits *)

(** The loop over the entries from the last to the first; [reuse] holds the utilization and
    the binding fetched in the previous round ([reuse_prev_util]). *)
Fixpoint below_backwards (max_util : A) (rd : diagram) (reuse : option (A * option string))
    (combined : T) : Z * T :=
  match rd with
  | [] => (DISPATCH_TIME_NOW, combined)
  | r :: before =>
      let '(util, combined) :=
        match reuse with
        | None =>
            match RDE_binding_inuse r with
            | Some s => let c := topo_of s in (increase c (RDE_amount r), c)
            | None => (RDE_amount r, combined)
            end
        | Some (util, str) =>
            (util, match str with Some s => topo_mark combined (topo_of s) true
                                | None => combined end)
        end in
      if amt_leb util max_util then
        match before with
        | [] => below_backwards max_util before reuse combined
        | p :: _ =>
            let str := RDE_binding_inuse p in
            let util :=
              match str with
              | Some s => increase (topo_mark (topo_of s) combined true) (RDE_amount p)
              | None => RDE_amount p
              end in
            if amt_ltb max_util util then (RDE_time r, combined)
            else below_backwards max_util before (Some (util, str)) combined
        end
      else below_backwards max_util before reuse combined
  end.

Definition utilization_fits_duration (cr : rue A) (start duration : Z) (max_util : A)
    (for_excl_request : bool) (binding_inuse : T) : option (bool * T) :=
  '(peak, candidate_binding) ← utilization_max cr start duration for_excl_request topo_empty;
  Some (if amt_ltb max_util peak then (false, binding_inuse)
        else (true, topo_of (topo_show candidate_binding))).

(** The loop over the moments a window can open at. *)
Fixpoint first_window (cr : rue A) (now duration when : Z) (max_util : A)
    (for_excl_request : bool) (d : diagram) (combined : T) : option (Z * T) :=
  match d with
  | [] => Some (when, combined)
  | r :: d =>
      let candidate := RDE_time r in
      if candidate <=? now then
        first_window cr now duration when max_util for_excl_request d combined
      else if when <=? candidate then Some (when, combined)
      else
        '(fits, combined) ←
          utilization_fits_duration cr candidate duration max_util for_excl_request combined;
        if fits : bool then Some (candidate, combined)
        else first_window cr now duration when max_util for_excl_request d combined
  end.

Definition utilization_below (cr : rue A) (max_util : A) (for_excl_request : bool)
    (combined_binding_inuse : T) : option (Z * T) :=
  let '(when, combined) :=
    below_backwards max_util (reverse (diagram_of (RUE_utilized cr))) None
      combined_binding_inuse in
  let '(when, combined) :=
    if for_excl_request then
      let '(when_nonexclusive, combined_nonexclusive) :=
        below_backwards max_util (reverse (diagram_of (RUE_utilized_nonexclusive cr))) None
          topo_empty in
      if when <? when_nonexclusive
      then (when_nonexclusive, topo_of (topo_show combined_nonexclusive))
      else (when, combined)
    else (when, combined) in
  match a with
  | Some asg =>
      if negb (when =? DISPATCH_TIME_NOW) && (0 <? a_duration asg) then
        '(fits, combined) ←
          utilization_fits_duration cr (a_now asg) (a_duration asg) max_util for_excl_request
            combined;
        '(earlier, combined) ←
          (if fits : bool then Some (a_now asg, combined)
           else first_window cr (a_now asg) (a_duration asg) when max_util for_excl_request
                  (diagram_of (RUE_utilized cr)) combined);
        Some (if earlier <? when then earlier else when, combined)
      else Some (when, combined)
  | None => Some (when, combined)
  end.

End query.

(** ** Instances taken in a window *)

Definition rsmap_max_step (taken : resl) (c : string * Z) : resl :=
  let '(id, amount) := c in
  let taken := match resl_get taken id with None => taken ++ [(id, 0)] | Some _ => taken end in
  if default 0 (resl_get taken id) <? amount then resl_set taken id amount else taken.

Fixpoint rsmap_until (end_time : Z) (d : diagram) (taken : resl) : resl :=
  match d with
  | [] => taken
  | r :: d =>
      if end_time <=? RDE_time r then taken
      else rsmap_until end_time d (fold_left rsmap_max_step (RDE_resource_map_list r) taken)
  end.

Definition utilization_rsmap_max (cr : option (rue A)) (now start_time duration : Z) : resl :=
  match cr with
  | None => []
  | Some cr =>
      let at_queue_end := start_time =? DISPATCH_TIME_QUEUE_END in
      let start_time := if start_time =? DISPATCH_TIME_NOW then now else start_time in
      let taken := if negb at_queue_end && (start_time <=? now)
                   then RUE_utilized_now_resource_map_list cr else [] in
      match RUE_utilized cr with
      | None => taken
      | Some d =>
          let end_time := utilization_endtime start_time duration in
          let '(hit, before) := utilization_find_time_or_prevstart_or_prev d start_time in
          match (match hit with Some i => Some i | None => before end) with
          | Some i =>
              match drop i d with
              | r :: d =>
                  rsmap_until end_time d (fold_left rsmap_max_step (RDE_resource_map_list r) taken)
              | [] => taken
              end
          | None => rsmap_until end_time d taken
          end
      end
  end.

(** ** Admission ([libs/sched/sge_select_queue.cc])

    Can [slots] times [request] be had of an attribute from the start time on? *)

Inductive dispatch_t :=
  DISPATCH_NEVER | DISPATCH_MISSING_ATTR | DISPATCH_NOT_AT_TIME | DISPATCH_OK
| DISPATCH_NEVER_CAT | DISPATCH_NEVER_JOB.

#[global] Instance dispatch_t_eq : EqDecision dispatch_t.
Proof. solve_decision. Defined.

(** The same for a consumable of which [total] is there. [exclusive_op] tells whether the
    attribute compares with [CMPLXEXCL_OP]. *)
Definition consumable_by_slots (a : assignment) (host : bool) (actual_el : rue A)
    (total request : A) (slots : Z) (exclusive_op schedule_based : bool) (start_time : Z)
    (binding_inuse : T) : option (dispatch_t * Z * T) :=
  let now := a_now a in
  let utilized := length (diagram_of (RUE_utilized actual_el)) in
  let needed := amt_mul request (amt_of_int slots) in
  let is_exclusive := negb (amt_eqb request amt_zero) in
  let max := utilization_max (Some a) host total (amt_of_int slots) actual_el in
  if start_time =? DISPATCH_TIME_QUEUE_END then
    let threshold := amt_sub total needed in
    if amt_ltb threshold amt_zero then Some (DISPATCH_NEVER_CAT, start_time, binding_inuse)
    else
      '(when, binding_inuse) ← utilization_below (Some a) host total (amt_of_int slots) actual_el
                                 threshold is_exclusive binding_inuse;
      Some (DISPATCH_OK, if when =? 0 then now else when, binding_inuse)
  else if exclusive_op then
    '(util, binding_inuse) ← max start_time (a_duration a) is_exclusive binding_inuse;
    if negb (amt_eqb util amt_zero) then Some (DISPATCH_NEVER_CAT, start_time, binding_inuse)
    else if schedule_based || negb (utilized =? 0)%nat then
      '(util, binding_inuse) ← max now (a_duration a) is_exclusive binding_inuse;
      Some (if amt_eqb util amt_zero then DISPATCH_OK else DISPATCH_NEVER_CAT, start_time,
            binding_inuse)
    else Some (DISPATCH_OK, start_time, binding_inuse)
  else
    let ready_time := if start_time =? DISPATCH_TIME_NOW then now else start_time in
    '(util, binding_inuse) ← max ready_time (a_duration a) false binding_inuse;
    if amt_ltb (amt_sub total util) needed then
      (* the question whether only a reservation is in the way, for the message *)
      '(_, binding_inuse) ←
        (if a_duration a =? DISPATCH_TIME_NOW then Some (util, binding_inuse)
         else max ready_time DISPATCH_TIME_NOW false binding_inuse);
      Some (DISPATCH_NEVER_CAT, start_time, binding_inuse)
    else Some (DISPATCH_OK, start_time, binding_inuse).

(** The whole decision; the answer, the start time and the binding the searches collected are
    returned. The attribute has been found and compared without regard to time by
    [match_static_resource], with the answer [static_match]; [consumable] tells whether it is a
    consumable, [capacity] what the configuration offers of it, and [resolved] whether the
    request has got an amount. The instances of a resource map are not looked at: the request
    asks for an amount only. *)
Definition ri_time_by_slots (a : assignment) (host : bool) (actual_el : rue A)
    (static_match : dispatch_t) (consumable : bool) (capacity : option A) (resolved : bool)
    (request : A) (slots : Z) (exclusive_op schedule_based : bool) (start_time : Z)
    (binding_inuse : T) : option (dispatch_t * Z * T) :=
  let utilized := length (diagram_of (RUE_utilized actual_el)) in
  if negb (bool_decide (static_match = DISPATCH_OK)) ||
     negb schedule_based && (utilized =? 0)%nat && negb exclusive_op
  then Some (static_match, start_time, binding_inuse)
  else if negb consumable then
    Some (DISPATCH_OK, if start_time =? DISPATCH_TIME_QUEUE_END then a_now a else start_time,
          binding_inuse)
  else
    match capacity with
    | None => Some (DISPATCH_MISSING_ATTR, start_time, binding_inuse)
    | Some total =>
        if negb resolved then Some (DISPATCH_NEVER_CAT, start_time, binding_inuse)
        else consumable_by_slots a host actual_el total request slots exclusive_op schedule_based
               start_time binding_inuse
    end.

End operations.

Arguments assignment : clear implicits.

End UtilizationQuery.
