(* ===== verification/UtilizationFacts.v ===== *)
(** Lemmas on resource diagrams: a diagram as the step function of time it stands for, what
    booking and normalising do to that function and the canonical form of a diagram. *)

From S2P Require Import Prelude Utilization.
Import Utilization.

Module UtilizationFacts.

(** ** Ordered and exact amounts

    Questions asked of a diagram only compare amounts. *)
Class OrderedAmount (A : Type) {HA : Amount A} : Prop := {
  amt_leb_refl : forall x : A, amt_leb x x = true;
  amt_leb_trans : forall x y z : A, amt_leb x y = true -> amt_leb y z = true -> amt_leb x z = true;
  amt_ltb_leb : forall x y : A, amt_ltb x y = negb (amt_leb y x);
  amt_leb_total : forall x y : A, amt_leb x y = false -> amt_leb y x = true;
}.

(** The laws under which a diagram is a sum of its bookings.  They hold for the integers;
    [UtilizationDouble] carries what follows from them over to the [double]s of the code, as
    long as no operation rounds. *)
Class ExactAmount (A : Type) {HA : Amount A} : Prop := {
  amt_add_comm : forall x y : A, amt_add x y = amt_add y x;
  amt_add_assoc : forall x y z : A, amt_add x (amt_add y z) = amt_add (amt_add x y) z;
  amt_add_zero : forall x : A, amt_add x amt_zero = x;
  amt_add_sub : forall x y : A, amt_sub (amt_add x y) y = x;
  amt_sub_add : forall x y : A, amt_add (amt_sub x y) y = x;
  amt_eqb_spec : forall x y : A, amt_eqb x y = true <-> x = y;
}.

#[export] Instance whole_ordered : OrderedAmount Z.
Proof. constructor; simpl; intros; lia. Qed.

#[export] Instance whole_exact : ExactAmount Z.
Proof. constructor; simpl; intros; lia. Qed.

Section facts.
Context {A : Type} {HA : Amount A} {T : Type} {HT : Topology T}.

Implicit Types d : list (rde A).

(** ** The step function of a diagram *)

(** The amount in force at [t], [x] before the first entry. *)
Fixpoint level_from (x : A) d (t : Z) : A :=
  match d with
  | [] => x
  | r :: d => if RDE_time r <=? t then level_from (RDE_amount r) d t else x
  end.

Definition level d (t : Z) : A := level_from amt_zero d t.

(** The times increase strictly from above [lo]. *)
Fixpoint times_above (lo : Z) d : Prop :=
  match d with
  | [] => True
  | r :: d => lo < RDE_time r /\ times_above (RDE_time r) d
  end.

(** No entry repeats the amount before it. *)
Fixpoint changes_from (x : A) d : Prop :=
  match d with
  | [] => True
  | r :: d => RDE_amount r <> x /\ changes_from (RDE_amount r) d
  end.

(** Neither instances nor bindings. *)
Definition plain_entry (r : rde A) : Prop :=
  RDE_resource_map_list r = [] /\ RDE_binding_inuse r = None.

Lemma times_weaken lo lo' d : lo' <= lo -> times_above lo d -> times_above lo' d.
Proof. destruct d; simpl; [done|]. intros ? [? ?]. split; [lia|done]. Qed.

Lemma level_before x d t lo : times_above lo d -> t <= lo -> level_from x d t = x.
Proof. destruct d as [|r d]; simpl; [done|]. intros [? _] ?. destruct (_ <=? _) eqn:?; [lia|done]. Qed.

(** ** Booking as one walk along the diagram *)

Fixpoint book_from (b : booking A T) (s e : Z) (prev : option (rde A)) d : list (rde A) :=
  match d with
  | [] => let r := start_entry b s prev in r :: book_until b e r []
  | r :: d' =>
      if s =? RDE_time r then let r := book_entry b r in r :: book_until b e r d'
      else if s <? RDE_time r then
        let r0 := start_entry b s prev in r0 :: book_until b e r0 d
      else r :: book_from b s e (Some r) d'
  end.

(** The splicing of [book], on the positions [find_from] returns. *)
Definition splice (b : booking A T) (s e : Z) (d : list (rde A))
    (found : option nat * option nat) : list (rde A) :=
  let '(start, prev) := found in
  let '(d, i) :=
    match start with
    | Some i => (alter (book_entry b) i d, i)
    | None =>
        let i := match prev with Some p => S p | None => O end in
        (take i d ++ start_entry b s (prev ≫= (d !!.)) :: drop i d, i)
    end in
  take (S i) d ++
  match d !! i with Some r => book_until b e r (drop (S i) d) | None => [] end.

Lemma splice_insert b s e pre d prev :
  match prev with Some p => S p | None => O end = length pre ->
  prev ≫= ((pre ++ d) !!.) = last pre ->
  splice b s e (pre ++ d) (None, prev) =
  pre ++ (let r0 := start_entry b s (last pre) in r0 :: book_until b e r0 d).
Proof.
  intros Hp Hl. unfold splice. rewrite Hp, Hl, take_app_length, drop_app_length.
  rewrite list_lookup_middle by done.
  rewrite (cons_middle (start_entry b s (last pre)) pre d) at 1.
  rewrite app_assoc.
  rewrite (take_app_length' (pre ++ [_])) by (rewrite length_app; simpl; lia).
  rewrite (cons_middle _ pre d), app_assoc.
  rewrite (drop_app_length' (pre ++ [_])) by (rewrite length_app; simpl; lia).
  by rewrite <- app_assoc.
Qed.

Lemma splice_walk b s e d pre prev :
  match prev with Some p => S p | None => O end = length pre ->
  prev ≫= ((pre ++ d) !!.) = last pre ->
  splice b s e (pre ++ d) (find_from d s (length pre) prev) =
  pre ++ book_from b s e (last pre) d.
Proof.
  revert pre prev. induction d as [|r d IH]; intros pre prev Hp Hl; cbn [find_from book_from].
  - by rewrite splice_insert.
  - destruct (Z.eqb_spec s (RDE_time r)) as [E|E].
    + unfold splice. rewrite alter_app_r_alt, Nat.sub_diag by lia. simpl.
      rewrite list_lookup_middle by done. rewrite cons_middle, app_assoc.
      rewrite (take_app_length' (pre ++ [_])) by (rewrite length_app; simpl; lia).
      rewrite (drop_app_length' (pre ++ [_])) by (rewrite length_app; simpl; lia).
      by rewrite <- app_assoc.
    + destruct (s <? RDE_time r); [by rewrite splice_insert|].
      rewrite (cons_middle r pre d), app_assoc.
      replace (S (length pre)) with (length (pre ++ [r])) by (rewrite length_app; simpl; lia).
      rewrite IH.
      * by rewrite last_snoc, <- app_assoc.
      * rewrite length_app. simpl. lia.
      * rewrite last_snoc. simpl. rewrite <- app_assoc. by apply list_lookup_middle.
Qed.

Lemma book_as_walk b s e d : book b s e d = utilization_normalize (book_from b s e None d).
Proof.
  assert (book b s e d = utilization_normalize (splice b s e ([] ++ d)
    (find_from d s (length (@nil (rde A))) None))) as ->; [|by rewrite splice_walk].
  unfold book, splice, utilization_find_time_or_prevstart_or_prev. simpl.
  destruct (find_from d s 0 None) as [[i|] prev]; done.
Qed.

(** ** Shape: times and plain entries *)

Lemma times_book_until b e prev d :
  RDE_time prev < e -> times_above (RDE_time prev) d ->
  times_above (RDE_time prev) (book_until b e prev d).
Proof.
  revert prev. induction d as [|r d IH]; intros prev He Hd; simpl in *; [done|].
  destruct (Z.eqb_spec e (RDE_time r)); [done|]. destruct (Z.ltb_spec e (RDE_time r)); simpl.
  - by destruct Hd.
  - destruct Hd as [? Hd]. split; [done|]. apply (IH (book_entry b r)); [simpl; lia|done].
Qed.

Lemma times_book_from b s e lo prev d :
  s < e -> lo < s -> times_above lo d -> times_above lo (book_from b s e prev d).
Proof.
  intros He. revert lo prev. induction d as [|r d IH]; intros lo prev Hlo Hd; simpl in *; [done|].
  destruct Hd as [Hr Hd]. destruct (Z.eqb_spec s (RDE_time r)) as [E|E]; simpl.
  - split; [done|]. apply (times_book_until b e (book_entry b r)); [simpl; lia|done].
  - destruct (Z.ltb_spec s (RDE_time r)); simpl.
    + split; [done|]. by apply (times_book_until b e (start_entry b s prev) (r :: d)).
    + split; [done|]. apply IH; [lia|done].
Qed.

Lemma times_drop_zero lo d : times_above lo d -> times_above lo (drop_leading_zero d).
Proof.
  revert lo. induction d as [|r d IH]; intros lo; simpl; [done|]. intros [? ?].
  destruct (amt_eqb _ _); [|done]. apply IH. eapply times_weaken; [|done]. lia.
Qed.

Lemma times_drop_repeated lo r d : times_above lo d -> times_above lo (drop_repeated r d).
Proof.
  revert lo r. induction d as [|r' d IH]; intros lo r; simpl; [done|]. intros [? ?].
  destruct (same_entry r r'); simpl; [|by auto]. apply IH. eapply times_weaken; [|done]. lia.
Qed.

Lemma times_normalize lo d : times_above lo d -> times_above lo (utilization_normalize d).
Proof.
  intros H. apply times_drop_zero in H. unfold utilization_normalize.
  destruct (drop_leading_zero d) as [|r d']; [done|]. destruct H as [? H]. split; [done|].
  by apply times_drop_repeated.
Qed.

Definition plain_booking (b : booking A T) : Prop := bk_binding b = None /\ bk_rsmap b = None.

Lemma plain_book_until b e prev d :
  plain_booking b -> Forall plain_entry d -> Forall plain_entry (book_until b e prev d).
Proof.
  intros [Hb Hr]. assert (forall r, plain_entry (end_entry b e r)) as Hend.
  { intros r. unfold end_entry, new_entry, plain_entry. by rewrite Hb, Hr. }
  revert prev. induction d as [|r d IH]; intros prev Hd; simpl; [by constructor|].
  inversion_clear Hd. destruct (_ =? _); [by constructor|].
  destruct (_ <? _); [constructor; [apply Hend|by constructor]|]. constructor; [|by apply IH].
  unfold plain_entry, book_entry in *. by rewrite Hb, Hr.
Qed.

Lemma plain_book_from b s e prev d :
  plain_booking b -> Forall plain_entry d -> Forall plain_entry (book_from b s e prev d).
Proof.
  intros Hp. pose proof Hp as [Hb Hr].
  assert (forall p, plain_entry (start_entry b s p)) as Hs.
  { intros r. unfold start_entry, new_entry, plain_entry. by rewrite Hb, Hr. }
  revert prev. induction d as [|r d IH]; intros prev Hd; simpl.
  - constructor; [done|]. by apply (plain_book_until b e _ []).
  - inversion_clear Hd. destruct (_ =? _); [|destruct (_ <? _)]; constructor; try done.
    + unfold plain_entry, book_entry in *. by rewrite Hb, Hr.
    + by apply plain_book_until.
    + apply (plain_book_until b e _ (r :: d)); [done|]. by constructor.
    + by apply IH.
Qed.

Lemma incl_drop_zero (P : rde A -> Prop) d : Forall P d -> Forall P (drop_leading_zero d).
Proof. induction 1; simpl; [done|]. destruct (amt_eqb _ _); [done|by constructor]. Qed.

Lemma incl_drop_repeated (P : rde A -> Prop) r d : Forall P d -> Forall P (drop_repeated r d).
Proof.
  intros H. revert r. induction H as [|r' d]; intros r; simpl; [done|].
  destruct (same_entry r r'); [done|by constructor].
Qed.

Lemma incl_normalize (P : rde A -> Prop) d : Forall P d -> Forall P (utilization_normalize d).
Proof.
  intros H. apply incl_drop_zero in H. unfold utilization_normalize.
  destruct (drop_leading_zero d); [done|]. inversion_clear H. constructor; [done|].
  by apply incl_drop_repeated.
Qed.

End facts.

(** ** What booking does to the step function *)

Section exact.
Context {A : Type} {HA : Amount A} {T : Type} {HT : Topology T} {HE : ExactAmount A}.

Implicit Types d : list (rde A).

Definition in_window (s e t : Z) : bool := (s <=? t) && (t <? e).

Lemma level_until b e prev d x0 t :
  RDE_time prev < e -> RDE_time prev <= t -> times_above (RDE_time prev) d ->
  RDE_amount prev = amt_add x0 (bk_amount b) ->
  level_from (RDE_amount prev) (book_until b e prev d) t =
  if t <? e then amt_add (level_from x0 d t) (bk_amount b) else level_from x0 d t.
Proof.
  intros He Ht Hd Hx. revert prev x0 He Ht Hd Hx.
  induction d as [|r d IH]; intros prev x0 He Ht Hd Hx; simpl in *.
  - rewrite Hx, amt_add_sub. by zcases.
  - destruct Hd as [Hr Hd]. destruct (Z.eqb_spec e (RDE_time r)) as [E|E]; simpl.
    + by zcases.
    + destruct (Z.ltb_spec e (RDE_time r)); simpl.
      * rewrite Hx, amt_add_sub. by zcases.
      * destruct (Z.leb_spec (RDE_time r) t); simpl.
        -- apply (IH (book_entry b r)); simpl; first [lia|done].
        -- destruct (Z.ltb_spec t e); [done|lia].
Qed.

Lemma level_book_from b s e prev d lo t :
  s < e -> times_above lo d -> lo < s ->
  level_from (from_option RDE_amount amt_zero prev) (book_from b s e prev d) t =
  let x := level_from (from_option RDE_amount amt_zero prev) d t in
  if in_window s e t then amt_add x (bk_amount b) else x.
Proof.
  intros He. revert lo prev. induction d as [|r d IH]; intros lo prev Hd Hlo.
  - cbn [book_from level_from RDE_time start_entry new_entry]. unfold in_window.
    destruct (Z.leb_spec s t); [|done]. cbn [andb].
    by apply (level_until b e (start_entry b s prev) []); [simpl; lia|simpl; lia|..| apply amt_add_comm].
  - destruct Hd as [Hr Hd]. cbn [book_from]. unfold in_window.
    destruct (Z.eqb_spec s (RDE_time r)) as [E|E].
    + cbn [level_from book_entry RDE_time]. rewrite <- E.
      destruct (Z.leb_spec s t); [|done]. cbn [andb].
      by apply (level_until b e (book_entry b r)); simpl; [lia|lia| | ].
    + destruct (Z.ltb_spec s (RDE_time r)).
      * cbn [level_from start_entry new_entry RDE_time].
        destruct (Z.leb_spec s t); cbn [andb].
        -- apply (level_until b e (start_entry b s prev) (r :: d)); simpl; [lia|lia|done|apply amt_add_comm].
        -- destruct (Z.leb_spec (RDE_time r) t); [lia|done].
      * cbn [level_from]. destruct (Z.leb_spec (RDE_time r) t).
        -- apply (IH (RDE_time r) (Some r)); [done|lia].
        -- destruct (Z.leb_spec s t); [lia|done].
Qed.

Lemma level_drop_zero d t lo :
  times_above lo d -> level_from amt_zero (drop_leading_zero d) t = level_from amt_zero d t.
Proof.
  revert lo. induction d as [|r d IH]; intros lo; simpl; [done|]. intros [? Hd].
  destruct (amt_eqb (RDE_amount r) amt_zero) eqn:E; [|done]. apply amt_eqb_spec in E.
  rewrite (IH (RDE_time r)), E by done. destruct (Z.leb_spec (RDE_time r) t); [done|].
  apply (level_before _ _ _ (RDE_time r)); [done|lia].
Qed.

Lemma level_drop_repeated r d t lo :
  times_above lo d ->
  level_from (RDE_amount r) (drop_repeated r d) t = level_from (RDE_amount r) d t.
Proof.
  revert lo r. induction d as [|r' d IH]; intros lo r; simpl; [done|]. intros [? Hd].
  destruct (same_entry r r') eqn:E; simpl; [|destruct (_ <=? t); [by apply (IH (RDE_time r'))|done]].
  rewrite (IH (RDE_time r')) by done.
  unfold same_entry in E. apply andb_true_iff in E as [[E%amt_eqb_spec _]%andb_true_iff _].
  rewrite <- E. destruct (Z.leb_spec (RDE_time r') t); [done|].
  apply (level_before _ _ _ (RDE_time r')); [done|lia].
Qed.

Lemma level_normalize d t lo :
  times_above lo d -> level (utilization_normalize d) t = level d t.
Proof.
  intros Hd. unfold level, utilization_normalize. rewrite <- (level_drop_zero d t lo) by done.
  pose proof (times_drop_zero _ _ Hd) as Hz. destruct (drop_leading_zero d) as [|r d']; [done|].
  simpl. destruct (_ <=? t); [|done]. by apply (level_drop_repeated _ _ _ (RDE_time r)), Hz.
Qed.

(** ** Canonical diagrams *)

Definition canonical (d : list (rde A)) : Prop :=
  times_above (-1) d /\ changes_from amt_zero d /\ Forall plain_entry d.

Lemma plain_same r r' :
  plain_entry r -> plain_entry r' -> same_entry r r' = amt_eqb (RDE_amount r) (RDE_amount r').
Proof.
  intros [E1 E2] [E3 E4]. unfold same_entry. rewrite E1, E2, E3, E4, bool_decide_eq_true_2 by done.
  simpl. by rewrite !andb_true_r.
Qed.

Lemma changes_drop_repeated r d :
  plain_entry r -> Forall plain_entry d -> changes_from (RDE_amount r) (drop_repeated r d).
Proof.
  intros Hr Hd. revert r Hr. induction Hd as [|r' d Hr' Hd IH]; intros r Hr; simpl; [done|].
  rewrite plain_same by done. destruct (amt_eqb _ _) eqn:E; [by auto|].
  split; [|by auto]. intros E'. apply not_true_iff_false in E. by apply E, (proj2 (amt_eqb_spec _ _)).
Qed.

Lemma changes_normalize d :
  Forall plain_entry d -> changes_from amt_zero (utilization_normalize d).
Proof.
  intros Hd. pose proof (incl_drop_zero _ _ Hd) as Hz. unfold utilization_normalize.
  assert (match drop_leading_zero d with r :: _ => RDE_amount r <> amt_zero | [] => True end) as Hnz.
  { clear -HE. induction d as [|r d IH]; simpl; [done|].
    destruct (amt_eqb _ _) eqn:E; [done|]. intros E'. apply not_true_iff_false in E.
    by apply E, (proj2 (amt_eqb_spec _ _)). }
  destruct (drop_leading_zero d); [done|]. inversion_clear Hz. split; [done|].
  by apply changes_drop_repeated.
Qed.

(** A booking on a canonical diagram: the result is canonical and the window is raised. *)
Lemma book_canonical b s e d :
  plain_booking b -> 0 <= s < e -> canonical d ->
  canonical (book b s e d) /\
  forall t, level (book b s e d) t =
    if in_window s e t then amt_add (level d t) (bk_amount b) else level d t.
Proof.
  intros Hb Hse (Ht & Hc & Hp). rewrite book_as_walk.
  assert (times_above (-1) (book_from b s e None d)) as Ht' by (apply times_book_from; [lia..|done]).
  assert (Forall plain_entry (book_from b s e None d)) as Hp' by by apply plain_book_from.
  split.
  - split_and!; [by apply times_normalize|by apply changes_normalize|by apply incl_normalize].
  - intros t. rewrite (level_normalize _ _ (-1)) by done.
    apply (level_book_from b s e None d (-1) t); [lia|done|lia].
Qed.

Lemma canonical_from x lo d d' :
  times_above lo d -> times_above lo d' -> changes_from x d -> changes_from x d' ->
  Forall plain_entry d -> Forall plain_entry d' ->
  (forall t, lo < t -> level_from x d t = level_from x d' t) -> d = d'.
Proof.
  assert (forall r y t (l : list (rde A)), times_above (RDE_time r) l -> t = RDE_time r ->
    level_from y (r :: l) t = RDE_amount r) as Hat.
  { intros r y t l Hl ->. simpl. destruct (Z.leb_spec (RDE_time r) (RDE_time r)); [|lia].
    by apply (level_before _ _ _ (RDE_time r)). }
  revert x lo d'. induction d as [|r d IH]; intros x lo [|r' d'] Ht Ht' Hc Hc' Hp Hp' Hl; [done|..].
  - destruct Ht' as [? ?], Hc' as [Hc' _]. exfalso. apply Hc'.
    rewrite <- (Hat r' x (RDE_time r') d') by done. symmetry. apply Hl. lia.
  - destruct Ht as [? ?], Hc as [Hc _]. exfalso. apply Hc.
    rewrite <- (Hat r x (RDE_time r) d) by done. apply Hl. lia.
  - destruct Ht as [Hr Ht], Ht' as [Hr' Ht'], Hc as [Hx Hc], Hc' as [Hx' Hc'].
    inversion_clear Hp as [|? ? Hpr Hpd]. inversion_clear Hp' as [|? ? Hpr' Hpd'].
    assert (RDE_time r = RDE_time r') as E.
    { pose proof (Hl (RDE_time r) Hr) as H1. pose proof (Hl (RDE_time r') Hr') as H2.
      rewrite (Hat r) in H1 by done. rewrite (Hat r') in H2 by done. simpl in H1, H2.
      destruct (Z_dec (RDE_time r) (RDE_time r')) as [[H|H]|H]; [| |done]; exfalso.
      - destruct (Z.leb_spec (RDE_time r') (RDE_time r)); [lia|done].
      - destruct (Z.leb_spec (RDE_time r) (RDE_time r')); [lia|done]. }
    assert (RDE_amount r = RDE_amount r') as E'.
    { pose proof (Hl (RDE_time r) Hr) as H1. rewrite (Hat r) in H1 by done.
      by rewrite (Hat r') in H1. }
    f_equal.
    + destruct r, r', Hpr, Hpr'; simpl in *; congruence.
    + apply (IH (RDE_amount r) (RDE_time r)); [done|congruence|done|congruence|done|done|].
      intros t Htt. specialize (Hl t). simpl in Hl. rewrite <- E, <- E' in Hl.
      destruct (Z.leb_spec (RDE_time r) t); [|lia]. apply Hl. lia.
Qed.

(** Canonical diagrams with the same step function are the same list. *)
Lemma canonical_unique d d' :
  canonical d -> canonical d' -> (forall t, 0 <= t -> level d t = level d' t) -> d = d'.
Proof.
  intros (? & ? & ?) (? & ? & ?) Hl. apply (canonical_from amt_zero (-1)); try done.
  intros t ?. apply Hl. lia.
Qed.

End exact.

(** ** End times *)

Lemma to_double_lower z m k :
  0 <= m < 2 ^ 53 -> 0 <= k -> m * 2 ^ k <= z -> m * 2 ^ k <= to_double z.
Proof.
  intros Hm Hk Hz. unfold to_double. set (u := Z.max 0 (Z.log2 z - 52)).
  assert (0 < 2 ^ k) by (apply Z.pow_pos_nonneg; lia).
  assert (0 < 2 ^ u) by (apply Z.pow_pos_nonneg; lia).
  pose proof (Z.div_mod z (2 ^ u) ltac:(lia)) as Hdm.
  pose proof (Z.mod_pos_bound z (2 ^ u) ltac:(lia)) as Hmod.
  set (q := z / 2 ^ u) in *. set (r := z mod 2 ^ u) in *.
  assert (m * 2 ^ k <= q * 2 ^ u) as Hq.
  { destruct (Z_le_gt_dec u k) as [Hu|Hu].
    - replace k with ((k - u) + u) in * by lia. rewrite Z.pow_add_r in * by lia.
      rewrite Z.mul_assoc in *. apply Z.mul_le_mono_nonneg_r; [lia|].
      set (c := m * 2 ^ (k - u)) in *. nia.
    - assert (u = Z.log2 z - 52) as Hu' by lia.
      assert (0 < z) by (destruct (Z_le_gt_dec z 0); [|lia]; rewrite Z.log2_nonpos in Hu' by lia; lia).
      pose proof (Z.log2_spec z ltac:(lia)) as [Hl _].
      assert (2 ^ 52 <= q) as Hq.
      { subst q. apply Z.div_le_lower_bound; [lia|]. rewrite <- Z.pow_add_r by lia.
        replace (u + 52) with (Z.log2 z) by lia. done. }
      assert (2 * 2 ^ k <= 2 ^ u).
      { change 2 with (2 ^ 1) at 1. rewrite <- Z.pow_add_r by lia. apply Z.pow_le_mono_r; lia. }
      nia. }
  destruct (_ || _); nia.
Qed.

(** A sum of at least [2 ^ 64] is never rounded below it. *)
Lemma to_double_sum_big x y :
  0 <= x < 2 ^ 64 -> 0 <= y < 2 ^ 64 -> 2 ^ 64 <= x + y -> 2 ^ 63 <= x ->
  2 ^ 64 - 1024 <= to_double x + to_double y.
Proof.
  intros Hx Hy Hs H63. pose proof (Z.div_mod x 2048 ltac:(lia)).
  pose proof (Z.mod_pos_bound x 2048 ltac:(lia)).
  set (q := x / 2048) in *. set (r := x mod 2048) in *.
  assert (2 ^ 52 <= q < 2 ^ 53) by lia.
  assert (q * 2 ^ 11 <= to_double x) as Hlx by (apply to_double_lower; lia).
  destruct (Z_le_gt_dec r 1024).
  - assert ((2 ^ 54 - 2 * q - 1) * 2 ^ 10 <= to_double y) as Hly by (apply to_double_lower; lia). lia.
  - assert (to_double x = (q + 1) * 2048) as ->.
    { unfold to_double. assert (Z.log2 x = 63) as -> by (apply Z.log2_unique; lia).
      change (2 ^ Z.max 0 (63 - 52)) with 2048. fold q r.
      destruct (Z.ltb_spec 2048 (2 * r)); [done|lia]. }
    assert ((2 ^ 54 - 2 * q - 2) * 2 ^ 10 <= to_double y) as Hly by (apply to_double_lower; lia).
    lia.
Qed.

Lemma to_double_big s : 2 ^ 64 - 1024 <= s -> 2 ^ 64 <= to_double s.
Proof.
  intros Hs. destruct (Z_le_gt_dec (2 ^ 64) s).
  - apply (to_double_lower s 1 64); lia.
  - unfold to_double. assert (Z.log2 s = 63) as -> by (apply Z.log2_unique; lia).
    change (2 ^ Z.max 0 (63 - 52)) with 2048.
    pose proof (Z.div_mod s 2048 ltac:(lia)). pose proof (Z.mod_pos_bound s 2048 ltac:(lia)).
    assert (s / 2048 = 2 ^ 53 - 1) as -> by lia.
    change (Z.odd (2 ^ 53 - 1)) with true. rewrite andb_true_r.
    destruct (Z.ltb_spec 2048 (2 * (s mod 2048))), (Z.eqb_spec (2 * (s mod 2048)) 2048);
      cbn [orb]; lia.
Qed.

Lemma to_double_nonneg z : 0 <= z -> 0 <= to_double z.
Proof. intros. by apply (to_double_lower z 0 0); lia. Qed.

Lemma to_double_small z : 0 <= z < 2 ^ 53 -> to_double z = z.
Proof.
  intros Hz. unfold to_double.
  assert (Z.max 0 (Z.log2 z - 52) = 0) as ->.
  { destruct (Z_le_gt_dec z 0); [rewrite Z.log2_nonpos by lia; lia|].
    assert (Z.log2 z < 53) by (apply Z.log2_lt_pow2; lia). lia. }
  change (2 ^ 0) with 1. rewrite Z.mod_1_r, Z.div_1_r. simpl. lia.
Qed.

Lemma to_double_upper z k : 0 <= k -> 0 <= z < 2 ^ k -> to_double z <= 2 ^ k.
Proof.
  intros Hk0 Hz. destruct (Z_le_gt_dec 53 k) as [Hk|Hk].
  2: { rewrite to_double_small; [lia|]. assert (2 ^ k <= 2 ^ 53) by (apply Z.pow_le_mono_r; lia). lia. }
  unfold to_double. set (u := Z.max 0 (Z.log2 z - 52)).
  assert (0 < 2 ^ u) by (apply Z.pow_pos_nonneg; lia).
  pose proof (Z.div_mod z (2 ^ u) ltac:(lia)). pose proof (Z.mod_pos_bound z (2 ^ u) ltac:(lia)).
  set (q := z / 2 ^ u) in *. set (r := z mod 2 ^ u) in *.
  assert (u <= k) as Hu.
  { subst u. destruct (Z_le_gt_dec z 0); [rewrite Z.log2_nonpos by lia; lia|].
    assert (Z.log2 z < k) by (apply Z.log2_lt_pow2; lia). lia. }
  assert ((q + 1) * 2 ^ u <= 2 ^ k); [|destruct (_ || _); nia].
  assert (2 ^ k = 2 ^ (k - u) * 2 ^ u) as E by (rewrite <- Z.pow_add_r by lia; f_equal; lia).
  rewrite E in *. apply Z.mul_le_mono_nonneg_r; [lia|].
  assert (q < 2 ^ (k - u)); [|lia]. apply (Z.mul_lt_mono_pos_r (2 ^ u)); lia.
Qed.

Lemma to_double_mono x y : 0 <= x <= y -> to_double x <= to_double y.
Proof.
  intros Hxy. destruct (Z_le_gt_dec x 0).
  { rewrite (to_double_small x) by lia. pose proof (to_double_lower y 0 0). lia. }
  pose proof (Z.log2_le_mono x y ltac:(lia)) as Hlog.
  destruct (Z.eq_dec (Z.log2 x) (Z.log2 y)) as [E|E].
  - unfold to_double. rewrite E. set (w := 2 ^ Z.max 0 (Z.log2 y - 52)).
    assert (0 < w) by (apply Z.pow_pos_nonneg; lia).
    pose proof (Z.div_mod x w ltac:(lia)). pose proof (Z.mod_pos_bound x w ltac:(lia)).
    pose proof (Z.div_mod y w ltac:(lia)). pose proof (Z.mod_pos_bound y w ltac:(lia)).
    pose proof (Z.div_le_mono x y w ltac:(lia) ltac:(lia)).
    destruct (Z.eq_dec (x / w) (y / w)) as [Eq|Eq].
    + rewrite Eq in *. apply Z.mul_le_mono_nonneg_r; [lia|].
      destruct (Z.ltb_spec w (2 * (x mod w))), (Z.ltb_spec w (2 * (y mod w))),
        (Z.eqb_spec (2 * (x mod w)) w), (Z.eqb_spec (2 * (y mod w)) w), (Z.odd (y / w));
        cbn [orb andb]; lia.
    + assert (x / w + 1 <= y / w) by lia. destruct (_ || _), (_ || _); nia.
  - pose proof (Z.log2_spec x ltac:(lia)). pose proof (Z.log2_spec y ltac:(lia)).
    pose proof (Z.log2_nonneg x).
    assert (2 ^ Z.succ (Z.log2 x) <= 2 ^ Z.log2 y) by (apply Z.pow_le_mono_r; lia).
    pose proof (to_double_upper x (Z.succ (Z.log2 x)) ltac:(lia) ltac:(lia)).
    pose proof (to_double_lower y 1 (Z.log2 y)). lia.
Qed.

(** The test of [utilization_endtime]. *)
Definition ends_in_time (start duration : Z) : bool :=
  to_double (to_double start + to_double duration) <? to_double UINT64_MAX.

Lemma ends_in_time_sum start duration :
  is_u64 start -> is_u64 duration -> ends_in_time start duration = true ->
  start + duration < 2 ^ 64.
Proof.
  intros [Hs0 Hs] [Hd0 Hd] Ht. unfold ends_in_time in Ht.
  change (to_double UINT64_MAX) with (2 ^ 64) in Ht. apply Z.ltb_lt, Z.lt_nge in Ht.
  destruct (Z_lt_le_dec (start + duration) (2 ^ 64)); [done|]. exfalso.
  apply Ht, to_double_big. destruct (Z_le_gt_dec (2 ^ 63) start).
  - apply to_double_sum_big; lia.
  - rewrite Z.add_comm. apply to_double_sum_big; lia.
Qed.

Lemma endtime_no_wrap start duration :
  is_u64 start -> is_u64 duration ->
  utilization_endtime start duration =
  if ends_in_time start duration then start + duration else UINT64_MAX.
Proof.
  intros Hs Hd. unfold utilization_endtime. fold (ends_in_time start duration).
  destruct (ends_in_time start duration) eqn:E; [|done].
  pose proof (ends_in_time_sum _ _ Hs Hd E). destruct Hs, Hd.
  unfold u64. rewrite Z.mod_small; lia.
Qed.

Lemma endtime_spec start duration :
  is_u64 start -> is_u64 duration ->
  let e := utilization_endtime start duration in
  (e = start + duration \/ e = UINT64_MAX) /\ start <= e <= UINT64_MAX /\
  (start < 2 ^ 61 -> duration < 2 ^ 61 -> e = start + duration).
Proof.
  intros Hs Hd. cbv zeta. rewrite endtime_no_wrap by done.
  destruct (ends_in_time start duration) eqn:E.
  - pose proof (ends_in_time_sum _ _ Hs Hd E). destruct Hs, Hd. unfold UINT64_MAX. lia.
  - unfold is_u64, UINT64_MAX in *. split; [by right|]. split; [lia|]. intros. exfalso.
    pose proof (to_double_nonneg start). pose proof (to_double_nonneg duration).
    pose proof (to_double_upper start 61). pose proof (to_double_upper duration 61).
    pose proof (to_double_upper (to_double start + to_double duration) 63).
    unfold ends_in_time in E. change (to_double UINT64_MAX) with (2 ^ 64) in E. lia.
Qed.

Lemma endtime_mono s s' duration :
  is_u64 s -> is_u64 s' -> is_u64 duration -> s <= s' ->
  utilization_endtime s duration <= utilization_endtime s' duration.
Proof.
  intros Hs Hs' Hd Hle. rewrite !endtime_no_wrap by done.
  assert (ends_in_time s' duration = true -> ends_in_time s duration = true) as Hm.
  { unfold ends_in_time. destruct Hs, Hs', Hd. pose proof (to_double_nonneg s).
    pose proof (to_double_nonneg duration). pose proof (to_double_mono s s').
    pose proof (to_double_mono (to_double s + to_double duration)
      (to_double s' + to_double duration)). lia. }
  destruct (ends_in_time s' duration) eqn:E'; [rewrite Hm by done; lia|].
  destruct (ends_in_time s duration) eqn:E; [|done].
  pose proof (ends_in_time_sum _ _ Hs Hd E). unfold UINT64_MAX. lia.
Qed.

End UtilizationFacts.
