(* ===== verification/UtilizationProps.v ===== *)
(** Properties of the resource diagrams: bookings with exact amounts (the integers, from which
    [UtilizationDouble] goes on to the [double]s of the code) add up, and the maximum over a
    window is exact for any amounts.  In [UtilizationRsmap], instances of a resource map on diagram entries: taking and
    giving back identifiers, the comparison that lets two entries merge and the instances taken
    in a window. *)

From S2P Require Import Prelude Utilization UtilizationQuery UtilizationFacts.
Import Utilization UtilizationQuery UtilizationFacts.

Module UtilizationProps.

(** the end of a window never wraps around: it is the sum of start and duration or the end
    of time, never before the start, and the sum whenever both are below [2 ^ 61]
    microseconds (the test is made on [double]s, whose rounding may only turn a sum close to
    [2 ^ 64] into the end of time). A window that opens later does not close earlier. *)
Theorem endtime_never_wraps (start duration : Z) :
  is_u64 start -> is_u64 duration ->
  let e := utilization_endtime start duration in
  (e = start + duration \/ e = UINT64_MAX) /\ start <= e <= UINT64_MAX /\
  (start < 2 ^ 61 -> duration < 2 ^ 61 -> e = start + duration) /\
  forall later, is_u64 later -> start <= later -> e <= utilization_endtime later duration.
Proof.
  intros Hs Hd e. destruct (endtime_spec start duration Hs Hd) as (H1 & H2 & H3).
  split_and!; [done|apply H2..|done|]. intros later Hl Hle. by apply endtime_mono.
Qed.

Lemma endtime_never_wraps_witness :
  let e := utilization_endtime 9223372036854776831 9223372036854774785 in
  e = UINT64_MAX /\ 9223372036854776831 <= e.
Proof.
  destruct (endtime_never_wraps 9223372036854776831 9223372036854774785) as (_ & H & _);
    [unfold is_u64; lia..|].
  split; [vm_compute; reflexivity|apply H].
Defined.

Section props.
Context {A : Type} {HA : Amount A} {T : Type} {HT : Topology T}.

(** ** Sequences of bookings *)

(** A window and an amount. *)
Record reservation := Res { rs_start : Z; rs_duration : Z; rs_amount : A }.

Definition window (r : reservation) (t : Z) : bool :=
  in_window (rs_start r) (utilization_endtime (rs_start r) (rs_duration r)) t.

(** [utilization_add] without core binding and without instances of a resource map. *)
Definition reserve (max_reservations : Z) (level : tag) (for_job excl : bool) (cr : rue A)
    (r : reservation) : rue A :=
  utilization_add max_reservations cr (rs_start r) (rs_duration r) (rs_amount r) level for_job
    excl None [].

Definition valid (r : reservation) : Prop :=
  0 <= rs_start r < UINT64_MAX /\ 0 < rs_duration r < 2 ^ 64.

(** The abstract diagram: what is booked at [t] on top of [x]. *)
Definition booked (x : A) (rs : list reservation) (t : Z) : A :=
  fold_left (fun x r => if window r t then amt_add x (rs_amount r) else x) rs x.

Definition chosen (excl : bool) (cr : rue A) : option (list (rde A)) :=
  if excl then RUE_utilized_nonexclusive cr else RUE_utilized cr.

(** [cr] with another diagram in the chosen place. *)
Definition with_chosen (excl : bool) (cr : rue A) (d : option (list (rde A))) : rue A :=
  RUE (RUE_name cr) (RUE_utilized_now cr) (RUE_utilized_now_resource_map_list cr)
    (RUE_utilized_now_binding_inuse cr) (if excl then RUE_utilized cr else d)
    (RUE_utilized_now_nonexclusive cr) (if excl then d else RUE_utilized_nonexclusive cr).

Definition plain_of (u : A) : booking A T := Booking u None None.

Lemma reserve_books mr lvl fj excl cr r :
  valid r -> mr <> 0 \/ fj = false \/ is_Some (chosen excl cr) ->
  reserve mr lvl fj excl cr r =
  with_chosen excl cr (Some (book (plain_of (rs_amount r)) (rs_start r)
    (utilization_endtime (rs_start r) (rs_duration r)) (default [] (chosen excl cr)))).
Proof.
  intros [_ Hd] Hex. unfold reserve, utilization_add.
  assert ((fj && ((mr =? 0) || (rs_duration r =? 0)) &&
    match (if excl then RUE_utilized_nonexclusive cr else RUE_utilized cr) with
    | None => true | Some _ => false end) = false) as ->.
  { apply not_true_iff_false. rewrite !andb_true_iff. intros [[-> Hm] Hn].
    destruct Hex as [Hmr|[?|Hs]]; [lia|done|]. unfold chosen in Hs. destruct Hs as [d Hs].
    by rewrite Hs in Hn. }
  unfold make_booking, plain_of. simpl. rewrite andb_false_r.
  destruct (bool_decide (lvl = HOST_TAG) && bool_decide (RUE_name cr = SGE_ATTR_SLOTS));
    by destruct excl, cr.
Qed.

Lemma valid_window r :
  valid r -> 0 <= rs_start r < utilization_endtime (rs_start r) (rs_duration r).
Proof.
  unfold UINT64_MAX. intros [Hs Hd]. unfold UINT64_MAX in Hs.
  destruct (endtime_spec (rs_start r) (rs_duration r)) as ([E|E] & H & _);
    [unfold is_u64; lia..| |]; unfold UINT64_MAX in *; lia.
Qed.

(** The bookings of a sequence, one after the other, on a diagram. *)
Definition book_all (rs : list reservation) (d : list (rde A)) : list (rde A) :=
  fold_left (fun d r => book (plain_of (rs_amount r)) (rs_start r)
                          (utilization_endtime (rs_start r) (rs_duration r)) d) rs d.

Lemma reserve_all mr lvl fj excl rs cr :
  Forall valid rs -> mr <> 0 \/ fj = false \/ is_Some (chosen excl cr) ->
  fold_left (reserve mr lvl fj excl) rs cr =
  if rs is [] then cr else with_chosen excl cr (Some (book_all rs (default [] (chosen excl cr)))).
Proof.
  intros Hv. revert cr. induction Hv as [|r rs Hr Hv IH]; intros cr Hex; [done|].
  cbn [fold_left]. rewrite reserve_books by done. set (d1 := book _ _ _ _).
  rewrite IH; [|right; right; by destruct excl; eexists].
  destruct rs; [done|]. destruct excl; done.
Qed.

(** ** Exact amounts *)

Section exact_amounts.
Context {HE : ExactAmount A}.

(** A diagram is the sum of its bookings. *)
Lemma book_all_exact rs d :
  Forall valid rs -> canonical d ->
  canonical (book_all rs d) /\ forall t, level (book_all rs d) t = booked (level d t) rs t.
Proof.
  intros Hv. revert d. induction Hv as [|r rs Hr Hv IH]; intros d Hc; [done|].
  destruct (book_canonical (plain_of (rs_amount r)) _ _ _ (conj eq_refl eq_refl)
    (valid_window r Hr) Hc) as [Hc1 Hl1].
  destruct (IH _ Hc1) as [Hc2 Hl2]. split; [exact Hc2|]. intros t.
  unfold book_all in *. cbn [fold_left]. rewrite Hl2, Hl1. done.
Qed.

Lemma booked_add x u rs t : booked (amt_add x u) rs t = amt_add (booked x rs t) u.
Proof.
  revert x. induction rs as [|r rs IH]; intros x; simpl; [done|].
  destruct (window r t); [|apply IH].
  by rewrite <- amt_add_assoc, (amt_add_comm u), amt_add_assoc, IH.
Qed.

Lemma amt_add_neg x u : amt_add (amt_add x u) (amt_sub amt_zero u) = x.
Proof. rewrite <- amt_add_assoc, (amt_add_comm u), amt_sub_add. apply amt_add_zero. Qed.

Definition given_back (r : reservation) : reservation :=
  Res (rs_start r) (rs_duration r) (amt_sub amt_zero (rs_amount r)).

Lemma book_all_undone r rs d :
  valid r -> Forall valid rs -> canonical d ->
  book_all (r :: rs ++ [given_back r]) d = book_all rs d.
Proof.
  intros Hr Hrs Hc.
  assert (Forall valid (r :: rs ++ [given_back r])) as Hall.
  { constructor; [done|]. apply Forall_app. split; [done|]. by constructor. }
  destruct (book_all_exact _ d Hall Hc) as [Hd Hl].
  destruct (book_all_exact rs d Hrs Hc) as [Hd' Hl'].
  apply canonical_unique; [done..|]. intros t _. rewrite Hl, Hl'.
  set (x := level d t). unfold booked. cbn [fold_left]. rewrite fold_left_app. cbn [fold_left].
  change (window (given_back r) t) with (window r t).
  destruct (window r t); [|done]. change (fold_left _ rs ?y) with (booked y rs t).
  rewrite booked_add. apply amt_add_neg.
Qed.

End exact_amounts.

(** ** The maximum over a window *)

Section window_max.
Context {HO : OrderedAmount A}.
Variable a : option (assignment A T).
Variable host : bool.
Variable total slots : A.

(** The start of the second loop: the entry in force and the entries after it. *)
Definition max_start (e : Z) (combined : T) (prev : option (rde A)) (d : list (rde A)) : A * T :=
  match prev with
  | Some r =>
      let combined := match RDE_binding_inuse r with Some s => topo_of s | None => combined end in
      let max := match RDE_binding_inuse r with
                 | Some _ => increase a host total slots combined (RDE_amount r)
                 | None => RDE_amount r
                 end in
      max_before_end a host total slots e d max combined
  | None => max_before_end a host total slots e d amt_zero combined
  end.

Fixpoint max_walk (s e : Z) (combined : T) (prev : option (rde A)) (d : list (rde A)) : A * T :=
  match d with
  | [] => max_start e combined prev []
  | r :: d' =>
      if s =? RDE_time r then max_start e combined (Some r) d'
      else if s <? RDE_time r then max_start e combined prev d
      else max_walk s e combined (Some r) d'
  end.

Definition max_at (e : Z) (combined : T) (d : list (rde A)) (found : option nat * option nat) :
    A * T :=
  match (match found.1 with Some i => Some i | None => found.2 end) with
  | Some i =>
      match d !! i with
      | Some r => max_start e combined (Some r) (drop (S i) d)
      | None => (amt_zero, combined)
      end
  | None => max_before_end a host total slots e d amt_zero combined
  end.

Lemma max_at_prev e combined pre d prev :
  prev = match pre with [] => None | _ => Some (pred (length pre)) end ->
  max_at e combined (pre ++ d) (None, prev) = max_start e combined (last pre) d.
Proof.
  intros ->. destruct pre as [|r pre _] using rev_ind; [done|]. rewrite last_snoc.
  assert ((match pre ++ [r] with [] => None | _ => Some (pred (length (pre ++ [r]))) end)
    = Some (length pre)) as ->.
  { rewrite length_app. destruct pre; simpl; [done|]. f_equal. lia. }
  unfold max_at. cbn [fst snd]. rewrite <- app_assoc. cbn [app].
  rewrite list_lookup_middle by done.
  rewrite (cons_middle r pre d), app_assoc.
  by rewrite (drop_app_length' (pre ++ [r])) by (rewrite length_app; simpl; lia).
Qed.

Lemma max_as_walk s e combined d pre prev :
  prev = match pre with [] => None | _ => Some (pred (length pre)) end ->
  max_at e combined (pre ++ d) (find_from d s (length pre) prev) =
  max_walk s e combined (last pre) d.
Proof.
  revert pre prev. induction d as [|r d IH]; intros pre prev Hp; cbn [find_from max_walk].
  - by rewrite max_at_prev.
  - destruct (s =? RDE_time r).
    + unfold max_at. cbn [fst]. rewrite list_lookup_middle by done.
      rewrite (cons_middle r pre d), app_assoc.
      by rewrite (drop_app_length' (pre ++ [r])) by (rewrite length_app; simpl; lia).
    + destruct (s <? RDE_time r); [by rewrite max_at_prev|].
      rewrite (cons_middle r pre d), app_assoc.
      replace (S (length pre)) with (length (pre ++ [r])) by (rewrite length_app; simpl; lia).
      rewrite IH; [by rewrite last_snoc|]. rewrite length_app. simpl.
      destruct pre; simpl; [done|]. f_equal. lia.
Qed.

Lemma window_max_walk s e combined d :
  window_max a host total slots d s e combined = max_walk s e combined None d.
Proof.
  change (max_walk s e combined None d) with (max_walk s e combined (last []) d).
  rewrite <- (max_as_walk s e combined d [] None) by done.
  unfold window_max, utilization_find_time_or_prevstart_or_prev, max_at. cbn [app length].
  by destruct (find_from d s 0 None) as [[i|] [j|]]; cbn [fst snd].
Qed.

(** The loop keeps an upper bound that is attained; [y] is the amount in force. *)
Lemma max_before_end_spec e combined d lo x y :
  times_above lo d -> Forall plain_entry d -> amt_leb y x = true ->
  let '(m, c) := max_before_end a host total slots e d x combined in
  c = combined /\ amt_leb x m = true /\
  (forall t, t < e -> amt_leb (level_from y d t) m = true) /\
  (m = x \/ exists t, lo < t < e /\ level_from y d t = m).
Proof.
  intros Ht Hp. revert lo x y Ht. induction Hp as [|r d Hr Hp IH]; intros lo x y Ht Hy; simpl.
  { split_and!; [done|apply amt_leb_refl|done|by left]. }
  destruct Ht as [Hlo Ht]. destruct (Z.ltb_spec (RDE_time r) e) as [He|He].
  - destruct Hr as [_ Hb]. rewrite Hb.
    set (x' := if amt_ltb x (RDE_amount r) then RDE_amount r else x).
    assert (amt_leb x x' = true /\ amt_leb (RDE_amount r) x' = true) as [Hx Hx'].
    { subst x'. rewrite amt_ltb_leb. destruct (amt_leb (RDE_amount r) x) eqn:E; simpl.
      - split; [apply amt_leb_refl|done].
      - split; [by apply amt_leb_total|apply amt_leb_refl]. }
    specialize (IH (RDE_time r) x' (RDE_amount r) Ht Hx').
    destruct (max_before_end a host total slots e d x' combined) as [m c].
    destruct IH as (-> & Hm & Hub & Hat).
    assert (amt_leb x m = true) as Hxm by (by eapply amt_leb_trans).
    split_and!; [done|done|..].
    + intros t Hte. destruct (RDE_time r <=? t); [by apply Hub|by eapply amt_leb_trans].
    + assert (forall t, RDE_time r <= t < e -> level_from (RDE_amount r) d t = m ->
        m = x \/ exists t, lo < t < e /\
          (if RDE_time r <=? t then level_from (RDE_amount r) d t else y) = m) as Hex.
      { intros t ? E. right. exists t. split; [lia|]. by zcases. }
      destruct Hat as [E|(t & ? & E)]; [|by apply (Hex t); [lia|]].
      subst x'. destruct (amt_ltb x (RDE_amount r)); [|by left].
      apply (Hex (RDE_time r)); [lia|]. rewrite E.
      by apply (level_before _ _ _ (RDE_time r)).
  - split_and!; [done|apply amt_leb_refl| |by left].
    intros t ?. by zcases.
Qed.

Lemma max_walk_spec s e combined d lo prev :
  times_above lo d -> Forall plain_entry d -> from_option plain_entry True prev ->
  lo <= s < e ->
  let '(m, c) := max_walk s e combined prev d in
  let y := from_option RDE_amount amt_zero prev in
  c = combined /\ (forall t, s <= t < e -> amt_leb (level_from y d t) m = true) /\
  exists t, s <= t < e /\ level_from y d t = m.
Proof.
  assert (forall prev lo d, times_above lo d -> Forall plain_entry d ->
    from_option plain_entry True prev -> s <= lo ->
    (forall t, s <= t <= lo -> level_from (from_option RDE_amount amt_zero prev) d t =
      from_option RDE_amount amt_zero prev) -> s < e ->
    let '(m, c) := max_start e combined prev d in
    let y := from_option RDE_amount amt_zero prev in
    c = combined /\ (forall t, s <= t < e -> amt_leb (level_from y d t) m = true) /\
    exists t, s <= t < e /\ level_from y d t = m) as Hstart.
  { intros pv l0 d0 Ht Hp Hpv Hl Heq He.
    assert (max_start e combined pv d0 = max_before_end a host total slots e d0
      (from_option RDE_amount amt_zero pv) combined) as ->.
    { destruct pv as [r|]; [|done]. destruct Hpv as [_ Hb]. simpl. by rewrite Hb. }
    pose proof (max_before_end_spec e combined d0 l0 _ _ Ht Hp
      (amt_leb_refl (from_option RDE_amount amt_zero pv))) as H.
    destruct (max_before_end _ _ _ _ e d0 _ _) as [m c]. destruct H as (-> & _ & Hub & Hat).
    split_and!; [done|intros; apply Hub; lia|].
    destruct Hat as [->|(t & ? & ?)]; [|exists t; split; [lia|done]].
    exists s. split; [lia|]. apply Heq. lia. }
  intros Ht Hp. revert lo prev Ht. induction Hp as [|r d Hr Hp IH]; intros lo prev Ht Hpv Hs;
    cbn [max_walk level_from].
  - by apply (Hstart prev s []); [done|constructor|done|lia|done|lia].
  - destruct Ht as [Hlo Ht]. destruct (Z.eqb_spec s (RDE_time r)) as [E|E].
    + assert (forall t, s <= t <= RDE_time r -> level_from (RDE_amount r) d t = RDE_amount r) as Hl.
      { intros t ?. by apply (level_before _ _ _ (RDE_time r)); [|lia]. }
      pose proof (Hstart (Some r) (RDE_time r) d Ht Hp Hr ltac:(lia) Hl ltac:(lia)) as H.
      destruct (max_start _ _ _ _) as [m c]. destruct H as (-> & Hub & t & ? & ?).
      split_and!; [done|..].
        -- intros t' ?. destruct (Z.leb_spec (RDE_time r) t'); [|lia]. by apply Hub.
        -- exists t. split; [done|]. by zcases.
    + destruct (Z.ltb_spec s (RDE_time r)).
      * apply (Hstart prev s (r :: d)); [by split|by constructor|done|lia| |lia].
        intros t ?. simpl. by zcases.
      * specialize (IH (RDE_time r) (Some r) Ht Hr ltac:(lia)).
        destruct (max_walk _ _ _ _ _) as [m c]. destruct IH as (-> & Hub & t & ? & ?).
        split_and!; [done|..].
        -- intros t' ?. destruct (Z.leb_spec (RDE_time r) t'); [|lia]. by apply Hub.
        -- exists t. split; [done|]. by zcases.
Qed.

Lemma window_max_spec s e combined d :
  canonical d -> 0 <= s < e ->
  let '(m, c) := window_max a host total slots d s e combined in
  c = combined /\ (forall t, s <= t < e -> amt_leb (level d t) m = true) /\
  exists t, s <= t < e /\ level d t = m.
Proof.
  intros (Ht & _ & Hp) Hs. rewrite window_max_walk.
  apply (max_walk_spec s e combined d (-1) None); [done..|lia].
Qed.

(** C38: the maximum over a window is exact. For a start time that is neither "now" nor "queue
    end", [utilization_max] returns the largest amount in force at any moment of the window
    (of both diagrams, for an exclusive request): no moment exceeds it and some moment
    attains it. It never aborts, and without an exclusive request it leaves the binding alone. *)
Theorem utilization_max_is_maximum (cr : rue A) (s dur : Z) (excl : bool) (combined : T) :
  canonical (default [] (RUE_utilized cr)) ->
  (excl = true -> canonical (default [] (RUE_utilized_nonexclusive cr))) ->
  0 < s < UINT64_MAX -> 0 < dur < 2 ^ 64 ->
  let e := utilization_endtime s dur in
  let in_force (m : A) (t : Z) :=
    level (default [] (RUE_utilized cr)) t = m \/
    (excl = true /\ level (default [] (RUE_utilized_nonexclusive cr)) t = m) in
  exists m c, utilization_max a host total slots cr s dur excl combined = Some (m, c) /\
    (excl = false -> c = combined) /\ (exists t, s <= t < e /\ in_force m t) /\
    forall t x, s <= t < e -> in_force x t -> amt_leb x m = true.
Proof.
  intros Hc Hx Hs Hd e in_force.
  assert (0 <= s < e) as Hse.
  { apply (valid_window (Res s dur amt_zero)). split; [simpl; lia|done]. }
  unfold utilization_max, DISPATCH_TIME_NOW, DISPATCH_TIME_QUEUE_END. fold e.
  rewrite !(proj2 (Z.eqb_neq _ _)) by lia.
  pose proof (window_max_spec s e combined _ Hc Hse) as H. unfold diagram_of.
  destruct (window_max _ _ _ _ _ s e combined) as [m c]. destruct H as (-> & Hub & t & Ht & Hat).
  destruct excl.
  - specialize (Hx eq_refl).
    pose proof (window_max_spec s e topo_empty _ Hx Hse) as H.
    destruct (window_max _ _ _ _ _ s e topo_empty) as [m2 c2].
    destruct H as (-> & Hub2 & t2 & Ht2 & Hat2). rewrite amt_ltb_leb.
    destruct (amt_leb m2 m) eqn:E; cbn [negb]; do 2 eexists; (split; [reflexivity|]);
      (split; [done|]).
    + split; [exists t; split; [done|by left]|]. intros t' x ? [<-|[_ <-]]; [by apply Hub|].
      eapply amt_leb_trans; [by apply Hub2|done].
    + split; [exists t2; split; [done|by right]|]. intros t' x ? [<-|[_ <-]]; [|by apply Hub2].
      eapply amt_leb_trans; [by apply Hub|by apply amt_leb_total].
  - exists m, combined. split; [done|]. split; [done|].
    split; [exists t; split; [done|by left]|].
    intros t' x ? [<-|[? _]]; [by apply Hub|done].
Qed.

End window_max.

End props.

(** ** Concrete diagrams *)

(** A topology for the examples: units are a string, marking appends. *)
#[export] Instance string_topology : Topology string := {
  topo_empty := EmptyString;
  topo_is_empty := fun s => bool_decide (s = EmptyString);
  topo_of := fun s => s;
  topo_show := fun s => s;
  topo_show_free := fun s => s;
  topo_mark := fun s t used => if used then (s ++ t)%string else s;
}.

Definition slots_with (d : option (list (rde Z))) : rue Z := RUE "slots" 0 [] None d 0 None.

Definition two_steps : list (rde Z) := [RDE 10 1 [] None; RDE 500 0 [] None].

Lemma two_steps_canonical : canonical two_steps.
Proof. split_and!; simpl; [lia..|]. by repeat constructor. Qed.

Lemma utilization_max_is_maximum_witness :
  exists m, utilization_max (T:=string) None false 0 0 (slots_with (Some two_steps)) 20 1000
      false EmptyString = Some (m, EmptyString) /\
    forall x, level two_steps 30 = x -> x <= m.
Proof.
  destruct (utilization_max_is_maximum (T:=string) None false 0 0 (slots_with (Some two_steps))
    20 1000 false EmptyString) as (m & c & E & Hc & _ & Hub).
  - apply two_steps_canonical.
  - discriminate.
  - unfold UINT64_MAX. lia.
  - lia.
  - exists m. rewrite Hc in E by done. split; [exact E|]. intros x Hx.
    apply Z.leb_le, (Hub 30); [vm_compute; split; [discriminate|reflexivity]|by left].
Defined.

(** A job without core binding booked into the window of a bound one: the entries it creates
    carry no binding although the bound job still runs. *)
Example unbound_booking_forgets_binding :
  let bound := utilization_add 1 (slots_with None) 100 100 2 HOST_TAG true false
                 (Some ["SCC"%string]) [] in
  let both := utilization_add 1 bound 150 10 1 HOST_TAG true false None [] in
  RUE_utilized bound =
    Some [RDE 100 2 [] (Some "SCC"%string); RDE 200 0 [] (Some "SCC"%string)] /\
  RUE_utilized both =
    Some [RDE 100 2 [] (Some "SCC"%string); RDE 150 3 [] None; RDE 160 2 [] None;
          RDE 200 0 [] (Some "SCC"%string)].
Proof. vm_compute. by split. Qed.

End UtilizationProps.

Module UtilizationRsmap.

Definition keys (l : resl) : list string := map fst l.

(** ** Identifier lists as maps *)

Lemma resl_get_none l id : resl_get l id = None <-> ~ In id (keys l).
Proof.
  induction l as [|[k v] l IH]; simpl; [naive_solver|].
  destruct (decide (k = id)) as [->|]; naive_solver.
Qed.

Lemma resl_get_app l id k v :
  resl_get (l ++ [(k, v)]) id =
  match resl_get l id with
  | Some w => Some w
  | None => if decide (k = id) then Some v else None
  end.
Proof. induction l as [|[k' v'] l IH]; simpl; [done|]. by destruct (decide (k' = id)). Qed.

Lemma resl_get_set l id k v :
  resl_get (resl_set l k v) id =
  if decide (k = id) then (fun _ => v) <$> resl_get l id else resl_get l id.
Proof.
  induction l as [|[k' v'] l IH]; simpl; [by destruct (decide _)|].
  destruct (decide (k' = k)) as [->|]; simpl.
  - by destruct (decide (k = id)).
  - rewrite IH. destruct (decide (k' = id)) as [->|], (decide (k = id)) as [->|]; done.
Qed.

Lemma resl_get_remove l id k :
  List.NoDup (keys l) ->
  resl_get (resl_remove l k) id = if decide (k = id) then None else resl_get l id.
Proof.
  induction l as [|[k' v'] l IH]; simpl; intros Hnd; [by destruct (decide _)|].
  inversion_clear Hnd as [|? ? Hni Hnd']. destruct (decide (k' = k)) as [->|]; simpl.
  - destruct (decide (k = id)) as [->|]; [|done]. by apply resl_get_none.
  - rewrite IH by done. destruct (decide (k' = id)) as [->|], (decide (k = id)) as [->|]; done.
Qed.

Lemma keys_set l k v : keys (resl_set l k v) = keys l.
Proof.
  induction l as [|[k' v'] l IH]; simpl; [done|].
  destruct (decide (k' = k)) as [->|]; simpl; [done|]. by f_equal.
Qed.

Lemma keys_remove l k id : In id (keys (resl_remove l k)) -> In id (keys l).
Proof.
  induction l as [|[k' v'] l IH]; simpl; [done|].
  destruct (decide (k' = k)) as [->|]; simpl; naive_solver.
Qed.

Lemma nodup_remove l k : List.NoDup (keys l) -> List.NoDup (keys (resl_remove l k)).
Proof.
  induction l as [|[k' v'] l IH]; simpl; intros Hnd; [done|].
  inversion_clear Hnd. destruct (decide (k' = k)); [done|]. constructor; [|by apply IH].
  intros Hin. by apply keys_remove in Hin.
Qed.

Lemma nodup_app_one l k v :
  List.NoDup (keys l) -> resl_get l k = None -> List.NoDup (keys (l ++ [(k, v)])).
Proof.
  intros Hnd Hk%resl_get_none. unfold keys. rewrite map_app. simpl.
  apply List.NoDup_app; [done|repeat constructor; by intros []|]. by intros x Hx [->|[]].
Qed.

(** ** One identifier of a change *)

Definition after_step (add : bool) (in_use : option Z) (amount : Z) : option Z :=
  match in_use with
  | None => if add then Some (u32 amount) else None
  | Some v => if add then Some (u32 (v + amount))
              else if amount <? v then Some (v - amount) else None
  end.

Lemma rsmap_step_spec add ids k amount :
  List.NoDup (keys ids) ->
  List.NoDup (keys (rsmap_step add ids (k, amount))) /\
  forall id, resl_get (rsmap_step add ids (k, amount)) id =
    if decide (k = id) then after_step add (resl_get ids k) amount else resl_get ids id.
Proof.
  intros Hnd. unfold rsmap_step, after_step. destruct (resl_get ids k) as [v|] eqn:E.
  - destruct add; [|destruct (amount <? v)].
    + split; [by rewrite keys_set|]. intros id. rewrite resl_get_set.
      destruct (decide (k = id)) as [<-|]; [by rewrite E|done].
    + split; [by rewrite keys_set|]. intros id. rewrite resl_get_set.
      destruct (decide (k = id)) as [<-|]; [by rewrite E|done].
    + split; [by apply nodup_remove|]. intros id. by rewrite resl_get_remove.
  - destruct add.
    + split; [by apply nodup_app_one|]. intros id. rewrite resl_get_app.
      destruct (decide (k = id)) as [<-|]; [by rewrite E|]. by destruct (resl_get ids id).
    + split; [done|]. intros id. by destruct (decide (k = id)) as [<-|].
Qed.

Lemma rsmap_set_spec add change previous :
  List.NoDup (keys change) -> List.NoDup (keys previous) ->
  List.NoDup (keys (utilization_rsmap_set previous change add)) /\
  forall id, resl_get (utilization_rsmap_set previous change add) id =
    match resl_get change id with
    | Some amount => after_step add (resl_get previous id) amount
    | None => resl_get previous id
    end.
Proof.
  unfold utilization_rsmap_set. revert previous.
  induction change as [|[k amount] change IH]; intros previous Hc Hp; [done|].
  inversion_clear Hc as [|? ? Hni Hc']. cbn [fold_left].
  destruct (rsmap_step_spec add previous k amount Hp) as [Hnd Hget].
  destruct (IH _ Hc' Hnd) as [Hnd' Hget']. split; [done|]. intros id. rewrite Hget'.
  cbn [resl_get]. destruct (decide (k = id)) as [<-|].
  - rewrite (proj2 (resl_get_none change k)) by done. by rewrite Hget, decide_True.
  - rewrite !Hget, decide_False by done. done.
Qed.

(** ** The comparison *)

Lemma equal_spec a b :
  List.NoDup (keys a) -> List.NoDup (keys b) ->
  utilization_rsmap_equal a b = true <-> forall id, resl_get a id = resl_get b id.
Proof.
  intros Ha Hb. unfold utilization_rsmap_equal. rewrite andb_true_iff, Z.eqb_eq, forallb_forall.
  assert (forall l k v, List.NoDup (keys l) -> In (k, v) l <-> resl_get l k = Some v) as Hin.
  { clear. induction l as [|[k' v'] l IH]; intros k v Hnd; simpl; [done|].
    inversion_clear Hnd as [|? ? Hni Hnd']. rewrite IH by done.
    destruct (decide (k' = k)) as [->|]; [|naive_solver].
    rewrite (proj2 (resl_get_none l k)) by done. naive_solver. }
  split.
  - intros [Hlen Hall] id. destruct (resl_get a id) as [v|] eqn:E.
    + apply Hin in E; [|done]. specialize (Hall _ E). simpl in Hall.
      destruct (resl_get b id); [|done]. f_equal. lia.
    + symmetry. apply resl_get_none. apply resl_get_none in E. intros Hb'. apply E.
      assert (incl (keys b) (keys a)) as Hincl; [|by apply Hincl].
      apply NoDup_length_incl; [done|unfold keys; rewrite !length_map; lia|].
      intros k (x & <- & Hx)%in_map_iff. specialize (Hall _ Hx). destruct x as [k v].
      destruct (resl_get b k) as [w|] eqn:Ek; [|done]. apply Hin in Ek; [|done].
      apply in_map_iff. by exists (k, w).
  - intros Heq. split.
    + assert (incl (keys a) (keys b) /\ incl (keys b) (keys a)) as [H1 H2].
      { split; intros k (x & <- & Hx)%in_map_iff; destruct x as [k v]; apply Hin in Hx; try done.
        - rewrite Heq in Hx. apply Hin in Hx; [|done]. by apply (in_map fst) in Hx.
        - rewrite <- Heq in Hx. apply Hin in Hx; [|done]. by apply (in_map fst) in Hx. }
      apply NoDup_incl_length in H1; [|done]. apply NoDup_incl_length in H2; [|done].
      unfold keys in H1, H2. rewrite !length_map in *. lia.
    + intros [k v] Hx. apply Hin in Hx; [|done]. rewrite <- Heq, Hx. lia.
Qed.

(** ** The properties *)

(** giving instances back undoes taking them: with distinct identifiers, no identifier held
    at amount zero and no overflow of the 32-bit counts, the entry lists the same identifiers
    with the same amounts as before, and the comparison that lets diagram entries merge
    recognises it. *)
Theorem instances_given_back (previous change : resl) :
  List.NoDup (keys previous) -> List.NoDup (keys change) ->
  (forall id v, resl_get previous id = Some v -> 0 < v) ->
  (forall id v, resl_get change id = Some v ->
     0 <= v /\ default 0 (resl_get previous id) + v < 4294967296) ->
  let taken := utilization_rsmap_set previous change true in
  let back := utilization_rsmap_set taken change false in
  (forall id v, resl_get change id = Some v ->
     resl_get taken id = Some (default 0 (resl_get previous id) + v)) /\
  (forall id, resl_get back id = resl_get previous id) /\
  utilization_rsmap_equal previous back = true.
Proof.
  intros Hp Hc Hpos Hov taken back.
  destruct (rsmap_set_spec true change previous Hc Hp) as [Ht Htg].
  destruct (rsmap_set_spec false change taken Hc Ht) as [Hb Hbg].
  assert (forall id v, resl_get change id = Some v ->
    resl_get taken id = Some (default 0 (resl_get previous id) + v)) as Htaken.
  { intros id v E. destruct (Hov id v E) as [H0 Hs]. subst taken. rewrite Htg, E.
    unfold after_step. destruct (resl_get previous id) as [w|] eqn:Ew; simpl in *.
    - specialize (Hpos _ _ Ew). rewrite u32_small by lia. done.
    - by rewrite u32_small. }
  assert (forall id, resl_get back id = resl_get previous id) as Hback.
  { intros id. subst back. rewrite Hbg. destruct (resl_get change id) as [v|] eqn:E.
    - rewrite (Htaken _ _ E). unfold after_step.
      destruct (resl_get previous id) as [w|] eqn:Ew; simpl.
      + specialize (Hpos _ _ Ew). rewrite (proj2 (Z.ltb_lt _ _)) by lia. f_equal. lia.
      + by rewrite (proj2 (Z.ltb_ge _ _)) by lia.
    - subst taken. by rewrite Htg, E. }
  split_and!; [done|done|]. apply equal_spec; [done..|]. intros id. by rewrite Hback.
Qed.

Lemma instances_given_back_witness :
  utilization_rsmap_equal [("gpu0"%string, 1); ("gpu1"%string, 2)]
    (utilization_rsmap_set
       (utilization_rsmap_set [("gpu0"%string, 1); ("gpu1"%string, 2)]
          [("gpu2"%string, 1); ("gpu0"%string, 3)] true)
       [("gpu2"%string, 1); ("gpu0"%string, 3)] false) = true.
Proof.
  apply (instances_given_back [("gpu0"%string, 1); ("gpu1"%string, 2)]
           [("gpu2"%string, 1); ("gpu0"%string, 3)]).
  - repeat constructor; simpl; intuition discriminate.
  - repeat constructor; simpl; intuition discriminate.
  - intros id v. simpl. repeat destruct (decide _); intros; simplify_eq; lia.
  - intros id v. simpl. repeat destruct (decide _); intros; simplify_eq; simpl; lia.
Defined.

End UtilizationRsmap.
