(* ===== verification/UtilizationBelow.v ===== *)
(** Finding a start time in a resource diagram: [utilization_below] returns the earliest moment
    a request fits. *)

From S2P Require Import Prelude Utilization UtilizationQuery UtilizationFacts UtilizationProps.
Import Utilization UtilizationQuery UtilizationFacts UtilizationProps.

Module UtilizationBelow.

Section props.
Context {A : Type} {HA : Amount A} {HO : OrderedAmount A} {T : Type} {HT : Topology T}.

Implicit Types d : list (rde A).

(** ** The last entry *)

Lemma times_app lo d r :
  times_above lo (d ++ [r]) ->
  times_above lo d /\ lo < RDE_time r /\
  match last d with Some p => RDE_time p < RDE_time r | None => True end.
Proof.
  revert lo. induction d as [|x d IH]; intros lo; simpl; [naive_solver|].
  intros [Hx Hd]. destruct (IH _ Hd) as (H1 & H2 & H3). split_and!; [done..|lia|].
  destruct d; simpl in *; [lia|done].
Qed.

Lemma level_snoc x d r lo t :
  times_above lo (d ++ [r]) ->
  level_from x (d ++ [r]) t =
  if RDE_time r <=? t then RDE_amount r else level_from x d t.
Proof.
  revert x lo. induction d as [|y d IH]; intros x lo; simpl; [by destruct (_ <=? t)|].
  intros [Hy Hd]. destruct (times_app _ _ _ Hd) as (_ & Hr & _).
  destruct (Z.leb_spec (RDE_time y) t); [by eapply IH|].
  by zcases.
Qed.

Section fixed.
Variable a : option (assignment A T).
Variable host : bool.
Variable total slots max_util : A.

Definition below (x : A) : Prop := amt_leb x max_util = true.

(** What the round for [p] starts from. *)
Definition reuse_ok (p : rde A) (reuse : option (A * option string)) : Prop :=
  reuse = None \/ reuse = Some (RDE_amount p, None).

(** The rest of a round whose entry fits. *)
Definition below_rest (w : Z) (before : list (rde A)) (reuse : option (A * option string))
    (combined : T) : Z * T :=
  match before with
  | [] => (DISPATCH_TIME_NOW, combined)
  | p :: _ =>
      let util :=
        match RDE_binding_inuse p with
        | Some s => increase a host total slots (topo_mark (topo_of s) combined true) (RDE_amount p)
        | None => RDE_amount p
        end in
      if amt_ltb max_util util then (w, combined)
      else below_backwards a host total slots max_util before (Some (util, RDE_binding_inuse p))
             combined
  end.

Lemma below_step r before reuse combined :
  plain_entry r -> reuse_ok r reuse -> below (RDE_amount r) ->
  below_backwards a host total slots max_util (r :: before) reuse combined =
  below_rest (RDE_time r) before reuse combined.
Proof.
  intros [_ Hb] Hreuse Hr. unfold below in Hr.
  destruct Hreuse as [->| ->]; cbn [below_backwards]; rewrite ?Hb, Hr; by destruct before.
Qed.

Lemma below_backwards_spec d lo x reuse combined :
  -1 <= lo -> times_above lo d -> Forall plain_entry d ->
  match last d with Some p => below (RDE_amount p) /\ reuse_ok p reuse | None => True end ->
  exists w, below_backwards a host total slots max_util (reverse d) reuse combined = (w, combined) /\
    ((w = DISPATCH_TIME_NOW /\ Forall (fun r => below (RDE_amount r)) d) \/
     (0 < w /\ (exists r, In r d /\ RDE_time r = w) /\
      (forall t, w <= t -> below (level_from x d t)) /\ ~ below (level_from x d (w - 1)))).
Proof.
  intros Hlo. revert x reuse. induction d as [|r d IH] using rev_ind; intros x reuse Ht Hp Hl.
  { exists DISPATCH_TIME_NOW. split; [done|]. left. by constructor. }
  rewrite last_snoc in Hl. destruct Hl as [Hr Hreuse].
  apply Forall_app in Hp as [Hp Hpr]. apply Forall_inv in Hpr.
  destruct (times_app _ _ _ Ht) as (Ht' & Hlr & Hlast).
  rewrite reverse_snoc, below_step by done.
  destruct d as [|p d _] using rev_ind.
  { exists DISPATCH_TIME_NOW. split; [done|]. left. by repeat constructor. }
  rewrite last_snoc in Hlast. rewrite reverse_snoc. rewrite reverse_snoc in IH.
  apply Forall_app in Hp as [Hp Hpp]. pose proof (Forall_inv Hpp) as [_ Hb].
  cbn [below_rest]. rewrite Hb.
  rewrite amt_ltb_leb. destruct (amt_leb (RDE_amount p) max_util) eqn:E; cbn [negb].
  - destruct (IH x (Some (RDE_amount p, None))) as (w & -> & Hw); [done|by apply Forall_app| |].
    { rewrite last_snoc. split; [done|by right]. }
    exists w. split; [done|]. destruct Hw as [[-> Hall]|(Hw & (y & Hy & Ey) & Hub & Hlt)].
    + left. split; [done|]. apply Forall_app. split; [done|by repeat constructor].
    + right. split; [done|]. split; [exists y; split; [apply in_or_app; by left|done]|]. split.
      * intros t ?. rewrite (level_snoc _ _ _ lo) by done. destruct (_ <=? t); [done|by apply Hub].
      * rewrite (level_snoc _ _ _ lo) by done. destruct (Z.leb_spec (RDE_time r) (w - 1)); [|done].
        exfalso. apply Hlt. rewrite (level_snoc _ _ _ lo) by done.
        by destruct (Z.leb_spec (RDE_time p) (w - 1)); [|lia].
  - exists (RDE_time r). split; [done|]. right. apply times_app in Ht' as (_ & Hlp & _).
    split; [lia|]. split; [exists r; split; [apply in_or_app; right; by left|done]|]. split.
    + intros t ?. rewrite (level_snoc _ _ _ lo) by done. by zcases.
    + rewrite (level_snoc _ _ _ lo) by done.
      destruct (Z.leb_spec (RDE_time r) (RDE_time r - 1)); [lia|].
      rewrite (level_snoc _ _ _ lo) by (by apply times_app in Ht as [? _]).
      destruct (Z.leb_spec (RDE_time p) (RDE_time r - 1)); [|lia]. unfold below. by rewrite E.
Qed.

(** ** Windows *)

(** The request fits from [s] on for [dur]. *)
Definition fits d (s dur : Z) : Prop :=
  forall t, s <= t < utilization_endtime s dur -> below (level d t).

Lemma fits_duration_spec (cr : rue A) s dur combined :
  canonical (default [] (RUE_utilized cr)) -> 0 < s < UINT64_MAX -> 0 < dur < 2 ^ 64 ->
  exists b c, utilization_fits_duration a host total slots cr s dur max_util false combined =
    Some (b, c) /\ (b = true <-> fits (default [] (RUE_utilized cr)) s dur).
Proof.
  intros Hc Hs Hd. unfold utilization_fits_duration, utilization_max, DISPATCH_TIME_NOW,
    DISPATCH_TIME_QUEUE_END. rewrite !(proj2 (Z.eqb_neq _ _)) by lia.
  assert (0 <= s < utilization_endtime s dur) as Hse.
  { apply (valid_window (Res s dur amt_zero)). split; [simpl; lia|done]. }
  pose proof (window_max_spec a host total slots s _ topo_empty _ Hc Hse) as H.
  unfold diagram_of. destruct (window_max _ _ _ _ _ _ _ _) as [m c].
  destruct H as (-> & Hub & t & Ht & Hat). cbn [mbind option_bind].
  rewrite amt_ltb_leb. destruct (amt_leb m max_util) eqn:E; cbn [negb].
  - do 2 eexists. split; [reflexivity|]. split; [|done]. intros _ t' Ht'.
    unfold below. eapply amt_leb_trans; [by apply Hub|done].
  - do 2 eexists. split; [reflexivity|]. split; [done|]. intros Hf. exfalso.
    specialize (Hf t Ht). unfold below in Hf. by rewrite Hat, E in Hf.
Qed.

Lemma first_window_spec (cr : rue A) now dur when d lo combined :
  canonical (default [] (RUE_utilized cr)) -> 0 < now -> when <= UINT64_MAX ->
  0 < dur < 2 ^ 64 -> times_above lo d ->
  exists w c, first_window a host total slots cr now dur when max_util false d combined =
    Some (w, c) /\
    (w = when \/ (now < w < when /\ fits (default [] (RUE_utilized cr)) w dur)) /\
    forall r, In r d -> now < RDE_time r < w -> ~ fits (default [] (RUE_utilized cr)) (RDE_time r) dur.
Proof.
  intros Hc Hnow Hw Hd. revert lo combined. induction d as [|r d IH]; intros lo combined Ht; simpl.
  { exists when, combined. split; [done|]. split; [by left|done]. }
  destruct Ht as [_ Ht]. destruct (Z.leb_spec (RDE_time r) now).
  { destruct (IH _ combined Ht) as (w & c & -> & H1 & H2). exists w, c. split; [done|].
    split; [done|]. intros r' [<-|Hin]; [lia|by apply H2]. }
  assert (forall r', In r' d -> RDE_time r < RDE_time r') as Hafter.
  { clear -Ht. remember (RDE_time r) as lo eqn:E. assert (RDE_time r <= lo) by lia. clear E.
    revert lo Ht H. induction d as [|x d IH]; intros lo Ht Hlo r' Hin; [done|].
    destruct Ht as [Hx Ht]. destruct Hin as [->|Hin]; [done|].
    assert (RDE_time x < RDE_time r'); [|lia]. apply (IH (RDE_time x)); [done|lia|done]. }
  destruct (Z.leb_spec when (RDE_time r)).
  { exists when, combined. split; [done|]. split; [by left|].
    intros r' [<-|Hin]; [lia|]. specialize (Hafter _ Hin). lia. }
  destruct (fits_duration_spec cr (RDE_time r) dur combined Hc ltac:(lia) Hd) as (b & c & -> & Hb).
  cbn [mbind option_bind]. destruct b.
  - exists (RDE_time r), c. split; [done|]. split; [right; split; [lia|by apply Hb]|].
    intros r' [<-|Hin]; [lia|]. specialize (Hafter _ Hin). lia.
  - destruct (IH _ c Ht) as (w & c' & -> & H1 & H2). exists w, c'. split; [done|].
    split; [done|]. intros r' [<-|Hin]; [|by apply H2]. intros _ Hf. by apply Hb in Hf.
Qed.

(** A window that fits can be moved back to [now] or to the entry in force where it opens. *)
Lemma fits_slides_back d now s dur :
  times_above (-1) d -> 0 <= now <= s -> s < UINT64_MAX -> 0 < dur < 2 ^ 64 -> fits d s dur ->
  fits d now dur \/ exists r, In r d /\ now < RDE_time r <= s /\ fits d (RDE_time r) dur.
Proof.
  intros Ht Hn Hs Hd Hf.
  assert (s < utilization_endtime s dur) as Hse.
  { apply (valid_window (Res s dur amt_zero)). split; [simpl; lia|done]. }
  assert (forall c, 0 <= c <= s -> (forall t, c <= t <= s -> level d t = level d s) -> fits d c dur)
    as Hslide.
  { intros c Hc Hl t Htc. destruct (Z_le_gt_dec t s).
    - rewrite Hl by lia. apply Hf. lia.
    - apply Hf. split; [lia|]. pose proof (endtime_mono c s dur) as Hm.
      unfold is_u64, UINT64_MAX in *. lia. }
  assert (forall lo x, times_above lo d -> lo <= s ->
    (forall t, lo <= t <= s -> level_from x d t = level_from x d s) \/
    exists r, In r d /\ lo < RDE_time r <= s /\
      forall t, RDE_time r <= t <= s -> level_from x d t = level_from x d s) as Hlast.
  { clear. induction d as [|r d IH]; intros lo x; simpl; [by left|]. intros [Hr Ht] Hlo.
    destruct (Z_le_gt_dec (RDE_time r) s) as [Hrs|Hrs].
    - right. destruct (IH (RDE_time r) (RDE_amount r) Ht Hrs) as [H|(r' & Hin & Hr' & H)].
      + exists r. split; [by left|]. split; [lia|]. intros t ?.
        destruct (Z.leb_spec (RDE_time r) t), (Z.leb_spec (RDE_time r) s); [apply H|..]; lia.
      + exists r'. split; [by right|]. split; [lia|]. intros t ?.
        destruct (Z.leb_spec (RDE_time r) t), (Z.leb_spec (RDE_time r) s); [apply H|..]; lia.
    - left. intros t ?.
      by zcases. }
  destruct (Hlast (-1) amt_zero Ht ltac:(lia)) as [H|(r & Hin & Hr & H)].
  - left. apply Hslide; [lia|]. intros t ?. apply H. lia.
  - destruct (Z_le_gt_dec (RDE_time r) now).
    + left. apply Hslide; [lia|]. intros t ?. apply H. lia.
    + right. exists r. split; [done|]. split; [lia|]. apply Hslide; [lia|done].
Qed.

Lemma all_below_level x d t :
  below x -> Forall (fun r => below (RDE_amount r)) d -> below (level_from x d t).
Proof.
  intros Hx H. revert x Hx. induction H as [|r d Hr H IH]; intros x Hx; simpl; [done|].
  destruct (_ <=? t); [by apply IH|done].
Qed.

End fixed.

(** C16: the start time found for a job is the earliest one. For a request that fits when
    everything booked has ended, [utilization_below] answers "now" when the diagram never
    exceeds the limit; otherwise the answer is a moment from which the job fits for its whole
    duration, and no moment between the assignment's present and the answer is one (windows
    between calendar closures included). It never aborts. *)
Theorem utilization_below_earliest (asg : assignment A T) (host : bool)
    (total slots max_util : A) (cr : rue A) (combined : T) :
  let d := default [] (RUE_utilized cr) in
  canonical d -> Forall (fun r => RDE_time r <= UINT64_MAX) d ->
  below max_util amt_zero -> (forall r, last d = Some r -> below max_util (RDE_amount r)) ->
  0 < a_now asg < UINT64_MAX -> 0 < a_duration asg < 2 ^ 64 ->
  exists w c,
    utilization_below (Some asg) host total slots cr max_util false combined = Some (w, c) /\
    if decide (w = DISPATCH_TIME_NOW) then forall t, below max_util (level d t)
    else fits max_util d w (a_duration asg) /\
         forall s, a_now asg <= s < w -> ~ fits max_util d s (a_duration asg).
Proof.
  intros d Hc Hmax Hz Hlast Hnow Hdur. pose proof Hc as (Ht & _ & Hp).
  unfold utilization_below, diagram_of. fold d.
  destruct (below_backwards_spec (Some asg) host total slots max_util d (-1) amt_zero None
    combined ltac:(lia) Ht Hp) as (when & -> & Hw).
  { destruct (last d); [|done]. split; [by apply Hlast|by left]. }
  destruct Hw as [[-> Hall]|(Hpos & (r0 & Hin0 & Er0) & Hub & _)].
  { rewrite Z.eqb_refl. exists DISPATCH_TIME_NOW, combined. split; [done|].
    rewrite decide_True by done. intros t. by apply all_below_level. }
  assert (when <= UINT64_MAX) as Hwm.
  { rewrite Forall_forall in Hmax. rewrite <- Er0. apply Hmax, list_elem_of_In, Hin0. }
  unfold DISPATCH_TIME_NOW. rewrite (proj2 (Z.eqb_neq when 0)), (proj2 (Z.ltb_lt 0 _)) by lia.
  cbn [negb andb].
  destruct (fits_duration_spec (Some asg) host total slots max_util cr (a_now asg)
    (a_duration asg) combined Hc Hnow Hdur) as (b & c & -> & Hb).
  cbn [mbind option_bind]. fold d in Hb. destruct b; cbn [mbind option_bind].
  - do 2 eexists. split; [reflexivity|]. destruct (Z.ltb_spec (a_now asg) when).
    + rewrite decide_False by lia. split; [by apply Hb|lia].
    + rewrite decide_False by lia. split; [|lia]. intros t Htt. apply Hub. lia.
  - destruct (first_window_spec (Some asg) host total slots max_util cr (a_now asg)
      (a_duration asg) when d (-1) c Hc ltac:(lia) Hwm Hdur Ht) as (w & c' & -> & Hw & Hno).
    fold d in Hw, Hno. cbn [mbind option_bind]. do 2 eexists. split; [reflexivity|].
    assert ((if w <? when then w else when) = w) as -> by (destruct (Z.ltb_spec w when); lia).
    rewrite decide_False by lia. split.
    + destruct Hw as [->|[_ Hf]]; [|done]. intros t Htt. apply Hub. lia.
    + intros s Hs Hf. destruct (fits_slides_back max_util d (a_now asg) s (a_duration asg))
        as [Hn|(r & Hin & Hr & Hfr)]; [done|lia..|done| |].
      * by apply Hb in Hn.
      * apply (Hno r Hin); [lia|done].
Qed.

End props.

Definition asg_for_100 : assignment Z string := Assignment 5 100 (fun slots _ => slots).

Lemma utilization_below_earliest_witness :
  exists w c,
    utilization_below (Some asg_for_100) false 0 0 (slots_with (Some two_steps)) 0 false
      EmptyString = Some (w, c) /\
    (w <> DISPATCH_TIME_NOW -> fits 0 two_steps w 100).
Proof.
  destruct (utilization_below_earliest asg_for_100 false 0 0 0 (slots_with (Some two_steps))
    EmptyString) as (w & c & E & H).
  - apply two_steps_canonical.
  - repeat (constructor; [simpl; unfold UINT64_MAX; lia|]). constructor.
  - reflexivity.
  - intros r Hr. injection Hr as <-. reflexivity.
  - simpl. unfold UINT64_MAX. lia.
  - simpl. lia.
  - exists w, c. split; [exact E|]. intros Hw. destruct (decide (w = DISPATCH_TIME_NOW)); [done|].
    apply H.
Defined.

(** The closed window of a calendar is not waited for when the job fits before it. *)
Example fits_before_closure :
  utilization_below (Some asg_for_100) false 0 0
    (slots_with (Some [RDE 3 10 [] None; RDE 20 0 [] None; RDE 200 10 [] None; RDE 300 0 [] None]))
    4 false EmptyString = Some (20, EmptyString) /\
  utilization_below (None : option (assignment Z string)) false 0 0
    (slots_with (Some [RDE 3 10 [] None; RDE 20 0 [] None; RDE 200 10 [] None; RDE 300 0 [] None]))
    4 false EmptyString = Some (300, EmptyString).
Proof. by vm_compute. Qed.

End UtilizationBelow.
