(* ===== verification/UtilizationDouble.v ===== *)
(** Resource diagrams with the amounts the code has, [double]s.

    [Binary64] represents whole multiples of a unit as [double]s and shows that arithmetic on
    them rounds nothing below [2 ^ 53] units.  The first part of this file carries one booking
    and the maximum of a window over from the integers to those [double]s, step by step; the
    properties then speak about diagrams of [double]s: a diagram is the sum of its bookings,
    giving a booking back undoes it, and admitted requests never exceed the total. *)

From Stdlib Require Import SpecFloat.
From S2P Require Import Prelude Binary64 Utilization UtilizationQuery UtilizationFacts UtilizationProps.
Import Binary64 Utilization UtilizationQuery UtilizationFacts UtilizationProps.

Module UtilizationDouble.

(** ** Whole amounts *)

(** A diagram whose amounts are at most [M] units. *)
Definition bounded (M : Z) (d : list (rde Z)) : Prop :=
  Forall (fun r => Z.abs (RDE_amount r) <= M) d.

(** A diagram of [double]s that all are whole multiples of [2 ^ k], at most [M] of them. *)
Definition whole_diagram (k M : Z) (d : list (rde spec_float)) : Prop :=
  Forall (fun r => exists z, Z.abs z <= M /\ RDE_amount r = double_of k z) d.

(** An entry and a booking in [double]s. *)
Definition in_double (k : Z) (r : rde Z) : rde spec_float :=
  RDE (RDE_time r) (double_of k (RDE_amount r)) (RDE_resource_map_list r) (RDE_binding_inuse r).

Definition res_double (k : Z) (r : reservation (A:=Z)) : reservation (A:=spec_float) :=
  Res (rs_start r) (rs_duration r) (double_of k (rs_amount r)).

(** The units a sequence of bookings moves. *)
Definition moved (rs : list (reservation (A:=Z))) : Z :=
  fold_right (fun r n => Z.abs (rs_amount r) + n) 0 rs.

Lemma moved_nonneg rs : 0 <= moved rs.
Proof. induction rs; simpl; lia. Qed.

Lemma moved_app rs rs' : moved (rs ++ rs') = moved rs + moved rs'.
Proof. induction rs; simpl; lia. Qed.

Lemma bounded_weaken M M' d : M <= M' -> bounded M d -> bounded M' d.
Proof. intros ? H. eapply Forall_impl; [exact H|]. simpl. lia. Qed.

Lemma whole_as_map k M d :
  whole_diagram k M d -> exists d0, d = map (in_double k) d0 /\ bounded M d0.
Proof.
  induction 1 as [|[t a m b] d (z & Hz & Ea) _ (d0 & -> & Hd0)]; [exists []; split; [done|constructor]|].
  exists (RDE t z m b :: d0). simpl in Ea. subst a.
  split; [done|by constructor].
Qed.

Lemma map_whole k M d : bounded M d -> whole_diagram k M (map (in_double k) d).
Proof.
  intros H. apply Forall_map. eapply Forall_impl; [exact H|]. intros r Hr.
  exists (RDE_amount r). done.
Qed.

Section transfer.
Context {T : Type} {HT : Topology T}.
Variable k : Z.
Hypothesis Hk : unit_ok k.

Abbreviation rd := (in_double k).

Lemma zero_double : (amt_zero : spec_float) = double_of k 0.
Proof. done. Qed.

Lemma add_double x y :
  small x -> small y -> small (x + y) ->
  amt_add (double_of k x) (double_of k y) = double_of k (x + y).
Proof. by apply double_add. Qed.

Lemma sub_double x y :
  small x -> small y -> small (x - y) ->
  amt_sub (double_of k x) (double_of k y) = double_of k (x - y).
Proof. by apply double_sub. Qed.

(** ** The step function *)

Lemma level_from_double x d t :
  level_from (double_of k x) (map rd d) t = double_of k (level_from x d t).
Proof. revert x. induction d as [|r d IH]; intros x; simpl; [done|]. by destruct (_ <=? _). Qed.

Lemma level_double d t : level (map rd d) t = double_of k (level d t).
Proof. apply (level_from_double 0). Qed.

Lemma level_bounded M x d t : Z.abs x <= M -> bounded M d -> Z.abs (level_from x d t) <= M.
Proof.
  intros Hx H. revert x Hx. induction H as [|r d Hr H IH]; intros x Hx; simpl; [done|].
  destruct (_ <=? t); [by apply IH|done].
Qed.

Lemma times_double lo d : times_above lo (map rd d) <-> times_above lo d.
Proof. revert lo. induction d as [|r d IH]; intros lo; simpl; [done|]. by rewrite IH. Qed.

Lemma plain_double d : Forall plain_entry (map rd d) <-> Forall plain_entry d.
Proof. rewrite Forall_map. done. Qed.

Lemma changes_double M x d :
  M < 2 ^ 53 -> Z.abs x <= M -> bounded M d ->
  changes_from (double_of k x) (map rd d) <-> changes_from x d.
Proof.
  intros HM Hx H. revert x Hx. induction H as [|r d Hr H IH]; intros x Hx; simpl; [done|].
  rewrite IH by done. split; intros [Hne ?]; (split; [|done]); [congruence|].
  intros E. apply Hne, (double_inj k); [unfold small; lia..|done].
Qed.

Lemma canonical_double M d :
  0 <= M < 2 ^ 53 -> bounded M d -> canonical (map rd d) <-> canonical d.
Proof.
  intros HM Hd. unfold canonical. rewrite zero_double.
  by rewrite times_double, plain_double, (changes_double M) by (simpl; first [lia|done]).
Qed.

(** ** One booking *)

Section book.
Variables (M u : Z).
Hypothesis HM : 0 <= M.
Hypothesis Hsum : M + Z.abs u < 2 ^ 53.

Abbreviation b := (plain_of (T:=T) u).
Abbreviation bd := (plain_of (T:=T) (double_of k u)).

Lemma book_entry_double r :
  Z.abs (RDE_amount r) <= M -> book_entry bd (rd r) = rd (book_entry b r).
Proof.
  intros Hr. unfold book_entry, in_double. simpl. f_equal.
  apply double_add; [done|unfold small; lia..].
Qed.

Lemma start_entry_double s prev :
  Z.abs (from_option RDE_amount 0 prev) <= M ->
  start_entry bd s (rd <$> prev) = rd (start_entry b s prev).
Proof.
  intros Hp. unfold start_entry, new_entry, in_double. simpl. f_equal.
  rewrite <- double_add by (done || unfold small; lia). f_equal. by destruct prev.
Qed.

Lemma end_entry_double e prev :
  Z.abs (RDE_amount prev - u) <= M -> end_entry bd e (rd prev) = rd (end_entry b e prev).
Proof.
  intros Hp. unfold end_entry, new_entry, in_double. simpl. f_equal.
  apply double_sub; [done|unfold small; lia..].
Qed.

(** [prev] carries the booking. *)
Lemma book_until_double e prev d :
  Z.abs (RDE_amount prev - u) <= M -> bounded M d ->
  book_until bd e (rd prev) (map rd d) = map rd (book_until b e prev d) /\
  bounded (M + Z.abs u) (book_until b e prev d).
Proof.
  intros Hp Hd. revert prev Hp. induction Hd as [|r d Hr Hd IH]; intros prev Hp; simpl.
  { rewrite end_entry_double by done. split; [done|]. constructor; [simpl; lia|constructor]. }
  assert (bounded (M + Z.abs u) (r :: d)) as Hd'.
  { constructor; [lia|]. eapply bounded_weaken, Hd. lia. }
  destruct (e =? RDE_time r); [done|]. destruct (e <? RDE_time r).
  - rewrite end_entry_double by done. split; [done|]. constructor; [simpl; lia|done].
  - rewrite book_entry_double by done. destruct (IH (book_entry b r)) as [-> Hb]; [simpl; lia|].
    split; [done|]. constructor; [simpl; lia|done].
Qed.

Lemma book_from_double s e prev d :
  Z.abs (from_option RDE_amount 0 prev) <= M -> bounded M d ->
  book_from bd s e (rd <$> prev) (map rd d) = map rd (book_from b s e prev d) /\
  bounded (M + Z.abs u) (book_from b s e prev d).
Proof.
  intros Hp Hd. revert prev Hp. induction Hd as [|r d Hr Hd IH]; intros prev Hp; simpl.
  { rewrite start_entry_double, end_entry_double by (simpl; first [done|lia]). split; [done|].
    constructor; [simpl; lia|]. constructor; [simpl; lia|constructor]. }
  assert (bounded M (r :: d)) as Hd' by by constructor.
  destruct (s =? RDE_time r); [|destruct (s <? RDE_time r)].
  - rewrite book_entry_double by done.
    destruct (book_until_double e (book_entry b r) d) as [-> Hb]; [simpl; lia|done|].
    split; [done|]. constructor; [simpl; lia|done].
  - rewrite start_entry_double by done.
    destruct (book_until_double e (start_entry b s prev) (r :: d)) as [E Hb]; [simpl; lia|done|].
    simpl in E. rewrite E. split; [done|]. constructor; [simpl; lia|done].
  - destruct (IH (Some r) Hr) as [E Hb]. simpl in E. rewrite E. split; [done|].
    constructor; [lia|done].
Qed.

Lemma normalize_double M' d :
  0 <= M' < 2 ^ 53 -> bounded M' d ->
  utilization_normalize (map rd d) = map rd (utilization_normalize d) /\
  bounded M' (utilization_normalize d).
Proof.
  intros HM' Hd. split; [|by apply incl_normalize].
  assert (drop_leading_zero (map rd d) = map rd (drop_leading_zero d)) as Hz.
  { clear -HM' Hd. induction Hd as [|r d Hr Hd IH]; simpl; [done|].
    assert (SFeqb (double_of k (RDE_amount r)) (S754_zero false) = (RDE_amount r =? 0)) as ->.
    { apply (double_eqb k _ 0); unfold small; lia. }
    by destruct (_ =? 0). }
  assert (forall r d, Z.abs (RDE_amount r) <= M' -> bounded M' d ->
    drop_repeated (rd r) (map rd d) = map rd (drop_repeated r d)) as Hr.
  { clear -HM'. intros r d Hr Hd. revert r Hr.
    induction Hd as [|r' d Hr' Hd IH]; intros r Hr; simpl; [done|].
    assert (same_entry (rd r) (rd r') = same_entry r r') as ->.
    { unfold same_entry. simpl. by rewrite double_eqb by (unfold small; lia). }
    destruct (same_entry r r'); [by apply IH|]. simpl. by rewrite IH. }
  unfold utilization_normalize. rewrite Hz.
  pose proof (incl_drop_zero _ _ Hd) as Hd'. destruct (drop_leading_zero d) as [|r d']; [done|].
  inversion_clear Hd'. simpl. by rewrite Hr.
Qed.

Lemma book_double s e d :
  bounded M d ->
  book bd s e (map rd d) = map rd (book b s e d) /\ bounded (M + Z.abs u) (book b s e d).
Proof.
  intros Hd. rewrite !book_as_walk.
  destruct (book_from_double s e None d) as [E Hb]; [simpl; lia|done|].
  simpl in E. rewrite E. apply normalize_double; [lia|done].
Qed.

End book.

Lemma book_all_double M rs d :
  0 <= M -> M + moved rs < 2 ^ 53 -> bounded M d ->
  book_all (T:=T) (map (res_double k) rs) (map rd d) = map rd (book_all (T:=T) rs d) /\
  bounded (M + moved rs) (book_all (T:=T) rs d).
Proof.
  revert M d. induction rs as [|r rs IH]; intros M d HM Hs Hd; simpl in Hs.
  { split; [done|]. eapply bounded_weaken, Hd. simpl. lia. }
  pose proof (moved_nonneg rs). unfold book_all. cbn [fold_left map].
  destruct (book_double M (rs_amount r) HM ltac:(lia) (rs_start r)
    (utilization_endtime (rs_start r) (rs_duration r)) d Hd) as [E Hb].
  cbn [res_double rs_start rs_duration rs_amount]. rewrite E.
  destruct (IH (M + Z.abs (rs_amount r)) _ ltac:(lia) ltac:(lia) Hb) as [E' Hb'].
  split; [exact E'|]. simpl. by rewrite Z.add_assoc.
Qed.

Lemma valid_double rs : Forall valid rs -> Forall valid (map (res_double k) rs).
Proof. intros H. by apply Forall_map. Qed.

(** ** The maximum over a window *)

Lemma find_from_double d s i prev : find_from (map rd d) s i prev = find_from d s i prev.
Proof.
  revert i prev. induction d as [|r d IH]; intros i prev; simpl; [done|].
  by rewrite IH.
Qed.

Section window_max.
Variables (a : option (assignment spec_float T)) (host : bool) (total slots : spec_float).
Variable M : Z.
Hypothesis HM : 0 <= M < 2 ^ 53.

Lemma max_before_end_double e d x c :
  Forall plain_entry d -> bounded M d -> Z.abs x <= M ->
  max_before_end a host total slots e (map rd d) (double_of k x) c =
  prod_map (double_of k) id
    (max_before_end (None : option (assignment Z T)) false 0 0 e d x c).
Proof.
  intros Hp Hd. revert x c. induction Hd as [|r d Hr Hd IH]; intros x c Hx; [done|].
  inversion_clear Hp as [|? ? [_ Hb] Hp']. simpl. destruct (_ <? e); [|done]. rewrite Hb.
  rewrite double_ltb by (unfold small; lia). destruct (x <? RDE_amount r); by apply IH.
Qed.

Lemma window_max_double d s e c :
  Forall plain_entry d -> bounded M d ->
  window_max a host total slots (map rd d) s e c =
  prod_map (double_of k) id (window_max (None : option (assignment Z T)) false 0 0 d s e c).
Proof.
  intros Hp Hd. unfold window_max, utilization_find_time_or_prevstart_or_prev.
  rewrite find_from_double. destruct (find_from d s 0 None) as [start prev].
  destruct (match start with Some i => Some i | None => prev end) as [i|].
  2:{ apply (max_before_end_double e d 0); [done|done|simpl; lia]. }
  rewrite list_lookup_fmap. destruct (d !! i) as [r|] eqn:E; [|done]. simpl.
  pose proof (proj1 (Forall_lookup _ _) Hp i r E) as [_ ->].
  pose proof (proj1 (Forall_lookup _ _) Hd i r E) as Hr. simpl in Hr.
  rewrite skipn_map. apply max_before_end_double; [by apply Forall_drop..|done].
Qed.

End window_max.

End transfer.

(** ** Admission *)

Section admission.
Context {T : Type} {HT : Topology T}.
Variables (k total : Z).
Hypothesis Hk : unit_ok k.
Hypothesis Htotal : 0 <= total < 2 ^ 52.

(** Every amount is a whole number of units between nothing and the total. *)
Definition within_total (d : list (rde spec_float)) : Prop :=
  Forall (fun r => exists z, 0 <= z <= total /\ RDE_amount r = double_of k z) d.

(** The diagram in units. *)
Definition sound (d : list (rde Z)) : Prop :=
  canonical d /\ bounded total d /\ forall t, 0 <= level d t <= total.

Lemma within_total_map d :
  Forall (fun r => 0 <= RDE_amount r <= total) d -> within_total (map (in_double k) d).
Proof.
  intros H. apply Forall_map. eapply Forall_impl; [exact H|]. intros r ?.
  by exists (RDE_amount r).
Qed.

Lemma level_range (x : Z) (d : list (rde Z)) t :
  0 <= x <= total -> Forall (fun r => 0 <= RDE_amount r <= total) d ->
  0 <= level_from x d t <= total.
Proof.
  intros Hx H. revert x Hx. induction H as [|r d Hr H IH]; intros x Hx; simpl; [done|].
  destruct (_ <=? t); [by apply IH|done].
Qed.

(** The amounts of the entries are levels. *)
Lemma amounts_are_levels lo (x : Z) (d : list (rde Z)) :
  times_above lo d ->
  Forall (fun r => exists t, lo < t /\ level_from x d t = RDE_amount r) d.
Proof.
  revert lo x. induction d as [|r d IH]; intros lo x; [by constructor|]. intros [Hr Hd].
  constructor.
  - exists (RDE_time r). split; [done|]. simpl. rewrite Z.leb_refl.
    by apply (level_before _ _ _ (RDE_time r)).
  - eapply Forall_impl; [by apply (IH _ (RDE_amount r) Hd)|]. intros r' (t & Ht & E).
    exists t. split; [lia|]. simpl. by destruct (Z.leb_spec (RDE_time r) t); [|lia].
Qed.

Lemma sound_amounts d : sound d -> Forall (fun r => 0 <= RDE_amount r <= total) d.
Proof.
  intros ((Ht & _) & _ & Hl). eapply Forall_impl; [apply (amounts_are_levels (-1) 0 d Ht)|].
  intros r (t & _ & <-). apply Hl.
Qed.

Lemma within_total_twin d :
  canonical d -> within_total d -> exists d0, d = map (in_double k) d0 /\ sound d0.
Proof.
  intros Hc Hw.
  assert (exists d0, d = map (in_double k) d0 /\ Forall (fun r => 0 <= RDE_amount r <= total) d0)
    as (d0 & -> & H0).
  { clear Hc. induction Hw as [|[t a m b] d (z & Hz & Ea) _ (d0 & -> & Hd0)].
    - exists []. split; [done|constructor].
    - exists (RDE t z m b :: d0). simpl in Ea. subst a. split; [done|by constructor]. }
  exists d0. split; [done|].
  assert (bounded total d0) as Hb by (eapply Forall_impl; [exact H0|]; simpl; lia).
  split; [|split; [done|]].
  - by apply (canonical_double k total) in Hc; [|lia|].
  - intros t. apply level_range; [simpl; lia|done].
Qed.

(** One request that was decided and booked: [slots] times [q] units wanted from [start] on
    were admitted by [ri_time_by_slots], the same amount is debited for the same window. What
    [match_static_resource] accepts is no more than the capacity. *)
Inductive debited (mr : Z) (lvl : tag) (fj : bool) : rue spec_float -> rue spec_float -> Prop :=
| debit a host cr static_match resolved q slots schedule_based start binding start' binding' :
    let ready := if start =? DISPATCH_TIME_NOW then a_now a else start in
    0 < ready < UINT64_MAX -> 0 < a_duration a < 2 ^ 64 ->
    0 <= q -> 0 <= slots -> small q -> small slots -> small (q * slots) ->
    (static_match = DISPATCH_OK -> q * slots <= total) ->
    ri_time_by_slots a host cr static_match true (Some (double_of k total)) resolved (double_of k q)
      slots false schedule_based start binding = Some (DISPATCH_OK, start', binding') ->
    debited mr lvl fj cr
      (utilization_add (T:=T) mr cr ready (a_duration a)
         (amt_mul (amt_of_int slots) (double_of k q)) lvl fj false None []).

Lemma of_int_double n : small n -> (amt_of_int n : spec_float) = double_of 0 n.
Proof. intros Hn. apply (normalize_exact 0); [unfold unit_ok; lia|done|done|]. simpl. lia. Qed.

Lemma mul_comm_double (x y : spec_float) : amt_mul x y = amt_mul y x.
Proof.
  destruct x as [s|s| |s m e], y as [s'|s'| |s' m' e']; simpl; try done; try by rewrite xorb_comm.
  by rewrite xorb_comm, Pos.mul_comm, Z.add_comm.
Qed.

(** The maximum [ri_time_by_slots] works with. *)
Lemma utilization_max_double a host tot slots cr ready dur (binding : T) d0 :
  0 < ready < UINT64_MAX -> 0 < dur < 2 ^ 64 ->
  default [] (RUE_utilized cr) = map (in_double k) d0 -> sound d0 ->
  exists m c, utilization_max a host tot slots cr ready dur false binding =
    Some (double_of k m, c) /\ 0 <= m <= total /\
    forall t, ready <= t < utilization_endtime ready dur -> level d0 t <= m.
Proof.
  intros Hready Hdur E (Hc & Hb & Hl).
  pose proof (valid_window (Res ready dur 0)) as Hw.
  specialize (Hw (conj (conj (Z.lt_le_incl _ _ (proj1 Hready)) (proj2 Hready)) Hdur)).
  cbn [rs_start rs_duration] in Hw.
  unfold utilization_max, DISPATCH_TIME_QUEUE_END, DISPATCH_TIME_NOW.
  rewrite !(proj2 (Z.eqb_neq ready _)) by lia. unfold diagram_of. rewrite E.
  rewrite (window_max_double (T:=T) k _ _ _ _ total ltac:(lia)) by (done || apply Hc).
  pose proof (window_max_spec (None : option (assignment Z T)) false 0 0 ready _ binding _ Hc Hw)
    as Hmax.
  destruct (window_max _ _ _ _ d0 _ _ _) as [m c]. cbn [prod_map fst snd id].
  destruct Hmax as (_ & Hub & t0 & _ & Ht0). exists m, c. split; [done|].
  pose proof (Hl t0) as Hm. rewrite Ht0 in Hm. split; [done|].
  intros t Ht. by apply Z.leb_le, (Hub t Ht).
Qed.

(** An admitted amount fits on top of every level of its window. *)
Lemma admitted_fits a host cr st res q slots sb start binding start' binding' d0 :
  let ready := if start =? DISPATCH_TIME_NOW then a_now a else start in
  0 < ready < UINT64_MAX -> 0 < a_duration a < 2 ^ 64 ->
  0 <= q -> 0 <= slots -> small q -> small slots -> small (q * slots) ->
  default [] (RUE_utilized cr) = map (in_double k) d0 -> sound d0 ->
  (st = DISPATCH_OK -> q * slots <= total) ->
  ri_time_by_slots a host cr st true (Some (double_of k total)) res (double_of k q) slots false sb
    start binding = Some (DISPATCH_OK, start', binding' : T) ->
  q * slots <= total /\
  forall t, ready <= t < utilization_endtime ready (a_duration a) ->
    level d0 t + q * slots <= total.
Proof.
  intros ready Hready Hdur Hq Hs Hq' Hs' Hqs E Hd0 Hst. unfold ri_time_by_slots.
  destruct (bool_decide_reflect (st = DISPATCH_OK)) as [->|Hne]; cbn [negb orb]; [|congruence].
  specialize (Hst eq_refl). destruct (_ && _ && _) eqn:Eskip.
  { intros _. split; [done|]. intros t _. rewrite !andb_true_iff in Eskip.
    destruct Eskip as [[_ Hn%Nat.eqb_eq] _].
    destruct (RUE_utilized cr) as [d|]; simpl in E, Hn.
    - apply nil_length_inv in Hn as ->. by destruct d0.
    - by destruct d0. }
  destruct res; cbn [negb]; [|done]. unfold consumable_by_slots.
  destruct (Z.eqb_spec start DISPATCH_TIME_QUEUE_END) as [Eq|Eq].
  { subst ready. rewrite Eq in Hready. unfold DISPATCH_TIME_QUEUE_END, DISPATCH_TIME_NOW in *.
    simpl in Hready. lia. }
  fold ready.
  destruct (utilization_max_double (Some a) host (double_of k total) (amt_of_int slots) cr ready
    (a_duration a) binding d0 Hready Hdur E Hd0) as (m & c & -> & Hm & Hub).
  cbn [mbind option_bind].
  assert (amt_ltb (amt_sub (double_of k total) (double_of k m))
    (amt_mul (double_of k q) (amt_of_int slots)) = (total - m <? q * slots)) as ->.
  { rewrite of_int_double by done. simpl. rewrite double_mul, double_sub by
      (done || unfold small; lia). apply double_ltb; [unfold small; lia|done]. }
  destruct (Z.ltb_spec (total - m) (q * slots)) as [Hlt|Hle]; intros Hok.
  - by destruct (if a_duration a =? 0 then _ else _) as [[??]|].
  - split; [lia|]. intros t Ht. specialize (Hub t Ht). lia.
Qed.

Lemma debited_sound mr lvl fj cr cr' :
  canonical (default [] (RUE_utilized cr)) -> within_total (default [] (RUE_utilized cr)) ->
  debited mr lvl fj cr cr' ->
  canonical (default [] (RUE_utilized cr')) /\ within_total (default [] (RUE_utilized cr')).
Proof.
  intros Hc Hw Hd. destruct Hd as [a host cr st res q slots sb start binding start' binding' ready
    Hready Hdur Hq Hs Hq' Hs' Hqs Hst Hok].
  destruct (within_total_twin _ Hc Hw) as (d0 & E & Hd0).
  destruct (admitted_fits a host cr st res q slots sb start binding start' binding' d0 Hready Hdur
    Hq Hs Hq' Hs' Hqs E Hd0 Hst Hok) as [Hu Hfit].
  destruct Hd0 as (Hc0 & Hb0 & Hl0).
  rewrite of_int_double, mul_comm_double by done.
  assert (amt_mul (double_of k q) (double_of 0 slots) = double_of k (q * slots)) as ->
    by by apply double_mul.
  set (u := q * slots) in *. assert (0 <= u) as Hu0 by (subst u; lia).
  set (r := Res ready (a_duration a) (double_of k u)).
  assert (valid r) as Hr by (split; [simpl; lia|done]).
  change (utilization_add mr cr ready (a_duration a) (double_of k u) lvl fj false None [])
    with (reserve mr lvl fj false cr r).
  assert (reserve mr lvl fj false cr r = cr \/ mr <> 0 \/ fj = false \/ is_Some (chosen false cr))
    as [->|Hex]; [|done|].
  { unfold reserve, utilization_add. cbn [chosen]. destruct (RUE_utilized cr); [by right; right; right|].
    destruct fj; [|by right; right; left]. destruct (Z.eq_dec mr 0) as [->|]; [by left|by right; left]. }
  rewrite reserve_books by done. unfold r.
  cbn [chosen with_chosen RUE_utilized from_option id rs_amount rs_start rs_duration].
  rewrite E.
  destruct (book_double (T:=T) k Hk total u ltac:(lia) ltac:(lia) ready
    (utilization_endtime ready (a_duration a)) d0 Hb0) as [E1 Hb1].
  rewrite E1. set (d1 := book _ _ _ d0) in *.
  destruct (book_canonical (T:=T) (plain_of u) ready (utilization_endtime ready (a_duration a)) d0
    (conj eq_refl eq_refl) (valid_window (Res ready (a_duration a) u) Hr) Hc0) as [Hc1 Hl1].
  fold d1 in Hc1, Hl1. split; [apply (canonical_double k (total + Z.abs u)); [lia|done|done]|].
  apply within_total_map.
  eapply Forall_impl; [apply (amounts_are_levels (-1) 0 d1), Hc1|]. intros r' (t & _ & <-).
  change (level_from 0 d1 t) with (level d1 t). rewrite Hl1. pose proof (Hl0 t).
  destruct (in_window _ _ t) eqn:Ew; [|done].
  apply andb_true_iff in Ew as [Ha%Z.leb_le Hz%Z.ltb_lt].
  pose proof (Hfit t (conj Ha Hz)). simpl. lia.
Qed.

End admission.

(** ** Properties *)

Section props.
Context {T : Type} {HT : Topology T}.

(** C10: a diagram is the sum of its bookings, in the code's own [double]s. When the amounts are
    whole multiples of a power of two (slots, licences, bytes, halves) and the diagram and the
    bookings together stay below [2 ^ 53] of them, then after any sequence of bookings
    without core binding and instances, at every moment the amount in force is the [double] of
    exactly the units in force before plus the units of the bookings whose window contains the
    moment; the list is in canonical form (times strictly increasing, no entry repeating the
    amount before it, no leading zero), and the rest of the element is untouched. *)
Theorem diagram_sums_bookings (k M mr : Z) (lvl : tag) (fj excl : bool)
    (rs : list (reservation (A:=Z))) (cr : rue spec_float) :
  unit_ok k -> 0 <= M -> whole_diagram k M (default [] (chosen excl cr)) ->
  M + moved rs < 2 ^ 53 ->
  Forall valid rs -> rs <> [] -> mr <> 0 \/ fj = false \/ is_Some (chosen excl cr) ->
  canonical (default [] (chosen excl cr)) ->
  exists d,
    fold_left (reserve (T:=T) mr lvl fj excl) (map (res_double k) rs) cr =
      with_chosen excl cr (Some d) /\
    canonical d /\ whole_diagram k (M + moved rs) d /\
    forall t, exists x, Z.abs x <= M /\
      level (default [] (chosen excl cr)) t = double_of k x /\
      level d t = double_of k (booked x rs t).
Proof.
  intros Hk HM Hw Hs Hv Hne Hex Hc. destruct (whole_as_map _ _ _ Hw) as (d0 & E & Hd0).
  rewrite E in Hc. pose proof (moved_nonneg rs).
  apply (canonical_double k M) in Hc; [|lia|done].
  destruct (book_all_double (T:=T) k Hk M rs d0 HM Hs Hd0) as [E' Hb].
  destruct (book_all_exact (T:=T) rs d0 Hv Hc) as [Hc' Hl].
  exists (map (in_double k) (book_all (T:=T) rs d0)). split_and!.
  - rewrite reserve_all, E, E' by (done || by apply valid_double). by destruct rs.
  - by apply (canonical_double k (M + moved rs)); [lia|..].
  - by apply map_whole.
  - intros t. exists (level d0 t). rewrite E, !level_double, Hl. split_and!; [|done..].
    apply level_bounded; [simpl; lia|done].
Qed.

(** C32: giving a booking back undoes it, whatever was booked in between, in the code's own
    [double]s: as long as all amounts are whole multiples of a power of two and stay below
    [2 ^ 53] of them, booking an amount, making any other bookings and booking the negated
    amount for the same window leaves exactly the element the other bookings alone would have
    left, entry by entry. ([fractional_residue] shows that fractions of other denominators can
    leave a residue.) *)
Theorem giving_back_undoes (k M mr : Z) (lvl : tag) (fj excl : bool)
    (r : reservation (A:=Z)) (rs : list (reservation (A:=Z))) (cr : rue spec_float) :
  unit_ok k -> 0 <= M -> whole_diagram k M (default [] (chosen excl cr)) ->
  M + 2 * Z.abs (rs_amount r) + moved rs < 2 ^ 53 ->
  valid r -> Forall valid rs -> is_Some (chosen excl cr) ->
  canonical (default [] (chosen excl cr)) ->
  fold_left (reserve (T:=T) mr lvl fj excl)
    (map (res_double k)
       (r :: rs ++ [Res (rs_start r) (rs_duration r) (- rs_amount r)])) cr =
  fold_left (reserve (T:=T) mr lvl fj excl) (map (res_double k) rs) cr.
Proof.
  intros Hk HM Hw Hs Hr Hrs Hex Hc. destruct (whole_as_map _ _ _ Hw) as (d0 & E & Hd0).
  rewrite E in Hc. pose proof (moved_nonneg rs).
  apply (canonical_double k M) in Hc; [|lia|done].
  change (Res (rs_start r) (rs_duration r) (- rs_amount r)) with (given_back r).
  set (all := r :: rs ++ [given_back r]).
  assert (Forall valid all) as Hall.
  { constructor; [done|]. apply Forall_app. split; [done|]. by constructor. }
  assert (M + moved all < 2 ^ 53) as Hm.
  { subst all. simpl. rewrite moved_app. simpl. lia. }
  destruct (book_all_double (T:=T) k Hk M all d0 HM Hm Hd0) as [Ea _].
  destruct (book_all_double (T:=T) k Hk M rs d0 HM ltac:(lia) Hd0) as [Ers _].
  pose proof (book_all_undone (T:=T) r rs d0 Hr Hrs Hc) as Hu. fold all in Hu.
  rewrite !reserve_all by (by apply valid_double || (right; right; done)).
  rewrite E, Ea, Ers, Hu. subst all. cbn [map]. destruct rs; [|done].
  destruct Hex as [d Hd]. cbn [map]. rewrite Hd in E. simpl in E. subst d.
  destruct excl, cr; simpl in *; by subst.
Qed.

(** C29: no oversubscription, in the code's own [double]s. When capacity, requests and bookings
    are whole multiples of a power of two (less than [2 ^ 52] of them), and every amount that
    is booked was admitted by [ri_time_by_slots] for the same window (from a given start time
    or from now on), in any order and number, then the amount in force never exceeds the total
    at any moment. The requests ask for amounts without core binding, instances and exclusive
    use, and what [match_static_resource] accepts without regard to time is no more than the
    capacity: without a schedule nothing else is asked while nothing is booked.
    ([fractional_oversubscription] shows that other fractions can exceed it.) *)
Theorem admitted_never_exceed_total (k total mr : Z) (lvl : tag) (fj : bool)
    (cr cr' : rue spec_float) :
  unit_ok k -> 0 <= total < 2 ^ 52 ->
  canonical (default [] (RUE_utilized cr)) ->
  within_total k total (default [] (RUE_utilized cr)) ->
  rtc (debited (T:=T) k total mr lvl fj) cr cr' ->
  canonical (default [] (RUE_utilized cr')) /\
  within_total k total (default [] (RUE_utilized cr')) /\
  forall t, amt_leb (level (default [] (RUE_utilized cr')) t) (double_of k total) = true.
Proof.
  intros Hk Ht Hc Hw Hrtc.
  assert (canonical (default [] (RUE_utilized cr')) /\
    within_total k total (default [] (RUE_utilized cr'))) as [Hc' Hw'].
  { induction Hrtc as [|cr1 cr2 cr3 Hd _ IH]; [done|].
    destruct (debited_sound (T:=T) k total Hk Ht _ _ _ _ _ Hc Hw Hd). by apply IH. }
  split_and!; [done|done|]. intros t.
  destruct (within_total_twin k total Ht _ Hc' Hw') as (d0 & -> & _ & _ & Hl).
  rewrite level_double. specialize (Hl t).
  transitivity (level d0 t <=? total); [apply double_leb; unfold small; lia|lia].
Qed.

End props.

(** ** Concrete diagrams *)

(** [n] units of a half. *)
Abbreviation halves := (double_of (-1)).

Definition mem_with (d : option (list (rde spec_float))) : rue spec_float :=
  RUE "mem" amt_zero [] None d amt_zero None.

(** One and a half from 10 on, nothing from 500 on. *)
Definition half_steps : list (rde spec_float) :=
  [RDE 10 (halves 3) [] None; RDE 500 (halves 0) [] None].

Lemma half_steps_canonical : canonical half_steps.
Proof.
  apply (canonical_double (-1) 3 [RDE 10 3 [] None; RDE 500 0 [] None]); [lia|..].
  - repeat (constructor; [simpl; lia|]). constructor.
  - split_and!; simpl; [lia..|]. by repeat constructor.
Qed.

Lemma half_steps_whole : whole_diagram (-1) 3 half_steps.
Proof.
  constructor; [exists 3; split; [lia|done]|]. constructor; [exists 0; split; [lia|done]|].
  constructor.
Qed.

Lemma diagram_sums_bookings_witness :
  exists d,
    fold_left (reserve (T:=string) 10 QUEUE_TAG true false)
      (map (res_double (-1)) [Res 100 50 2; Res 120 100 3; Res 100 50 (-2)])
      (mem_with (Some half_steps)) = with_chosen false (mem_with (Some half_steps)) (Some d) /\
    canonical d.
Proof.
  destruct (diagram_sums_bookings (T:=string) (-1) 3 10 QUEUE_TAG true false
    [Res 100 50 2; Res 120 100 3; Res 100 50 (-2)] (mem_with (Some half_steps)))
    as (d & E & Hc & _).
  - unfold unit_ok. lia.
  - lia.
  - apply half_steps_whole.
  - vm_compute. reflexivity.
  - repeat (constructor; [unfold valid; simpl; unfold UINT64_MAX; lia|]). constructor.
  - discriminate.
  - left. lia.
  - apply half_steps_canonical.
  - exists d. split; [exact E|exact Hc].
Defined.

Lemma giving_back_undoes_witness :
  fold_left (reserve (T:=string) 0 HOST_TAG true false)
    (map (res_double (-1)) [Res 5 100 7; Res 50 20 1; Res 5 100 (-7)])
    (mem_with (Some half_steps)) =
  mem_with (Some [RDE 10 (halves 3) [] None; RDE 50 (halves 4) [] None;
                  RDE 70 (halves 3) [] None; RDE 500 (halves 0) [] None]).
Proof.
  refine (eq_trans (giving_back_undoes (T:=string) (-1) 3 0 HOST_TAG true false (Res 5 100 7)
    [Res 50 20 1] (mem_with (Some half_steps)) _ _ _ _ _ _ _ _) _).
  - unfold unit_ok. lia.
  - lia.
  - apply half_steps_whole.
  - vm_compute. reflexivity.
  - unfold valid; simpl; unfold UINT64_MAX; lia.
  - constructor; [unfold valid; simpl; unfold UINT64_MAX; lia|constructor].
  - by eexists.
  - apply half_steps_canonical.
  - vm_compute. reflexivity.
Defined.

Definition asg_of (now duration : Z) : assignment spec_float string :=
  Assignment now duration (fun slots _ => slots).

(** 4 halves in all, 3 of them taken until 500: one more half fits, not two. *)
Lemma admitted_never_exceed_total_witness :
  let one_more := utilization_add (T:=string) 1 (mem_with (Some half_steps)) 20 100
    (amt_mul (amt_of_int 1) (halves 1)) HOST_TAG true false None [] in
  (exists b, ri_time_by_slots (asg_of 5 100) true (mem_with (Some half_steps)) DISPATCH_OK true
    (Some (halves 4)) true (halves 1) 2 false true 20 EmptyString = Some (DISPATCH_NEVER_CAT, 20, b)) /\
  forall t, amt_leb (level (default [] (RUE_utilized one_more)) t) (halves 4) = true.
Proof.
  split; [eexists; vm_compute; reflexivity|].
  refine (proj2 (proj2 (admitted_never_exceed_total (T:=string) (-1) 4 1 HOST_TAG true
    (mem_with (Some half_steps)) _ _ _ _ _ _))).
  - unfold unit_ok. lia.
  - lia.
  - apply half_steps_canonical.
  - constructor; [exists 3; split; [lia|done]|]. constructor; [exists 0; split; [lia|done]|].
    constructor.
  - apply rtc_once.
    apply (debit (-1) 4 1 HOST_TAG true (asg_of 5 100) true (mem_with (Some half_steps)) DISPATCH_OK true 1 1 true 20
      EmptyString 20 EmptyString); try (vm_compute; split; reflexivity); vm_compute;
      first [reflexivity|discriminate].
Defined.

(** Amounts that are not multiples of one power of two need not come back: 0.1 and
    0.2 booked for the same window and given back in the same order leave a residue, and the
    entries stay. *)
Example fractional_residue :
  let tenth := S754_finite false 7205759403792794 (-56) in
  let fifth := S754_finite false 7205759403792794 (-55) in
  let neg x := amt_sub (amt_zero : spec_float) x in
  let cr := RUE "mem" amt_zero [] None None amt_zero None in
  length (default [] (RUE_utilized
    (fold_left (reserve (T:=string) 1 QUEUE_TAG true false)
       [Res 100 50 tenth; Res 100 50 fifth; Res 100 50 (neg tenth); Res 100 50 (neg fifth)]
       cr))) = 2%nat.
Proof. vm_compute. reflexivity. Qed.

(** The same for the admission: of 3.4 with 0.7 taken a request for 2.7 is admitted, although
    the sum of the two [double]s exceeds the total. *)
Example fractional_oversubscription :
  let total := S754_finite false 7656119366529843 (-51) in
  let taken := S754_finite false 6305039478318694 (-53) in
  let request := S754_finite false 6079859496950170 (-51) in
  let cr := mem_with (Some [RDE 10 taken [] None; RDE 500 amt_zero [] None]) in
  (ri_time_by_slots (asg_of 5 100) true cr DISPATCH_OK true (Some total) true request 1 false true 20 EmptyString
     = Some (DISPATCH_OK, 20, EmptyString)) /\
  amt_leb (amt_add taken request) total = false.
Proof. by vm_compute. Qed.

End UtilizationDouble.
