(* ===== verification/CullDescr.v ===== *)
(** Object types of CULL ([libs/cull/cull_list.h], [libs/cull/cull_listP.h]) and the
    registry that shares reduced ones ([libs/cull/ocs_cull_descr.cc]).

    A descriptor is an array of entries with a terminating one, as in the code.  A
    pointer to it is a [dptr]: the static block of a name space entry, a counted block
    in the memory of the registry, or a plain array.  The memory is explicit: a counted
    block is allocated, referenced, released and freed, and using a freed one is the
    result [Dangling].  The name space of the calling thread is a section variable. *)

From S2P Require Import Prelude Pack.
Import Pack.

Module CullDescr.

(** ** Results *)

(** What can happen besides a value: an access outside the memory of a buffer, an access
    to a block that was freed or never had a header, a union member that is not the one
    written or a value slot an element does not have, the abort of [sge_malloc] or of
    [lAppendElem], and a recursion deeper than the fuel. *)
Inductive result (A : Type) :=
  Done (a : A) | Outside | Dangling | BadElement | Abort | OutOfFuel.
Arguments Done {A} a.
Arguments Outside {A}.
Arguments Dangling {A}.
Arguments BadElement {A}.
Arguments Abort {A}.
Arguments OutOfFuel {A}.

#[export] Instance result_bind : MBind result := fun A B f r =>
  match r with
  | Done a => f a
  | Outside => Outside
  | Dangling => Dangling
  | BadElement => BadElement
  | Abort => Abort
  | OutOfFuel => OutOfFuel
  end.

(** The outcomes of the pack routines. *)
Definition of_outcome {A} (o : outcome A) : result A :=
  match o with
  | Ok a => Done a
  | OutOfBounds => Outside
  | Aborted => Abort
  end.

(** ** Fields *)

Definition NoName : Z := -1.

Definition lEndT : Z := 0.
Definition lDoubleT : Z := 1.
Definition lUlongT : Z := 2.
Definition lLongT : Z := 3.
Definition lBoolT : Z := 4.
Definition lIntT : Z := 5.
Definition lStringT : Z := 6.
Definition lListT : Z := 7.
Definition lObjectT : Z := 8.
Definition lRefT : Z := 9.
Definition lHostT : Z := 10.
Definition lUlong64T : Z := 11.

Definition CULL_HASH : Z := 0x00000200.
Definition CULL_NO_TRANSFER : Z := 0x00000800.
Definition CULL_DESCR_INTERNED : Z := 0x00080000.
Definition CULL_IS_REDUCED : Z := 0x00200000.
Definition MAX_DESCR_SIZE : Z := 200.
Definition OCS_CULL_ABSENT : Z := -2147483648.
Definition OCS_CULL_DESCR_SOFT_CAP : Z := 4096.

Definition has_flag (mt flag : Z) : bool := negb (Z.land mt flag =? 0).
(** [mt & ~flag] *)
Definition without (mt flag : Z) : Z := Z.ldiff mt flag.

Definition mt_get_type (mt : Z) : Z := Z.land mt 0xFF.
Definition mt_do_hashing (mt : Z) : bool := has_flag mt CULL_HASH.
Definition mt_do_transfer (mt : Z) : bool := negb (has_flag mt CULL_NO_TRANSFER).

Record lDescr := Field { nm : Z; mt : Z; off : Z }.

#[export] Instance lDescr_eq_dec : EqDecision lDescr.
Proof. solve_decision. Defined.

Definition end_descr : lDescr := Field NoName lEndT 0.

(** The entry at a position; every array has its terminating entry. *)
Definition entry (es : list lDescr) (pos : nat) : lDescr := default end_descr (es !! pos).

Definition is_end (d : lDescr) : bool := mt_get_type (mt d) =? lEndT.

(** Also [lCountDescr]. *)
Fixpoint count_entries (es : list lDescr) : nat :=
  match es with
  | [] => 0
  | d :: es => if is_end d then 0 else S (count_entries es)
  end.

Definition same_descr_entry (a b : lDescr) : bool :=
  (nm a =? nm b) &&
  (without (mt a) CULL_DESCR_INTERNED =? without (mt b) CULL_DESCR_INTERNED) &&
  (off a =? off b).

Fixpoint same_entries (a b : list lDescr) (n : nat) : bool :=
  match n, a, b with
  | O, _, _ => true
  | S n, x :: a, y :: b => same_descr_entry x y && same_entries a b n
  | _, _, _ => false
  end.

Definition is_absent (d : lDescr) : bool := off d =? OCS_CULL_ABSENT.

Definition count_present (es : list lDescr) (n : nat) : nat :=
  length (filter (fun d => is_absent d = false) (take n es)).

Definition ocs_cull_slot (es : list lDescr) (pos : Z) : Z :=
  pos + off (entry es (Z.to_nat pos)).

(** ** Hash *)

Definition hash_byte (h b : Z) : Z := u64 (Z.lxor h b * 0x100000001b3).

Definition hash_word (h v : Z) : Z :=
  fold_left (fun h b => hash_byte h (Z.land (Z.shiftr v (8 * b)) 0xff)) [0; 1; 2; 3] h.

Definition hash_entry (h : Z) (d : lDescr) : Z :=
  fold_left hash_word
    [u32 (nm d); u32 (without (mt d) CULL_DESCR_INTERNED); u32 (off d)] h.

Definition ocs_cull_descr_hash (es : list lDescr) (n : nat) : Z :=
  fold_left hash_entry (take n es) 0xcbf29ce484222325.

(** ** Memory of the registry *)

Record cull_descr_header := Header { refs : Z; n : nat; np : nat; hash : Z }.

(** Header, entries and, with absent fields, the reverse map behind them. *)
Record counted := Counted { c_h : cull_descr_header; c_e : list lDescr; c_rmap : list Z }.

Inductive dptr := DStatic (k : nat) | DCounted (l : positive) | DPlain (es : list lDescr).

#[export] Instance dptr_eq_dec : EqDecision dptr.
Proof. solve_decision. Defined.

Record lNameSpace := NameSpace { lower : Z; size : Z; descr : option (list lDescr) }.

Section WithAllocator.
Context `{Alloc : Allocator}.

(** The heap of the C library, the counted blocks, and the registry itself: the map from
    hashes to registered blocks, its cap and the flag of the warning. *)
Record world := World {
  w_heap : heap;
  w_mem : gmap positive counted;
  w_map : list (Z * positive);
  w_cap : Z;
  w_reported : bool;
}.

Definition set_heap (h : heap) (w : world) : world :=
  World h (w_mem w) (w_map w) (w_cap w) (w_reported w).
Definition set_mem (m : gmap positive counted) (w : world) : world :=
  World (w_heap w) m (w_map w) (w_cap w) (w_reported w).
Definition set_map (m : list (Z * positive)) (w : world) : world :=
  World (w_heap w) (w_mem w) m (w_cap w) (w_reported w).
Definition set_reported (b : bool) (w : world) : world :=
  World (w_heap w) (w_mem w) (w_map w) (w_cap w) b.

(** The name space of the calling thread, if there is one; it ends at the first entry
    with [lower] 0. *)
Context (ns : option (list lNameSpace)).

Fixpoint live_entries (l : list lNameSpace) : list lNameSpace :=
  match l with
  | [] => []
  | e :: l => if lower e =? 0 then [] else e :: live_entries l
  end.

Definition name_space : list lNameSpace := live_entries (default [] ns).

(** ** Access through a pointer *)

Definition entries (w : world) (p : dptr) : result (list lDescr) :=
  match p with
  | DStatic k => match name_space !! k ≫= descr with Some es => Done es | None => Dangling end
  | DCounted l => match w_mem w !! l with Some c => Done (c_e c) | None => Dangling end
  | DPlain es => Done es
  end.

(** The header in front of the entries; a plain array has none. *)
Definition header_of (w : world) (p : dptr) : result cull_descr_header :=
  match p with
  | DStatic k =>
      match name_space !! k ≫= descr with
      | Some es =>
          let n := count_entries es in Done (Header 0 n n (ocs_cull_descr_hash es n))
      | None => Dangling
      end
  | DCounted l => match w_mem w !! l with Some c => Done (c_h c) | None => Dangling end
  | DPlain _ => Dangling
  end.

Definition rmap_of (w : world) (p : dptr) : result (list Z) :=
  match p with
  | DCounted l => match w_mem w !! l with Some c => Done (c_rmap c) | None => Dangling end
  | _ => Dangling
  end.

Definition ocs_cull_descr_is_counted (w : world) (dp : option dptr) : result bool :=
  match dp with
  | None => Done false
  | Some p => es ← entries w p; Done (has_flag (mt (entry es 0)) CULL_DESCR_INTERNED)
  end.

(** ** Static blocks *)

(** The index of the static blocks by their first field; the first block with a field
    number stays. *)
Fixpoint index_from (k : nat) (l : list lNameSpace) (nm0 : Z) : option dptr :=
  match l with
  | [] => None
  | e :: l =>
      match descr e with
      | Some es =>
          if negb (is_end (entry es 0)) && (nm (entry es 0) =? nm0) then Some (DStatic k)
          else index_from (S k) l nm0
      | None => index_from (S k) l nm0
      end
  end.

Definition ocs_cull_descr_static_for (nm0 : Z) : option dptr := index_from 0 name_space nm0.

Definition static_block_for (w : world) (p : dptr) : result (option dptr) :=
  es ← entries w p; Done (ocs_cull_descr_static_for (nm (entry es 0))).

(** The block whose range contains the field, with the position of the field. *)
Fixpoint containing_from (k : nat) (l : list lNameSpace) (nm0 : Z) : option (dptr * nat) :=
  match l with
  | [] => None
  | e :: l =>
      match descr e with
      | Some es =>
          if (lower e <=? nm0) && (nm0 <? lower e + size e) then
            let pos := Z.to_nat (nm0 - lower e) in
            if nm (entry es pos) =? nm0 then Some (DStatic k, pos) else None
          else containing_from (S k) l nm0
      | None => containing_from (S k) l nm0
      end
  end.

Definition ocs_cull_descr_static_containing (nm0 : Z) : option (dptr * nat) :=
  containing_from 0 name_space nm0.

Definition ocs_cull_descr_is_static (w : world) (dp : option dptr) : result bool :=
  match dp with
  | None => Done false
  | Some p =>
      counted ← ocs_cull_descr_is_counted w dp;
      if counted : bool then Done false
      else b ← static_block_for w p; Done (bool_decide (b = Some p))
  end.

(** ** Fields that have a value *)

(** Position and slot of the fields an element of the type has values for, in slot
    order. *)
Definition ocs_cull_present_fields (w : world) (p : dptr) : result (list (nat * Z)) :=
  es ← entries w p;
  let full := map (fun i : nat => (i, Z.of_nat i)) (seq 0 (count_entries es)) in
  let walk :=
    map (fun i : nat => (i, ocs_cull_slot es (Z.of_nat i)))
      (filter (fun i : nat => is_absent (entry es i) = false) (seq 0 (count_entries es))) in
  if negb (has_flag (mt (entry es 0)) CULL_IS_REDUCED) then Done full
  else if has_flag (mt (entry es 0)) CULL_DESCR_INTERNED then
    h ← header_of w p;
    if (np h <? n h)%nat then
      rmap ← rmap_of w p;
      Done (imap (fun slot pos => (Z.to_nat pos, Z.of_nat slot)) (take (np h) rmap))
    else Done walk
  else Done walk.

(** -1 for a null pointer. *)
Definition lCountPresent (w : world) (dp : option dptr) : result Z :=
  match dp with
  | None => Done (-1)
  | Some p =>
      counted ← ocs_cull_descr_is_counted w dp;
      if counted : bool then h ← header_of w p; Done (Z.of_nat (np h))
      else es ← entries w p; Done (Z.of_nat (count_present es (count_entries es)))
  end.

(** ** Counted blocks *)

(** 24 bytes of header, 12 per entry, 2 per slot of the reverse map. *)
Definition counted_size (n np : nat) : Z :=
  24 + (n + 1) * 12 + (if (np <? n)%nat then np * 2 else 0).

(** An [int16_t]. *)
Definition s16 (z : Z) : Z := (z + 32768) mod 65536 - 32768.

(** [rmap[pos + off] = pos] for the present fields of the rest of the array from [pos]
    on. *)
Fixpoint fill_rmap (pos : nat) (es : list lDescr) (rmap : list Z) : result (list Z) :=
  match es with
  | [] => Done rmap
  | d :: es =>
      if is_absent d then fill_rmap (S pos) es rmap
      else
        let slot := Z.of_nat pos + off d in
        if (0 <=? slot) && (slot <? length rmap) then
          fill_rmap (S pos) es (<[Z.to_nat slot := s16 pos]> rmap)
        else Outside
  end.

Definition mark_interned (es : list lDescr) : list lDescr :=
  match es with
  | [] => []
  | d :: es => Field (nm d) (Z.lor (mt d) CULL_DESCR_INTERNED) (off d) :: es
  end.

Definition alloc_counted (w : world) (es : list lDescr) (n : nat) (hash : Z) :
    result (world * option positive) :=
  let np := count_present es n in
  '(h, m) ← of_outcome (sge_malloc (w_heap w) (counted_size n np));
  match m with
  | None => Done (set_heap h w, None)
  | Some m =>
      rmap ← (if (np <? n)%nat then fill_rmap 0 (take n es) (repeat 0 np) else Done []);
      let l := fresh (dom (w_mem w)) in
      let c := Counted (Header 1 n np hash) (mark_interned (take (S n) es)) rmap in
      Done (set_heap h (set_mem (<[l := c]> (w_mem w)) w), Some l)
  end.

Definition set_refs (r : Z) (c : counted) : counted :=
  Counted (Header r (n (c_h c)) (np (c_h c)) (hash (c_h c))) (c_e c) (c_rmap c).

(** False for a block whose last reference is gone. *)
Definition ref_if_alive (w : world) (l : positive) : result (world * bool) :=
  match w_mem w !! l with
  | None => Dangling
  | Some c =>
      if refs (c_h c) =? 0 then Done (w, false)
      else Done (set_mem (<[l := set_refs (u32 (refs (c_h c) + 1)) c]> (w_mem w)) w, true)
  end.

(** The registered block with the same entries, among those with the same hash. *)
Fixpoint find_same (w : world) (m : list (Z * positive)) (hash : Z) (es : list lDescr)
    (cnt : nat) : result (option positive) :=
  match m with
  | [] => Done None
  | (k, l) :: m =>
      if k =? hash then
        match w_mem w !! l with
        | None => Dangling
        | Some c =>
            if bool_decide (n (c_h c) = cnt) && same_entries (c_e c) es cnt then Done (Some l)
            else find_same w m hash es cnt
        end
      else find_same w m hash es cnt
  end.

(** [it->second = fresh] *)
Definition replace_loc (m : list (Z * positive)) (old new : positive) : list (Z * positive) :=
  (fun kl : Z * positive => if bool_decide (snd kl = old) then (fst kl, new) else kl) <$> m.

(** The part of [ocs_cull_descr_intern] under the mutex, and the warning behind it. *)
Definition ocs_cull_descr_intern (w : world) (dp : option dptr) :
    result (world * option dptr) :=
  match dp with
  | None => Done (w, None)
  | Some p =>
      es ← entries w p;
      let n := count_entries es in
      let hash := ocs_cull_descr_hash es n in
      found ← find_same w (w_map w) hash es n;
      match found with
      | Some l =>
          '(w, alive) ← ref_if_alive w l;
          if alive : bool then Done (w, Some (DCounted l))
          else
            '(w, fresh) ← alloc_counted w es n hash;
            match fresh with
            | None => Done (w, None)
            | Some f => Done (set_map (replace_loc (w_map w) l f) w, Some (DCounted f))
            end
      | None =>
          '(w, fresh) ← alloc_counted w es n hash;
          match fresh with
          | None => Done (w, None)
          | Some f =>
              if length (w_map w) <? w_cap w then
                Done (set_map (w_map w ++ [(hash, f)]) w, Some (DCounted f))
              else Done (set_reported true w, Some (DCounted f))
          end
      end
  end.

(** ** References *)

Definition ocs_cull_descr_ref (w : world) (dp : option dptr) : result (world * option dptr) :=
  counted ← ocs_cull_descr_is_counted w dp;
  if counted : bool then
    match dp with
    | Some (DCounted l) =>
        match w_mem w !! l with
        | Some c =>
            Done (set_mem (<[l := set_refs (u32 (refs (c_h c) + 1)) c]> (w_mem w)) w, dp)
        | None => Dangling
        end
    | _ => Dangling
    end
  else Done (w, dp).

(** [it->second == h] with the hash of the block: the first one is erased. *)
Fixpoint erase_loc (m : list (Z * positive)) (hash : Z) (l : positive) : list (Z * positive) :=
  match m with
  | [] => []
  | (k, x) :: m =>
      if (k =? hash) && bool_decide (x = l) then m else (k, x) :: erase_loc m hash l
  end.

(** The part of a release that follows the last reference. *)
Definition forget (w : world) (l : positive) (hash : Z) : world :=
  let m := erase_loc (w_map w) hash l in
  let w := set_map m w in
  let w := if length m <? w_cap w then set_reported false w else w in
  set_mem (delete l (w_mem w)) w.

(** The caller's pointer is null afterwards. *)
Definition ocs_cull_descr_release (w : world) (dp : option dptr) : result world :=
  counted ← ocs_cull_descr_is_counted w dp;
  if counted : bool then
    match dp with
    | Some (DCounted l) =>
        match w_mem w !! l with
        | Some c =>
            let old := refs (c_h c) in
            let w := set_mem (<[l := set_refs (u32 (old - 1)) c]> (w_mem w)) w in
            if old =? 1 then Done (forget w l (hash (c_h c))) else Done w
        | None => Dangling
        end
    | _ => Dangling
    end
  else Done w.

Definition ocs_cull_descr_refs (w : world) (dp : option dptr) : result Z :=
  counted ← ocs_cull_descr_is_counted w dp;
  match dp with
  | Some p => if counted : bool then h ← header_of w p; Done (refs h) else Done 0
  | None => Done 0
  end.

(** The descriptor a list or an element holds.  A debug build aborts on a reduced one that
    does not have the length of its type; that check is not in the other builds. *)
Definition ocs_cull_descr_acquire (w : world) (dp : option dptr) :
    result (world * option dptr) :=
  match dp with
  | None => Done (w, None)
  | Some p =>
      counted ← ocs_cull_descr_is_counted w dp;
      if counted : bool then ocs_cull_descr_ref w dp
      else
        block ← static_block_for w p;
        if bool_decide (block = Some p) then Done (w, dp)
        else
          match block with
          | Some b =>
              es ← entries w p;
              bs ← entries w b;
              let n := count_entries es in
              if bool_decide (count_entries bs = n) && same_entries bs es n then
                Done (w, Some b)
              else ocs_cull_descr_intern w dp
          | None => ocs_cull_descr_intern w dp
          end
  end.

Definition ocs_cull_descr_private (w : world) (dp : option dptr) :
    result (world * option dptr) :=
  match dp with
  | None => Done (w, None)
  | Some p =>
      es ← entries w p;
      let n := count_entries es in
      '(w, l) ← alloc_counted w es n (ocs_cull_descr_hash es n);
      Done (w, option_map DCounted l)
  end.

(** ** Layout *)

(** The loop over the entries: [None] for a field that is kept but absent, else the
    entries written and the number of slots. *)
Fixpoint lay_out (pos : nat) (slot : Z) (src : list lDescr) (keep : list bool) :
    option (list lDescr * Z) :=
  match src, keep with
  | d :: src, k :: keep =>
      if k && is_absent d then None
      else
        let mt' := Z.lor (without (mt d) CULL_DESCR_INTERNED) CULL_IS_REDUCED in
        let off' := if k then slot - pos else OCS_CULL_ABSENT in
        '(out, slot) ← lay_out (S pos) (if k then slot + 1 else slot) src keep;
        Some (Field (nm d) mt' off' :: out, slot)
  | _, _ => Some ([], slot)
  end.

Definition unmark_reduced (d : lDescr) : lDescr :=
  Field (nm d) (without (mt d) CULL_IS_REDUCED) (off d).

(** The entries with the terminating one, and the number of kept fields; [None] is -1. *)
Definition ocs_cull_descr_layout (src : list lDescr) (keep : list bool) :
    option (list lDescr * Z) :=
  let n := count_entries src in
  if bool_decide (n = 0%nat) || negb (bool_decide (length keep = n)) then None
  else
    '(out, slot) ← lay_out 0 0 (take n src) keep;
    let out := out ++ [Field NoName (Z.lor lEndT CULL_IS_REDUCED) 0] in
    Some (if slot =? n then map unmark_reduced out else out, slot).

Definition ocs_cull_descr_build (w : world) (src : option dptr) (keep : list bool) :
    result (world * option dptr) :=
  match src with
  | None => Done (w, None)
  | Some p =>
      es ← entries w p;
      match ocs_cull_descr_layout es keep with
      | None => Done (w, None)
      | Some (out, kept) =>
          if kept =? 0 then Done (w, None)
          else if kept =? count_entries es then ocs_cull_descr_acquire w src
          else ocs_cull_descr_intern w (Some (DPlain out))
      end
  end.

(** The fields to keep, by number; [None] if one does not belong to the type. *)
Fixpoint keep_fields (es : list lDescr) (cnt : nat) (fields : list Z) (keep : list bool) :
    option (list bool) :=
  match fields with
  | [] => Some keep
  | f :: fields =>
      let pos := if (0 <? cnt)%nat then f - nm (entry es 0) else -1 in
      if (pos <? 0) || (cnt <=? pos) || negb (nm (entry es (Z.to_nat pos)) =? f) then None
      else keep_fields es cnt fields (<[Z.to_nat pos := true]> keep)
  end.

Definition ocs_cull_descr_reduce (w : world) (type : option dptr) (fields : list Z) :
    result (world * option dptr) :=
  match type with
  | None =>
      match fields with
      | [] => ocs_cull_descr_build w None []
      | _ => Done (w, None)
      end
  | Some p =>
      es ← entries w p;
      let n := count_entries es in
      match keep_fields es n fields (repeat false n) with
      | None => Done (w, None)
      | Some keep => ocs_cull_descr_build w type keep
      end
  end.

Definition ocs_cull_descr_set_soft_cap (w : world) (cap : Z) : world * Z :=
  (World (w_heap w) (w_mem w) (w_map w) cap (w_reported w), w_cap w).

End WithAllocator.

End CullDescr.
