(* ===== verification/CullDescrFacts.v ===== *)
(** Facts about object types and the descriptor registry: layouts of reduced descriptors,
    the types of a well formed name space, and what the registry operations do to the
    counted blocks. *)

From S2P Require Import Prelude Pack CullDescr.
Import Pack CullDescr.

Module CullDescrFacts.

(** ** Flags *)

Lemma land_without_flags m a b c :
  Z.land a c = 0 -> Z.land b c = 0 -> Z.land (Z.lor (without m a) b) c = Z.land m c.
Proof.
  intros Ha Hb. apply Z.bits_inj. intros i. unfold without.
  rewrite !Z.land_spec, Z.lor_spec, Z.ldiff_spec.
  assert (Z.testbit (Z.land a c) i = false) as Hai by (by rewrite Ha, Z.bits_0).
  assert (Z.testbit (Z.land b c) i = false) as Hbi by (by rewrite Hb, Z.bits_0).
  rewrite Z.land_spec in Hai, Hbi.
  destruct (Z.testbit m i), (Z.testbit a i), (Z.testbit b i), (Z.testbit c i); done.
Qed.

Lemma land_without m a c : Z.land a c = 0 -> Z.land (without m a) c = Z.land m c.
Proof. intros Ha. rewrite <- (land_without_flags m a 0 c Ha (Z.land_0_l c)), Z.lor_0_r. done. Qed.

Lemma without_unset m a : has_flag m a = false -> 0 <= m -> without m a = m.
Proof.
  unfold has_flag, without. intros H _. apply negb_false_iff, Z.eqb_eq in H.
  apply Z.bits_inj. intros i. rewrite Z.ldiff_spec.
  assert (Z.testbit (Z.land m a) i = false) as Hi by (by rewrite H, Z.bits_0).
  rewrite Z.land_spec in Hi. destruct (Z.testbit m i), (Z.testbit a i); done.
Qed.

Lemma without_lor m a b : without (Z.lor m b) a = Z.lor (without m a) (without b a).
Proof.
  unfold without. apply Z.bits_inj. intros i. rewrite Z.lor_spec, !Z.ldiff_spec, Z.lor_spec.
  destruct (Z.testbit m i), (Z.testbit a i), (Z.testbit b i); done.
Qed.

Lemma without_without m a : without (without m a) a = without m a.
Proof.
  unfold without. apply Z.bits_inj. intros i. rewrite !Z.ldiff_spec.
  destruct (Z.testbit m i), (Z.testbit a i); done.
Qed.

(** ** The kept fields of a type *)

Fixpoint kept_from (pos : nat) (keep : list bool) : list nat :=
  match keep with
  | [] => []
  | b :: keep => if b then pos :: kept_from (S pos) keep else kept_from (S pos) keep
  end.

(** The positions of the fields that are kept, which is the order of their slots. *)
Definition kept (keep : list bool) : list nat := kept_from 0 keep.

Definition all_kept (keep : list bool) : bool := forallb id keep.

Lemma kept_from_bounds pos keep i : i ∈ kept_from pos keep -> (pos <= i < pos + length keep)%nat.
Proof.
  revert pos. induction keep as [|b keep IH]; intros pos Hi; simpl in *; [by apply elem_of_nil in Hi|].
  destruct b; [apply elem_of_cons in Hi as [->|Hi]; [lia|]|]; apply IH in Hi; lia.
Qed.

Lemma kept_from_length pos keep : (length (kept_from pos keep) <= length keep)%nat.
Proof.
  revert pos. induction keep as [|[] keep IH]; intros pos; simpl; [lia| |];
    specialize (IH (S pos)); lia.
Qed.

Lemma kept_from_length_pos pos pos' keep :
  length (kept_from pos keep) = length (kept_from pos' keep).
Proof. revert pos pos'. induction keep as [|[] keep IH]; intros; simpl; [done| |]; auto. Qed.

Lemma kept_from_all pos keep :
  length (kept_from pos keep) = length keep -> keep = repeat true (length keep).
Proof.
  revert pos. induction keep as [|b keep IH]; intros pos H; simpl in *; [done|].
  destruct b; simpl in *; [f_equal; apply (IH (S pos)); lia|].
  pose proof (kept_from_length (S pos) keep). lia.
Qed.

Lemma all_kept_length pos keep :
  all_kept keep = bool_decide (length (kept_from pos keep) = length keep).
Proof.
  unfold all_kept. revert pos. induction keep as [|b keep IH]; intros pos; simpl; [done|].
  destruct b; cbn [id andb].
  - rewrite (IH (S pos)). simpl. apply bool_decide_ext. lia.
  - symmetry. apply bool_decide_eq_false. pose proof (kept_from_length (S pos) keep). lia.
Qed.

Lemma kept_from_repeat pos n : kept_from pos (repeat true n) = seq pos n.
Proof. revert pos. induction n as [|n IH]; intros pos; simpl; [done|]. by rewrite IH. Qed.

Lemma kept_from_lookup pos keep i :
  (exists slot, kept_from pos keep !! slot = Some (pos + i)%nat) <-> keep !! i = Some true.
Proof.
  revert pos i. induction keep as [|b keep IH]; intros pos i; simpl.
  { split; [intros [slot H]; by rewrite lookup_nil in H|by rewrite lookup_nil]. }
  split.
  - intros [slot Hs]. destruct i as [|i].
    + destruct b; [done|]. exfalso. apply list_elem_of_lookup_2 in Hs.
      apply kept_from_bounds in Hs. lia.
    + simpl. rewrite <- (IH (S pos)). destruct b.
      * destruct slot as [|slot]; simpl in Hs; [injection Hs; lia|].
        exists slot. rewrite Hs. f_equal. lia.
      * exists slot. rewrite Hs. f_equal. lia.
  - destruct i as [|i]; simpl.
    + intros [= ->]. exists 0%nat. simpl. f_equal. lia.
    + rewrite <- (IH (S pos)). intros [slot Hs]. destruct b.
      * exists (S slot). simpl. rewrite Hs. f_equal. lia.
      * exists slot. rewrite Hs. f_equal. lia.
Qed.

Lemma repeat_lookup {A} (x : A) (n i : nat) : (i < n)%nat -> repeat x n !! i = Some x.
Proof. revert i. induction n as [|n IH]; intros [|i] H; simpl; [lia..|done|]. apply IH. lia. Qed.

(** ** Layout *)

(** The entries of a reduced descriptor behind position [pos] and slot [slot]. *)
Fixpoint laid (pos : nat) (slot : Z) (fs : list lDescr) (keep : list bool) : list lDescr :=
  match fs, keep with
  | d :: fs, b :: keep =>
      Field (nm d) (Z.lor (without (mt d) CULL_DESCR_INTERNED) CULL_IS_REDUCED)
        (if b then slot - pos else OCS_CULL_ABSENT)
      :: laid (S pos) (if b then slot + 1 else slot) fs keep
  | _, _ => []
  end.

Definition end_reduced : lDescr := Field NoName (Z.lor lEndT CULL_IS_REDUCED) 0.

(** A field of a full type. *)
Record field_ok (d : lDescr) : Prop := {
  fo_mt : 0 <= mt d < 2147483648;
  fo_type : mt_get_type (mt d) <> lEndT;
  fo_plain : has_flag (mt d) CULL_DESCR_INTERNED = false;
  fo_full : has_flag (mt d) CULL_IS_REDUCED = false;
  fo_off : off d = 0;
}.

Lemma field_ok_present d : field_ok d -> is_absent d = false.
Proof. intros []. unfold is_absent. by rewrite fo_off0. Qed.

Lemma field_ok_not_end d : field_ok d -> is_end d = false.
Proof. intros []. unfold is_end. by apply Z.eqb_neq. Qed.

Lemma laid_length pos slot fs keep :
  length fs = length keep -> length (laid pos slot fs keep) = length fs.
Proof.
  revert pos slot keep. induction fs as [|d fs IH]; intros pos slot [|b keep] H; simpl in *; try done.
  f_equal. apply IH. lia.
Qed.

Lemma lay_out_laid pos slot fs keep :
  Forall field_ok fs -> length fs = length keep ->
  lay_out pos slot fs keep = Some (laid pos slot fs keep, slot + length (kept_from pos keep)).
Proof.
  intros Hok. revert pos slot keep. induction Hok as [|d fs Hd Hok IH];
    intros pos slot [|b keep] Hl; simpl in *; try done; [f_equal; f_equal; lia|].
  rewrite (field_ok_present d Hd), andb_false_r, IH by lia. simpl. do 2 f_equal.
  destruct b; simpl; lia.
Qed.

Lemma count_entries_app fs e rest :
  Forall (fun d => is_end d = false) fs -> is_end e = true ->
  count_entries (fs ++ e :: rest) = length fs.
Proof.
  intros Hf He. induction Hf as [|d fs Hd Hf IH]; simpl; [by rewrite He|].
  rewrite Hd. by rewrite IH.
Qed.

Lemma laid_lookup pos slot fs keep i d :
  length fs = length keep -> laid pos slot fs keep !! i = Some d ->
  exists f (b : bool), fs !! i = Some f /\ keep !! i = Some b /\ nm d = nm f /\
    mt d = Z.lor (without (mt f) CULL_DESCR_INTERNED) CULL_IS_REDUCED /\
    off d = (if b then slot + length (kept_from pos (take i keep)) - (pos + i) else OCS_CULL_ABSENT).
Proof.
  revert pos slot keep i. induction fs as [|f fs IH]; intros pos slot [|b keep] i Hl; simpl in *;
    try done; try (by rewrite lookup_nil).
  destruct i as [|i]; simpl.
  - intros [= <-]. exists f, b. simpl. repeat (split; [done|]). destruct b; simpl; lia.
  - intros H. destruct (IH _ _ keep i ltac:(lia) H) as (f' & b' & ? & ? & ? & ? & Ho).
    exists f', b'. repeat (split; [done|]). rewrite Ho. destruct b'; [|done].
    destruct b; simpl; lia.
Qed.

Lemma laid_ends pos slot fs keep :
  Forall field_ok fs -> length fs = length keep ->
  Forall (fun d => is_end d = false) (laid pos slot fs keep).
Proof.
  intros Hok Hl. apply Forall_lookup. intros i d Hd.
  destruct (laid_lookup _ _ _ _ _ _ Hl Hd) as (f & b & Hf & _ & _ & Hm & _).
  unfold is_end, mt_get_type. rewrite Hm, land_without_flags by done.
  apply Forall_lookup_1 with (1 := Hok) in Hf. by apply field_ok_not_end.
Qed.

Lemma layout_reduced fs keep :
  Forall field_ok fs -> length fs = length keep -> fs <> [] ->
  (length (kept keep) < length fs)%nat ->
  ocs_cull_descr_layout (fs ++ [end_descr]) keep =
  Some (laid 0 0 fs keep ++ [end_reduced], Z.of_nat (length (kept keep))).
Proof.
  intros Hok Hl Hne Hk. unfold ocs_cull_descr_layout.
  rewrite count_entries_app by (done || (eapply Forall_impl; [exact Hok|]; apply field_ok_not_end)).
  rewrite (bool_decide_eq_false_2 (length fs = 0%nat)) by (by destruct fs).
  rewrite (bool_decide_eq_true_2 (length keep = length fs)) by done. cbn [orb negb].
  rewrite take_app_length. rewrite lay_out_laid by done. cbn [mbind option_bind].
  rewrite Z.add_0_l. fold (kept keep). rewrite (proj2 (Z.eqb_neq _ _)) by lia. done.
Qed.

(** ** Name spaces *)

(** The block of a name space entry: its fields in the order of their numbers and the
    terminating entry. *)
Record type_ok (e : lNameSpace) (fs : list lDescr) : Prop := {
  ty_descr : descr e = Some (fs ++ [end_descr]);
  ty_fields : Forall field_ok fs;
  ty_nonempty : fs <> [];
  ty_small : (length fs < 200)%nat;
  ty_size : size e = length fs;
  ty_range : 0 < lower e /\ lower e + size e <= 2147483648;
  ty_numbers : forall (i : nat) d, fs !! i = Some d -> nm d = lower e + i;
}.

(** Every entry with a type is well formed and no field number belongs to two. *)
Record ns_ok (ns : option (list lNameSpace)) : Prop := {
  ns_types : forall k e es, name_space ns !! k = Some e -> descr e = Some es ->
    exists fs, type_ok e fs;
  ns_disjoint : forall i j ei ej fi fj, name_space ns !! i = Some ei -> name_space ns !! j = Some ej ->
    type_ok ei fi -> type_ok ej fj ->
    lower ei < lower ej + size ej -> lower ej < lower ei + size ei -> i = j;
}.

Section NameSpace.
Context (ns : option (list lNameSpace)) (Hns : ns_ok ns).

(** Type [k] has the fields [fs]. *)
Definition type_at (k : nat) (fs : list lDescr) : Prop :=
  exists e, name_space ns !! k = Some e /\ type_ok e fs.

Lemma type_at_unique k fs fs' : type_at k fs -> type_at k fs' -> fs = fs'.
Proof.
  intros (e & He & Ht) (e' & He' & Ht'). rewrite He in He'. injection He' as <-.
  pose proof (ty_descr _ _ Ht) as Hd. rewrite (ty_descr _ _ Ht') in Hd.
  injection Hd as Hd. by apply app_inj_tail in Hd as [-> _].
Qed.

Lemma type_at_fields k fs : type_at k fs -> Forall field_ok fs /\ fs <> [] /\ (length fs < 200)%nat.
Proof. intros (e & _ & []). done. Qed.

Lemma type_at_count k fs : type_at k fs -> count_entries (fs ++ [end_descr]) = length fs.
Proof.
  intros (Hf & _)%type_at_fields. apply count_entries_app; [|done].
  eapply Forall_impl; [exact Hf|]. apply field_ok_not_end.
Qed.

Lemma type_at_descr k fs : type_at k fs -> name_space ns !! k ≫= descr = Some (fs ++ [end_descr]).
Proof. intros (e & He & []). rewrite He. done. Qed.

Lemma type_at_numbers k fs (i j : nat) d d' :
  type_at k fs -> fs !! i = Some d -> fs !! j = Some d' -> nm d' = nm d + (j - i).
Proof. intros (e & He & []) Hi Hj. rewrite (ty_numbers0 _ _ Hi), (ty_numbers0 _ _ Hj). lia. Qed.

Lemma type_at_nm k fs (i : nat) d : type_at k fs -> fs !! i = Some d -> 0 < nm d < 2147483648.
Proof.
  intros (e & He & []) Hi. rewrite (ty_numbers0 _ _ Hi).
  apply lookup_lt_Some in Hi. lia.
Qed.

(** Two types that share a field number are the same. *)
Lemma type_at_shared k k' fs fs' (i j : nat) d d' :
  type_at k fs -> type_at k' fs' -> fs !! i = Some d -> fs' !! j = Some d' -> nm d = nm d' ->
  k = k' /\ i = j.
Proof.
  intros (e & He & Ht) (e' & He' & Ht') Hi Hj Hnm.
  pose proof (ty_numbers _ _ Ht _ _ Hi) as Hn. pose proof (ty_numbers _ _ Ht' _ _ Hj) as Hn'.
  pose proof (lookup_lt_Some _ _ _ Hi). pose proof (lookup_lt_Some _ _ _ Hj).
  pose proof (ty_size _ _ Ht). pose proof (ty_size _ _ Ht').
  assert (k = k') as <- by (eapply (ns_disjoint _ Hns); [exact He|exact He'|done|done|lia|lia]).
  split; [done|]. simplify_eq. lia.
Qed.

Lemma entry_app fs (i : nat) d rest : fs !! i = Some d -> entry (fs ++ rest) i = d.
Proof. intros H. unfold entry. by rewrite (lookup_app_l_Some _ _ _ _ H). Qed.

Lemma index_from_spec (l : list lNameSpace) k0 nm0 k fs d :
  (forall k e, l !! k = Some e -> name_space ns !! (k0 + k)%nat = Some e) ->
  type_at (k0 + k) fs -> (k < length l)%nat -> fs !! 0%nat = Some d -> nm d = nm0 ->
  index_from k0 l nm0 = Some (DStatic (k0 + k)).
Proof.
  revert k0 k. induction l as [|e l IH]; intros k0 k Hl Ht Hk Hd Hnm; simpl in *; [lia|].
  assert (name_space ns !! k0 = Some e) as He.
  { rewrite <- (Hl 0%nat e eq_refl). f_equal. lia. }
  destruct k as [|k].
  - replace (k0 + 0)%nat with k0 in * by lia. 
    destruct Ht as (e' & He' & Ht). rewrite He in He'. injection He' as <-.
    rewrite (ty_descr _ _ Ht), (entry_app _ _ _ _ Hd).
    rewrite (field_ok_not_end d), Hnm, Z.eqb_refl; [done|].
    apply (Forall_lookup_1 _ _ _ _ (ty_fields _ _ Ht) Hd).
  - assert (index_from (S k0) l nm0 = Some (DStatic (k0 + S k))) as IH'.
    { replace (k0 + S k)%nat with (S k0 + k)%nat in * by lia. apply IH; [|done|lia|done|done].
      intros j e' Hj. rewrite <- (Hl (S j) e' Hj). f_equal. lia. }
    destruct (descr e) as [es|] eqn:Ede; [|done].
    destruct (ns_types _ Hns _ _ _ He Ede) as (fs' & Hty).
    rewrite (ty_descr _ _ Hty) in Ede. injection Ede as <-.
    destruct (fs' !! 0%nat) as [d'|] eqn:Hd'; [|destruct fs'; [by destruct (ty_nonempty _ _ Hty)|done]].
    rewrite (entry_app _ _ _ _ Hd').
    destruct (negb (is_end d') && (nm d' =? nm0)) eqn:Hb; [|done].
    apply andb_true_iff in Hb as [_ Hb%Z.eqb_eq].
    assert (type_at k0 fs') as Ht' by (by exists e).
    destruct (type_at_shared _ _ _ _ _ _ _ _ Ht' Ht Hd' Hd); [congruence|lia].
Qed.

Lemma static_for_spec k fs d :
  type_at k fs -> fs !! 0%nat = Some d -> ocs_cull_descr_static_for ns (nm d) = Some (DStatic k).
Proof.
  intros Ht Hd. unfold ocs_cull_descr_static_for.
  apply (index_from_spec (name_space ns) 0 (nm d) k fs d); simpl; try done.
  destruct Ht as (e & He & _). by apply lookup_lt_Some in He.
Qed.

Lemma containing_from_spec (l : list lNameSpace) k0 k fs i d :
  (forall k e, l !! k = Some e -> name_space ns !! (k0 + k)%nat = Some e) ->
  type_at (k0 + k) fs -> (k < length l)%nat -> fs !! i = Some d ->
  containing_from k0 l (nm d) = Some (DStatic (k0 + k), i).
Proof.
  revert k0 k. induction l as [|e l IH]; intros k0 k Hl Ht Hk Hd; simpl in *; [lia|].
  assert (name_space ns !! k0 = Some e) as He.
  { rewrite <- (Hl 0%nat e eq_refl). f_equal. lia. }
  destruct k as [|k].
  - replace (k0 + 0)%nat with k0 in * by lia.
    destruct Ht as (e' & He' & Ht). rewrite He in He'. injection He' as <-.
    pose proof (ty_numbers _ _ Ht _ _ Hd) as Hn. pose proof (ty_size _ _ Ht).
    pose proof (lookup_lt_Some _ _ _ Hd).
    rewrite (ty_descr _ _ Ht). destruct (_ && _) eqn:Hb; [|lia].
    replace (Z.to_nat (nm d - lower e)) with i by lia.
    by rewrite (entry_app _ _ _ _ Hd), Z.eqb_refl.
  - assert (containing_from (S k0) l (nm d) = Some (DStatic (k0 + S k), i)) as IH'.
    { replace (k0 + S k)%nat with (S k0 + k)%nat in * by lia. apply IH; [|done|lia|done].
      intros j e' Hj. rewrite <- (Hl (S j) e' Hj). f_equal. lia. }
    destruct (descr e) as [es|] eqn:Ede; [|done].
    destruct (ns_types _ Hns _ _ _ He Ede) as (fs' & Hty).
    destruct (_ && _) eqn:Hb; [|done]. pose proof (ty_size _ _ Hty).
    assert (exists d', fs' !! Z.to_nat (nm d - lower e) = Some d') as [d' Hd'].
    { apply lookup_lt_is_Some. lia. }
    pose proof (ty_numbers _ _ Hty _ _ Hd').
    assert (type_at k0 fs') as Ht' by (by exists e).
    destruct (type_at_shared _ _ _ _ _ _ _ _ Ht' Ht Hd' Hd); lia.
Qed.

Lemma static_containing_spec k fs i d :
  type_at k fs -> fs !! i = Some d ->
  ocs_cull_descr_static_containing ns (nm d) = Some (DStatic k, i).
Proof.
  intros Ht Hd. unfold ocs_cull_descr_static_containing.
  apply (containing_from_spec (name_space ns) 0 k fs i d); simpl; try done.
  destruct Ht as (e & He & _). by apply lookup_lt_Some in He.
Qed.

(** Whatever is found is a type. *)
Lemma index_from_sound (l : list lNameSpace) k0 nm0 p :
  (forall k e, l !! k = Some e -> name_space ns !! (k0 + k)%nat = Some e) ->
  index_from k0 l nm0 = Some p ->
  exists k fs d, p = DStatic k /\ type_at k fs /\ fs !! 0%nat = Some d /\ nm d = nm0.
Proof.
  revert k0. induction l as [|e l IH]; intros k0 Hl; simpl; [done|].
  assert (name_space ns !! k0 = Some e) as He.
  { rewrite <- (Hl 0%nat e eq_refl). f_equal. lia. }
  assert (forall k e, l !! k = Some e -> name_space ns !! (S k0 + k)%nat = Some e) as Hl'.
  { intros j e' Hj. rewrite <- (Hl (S j) e' Hj). f_equal. lia. }
  destruct (descr e) as [es|] eqn:Ede; [|by apply IH].
  destruct (ns_types _ Hns _ _ _ He Ede) as (fs & Hty).
  rewrite (ty_descr _ _ Hty) in Ede. injection Ede as <-.
  destruct (fs !! 0%nat) as [d|] eqn:Hd; [|destruct fs; [by destruct (ty_nonempty _ _ Hty)|done]].
  rewrite (entry_app _ _ _ _ Hd).
  destruct (negb (is_end d) && (nm d =? nm0)) eqn:Hb; [|by apply IH].
  intros [= <-]. apply andb_true_iff in Hb as [_ Hb%Z.eqb_eq].
  exists k0, fs, d. split; [done|]. split; [by exists e|]. done.
Qed.

Lemma static_for_sound nm0 p :
  ocs_cull_descr_static_for ns nm0 = Some p ->
  exists k fs d, p = DStatic k /\ type_at k fs /\ fs !! 0%nat = Some d /\ nm d = nm0.
Proof. apply index_from_sound. done. Qed.

Lemma containing_from_sound (l : list lNameSpace) k0 nm0 p i :
  (forall k e, l !! k = Some e -> name_space ns !! (k0 + k)%nat = Some e) ->
  containing_from k0 l nm0 = Some (p, i) ->
  exists k fs d, p = DStatic k /\ type_at k fs /\ fs !! i = Some d /\ nm d = nm0.
Proof.
  revert k0. induction l as [|e l IH]; intros k0 Hl; simpl; [done|].
  assert (name_space ns !! k0 = Some e) as He.
  { rewrite <- (Hl 0%nat e eq_refl). f_equal. lia. }
  assert (forall k e, l !! k = Some e -> name_space ns !! (S k0 + k)%nat = Some e) as Hl'.
  { intros j e' Hj. rewrite <- (Hl (S j) e' Hj). f_equal. lia. }
  destruct (descr e) as [es|] eqn:Ede; [|by apply IH].
  destruct (ns_types _ Hns _ _ _ He Ede) as (fs & Hty).
  rewrite (ty_descr _ _ Hty) in Ede. injection Ede as <-.
  destruct (_ && _) eqn:Hb; [|by apply IH]. pose proof (ty_size _ _ Hty).
  assert (exists d, fs !! Z.to_nat (nm0 - lower e) = Some d) as [d Hd].
  { apply lookup_lt_is_Some. lia. }
  rewrite (entry_app _ _ _ _ Hd). destruct (nm d =? nm0) eqn:E; [|done].
  intros [= <- <-]. exists k0, fs, d. split; [done|]. split; [by exists e|]. split; [done|lia].
Qed.

Lemma static_containing_sound nm0 p i :
  ocs_cull_descr_static_containing ns nm0 = Some (p, i) ->
  exists k fs d, p = DStatic k /\ type_at k fs /\ fs !! i = Some d /\ nm d = nm0.
Proof. apply containing_from_sound. done. Qed.

(** ** Counted blocks *)

(** The reduction of type [k] to the fields [keep]: some but not all of them. *)
Record block (k : nat) (fs : list lDescr) (keep : list bool) (c : counted) : Prop := {
  bl_type : type_at k fs;
  bl_length : length fs = length keep;
  bl_some : (0 < length (kept keep) < length fs)%nat;
  bl_e : c_e c = mark_interned (laid 0 0 fs keep ++ [end_reduced]);
  bl_n : n (c_h c) = length fs;
  bl_np : np (c_h c) = length (kept keep);
  bl_rmap : c_rmap c = map Z.of_nat (kept keep);
  bl_hash : hash (c_h c) = ocs_cull_descr_hash (laid 0 0 fs keep ++ [end_reduced]) (length fs);
}.

Lemma block_refs k fs keep c r : block k fs keep c -> block k fs keep (set_refs r c).
Proof. intros []. by split. Qed.

Context `{Alloc : Allocator}.

(** The pointer denotes type [k] with the fields [fs], reduced to [keep]. *)
Definition denotes (w : world) (p : dptr) (k : nat) (fs : list lDescr) (keep : list bool) : Prop :=
  match p with
  | DStatic j => j = k /\ type_at k fs /\ keep = repeat true (length fs)
  | DCounted l => exists c, w_mem w !! l = Some c /\ block k fs keep c
  | DPlain _ => False
  end.

(** What the entries of a descriptor say about the fields. *)
Record view (fs : list lDescr) (keep : list bool) (es : list lDescr) : Prop := {
  vw_count : count_entries es = length fs;
  vw_nm : forall i f, fs !! i = Some f -> nm (entry es i) = nm f;
  vw_flag : forall i f flag, fs !! i = Some f ->
    Z.land CULL_DESCR_INTERNED flag = 0 -> Z.land CULL_IS_REDUCED flag = 0 ->
    Z.land (mt (entry es i)) flag = Z.land (mt f) flag;
  vw_absent : forall i f, fs !! i = Some f ->
    is_absent (entry es i) = negb (default false (keep !! i));
  vw_counted : has_flag (mt (entry es 0)) CULL_DESCR_INTERNED = negb (all_kept keep);
  vw_reduced : has_flag (mt (entry es 0)) CULL_IS_REDUCED = negb (all_kept keep);
}.

Lemma denotes_facts w p k fs keep :
  denotes w p k fs keep ->
  type_at k fs /\ length fs = length keep /\ (0 < length (kept keep) <= length fs)%nat.
Proof.
  destruct p as [j|l|]; simpl; [|intros (c & _ & [])|done].
  - intros (-> & Ht & ->). split; [done|]. rewrite repeat_length. split; [done|].
    unfold kept. rewrite kept_from_repeat, length_seq.
    pose proof (type_at_fields _ _ Ht) as (_ & Hne & _). destruct fs; [done|]. simpl. lia.
  - split; [done|]. split; [done|lia].
Qed.

Lemma entry_mark es i :
  es <> [] ->
  entry (mark_interned es) i =
  match i with
  | O => Field (nm (entry es 0)) (Z.lor (mt (entry es 0)) CULL_DESCR_INTERNED) (off (entry es 0))
  | S _ => entry es i
  end.
Proof. destruct es as [|d es]; [done|]. intros _. by destruct i. Qed.

Lemma all_kept_repeat n : all_kept (repeat true n) = true.
Proof. induction n; [done|]. simpl. done. Qed.

Lemma land_lor_disjoint m b c : Z.land b c = 0 -> Z.land (Z.lor m b) c = Z.land m c.
Proof. intros H. rewrite Z.land_lor_distr_l, H, Z.lor_0_r. done. Qed.

Lemma laid_entry fs keep i f :
  length fs = length keep -> fs !! i = Some f ->
  exists b : bool, keep !! i = Some b /\
    entry (laid 0 0 fs keep ++ [end_reduced]) i =
    Field (nm f) (Z.lor (without (mt f) CULL_DESCR_INTERNED) CULL_IS_REDUCED)
      (if b then length (kept_from 0 (take i keep)) - i else OCS_CULL_ABSENT).
Proof.
  intros Hl Hi. pose proof (lookup_lt_Some _ _ _ Hi) as Hlt.
  destruct (laid 0 0 fs keep !! i) as [d|] eqn:Hd.
  2:{ apply lookup_ge_None in Hd. rewrite laid_length in Hd by done. lia. }
  rewrite (entry_app _ _ _ _ Hd).
  destruct (laid_lookup _ _ _ _ _ _ Hl Hd) as (f' & b & Hf & Hb & Hn & Hm & Ho).
  rewrite Hi in Hf. injection Hf as <-. exists b. split; [done|].
  destruct d as [n m o]. simpl in *. subst. f_equal; destruct b; lia.
Qed.

Lemma count_mark es : count_entries (mark_interned es) = count_entries es.
Proof.
  destruct es as [|d es]; [done|]. simpl. unfold is_end. simpl. unfold mt_get_type.
  by rewrite land_lor_disjoint.
Qed.

Lemma slot_small (keep : list bool) (i : nat) :
  (i < length keep)%nat -> (length keep < 200)%nat ->
  (length (kept_from 0 (take i keep)) - i =? OCS_CULL_ABSENT) = false.
Proof.
  intros. pose proof (kept_from_length 0 (take i keep)) as Hk. rewrite length_take in Hk.
  unfold OCS_CULL_ABSENT. lia.
Qed.

Lemma view_reduced k fs keep es :
  type_at k fs -> length fs = length keep -> (length (kept keep) < length fs)%nat ->
  es = laid 0 0 fs keep ++ [end_reduced] ->
  view fs keep (mark_interned es) /\ count_entries es = length fs.
Proof.
  intros Ht Hl Hk ->. pose proof (type_at_fields _ _ Ht) as (Hok & Hne & Hsm).
  set (es := laid 0 0 fs keep ++ [end_reduced]).
  assert (count_entries es = length fs) as Hc.
  { unfold es. rewrite count_entries_app, laid_length; [done|done|by apply laid_ends|done]. }
  split; [|done].
  assert (es <> []) as Hes by (unfold es; destruct (laid 0 0 fs keep); done).
  assert (forall i f, fs !! i = Some f -> exists b : bool, keep !! i = Some b /\
    nm (entry (mark_interned es) i) = nm f /\
    (exists x, mt (entry (mark_interned es) i) =
       Z.lor (Z.lor (without (mt f) CULL_DESCR_INTERNED) CULL_IS_REDUCED) x /\
       (x = 0 \/ x = CULL_DESCR_INTERNED)) /\
    off (entry (mark_interned es) i) =
      (if b then length (kept_from 0 (take i keep)) - i else OCS_CULL_ABSENT)) as Hentry.
  { intros i f Hi. destruct (laid_entry fs keep i f Hl Hi) as (b & Hb & He). exists b.
    split; [done|]. fold es in He. rewrite entry_mark by done.
    destruct i as [|i]; rewrite He; cbn [nm mt off]; (split; [done|]); (split; [|done]).
    - exists CULL_DESCR_INTERNED. auto.
    - exists 0. rewrite Z.lor_0_r. auto. }
  assert (exists f, fs !! 0%nat = Some f) as [f0 Hf0] by (destruct fs; [done|eauto]).
  assert (mt (entry (mark_interned es) 0) = Z.lor (Z.lor (without (mt f0) CULL_DESCR_INTERNED)
    CULL_IS_REDUCED) CULL_DESCR_INTERNED) as Hm0.
  { destruct (laid_entry fs keep 0 f0 Hl Hf0) as (b & _ & He). fold es in He.
    rewrite entry_mark by done. by rewrite He. }
  assert (all_kept keep = false) as Hall.
  { rewrite (all_kept_length 0). apply bool_decide_eq_false. unfold kept in Hk. lia. }
  split.
  - by rewrite count_mark.
  - intros i f Hi. by destruct (Hentry i f Hi) as (b & _ & ? & _).
  - intros i f flag Hi Hint Hred. destruct (Hentry i f Hi) as (b & _ & _ & (x & Hx & Hx0) & _).
    rewrite Hx, land_lor_disjoint, land_without_flags by (destruct Hx0 as [->| ->]; done). done.
  - intros i f Hi. destruct (Hentry i f Hi) as (b & Hb & _ & _ & Ho). unfold is_absent.
    rewrite Ho, Hb. simpl. destruct b; simpl; [|done]. apply slot_small.
    + by apply lookup_lt_Some in Hb.
    + lia.
  - rewrite Hm0, Hall. unfold has_flag. rewrite Z.land_lor_distr_l.
    change (Z.land CULL_DESCR_INTERNED CULL_DESCR_INTERNED) with CULL_DESCR_INTERNED.
    apply negb_true_iff, Z.eqb_neq. intros H0%Z.lor_eq_0_iff. destruct H0 as [_ H0]. done.
  - rewrite Hm0, Hall. unfold has_flag. rewrite land_lor_disjoint by done.
    rewrite Z.land_lor_distr_l.
    apply negb_true_iff, Z.eqb_neq. intros H0%Z.lor_eq_0_iff. destruct H0 as [_ H0]. done.
Qed.

Lemma view_full k fs : type_at k fs -> view fs (repeat true (length fs)) (fs ++ [end_descr]).
Proof.
  intros Ht. pose proof (type_at_fields _ _ Ht) as (Hok & Hne & _).
  assert (exists f, fs !! 0%nat = Some f) as [f0 Hf0] by (destruct fs; [done|eauto]).
  pose proof (Forall_lookup_1 _ _ _ _ Hok Hf0) as [].
  split.
  - by eapply type_at_count.
  - intros i f Hi. by rewrite (entry_app _ _ _ _ Hi).
  - intros i f flag Hi _ _. by rewrite (entry_app _ _ _ _ Hi).
  - intros i f Hi. rewrite (entry_app _ _ _ _ Hi), repeat_lookup by (by eapply lookup_lt_Some).
    simpl. apply field_ok_present. by apply (Forall_lookup_1 _ _ _ _ Hok Hi).
  - by rewrite (entry_app _ _ _ _ Hf0), fo_plain0, all_kept_repeat.
  - by rewrite (entry_app _ _ _ _ Hf0), fo_full0, all_kept_repeat.
Qed.

Lemma denotes_entries w p k fs keep :
  denotes w p k fs keep -> exists es, entries ns w p = Done es /\ view fs keep es.
Proof.
  destruct p as [j|l|]; simpl; [|intros (c & Hc & [])|done].
  - intros (-> & Ht & ->). rewrite (type_at_descr _ _ Ht). eexists. split; [done|].
    by eapply view_full.
  - rewrite Hc. eexists. split; [done|]. rewrite bl_e0.
    eapply view_reduced; [done|done|lia|done].
Qed.

Lemma denotes_counted w p k fs keep :
  denotes w p k fs keep ->
  ocs_cull_descr_is_counted ns w (Some p) = Done (negb (all_kept keep)).
Proof.
  intros Hd. destruct (denotes_entries _ _ _ _ _ Hd) as (es & He & []). simpl.
  rewrite He. cbn [mbind result_bind]. by rewrite vw_counted0.
Qed.

Lemma kept_all_seq (fs : list lDescr) keep :
  length fs = length keep -> all_kept keep = true -> kept keep = seq 0 (length fs).
Proof.
  intros Hl Ha. rewrite (all_kept_length 0) in Ha. apply bool_decide_eq_true in Ha.
  rewrite (kept_from_all _ _ Ha) at 1. unfold kept. by rewrite kept_from_repeat, Hl.
Qed.

(** The fields that have a value are the kept ones, in order. *)
Lemma denotes_present w p k fs keep :
  denotes w p k fs keep ->
  ocs_cull_present_fields ns w p =
    Done (imap (fun slot pos => (pos, Z.of_nat slot)) (kept keep)).
Proof.
  intros Hd. destruct (denotes_entries _ _ _ _ _ Hd) as (es & He & []).
  destruct (denotes_facts _ _ _ _ _ Hd) as (_ & Hl & Hk).
  unfold ocs_cull_present_fields. rewrite He. cbn [mbind result_bind].
  rewrite vw_reduced0, vw_counted0, vw_count0. destruct (all_kept keep) eqn:Ha; simpl.
  - f_equal. rewrite (kept_all_seq _ _ Hl Ha).
    apply list_eq. intros i. rewrite list_lookup_imap.
    destruct (decide (i < length fs)%nat).
    + rewrite list_lookup_fmap, lookup_seq_lt by done. done.
    + rewrite list_lookup_fmap, lookup_seq_ge by lia. done.
  - destruct p as [j|l|]; simpl in *; [|destruct Hd as (c & Hc & Hb)|done].
    + destruct Hd as (_ & _ & ->). by rewrite all_kept_repeat in Ha.
    + rewrite Hc. cbn [mbind result_bind]. rewrite (bl_np _ _ _ _ Hb), (bl_n _ _ _ _ Hb).
      rewrite (bl_rmap _ _ _ _ Hb). pose proof (bl_some _ _ _ _ Hb).
      rewrite (proj2 (Nat.ltb_lt _ _)) by lia. f_equal. rewrite take_ge by (by rewrite length_map).
      apply list_eq. intros i. rewrite !list_lookup_imap, list_lookup_fmap.
      destruct (kept keep !! i); simpl; [by rewrite Nat2Z.id|done].
Qed.

Lemma count_present_view fs keep es :
  view fs keep es -> length fs = length keep ->
  (length fs <= length es)%nat -> count_present es (count_entries es) = length (kept keep).
Proof.
  intros [] Hl Hle. unfold count_present. rewrite vw_count0. unfold kept.
  assert (forall i, (i < length fs)%nat -> exists d, es !! i = Some d /\
    is_absent d = negb (default false (keep !! i))) as H.
  { intros i Hi. destruct (es !! i) as [d|] eqn:Hd; [|apply lookup_ge_None in Hd; lia].
    exists d. split; [done|]. apply lookup_lt_is_Some in Hi as [f Hf].
    rewrite <- (vw_absent0 i f Hf). unfold entry. by rewrite Hd. }
  clear -H Hl Hle. rewrite Hl in *. clear Hl fs. generalize 0%nat as pos.
  revert es H Hle. induction keep as [|b keep IH]; intros es H Hle pos; simpl; [done|].
  destruct es as [|d es]; simpl in *; [lia|]. destruct (H 0%nat ltac:(lia)) as (d' & [= <-] & Hd).
  simpl in Hd. assert (forall i, (i < length keep)%nat -> exists d, es !! i = Some d /\
    is_absent d = negb (default false (keep !! i))) as H'.
  { intros i Hi. by destruct (H (S i) ltac:(lia)) as (d' & ? & ?); eauto. }
  rewrite filter_cons. destruct b; simpl in Hd.
  - rewrite decide_True by done. simpl. f_equal. apply IH; [done|lia].
  - rewrite decide_False by congruence. apply IH; [done|lia].
Qed.

Lemma denotes_count w p k fs keep :
  denotes w p k fs keep -> lCountPresent ns w (Some p) = Done (Z.of_nat (length (kept keep))).
Proof.
  intros Hd. destruct (denotes_facts _ _ _ _ _ Hd) as (_ & Hl & _).
  destruct (denotes_entries _ _ _ _ _ Hd) as (es & He & Hv). unfold lCountPresent.
  rewrite (denotes_counted _ _ _ _ _ Hd). cbn [mbind result_bind].
  destruct (all_kept keep) eqn:Ha; simpl.
  - rewrite He. cbn [mbind result_bind].
    rewrite (count_present_view fs keep es Hv Hl); [done|].
    destruct p as [j|l|]; simpl in *; [|destruct Hd as (c & Hc & Hb)|done].
    + destruct Hd as (-> & Ht & _). rewrite (type_at_descr _ _ Ht) in He. injection He as <-.
      rewrite length_app. lia.
    + pose proof (bl_some _ _ _ _ Hb). rewrite (all_kept_length 0) in Ha.
      apply bool_decide_eq_true in Ha. unfold kept in *. lia.
  - destruct p as [j|l|]; simpl in *; [|destruct Hd as (c & Hc & Hb)|done].
    + destruct Hd as (_ & _ & ->). by rewrite all_kept_repeat in Ha.
    + rewrite Hc. simpl. by rewrite (bl_np _ _ _ _ Hb).
Qed.

End NameSpace.

End CullDescrFacts.
