(* ===== verification/CullRegistry.v ===== *)
(** The descriptor registry as a collection of counted blocks: its invariant, and what
    interning, building, referencing and releasing do to it. *)

From S2P Require Import Prelude Pack CullDescr CullDescrFacts.
Import Pack CullDescr CullDescrFacts.

Module CullRegistry.

Section Registry.
Context (ns : option (list lNameSpace)) (Hns : ns_ok ns).
Context `{Alloc : Allocator}.

(** Every block is a reduction of a type; the map leads to blocks under their hash, to
    each at most once, and a reduction is registered at most once. *)
Record reg_ok (w : world) : Prop := {
  ro_blocks : forall l c, w_mem w !! l = Some c -> exists k fs keep, block ns k fs keep c;
  ro_map : forall h l, (h, l) ∈ w_map w -> exists c, w_mem w !! l = Some c /\ hash (c_h c) = h;
  ro_nodup : NoDup (snd <$> w_map w);
  ro_unique : forall l1 l2 c1 c2 k fs keep,
    l1 ∈ snd <$> w_map w -> l2 ∈ snd <$> w_map w ->
    w_mem w !! l1 = Some c1 -> w_mem w !! l2 = Some c2 ->
    block ns k fs keep c1 -> block ns k fs keep c2 -> l1 = l2;
}.

(** ** Allocation *)

Lemma fill_rmap_spec pos slot fs keep pre :
  length fs = length keep -> (pos + length fs < 200)%nat -> slot = Z.of_nat (length pre) ->
  (length pre <= pos)%nat ->
  fill_rmap pos (laid pos slot fs keep) (pre ++ repeat 0 (length (kept_from pos keep))) =
  Done (pre ++ map Z.of_nat (kept_from pos keep)).
Proof.
  revert pos slot keep pre. induction fs as [|f fs IH]; intros pos slot [|b keep] pre Hl Hp Hs Hle;
    simpl in *; try done.
  destruct b; unfold is_absent; cbn [off].
  - assert ((slot - pos =? OCS_CULL_ABSENT) = false) as -> by (unfold OCS_CULL_ABSENT; lia).
    replace (pos + (slot - pos)) with slot by lia.
    assert (((0 <=? slot) && (slot <? length (pre ++ repeat 0 (length (pos :: kept_from (S pos) keep)))))
      = true) as -> by (rewrite length_app, repeat_length; simpl; lia).
    replace (Z.to_nat slot) with (length pre + 0)%nat by lia.
    rewrite insert_app_r. cbn [length repeat]. cbn [insert list_insert].
    assert (s16 pos = pos) as -> by (unfold s16; rewrite Z.mod_small; lia).
    specialize (IH (S pos) (slot + 1) keep (pre ++ [Z.of_nat pos])).
    rewrite length_app in IH. cbn [length] in IH. rewrite <- !app_assoc in IH.
    apply IH; lia.
  - assert ((OCS_CULL_ABSENT =? OCS_CULL_ABSENT) = true) as -> by done.
    apply IH; [lia|lia|done|lia].
Qed.

Lemma count_present_mark es cnt : count_present (mark_interned es) cnt = count_present es cnt.
Proof.
  unfold count_present. destruct es as [|d es], cnt as [|cnt]; try done.
  cbn [mark_interned take]. rewrite !filter_cons. unfold is_absent. cbn [off].
  by destruct (decide ((off d =? OCS_CULL_ABSENT) = false)).
Qed.

Lemma mark_length es : length (mark_interned es) = length es.
Proof. by destruct es. Qed.

Lemma count_present_laid fs keep k :
  type_at ns k fs -> length fs = length keep -> (0 < length (kept keep) < length fs)%nat ->
  count_present (laid 0 0 fs keep ++ [end_reduced]) (length fs) = length (kept keep).
Proof.
  intros Ht Hl Hk.
  destruct (view_reduced _ k fs keep _ Ht Hl ltac:(lia) eq_refl) as [Hv Hc].
  pose proof (count_present_view _ _ _ Hv Hl) as H.
  rewrite count_mark, Hc, count_present_mark, mark_length in H. apply H.
  rewrite length_app, laid_length by done. lia.
Qed.

Definition new_block (fs : list lDescr) (keep : list bool) : counted :=
  Counted (Header 1 (length fs) (length (kept keep))
             (ocs_cull_descr_hash (laid 0 0 fs keep ++ [end_reduced]) (length fs)))
    (mark_interned (laid 0 0 fs keep ++ [end_reduced])) (map Z.of_nat (kept keep)).

Lemma new_block_ok k fs keep :
  type_at ns k fs -> length fs = length keep -> (0 < length (kept keep) < length fs)%nat ->
  block ns k fs keep (new_block fs keep).
Proof. intros Ht Hl Hk. by split. Qed.

Lemma alloc_counted_spec w k fs keep :
  type_at ns k fs -> length fs = length keep -> (0 < length (kept keep) < length fs)%nat ->
  let es := laid 0 0 fs keep ++ [end_reduced] in
  let size := counted_size (length fs) (length (kept keep)) in
  let l := fresh (dom (w_mem w)) in
  alloc_counted w es (length fs) (ocs_cull_descr_hash es (length fs)) =
  match alloc (w_heap w) size with
  | (h, Some _) => Done (set_heap h (set_mem (<[l := new_block fs keep]> (w_mem w)) w), Some l)
  | (_, None) => Abort
  end.
Proof.
  intros Ht Hl Hk es size l. unfold alloc_counted. cbv zeta.
  assert (count_present es (length fs) = length (kept keep)) as ->
    by (by eapply count_present_laid).
  fold size. unfold sge_malloc.
  assert ((size =? 0) = false) as -> by (unfold size, counted_size; case_match; lia).
  destruct (alloc (w_heap w) size) as [h [m|]]; [|done]. cbn [of_outcome mbind result_bind].
  rewrite (proj2 (Nat.ltb_lt _ _)) by lia.
  pose proof (type_at_fields _ _ _ Ht) as (_ & _ & Hsm).
  assert (take (length fs) es = laid 0 0 fs keep) as ->
    by (unfold es; rewrite take_app_le, take_ge by (rewrite laid_length; lia); done).
  pose proof (fill_rmap_spec 0 0 fs keep [] Hl ltac:(lia) eq_refl ltac:(simpl; lia)) as Hf.
  simpl in Hf. fold (kept keep) in Hf. rewrite Hf. cbn [mbind result_bind].
  rewrite take_ge by (unfold es; rewrite length_app, laid_length by done; simpl; lia). done.
Qed.

(** ** Searching *)

Lemma same_entries_entry a b cnt i :
  same_entries a b cnt = true -> (i < cnt)%nat -> same_descr_entry (entry a i) (entry b i) = true.
Proof.
  revert a b i. induction cnt as [|cnt IH]; intros a b i H Hi; [lia|].
  destruct a as [|x a], b as [|y b]; simpl in H; try done.
  apply andb_true_iff in H as [H1 H2]. destruct i as [|i]; [done|]. apply (IH a b i H2). lia.
Qed.

Lemma same_entry_refl d : same_descr_entry d d = true.
Proof. unfold same_descr_entry. by rewrite !Z.eqb_refl. Qed.

Lemma same_entries_mark es cnt :
  (cnt <= length es)%nat -> same_entries (mark_interned es) es cnt = true.
Proof.
  intros Hc. assert (forall l c, (c <= length l)%nat -> same_entries l l c = true) as Hrefl.
  { induction l as [|d l IH]; intros [|c] H; simpl in *; try done; [lia|].
    rewrite same_entry_refl. apply IH. lia. }
  destruct es as [|d es], cnt as [|cnt]; simpl in *; try done; [lia|].
  rewrite Hrefl by lia. rewrite andb_true_r. unfold same_descr_entry. simpl.
  rewrite !Z.eqb_refl, without_lor. change (without CULL_DESCR_INTERNED CULL_DESCR_INTERNED) with 0.
  by rewrite Z.lor_0_r, Z.eqb_refl.
Qed.

(** A block with the entries of a layout is that reduction. *)
Lemma same_entries_block k fs keep k' fs' keep' c :
  type_at ns k fs -> length fs = length keep -> (0 < length (kept keep) < length fs)%nat ->
  block ns k' fs' keep' c -> length fs' = length fs ->
  same_entries (c_e c) (laid 0 0 fs keep ++ [end_reduced]) (length fs) = true ->
  k' = k /\ fs' = fs /\ keep' = keep.
Proof.
  intros Ht Hl Hk Hb Hlen Hs. destruct Hb as [Ht' Hl' Hk' He' _ _ _ _].
  destruct (view_reduced ns k' fs' keep' _ Ht' Hl' ltac:(lia) eq_refl) as [Hv' _].
  destruct (view_reduced ns k fs keep _ Ht Hl ltac:(lia) eq_refl) as [Hv _].
  rewrite He' in Hs.
  assert (forall i, (i < length fs)%nat -> exists f f', fs !! i = Some f /\ fs' !! i = Some f' /\
    nm f' = nm f /\ keep' !! i = keep !! i) as Hi.
  { intros i Hi. destruct (lookup_lt_is_Some_2 fs i Hi) as [f Hf].
    destruct (lookup_lt_is_Some_2 fs' i ltac:(lia)) as [f' Hf']. exists f, f'.
    split; [done|]. split; [done|]. pose proof (same_entries_entry _ _ _ i Hs Hi) as Hse.
    unfold same_descr_entry in Hse. apply andb_true_iff in Hse as [[Hn%Z.eqb_eq _]%andb_true_iff Ho%Z.eqb_eq].
    destruct (laid_entry fs keep i f Hl Hf) as (b & Hb & Hen). rewrite Hen in Hn, Ho.
    rewrite (vw_nm _ _ _ Hv' i f' Hf') in Hn. split; [done|].
    pose proof (vw_absent _ _ _ Hv' i f' Hf') as Ha. unfold is_absent in Ha. rewrite Ho in Ha.
    cbn [off] in Ha. destruct (lookup_lt_is_Some_2 keep' i ltac:(lia)) as [b' Hb'].
    rewrite Hb' in *. rewrite Hb. simpl in Ha. f_equal.
    pose proof (type_at_fields _ _ _ Ht) as (_ & _ & Hsm).
    destruct b; [|by destruct b'].
    rewrite slot_small in Ha by lia. by destruct b'. }
  destruct (Hi 0%nat ltac:(lia)) as (f & f' & Hf & Hf' & Hn & _).
  destruct (type_at_shared ns Hns _ _ _ _ _ _ _ _ Ht' Ht Hf' Hf Hn) as [-> _].
  pose proof (type_at_unique ns _ _ _ Ht' Ht) as ->. split; [done|]. split; [done|].
  apply list_eq. intros i. destruct (decide (i < length fs)%nat) as [Hlt|Hge].
  - by destruct (Hi i Hlt) as (_ & _ & _ & _ & _ & ?).
  - rewrite !lookup_ge_None_2 by lia. done.
Qed.

Lemma block_same k fs keep c :
  block ns k fs keep c ->
  same_entries (c_e c) (laid 0 0 fs keep ++ [end_reduced]) (length fs) = true.
Proof.
  intros Hb. rewrite (bl_e _ _ _ _ _ Hb). pose proof (bl_length _ _ _ _ _ Hb).
  apply same_entries_mark. rewrite length_app, laid_length by done. lia.
Qed.

Lemma find_same_spec w (m : list (Z * positive)) k fs keep :
  reg_ok w -> m ⊆ w_map w ->
  type_at ns k fs -> length fs = length keep -> (0 < length (kept keep) < length fs)%nat ->
  let es := laid 0 0 fs keep ++ [end_reduced] in
  match find_same w m (ocs_cull_descr_hash es (length fs)) es (length fs) with
  | Done (Some l) => l ∈ snd <$> m /\ denotes ns w (DCounted l) k fs keep
  | Done None => forall l c, l ∈ snd <$> m -> w_mem w !! l = Some c -> ~ block ns k fs keep c
  | _ => False
  end.
Proof.
  intros Hr Hm Ht Hl Hk es. induction m as [|[h l] m IH]; cbn [find_same].
  { intros l c Hl'. by apply elem_of_nil in Hl'. }
  assert (m ⊆ w_map w) as Hm' by set_solver.
  specialize (IH Hm'). destruct (ro_map w Hr h l) as (c & Hc & Hh); [set_solver|].
  destruct (ro_blocks w Hr l c Hc) as (k' & fs' & keep' & Hb).
  assert (block ns k fs keep c -> h = ocs_cull_descr_hash es (length fs) /\
    n (c_h c) = length fs /\ same_entries (c_e c) es (length fs) = true) as Hsame.
  { intros Hb'. rewrite <- Hh, (bl_hash _ _ _ _ _ Hb'), (bl_n _ _ _ _ _ Hb').
    split; [done|]. split; [done|]. by eapply block_same. }
  assert (forall (P : Prop), ~ block ns k fs keep c ->
    match find_same w m (ocs_cull_descr_hash es (length fs)) es (length fs) with
    | Done (Some l0) => l0 ∈ snd <$> (h, l) :: m /\ denotes ns w (DCounted l0) k fs keep
    | Done None => forall l0 c0, l0 ∈ snd <$> (h, l) :: m -> w_mem w !! l0 = Some c0 ->
                     ~ block ns k fs keep c0
    | _ => False
    end) as Hskip.
  { intros _ Hnot. destruct (find_same w m _ es (length fs)) as [[l0|]| | | | |]; [|..|done|done|done|done|done].
    - rewrite fmap_cons, elem_of_cons. tauto.
    - intros l0 c0. rewrite fmap_cons, elem_of_cons. simpl. intros [->|Hin] Hc0.
      + by simplify_eq.
      + by apply (IH l0 c0). }
  destruct (h =? ocs_cull_descr_hash es (length fs)) eqn:Eh.
  2:{ apply (Hskip True). intros Hb'. destruct (Hsame Hb') as (-> & _). by rewrite Z.eqb_refl in Eh. }
  rewrite Hc. destruct (_ && _) eqn:E.
  - apply andb_true_iff in E as [En%bool_decide_eq_true Es].
    rewrite (bl_n _ _ _ _ _ Hb) in En.
    destruct (same_entries_block k fs keep k' fs' keep' c Ht Hl Hk Hb En Es) as (-> & -> & ->).
    split; [rewrite fmap_cons; simpl; set_solver|]. by exists c.
  - apply (Hskip True). intros Hb'. destruct (Hsame Hb') as (_ & Hn & Hs).
    rewrite Hs, bool_decide_eq_true_2 in E by done. done.
Qed.

(** ** What the operations do *)

(** One more reference on the block [l]: it was there and alive, or it is new. *)
Definition gained (w w' : world) (l : positive) : Prop :=
  (exists c, w_mem w !! l = Some c /\
     w_mem w' = <[l := set_refs (u32 (refs (c_h c) + 1)) c]> (w_mem w)) \/
  (w_mem w !! l = None /\
     exists c, refs (c_h c) = 1 /\ w_mem w' = <[l := c]> (w_mem w)).

(** The blocks stay, whatever their counts are. *)
Definition extends (w w' : world) : Prop :=
  forall l c, w_mem w !! l = Some c -> exists r, w_mem w' !! l = Some (set_refs r c).

Lemma set_refs_same c : set_refs (refs (c_h c)) c = c.
Proof. by destruct c as [[]]. Qed.

Lemma set_refs_twice r r' c : set_refs r (set_refs r' c) = set_refs r c.
Proof. by destruct c as [[]]. Qed.

#[global] Instance extends_refl : Reflexive extends.
Proof. intros w l c Hc. exists (refs (c_h c)). by rewrite set_refs_same. Qed.

#[global] Instance extends_trans : Transitive extends.
Proof.
  intros w1 w2 w3 H12 H23 l c Hc. destruct (H12 l c Hc) as [r Hr].
  destruct (H23 l _ Hr) as [r' Hr']. exists r'. by rewrite Hr', set_refs_twice.
Qed.

Lemma gained_extends w w' l : gained w w' l -> extends w w'.
Proof.
  intros [(c & Hc & Hm)|(Hc & c & _ & Hm)] l' c' Hc'; rewrite Hm;
    (destruct (decide (l = l')) as [<-|Hne];
     [rewrite lookup_insert_eq|rewrite lookup_insert_ne by done]).
  - simplify_eq. eauto.
  - rewrite Hc'. eexists. by rewrite set_refs_same.
  - simplify_eq.
  - rewrite Hc'. eexists. by rewrite set_refs_same.
Qed.

Lemma denotes_extends w w' p k fs keep :
  extends w w' -> denotes ns w p k fs keep -> denotes ns w' p k fs keep.
Proof.
  intros He. destruct p as [j|l|]; simpl; [done| |done]. intros (c & Hc & Hb).
  destruct (He l c Hc) as [r Hr]. eexists. split; [done|]. by apply block_refs.
Qed.

(** Blocks are added and counted, the map stays or gets the new block behind it. *)
Lemma reg_ok_count w w' l c r :
  reg_ok w -> w_mem w !! l = Some c -> w_mem w' = <[l := set_refs r c]> (w_mem w) ->
  w_map w' = w_map w -> reg_ok w'.
Proof.
  intros [Hb Hm Hn Hu] Hc Hmem Hmap.
  assert (forall l' c', w_mem w' !! l' = Some c' ->
    exists r' c0, w_mem w !! l' = Some c0 /\ c' = set_refs r' c0) as Hold.
  { intros l' c'. rewrite Hmem. destruct (decide (l = l')) as [<-|Hne].
    - rewrite lookup_insert_eq. intros [= <-]. eauto.
    - rewrite lookup_insert_ne by done. intros Hc'. exists (refs (c_h c')), c'.
      by rewrite set_refs_same. }
  split; rewrite ?Hmap.
  - intros l' c' Hc'. destruct (Hold _ _ Hc') as (r' & c0 & H0 & ->).
    destruct (Hb _ _ H0) as (k & fs & keep & Hbl). exists k, fs, keep. by apply block_refs.
  - intros h l' Hin. destruct (Hm _ _ Hin) as (c0 & H0 & Hh). rewrite Hmem.
    destruct (decide (l = l')) as [<-|Hne].
    + rewrite lookup_insert_eq. simplify_eq. eauto.
    + rewrite lookup_insert_ne by done. eauto.
  - done.
  - intros l1 l2 c1 c2 k fs keep H1 H2 Hc1 Hc2 Hb1 Hb2.
    destruct (Hold _ _ Hc1) as (r1 & c1' & H1' & ->).
    destruct (Hold _ _ Hc2) as (r2 & c2' & H2' & ->).
    apply (block_refs _ _ _ _ _ (refs (c_h c1'))) in Hb1.
    apply (block_refs _ _ _ _ _ (refs (c_h c2'))) in Hb2.
    rewrite set_refs_twice, set_refs_same in Hb1, Hb2. eapply Hu; eauto.
Qed.

Lemma reg_ok_new w w' l k fs keep c :
  reg_ok w -> w_mem w !! l = None -> block ns k fs keep c ->
  w_mem w' = <[l := c]> (w_mem w) -> w_map w' = w_map w -> reg_ok w'.
Proof.
  intros [Hb Hm Hn Hu] Hl Hc Hmem Hmap.
  assert (forall h l', (h, l') ∈ w_map w -> l <> l') as Hfresh.
  { intros h l' Hin <-. destruct (Hm _ _ Hin) as (c0 & H0 & _). congruence. }
  assert (forall l', l' ∈ snd <$> w_map w -> w_mem w' !! l' = w_mem w !! l') as Hsame.
  { intros l' ([h ?] & -> & Hin)%list_elem_of_fmap. rewrite Hmem. apply lookup_insert_ne.
    by eapply Hfresh. }
  split; rewrite ?Hmap.
  - intros l' c'. rewrite Hmem. destruct (decide (l = l')) as [<-|Hne].
    + rewrite lookup_insert_eq. intros [= <-]. eauto.
    + rewrite lookup_insert_ne by done. apply Hb.
  - intros h l' Hin. rewrite Hsame; [eauto|]. by apply (list_elem_of_fmap_2 snd) in Hin.
  - done.
  - intros l1 l2 c1 c2 k' fs' keep' H1 H2. rewrite !Hsame by done. eauto.
Qed.

(** A new block that is registered, in place of a dead one or behind the map. *)
Lemma reg_ok_register w w' l k fs keep c m :
  reg_ok w -> w_mem w !! l = None -> block ns k fs keep c -> w_mem w' = <[l := c]> (w_mem w) ->
  w_map w' = m -> NoDup (snd <$> m) ->
  (forall h l', (h, l') ∈ m -> (h, l') = (hash (c_h c), l) \/ (h, l') ∈ w_map w) ->
  (forall l' c', l' ∈ snd <$> m -> l' <> l -> w_mem w !! l' = Some c' -> ~ block ns k fs keep c') ->
  reg_ok w'.
Proof.
  intros [Hb Hm Hn Hu] Hl Hc Hmem Hmap Hnd Hin Hno.
  assert (forall l', l' ∈ snd <$> m -> l' = l \/ l' <> l /\ l' ∈ snd <$> w_map w /\
            w_mem w' !! l' = w_mem w !! l') as Hcase.
  { intros l' ([h ?] & -> & Hin')%list_elem_of_fmap. simpl.
    destruct (Hin _ _ Hin') as [[= -> ->]|Hold]; [by left|right].
    assert (p <> l) as Hne.
    { intros ->. destruct (Hm _ _ Hold) as (c0 & H0 & _). congruence. }
    split; [done|]. split; [by apply (list_elem_of_fmap_2 snd) in Hold|].
    rewrite Hmem. by apply lookup_insert_ne. }
  assert (w_mem w' !! l = Some c) as Hnew by (by rewrite Hmem, lookup_insert_eq).
  split; rewrite ?Hmap.
  - intros l' c'. rewrite Hmem. destruct (decide (l = l')) as [<-|Hne].
    + rewrite lookup_insert_eq. intros [= <-]. eauto.
    + rewrite lookup_insert_ne by done. apply Hb.
  - intros h l' Hl'. destruct (Hin _ _ Hl') as [[= -> ->]|Hold]; [eauto|].
    apply (list_elem_of_fmap_2 snd) in Hl'. simpl in Hl'.
    destruct (Hcase _ Hl') as [->|(_ & _ & ->)]; [|eauto].
    destruct (Hm _ _ Hold) as (c0 & H0 & _). congruence.
  - done.
  - intros l1 l2 c1 c2 k' fs' keep' H1 H2 Hc1 Hc2 Hb1 Hb2.
    assert (forall c0, block ns k fs keep c0 -> forall ka fa ka', block ns ka fa ka' c0 ->
      ka = k /\ fa = fs /\ ka' = keep) as Hsame.
    { intros c0 H0 ka fa ka' Ha.
      apply (same_entries_block k fs keep ka fa ka' c0 (bl_type _ _ _ _ _ H0)
               (bl_length _ _ _ _ _ H0) (bl_some _ _ _ _ _ H0) Ha).
      - by rewrite <- (bl_n _ _ _ _ _ Ha), <- (bl_n _ _ _ _ _ H0).
      - by eapply block_same. }
    destruct (Hcase _ H1) as [->|(Hne1 & Ho1 & E1)], (Hcase _ H2) as [->|(Hne2 & Ho2 & E2)];
      [done|..].
    + rewrite E2 in Hc2. simplify_eq. destruct (Hsame _ Hc _ _ _ Hb1) as (-> & -> & ->).
      by destruct (Hno l2 c2 H2 Hne2 Hc2).
    + rewrite E1 in Hc1. simplify_eq. destruct (Hsame _ Hc _ _ _ Hb2) as (-> & -> & ->).
      by destruct (Hno l1 c1 H1 Hne1 Hc1).
    + rewrite E1 in Hc1. rewrite E2 in Hc2. eapply Hu; eauto.
Qed.

(** Memory is there whenever it is asked for. *)
Definition plenty : Prop := forall h n, 0 <= n -> is_Some (snd (alloc h n)).

(** Success with the world [w'] and the value [a], or the abort of [sge_malloc]. *)
Definition or_abort {A} (r : result A) (P : A -> Prop) : Prop :=
  match r with
  | Done a => P a
  | Abort => ~ plenty
  | _ => False
  end.

Lemma replace_loc_snd m old new l :
  l ∈ snd <$> replace_loc m old new <->
  (l ∈ snd <$> m /\ l <> old) \/ (l = new /\ old ∈ snd <$> m).
Proof.
  unfold replace_loc. rewrite !list_elem_of_fmap. setoid_rewrite list_elem_of_fmap. split.
  - intros ([h ?] & -> & ([h' l'] & Heq & Hin)). simpl in *.
    destruct (bool_decide (l' = old)) eqn:E; injection Heq as <- <-.
    + apply bool_decide_eq_true in E as ->. right. split; [done|]. eexists. split; [|exact Hin]. done.
    + apply bool_decide_eq_false in E. left. split; [|done]. eexists. split; [|exact Hin]. done.
  - intros [[([h l'] & -> & Hin) Hne]|[-> ([h l'] & -> & Hin)]]; simpl in *.
    + exists (h, l'). split; [done|]. exists (h, l'). simpl. by rewrite bool_decide_eq_false_2.
    + exists (h, new). split; [done|]. exists (h, l'). simpl. by rewrite bool_decide_eq_true_2.
Qed.

Lemma replace_loc_nodup m old new :
  NoDup (snd <$> m) -> new ∉ snd <$> m -> NoDup (snd <$> replace_loc m old new).
Proof.
  induction m as [|[h l] m IH]; [constructor|]. unfold replace_loc. cbn [fmap list_fmap snd].
  intros [Hn Hd]%NoDup_cons Hnew. rewrite not_elem_of_cons in Hnew. destruct Hnew as [Hne Hnew].
  fold (replace_loc m old new). specialize (IH Hd Hnew).
  destruct (bool_decide (l = old)) eqn:E; cbn [snd fst]; apply NoDup_cons; (split; [|done]);
    fold (snd <$> replace_loc m old new); rewrite replace_loc_snd.
  - apply bool_decide_eq_true in E as ->. tauto.
  - apply bool_decide_eq_false in E. intros [[? ?]|[-> ?]]; tauto.
Qed.

Lemma replace_loc_in m old new h l :
  (h, l) ∈ replace_loc m old new -> (l = new /\ (h, old) ∈ m) \/ (h, l) ∈ m.
Proof.
  unfold replace_loc. rewrite list_elem_of_fmap. intros ([h' l'] & Heq & Hin). simpl in Heq.
  destruct (bool_decide (l' = old)) eqn:E; injection Heq as -> ->; [left|by right].
  apply bool_decide_eq_true in E as ->. done.
Qed.

Lemma fresh_none w : w_mem w !! fresh (dom (w_mem w)) = None.
Proof. apply not_elem_of_dom. apply is_fresh. Qed.

Lemma intern_spec w k fs keep :
  reg_ok w ->
  type_at ns k fs -> length fs = length keep -> (0 < length (kept keep) < length fs)%nat ->
  or_abort (ocs_cull_descr_intern ns w (Some (DPlain (laid 0 0 fs keep ++ [end_reduced]))))
    (fun '(w', p) => exists l, p = Some (DCounted l) /\ reg_ok w' /\ gained w w' l /\
       denotes ns w' (DCounted l) k fs keep).
Proof.
  intros Hr Ht Hl Hk. cbn [ocs_cull_descr_intern entries mbind result_bind].
  destruct (view_reduced ns k fs keep _ Ht Hl ltac:(lia) eq_refl) as [_ ->].
  set (es := laid 0 0 fs keep ++ [end_reduced]). set (hash := ocs_cull_descr_hash es (length fs)).
  pose proof (find_same_spec w (w_map w) k fs keep Hr ltac:(done) Ht Hl Hk) as Hf.
  pose proof (alloc_counted_spec w k fs keep Ht Hl Hk) as Ha. cbv zeta in Hf, Ha.
  fold es in Hf, Ha. fold hash in Hf, Ha.
  pose proof (new_block_ok k fs keep Ht Hl Hk) as Hnew.
  set (f := fresh (dom (w_mem w))) in *. pose proof (fresh_none w) as Hfr. fold f in Hfr.
  destruct (find_same w (w_map w) hash es (length fs)) as [[l|]| | | | |]; try done.
  - destruct Hf as [Hin (c & Hc & Hb)]. cbn [mbind result_bind]. unfold ref_if_alive. rewrite Hc.
    destruct (refs (c_h c) =? 0) eqn:E; cbn [mbind result_bind].
    + rewrite Ha. destruct (alloc _ _) as [h [m|]] eqn:Eal; cbn [mbind result_bind or_abort].
      2:{ intros Hp. destruct (Hp (w_heap w) (counted_size (length fs) (length (kept keep)))) as [? H];
          [unfold counted_size; case_match; lia|]. rewrite Eal in H. done. }
      exists f. split; [done|]. split; [|split].
      * eapply (reg_ok_register w _ f k fs keep _ (replace_loc (w_map w) l f) Hr Hfr Hnew); try done.
        -- apply replace_loc_nodup; [by apply (ro_nodup w Hr)|].
           intros ([h0 ?] & -> & Hin0)%list_elem_of_fmap.
           destruct (ro_map w Hr _ _ Hin0) as (c0 & H0 & _). simpl in *. congruence.
        -- intros h0 l0 [[-> Hold]|?]%replace_loc_in; [left|by right].
           destruct (ro_map w Hr _ _ Hold) as (c0 & H0 & <-). simplify_eq.
           by rewrite (bl_hash _ _ _ _ _ Hb), (bl_hash _ _ _ _ _ Hnew).
        -- intros l0 c0 [[Hl0 Hne]|[-> _]]%replace_loc_snd Hnf Hc0 Hb0; [|done].
           apply Hne. eapply (ro_unique w Hr); eauto.
      * right. split; [done|]. exists (new_block fs keep). done.
      * simpl. rewrite lookup_insert_eq. eauto.
    + cbn [or_abort]. exists l. split; [done|]. split; [|split].
      * eapply reg_ok_count; eauto.
      * left. by exists c.
      * simpl. rewrite lookup_insert_eq. eexists. split; [done|]. by apply block_refs.
  - cbn [mbind result_bind]. rewrite Ha.
    destruct (alloc _ _) as [h [m|]] eqn:Eal; cbn [mbind result_bind or_abort].
    2:{ intros Hp. destruct (Hp (w_heap w) (counted_size (length fs) (length (kept keep)))) as [? H];
        [unfold counted_size; case_match; lia|]. rewrite Eal in H. done. }
    destruct (_ <? _) eqn:Ecap; exists f; (split; [done|]); (split; [|split]);
      [|right; split; [done|]; by exists (new_block fs keep)|simpl; rewrite lookup_insert_eq; eauto
       |eapply reg_ok_new; eauto; done
       |right; split; [done|]; by exists (new_block fs keep)|simpl; rewrite lookup_insert_eq; eauto].
    eapply (reg_ok_register w _ f k fs keep _ (w_map w ++ [(hash, f)]) Hr Hfr Hnew); try done.
    + rewrite fmap_app. apply NoDup_app. split; [by apply (ro_nodup w Hr)|].
      split; [|by apply NoDup_singleton].
      intros l0 ([h0 ?] & -> & Hin0)%list_elem_of_fmap. cbn [fmap list_fmap snd].
      rewrite list_elem_of_singleton. intros ->.
      destruct (ro_map w Hr _ _ Hin0) as (c0 & H0 & _). simpl in *. congruence.
    + intros h0 l0. rewrite elem_of_app, list_elem_of_singleton. intros [?|[= -> ->]]; [by right|].
      left. by rewrite (bl_hash _ _ _ _ _ Hnew).
    + intros l0 c0. rewrite fmap_app, elem_of_app. cbn [fmap list_fmap snd].
      rewrite list_elem_of_singleton. intros [Hin|?] Hne Hc0; [|done]. by eapply Hf.
Qed.

(** A reference on whatever the pointer denotes. *)
Definition gained_ptr (w w' : world) (p : dptr) : Prop :=
  match p with
  | DStatic _ => w' = w
  | DCounted l => gained w w' l
  | DPlain _ => False
  end.

Lemma gained_ptr_extends w w' p : gained_ptr w w' p -> extends w w'.
Proof. destruct p as [|l|]; simpl; [by intros ->|apply gained_extends|done]. Qed.

Lemma denotes_static w k fs : type_at ns k fs -> denotes ns w (DStatic k) k fs (repeat true (length fs)).
Proof. done. Qed.

Lemma acquire_static w k fs :
  type_at ns k fs -> ocs_cull_descr_acquire ns w (Some (DStatic k)) = Done (w, Some (DStatic k)).
Proof.
  intros Ht. unfold ocs_cull_descr_acquire.
  rewrite (denotes_counted _ _ _ _ _ _ (denotes_static w k fs Ht)), all_kept_repeat.
  cbn [mbind result_bind negb]. unfold static_block_for, entries.
  rewrite (type_at_descr _ _ _ Ht). cbn [mbind result_bind].
  pose proof (type_at_fields _ _ _ Ht) as (_ & Hne & _).
  destruct fs as [|f fs0] eqn:E; [done|].
  rewrite (entry_app _ 0 f) by done. rewrite (static_for_spec ns Hns k _ f Ht) by done.
  by rewrite bool_decide_eq_true_2.
Qed.

Lemma is_static_spec w p k fs keep :
  denotes ns w p k fs keep -> ocs_cull_descr_is_static ns w (Some p) = Done (all_kept keep).
Proof.
  intros Hd. unfold ocs_cull_descr_is_static. rewrite (denotes_counted _ _ _ _ _ _ Hd).
  cbn [mbind result_bind]. destruct (all_kept keep) eqn:Ha; cbn [negb]; [|done].
  destruct p as [j|l|]; simpl in Hd; [destruct Hd as (-> & Ht & _)|destruct Hd as (c & _ & Hb)|done].
  - pose proof (acquire_static w k fs Ht) as Hac. unfold static_block_for, entries.
    rewrite (type_at_descr _ _ _ Ht). cbn [mbind result_bind].
    pose proof (type_at_fields _ _ _ Ht) as (_ & Hne & _).
    destruct fs as [|f fs0] eqn:E; [done|].
    rewrite (entry_app _ 0 f), (static_for_spec ns Hns k _ f Ht) by done.
    by rewrite bool_decide_eq_true_2.
  - pose proof (bl_some _ _ _ _ _ Hb). pose proof (bl_length _ _ _ _ _ Hb).
    rewrite (all_kept_length 0) in Ha. apply bool_decide_eq_true in Ha. unfold kept in *. lia.
Qed.

Lemma build_spec w k fs keep :
  reg_ok w -> type_at ns k fs -> length fs = length keep -> (0 < length (kept keep))%nat ->
  or_abort (ocs_cull_descr_build ns w (Some (DStatic k)) keep)
    (fun '(w', p) => exists q, p = Some q /\ reg_ok w' /\ gained_ptr w w' q /\
       denotes ns w' q k fs keep).
Proof.
  intros Hr Ht Hl Hk. cbn [ocs_cull_descr_build]. unfold entries.
  rewrite (type_at_descr _ _ _ Ht). cbn [mbind result_bind].
  pose proof (type_at_fields _ _ _ Ht) as (Hok & Hne & _).
  rewrite (type_at_count _ _ _ Ht).
  destruct (decide (length (kept keep) = length fs)) as [He|He].
  - assert (keep = repeat true (length fs)) as Hkeep.
    { rewrite Hl. apply (kept_from_all 0). unfold kept in He. lia. }
    unfold ocs_cull_descr_layout. rewrite (type_at_count _ _ _ Ht).
    rewrite (bool_decide_eq_false_2 (length fs = 0%nat)) by (by destruct fs).
    rewrite (bool_decide_eq_true_2 (length keep = length fs)) by done. cbn [orb negb].
    rewrite take_app_length, lay_out_laid by done. cbn [mbind option_bind].
    fold (kept keep). rewrite He, Z.add_0_l, Z.eqb_refl.
    assert ((length fs =? 0) = false) as -> by (destruct fs; [done|simpl; lia]).
    rewrite (acquire_static w k fs Ht). cbn [or_abort]. exists (DStatic k).
    split; [done|]. split; [done|]. split; [done|]. by rewrite Hkeep.
  - pose proof (kept_from_length 0 keep). unfold kept in He.
    rewrite layout_reduced by (done || (unfold kept; lia)).
    assert ((length (kept keep) =? 0) = false) as -> by lia.
    assert ((length (kept keep) =? length fs) = false) as -> by (unfold kept; lia).
    pose proof (intern_spec w k fs keep Hr Ht Hl ltac:(unfold kept in *; lia)) as Hi.
    destruct (ocs_cull_descr_intern _ _ _) as [[w' p]| | | | |]; try done. cbn [or_abort] in *.
    destruct Hi as (l & -> & Hr' & Hg & Hd). by exists (DCounted l).
Qed.

Lemma ref_spec w p k fs keep :
  reg_ok w -> denotes ns w p k fs keep ->
  exists w', ocs_cull_descr_ref ns w (Some p) = Done (w', Some p) /\ reg_ok w' /\
    gained_ptr w w' p /\ denotes ns w' p k fs keep /\ w_heap w' = w_heap w.
Proof.
  intros Hr Hd. unfold ocs_cull_descr_ref. rewrite (denotes_counted _ _ _ _ _ _ Hd).
  cbn [mbind result_bind]. pose proof Hd as Hd'.
  destruct p as [j|l|]; simpl in Hd; [destruct Hd as (-> & Ht & ->)|destruct Hd as (c & Hc & Hb)|done].
  - rewrite all_kept_repeat. cbn [negb]. exists w. do 4 (split; [done|]). done.
  - destruct (all_kept keep) eqn:Ha.
    { pose proof (bl_some _ _ _ _ _ Hb). pose proof (bl_length _ _ _ _ _ Hb).
      rewrite (all_kept_length 0) in Ha. apply bool_decide_eq_true in Ha. unfold kept in *. lia. }
    cbn [negb]. rewrite Hc. eexists. split; [reflexivity|].
    split; [eapply reg_ok_count; eauto; done|]. split; [left; by exists c|]. split; [|done].
    simpl. rewrite lookup_insert_eq. eexists. split; [done|]. by apply block_refs.
Qed.

(** ** Giving up a reference *)

Lemma erase_loc_in m h l kl : kl ∈ erase_loc m h l -> kl ∈ m.
Proof.
  induction m as [|[h' l'] m IH]; simpl; [done|]. destruct (_ && _).
  - intros. by apply elem_of_cons; right.
  - rewrite !elem_of_cons. intros [?|?]; auto.
Qed.

Lemma erase_loc_nodup m h l : NoDup (snd <$> m) -> NoDup (snd <$> erase_loc m h l).
Proof.
  induction m as [|[h' l'] m IH]; simpl; [done|]. intros [Hn Hd]%NoDup_cons.
  destruct (_ && _); [done|]. cbn [fmap list_fmap snd]. apply NoDup_cons.
  split; [|by apply IH]. intros (kl & -> & Hin)%list_elem_of_fmap. apply Hn.
  apply (list_elem_of_fmap_2 snd), (erase_loc_in _ h l), Hin.
Qed.

Lemma erase_loc_gone m h l :
  NoDup (snd <$> m) -> (forall h', (h', l) ∈ m -> h' = h) -> l ∉ snd <$> erase_loc m h l.
Proof.
  induction m as [|[h' l'] m IH]; simpl; intros Hnd Hkey; [by apply not_elem_of_nil|].
  apply NoDup_cons in Hnd as [Hn Hd].
  destruct ((h' =? h) && bool_decide (l' = l)) eqn:E.
  - apply andb_true_iff in E as [_ ->%bool_decide_eq_true]. done.
  - cbn [fmap list_fmap snd]. rewrite not_elem_of_cons. split.
    + intros <-. rewrite (Hkey h') in E by (by left). rewrite Z.eqb_refl, bool_decide_eq_true_2 in E by done.
      done.
    + apply IH; [done|]. intros h0 Hin. apply Hkey. by right.
Qed.

(** The reference is gone; the block is freed with the last one. *)
Definition lost (w w' : world) (l : positive) : Prop :=
  exists c, w_mem w !! l = Some c /\
    w_mem w' = if refs (c_h c) =? 1 then delete l (w_mem w)
               else <[l := set_refs (u32 (refs (c_h c) - 1)) c]> (w_mem w).

Definition lost_ptr (w w' : world) (p : dptr) : Prop :=
  match p with
  | DStatic _ => w' = w
  | DCounted l => lost w w' l
  | DPlain _ => False
  end.

Lemma reg_ok_delete w w' l c :
  reg_ok w -> w_mem w !! l = Some c -> w_mem w' = delete l (w_mem w) ->
  w_map w' = erase_loc (w_map w) (hash (c_h c)) l -> reg_ok w'.
Proof.
  intros [Hb Hm Hn Hu] Hc Hmem Hmap.
  assert (l ∉ snd <$> w_map w') as Hgone.
  { rewrite Hmap. apply erase_loc_gone; [done|]. intros h' Hin.
    destruct (Hm _ _ Hin) as (c' & Hc' & Hh). simplify_eq. done. }
  assert (forall kl, kl ∈ w_map w' -> kl ∈ w_map w) as Hsub.
  { intros kl. rewrite Hmap. apply erase_loc_in. }
  assert (forall l', l' ∈ snd <$> w_map w' -> l' ∈ snd <$> w_map w /\ w_mem w' !! l' = w_mem w !! l')
    as Hsame.
  { intros l' Hin. split.
    - apply list_elem_of_fmap in Hin as (kl & -> & Hin). by apply (list_elem_of_fmap_2 snd), Hsub.
    - rewrite Hmem. apply lookup_delete_ne. by intros <-. }
  split.
  - intros l' c'. rewrite Hmem. intros [_ Hc']%lookup_delete_Some. eauto.
  - intros h l' Hin. destruct (Hsame l') as [_ ->]; [by apply (list_elem_of_fmap_2 snd) in Hin|].
    by apply Hm, Hsub.
  - rewrite Hmap. by apply erase_loc_nodup.
  - intros l1 l2 c1 c2 k fs keep H1 H2. destruct (Hsame _ H1) as [H1' ->], (Hsame _ H2) as [H2' ->].
    by apply Hu.
Qed.

Lemma release_spec w p k fs keep :
  reg_ok w -> denotes ns w p k fs keep ->
  exists w', ocs_cull_descr_release ns w (Some p) = Done w' /\ reg_ok w' /\ lost_ptr w w' p.
Proof.
  intros Hr Hd. unfold ocs_cull_descr_release. rewrite (denotes_counted _ _ _ _ _ _ Hd).
  cbn [mbind result_bind].
  destruct p as [j|l|]; simpl in Hd; [destruct Hd as (-> & Ht & ->)|destruct Hd as (c & Hc & Hb)|done].
  - rewrite all_kept_repeat. cbn [negb]. exists w. do 2 (split; [done|]). done.
  - destruct (all_kept keep) eqn:Ha.
    { pose proof (bl_some _ _ _ _ _ Hb). pose proof (bl_length _ _ _ _ _ Hb).
      rewrite (all_kept_length 0) in Ha. apply bool_decide_eq_true in Ha. unfold kept in *. lia. }
    cbn [negb]. rewrite Hc. destruct (refs (c_h c) =? 1) eqn:E.
    + eexists. split; [reflexivity|]. unfold forget. simpl.
      assert (delete l (<[l := set_refs (u32 (refs (c_h c) - 1)) c]> (w_mem w)) = delete l (w_mem w))
        as Hdel by (by rewrite delete_insert_eq).
      split.
      * eapply (reg_ok_delete w _ l c Hr Hc); simpl; [|by destruct (_ <? _)].
        rewrite <- Hdel. by destruct (_ <? _).
      * exists c. split; [done|]. rewrite E. simpl. rewrite <- Hdel. by destruct (_ <? _).
    + eexists. split; [reflexivity|]. split; [eapply reg_ok_count; eauto; done|].
      exists c. split; [done|]. by rewrite E.
Qed.

End Registry.

End CullRegistry.
