(* ===== verification/CullPack.v ===== *)
(** Packing of CULL lists, elements and descriptors ([libs/cull/cull_pack.cc]) and what it
    uses of [libs/cull/cull_what.cc], [libs/cull/cull_db.cc] and [libs/cull/cull_list.cc].

    A value slot holds a tagged value: reading the member another type was written to is
    [BadElement].  [VZero] is a slot of zero bytes, which every type reads as 0 or null.
    Functions run on a state of allocator, registry, pack buffer with its descriptor
    table, and the caches of the selections; they return a value or a code. *)

From S2P Require Import Prelude Pack CullDescr.
Import Pack CullDescr.

Module CullPack.

(** ** Data *)

Inductive cull_elem_kind := FREE_ELEM | BOUND_ELEM | OBJECT_ELEM | TRANS_BOUND_ELEM.

#[export] Instance cull_elem_kind_eq_dec : EqDecision cull_elem_kind.
Proof. solve_decision. Defined.

(** An element and a list over descriptors of type [D] and values of type [V]; the
    elements are chained in order.  In the program [D] is [dptr]. *)
Record elem_of (D V : Type) := Elem { e_kind : cull_elem_kind; e_descr : D; e_cont : list V }.
Arguments Elem {D V} e_kind e_descr e_cont.
Arguments e_kind {D V} e.
Arguments e_descr {D V} e.
Arguments e_cont {D V} e.

Record list_of (D V : Type) :=
  LList { l_name : option (list Z); l_descr : D; l_elems : list (elem_of D V) }.
Arguments LList {D V} l_name l_descr l_elems.
Arguments l_name {D V} l.
Arguments l_descr {D V} l.
Arguments l_elems {D V} l.

Inductive multi_of (D : Type) :=
  | VZero
  | VDouble (bits : Z)
  | VUlong (i : Z)
  | VUlong64 (i : Z)
  | VBool (b : bool)
  | VString (s : option (list Z))   (* [str] and [host], both a [char *] *)
  | VList (l : option (list_of D (multi_of D)))
  | VObject (e : option (elem_of D (multi_of D)))
  | VRef (p : Z).
Arguments VZero {D}.
Arguments VDouble {D} bits.
Arguments VUlong {D} i.
Arguments VUlong64 {D} i.
Arguments VBool {D} b.
Arguments VString {D} s.
Arguments VList {D} l.
Arguments VObject {D} e.
Arguments VRef {D} p.

Definition lMultiType := multi_of dptr.
Definition lListElem := elem_of dptr lMultiType.
Definition lList := list_of dptr lMultiType.

(** A field selection: an array of fields, the terminating one left out.  [w_loc] is the
    address of the array, under which its cache is found. *)
Inductive lEnumeration := What (w_loc : positive) (fields : list lEnumField)
with lEnumField := WField (w_pos w_mt w_nm : Z) (w_ep : option lEnumeration).

Definition WHAT_ALL : Z := -1.
Definition WHAT_NONE : Z := -2.

Definition w_pos (f : lEnumField) : Z := match f with WField p _ _ _ => p end.
Definition w_mt (f : lEnumField) : Z := match f with WField _ m _ _ => m end.
Definition w_nm (f : lEnumField) : Z := match f with WField _ _ n _ => n end.
Definition w_ep (f : lEnumField) : option lEnumeration := match f with WField _ _ _ e => e end.
Definition w_loc (w : lEnumeration) : positive := match w with What l _ => l end.
Definition w_fields (w : lEnumeration) : list lEnumField := match w with What _ fs => fs end.

Definition end_field : lEnumField := WField 0 lEndT NoName None.

(** [what[0].pos] *)
Definition what_pos (w : lEnumeration) : Z := w_pos (default end_field (head (w_fields w))).

(** The fields a loop up to [NoName] visits. *)
Fixpoint until_NoName (fs : list lEnumField) : list lEnumField :=
  match fs with
  | [] => []
  | f :: fs => if w_nm f =? NoName then [] else f :: until_NoName fs
  end.

(** The fields a loop up to [lEndT] visits. *)
Fixpoint until_lEndT (fs : list lEnumField) : list lEnumField :=
  match fs with
  | [] => []
  | f :: fs => if mt_get_type (w_mt f) =? lEndT then [] else f :: until_lEndT fs
  end.

(** ** Wire constants *)

Definition CULL_PACK_DESCR_TYPE_REF : Z := 0xFFFFFF00.
Definition CULL_PACK_DESCR_TABLE_DEF : Z := 0xFFFFFF01.
Definition CULL_PACK_DESCR_TABLE_REF : Z := 0xFFFFFF02.
Definition CULL_PACK_DESCR_BY_INDEX : Z := 0.
Definition CULL_PACK_DESCR_BY_FIELD : Z := 1.

Definition elem_kind_to_wire (k : cull_elem_kind) : Z :=
  match k with
  | BOUND_ELEM => 2
  | OBJECT_ELEM => 8
  | TRANS_BOUND_ELEM => 4
  | FREE_ELEM => 1
  end.

Definition elem_kind_from_wire (w : Z) : option cull_elem_kind :=
  if w =? 1 then Some FREE_ELEM
  else if w =? 2 then Some BOUND_ELEM
  else if w =? 4 then Some TRANS_BOUND_ELEM
  else if w =? 8 then Some OBJECT_ELEM
  else None.

Section WithAllocator.
Context `{Alloc : Allocator}.

(** ** State *)

Record st := St {
  s_world : world;
  s_pb : sge_pack_buffer;
  s_tab : option (list dptr);
  s_cache : gmap positive (dptr * dptr);
}.

(** A function that may return early with a code. *)
Definition M (A : Type) : Type := st -> result (st * (A + Z)).

#[export] Instance M_bind : MBind M := fun A B f m s =>
  '(s, r) ← m s;
  match r with
  | inl a => f a s
  | inr code => Done (s, inr code)
  end.

#[export] Instance M_ret : MRet M := fun A a s => Done (s, inl a).

Definition fail {A} (code : Z) : M A := fun s => Done (s, inr code).
Definition stuck {A} (r : result (st * (A + Z))) : M A := fun _ => r.

(** What is done before the function returns with a code. *)
Definition on_error {A} (m : M A) (cleanup : M unit) : M A := fun s =>
  '(s, r) ← m s;
  match r with
  | inl a => Done (s, inl a)
  | inr code => '(s, _) ← cleanup s; Done (s, inr code)
  end.

(** A question about the world. *)
Definition ask {A} (f : world -> result A) : M A := fun s =>
  a ← f (s_world s); Done (s, inl a).

(** An operation on the world. *)
Definition upd {A} (f : world -> result (world * A)) : M A := fun s =>
  '(w, a) ← f (s_world s); Done (St w (s_pb s) (s_tab s) (s_cache s), inl a).

Definition run {A} (f : world -> sge_pack_buffer -> result (world * sge_pack_buffer * A * Z)) :
    M A := fun s =>
  '(w, pb, a, ret) ← f (s_world s) (s_pb s);
  Done (St w pb (s_tab s) (s_cache s), if ret =? PACK_SUCCESS then inl a else inr ret).

Definition pack_with (f : heap -> sge_pack_buffer -> outcome (heap * sge_pack_buffer * Z)) : M unit :=
  run (fun w pb =>
    '(h, pb, ret) ← of_outcome (f (w_heap w) pb); Done (set_heap h w, pb, tt, ret)).

Definition pint (i : Z) : M unit := pack_with (fun h pb => packint h pb i).
Definition pint64 (i : Z) : M unit := pack_with (fun h pb => packint64 h pb i).
Definition pdouble (d : Z) : M unit := pack_with (fun h pb => packdouble h pb d).
Definition pstr (s : option (list Z)) : M unit := pack_with (fun h pb => packstr h pb s).

Definition unpack_with (f : sge_pack_buffer -> outcome (sge_pack_buffer * Z * Z)) : M Z :=
  run (fun w pb => '(pb, i, ret) ← of_outcome (f pb); Done (w, pb, i, ret)).

Definition uint : M Z := unpack_with unpackint.
Definition uint64 : M Z := unpack_with unpackint64.
Definition udouble : M Z := unpack_with unpackdouble.
Definition ustr : M (option (list Z)) :=
  run (fun w pb =>
    '(h, pb, s, ret) ← of_outcome (unpackstr (w_heap w) pb); Done (set_heap h w, pb, s, ret)).

(** [calloc], [new (std::nothrow)]: false without memory. *)
Definition calloc_ok (n : Z) : M bool :=
  upd (fun w => let '(h, m) := alloc (w_heap w) n in Done (set_heap h w, bool_decide (is_Some m))).

(** [sge_malloc], which aborts without memory. *)
Definition malloc (n : Z) : M unit :=
  upd (fun w => '(h, _) ← of_outcome (sge_malloc (w_heap w) n); Done (set_heap h w, tt)).

Context (ns : option (list lNameSpace)).

Definition descr_entries (p : dptr) : M (list lDescr) := ask (fun w => entries ns w p).
Definition present (p : dptr) : M (list (nat * Z)) := ask (fun w => ocs_cull_present_fields ns w p).
Definition count_present_of (p : dptr) : M Z := ask (fun w => lCountPresent ns w (Some p)).
Definition is_counted (p : dptr) : M bool := ask (fun w => ocs_cull_descr_is_counted ns w (Some p)).
Definition is_static (p : dptr) : M bool := ask (fun w => ocs_cull_descr_is_static ns w (Some p)).
Definition release (p : dptr) : M unit :=
  upd (fun w => w ← ocs_cull_descr_release ns w (Some p); Done (w, tt)).
Definition ref (p : dptr) : M (option dptr) := upd (fun w => ocs_cull_descr_ref ns w (Some p)).

(** ** The descriptor table *)

(** Makes the table at the first use; false without memory. *)
Definition pack_table : M bool := fun s =>
  match s_tab s with
  | Some _ => Done (s, inl true)
  | None =>
      '(s, r) ← calloc_ok 24 s;
      match r with
      | inl true => Done (St (s_world s) (s_pb s) (Some []) (s_cache s), inl true)
      | _ => Done (s, r)
      end
  end.

Definition table : M (list dptr) := fun s => Done (s, inl (default [] (s_tab s))).
Definition table_push (p : dptr) : M unit := fun s =>
  Done (St (s_world s) (s_pb s) (Some (default [] (s_tab s) ++ [p])) (s_cache s), inl tt).

Fixpoint release_all (ps : list dptr) : M unit :=
  match ps with
  | [] => mret tt
  | p :: ps => _ ← release p; release_all ps
  end.

Definition ocs_cull_pack_table_free : M unit := fun s =>
  match s_tab s with
  | None => Done (s, inl tt)
  | Some ps =>
      '(s, r) ← release_all ps s;
      Done (St (s_world s) (s_pb s) None (s_cache s), r)
  end.

Definition ocs_cull_pack_table_size (s : st) : nat := length (default [] (s_tab s)).

(** ** Selections *)

(** -1 on an error; the null pointers the code tests for do not occur here. *)
Definition lCountWhat (what : lEnumeration) (dp : dptr) : M Z :=
  if what_pos what =? WHAT_NONE then mret 0
  else if what_pos what =? WHAT_ALL then count_present_of dp
  else mret (Z.of_nat (length (until_NoName (w_fields what)))).

Definition fits_field (es : list lDescr) (cnt : nat) (f : lEnumField) : bool :=
  let d := entry es (Z.to_nat (w_pos f)) in
  negb ((w_pos f <? 0) || (cnt <=? w_pos f) || negb (nm d =? w_nm f) || is_absent d).

Definition ocs_cull_what_fits (what : lEnumeration) (dp : dptr) : M bool :=
  if (what_pos what =? WHAT_ALL) || (what_pos what =? WHAT_NONE) then mret true
  else
    es ← descr_entries dp;
    mret (forallb (fits_field es (count_entries es)) (until_NoName (w_fields what))).

Fixpoint keep_selected (es : list lDescr) (cnt : nat) (fs : list lEnumField) (keep : list bool) :
    option (list bool) :=
  match fs with
  | [] => Some keep
  | f :: fs =>
      let d := entry es (Z.to_nat (w_pos f)) in
      if (w_pos f <? 0) || (cnt <=? w_pos f) || negb (w_nm f =? nm d) ||
         negb (mt_get_type (w_mt f) =? mt_get_type (mt d)) || is_absent d then None
      else keep_selected es cnt fs (<[Z.to_nat (w_pos f) := true]> keep)
  end.

(** The entries written; [Some None] is the return for [WHAT_NONE], which writes nothing. *)
Definition lPartialDescr (what : lEnumeration) (es : list lDescr) : option (option (list lDescr)) :=
  let cnt := count_entries es in
  if what_pos what =? WHAT_NONE then Some None
  else
    let keep :=
      if what_pos what =? WHAT_ALL then Some (map (fun d => negb (is_absent d)) (take cnt es))
      else keep_selected es cnt (until_lEndT (w_fields what)) (repeat false cnt) in
    match keep ≫= ocs_cull_descr_layout es with
    | Some (out, _) => Some (Some out)
    | None => None
    end.

Definition cached (what : lEnumeration) : M (option (dptr * dptr)) := fun s =>
  Done (s, inl (s_cache s !! w_loc what)).
Definition set_cache (what : lEnumeration) (c : dptr * dptr) : M unit := fun s =>
  Done (St (s_world s) (s_pb s) (s_tab s) (<[w_loc what := c]> (s_cache s)), inl tt).

(** [sge_malloc] of the entries, [lPartialDescr], [ocs_cull_descr_acquire] of the result. *)
Definition reduce_to (what : lEnumeration) (src : dptr) : M (option dptr) :=
  es ← descr_entries src;
  _ ← malloc (12 * (count_entries es + 1));
  match lPartialDescr what es with
  | Some (Some out) => upd (fun w => ocs_cull_descr_acquire ns w (Some (DPlain out)))
  | Some None => stuck Dangling
  | None => mret None
  end.

(** The caller gives up the reduction [dp] and its source [src]; both go to the cache,
    whose former content is released. *)
Definition store_cache (what : lEnumeration) (old : option (dptr * dptr)) (src dp : dptr) :
    M unit :=
  _ ← match old with
      | Some (osrc, odp) => _ ← release odp; release osrc
      | None => mret tt
      end;
  _ ← ref src;
  set_cache what (src, dp).

(** The part of [ocs_cull_what_descr] behind the cache. *)
Definition build_reduction (what : lEnumeration) (old : option (dptr * dptr)) (src : dptr) :
    M (option dptr * bool) :=
  cnt ← lCountWhat what src;
  if cnt <=? 0 then mret (None, false)
  else
    dp ← reduce_to what src;
    match dp with
    | None => mret (None, false)
    | Some p =>
        counted ← is_counted src;
        static ← is_static src;
        if (counted : bool) || (static : bool) then
          _ ← store_cache what old src p; mret (dp, false)
        else mret (dp, true)
    end.

(** The cache of a selection is (source, reduction).  The flag tells whether the caller
    has to release the result. *)
Definition ocs_cull_what_descr (what : lEnumeration) (src : dptr) : M (option dptr * bool) :=
  c ← cached what;
  match c with
  | Some (csrc, cdp) =>
      if bool_decide (csrc = src) then mret (Some cdp, false)
      else build_reduction what c src
  | None => build_reduction what c src
  end.

(** ** Packing descriptors *)

Fixpoint pack_ints (l : list Z) : M unit :=
  match l with
  | [] => mret tt
  | i :: l => _ ← pint i; pack_ints l
  end.

(** [(nm, mt)] of the fields, without the process local flag. *)
Fixpoint pack_fields (es : list lDescr) (fs : list (nat * Z)) : M unit :=
  match fs with
  | [] => mret tt
  | (pos, _) :: fs =>
      _ ← pint (nm (entry es pos));
      _ ← pint (without (mt (entry es pos)) CULL_DESCR_INTERNED);
      pack_fields es fs
  end.

(** [tab->entries[k] == dp] *)
Fixpoint find_ptr (k : nat) (tab : list dptr) (dp : dptr) : option nat :=
  match tab with
  | [] => None
  | p :: tab => if bool_decide (p = dp) then Some k else find_ptr (S k) tab dp
  end.

(** The indices of the fields in the type, or [None] if one is not a field of it with the
    same data type. *)
Fixpoint type_indices (type : dptr) (tes es : list lDescr) (fs : list (nat * Z)) :
    option (list Z) :=
  match fs with
  | [] => Some []
  | (pos, _) :: fs =>
      let d := entry es pos in
      match ocs_cull_descr_static_containing ns (nm d) with
      | Some (t, p) =>
          if bool_decide (t = type) && (mt_get_type (mt (entry tes p)) =? mt_get_type (mt d)) then
            idx ← type_indices type tes es fs; Some (Z.of_nat p :: idx)
          else None
      | None => None
      end
  end.

(** The type of the first field with the indices of all fields in it. *)
Definition by_index (es : list lDescr) (n : Z) (fs : list (nat * Z)) :
    M (option (list lDescr * list Z)) :=
  match (if 0 <? n then ocs_cull_descr_static_containing ns (nm (entry es 0)) else None) with
  | Some (type, _) =>
      tes ← descr_entries type;
      mret (match type_indices type tes es fs with Some idx => Some (tes, idx) | None => None end)
  | None => mret None
  end.

(** A descriptor that enters the table. *)
Definition pack_table_def (dp : dptr) (n : Z) : M unit :=
  _ ← ref dp;
  _ ← table_push dp;
  es ← descr_entries dp;
  fs ← present dp;
  idx ← by_index es n fs;
  _ ← pint CULL_PACK_DESCR_TABLE_DEF;
  match idx with
  | Some (tes, idx) =>
      _ ← pint CULL_PACK_DESCR_BY_INDEX;
      _ ← pint (nm (entry tes 0));
      _ ← pint n;
      pack_ints idx
  | None =>
      _ ← pint CULL_PACK_DESCR_BY_FIELD;
      _ ← pint n;
      pack_fields es fs
  end.

Definition pack_shared_descr (dp : dptr) : M unit :=
  n ← count_present_of dp;
  counted ← is_counted dp;
  if negb (counted : bool) then
    _ ← pint CULL_PACK_DESCR_TYPE_REF;
    es ← descr_entries dp;
    _ ← pint (nm (entry es 0));
    pint n
  else
    ok ← pack_table;
    if negb (ok : bool) then fail PACK_ENOMEM
    else
      tab ← table;
      match find_ptr 0 tab dp with
      | Some k => _ ← pint CULL_PACK_DESCR_TABLE_REF; pint k
      | None => pack_table_def dp n
      end.

Definition cull_pack_descr (dp : dptr) (flags : Z) : M unit :=
  if flags =? 0 then
    counted ← is_counted dp;
    static ← is_static dp;
    if (counted : bool) || (static : bool) then pack_shared_descr dp
    else
      shared ← upd (fun w => ocs_cull_descr_acquire ns w (Some dp));
      match shared with
      | None => fail PACK_ENOMEM
      | Some p =>
          _ ← on_error (pack_shared_descr p) (release p);
          release p
      end
  else
    n ← count_present_of dp;
    _ ← pint n;
    es ← descr_entries dp;
    fs ← present dp;
    pack_fields es fs.

Fixpoint pack_selected (reduced : Z) (fs : list lEnumField) : M unit :=
  match fs with
  | [] => mret tt
  | f :: fs =>
      _ ← pint (w_nm f);
      _ ← pint (Z.lor (without (w_mt f) CULL_DESCR_INTERNED) reduced);
      pack_selected reduced fs
  end.

Definition cull_pack_enum_as_descr (what : lEnumeration) (dp : dptr) (flags : Z) : M unit :=
  fits ← ocs_cull_what_fits what dp;
  if negb (fits : bool) then fail PACK_BADARG
  else if (flags =? 0) && negb (what_pos what =? WHAT_NONE) then
    shared ← ocs_cull_what_descr what dp;
    match shared with
    | (None, _) => fail PACK_ENOMEM
    | (Some p, owned) =>
        let hand_back := if owned : bool then release p else mret tt in
        _ ← on_error (pack_shared_descr p) hand_back;
        hand_back
    end
  else
    n ← lCountWhat what dp;
    _ ← pint n;
    es ← descr_entries dp;
    if what_pos what =? WHAT_ALL then fs ← present dp; pack_fields es fs
    else if what_pos what =? WHAT_NONE then mret tt
    else
      pack_selected (if n <? count_entries es then CULL_IS_REDUCED else 0)
        (until_NoName (w_fields what)).

(** ** Packing values *)

Definition get_double (v : lMultiType) : M Z :=
  match v with VZero => mret 0 | VDouble d => mret d | _ => stuck BadElement end.
Definition get_ulong (v : lMultiType) : M Z :=
  match v with VZero => mret 0 | VUlong i => mret i | _ => stuck BadElement end.
Definition get_ulong64 (v : lMultiType) : M Z :=
  match v with VZero => mret 0 | VUlong64 i => mret i | _ => stuck BadElement end.
Definition get_bool (v : lMultiType) : M Z :=
  match v with VZero => mret 0 | VBool b => mret (if b then 1 else 0) | _ => stuck BadElement end.
Definition get_str (v : lMultiType) : M (option (list Z)) :=
  match v with VZero => mret None | VString s => mret s | _ => stuck BadElement end.

(** A null list, and a null sub-object. *)
Definition pack_null : M unit := pint 0.

(** What [cull_pack_switch] does with a value that is no list and no object; these two
    are packed by [packl] and [packo]. *)
Definition pack_value (v : lMultiType) (packl packo : M unit) (type : Z) : M unit :=
  if type =? lBoolT then i ← get_bool v; pint i
  else if type =? lUlongT then i ← get_ulong v; pint i
  else if type =? lUlong64T then i ← get_ulong64 v; pint64 i
  else if type =? lStringT then s ← get_str v; pstr s
  else if type =? lHostT then s ← get_str v; pstr s
  else if type =? lListT then packl
  else if type =? lObjectT then packo
  else if type =? lDoubleT then d ← get_double v; pdouble d
  else if type =? lRefT then mret tt
  else fail PACK_FORMAT.

(** A value as what packing it with a selection, a type and flags does. *)
Definition packer : Type := option lEnumeration -> Z -> Z -> M unit.

(** [no_transfer_value] *)
Definition pack_zero : packer := fun _ type _ => pack_value VZero pack_null pack_null type.

(** The fields without a selection. *)
Fixpoint pack_fields_cont (cp : list packer) (es : list lDescr) (flags : Z)
    (fs : list (nat * Z)) : M unit :=
  match fs with
  | [] => mret tt
  | (pos, slot) :: fs =>
      let d := entry es pos in
      if (flags =? 0) || has_flag (mt d) flags then
        _ ← (if mt_do_transfer (mt d) then
               match (if slot <? 0 then None else cp !! Z.to_nat slot) with
               | Some p => p None (mt_get_type (mt d)) flags
               | None => stuck BadElement
               end
             else pack_zero None (mt_get_type (mt d)) flags);
        pack_fields_cont cp es flags fs
      else pack_fields_cont cp es flags fs
  end.

(** The fields of a selection. *)
Fixpoint pack_selected_cont (cp : list packer) (es : list lDescr) (flags : Z)
    (fs : list lEnumField) : M unit :=
  match fs with
  | [] => mret tt
  | f :: fs =>
      if (flags =? 0) || has_flag (w_mt f) flags then
        _ ← (if mt_do_transfer (w_mt f) then
               let slot := ocs_cull_slot es (w_pos f) in
               match (if (w_pos f <? 0) || (slot <? 0) then None else cp !! Z.to_nat slot) with
               | Some p => p (w_ep f) (mt_get_type (w_mt f)) flags
               | None => stuck BadElement
               end
             else pack_zero None (mt_get_type (w_mt f)) flags);
        pack_selected_cont cp es flags fs
      else pack_selected_cont cp es flags fs
  end.

Definition cull_pack_cont (cp : list packer) (dp : dptr) (what : option lEnumeration)
    (flags : Z) : M unit :=
  es ← descr_entries dp;
  match what with
  | None => fs ← present dp; pack_fields_cont cp es flags fs
  | Some w => pack_selected_cont cp es flags (until_NoName (w_fields w))
  end.

Definition pack_descr_or_enum (dp : dptr) (what : option lEnumeration) (flags : Z) : M unit :=
  match what with
  | None => cull_pack_descr dp flags
  | Some w => cull_pack_enum_as_descr w dp flags
  end.

(** An element whose values are packers. *)
Definition pack_elem_cont (kind : cull_elem_kind) (dp : dptr) (cp : list packer)
    (what : option lEnumeration) (flags : Z) : M unit :=
  _ ← pint (elem_kind_to_wire kind);
  _ ← (if bool_decide (kind = FREE_ELEM) then pack_descr_or_enum dp what flags else mret tt);
  cull_pack_cont cp dp what flags.

Definition pack_object (e : option (cull_elem_kind * dptr * list packer)) : packer :=
  fun what _ flags =>
  match e with
  | None => pint 0
  | Some (kind, dp, cp) =>
      _ ← pint 1;
      _ ← pack_descr_or_enum dp what flags;
      pack_elem_cont kind dp cp what flags
  end.

Fixpoint pack_elems (es : list (cull_elem_kind * dptr * list packer))
    (what : option lEnumeration) (flags : Z) : M unit :=
  match es with
  | [] => pint 0
  | (kind, dp, cp) :: es =>
      _ ← pint 1;
      _ ← pack_elem_cont kind dp cp what flags;
      pack_elems es what flags
  end.

Definition pack_list (l : option (option (list Z) * dptr * list (cull_elem_kind * dptr * list packer))) :
    packer := fun what _ flags =>
  match l with
  | None => pint 0
  | Some (name, dp, es) =>
      _ ← pint 1;
      _ ← pstr name;
      _ ← pack_descr_or_enum dp what flags;
      pack_elems es what flags
  end.

Fixpoint cull_pack_switch (v : lMultiType) : packer := fun what type flags =>
  let elem (e : lListElem) :=
    match e with Elem kind dp cont => (kind, dp, map cull_pack_switch cont) end in
  let packl :=
    match v with
    | VZero => pack_null
    | VList l =>
        pack_list
          match l with
          | Some (LList name dp es) => Some (name, dp, map elem es)
          | None => None
          end what type flags
    | _ => stuck BadElement
    end in
  let packo :=
    match v with
    | VZero => pack_null
    | VObject e =>
        pack_object match e with Some e => Some (elem e) | None => None end what type flags
    | _ => stuck BadElement
    end in
  pack_value v packl packo type.

Definition packers (e : lListElem) : cull_elem_kind * dptr * list packer :=
  (e_kind e, e_descr e, map cull_pack_switch (e_cont e)).

Definition cull_pack_elem_partial (e : lListElem) (what : option lEnumeration) (flags : Z) :
    M unit :=
  pack_elem_cont (e_kind e) (e_descr e) (map cull_pack_switch (e_cont e)) what flags.

Definition cull_pack_elem (e : lListElem) : M unit := cull_pack_elem_partial e None 0.

Definition cull_pack_object (e : option lListElem) (what : option lEnumeration) (flags : Z) :
    M unit :=
  pack_object (packers <$> e) what lObjectT flags.

Definition cull_pack_list_partial (l : option lList) (what : option lEnumeration) (flags : Z) :
    M unit :=
  pack_list
    match l with
    | Some l => Some (l_name l, l_descr l, map packers (l_elems l))
    | None => None
    end what lListT flags.

Definition cull_pack_list (l : option lList) : M unit := cull_pack_list_partial l None 0.

Definition pack_job_delivery (jep : lListElem) : M unit := cull_pack_elem jep.

(** ** Freeing *)

(** A value as what freeing it as a value of a type does. *)
Definition freer : Type := Z -> M unit.

Fixpoint free_fields (cp : list freer) (es : list lDescr) (fs : list (nat * Z)) : M unit :=
  match fs with
  | [] => mret tt
  | (pos, slot) :: fs =>
      _ ← match (if slot <? 0 then None else cp !! Z.to_nat slot) with
          | Some f => f (mt_get_type (mt (entry es pos)))
          | None => stuck BadElement
          end;
      free_fields cp es fs
  end.

Definition free_elem (e : cull_elem_kind * dptr * list freer) : M unit :=
  let '(kind, dp, cp) := e in
  es ← descr_entries dp;
  fs ← present dp;
  _ ← free_fields cp es fs;
  if bool_decide (kind = FREE_ELEM \/ kind = OBJECT_ELEM) then release dp else mret tt.

Fixpoint free_elems (es : list (cull_elem_kind * dptr * list freer)) : M unit :=
  match es with
  | [] => mret tt
  | e :: es => _ ← free_elem e; free_elems es
  end.

Definition free_list (dp : dptr) (es : list (cull_elem_kind * dptr * list freer)) : M unit :=
  _ ← free_elems es; release dp.

(** The switch of [lFreeElem]: scalars own nothing; an unknown type is only reported. *)
Fixpoint free_value (v : lMultiType) : freer := fun type =>
  let elem (e : lListElem) :=
    match e with Elem kind dp cont => (kind, dp, map free_value cont) end in
  if (type =? lStringT) || (type =? lHostT) then
    match v with VZero | VString _ => mret tt | _ => stuck BadElement end
  else if type =? lListT then
    match v with
    | VZero | VList None => mret tt
    | VList (Some (LList _ dp es)) => free_list dp (map elem es)
    | _ => stuck BadElement
    end
  else if type =? lObjectT then
    match v with
    | VZero | VObject None => mret tt
    | VObject (Some e) => free_elem (elem e)
    | _ => stuck BadElement
    end
  else mret tt.

Definition freers (e : lListElem) : cull_elem_kind * dptr * list freer :=
  (e_kind e, e_descr e, map free_value (e_cont e)).

Definition lFreeElem (e : lListElem) : M unit := free_elem (freers e).
Definition lFreeList (l : lList) : M unit := free_list (l_descr l) (map freers (l_elems l)).

(** ** Unpacking descriptors *)

(** [count] indices below [type_n] in ascending order behind [last]. *)
Fixpoint unpack_indices (count : nat) (type_n : Z) (last : Z) (keep : list bool) :
    M (list bool) :=
  match count with
  | O => mret keep
  | S count =>
      temp ← uint;
      if (type_n <=? temp) || (temp <=? last) then fail PACK_FORMAT
      else unpack_indices count type_n temp (<[Z.to_nat temp := true]> keep)
  end.

(** [n] entries with ascending field numbers behind [prev]. *)
Fixpoint unpack_fields (n : nat) (prev : option Z) : M (list lDescr) :=
  match n with
  | O => mret []
  | S n =>
      temp ← uint;
      let nm := s32 temp in
      if match prev with Some p => nm <=? p | None => false end then fail PACK_FORMAT
      else
        temp ← uint;
        ds ← unpack_fields n (Some nm);
        mret (Field nm (without (s32 temp) CULL_DESCR_INTERNED) 0 :: ds)
  end.

(** The first fields that both have are the same. *)
Fixpoint same_leading (a b : list lDescr) : bool :=
  match a, b with
  | x :: a, y :: b =>
      (nm x =? nm y) && (mt_get_type (mt x) =? mt_get_type (mt y)) && same_leading a b
  | _, _ => true
  end.

(** [None] is [PACK_FORMAT]. *)
Definition ocs_cull_unpack_prefix_type (dp : list lDescr) : M (option (option dptr)) :=
  match dp with
  | [] => mret (Some None)
  | d :: _ =>
      match ocs_cull_descr_static_containing ns (nm d) with
      | Some (type, O) =>
          tes ← descr_entries type;
          let type_n := count_entries tes in
          if negb (same_leading dp (take type_n tes)) then mret (Some None)
          else if (type_n <? length dp)%nat then mret None
          else mret (Some (Some type))
      | _ => mret (Some None)
      end
  end.

(** The positions in the type of the fields on the wire, or [None] if one is not a field
    of it with the same data type. *)
Fixpoint keep_wire (tes : list lDescr) (type_n : nat) (dp : list lDescr) (keep : list bool) :
    option (list bool) :=
  match dp with
  | [] => Some keep
  | d :: dp =>
      let pos := nm d - nm (entry tes 0) in
      if (0 <=? pos) && (pos <? type_n) && (nm (entry tes (Z.to_nat pos)) =? nm d) &&
         (mt_get_type (mt (entry tes (Z.to_nat pos))) =? mt_get_type (mt d))
      then keep_wire tes type_n dp (<[Z.to_nat pos := true]> keep)
      else None
  end.

(** A table entry that lists indices. *)
Definition unpack_by_index : M (dptr * Z) :=
  type_nm ← uint;
  count ← uint;
  match ocs_cull_descr_static_for ns (s32 type_nm) with
  | None => fail PACK_FORMAT
  | Some type =>
      tes ← descr_entries type;
      let type_n := count_entries tes in
      if type_n <? count then fail PACK_FORMAT
      else
        keep ← unpack_indices (Z.to_nat count) type_n (-1) (repeat false type_n);
        if count =? 0 then fail PACK_FORMAT
        else
          shared ← upd (fun w => ocs_cull_descr_build ns w (Some type) keep);
          match shared with
          | None => fail PACK_ENOMEM
          | Some p =>
              ok ← pack_table;
              if negb (ok : bool) then _ ← release p; fail PACK_ENOMEM
              else
                _ ← table_push p;
                _ ← ref p;
                mret (p, count)
          end
  end.

(** The descriptor that holds the fields on the wire. *)
Definition build_from_wire (dp : list lDescr) (n : Z) (enter_table : bool) : M (dptr * Z) :=
  match dp with
  | [] => fail PACK_FORMAT
  | d :: _ =>
      match ocs_cull_descr_static_containing ns (nm d) with
      | None => fail PACK_FORMAT
      | Some (type, _) =>
          tes ← descr_entries type;
          let type_n := count_entries tes in
          match keep_wire tes type_n dp (repeat false type_n) with
          | None => fail PACK_FORMAT
          | Some keep =>
              built ← upd (fun w => ocs_cull_descr_build ns w (Some type) keep);
              match built with
              | None => fail PACK_ENOMEM
              | Some p =>
                  if enter_table then
                    ok ← pack_table;
                    if negb (ok : bool) then _ ← release p; fail PACK_ENOMEM
                    else _ ← ref p; _ ← table_push p; mret (p, n)
                  else mret (p, n)
              end
          end
      end
  end.

(** A descriptor that is listed field by field. *)
Definition unpack_by_field (n : Z) (enter_table : bool) (expected : option dptr) :
    M (dptr * Z) :=
  if MAX_DESCR_SIZE - 1 <? n then fail PACK_ENOMEM
  else
    _ ← malloc (12 * (n + 1));
    dp ← unpack_fields (Z.to_nat n) None;
    let wire_reduced := existsb (fun d => has_flag (mt d) CULL_IS_REDUCED) dp in
    if negb enter_table && negb wire_reduced then
      type ← ocs_cull_unpack_prefix_type dp;
      match type with
      | None => fail PACK_FORMAT
      | Some type =>
          static ← (match expected with Some e => is_static e | None => mret false end);
          if negb (bool_decide (type = expected)) && (static : bool) then fail PACK_FORMAT
          else
            match type with
            | Some t => mret (t, n)
            | None => build_from_wire dp n enter_table
            end
      end
    else build_from_wire dp n enter_table.

(** The descriptor with a reference for the caller, and the number of fields whose values
    follow for every element. *)
Definition cull_unpack_descr (flags : Z) (expected : option dptr) : M (dptr * Z) :=
  n ← uint;
  if n =? CULL_PACK_DESCR_TYPE_REF then
    if negb (flags =? 0) then fail PACK_FORMAT
    else
      first_nm ← uint;
      count ← uint;
      match ocs_cull_descr_static_for ns (s32 first_nm) with
      | None => fail PACK_FORMAT
      | Some block =>
          es ← descr_entries block;
          if (count =? 0) || (count_entries es <? s32 count) then fail PACK_FORMAT
          else mret (block, count)
      end
  else if (n =? CULL_PACK_DESCR_TABLE_REF) || (n =? CULL_PACK_DESCR_TABLE_DEF) then
    if negb (flags =? 0) then fail PACK_FORMAT
    else if n =? CULL_PACK_DESCR_TABLE_REF then
      index ← uint;
      tab ← table;
      match tab !! Z.to_nat index with
      | None => fail PACK_FORMAT
      | Some p =>
          _ ← ref p;
          cnt ← count_present_of p;
          mret (p, u32 cnt)
      end
    else
      kind ← uint;
      if kind =? CULL_PACK_DESCR_BY_INDEX then unpack_by_index
      else if negb (kind =? CULL_PACK_DESCR_BY_FIELD) then fail PACK_FORMAT
      else n ← uint; unpack_by_field n true expected
  else unpack_by_field n false expected.

(** ** Unpacking values *)

(** The first [wire_n] fields that have a value; [cp] is the array of the values. *)
Fixpoint unpack_cont_fields (sw : Z -> Z -> M lMultiType) (es : list lDescr) (flags : Z)
    (wire_n : Z) (fs : list (nat * Z)) (cp : list lMultiType) : M (list lMultiType) :=
  match fs with
  | [] => mret cp
  | (pos, slot) :: fs =>
      if wire_n =? 0 then mret cp
      else
        let d := entry es pos in
        if (flags =? 0) || has_flag (mt d) flags then
          v ← sw (mt_get_type (mt d)) flags;
          if (0 <=? slot) && (slot <? length cp) then
            unpack_cont_fields sw es flags (wire_n - 1) fs (<[Z.to_nat slot := v]> cp)
          else stuck BadElement
        else unpack_cont_fields sw es flags (wire_n - 1) fs cp
  end.

Definition cull_unpack_cont (sw : Z -> Z -> M lMultiType) (dp : dptr) (wire_n flags : Z) :
    M (list lMultiType) :=
  n ← count_present_of dp;
  if n <? wire_n then fail PACK_FORMAT
  else
    ok ← calloc_ok (8 * (n + 1));
    if negb (ok : bool) then fail PACK_ENOMEM
    else
      es ← descr_entries dp;
      fs ← present dp;
      unpack_cont_fields sw es flags wire_n fs (repeat VZero (Z.to_nat (n + 1))).

(** A bound element or a sub-object needs the descriptor [dp]. *)
Definition ocs_cull_unpack_elem (sw : Z -> Z -> M lMultiType) (dp : option dptr)
    (wire_n flags : Z) : M lListElem :=
  ok ← calloc_ok 40;
  if negb (ok : bool) then fail PACK_ENOMEM
  else
    wire ← uint;
    match elem_kind_from_wire wire with
    | None => fail PACK_FORMAT
    | Some FREE_ELEM =>
        '(descr, wire_n) ← cull_unpack_descr flags (if flags =? 0 then None else dp);
        cont ← on_error (cull_unpack_cont sw descr wire_n flags) (release descr);
        mret (Elem FREE_ELEM descr cont)
    | Some _ =>
        match dp with
        | None => fail PACK_BADARG
        | Some descr =>
            cont ← cull_unpack_cont sw descr wire_n flags;
            mret (Elem TRANS_BOUND_ELEM descr cont)
        end
    end.

(** The element takes over the descriptor of the list; its own values stay. *)
Definition lAppendElem (l : lList) (e : lListElem) : M lList :=
  if bool_decide (e_kind e = BOUND_ELEM \/ e_kind e = OBJECT_ELEM) then stuck Abort
  else
    _ ← (if bool_decide (e_kind e = FREE_ELEM) then release (e_descr e) else mret tt);
    mret (LList (l_name l) (l_descr l)
            (l_elems l ++ [Elem BOUND_ELEM (l_descr l) (e_cont e)])).

(** [while (has_more_elements)]; the list is freed when an element cannot be read. *)
Fixpoint unpack_elems (fuel : nat) (sw : Z -> Z -> M lMultiType) (l : lList)
    (wire_n flags : Z) : M lList :=
  match fuel with
  | O => stuck OutOfFuel
  | S fuel =>
      more ← on_error uint (lFreeList l);
      if more =? 0 then mret l
      else
        e ← on_error (ocs_cull_unpack_elem sw (Some (l_descr l)) wire_n flags) (lFreeList l);
        l ← lAppendElem l e;
        unpack_elems fuel sw l wire_n flags
  end.

Definition unpack_list (fuel : nat) (sw : Z -> Z -> M lMultiType) (flags : Z) :
    M (option lList) :=
  i ← uint;
  if i =? 0 then mret None
  else
    ok ← calloc_ok 56;
    if negb (ok : bool) then fail PACK_ENOMEM
    else
      name ← ustr;
      '(descr, wire_n) ← cull_unpack_descr flags None;
      l ← unpack_elems fuel sw (LList name descr []) wire_n flags;
      mret (Some l).

Definition unpack_object (sw : Z -> Z -> M lMultiType) (flags : Z) : M (option lListElem) :=
  i ← uint;
  if i =? 0 then mret None
  else
    '(descr, wire_n) ← cull_unpack_descr flags None;
    e ← on_error (ocs_cull_unpack_elem sw (Some descr) wire_n flags) (release descr);
    _ ← (if bool_decide (e_descr e = descr) then mret tt else release descr);
    mret (Some (Elem OBJECT_ELEM (e_descr e) (e_cont e))).

(** The fuel bounds the depth of nesting and the length of each list. *)
Fixpoint cull_unpack_switch (fuel : nat) (type flags : Z) : M lMultiType :=
  match fuel with
  | O => stuck OutOfFuel
  | S fuel =>
      let sw := cull_unpack_switch fuel in
      if type =? lBoolT then i ← uint; mret (VBool (negb (i =? 0)))
      else if type =? lUlongT then i ← uint; mret (VUlong i)
      else if type =? lUlong64T then i ← uint64; mret (VUlong64 i)
      else if (type =? lStringT) || (type =? lHostT) then s ← ustr; mret (VString s)
      else if type =? lListT then l ← unpack_list fuel sw flags; mret (VList l)
      else if type =? lObjectT then e ← unpack_object sw flags; mret (VObject e)
      else if type =? lDoubleT then d ← udouble; mret (VDouble d)
      else if type =? lRefT then mret (VRef 0)
      else fail PACK_FORMAT
  end.

Definition cull_unpack_list_partial (fuel : nat) (flags : Z) : M (option lList) :=
  unpack_list fuel (cull_unpack_switch fuel) flags.

Definition cull_unpack_list (fuel : nat) : M (option lList) := cull_unpack_list_partial fuel 0.

Definition cull_unpack_object (fuel : nat) (flags : Z) : M (option lListElem) :=
  unpack_object (cull_unpack_switch fuel) flags.

Definition cull_unpack_elem_partial (fuel : nat) (dp : option dptr) (flags : Z) : M lListElem :=
  cnt ← match dp with Some p => count_present_of p | None => mret 0 end;
  ocs_cull_unpack_elem (cull_unpack_switch fuel) dp (u32 cnt) flags.

Definition cull_unpack_elem (fuel : nat) (dp : option dptr) : M lListElem :=
  cull_unpack_elem_partial fuel dp 0.

End WithAllocator.

End CullPack.
