(* ===== verification/CullTree.v ===== *)
(** CULL data without addresses: a list or element as a tree whose descriptors are a type
    and the fields kept of it, what makes such a tree well typed, and what of it
    arrives at a receiver. *)

From S2P Require Import Prelude Pack CullDescr CullDescrFacts CullRegistry CullPack.
Import Pack CullDescr CullDescrFacts CullRegistry CullPack.

Module CullTree.

(** A type by its place in the name space, and for each field whether it is kept. *)
Definition adescr : Type := nat * list bool.

Definition tree := multi_of adescr.
Definition tree_elem := elem_of adescr tree.
Definition tree_list := list_of adescr tree.

(** ** Induction on values *)

Section Induction.
Context {D : Type} (P : multi_of D -> Prop).
Context (HZero : P VZero) (HDouble : forall d, P (VDouble d)) (HUlong : forall i, P (VUlong i))
  (HUlong64 : forall i, P (VUlong64 i)) (HBool : forall b, P (VBool b))
  (HString : forall s, P (VString s)) (HRef : forall p, P (VRef p)) (HNoList : P (VList None))
  (HList : forall name d es, Forall (fun e => Forall P (e_cont e)) es ->
     P (VList (Some (LList name d es))))
  (HNoObject : P (VObject None))
  (HObject : forall k d cont, Forall P cont -> P (VObject (Some (Elem k d cont)))).

Fixpoint multi_induction (v : multi_of D) : P v :=
  let all := fix all (l : list (multi_of D)) : Forall P l :=
    match l with
    | [] => Forall_nil_2 P
    | v :: l => Forall_cons_2 P v l (multi_induction v) (all l)
    end in
  match v with
  | VZero => HZero
  | VDouble d => HDouble d
  | VUlong i => HUlong i
  | VUlong64 i => HUlong64 i
  | VBool b => HBool b
  | VString s => HString s
  | VRef p => HRef p
  | VList None => HNoList
  | VList (Some (LList name d es)) =>
      HList name d es
        ((fix each (es : list (elem_of D (multi_of D))) : Forall (fun e => Forall P (e_cont e)) es :=
            match es with
            | [] => Forall_nil_2 _
            | Elem k d cont :: es =>
                Forall_cons_2 (fun e => Forall P (e_cont e)) (Elem k d cont) es (all cont) (each es)
            end) es)
  | VObject None => HNoObject
  | VObject (Some (Elem k d cont)) => HObject k d cont (all cont)
  end.
End Induction.

Section NameSpace.
Context (ns : option (list lNameSpace)).

(** The fields of type [k]. *)
Definition fields_at (k : nat) : list lDescr :=
  match name_space ns !! k ≫= descr with
  | Some es => take (count_entries es) es
  | None => []
  end.

(** The fields an element of the type has values for, in slot order. *)
Definition adescr_fields (d : adescr) : list lDescr :=
  omap (fun pos : nat => fields_at (fst d) !! pos) (kept (snd d)).

Definition adescr_ok (d : adescr) : Prop :=
  exists fs, type_at ns (fst d) fs /\ length fs = length (snd d) /\ (0 < length (kept (snd d)))%nat.

(** ** Well typed trees *)

(** The types [cull_pack_switch] knows. *)
Definition packable (type : Z) : Prop :=
  type = lBoolT \/ type = lUlongT \/ type = lUlong64T \/ type = lStringT \/ type = lHostT \/
  type = lListT \/ type = lObjectT \/ type = lDoubleT \/ type = lRefT.

(** A C string: no byte is 0. *)
Definition string_ok (s : option (list Z)) : Prop := Forall (fun b => 0 < b < 256) (default [] s).

(** One predicate per value: it is applied to the type of the field in the slot. *)
Definition cont_ok (fields : list lDescr) (cont : list (Z -> Prop)) : Prop :=
  forall (slot : nat) d, fields !! slot = Some d ->
    match cont !! slot with Some P => P (mt_get_type (mt d)) | None => False end.

(** The value is one of the type: elements of a list are bound and have its descriptor,
    a sub-object is not free. *)
Fixpoint well_typed (t : tree) (type : Z) : Prop :=
  match t with
  | VZero => packable type
  | VDouble d => type = lDoubleT /\ is_u64 d
  | VUlong i => type = lUlongT /\ is_u32 i
  | VUlong64 i => type = lUlong64T /\ is_u64 i
  | VBool _ => type = lBoolT
  | VString s => (type = lStringT \/ type = lHostT) /\ string_ok s
  | VRef _ => type = lRefT
  | VList None => type = lListT
  | VList (Some (LList name d es)) =>
      type = lListT /\ string_ok name /\ adescr_ok d /\
      Forall id
        (map (fun e => match e with Elem kind d' cont =>
           kind = BOUND_ELEM /\ d' = d /\ cont_ok (adescr_fields d) (map well_typed cont) end) es)
  | VObject None => type = lObjectT
  | VObject (Some (Elem kind d cont)) =>
      type = lObjectT /\ kind <> FREE_ELEM /\ adescr_ok d /\
      cont_ok (adescr_fields d) (map well_typed cont)
  end.

Definition list_well_typed (l : option tree_list) : Prop := well_typed (VList l) lListT.

(** ** What arrives *)

(** The value of a zeroed slot, read as a value of the type. *)
Definition zero_of (type : Z) : tree :=
  if type =? lBoolT then VBool false
  else if type =? lUlongT then VUlong 0
  else if type =? lUlong64T then VUlong64 0
  else if (type =? lStringT) || (type =? lHostT) then VString None
  else if type =? lListT then VList None
  else if type =? lObjectT then VObject None
  else if type =? lDoubleT then VDouble 0
  else VRef 0.

(** An empty string and a null pointer are the same on the wire. *)
Definition arrived_string (s : option (list Z)) : option (list Z) :=
  match s with Some [] => None | _ => s end.

(** The values of an element: those of the fields that are transferred, zero for the
    others, and the spare slot of an unpacked element. *)
Definition arrived_cont (fields : list lDescr) (cont : list (Z -> tree)) : list tree :=
  zip_with (fun d r => if mt_do_transfer (mt d) then r (mt_get_type (mt d))
                       else zero_of (mt_get_type (mt d))) fields cont ++ [VZero].

Fixpoint arrived (t : tree) (type : Z) : tree :=
  match t with
  | VZero => zero_of type
  | VString s => VString (arrived_string s)
  | VRef _ => VRef 0
  | VList (Some (LList name d es)) =>
      VList (Some (LList (arrived_string name) d
        (map (fun e => match e with Elem _ _ cont =>
           Elem BOUND_ELEM d (arrived_cont (adescr_fields d) (map arrived cont)) end) es)))
  | VObject (Some (Elem _ d cont)) =>
      VObject (Some (Elem OBJECT_ELEM d (arrived_cont (adescr_fields d) (map arrived cont))))
  | _ => t
  end.

Definition list_arrived (l : option tree_list) : option tree_list :=
  match arrived (VList l) lListT with VList l => l | _ => None end.

(** ** The tree of a value *)

Context `{Alloc : Allocator}.

Definition denotes_a (w : world) (p : dptr) (d : adescr) : Prop :=
  exists fs, denotes ns w p (fst d) fs (snd d).

Definition apply_all {A} (ps : list (A -> Prop)) (l : list A) : Prop := Forall2 (fun P x => P x) ps l.

(** In the world [w] the value is the tree: every pointer in it leads to a descriptor
    that denotes the one in the tree. *)
Fixpoint is_tree (w : world) (v : lMultiType) (t : tree) : Prop :=
  match v, t with
  | VZero, VZero => True
  | VDouble d, VDouble d' => d = d'
  | VUlong i, VUlong i' => i = i'
  | VUlong64 i, VUlong64 i' => i = i'
  | VBool b, VBool b' => b = b'
  | VString s, VString s' => s = s'
  | VRef p, VRef p' => p = p'
  | VList None, VList None => True
  | VList (Some (LList name p es)), VList (Some (LList name' d es')) =>
      name = name' /\ denotes_a w p d /\
      apply_all (map (fun e e' => match e, e' with Elem k p' cont, Elem k' d' cont' =>
                   k = k' /\ p' = p /\ d' = d /\ apply_all (map (is_tree w) cont) cont' end) es) es'
  | VObject None, VObject None => True
  | VObject (Some (Elem k p cont)), VObject (Some (Elem k' d cont')) =>
      k = k' /\ denotes_a w p d /\ apply_all (map (is_tree w) cont) cont'
  | _, _ => False
  end.

(** The list is the tree, with its null pointer as one. *)
Definition list_is_tree (w : world) (l : option lList) (t : option tree_list) : Prop :=
  is_tree w (VList l) (VList t).

Context (Hns : ns_ok ns).

Lemma denotes_a_ok w p d : denotes_a w p d -> adescr_ok d.
Proof.
  intros (fs & Hd). destruct (denotes_facts ns _ _ _ _ _ Hd) as (Ht & Hl & Hk).
  exists fs. split; [done|]. split; [done|lia].
Qed.

Lemma fields_at_type k fs : type_at ns k fs -> fields_at k = fs.
Proof.
  intros Ht. unfold fields_at. rewrite (type_at_descr _ _ _ Ht), (type_at_count _ _ _ Ht).
  by rewrite take_app_length.
Qed.

Lemma denotes_fields_at w p d : denotes_a w p d -> denotes ns w p (fst d) (fields_at (fst d)) (snd d).
Proof.
  intros (fs & Hd). destruct (denotes_facts ns _ _ _ _ _ Hd) as (Ht & _ & _).
  by rewrite (fields_at_type _ _ Ht).
Qed.

Lemma denotes_a_extends w w' p d : extends w w' -> denotes_a w p d -> denotes_a w' p d.
Proof. intros He (fs & Hd). exists fs. by eapply denotes_extends. Qed.

Lemma apply_all_impl {A} (ps qs : list (A -> Prop)) l :
  Forall2 (fun P Q => forall x, P x -> Q x) ps qs -> apply_all ps l -> apply_all qs l.
Proof.
  unfold apply_all. intros H. revert l.
  induction H as [|P Q ps qs HPQ H IH]; intros l Hl; inversion_clear Hl; constructor; auto.
Qed.

Lemma Forall_map_impl {A B} (f g : B -> A -> Prop) (l : list B) :
  Forall (fun b => forall x, f b x -> g b x) l ->
  Forall2 (fun P Q : A -> Prop => forall x, P x -> Q x) (map f l) (map g l).
Proof. induction 1; simpl; constructor; auto. Qed.

Lemma is_tree_extends w w' v t : extends w w' -> is_tree w v t -> is_tree w' v t.
Proof.
  intros He. revert t. induction v using multi_induction; intros [| | | | | |[[]|]|[[]|]|]; simpl; try done.
  - intros (Hn & Hd & Hes). split; [done|]. split; [by eapply denotes_a_extends|].
    eapply apply_all_impl; [|exact Hes]. apply Forall_map_impl.
    eapply Forall_impl; [exact H|]. intros [k' p cont] Hc [k'' d'' cont''] (-> & -> & -> & Hall).
    split; [done|]. split; [done|]. split; [done|]. eapply apply_all_impl; [|exact Hall].
    by apply Forall_map_impl.
  - intros (Hn & Hd & Hes). split; [done|]. split; [by eapply denotes_a_extends|].
    eapply apply_all_impl; [|exact Hes]. by apply Forall_map_impl.
Qed.

End NameSpace.

End CullTree.
