(* ===== verification/CullWire.v ===== *)
(** The wire format of CULL data: the sequence of integers, strings and doubles a value is
    packed as, as a function of the value and the descriptor table, and the proof that
    packing writes exactly that. *)

From S2P Require Import Prelude Pack PackProps CullDescr CullDescrFacts CullRegistry CullPack CullTree.
Import Pack PackProps CullDescr CullDescrFacts CullRegistry CullPack CullTree.

Module CullWire.

Section Wire.
Context (ns : option (list lNameSpace)).
Context `{Alloc : Allocator}.

(** What a pointer denotes, computed from the entries it leads to. *)
Definition abs_descr (w : world) (p : dptr) : adescr :=
  match entries ns w p with
  | Done es =>
      match ocs_cull_descr_static_for ns (nm (entry es 0)) with
      | Some (DStatic k) => (k, map (fun d => negb (is_absent d)) (take (count_entries es) es))
      | _ => (0%nat, [])
      end
  | _ => (0%nat, [])
  end.

(** ** The encoder *)

(** Items for a value of a type and a table, and the table behind it. *)
Definition encoder : Type := Z -> list dptr -> list item * list dptr.

Definition first_nm (d : adescr) : Z := nm (entry (fields_at ns (fst d)) 0).
Definition kept_count (d : adescr) : Z := Z.of_nat (length (kept (snd d))).

Definition enc_descr (w : world) (dp : dptr) (tab : list dptr) : list item * list dptr :=
  let d := abs_descr w dp in
  if all_kept (snd d) then
    ([Int32 CULL_PACK_DESCR_TYPE_REF; Int32 (first_nm d); Int32 (kept_count d)], tab)
  else
    match find_ptr 0 tab dp with
    | Some k => ([Int32 CULL_PACK_DESCR_TABLE_REF; Int32 k], tab)
    | None =>
        ([Int32 CULL_PACK_DESCR_TABLE_DEF; Int32 CULL_PACK_DESCR_BY_INDEX; Int32 (first_nm d);
          Int32 (kept_count d)] ++ map (fun pos : nat => Int32 pos) (kept (snd d)), tab ++ [dp])
    end.

Definition enc_zero (type : Z) : list item :=
  if (type =? lUlong64T) then [Int64 0]
  else if type =? lDoubleT then [Double 0]
  else if (type =? lStringT) || (type =? lHostT) then [Str None]
  else if type =? lRefT then []
  else [Int32 0].

Fixpoint enc_cont (fields : list lDescr) (cp : list encoder) (tab : list dptr) :
    list item * list dptr :=
  match fields, cp with
  | d :: fields, e :: cp =>
      let '(i1, tab1) :=
        if mt_do_transfer (mt d) then e (mt_get_type (mt d)) tab
        else (enc_zero (mt_get_type (mt d)), tab) in
      let '(i2, tab2) := enc_cont fields cp tab1 in
      (i1 ++ i2, tab2)
  | _, _ => ([], tab)
  end.

(** An element that is not free. *)
Definition enc_elem (w : world) (kind : cull_elem_kind) (dp : dptr) (cp : list encoder)
    (tab : list dptr) : list item * list dptr :=
  let '(its, tab) := enc_cont (adescr_fields ns (abs_descr w dp)) cp tab in
  (Int32 (elem_kind_to_wire kind) :: its, tab).

Fixpoint enc_elems (w : world) (es : list (cull_elem_kind * dptr * list encoder))
    (tab : list dptr) : list item * list dptr :=
  match es with
  | [] => ([Int32 0], tab)
  | (kind, dp, cp) :: es =>
      let '(i1, tab1) := enc_elem w kind dp cp tab in
      let '(i2, tab2) := enc_elems w es tab1 in
      (Int32 1 :: i1 ++ i2, tab2)
  end.

Fixpoint enc (w : world) (v : lMultiType) : encoder := fun type tab =>
  let elem (e : lListElem) :=
    match e with Elem kind dp cont => (kind, dp, map (enc w) cont) end in
  match v with
  | VZero => (enc_zero type, tab)
  | VDouble d => ([Double d], tab)
  | VUlong i => ([Int32 i], tab)
  | VUlong64 i => ([Int64 i], tab)
  | VBool b => ([Int32 (if b then 1 else 0)], tab)
  | VString s => ([Str s], tab)
  | VRef _ => ([], tab)
  | VList None => ([Int32 0], tab)
  | VList (Some (LList name dp es)) =>
      let '(i1, tab1) := enc_descr w dp tab in
      let '(i2, tab2) := enc_elems w (map elem es) tab1 in
      (Int32 1 :: Str name :: i1 ++ i2, tab2)
  | VObject None => ([Int32 0], tab)
  | VObject (Some (Elem kind dp cont)) =>
      let '(i1, tab1) := enc_descr w dp tab in
      let '(i2, tab2) := enc_elem w kind dp (map (enc w) cont) tab1 in
      (Int32 1 :: i1 ++ i2, tab2)
  end.

(** ** Packing writes the items *)

Context (Hns : ns_ok ns).

Lemma abs_denotes w p d : denotes_a ns w p d -> abs_descr w p = d.
Proof.
  intros (fs & Hd). destruct (denotes_facts ns _ _ _ _ _ Hd) as (Ht & Hl & Hk).
  destruct (denotes_entries ns _ _ _ _ _ Hd) as (es & He & Hv). unfold abs_descr. rewrite He.
  destruct fs as [|f fs'] eqn:Efs; [simpl in *; lia|]. rewrite <- Efs in *.
  assert (fs !! 0%nat = Some f) as Hf by (by rewrite Efs).
  rewrite (vw_nm _ _ _ Hv 0 f Hf), (static_for_spec ns Hns _ _ _ Ht Hf).
  destruct d as [k keep]. simpl in *. f_equal. rewrite (vw_count _ _ _ Hv).
  assert (length fs <= length es)%nat as Hle.
  { rewrite <- (vw_count _ _ _ Hv). clear. induction es; simpl; [lia|]. case_match; lia. }
  apply list_eq. intros i. rewrite list_lookup_fmap. destruct (decide (i < length fs)%nat) as [Hi|Hi].
  - rewrite lookup_take_lt by done. destruct (lookup_lt_is_Some_2 fs i Hi) as [g Hg].
    pose proof (vw_absent _ _ _ Hv i g Hg) as Ha. unfold entry in Ha.
    destruct (lookup_lt_is_Some_2 es i ltac:(lia)) as [e Hee]. rewrite Hee in *. simpl in *.
    destruct (lookup_lt_is_Some_2 keep i ltac:(lia)) as [b Hb]. rewrite Hb in *. simpl in Ha.
    rewrite Ha. by rewrite negb_involutive.
  - rewrite lookup_take_ge, !(lookup_ge_None_2 keep) by lia. done.
Qed.

(** The state of a packing function: [bs] is written, [tab] is the table, and the blocks
    of [w0] are still there. *)
Record writes (w0 : world) (s : st) (bs : list Z) (tab : list dptr) : Prop := {
  wr_pb : writing (s_pb s) bs;
  wr_reg : reg_ok ns (s_world s);
  wr_ext : extends w0 (s_world s);
  wr_tab : default [] (s_tab s) = tab;
}.

Definition emits {A} (w0 : world) (m : M A) (tab tab' : list dptr) (its : list item) (a : A) : Prop :=
  forall s bs, writes w0 s bs tab ->
    exists s', m s = Done (s', inl a) /\ writes w0 s' (bs ++ items_bytes its) tab'.

Lemma items_bytes_app i1 i2 : items_bytes (i1 ++ i2) = items_bytes i1 ++ items_bytes i2.
Proof. unfold items_bytes. by rewrite map_app, concat_app. Qed.

Lemma emits_ret {A} w0 tab (a : A) : emits w0 (mret a) tab tab [] a.
Proof. intros s bs Hw. exists s. rewrite app_nil_r. done. Qed.

Lemma emits_bind {A B} w0 (m : M A) (f : A -> M B) tab tab1 tab2 i1 i2 its a b :
  its = i1 ++ i2 ->
  emits w0 m tab tab1 i1 a -> emits w0 (f a) tab1 tab2 i2 b -> emits w0 (m ≫= f) tab tab2 its b.
Proof.
  intros -> Hm Hf s bs Hw. destruct (Hm s bs Hw) as (s1 & E1 & Hw1).
  destruct (Hf s1 _ Hw1) as (s2 & E2 & Hw2). exists s2.
  unfold mbind, M_bind. rewrite E1. cbn [mbind result_bind]. rewrite E2.
  by rewrite items_bytes_app, app_assoc.
Qed.

(** A step without output. *)
Lemma emits_silent {A B} w0 (m : M A) (f : A -> M B) tab tab1 tab2 its a b :
  emits w0 m tab tab1 [] a -> emits w0 (f a) tab1 tab2 its b -> emits w0 (m ≫= f) tab tab2 its b.
Proof. by apply emits_bind. Qed.

Lemma emits_ask {A} w0 (f : world -> result A) tab a :
  (forall w, extends w0 w -> f w = Done a) -> emits w0 (ask f) tab tab [] a.
Proof.
  intros Hf s bs Hw. exists s. unfold ask. rewrite (Hf _ (wr_ext _ _ _ _ Hw)).
  rewrite app_nil_r. done.
Qed.

Context (Hplenty : plenty).

Lemma pb_realloc_plenty h pb size :
  0 <= size -> exists h' pb', pb_realloc h pb size = (h', pb', true).
Proof.
  intros Hs. unfold pb_realloc, sge_realloc. destruct (Hplenty h size Hs) as [m Hm].
  destruct (alloc h size) as [h' o]. simpl in Hm. subst o. eauto.
Qed.

Lemma pack_item_plenty h pb bs it :
  writing pb bs -> exists h' pb', pack_item h pb it = Ok (h', pb', PACK_SUCCESS).
Proof.
  intros Hw. pose proof (pack_item_spec h pb bs it Hw) as Hs. pose proof (wr_used _ _ Hw) as Hu.
  assert (forall h' pb', pack_item h pb it <> Ok (h', pb', PACK_ENOMEM)) as Hno.
  { intros h' pb'. destruct it as [i|i|i|s]; simpl; try destruct s as [s|];
      unfold packint, packint64, packdouble, packstr, pack_fixed; rewrite (wr_real _ _ Hw).
    all: destruct (mem_size pb <? _); [|by (destruct (put _ _) as [?| |])].
    all: match goal with |- context [pb_realloc ?h0 ?pb0 ?sz] =>
           destruct (pb_realloc_plenty h0 pb0 sz) as (h1 & pb1 & ->) end.
    all: try (by (destruct (put _ _) as [?| |])); try (unfold CHUNK; lia).
    match goal with |- 0 <= grow_size ?f ?a ?b =>
      destruct (grow_size_spec f a b) as [H1 _]; [unfold grow_fuel; lia|lia] end. }
  destruct (pack_item h pb it) as [[[h' pb'] ret]| |]; [|done..].
  destruct Hs as [(-> & _)|(-> & _)]; [eauto|]. by destruct (Hno h' pb').
Qed.

Lemma emits_item w0 tab it (f : heap -> sge_pack_buffer -> outcome (heap * sge_pack_buffer * Z)) :
  (forall h pb, f h pb = pack_item h pb it) -> emits w0 (pack_with f) tab tab [it] tt.
Proof.
  intros Hf s bs [Hpb Hreg Hext Htab].
  destruct (pack_item_plenty (w_heap (s_world s)) (s_pb s) bs it Hpb) as (h' & pb' & E).
  pose proof (pack_item_spec (w_heap (s_world s)) (s_pb s) bs it Hpb) as Hs. rewrite E in Hs.
  destruct Hs as [(_ & Hw & _)|[? _]]; [|done].
  eexists. unfold pack_with, run. rewrite Hf, E. cbn [of_outcome mbind result_bind].
  split; [reflexivity|]. split; simpl; [|by destruct Hreg|done|done].
  unfold items_bytes. simpl. by rewrite app_nil_r.
Qed.

Lemma emits_pint w0 tab i : emits w0 (pint i) tab tab [Int32 i] tt.
Proof. by apply (emits_item w0 tab (Int32 i)). Qed.
Lemma emits_pint64 w0 tab i : emits w0 (pint64 i) tab tab [Int64 i] tt.
Proof. by apply (emits_item w0 tab (Int64 i)). Qed.
Lemma emits_pdouble w0 tab i : emits w0 (pdouble i) tab tab [Double i] tt.
Proof. by apply (emits_item w0 tab (Double i)). Qed.
Lemma emits_pstr w0 tab s : emits w0 (pstr s) tab tab [Str s] tt.
Proof. by apply (emits_item w0 tab (Str s)). Qed.

(** ** Descriptors *)

Lemma emits_ref w0 tab p d : denotes_a ns w0 p d -> emits w0 (ref ns p) tab tab [] (Some p).
Proof.
  intros Hd s bs [Hpb Hreg Hext Htab].
  destruct (denotes_a_extends ns _ _ _ _ Hext Hd) as (fs & Hd').
  destruct (ref_spec ns _ _ _ _ _ Hreg Hd') as (w' & E & Hreg' & Hg & _).
  eexists. unfold ref, upd. rewrite E. cbn [mbind result_bind]. split; [reflexivity|].
  rewrite app_nil_r. split; simpl; [done|done| |done].
  etrans; [exact Hext|]. by eapply gained_ptr_extends.
Qed.

Lemma emits_table w0 tab : emits w0 table tab tab [] tab.
Proof. intros s bs Hw. exists s. unfold table. rewrite (wr_tab _ _ _ _ Hw), app_nil_r. done. Qed.

Lemma emits_push w0 tab p : emits w0 (table_push p) tab (tab ++ [p]) [] tt.
Proof.
  intros s bs [Hpb Hreg Hext Htab]. eexists. split; [reflexivity|]. rewrite app_nil_r.
  split; simpl; [done..|]. by rewrite Htab.
Qed.

Lemma emits_pack_table w0 tab : emits w0 pack_table tab tab [] true.
Proof.
  intros s bs [Hpb Hreg Hext Htab]. rewrite app_nil_r. unfold pack_table.
  destruct (s_tab s) as [t|] eqn:Et.
  { exists s. split; [done|]. split; try done. by rewrite Et. }
  destruct (Hplenty (w_heap (s_world s)) 24 ltac:(lia)) as [m Hm].
  unfold calloc_ok, upd. destruct (alloc _ 24) as [h o]. simpl in Hm. subst o.
  cbn [mbind result_bind]. rewrite bool_decide_eq_true_2 by eauto. cbn [mbind result_bind].
  eexists. split; [reflexivity|]. split; simpl; [done|by destruct Hreg|done|done].
Qed.

Lemma emits_pack_ints w0 tab l : emits w0 (pack_ints l) tab tab (map Int32 l) tt.
Proof.
  induction l as [|i l IH]; simpl; [apply emits_ret|].
  eapply (emits_bind _ _ _ _ _ _ [Int32 i]); [done|apply emits_pint|exact IH].
Qed.

(** Reading through a pointer that denotes. *)
Section Denotes.
Context (w0 : world) (tab : list dptr) (p : dptr) (d : adescr).
Context (Hd : denotes_a ns w0 p d).

Lemma emits_count : emits w0 (count_present_of ns p) tab tab [] (kept_count d).
Proof.
  apply emits_ask. intros w He. destruct (denotes_a_extends ns _ _ _ _ He Hd) as (fs & Hd').
  by rewrite (denotes_count ns _ _ _ _ _ Hd').
Qed.

Lemma emits_is_counted : emits w0 (is_counted ns p) tab tab [] (negb (all_kept (snd d))).
Proof.
  apply emits_ask. intros w He. destruct (denotes_a_extends ns _ _ _ _ He Hd) as (fs & Hd').
  by apply (denotes_counted ns _ _ _ _ _ Hd').
Qed.

Lemma emits_is_static : emits w0 (is_static ns p) tab tab [] (all_kept (snd d)).
Proof.
  apply emits_ask. intros w He. destruct (denotes_a_extends ns _ _ _ _ He Hd) as (fs & Hd').
  by apply (is_static_spec ns Hns _ _ _ _ _ Hd').
Qed.

Lemma emits_present :
  emits w0 (present ns p) tab tab [] (imap (fun slot pos => (pos, Z.of_nat slot)) (kept (snd d))).
Proof.
  apply emits_ask. intros w He. destruct (denotes_a_extends ns _ _ _ _ He Hd) as (fs & Hd').
  by apply (denotes_present ns _ _ _ _ _ Hd').
Qed.

(** The entries do not change while the block is there. *)
Lemma emits_entries :
  exists es, view (fields_at ns (fst d)) (snd d) es /\
    emits w0 (descr_entries ns p) tab tab [] es.
Proof.
  pose proof (denotes_fields_at ns _ _ _ Hd) as Hd'.
  destruct (denotes_entries ns _ _ _ _ _ Hd') as (es & He & Hv). exists es. split; [done|].
  apply emits_ask. intros w Hx. destruct p as [k|l|]; simpl in *; [done| |done].
  destruct (w_mem w0 !! l) as [c|] eqn:Ec; [|done]. destruct (Hx l c Ec) as [r ->].
  by injection He as <-.
Qed.

End Denotes.

Lemma view_first fs keep es k f :
  type_at ns k fs -> view fs keep es -> fs !! 0%nat = Some f -> nm (entry es 0) = nm (entry fs 0).
Proof. intros _ Hv Hf. rewrite (vw_nm _ _ _ Hv 0 f Hf). unfold entry. by rewrite Hf. Qed.

Lemma adescr_first d :
  adescr_ok ns d -> exists f, fields_at ns (fst d) !! 0%nat = Some f /\
    type_at ns (fst d) (fields_at ns (fst d)) /\ first_nm d = nm f /\
    length (fields_at ns (fst d)) = length (snd d) /\ 0 < kept_count d.
Proof.
  intros (fs & Ht & Hl & Hk). unfold first_nm, kept_count. rewrite (fields_at_type ns _ _ Ht).
  destruct (type_at_fields ns _ _ Ht) as (_ & Hne & _).
  destruct fs as [|f fs']; [done|]. exists f. split; [done|]. split; [done|]. split; [done|].
  split; [done|lia].
Qed.

Lemma type_indices_view k fs keep es tes (ks : list nat) (off : nat) :
  type_at ns k fs -> view fs keep es -> view fs (repeat true (length fs)) tes ->
  Forall (fun pos => (pos < length fs)%nat) ks ->
  type_indices ns (DStatic k) tes es (imap (fun slot pos => (pos, Z.of_nat (slot + off))) ks) =
  Some (map Z.of_nat ks).
Proof.
  intros Ht Hv Htv Hks. revert off. induction Hks as [|pos ks Hpos Hks IH]; intros off; simpl; [done|].
  destruct (lookup_lt_is_Some_2 fs pos Hpos) as [f Hf].
  rewrite (vw_nm _ _ _ Hv _ _ Hf), (static_containing_spec ns Hns _ _ _ _ Ht Hf).
  unfold mt_get_type. rewrite (vw_flag _ _ _ Hv _ _ 0xFF Hf), (vw_flag _ _ _ Htv _ _ 0xFF Hf) by done.
  rewrite bool_decide_eq_true_2, Z.eqb_refl by done. cbn [andb].
  rewrite (imap_ext _ (fun slot pos => (pos, Z.of_nat (slot + S off)))).
  - by rewrite IH.
  - intros i x _. simpl. do 2 f_equal. lia.
Qed.

Lemma kept_in_range (fs : list lDescr) keep :
  length fs = length keep -> Forall (fun pos => (pos < length fs)%nat) (kept keep).
Proof.
  intros Hl. apply Forall_forall. intros pos Hin. apply kept_from_bounds in Hin. lia.
Qed.

Lemma emits_by_index w0 tab p d es :
  denotes_a ns w0 p d -> view (fields_at ns (fst d)) (snd d) es ->
  exists tes, emits w0
    (by_index ns es (kept_count d) (imap (fun slot pos => (pos, Z.of_nat slot)) (kept (snd d))))
    tab tab [] (Some (tes, map Z.of_nat (kept (snd d)))) /\ nm (entry tes 0) = first_nm d.
Proof.
  intros Hd Hv. pose proof (denotes_a_ok ns _ _ _ Hd) as Hok.
  destruct (adescr_first d Hok) as (f & Hf & Ht & Hn & Hl & Hk).
  assert (denotes_a ns w0 (DStatic (fst d)) (fst d, repeat true (length (fields_at ns (fst d)))))
    as Hst by (by eexists).
  destruct (emits_entries w0 tab _ _ Hst) as (tes & Htv & Hem). cbn [fst snd] in *.
  exists tes. split.
  - unfold by_index. rewrite (proj2 (Z.ltb_lt 0 (kept_count d)) Hk).
    rewrite (vw_nm _ _ _ Hv _ _ Hf), (static_containing_spec ns Hns _ _ _ _ Ht Hf).
    eapply emits_silent; [exact Hem|]. simpl.
    pose proof (type_indices_view (fst d) _ (snd d) es tes (kept (snd d)) 0 Ht Hv Htv
      (kept_in_range _ _ Hl)) as Hti.
    rewrite (imap_ext _ (fun slot pos => (pos, Z.of_nat slot))) in Hti.
    + rewrite Hti. apply emits_ret.
    + intros i x _. simpl. do 2 f_equal. lia.
  - rewrite (vw_nm _ _ _ Htv _ _ Hf). done.
Qed.

Lemma emits_shared w0 tab p d :
  denotes_a ns w0 p d ->
  emits w0 (pack_shared_descr ns p) tab (snd (enc_descr w0 p tab)) (fst (enc_descr w0 p tab)) tt.
Proof.
  intros Hd. unfold pack_shared_descr, enc_descr. rewrite (abs_denotes _ _ _ Hd).
  destruct (emits_entries w0 tab _ _ Hd) as (es & Hv & Hes).
  destruct (adescr_first d (denotes_a_ok ns _ _ _ Hd)) as (f & Hf & Ht & Hn & Hl & Hk).
  eapply emits_silent; [by apply emits_count|]. eapply emits_silent; [by apply emits_is_counted|].
  rewrite negb_involutive. destruct (all_kept (snd d)); cbn [fst snd].
  { eapply (emits_bind _ _ _ _ _ _ [_] [_; _]); [done|apply emits_pint|].
    eapply emits_silent; [exact Hes|]. rewrite (vw_nm _ _ _ Hv _ _ Hf), <- Hn.
    eapply (emits_bind _ _ _ _ _ _ [_] [_]); [done|apply emits_pint|apply emits_pint]. }
  eapply emits_silent; [apply emits_pack_table|]. cbn [negb].
  eapply emits_silent; [apply emits_table|].
  destruct (find_ptr 0 tab p) as [k|]; cbn [fst snd].
  { eapply (emits_bind _ _ _ _ _ _ [_] [_]); [done|apply emits_pint|apply emits_pint]. }
  unfold pack_table_def. eapply emits_silent; [by eapply emits_ref|].
  eapply emits_silent; [apply emits_push|].
  destruct (emits_entries w0 (tab ++ [p]) _ _ Hd) as (es' & Hv' & Hes').
  eapply emits_silent; [exact Hes'|]. eapply emits_silent; [by apply emits_present|].
  destruct (emits_by_index w0 (tab ++ [p]) p d es' Hd Hv') as (tes & Hbi & Hnm).
  eapply emits_silent; [exact Hbi|]. cbv beta iota. rewrite Hnm.
  eapply (emits_bind _ _ _ _ _ _ [_]); [done|apply emits_pint|].
  eapply (emits_bind _ _ _ _ _ _ [_]); [done|apply emits_pint|].
  eapply (emits_bind _ _ _ _ _ _ [_]); [done|apply emits_pint|].
  eapply (emits_bind _ _ _ _ _ _ [_]); [done|apply emits_pint|].
  rewrite <- (map_map Z.of_nat Int32). apply emits_pack_ints.
Qed.

Lemma emits_descr w0 tab p d :
  denotes_a ns w0 p d ->
  emits w0 (cull_pack_descr ns p 0) tab (snd (enc_descr w0 p tab)) (fst (enc_descr w0 p tab)) tt.
Proof.
  intros Hd. unfold cull_pack_descr. rewrite Z.eqb_refl.
  eapply emits_silent; [by apply emits_is_counted|]. eapply emits_silent; [by apply emits_is_static|].
  rewrite orb_comm, orb_negb_r. by eapply emits_shared.
Qed.

(** ** Values *)

Lemma well_typed_packable t type : well_typed ns t type -> packable type.
Proof.
  unfold packable. destruct t as [| | | | | |[[]|]|[[]|]|]; simpl; try tauto;
    intros H; repeat destruct H as [H ?]; tauto.
Qed.

Lemma emits_zero w0 tab type :
  packable type -> emits w0 (pack_zero None type 0) tab tab (enc_zero type) tt.
Proof.
  unfold packable, pack_zero, pack_value.
  intros [->|[->|[->|[->|[->|[->|[->|[->| ->]]]]]]]]; cbv [enc_zero];
    first [ apply emits_ret | apply emits_pint
          | eapply emits_silent; [apply emits_ret|];
            first [apply emits_pint | apply emits_pint64 | apply emits_pdouble | apply emits_pstr] ].
Qed.

(** The packer of a value writes what its encoder says, for the types it has. *)
Definition packs_as (w0 : world) (pk : packer) (ek : encoder) (P : Z -> Prop) : Prop :=
  forall type tab, P type ->
    packable type /\ emits w0 (pk None type 0) tab (snd (ek type tab)) (fst (ek type tab)) tt.

Lemma view_type fs keep es i f :
  view fs keep es -> fs !! i = Some f -> mt_get_type (mt (entry es i)) = mt_get_type (mt f).
Proof. intros Hv Hf. by apply (vw_flag _ _ _ Hv _ _ 0xFF Hf). Qed.

Lemma view_transfer fs keep es i f :
  view fs keep es -> fs !! i = Some f -> mt_do_transfer (mt (entry es i)) = mt_do_transfer (mt f).
Proof.
  intros Hv Hf. unfold mt_do_transfer, has_flag.
  by rewrite (vw_flag _ _ _ Hv _ _ CULL_NO_TRANSFER Hf).
Qed.

Lemma emits_fields w0 fs keep es (ks : list nat) (off : nat) pks eks ps tab :
  view fs keep es -> Forall (fun pos => (pos < length fs)%nat) ks ->
  Forall3 (packs_as w0) pks eks ps ->
  cont_ok (omap (fun pos : nat => fs !! pos) ks) (drop off ps) ->
  emits w0
    (pack_fields_cont pks es 0 (imap (fun slot pos => (pos, Z.of_nat (slot + off))) ks)) tab
    (snd (enc_cont (omap (fun pos : nat => fs !! pos) ks) (drop off eks) tab))
    (fst (enc_cont (omap (fun pos : nat => fs !! pos) ks) (drop off eks) tab)) tt.
Proof.
  intros Hv Hks Hps. revert off tab.
  induction Hks as [|pos ks Hpos Hks IH]; intros off tab Hok; simpl; [apply emits_ret|].
  destruct (lookup_lt_is_Some_2 fs pos Hpos) as [f Hf]. simpl in Hok. rewrite Hf in *.
  pose proof (Hok 0%nat f eq_refl) as H0. destruct (drop off ps !! 0%nat) as [P|] eqn:HP; [|done].
  rewrite lookup_drop, Nat.add_0_r in HP.
  destruct (Forall3_lookup_r _ _ _ _ _ _ Hps HP) as (pk & ek & Hpk & Hek & Has).
  destruct (Has _ tab H0) as [Hpackable Hem].
  assert (drop off eks = ek :: drop (S off) eks) as -> by (by apply drop_S).
  assert (drop off ps = P :: drop (S off) ps) as Hdps by (by apply drop_S).
  rewrite (view_type _ _ _ _ _ Hv Hf), (view_transfer _ _ _ _ _ Hv Hf). cbn [enc_cont].
  rewrite (proj2 (Z.ltb_ge (Z.of_nat off) 0)) by lia. rewrite Nat2Z.id. unfold packer in Hpk |- *. rewrite Hpk.
  assert (cont_ok (omap (fun pos : nat => fs !! pos) ks) (drop (S off) ps)) as Hok'.
  { intros slot d Hd. pose proof (Hok (S slot) d Hd) as H1. rewrite Hdps in H1. done. }
  rewrite (imap_ext _ (fun slot pos => (pos, Z.of_nat (slot + S off)))) by (intros; simpl; do 2 f_equal; lia).
  destruct (mt_do_transfer (mt f)); cbn [orb].
  - specialize (IH (S off) (snd (ek (mt_get_type (mt f)) tab)) Hok').
    destruct (ek (mt_get_type (mt f)) tab) as [i1 tab1]. cbn [fst snd] in *.
    destruct (enc_cont _ (drop (S off) eks) tab1) as [i2 tab2]. cbn [fst snd] in *.
    eapply emits_bind; [done|exact Hem|exact IH].
  - specialize (IH (S off) tab Hok').
    destruct (enc_cont _ (drop (S off) eks) tab) as [i2 tab2]. cbn [fst snd] in *.
    eapply emits_bind; [done|by apply emits_zero|exact IH].
Qed.

Lemma adescr_fields_range d : adescr_ok ns d ->
  Forall (fun pos => (pos < length (fields_at ns (fst d)))%nat) (kept (snd d)).
Proof.
  intros (fs & Ht & Hl & _). rewrite (fields_at_type ns _ _ Ht). by apply kept_in_range.
Qed.

Lemma emits_elem w0 p d pks eks ps kind tab :
  denotes_a ns w0 p d -> kind <> FREE_ELEM ->
  Forall3 (packs_as w0) pks eks ps -> cont_ok (adescr_fields ns d) ps ->
  emits w0 (pack_elem_cont ns kind p pks None 0) tab
    (snd (enc_elem w0 kind p eks tab)) (fst (enc_elem w0 kind p eks tab)) tt.
Proof.
  intros Hd Hkind Hps Hok. unfold pack_elem_cont, enc_elem, cull_pack_cont.
  rewrite (abs_denotes _ _ _ Hd).
  destruct (emits_entries w0 tab _ _ Hd) as (es & Hv & Hes).
  pose proof (emits_fields w0 _ _ es (kept (snd d)) 0 pks eks ps tab Hv
    (adescr_fields_range _ (denotes_a_ok ns _ _ _ Hd)) Hps Hok) as Hf.
  rewrite (imap_ext _ (fun slot pos => (pos, Z.of_nat slot))) in Hf
    by (intros; simpl; do 2 f_equal; lia).
  change (drop 0 eks) with eks in Hf. fold (adescr_fields ns d) in Hf.
  destruct (enc_cont (adescr_fields ns d) eks tab) as [its tab']. cbn [fst snd] in *.
  eapply (emits_bind _ _ _ _ _ _ [_] its); [done|apply emits_pint|].
  rewrite bool_decide_eq_false_2 by done.
  eapply emits_silent; [apply emits_ret|]. eapply emits_silent; [exact Hes|].
  eapply emits_silent; [by apply emits_present|]. exact Hf.
Qed.

(** The values of an element, as far as the induction has come. *)
Lemma forall3_packs w0 cont (cont' : list tree) :
  Forall (fun v => forall t, is_tree ns w0 v t ->
    packs_as w0 (cull_pack_switch ns v) (enc w0 v) (well_typed ns t)) cont ->
  apply_all (map (is_tree ns w0) cont) cont' ->
  Forall3 (packs_as w0) (map (cull_pack_switch ns) cont) (map (enc w0) cont)
    (map (well_typed ns) cont').
Proof.
  unfold apply_all. intros H. revert cont'.
  induction H as [|v cont Hv H IH]; intros cont' Ha; inversion_clear Ha; constructor; auto.
Qed.

Lemma emits_elems w0 p d (es : list lListElem) (es' : list tree_elem) tab :
  denotes_a ns w0 p d ->
  Forall (fun e => Forall (fun v => forall t, is_tree ns w0 v t ->
    packs_as w0 (cull_pack_switch ns v) (enc w0 v) (well_typed ns t)) (e_cont e)) es ->
  apply_all (map (fun e e' => match e, e' with Elem k p' cont, Elem k' d' cont' =>
    k = k' /\ p' = p /\ d' = d /\ apply_all (map (is_tree ns w0) cont) cont' end) es) es' ->
  Forall id (map (fun e => match e with Elem kind d' cont =>
    kind = BOUND_ELEM /\ d' = d /\ cont_ok (adescr_fields ns d) (map (well_typed ns) cont) end) es') ->
  let enced := enc_elems w0 (map (fun e => match e with Elem kind dp cont =>
    (kind, dp, map (enc w0) cont) end) es) tab in
  emits w0 (pack_elems ns (map (fun e => match e with Elem kind dp cont =>
    (kind, dp, map (cull_pack_switch ns) cont) end) es) None 0) tab (snd enced) (fst enced) tt.
Proof.
  intros Hd Hes. revert es' tab.
  induction Hes as [|[k p' cont] es Hc Hes IH]; intros [|[k' d' cont'] es'] tab Ha Hw enced;
    inversion Ha as [|? ? ? ? He Ha']; subst; simpl in Hw; [apply emits_pint|].
  destruct He as (<- & -> & -> & Hcont). apply Forall_cons in Hw as [(-> & _ & Hok) Hw'].
  subst enced. cbn [map enc_elems pack_elems].
  pose proof (emits_elem w0 p d _ _ _ BOUND_ELEM tab Hd ltac:(done)
    (forall3_packs w0 cont cont' Hc Hcont) Hok) as He.
  destruct (enc_elem w0 BOUND_ELEM p (map (enc w0) cont) tab) as [i1 tab1]. cbn [fst snd] in He.
  specialize (IH es' tab1 Ha' Hw'). cbv zeta in IH.
  destruct (enc_elems w0 _ tab1) as [i2 tab2]. cbn [fst snd] in *.
  eapply (emits_bind _ _ _ _ _ _ [_]); [done|apply emits_pint|].
  eapply emits_bind; [done|exact He|exact IH].
Qed.

Lemma emits_switch w0 v t :
  is_tree ns w0 v t -> packs_as w0 (cull_pack_switch ns v) (enc w0 v) (well_typed ns t).
Proof.
  revert t. induction v using multi_induction;
    intros [| | | | | |[[name' d' es']|]|[[k' d' cont']|]|] Ht type tab Hw; try done;
    (split; [by eapply well_typed_packable|]); simpl in Ht, Hw.
  - apply (emits_zero w0 tab type Hw).
  - destruct Hw as [-> _]. subst. eapply emits_silent; [apply emits_ret|apply emits_pdouble].
  - destruct Hw as [-> _]. subst. eapply emits_silent; [apply emits_ret|apply emits_pint].
  - destruct Hw as [-> _]. subst. eapply emits_silent; [apply emits_ret|apply emits_pint64].
  - subst. eapply emits_silent; [apply emits_ret|apply emits_pint].
  - destruct Hw as [[-> | ->] _]; subst; (eapply emits_silent; [apply emits_ret|apply emits_pstr]).
  - subst. apply emits_ret.
  - subst. apply emits_pint.
  - destruct Hw as (-> & _ & _ & Hw). destruct Ht as (-> & Hd & Ha).
    pose proof (emits_descr w0 tab _ _ Hd) as Hde. cbn [enc].
    destruct (enc_descr w0 d tab) as [i1 tab1]. cbn [fst snd] in Hde.
    pose proof (emits_elems w0 d d' es es' tab1 Hd H Ha Hw) as Hes. cbv zeta in Hes.
    destruct (enc_elems w0 _ tab1) as [i2 tab2]. cbn [fst snd] in *.
    change (cull_pack_switch ns (VList (Some (LList name' d es))) None lListT 0) with
      (pack_list ns (Some (name', d, map (fun e => match e with Elem kind dp cont =>
         (kind, dp, map (cull_pack_switch ns) cont) end) es)) None lListT 0).
    eapply (emits_bind _ _ _ _ _ _ [_]); [done|apply emits_pint|].
    eapply (emits_bind _ _ _ _ _ _ [_]); [done|apply emits_pstr|].
    eapply emits_bind; [done|exact Hde|exact Hes].
  - subst. apply emits_pint.
  - destruct Hw as (-> & Hk & _ & Hok). destruct Ht as (-> & Hd & Ha).
    pose proof (emits_descr w0 tab _ _ Hd) as Hde. cbn [enc].
    destruct (enc_descr w0 d tab) as [i1 tab1]. cbn [fst snd] in Hde.
    pose proof (emits_elem w0 d d' _ _ _ k' tab1 Hd Hk (forall3_packs w0 cont cont' H Ha) Hok) as He.
    destruct (enc_elem w0 k' d _ tab1) as [i2 tab2]. cbn [fst snd] in *.
    eapply (emits_bind _ _ _ _ _ _ [_]); [done|apply emits_pint|].
    eapply emits_bind; [done|exact Hde|exact He].
Qed.

End Wire.

End CullWire.
