(* ===== verification/CullUnwire.v ===== *)
(** Unpacking reads back what packing wrote: from the items of a value the receiver builds
    the tree that arrives, whatever its registry already holds. *)

From S2P Require Import Prelude Pack PackProps CullDescr CullDescrFacts CullRegistry CullPack CullTree CullWire.
Import Pack PackProps CullDescr CullDescrFacts CullRegistry CullPack CullTree CullWire.

Module CullUnwire.

Section Unwire.
Context (ns : option (list lNameSpace)) (Hns : ns_ok ns).
Context `{Alloc : Allocator} (Hplenty : plenty).

(** The state of an unpacking function: [rest] is not read yet, the table denotes [tab]. *)
Record reads (s : st) (rest : list Z) (tab : list adescr) : Prop := {
  rs_pb : reading (s_pb s) rest;
  rs_reg : reg_ok ns (s_world s);
  rs_tab : Forall2 (denotes_a ns (s_world s)) (default [] (s_tab s)) tab;
}.

(** From any state behind [w0] the function reads exactly the items and returns a value
    with [P]. *)
Definition takes {A} (w0 : world) (m : M A) (its : list item) (tab tab' : list adescr)
    (P : world -> A -> Prop) : Prop :=
  forall s rest, extends w0 (s_world s) -> reads s (items_bytes its ++ rest) tab ->
    exists s' a, m s = Done (s', inl a) /\ reads s' rest tab' /\
      extends (s_world s) (s_world s') /\ P (s_world s') a.

Lemma takes_ret {A} w0 tab (a : A) (P : world -> A -> Prop) :
  (forall w, extends w0 w -> P w a) -> takes w0 (mret a) [] tab tab P.
Proof. intros HP s rest He Hr. exists s, a. split; [done|]. split; [done|]. split; [done|]. auto. Qed.

Lemma takes_bind {A B} w0 (m : M A) (f : A -> M B) tab tab1 tab2 i1 i2 its P Q :
  its = i1 ++ i2 -> takes w0 m i1 tab tab1 P ->
  (forall w a, extends w0 w -> P w a -> takes w (f a) i2 tab1 tab2 Q) ->
  takes w0 (m ≫= f) its tab tab2 Q.
Proof.
  intros -> Hm Hf s rest He Hr. rewrite items_bytes_app, <- app_assoc in Hr.
  destruct (Hm s _ He Hr) as (s1 & a & E1 & Hr1 & He1 & HP).
  assert (extends w0 (s_world s1)) as He01 by (by etrans).
  destruct (Hf _ a He01 HP s1 rest ltac:(done) Hr1) as (s2 & b & E2 & Hr2 & He2 & HQ).
  exists s2, b. unfold mbind, M_bind. rewrite E1. cbn [mbind result_bind]. split; [done|].
  split; [done|]. split; [by etrans|done].
Qed.

Lemma takes_silent {A B} w0 (m : M A) (f : A -> M B) tab tab1 tab2 its P Q :
  takes w0 m [] tab tab1 P ->
  (forall w a, extends w0 w -> P w a -> takes w (f a) its tab1 tab2 Q) ->
  takes w0 (m ≫= f) its tab tab2 Q.
Proof. by apply takes_bind. Qed.

Lemma takes_weaken {A} w0 (m : M A) its tab tab' (P Q : world -> A -> Prop) :
  takes w0 m its tab tab' P -> (forall w a, extends w0 w -> P w a -> Q w a) ->
  takes w0 m its tab tab' Q.
Proof.
  intros Hm HPQ s rest He Hr. destruct (Hm s rest He Hr) as (s' & a & ? & ? & ? & HP).
  exists s', a. do 3 (split; [done|]). apply HPQ; [by etrans|done].
Qed.

(** A later world promises more. *)
Lemma takes_later {A} w0 w1 (m : M A) its tab tab' P :
  takes w0 m its tab tab' P -> extends w0 w1 -> takes w1 m its tab tab' P.
Proof. intros Hm He s rest He1 Hr. apply Hm; [|done]. by etrans. Qed.

Lemma takes_on_error {A} w0 (m : M A) c its tab tab' P :
  takes w0 m its tab tab' P -> takes w0 (on_error m c) its tab tab' P.
Proof.
  intros Hm s rest He Hr. destruct (Hm s rest He Hr) as (s' & a & E & ?). exists s', a.
  unfold on_error. by rewrite E.
Qed.

Lemma takes_ask {A} w0 (f : world -> result A) tab a :
  (forall w, extends w0 w -> f w = Done a) -> takes w0 (ask f) [] tab tab (fun _ x => x = a).
Proof.
  intros Hf s rest He Hr. exists s, a. unfold ask. rewrite (Hf _ He). done.
Qed.

(** An operation on the world that keeps the blocks. *)
Lemma takes_upd {A} w0 (f : world -> result (world * A)) tab (P : world -> A -> Prop) :
  (forall w, extends w0 w -> reg_ok ns w ->
     exists w' a, f w = Done (w', a) /\ reg_ok ns w' /\ extends w w' /\ P w' a) ->
  takes w0 (upd f) [] tab tab P.
Proof.
  intros Hf s rest He [Hpb Hreg Htab].
  destruct (Hf _ He Hreg) as (w' & a & E & Hreg' & Hx & HP).
  eexists _, a. unfold upd. rewrite E. cbn [mbind result_bind]. split; [reflexivity|].
  split; [|done]. split; simpl; [done|done|].
  eapply Forall2_impl; [exact Htab|]. intros. by eapply denotes_a_extends.
Qed.

Lemma set_heap_reg h w : reg_ok ns w -> reg_ok ns (set_heap h w).
Proof. by intros []. Qed.

Lemma set_heap_extends h w : extends w (set_heap h w).
Proof. intros l c Hc. exists (refs (c_h c)). by rewrite set_refs_same. Qed.

Lemma takes_calloc w0 n tab : 0 <= n -> takes w0 (calloc_ok n) [] tab tab (fun _ b => b = true).
Proof.
  intros Hn. apply takes_upd. intros w _ Hr.
  destruct (Hplenty (w_heap w) n Hn) as [m Hm]. destruct (alloc (w_heap w) n) as [h o].
  simpl in Hm. subst o. eexists _, _. split; [reflexivity|].
  split; [by apply set_heap_reg|]. split; [apply set_heap_extends|].
  by rewrite bool_decide_eq_true_2 by eauto.
Qed.

(** ** Items *)

Lemma unpackstr_plenty h pb rest h' pb' s ret :
  reading pb rest -> unpackstr h pb = Ok (h', pb', s, ret) -> ret <> PACK_ENOMEM.
Proof.
  intros Hr. rewrite (unpackstr_spec _ _ _ Hr). destruct rest as [|b rest]; [by intros [= <- <- <- <-]|].
  destruct (b =? 0); [by intros [= <- <- <- <-]|].
  destruct (find_nul _) as [k|]; [|by intros [= <- <- <- <-]].
  destruct (Hplenty h (Z.of_nat k + 1) ltac:(lia)) as [m Hm].
  destruct (alloc h _) as [h1 o]. simpl in Hm. subst o. by intros [= <- <- <- <-].
Qed.

Lemma takes_run {A} w0 (f : world -> sge_pack_buffer -> result (world * sge_pack_buffer * A * Z))
    its tab a :
  (forall w pb rest, reading pb (items_bytes its ++ rest) ->
     exists h pb', f w pb = Done (set_heap h w, pb', a, PACK_SUCCESS) /\ reading pb' rest) ->
  takes w0 (run f) its tab tab (fun _ x => x = a).
Proof.
  intros Hf s rest He [Hpb Hreg Htab].
  destruct (Hf (s_world s) _ _ Hpb) as (h & pb' & E & Hr). eexists _, a.
  unfold run. rewrite E. cbn [mbind result_bind]. split; [reflexivity|].
  split; [|split; [apply set_heap_extends|done]].
  split; simpl; [done|by apply set_heap_reg|].
  eapply Forall2_impl; [exact Htab|]. intros p d. by destruct p.
Qed.

Lemma items_bytes_one it : items_bytes [it] = item_bytes it.
Proof. unfold items_bytes. simpl. by rewrite app_nil_r. Qed.

Lemma takes_word w0 tab it (f : sge_pack_buffer -> outcome (sge_pack_buffer * Z * Z)) (n : nat) v :
  item_bytes it = be_bytes n v -> 0 <= v < 256 ^ n -> (forall pb, f pb = unpack_fixed pb n) ->
  takes w0 (unpack_with f) [it] tab tab (fun _ a => a = v).
Proof.
  intros Hb Hv Hf. apply takes_run. intros w pb rest Hr. rewrite items_bytes_one, Hb in Hr.
  destruct (unpack_fixed_be _ _ _ _ Hr Hv) as [E Hr']. rewrite Hf, E.
  exists (w_heap w), (advance pb n). by destruct w.
Qed.

Lemma takes_uint w0 tab i : is_u32 i -> takes w0 uint [Int32 i] tab tab (fun _ a => a = i).
Proof. intros Hi. by apply (takes_word w0 tab (Int32 i) unpackint 4). Qed.
Lemma takes_uint64 w0 tab i : is_u64 i -> takes w0 uint64 [Int64 i] tab tab (fun _ a => a = i).
Proof. intros Hi. by apply (takes_word w0 tab (Int64 i) unpackint64 8). Qed.
Lemma takes_udouble w0 tab i : is_u64 i -> takes w0 udouble [Double i] tab tab (fun _ a => a = i).
Proof. intros Hi. by apply (takes_word w0 tab (Double i) unpackdouble 8). Qed.

Lemma takes_ustr w0 tab s :
  string_ok s -> takes w0 ustr [Str s] tab tab (fun _ a => a = arrived_string s).
Proof.
  intros Hs. apply takes_run. intros w pb rest Hr. rewrite items_bytes_one in Hr.
  destruct (unpack_item_spec (w_heap w) pb (Str s) rest Hs Hr)
    as [(h' & pb' & E & Hr' & _)|(h' & x & E)]; cbn [unpack_item] in E;
    destruct (unpackstr (w_heap w) pb) as [[[[h1 pb1] s1] ret]| |] eqn:Eu; try done;
    cbn [mbind outcome_bind] in E; injection E as -> -> Hx ->.
  - exists h', pb'. cbn [of_outcome mbind result_bind]. split; [|done]. do 4 f_equal.
    destruct s as [[|]|]; simpl in *; congruence.
  - by destruct (unpackstr_plenty _ _ _ _ _ _ _ Hr Eu).
Qed.

(** ** Descriptors *)

Section Denotes.
Context (w0 : world) (tab : list adescr) (p : dptr) (d : adescr) (Hd : denotes_a ns w0 p d).

Lemma takes_count : takes w0 (count_present_of ns p) [] tab tab (fun _ n => n = kept_count d).
Proof.
  apply takes_ask. intros w He. destruct (denotes_a_extends ns _ _ _ _ He Hd) as (fs & Hd').
  by rewrite (denotes_count ns _ _ _ _ _ Hd').
Qed.

Lemma takes_present :
  takes w0 (present ns p) [] tab tab
    (fun _ fs => fs = imap (fun slot pos => (pos, Z.of_nat slot)) (kept (snd d))).
Proof.
  apply takes_ask. intros w He. destruct (denotes_a_extends ns _ _ _ _ He Hd) as (fs & Hd').
  by rewrite (denotes_present ns _ _ _ _ _ Hd').
Qed.

Lemma takes_entries :
  takes w0 (descr_entries ns p) [] tab tab (fun _ es => view (fields_at ns (fst d)) (snd d) es).
Proof.
  intros s rest He Hr. pose proof (denotes_fields_at ns _ _ _ (denotes_a_extends ns _ _ _ _ He Hd)) as Hd'.
  destruct (denotes_entries ns _ _ _ _ _ Hd') as (es & E & Hv). exists s, es.
  unfold descr_entries, ask. by rewrite E.
Qed.

Lemma takes_ref :
  takes w0 (ref ns p) [] tab tab (fun w q => q = Some p /\ denotes_a ns w p d).
Proof.
  apply takes_upd. intros w He Hr. destruct (denotes_a_extends ns _ _ _ _ He Hd) as (fs & Hd').
  destruct (ref_spec ns _ _ _ _ _ Hr Hd') as (w' & E & Hr' & Hg & Hd'' & _).
  exists w', (Some p). split; [done|]. split; [done|]. split; [by eapply gained_ptr_extends|].
  split; [done|]. by exists fs.
Qed.

End Denotes.

Lemma takes_table w0 tab :
  takes w0 table [] tab tab (fun w ps => Forall2 (denotes_a ns w) ps tab).
Proof. intros s rest He Hr. eexists s, _. split; [reflexivity|]. split; [done|]. split; [done|]. apply Hr. Qed.

Lemma takes_push w0 tab p d :
  denotes_a ns w0 p d -> takes w0 (table_push p) [] tab (tab ++ [d]) (fun _ _ => True).
Proof.
  intros Hd s rest He [Hpb Hreg Htab]. eexists _, tt. split; [reflexivity|].
  split; [|done]. split; simpl; [done|done|].
  apply Forall2_app; [done|]. constructor; [|constructor]. by eapply denotes_a_extends.
Qed.

Lemma takes_pack_table w0 tab : takes w0 pack_table [] tab tab (fun _ b => b = true).
Proof.
  intros s rest He Hr. pose proof Hr as [Hpb Hreg Htab]. unfold pack_table.
  destruct (s_tab s) as [t|] eqn:Et; [by eexists s, _|].
  destruct (takes_calloc w0 24 tab ltac:(lia) s rest He Hr) as (s' & b & E & [Hpb' Hreg' Htab'] & Hx & ->).
  rewrite E. cbn [mbind result_bind]. eexists _, true. split; [reflexivity|].
  split; [|done]. split; simpl; [done|done|].
  simpl in Htab. inversion Htab. subst. constructor.
Qed.

Lemma takes_indices w0 tab (keep pre : list bool) (last type_n : Z) :
  last < length pre -> type_n = (length pre + length keep)%nat -> type_n < 4294967296 ->
  takes w0
    (unpack_indices (length (kept_from (length pre) keep)) type_n last
       (pre ++ repeat false (length keep)))
    (map (fun pos : nat => Int32 pos) (kept_from (length pre) keep)) tab tab
    (fun _ a => a = pre ++ keep).
Proof.
  revert w0 pre last. induction keep as [|b keep IH]; intros w0 pre last Hlast Hn Hsm;
    cbn [kept_from length repeat].
  { simpl. apply takes_ret. by rewrite app_nil_r. }
  destruct b; cbn [length map unpack_indices].
  - eapply (takes_bind _ _ _ _ _ _ [_]); [done|apply takes_uint; unfold is_u32; lia|].
    intros w a He ->.
    rewrite (proj2 (Z.leb_gt _ _)), (proj2 (Z.leb_gt _ _)) by (simpl in *; lia). cbn [orb].
    rewrite Nat2Z.id. replace (length pre) with (length pre + 0)%nat at 3 by lia.
    rewrite insert_app_r. cbn [insert list_insert].
    specialize (IH w (pre ++ [true]) (length pre)).
    rewrite length_app in IH. cbn [length] in IH. rewrite <- !app_assoc, Nat.add_1_r in IH.
    apply IH; simpl in *; lia.
  - specialize (IH w0 (pre ++ [false]) last).
    rewrite length_app in IH. cbn [length] in IH. rewrite <- !app_assoc, Nat.add_1_r in IH.
    apply IH; simpl in *; lia.
Qed.

Lemma find_ptr_lookup k tab p i :
  find_ptr k tab p = Some i -> (k <= i < k + length tab)%nat /\ tab !! (i - k)%nat = Some p.
Proof.
  revert k. induction tab as [|q tab IH]; intros k; simpl; [done|].
  destruct (bool_decide (q = p)) eqn:E.
  - apply bool_decide_eq_true in E as ->. intros [= <-]. rewrite Nat.sub_diag. split; [lia|done].
  - intros H. destruct (IH _ H) as [Hi Hl]. split; [lia|].
    replace (i - k)%nat with (S (i - S k)) by lia. done.
Qed.

Lemma kept_count_small d : adescr_ok ns d -> 0 < kept_count d < 200.
Proof.
  intros (fs & Ht & Hl & Hk). destruct (type_at_fields ns _ _ Ht) as (_ & _ & Hsm).
  pose proof (kept_from_length 0 (snd d)). unfold kept_count, kept in *. lia.
Qed.

(** A type reference. *)
Lemma takes_type_ref w0 tab d :
  adescr_ok ns d -> all_kept (snd d) = true ->
  takes w0 (cull_unpack_descr ns 0 None)
    [Int32 CULL_PACK_DESCR_TYPE_REF; Int32 (first_nm ns d); Int32 (kept_count d)] tab tab
    (fun w pn => denotes_a ns w (fst pn) d /\ snd pn = kept_count d).
Proof.
  intros Hok Hall. destruct (adescr_first ns d Hok) as (f & Hf & Ht & Hn & Hl & Hk).
  pose proof (kept_count_small d Hok). pose proof (type_at_nm ns _ _ _ _ Ht Hf).
  assert (snd d = repeat true (length (fields_at ns (fst d)))) as Hkeep.
  { rewrite Hl. apply (kept_from_all 0). pose proof (all_kept_length 0 (snd d)) as Ha.
    rewrite Hall in Ha. symmetry in Ha. by apply bool_decide_eq_true in Ha. }
  assert (forall w, denotes_a ns w (DStatic (fst d)) d) as Hd.
  { intros w. exists (fields_at ns (fst d)). split; [done|]. split; [done|exact Hkeep]. }
  unfold cull_unpack_descr.
  eapply (takes_bind _ _ _ _ _ _ [_]); [done|by apply takes_uint|]. intros w1 a1 _ ->.
  rewrite Z.eqb_refl. cbn [negb Z.eqb].
  eapply (takes_bind _ _ _ _ _ _ [_]); [done|apply takes_uint; unfold is_u32; lia|]. intros w2 a2 _ ->.
  eapply (takes_bind _ _ _ _ _ _ [_] []); [done|apply takes_uint; unfold is_u32; lia|]. intros w3 a3 _ ->.
  assert (forall z, 0 <= z < 2147483648 -> s32 z = z) as Hs32.
  { intros z Hz. unfold s32. rewrite Z.mod_small; lia. }
  rewrite !Hs32, Hn, (static_for_spec ns Hns _ _ _ Ht Hf) by lia.
  eapply takes_silent; [by apply (takes_entries w3 tab _ _ (Hd w3))|]. intros w4 es _ Hv.
  rewrite (vw_count _ _ _ Hv), Hl.
  assert (kept_count d = length (snd d)) as Hc.
  { unfold kept_count, kept. rewrite Hkeep at 1. rewrite kept_from_repeat, length_seq, Hkeep.
    by rewrite repeat_length. }
  rewrite (proj2 (Z.eqb_neq _ _)), (proj2 (Z.ltb_ge _ _)) by lia. cbn [orb].
  apply takes_ret. intros w _. split; [by apply Hd|done].
Qed.

(** A descriptor that enters the table. *)
Lemma takes_table_def w0 tab d :
  adescr_ok ns d ->
  takes w0 (cull_unpack_descr ns 0 None)
    ([Int32 CULL_PACK_DESCR_TABLE_DEF; Int32 CULL_PACK_DESCR_BY_INDEX; Int32 (first_nm ns d);
      Int32 (kept_count d)] ++ map (fun pos : nat => Int32 pos) (kept (snd d))) tab (tab ++ [d])
    (fun w pn => denotes_a ns w (fst pn) d /\ snd pn = kept_count d).
Proof.
  intros Hok. destruct (adescr_first ns d Hok) as (f & Hf & Ht & Hn & Hl & Hk).
  pose proof (kept_count_small d Hok). pose proof (type_at_nm ns _ _ _ _ Ht Hf).
  destruct (type_at_fields ns _ _ Ht) as (_ & _ & Hsm).
  unfold cull_unpack_descr.
  eapply (takes_bind _ _ _ _ _ _ [_]); [done|by apply takes_uint|]. intros w1 a1 _ ->.
  change (CULL_PACK_DESCR_TABLE_DEF =? CULL_PACK_DESCR_TYPE_REF) with false.
  change (CULL_PACK_DESCR_TABLE_DEF =? CULL_PACK_DESCR_TABLE_REF) with false.
  rewrite Z.eqb_refl. cbn [negb Z.eqb orb].
  eapply (takes_bind _ _ _ _ _ _ [_]); [done|by apply takes_uint|]. intros w2 a2 _ ->.
  rewrite Z.eqb_refl. unfold unpack_by_index.
  eapply (takes_bind _ _ _ _ _ _ [_]); [done|apply takes_uint; unfold is_u32; lia|]. intros w3 a3 _ ->.
  eapply (takes_bind _ _ _ _ _ _ [_]); [done|apply takes_uint; unfold is_u32; lia|]. intros w4 a4 _ ->.
  assert (s32 (first_nm ns d) = nm f) as -> by (unfold s32; rewrite Hn, Z.mod_small; lia).
  rewrite (static_for_spec ns Hns _ _ _ Ht Hf).
  assert (denotes_a ns w4 (DStatic (fst d)) (fst d, repeat true (length (fields_at ns (fst d)))))
    as Hst by (by eexists).
  eapply takes_silent; [by apply (takes_entries w4 tab _ _ Hst)|]. intros w5 es _ Hv.
  cbn [fst snd] in Hv. rewrite (vw_count _ _ _ Hv), Hl.
  assert (kept_count d <= length (snd d)) as Hle.
  { pose proof (kept_from_length 0 (snd d)). unfold kept_count, kept. lia. }
  rewrite (proj2 (Z.ltb_ge _ _)) by lia.
  replace (Z.to_nat (kept_count d)) with (length (kept (snd d))) by (unfold kept_count; lia).
  eapply (takes_bind _ _ _ _ _ _ _ []); [by rewrite app_nil_r|
    apply (takes_indices w5 tab (snd d) [] (-1) (length (snd d))); simpl; lia|].
  cbn [app]. intros w6 keep _ ->. rewrite (proj2 (Z.eqb_neq _ _)) by lia.
  eapply (takes_silent _ _ _ _ _ _ _ (fun w p => exists q, p = Some q /\ denotes_a ns w q d)).
  { apply takes_upd. intros w _ Hr.
    pose proof (build_spec ns Hns w (fst d) _ (snd d) Hr Ht Hl ltac:(unfold kept_count in Hk; lia)) as Hb.
    destruct (ocs_cull_descr_build _ _ _ _) as [[w' p]| | | | |]; try done.
    destruct Hb as (q & -> & Hr' & Hg & Hd). exists w', (Some q).
    split; [done|]. split; [done|]. split; [by eapply gained_ptr_extends|].
    exists q. split; [done|]. by eexists. }
  intros w7 p _ (q & -> & Hd).
  eapply takes_silent; [apply takes_pack_table|]. intros w8 b He8 ->. cbn [negb].
  assert (denotes_a ns w8 q d) as Hd8 by (by eapply denotes_a_extends).
  eapply takes_silent; [by apply takes_push|]. intros w9 [] He9 _.
  assert (denotes_a ns w9 q d) as Hd9 by (by eapply denotes_a_extends).
  eapply takes_silent; [by apply takes_ref|]. intros w10 r He10 [_ Hd10].
  apply takes_ret. intros w He. split; [by eapply denotes_a_extends|done].
Qed.

(** A reference to an entry of the table. *)
Lemma takes_table_ref w0 tab d (i : nat) :
  tab !! i = Some d -> i < 4294967296 ->
  takes w0 (cull_unpack_descr ns 0 None) [Int32 CULL_PACK_DESCR_TABLE_REF; Int32 i] tab tab
    (fun w pn => denotes_a ns w (fst pn) d /\ snd pn = kept_count d).
Proof.
  intros Hi Hsm. unfold cull_unpack_descr.
  eapply (takes_bind _ _ _ _ _ _ [_]); [done|by apply takes_uint|]. intros w1 a1 _ ->.
  change (CULL_PACK_DESCR_TABLE_REF =? CULL_PACK_DESCR_TYPE_REF) with false.
  rewrite Z.eqb_refl. cbn [negb Z.eqb orb].
  eapply (takes_bind _ _ _ _ _ _ [_] []); [done|apply takes_uint; unfold is_u32; lia|]. intros w2 a2 _ ->.
  eapply takes_silent; [apply takes_table|]. intros w3 ps _ Hps. rewrite Nat2Z.id.
  destruct (Forall2_lookup_r _ _ _ _ _ Hps Hi) as (p & -> & Hd).
  eapply takes_silent; [by apply takes_ref|]. intros w4 r _ [_ Hd4].
  eapply takes_silent; [by apply takes_count|]. intros w5 n He5 ->.
  pose proof (kept_count_small d (denotes_a_ok ns _ _ _ Hd)).
  apply takes_ret. intros w He. split.
  - eapply denotes_a_extends; [|exact Hd4]. by etrans.
  - simpl. apply u32_small. lia.
Qed.

(** Whatever the sender wrote for a descriptor. *)
Lemma takes_descr ws w0 p d tab :
  denotes_a ns ws p d -> length tab < 4294967296 ->
  takes w0 (cull_unpack_descr ns 0 None) (fst (enc_descr ns ws p tab))
    (map (abs_descr ns ws) tab) (map (abs_descr ns ws) (snd (enc_descr ns ws p tab)))
    (fun w pn => denotes_a ns w (fst pn) d /\ snd pn = kept_count d).
Proof.
  intros Hd Hsm. unfold enc_descr. pose proof (abs_denotes ns Hns _ _ _ Hd) as Ha. rewrite Ha.
  pose proof (denotes_a_ok ns _ _ _ Hd) as Hok.
  destruct (all_kept (snd d)) eqn:Hall; cbn [fst snd]; [by apply takes_type_ref|].
  destruct (find_ptr 0 tab p) as [i|] eqn:Hi; cbn [fst snd].
  - apply find_ptr_lookup in Hi as [Hb Hl]. rewrite Nat.sub_0_r in Hl.
    apply takes_table_ref; [|lia]. change (map ?f tab) with (f <$> tab).
    by rewrite list_lookup_fmap, Hl, <- Ha.
  - rewrite map_app. simpl. rewrite Ha. by apply takes_table_def.
Qed.

(** ** Values *)

Lemma item_bytes_nonneg its : 0 <= length (items_bytes its).
Proof. lia. Qed.

Lemma items_bytes_cons it its :
  Z.of_nat (length (items_bytes (it :: its))) = length (item_bytes it) + length (items_bytes its).
Proof. unfold items_bytes. simpl. rewrite length_app. lia. Qed.

Lemma word_length i : length (item_bytes (Int32 i)) = 4%nat.
Proof. done. Qed.

(** The switch for each type. *)
Section Switch.
Context (fuel : nat).
Notation sw := (cull_unpack_switch ns (S fuel)).

Lemma switch_bool : sw lBoolT 0 = (i ← uint; mret (VBool (negb (i =? 0)))).
Proof. done. Qed.
Lemma switch_ulong : sw lUlongT 0 = (i ← uint; mret (VUlong i)).
Proof. done. Qed.
Lemma switch_ulong64 : sw lUlong64T 0 = (i ← uint64; mret (VUlong64 i)).
Proof. done. Qed.
Lemma switch_string type :
  type = lStringT \/ type = lHostT -> sw type 0 = (s ← ustr; mret (VString s)).
Proof. by intros [-> | ->]. Qed.
Lemma switch_list : sw lListT 0 = (l ← unpack_list ns fuel (cull_unpack_switch ns fuel) 0; mret (VList l)).
Proof. done. Qed.
Lemma switch_object : sw lObjectT 0 = (e ← unpack_object ns (cull_unpack_switch ns fuel) 0; mret (VObject e)).
Proof. done. Qed.
Lemma switch_double : sw lDoubleT 0 = (d ← udouble; mret (VDouble d)).
Proof. done. Qed.
Lemma switch_ref : sw lRefT 0 = mret (VRef 0).
Proof. done. Qed.

End Switch.

(** A function that reads one item and returns. *)
Lemma takes_then {A B} w0 (m : M A) (f : A -> M B) tab its x b (P : world -> B -> Prop) :
  takes w0 m its tab tab (fun _ a => a = x) -> f x = mret b -> (forall w, P w b) ->
  takes w0 (m ≫= f) its tab tab P.
Proof.
  intros Hm Hf HP. eapply (takes_bind _ _ _ _ _ _ its []); [by rewrite app_nil_r|exact Hm|].
  intros w a _ ->. rewrite Hf. by apply takes_ret.
Qed.

Lemma takes_no_list w0 tab fuel sw :
  takes w0 (unpack_list ns fuel sw 0) [Int32 0] tab tab (fun _ l => l = None).
Proof. by eapply takes_then; [apply takes_uint|..]. Qed.

Lemma takes_no_object w0 tab sw :
  takes w0 (unpack_object ns sw 0) [Int32 0] tab tab (fun _ e => e = None).
Proof. by eapply takes_then; [apply takes_uint|..]. Qed.

Lemma takes_zero w0 tab type (fuel : nat) :
  packable type -> length (items_bytes (enc_zero type)) < fuel ->
  takes w0 (cull_unpack_switch ns fuel type 0) (enc_zero type) tab tab
    (fun w a => is_tree ns w a (zero_of type)).
Proof.
  intros Hp Hfuel. destruct fuel as [|fuel]; [lia|]. unfold packable in Hp.
  destruct Hp as [->|[->|[->|[->|[->|[->|[->|[->| ->]]]]]]]].
  - rewrite switch_bool. by eapply takes_then; [apply takes_uint|..].
  - rewrite switch_ulong. by eapply takes_then; [apply takes_uint|..].
  - rewrite switch_ulong64. by eapply takes_then; [apply takes_uint64|..].
  - rewrite switch_string by auto. by eapply takes_then; [apply takes_ustr; constructor|..].
  - rewrite switch_string by auto. by eapply takes_then; [apply takes_ustr; constructor|..].
  - rewrite switch_list. by eapply takes_then; [apply takes_no_list|..].
  - rewrite switch_object. by eapply takes_then; [apply takes_no_object|..].
  - rewrite switch_double. by eapply takes_then; [apply takes_udouble|..].
  - rewrite switch_ref. by apply takes_ret.
Qed.

(** The encoder of a value is read back as what arrives of its tree. *)
Definition decodes_as (ws : world) (ek : encoder) (P : Z -> Prop) (r : Z -> tree) : Prop :=
  forall type, P type -> packable type /\
  forall w0 tab (fuel : nat),
    length tab + length (fst (ek type tab)) < 4294967296 ->
    length (items_bytes (fst (ek type tab))) < fuel ->
    length (snd (ek type tab)) <= length tab + length (fst (ek type tab)) /\
    takes w0 (cull_unpack_switch ns fuel type 0) (fst (ek type tab))
      (map (abs_descr ns ws) tab) (map (abs_descr ns ws) (snd (ek type tab)))
      (fun w a => is_tree ns w a (r type)).

Lemma enc_descr_table ws p tab :
  length (snd (enc_descr ns ws p tab)) <= length tab + length (fst (enc_descr ns ws p tab)).
Proof.
  unfold enc_descr. destruct (all_kept _); simpl; [lia|].
  destruct (find_ptr 0 tab p); simpl; [lia|]. rewrite length_app. simpl. lia.
Qed.

(** One value of an element, put into its slot. *)
Definition field_encoder (d : lDescr) (e : encoder) : encoder := fun type tab =>
  if mt_do_transfer (mt d) then e type tab else (enc_zero type, tab).

Definition field_arrived (d : lDescr) (r : Z -> tree) : tree :=
  if mt_do_transfer (mt d) then r (mt_get_type (mt d)) else zero_of (mt_get_type (mt d)).

Lemma field_decodes ws d ek (P : Z -> Prop) r :
  decodes_as ws ek P r -> P (mt_get_type (mt d)) ->
  forall w0 tab (fuel : nat),
    let enced := field_encoder d ek (mt_get_type (mt d)) tab in
    length tab + length (fst enced) < 4294967296 -> length (items_bytes (fst enced)) < fuel ->
    length (snd enced) <= length tab + length (fst enced) /\
    takes w0 (cull_unpack_switch ns fuel (mt_get_type (mt d)) 0) (fst enced)
      (map (abs_descr ns ws) tab) (map (abs_descr ns ws) (snd enced))
      (fun w a => is_tree ns w a (field_arrived d r)).
Proof.
  intros Hdec HP w0 tab fuel. unfold field_encoder, field_arrived.
  destruct (Hdec _ HP) as [Hpk Hd]. destruct (mt_do_transfer (mt d)); cbn [fst snd]; [apply Hd|].
  intros _ Hf. split; [lia|]. by apply takes_zero.
Qed.

Lemma insert_middle {A} (pre l : list A) x v :
  <[length pre := v]> (pre ++ x :: l) = pre ++ v :: l.
Proof. induction pre as [|y pre IH]; simpl; [done|]. by rewrite IH. Qed.

(** The loop fills the slots behind [pre]. *)
Definition fields_read (w0 : world) (fuel : nat) (es : list lDescr) (ks : list nat)
    (pre : list lMultiType) (its : list item) (tab tab' : list adescr) (ts : list tree) : Prop :=
  takes w0
    (unpack_cont_fields (cull_unpack_switch ns fuel) es 0 (length ks)
       (imap (fun slot pos => (pos, Z.of_nat (slot + length pre))) ks)
       (pre ++ repeat VZero (length ks + 1))) its tab tab'
    (fun w a => exists vs, a = pre ++ vs ++ [VZero] /\ Forall2 (is_tree ns w) vs ts).

Lemma fields_read_step w0 fuel es pos ks pre i1 i2 tab tab1 tab2 t ts :
  takes w0 (cull_unpack_switch ns fuel (mt_get_type (mt (entry es pos))) 0) i1 tab tab1
    (fun w a => is_tree ns w a t) ->
  (forall w v, fields_read w fuel es ks (pre ++ [v]) i2 tab1 tab2 ts) ->
  fields_read w0 fuel es (pos :: ks) pre (i1 ++ i2) tab tab2 (t :: ts).
Proof.
  intros Hsw Hrest. unfold fields_read. cbn [imap unpack_cont_fields length].
  rewrite (proj2 (Z.eqb_neq _ _)) by lia. rewrite Z.eqb_refl. cbn [orb].
  eapply takes_bind; [done|exact Hsw|]. intros w v He Htree.
  rewrite (proj2 (Z.leb_le _ _)), (proj2 (Z.ltb_lt _ _))
    by (rewrite ?length_app, ?repeat_length; lia). cbn [andb].
  rewrite Nat.add_0_l, Nat2Z.id. cbn [Nat.add repeat]. rewrite insert_middle.
  replace (Z.of_nat (S (length ks)) - 1) with (Z.of_nat (length ks)) by lia.
  replace (pre ++ v :: repeat VZero (length ks + 1))
    with ((pre ++ [v]) ++ repeat VZero (length ks + 1)) by (by rewrite <- app_assoc).
  rewrite (imap_ext _ (fun slot pos => (pos, Z.of_nat (slot + length (pre ++ [v])))))
    by (intros; rewrite length_app; simpl; do 2 f_equal; lia).
  eapply takes_weaken; [by apply Hrest|]. intros w' a He' (vs & -> & Hvs).
  exists (v :: vs). rewrite <- !app_assoc. split; [done|]. constructor; [|done].
  by eapply is_tree_extends.
Qed.

Lemma takes_fields ws fs keep es (ks : list nat) eks ps rs (fuel : nat) :
  view fs keep es -> Forall (fun pos => (pos < length fs)%nat) ks ->
  Forall3 (decodes_as ws) eks ps rs ->
  forall w0 tab pre,
  let fields := omap (fun pos : nat => fs !! pos) ks in
  let off := length pre in
  let enced := enc_cont fields (drop off eks) tab in
  cont_ok fields (drop off ps) ->
  length tab + length (fst enced) < 4294967296 -> length (items_bytes (fst enced)) < fuel ->
  length (snd enced) <= length tab + length (fst enced) /\
  fields_read w0 fuel es ks pre (fst enced) (map (abs_descr ns ws) tab)
    (map (abs_descr ns ws) (snd enced)) (zip_with field_arrived fields (drop off rs)).
Proof.
  intros Hv Hks Hps. induction Hks as [|pos ks Hpos Hks IH];
    intros w0 tab pre fields off enced Hok Htab Hfuel.
  { split; [subst enced; simpl; lia|]. apply takes_ret. intros w _. exists [].
    split; [done|constructor]. }
  destruct (lookup_lt_is_Some_2 fs pos Hpos) as [f Hf]. subst fields enced.
  cbn [omap list_omap] in *. rewrite Hf in *. fold (omap (M:=list) (fun pos : nat => fs !! pos) ks) in *.
  pose proof (Hok 0%nat f eq_refl) as H0. destruct (drop off ps !! 0%nat) as [P|] eqn:HP; [|done].
  rewrite lookup_drop, Nat.add_0_r in HP.
  destruct (Forall3_lookup_m _ _ _ _ _ _ Hps HP) as (ek & r & Hek & Hr & Has).
  rewrite (drop_S eks ek off), (drop_S rs r off) in * by done.
  assert (cont_ok (omap (fun pos : nat => fs !! pos) ks) (drop (S off) ps)) as Hok'.
  { intros slot d Hd. pose proof (Hok (S slot) d Hd) as H1.
    by rewrite (drop_S ps P off HP) in H1. }
  cbn [enc_cont zip_with] in *.
  pose proof (field_decodes ws f ek P r Has H0 w0 tab fuel) as Hone. cbv zeta in Hone.
  unfold field_encoder in Hone.
  destruct (if mt_do_transfer (mt f) then _ else _) as [i1 tab1]. cbn [fst snd] in Hone.
  assert (forall w v, let enced := enc_cont (omap (fun pos : nat => fs !! pos) ks) (drop (S off) eks) tab1 in
    length tab1 + length (fst enced) < 4294967296 -> length (items_bytes (fst enced)) < fuel ->
    length (snd enced) <= length tab1 + length (fst enced) /\
    fields_read w fuel es ks (pre ++ [v]) (fst enced) (map (abs_descr ns ws) tab1)
      (map (abs_descr ns ws) (snd enced))
      (zip_with field_arrived (omap (fun pos : nat => fs !! pos) ks) (drop (S off) rs))) as IH1.
  { intros w v. specialize (IH w tab1 (pre ++ [v])). cbv zeta in IH.
    rewrite length_app, Nat.add_1_r in IH. exact (IH Hok'). }
  cbv zeta in IH1. destruct (enc_cont _ (drop (S off) eks) tab1) as [i2 tab2]. cbn [fst snd] in *.
  rewrite items_bytes_app in Hfuel. rewrite !length_app in *.
  destruct Hone as [Hl1 Hsw]; [lia|lia|]. destruct (IH1 w0 VZero) as [Hl2 _]; [lia|lia|].
  split; [lia|]. apply fields_read_step with (map (abs_descr ns ws) tab1).
  - by rewrite (view_type _ _ _ _ _ Hv Hf).
  - intros w v. apply IH1; lia.
Qed.

(** ** Elements and lists *)

Lemma takes_cont ws w0 p d eks ps rs tab (fuel : nat) :
  denotes_a ns w0 p d -> Forall3 (decodes_as ws) eks ps rs -> cont_ok (adescr_fields ns d) ps ->
  let enced := enc_cont (adescr_fields ns d) eks tab in
  length tab + length (fst enced) < 4294967296 -> length (items_bytes (fst enced)) < fuel ->
  length (snd enced) <= length tab + length (fst enced) /\
  takes w0 (cull_unpack_cont ns (cull_unpack_switch ns fuel) p (kept_count d) 0) (fst enced)
    (map (abs_descr ns ws) tab) (map (abs_descr ns ws) (snd enced))
    (fun w a => Forall2 (is_tree ns w) a (arrived_cont (adescr_fields ns d) rs)).
Proof.
  intros Hd Hdec Hok enced Htab Hfuel. pose proof (denotes_a_ok ns _ _ _ Hd) as Hdok.
  destruct (adescr_first ns d Hdok) as (f & _ & Ht & _ & Hl & _).
  assert (forall w es, view (fields_at ns (fst d)) (snd d) es ->
    length (snd enced) <= length tab + length (fst enced) /\
    fields_read w fuel es (kept (snd d)) [] (fst enced) (map (abs_descr ns ws) tab)
      (map (abs_descr ns ws) (snd enced)) (zip_with field_arrived (adescr_fields ns d) rs)) as Hf.
  { intros w es Hv.
    exact (takes_fields ws _ _ es (kept (snd d)) eks ps rs fuel Hv (kept_in_range _ _ Hl) Hdec
             w tab [] Hok Htab Hfuel). }
  split.
  { pose proof (denotes_fields_at ns _ _ _ Hd) as Hd'.
    destruct (denotes_entries ns _ _ _ _ _ Hd') as (es & _ & Hv). by apply (Hf w0 es). }
  unfold cull_unpack_cont. eapply takes_silent; [by apply takes_count|]. intros w1 n He1 ->.
  rewrite Z.ltb_irrefl. eapply takes_silent; [apply takes_calloc; unfold kept_count; lia|].
  intros w2 b He2 ->. cbn [negb].
  assert (denotes_a ns w2 p d) as Hd2 by (eapply denotes_a_extends; [|exact Hd]; by etrans).
  eapply takes_silent; [by apply (takes_entries _ _ _ _ Hd2)|]. intros w3 es He3 Hv.
  assert (denotes_a ns w3 p d) as Hd3 by (by eapply denotes_a_extends).
  eapply takes_silent; [by apply (takes_present _ _ _ _ Hd3)|]. intros w4 fs He4 ->.
  destruct (Hf w4 es Hv) as [_ Hread]. unfold fields_read in Hread.
  rewrite (imap_ext _ (fun slot pos => (pos, Z.of_nat slot))) in Hread
    by (intros; simpl; do 2 f_equal; lia).
  replace (Z.to_nat (kept_count d + 1)) with (length (kept (snd d)) + 1)%nat
    by (unfold kept_count; lia).
  eapply takes_weaken; [exact Hread|]. intros w a _ (vs & -> & Hvs). simpl.
  unfold arrived_cont. apply Forall2_app; [exact Hvs|]. by repeat constructor.
Qed.

Lemma takes_elem ws w0 p d kind eks ps rs tab (fuel : nat) :
  denotes_a ns ws p d -> forall q, denotes_a ns w0 q d -> kind <> FREE_ELEM ->
  Forall3 (decodes_as ws) eks ps rs -> cont_ok (adescr_fields ns d) ps ->
  let enced := enc_elem ns ws kind p eks tab in
  length tab + length (fst enced) < 4294967296 -> length (items_bytes (fst enced)) < fuel ->
  length (snd enced) <= length tab + length (fst enced) /\
  takes w0 (ocs_cull_unpack_elem ns (cull_unpack_switch ns fuel) (Some q) (kept_count d) 0)
    (fst enced) (map (abs_descr ns ws) tab) (map (abs_descr ns ws) (snd enced))
    (fun w e => e_kind e = TRANS_BOUND_ELEM /\ e_descr e = q /\
       Forall2 (is_tree ns w) (e_cont e) (arrived_cont (adescr_fields ns d) rs)).
Proof.
  intros Hp q Hq Hkind Hdec Hok. unfold enc_elem. rewrite (abs_denotes ns Hns _ _ _ Hp).
  assert (forall w, denotes_a ns w q d -> _) as Hc
    by (intros w Hw; exact (takes_cont ws w q d eks ps rs tab fuel Hw Hdec Hok)).
  cbv zeta in Hc. destruct (enc_cont (adescr_fields ns d) eks tab) as [its tab'].
  cbv zeta. cbn [fst snd] in *. intros Htab Hfuel. cbn [length] in Htab.
  rewrite items_bytes_cons, word_length in Hfuel.
  destruct (Hc w0 Hq) as [Hl _]; [lia|lia|]. split; [cbn [length]; lia|]. unfold ocs_cull_unpack_elem.
  eapply takes_silent; [by apply takes_calloc|]. intros w1 b He1 ->. cbn [negb].
  eapply (takes_bind _ _ _ _ _ _ [_] its);
    [done|apply takes_uint; unfold is_u32; by destruct kind|]. intros w2 a He2 ->.
  assert (denotes_a ns w2 q d) as Hq2 by (eapply denotes_a_extends; [|exact Hq]; by etrans).
  assert (takes w2 (cont ← cull_unpack_cont ns (cull_unpack_switch ns fuel) q (kept_count d) 0;
      mret (Elem TRANS_BOUND_ELEM q cont)) its (map (abs_descr ns ws) tab)
    (map (abs_descr ns ws) tab') (fun w e => e_kind e = TRANS_BOUND_ELEM /\ e_descr e = q /\
       Forall2 (is_tree ns w) (e_cont e) (arrived_cont (adescr_fields ns d) rs))) as Hbound.
  { eapply (takes_bind _ _ _ _ _ _ its []); [by rewrite app_nil_r|apply Hc; [done|lia|lia]|].
    intros w3 cont _ Hcont. apply takes_ret. intros w He. do 2 (split; [done|]).
    eapply Forall2_impl; [exact Hcont|]. intros. by eapply is_tree_extends. }
  destruct kind; [done|exact Hbound..].
Qed.

Lemma apply_all_map {A B} (f : B -> A -> Prop) (l : list B) (k : list A) :
  Forall2 f l k <-> apply_all (map f l) k.
Proof. unfold apply_all. by rewrite Forall2_fmap_l. Qed.

(** The element of a list in the receiver is the element of the tree. *)
Definition elem_is_tree (w : world) (p : dptr) (d : adescr) (e : lListElem) (e' : tree_elem) : Prop :=
  match e, e' with
  | Elem k p' cont, Elem k' d' cont' =>
      k = k' /\ p' = p /\ d' = d /\ apply_all (map (is_tree ns w) cont) cont'
  end.

Definition elem_arrived (d : adescr) (e : tree_elem) : tree_elem :=
  match e with
  | Elem _ _ cont =>
      Elem BOUND_ELEM d (arrived_cont (adescr_fields ns d) (map (arrived ns) cont))
  end.

Lemma elem_is_tree_extends w w' p d e e' :
  extends w w' -> elem_is_tree w p d e e' -> elem_is_tree w' p d e e'.
Proof.
  intros He. destruct e as [k p' cont], e' as [k' d' cont']. simpl.
  rewrite <- !apply_all_map. intros (? & ? & ? & H). do 3 (split; [done|]).
  eapply Forall2_impl; [exact H|]. intros. by eapply is_tree_extends.
Qed.

Lemma forall3_decodes ws cont (cont' : list tree) :
  Forall (fun v => forall t, is_tree ns ws v t ->
    decodes_as ws (enc ns ws v) (well_typed ns t) (arrived ns t)) cont ->
  apply_all (map (is_tree ns ws) cont) cont' ->
  Forall3 (decodes_as ws) (map (enc ns ws) cont) (map (well_typed ns) cont') (map (arrived ns) cont').
Proof.
  unfold apply_all. intros H. revert cont'.
  induction H as [|v cont Hv H IH]; intros cont' Ha; inversion_clear Ha; constructor; auto.
Qed.

(** The elements are appended to those the list already has. *)
Definition elems_read (w0 : world) (fuel loops : nat) (l : lList) (d : adescr) (its : list item)
    (tab tab' : list adescr) (ts : list tree_elem) : Prop :=
  takes w0 (unpack_elems ns loops (cull_unpack_switch ns fuel) l (kept_count d) 0) its tab tab'
    (fun w a => exists es, a = LList (l_name l) (l_descr l) (l_elems l ++ es) /\
       Forall2 (elem_is_tree w (l_descr l) d) es ts).

Lemma elems_read_step w0 fuel loops l d i1 i2 tab tab1 tab2 t ts :
  takes w0 (ocs_cull_unpack_elem ns (cull_unpack_switch ns fuel) (Some (l_descr l)) (kept_count d) 0)
    i1 tab tab1
    (fun w e => e_kind e = TRANS_BOUND_ELEM /\ e_descr e = l_descr l /\
       elem_is_tree w (l_descr l) d (Elem BOUND_ELEM (l_descr l) (e_cont e)) t) ->
  (forall w e, extends w0 w -> elems_read w fuel loops
     (LList (l_name l) (l_descr l) (l_elems l ++ [e])) d i2 tab1 tab2 ts) ->
  elems_read w0 fuel (S loops) l d (Int32 1 :: i1 ++ i2) tab tab2 (t :: ts).
Proof.
  intros Hone Hrest. unfold elems_read. cbn [unpack_elems].
  eapply (takes_bind _ _ _ _ _ _ [_]); [done|by apply takes_on_error, takes_uint|].
  intros w1 m He1 ->. cbn [Z.eqb].
  eapply takes_bind; [done|apply takes_on_error, (takes_later _ _ _ _ _ _ _ Hone He1)|].
  intros w2 e He2 (Hk & Hd & Ht). unfold lAppendElem. rewrite Hk.
  rewrite bool_decide_eq_false_2 by (by intros [?|?]). rewrite bool_decide_eq_false_2 by done.
  eapply (takes_silent _ _ _ _ _ _ _ (fun _ a => a = LList (l_name l) (l_descr l)
    (l_elems l ++ [Elem BOUND_ELEM (l_descr l) (e_cont e)]))).
  { eapply (takes_silent _ _ _ _ _ _ _ (fun _ _ => True)); [by apply takes_ret|].
    intros. by apply takes_ret. }
  intros w3 a He3 ->. eapply takes_weaken; [apply Hrest; transitivity w2; [by transitivity w1|exact He3]|].
  intros w a He (es & -> & Hes). simpl. exists (Elem BOUND_ELEM (l_descr l) (e_cont e) :: es).
  rewrite <- app_assoc. split; [done|]. constructor; [|done].
  eapply elem_is_tree_extends; [|exact Ht]. by transitivity w3.
Qed.

Definition decodable (ws : world) (v : lMultiType) : Prop :=
  forall t, is_tree ns ws v t -> decodes_as ws (enc ns ws v) (well_typed ns t) (arrived ns t).

Lemma takes_elems ws p d (es : list lListElem) (es' : list tree_elem) (fuel : nat) :
  denotes_a ns ws p d -> Forall (fun e => Forall (decodable ws) (e_cont e)) es ->
  apply_all (map (elem_is_tree ws p d) es) es' ->
  Forall id (map (fun e => match e with Elem kind d' cont =>
    kind = BOUND_ELEM /\ d' = d /\ cont_ok (adescr_fields ns d) (map (well_typed ns) cont) end) es') ->
  forall w0 l tab (loops : nat), denotes_a ns w0 (l_descr l) d ->
  let enced := enc_elems ns ws (map (fun e => match e with Elem kind dp cont =>
    (kind, dp, map (enc ns ws) cont) end) es) tab in
  length tab + length (fst enced) < 4294967296 ->
  length (items_bytes (fst enced)) < fuel -> length (items_bytes (fst enced)) < loops ->
  length (snd enced) <= length tab + length (fst enced) /\
  elems_read w0 fuel loops l d (fst enced) (map (abs_descr ns ws) tab)
    (map (abs_descr ns ws) (snd enced)) (map (elem_arrived d) es').
Proof.
  intros Hd Hes. revert es'.
  induction Hes as [|[k p' cont] es Hc Hes IH]; intros [|[k' d' cont'] es'] Ha Hw w0 l tab loops Hl;
    inversion Ha as [|? ? ? ? He Ha']; subst; simpl in Hw.
  { simpl. intros Htab Hf Hloops. split; [lia|]. destruct loops as [|loops]; [lia|].
    unfold elems_read. cbn [unpack_elems].
    eapply (takes_bind _ _ _ _ _ _ [_] []); [done|by apply takes_on_error, takes_uint|].
    intros w1 m _ ->. apply takes_ret. intros w _. exists [].
    destruct l; simpl. rewrite app_nil_r. split; [done|constructor]. }
  destruct He as (<- & -> & -> & Hcont). apply Forall_cons in Hw as [(-> & _ & Hok) Hw'].
  cbn [map enc_elems].
  assert (forall q w, denotes_a ns w q d -> _) as Hone
    by (intros q w Hq; exact (takes_elem ws w p d BOUND_ELEM _ _ _ tab fuel Hd q Hq ltac:(done)
          (forall3_decodes ws cont cont' Hc Hcont) Hok)).
  cbv zeta in Hone.
  destruct (enc_elem ns ws BOUND_ELEM p (map (enc ns ws) cont) tab) as [i1 tab1]. cbn [fst snd] in Hone.
  assert (forall w l loops, denotes_a ns w (l_descr l) d -> _) as IH1
    by (intros w l0 loops0 Hl0; exact (IH es' Ha' Hw' w l0 tab1 loops0 Hl0)).
  cbv zeta in IH1. clear IH. destruct (enc_elems ns ws _ tab1) as [i2 tab2].
  cbn [fst snd] in *. intros Htab Hf Hloops. cbn [length] in *.
  rewrite items_bytes_cons, items_bytes_app, word_length, !length_app in *.
  destruct (Hone _ _ Hl) as [Hl1 H1]; [lia|lia|]. destruct loops as [|loops]; [lia|].
  destruct (IH1 _ _ loops Hl) as [Hl2 _]; [lia|lia|lia|]. split; [lia|].
  apply elems_read_step with (map (abs_descr ns ws) tab1).
  - eapply takes_weaken; [exact H1|]. intros w e _ (Hk & He & Hv). do 2 (split; [done|]).
    simpl. do 3 (split; [done|]). by rewrite <- apply_all_map.
  - intros w e He. apply IH1; [|lia..]. by eapply denotes_a_extends.
Qed.

(** ** A whole list and a whole sub-object *)

Lemma takes_list ws p d name (es : list lListElem) (es' : list tree_elem) (fuel loops : nat) w0 tab :
  denotes_a ns ws p d -> Forall (fun e => Forall (decodable ws) (e_cont e)) es ->
  apply_all (map (elem_is_tree ws p d) es) es' ->
  well_typed ns (VList (Some (LList name d es'))) lListT ->
  let enced := enc ns ws (VList (Some (LList name p es))) lListT tab in
  length tab + length (fst enced) < 4294967296 ->
  length (items_bytes (fst enced)) <= fuel -> length (items_bytes (fst enced)) <= loops ->
  length (snd enced) <= length tab + length (fst enced) /\
  takes w0 (unpack_list ns loops (cull_unpack_switch ns fuel) 0) (fst enced)
    (map (abs_descr ns ws) tab) (map (abs_descr ns ws) (snd enced))
    (fun w l => list_is_tree ns w l (list_arrived ns (Some (LList name d es')))).
Proof.
  intros Hd Hes Ha (_ & Hname & _ & Hw). cbn [enc].
  assert (forall w, length tab < 4294967296 -> _) as Hde
    by (intros w; exact (takes_descr ws w p d tab Hd)).
  pose proof (enc_descr_table ws p tab) as Hl1. destruct (enc_descr ns ws p tab) as [i1 tab1].
  assert (forall w l, denotes_a ns w (l_descr l) d -> _) as Hel
    by (intros w l Hl; exact (takes_elems ws p d es es' fuel Hd Hes Ha Hw w l tab1 loops Hl)).
  cbv zeta in Hel. destruct (enc_elems ns ws _ tab1) as [i2 tab2].
  cbn [fst snd length] in *. intros Htab Hf Hloops.
  rewrite !items_bytes_cons, items_bytes_app, word_length, !length_app in *.
  assert (length tab2 <= length tab1 + length i2) as Hl2.
  { apply (Hel ws (LList None p []) Hd); lia. }
  split; [lia|]. unfold unpack_list.
  eapply (takes_bind _ _ _ _ _ _ [_]); [done|by apply takes_uint|]. intros w1 i He1 ->. cbn [Z.eqb].
  eapply takes_silent; [by apply takes_calloc|]. intros w2 ok He2 ->. cbn [negb].
  eapply (takes_bind _ _ _ _ _ _ [_]); [done|by apply takes_ustr|]. intros w3 nm He3 ->.
  eapply takes_bind; [done|apply Hde; lia|]. intros w4 [q n] He4 [Hq Hn]. cbn [fst snd] in *.
  subst n. eapply (takes_bind _ _ _ _ _ _ i2 []); [by rewrite app_nil_r| |].
  { apply (Hel w4 (LList (arrived_string name) q []) Hq); lia. }
  intros w5 l He5 (es2 & -> & Hes2). apply takes_ret. intros w He.
  unfold list_is_tree, list_arrived. simpl. split; [done|].
  split; [eapply denotes_a_extends; [|exact Hq]; by transitivity w5|].
  apply (apply_all_map (elem_is_tree w q d)).
  refine (Forall2_impl _ _ _ _ Hes2 _). intros e e'. by apply elem_is_tree_extends.
Qed.

Lemma takes_object ws k p d (cont : list lMultiType) (cont' : list tree) (fuel : nat) w0 tab :
  denotes_a ns ws p d -> Forall (decodable ws) cont ->
  apply_all (map (is_tree ns ws) cont) cont' ->
  well_typed ns (VObject (Some (Elem k d cont'))) lObjectT ->
  let enced := enc ns ws (VObject (Some (Elem k p cont))) lObjectT tab in
  length tab + length (fst enced) < 4294967296 -> length (items_bytes (fst enced)) <= fuel ->
  length (snd enced) <= length tab + length (fst enced) /\
  takes w0 (unpack_object ns (cull_unpack_switch ns fuel) 0) (fst enced)
    (map (abs_descr ns ws) tab) (map (abs_descr ns ws) (snd enced))
    (fun w e => is_tree ns w (VObject e) (arrived ns (VObject (Some (Elem k d cont'))) lObjectT)).
Proof.
  intros Hd Hc Ha (_ & Hk & _ & Hok). cbn [enc].
  assert (forall w, length tab < 4294967296 -> _) as Hde
    by (intros w; exact (takes_descr ws w p d tab Hd)).
  pose proof (enc_descr_table ws p tab) as Hl1. destruct (enc_descr ns ws p tab) as [i1 tab1].
  assert (forall q w, denotes_a ns w q d -> _) as Hel
    by (intros q w Hq; exact (takes_elem ws w p d k _ _ _ tab1 fuel Hd q Hq Hk
          (forall3_decodes ws cont cont' Hc Ha) Hok)).
  cbv zeta in Hel. destruct (enc_elem ns ws k p _ tab1) as [i2 tab2].
  cbn [fst snd length] in *. intros Htab Hf.
  rewrite !items_bytes_cons, items_bytes_app, word_length, !length_app in *.
  assert (length tab2 <= length tab1 + length i2) as Hl2 by (apply (Hel p ws Hd); lia).
  split; [lia|]. unfold unpack_object.
  eapply (takes_bind _ _ _ _ _ _ [_]); [done|by apply takes_uint|]. intros w1 i He1 ->. cbn [Z.eqb].
  eapply takes_bind; [done|apply Hde; lia|]. intros w2 [q n] He2 [Hq Hn]. cbn [fst snd] in *.
  subst n. eapply (takes_bind _ _ _ _ _ _ i2 []); [by rewrite app_nil_r| |].
  { apply takes_on_error, (Hel q w2 Hq); lia. }
  intros w3 e He3 (_ & -> & Hv). rewrite bool_decide_eq_true_2 by done.
  eapply (takes_silent _ _ _ _ _ _ _ (fun _ _ => True)); [by apply takes_ret|].
  intros w4 [] He4 _. apply takes_ret. intros w He.
  assert (extends w3 w) as He5 by (by transitivity w4).
  simpl. split; [done|]. split; [eapply denotes_a_extends; [|exact Hq]; by transitivity w3|].
  apply (apply_all_map (is_tree ns w)). refine (Forall2_impl _ _ _ _ Hv _).
  intros ? ?. by apply is_tree_extends.
Qed.

Lemma takes_list_value w0 (m : M (option lList)) its tab tab' t :
  takes w0 m its tab tab' (fun w l => list_is_tree ns w l t) ->
  takes w0 (l ← m; mret (VList l)) its tab tab' (fun w a => is_tree ns w a (VList t)).
Proof.
  intros Hm. eapply (takes_bind _ _ _ _ _ _ its []); [by rewrite app_nil_r|exact Hm|].
  intros w l _ Hl. apply takes_ret. intros w' He. by eapply is_tree_extends.
Qed.

Lemma takes_object_value w0 (m : M (option lListElem)) its tab tab' t :
  takes w0 m its tab tab' (fun w e => is_tree ns w (VObject e) t) ->
  takes w0 (e ← m; mret (VObject e)) its tab tab' (fun w a => is_tree ns w a t).
Proof.
  intros Hm. eapply (takes_bind _ _ _ _ _ _ its []); [by rewrite app_nil_r|exact Hm|].
  intros w l _ Hl. apply takes_ret. intros w' He. by eapply is_tree_extends.
Qed.

Lemma below_succ (n : Z) (k : nat) : n < S k -> n <= k.
Proof. lia. Qed.

(** Whatever is packed is read back as what arrives of it. *)
Lemma decodes_switch ws v : decodable ws v.
Proof.
  induction v using multi_induction;
    intros [| | | | | |[[name' d' es']|]|[[k' d' cont']|]|] Ht type Hw; try done;
    (split; [by eapply well_typed_packable|]);
    intros w0 tab [|fuel] Htab Hf; try lia; simpl in Ht.
  - split; [simpl; lia|]. by apply (takes_zero w0 _ type (S fuel)).
  - destruct Hw as [-> Hw]. subst. split; [simpl; lia|]. rewrite switch_double.
    by eapply takes_then; [apply takes_udouble|..].
  - destruct Hw as [-> Hw]. subst. split; [simpl; lia|]. rewrite switch_ulong.
    by eapply takes_then; [apply takes_uint|..].
  - destruct Hw as [-> Hw]. subst. split; [simpl; lia|]. rewrite switch_ulong64.
    by eapply takes_then; [apply takes_uint64|..].
  - simpl in Hw. subst. split; [simpl; lia|]. rewrite switch_bool.
    eapply takes_then; [apply takes_uint; by case_match|done|]. intros w. simpl. by case_match.
  - destruct Hw as [Hw Hs]. subst. split; [simpl; lia|]. rewrite switch_string by done.
    by eapply takes_then; [apply takes_ustr|..].
  - simpl in Hw. subst. split; [simpl; lia|]. rewrite switch_ref. by apply takes_ret.
  - simpl in Hw. subst. split; [simpl; lia|]. rewrite switch_list.
    by eapply takes_then; [apply takes_no_list|..].
  - destruct Hw as [-> Hw]. destruct Ht as (-> & Hd & Ha).
    destruct (takes_list ws d d' name' es es' fuel fuel w0 tab Hd H Ha (conj eq_refl Hw) Htab)
      as [Hl Htk]; [exact (below_succ _ _ Hf)..|].
    split; [exact Hl|]. rewrite switch_list. by apply takes_list_value.
  - simpl in Hw. subst. split; [simpl; lia|]. rewrite switch_object.
    by eapply takes_then; [apply takes_no_object|..].
  - destruct Hw as [-> Hw]. destruct Ht as (<- & Hd & Ha).
    destruct (takes_object ws k d d' cont cont' fuel w0 tab Hd H Ha (conj eq_refl Hw) Htab)
      as [Hl Htk]; [exact (below_succ _ _ Hf)|].
    split; [exact Hl|]. rewrite switch_object. by apply takes_object_value.
Qed.

End Unwire.

End CullUnwire.
