(* ===== verification/CullOwn.v ===== *)
(** Who holds references: unpacking any sequence of bytes uses only descriptors it has a
    reference on.  Every function is described by the references it takes over from its
    caller and those it hands back; what is left out of both is leaked, never dangling. *)

From S2P Require Import Prelude Pack PackProps CullDescr CullDescrFacts CullRegistry CullPack CullTree.
Import Pack PackProps CullDescr CullDescrFacts CullRegistry CullPack CullTree.

Module CullOwn.

Section Own.
Context (ns : option (list lNameSpace)) (Hns : ns_ok ns).
Context `{Alloc : Allocator}.

(** ** References that are held *)

Definition usable (w : world) (p : dptr) : Prop :=
  match p with
  | DStatic k => exists fs, type_at ns k fs
  | DCounted l => is_Some (w_mem w !! l)
  | DPlain _ => False
  end.

(** How often a list holds the block. *)
Definition holders (l : positive) (L : list dptr) : nat := length (filter (fun p => p = DCounted l) L).

(** Every reference in [L] is counted, so what it leads to is there. *)
Record held (w : world) (L : list dptr) : Prop := {
  hd_usable : Forall (usable w) L;
  hd_counts : forall l c, w_mem w !! l = Some c -> holders l L <= refs (c_h c);
}.

(** No count can wrap around within [x] more references. *)
Definition room (w : world) (x : Z) : Prop :=
  0 <= x < 4294967296 /\
  forall l c, w_mem w !! l = Some c -> 0 <= refs (c_h c) /\ refs (c_h c) + x < 4294967296.

Lemma holders_cons l p L :
  holders l (p :: L) = ((if bool_decide (p = DCounted l) then 1 else 0) + holders l L)%nat.
Proof.
  unfold holders. rewrite filter_cons. destruct (decide (p = DCounted l)) as [E|E].
  - by rewrite (bool_decide_eq_true_2 _ E).
  - by rewrite (bool_decide_eq_false_2 _ E).
Qed.

Lemma holders_sub l L L' : L ⊆+ L' -> (holders l L <= holders l L')%nat.
Proof.
  induction 1 as [|p L L' _ IH|p q L|p L L' _ IH|L1 L2 L3 _ IH1 _ IH2];
    rewrite ?holders_cons in *; lia.
Qed.

Lemma held_sub w L L' : L ⊆+ L' -> held w L' -> held w L.
Proof.
  intros Hs [Hu Hc]. split.
  - apply Forall_forall. intros p Hp. rewrite Forall_forall in Hu. apply Hu.
    by eapply elem_of_submseteq.
  - intros l c Hl. specialize (Hc l c Hl). pose proof (holders_sub l _ _ Hs). lia.
Qed.

Lemma holders_none w l L : Forall (usable w) L -> w_mem w !! l = None -> holders l L = 0%nat.
Proof.
  intros Hu Hl. induction Hu as [|p L Hp _ IH]; [done|]. rewrite holders_cons, IH.
  rewrite bool_decide_eq_false_2; [done|]. intros ->. simpl in Hp. rewrite Hl in Hp.
  by destruct Hp.
Qed.

Lemma holders_zero l L : holders l L = 0%nat -> DCounted l ∉ L.
Proof.
  induction L as [|p L IH]; [by intros _ ?%elem_of_nil|]. rewrite holders_cons.
  destruct (bool_decide (p = DCounted l)) eqn:E; [done|]. apply bool_decide_eq_false in E.
  intros H [<-|?]%elem_of_cons; [done|]. by apply IH in H.
Qed.

(** A pointer that is held denotes a descriptor. *)
Lemma usable_denotes w p : reg_ok ns w -> usable w p -> exists d, denotes_a ns w p d.
Proof.
  intros Hr. destruct p as [k|l|]; simpl; [| |done].
  - intros (fs & Ht). exists (k, repeat true (length fs)), fs. done.
  - intros (c & Hc). destruct (ro_blocks _ _ Hr _ _ Hc) as (k & fs & keep & Hb).
    exists (k, keep), fs, c. done.
Qed.

Lemma denotes_usable w p d : denotes_a ns w p d -> usable w p.
Proof.
  intros (fs & Hd). destruct p as [k|l|]; simpl in *; [|destruct Hd as (c & Hc & _)|done].
  - destruct Hd as (-> & Ht & _). by exists fs.
  - by exists c.
Qed.

Lemma usable_same w w' p :
  (forall l, is_Some (w_mem w !! l) -> is_Some (w_mem w' !! l)) -> usable w p -> usable w' p.
Proof. destruct p; simpl; auto. Qed.

(** ** One reference more, one less *)

Lemma held_gained w w' p d L x :
  held w L -> room w (x + 1) -> 0 <= x -> gained_ptr w w' p -> denotes_a ns w' p d ->
  held w' (p :: L) /\ room w' x.
Proof.
  intros [Hu Hc] [Hx Hroom] Hx0 Hg Hd%denotes_usable.
  destruct p as [k|l|]; simpl in Hg; [subst w'| |done].
  - split; [split|split; [lia|]].
    + by constructor.
    + intros l c Hl. rewrite holders_cons, bool_decide_eq_false_2 by done. by apply Hc.
    + intros l c Hl. specialize (Hroom l c Hl). lia.
  - assert (exists c r, w_mem w' = <[l := set_refs r c]> (w_mem w) /\ holders l L < r /\
        0 <= r /\ r + x < 4294967296) as (c & r & Hm & Hr & Hr0 & Hrx).
    { destruct Hg as [(c & Hl & Hm)|(Hl & c & H1 & Hm)].
      - specialize (Hc l c Hl). destruct (Hroom l c Hl). exists c. eexists. split; [exact Hm|].
        rewrite u32_small by lia. lia.
      - exists c, (refs (c_h c)). rewrite set_refs_same. split; [done|].
        rewrite (holders_none w l L Hu Hl), H1. lia. }
    assert (forall l', is_Some (w_mem w !! l') -> is_Some (w_mem w' !! l')) as Hsame.
    { intros l'. rewrite Hm. destruct (decide (l = l')) as [<-|Hne].
      - rewrite lookup_insert_eq. eauto.
      - by rewrite lookup_insert_ne. }
    split; [split|split; [lia|]].
    + constructor; [done|]. eapply Forall_impl; [exact Hu|]. intros ?. by apply usable_same.
    + intros l' c'. rewrite Hm, holders_cons. destruct (decide (l = l')) as [<-|Hne].
      * rewrite lookup_insert_eq, bool_decide_eq_true_2 by done. intros [= <-]. simpl. lia.
      * rewrite lookup_insert_ne, bool_decide_eq_false_2 by congruence. apply Hc.
    + intros l' c'. rewrite Hm. destruct (decide (l = l')) as [<-|Hne].
      * rewrite lookup_insert_eq. intros [= <-]. simpl. lia.
      * rewrite lookup_insert_ne by done. intros Hl'. specialize (Hroom l' c' Hl'). lia.
Qed.

Lemma held_lost w w' p L x :
  held w (p :: L) -> room w x -> lost_ptr w w' p -> held w' L /\ room w' x.
Proof.
  intros [Hu Hc] [Hx Hroom] Hl. apply Forall_cons in Hu as [_ Hu].
  destruct p as [k|l|]; simpl in Hl; [subst w'| |done].
  { split; [|done]. split; [done|]. intros l c Hl. specialize (Hc l c Hl).
    by rewrite holders_cons, bool_decide_eq_false_2 in Hc by done. }
  destruct Hl as (c & Hl & Hm). pose proof (Hc l c Hl) as Hcl. pose proof (Hroom l c Hl) as Hrl.
  rewrite holders_cons, bool_decide_eq_true_2 in Hcl by done.
  assert (forall l' c', w_mem w' !! l' = Some c' -> l' <> l -> w_mem w !! l' = Some c') as Hother.
  { intros l' c' Hl' Hne. rewrite Hm in Hl'. destruct (refs (c_h c) =? 1).
    - by apply lookup_delete_Some in Hl' as [_ ?].
    - by rewrite lookup_insert_ne in Hl' by done. }
  assert (forall c', w_mem w' !! l = Some c' -> refs (c_h c') = refs (c_h c) - 1) as Hsame.
  { intros c'. rewrite Hm. destruct (refs (c_h c) =? 1).
    - by rewrite lookup_delete_eq.
    - rewrite lookup_insert_eq. intros [= <-]. simpl. apply u32_small. lia. }
  split; [split|split; [done|]].
  - apply Forall_forall. intros p Hp. rewrite Forall_forall in Hu. specialize (Hu p Hp).
    destruct p as [|l'|]; simpl in *; [done| |done]. rewrite Hm. destruct (refs (c_h c) =? 1) eqn:E.
    + rewrite lookup_delete_ne; [done|]. intros <-. apply (holders_zero l L); [lia|done].
    + destruct (decide (l = l')) as [<-|]; [rewrite lookup_insert_eq; eauto|].
      by rewrite lookup_insert_ne.
  - intros l' c' Hl'. destruct (decide (l' = l)) as [->|Hne].
    + rewrite (Hsame _ Hl'). lia.
    + specialize (Hc l' c' (Hother _ _ Hl' Hne)).
      by rewrite holders_cons, bool_decide_eq_false_2 in Hc by congruence.
  - intros l' c' Hl'. destruct (decide (l' = l)) as [->|Hne].
    + rewrite (Hsame _ Hl'). lia.
    + apply (Hroom l' c' (Hother _ _ Hl' Hne)).
Qed.

(** ** Functions *)

(** The state of an unpacking function with [rest] still to read, references [L] besides
    those of the table, and [c] more of them that may be taken. *)
Record inv (s : st) (rest : list Z) (L : list dptr) (c : Z) : Prop := {
  iv_pb : reading (s_pb s) rest;
  iv_bytes : Forall (fun b => 0 <= b < 256) rest;
  iv_reg : reg_ok ns (s_world s);
  iv_held : held (s_world s) (default [] (s_tab s) ++ L);
  iv_room : room (s_world s) (length rest + c);
  iv_credit : 0 <= c;
}.

(** What is left to read and to take. *)
Definition inv_within (m : Z) (s : st) (L : list dptr) (c : Z) : Prop :=
  exists rest, inv s rest L c /\ length rest + c <= m.

(** A value may be freed as one of another type only where [bad] holds: reading a
    descriptor is proved for [False], reading the values of an element for [True]. *)
Context (bad : Prop).

(** With less than [k] to read and to take, and while the caller holds [B], the function
    takes over the references [pre] and [c] and hands back [post] and [c']. *)
Definition keeps {A} (k : Z) (B pre : list dptr) (c : Z) (m : M A) (post : A -> list dptr)
    (c' : Z) (P : A -> Prop) : Prop :=
  forall s rest F, B ⊆ F -> inv s rest (pre ++ F) c -> length rest + c < k ->
    match m s with
    | Done (s', inl a) => P a /\ inv_within (length rest + c) s' (post a ++ F) c'
    | Done (s', inr _) => inv_within (length rest + c) s' F 0
    | Abort => ~ plenty
    | BadElement => bad
    | _ => False
    end.

Lemma inv_sub s rest L L' c : L' ⊆+ L -> inv s rest L c -> inv s rest L' c.
Proof.
  intros Hs [? ? ? Hh ? ?]. split; try done. eapply held_sub; [|exact Hh].
  by apply submseteq_skips_l.
Qed.

Lemma inv_credit s rest L c c' : 0 <= c' <= c -> inv s rest L c -> inv s rest L c'.
Proof.
  intros Hc [? ? ? ? [Hx Hr] ?]. split; try done; [|lia]. split; [lia|]. intros l b Hl.
  specialize (Hr l b Hl). lia.
Qed.

Lemma keeps_ret {A} k B pre c (a : A) post (P : A -> Prop) :
  P a -> post a ⊆+ pre -> keeps k B pre c (mret a) post c P.
Proof.
  intros HP Hpost s rest F HB Hi _. split; [done|]. exists rest. split; [|done].
  eapply inv_sub; [|exact Hi]. by apply submseteq_skips_r.
Qed.

Lemma keeps_fail {A} k B pre c code post c' (P : A -> Prop) :
  keeps k B pre c (fail code) post c' P.
Proof.
  intros s rest F HB Hi _. exists rest. pose proof (iv_credit _ _ _ _ Hi). split; [|lia].
  eapply inv_credit; [|eapply inv_sub; [|exact Hi]]; [lia|]. by apply submseteq_inserts_l.
Qed.

Lemma keeps_bad {A} k B pre c post c' (P : A -> Prop) : bad -> keeps k B pre c (stuck BadElement) post c' P.
Proof. by intros Hbad s rest F HB Hi _. Qed.

Lemma keeps_bind {A C} k B B1 pre pre1 R c c1 c2 (m : M A) (f : A -> M C) post1 post P Q :
  pre1 ++ R ⊆+ pre -> B1 ⊆ R ++ B ->
  keeps k B1 pre1 c m post1 c1 P ->
  (forall a, P a -> keeps k B (post1 a ++ R) c1 (f a) post c2 Q) ->
  keeps k B pre c (m ≫= f) post c2 Q.
Proof.
  intros Hpre HB1 Hm Hf s rest F HB Hi Hk.
  assert (inv s rest (pre1 ++ R ++ F) c) as Hi1.
  { eapply inv_sub; [|exact Hi]. rewrite app_assoc. by apply submseteq_skips_r. }
  specialize (Hm s rest (R ++ F)).
  assert (B1 ⊆ R ++ F) as HB1' by set_solver. specialize (Hm HB1' Hi1 Hk).
  unfold mbind, M_bind. destruct (m s) as [[s' [a|code]]| | | | |]; cbn [mbind result_bind]; try done.
  - destruct Hm as [HP (rest1 & Hi2 & Hl)]. rewrite app_assoc in Hi2.
    specialize (Hf a HP s' rest1 F HB Hi2 ltac:(lia)).
    destruct (f a s') as [[s2 [b|code]]| | | | |]; try done.
    + destruct Hf as [HQ (rest2 & Hi3 & Hl2)]. split; [done|]. exists rest2. split; [done|lia].
    + destruct Hf as (rest2 & Hi3 & Hl2). exists rest2. split; [done|lia].
  - destruct Hm as (rest1 & Hi2 & Hl). exists rest1. split; [|done].
    eapply inv_sub; [|exact Hi2]. by apply submseteq_inserts_l.
Qed.

(** A step that neither takes nor gives references. *)
Lemma keeps_quiet {A C} k B B1 pre c c1 c2 (m : M A) (f : A -> M C) post P Q :
  B1 ⊆ pre ++ B -> keeps k B1 [] c m (fun _ => []) c1 P ->
  (forall a, P a -> keeps k B pre c1 (f a) post c2 Q) -> keeps k B pre c (m ≫= f) post c2 Q.
Proof. intros HB Hm Hf. by eapply (keeps_bind k B B1 pre [] pre c c1 c2). Qed.

Lemma keeps_weaken {A} k B pre pre' c (m : M A) post post' c' P Q :
  keeps k B pre' c m post' c' P -> pre' ⊆+ pre -> (forall a, P a -> Q a /\ post a ⊆+ post' a) ->
  keeps k B pre c m post c' Q.
Proof.
  intros Hm Hpre Hpost s rest F HB Hi Hk.
  assert (inv s rest (pre' ++ F) c) as Hi1.
  { eapply inv_sub; [|exact Hi]. by apply submseteq_skips_r. }
  specialize (Hm s rest F HB Hi1 Hk). destruct (m s) as [[s' [a|code]]| | | | |]; try done.
  destruct Hm as [HP (rest1 & Hi2 & Hl)]. destruct (Hpost a HP) as [HQ Hs]. split; [done|].
  exists rest1. split; [|done]. eapply inv_sub; [|exact Hi2]. by apply submseteq_skips_r.
Qed.

(** Less credit, and so less to do: the function needs [k - d] only. *)
Lemma keeps_spend {A} k k' B pre c c0 (m : M A) post c' P :
  0 <= c0 <= c -> k - (c - c0) <= k' ->
  keeps k' B pre c0 m post c' P -> keeps k B pre c m post c' P.
Proof.
  intros Hc Hk' Hm s rest F HB Hi Hk.
  specialize (Hm s rest F HB (inv_credit _ _ _ _ _ Hc Hi) ltac:(lia)).
  destruct (m s) as [[s' [a|code]]| | | | |]; try done.
  - destruct Hm as [HP (r1 & Hi2 & Hl)]. split; [done|]. exists r1. split; [done|lia].
  - destruct Hm as (r1 & Hi2 & Hl). exists r1. split; [done|lia].
Qed.

Lemma keeps_borrow {A} k B B' pre c (m : M A) post c' P :
  keeps k B' pre c m post c' P -> B' ⊆ B -> keeps k B pre c m post c' P.
Proof. intros Hm HB s rest F HF. apply Hm. set_solver. Qed.

Lemma keeps_frame {A} k B B1 R pre c (m : M A) post c' P :
  B1 ⊆ R ++ B -> keeps k B1 pre c m post c' P ->
  keeps k B (pre ++ R) c m (fun a => post a ++ R) c' P.
Proof.
  intros HB1 Hm s rest F HB Hi Hk. rewrite <- app_assoc in Hi.
  assert (B1 ⊆ R ++ F) as HB1' by set_solver. specialize (Hm s rest (R ++ F) HB1' Hi Hk).
  destruct (m s) as [[s' [a|code]]| | | | |]; try done; [by rewrite <- app_assoc|].
  destruct Hm as (r & Hi2 & Hl). exists r. split; [|done].
  eapply inv_sub; [|exact Hi2]. by apply submseteq_inserts_l.
Qed.

(** [R] is for the cleanup if the function fails, and stays otherwise. *)
Lemma keeps_on_error {A} k B B1 R pre c (m : M A) cleanup post c' P Q :
  B1 ⊆ R ++ B -> keeps k B1 pre c m post c' P ->
  keeps k B R 0 cleanup (fun _ => []) 0 Q ->
  keeps k B (pre ++ R) c (on_error m cleanup) (fun a => post a ++ R) c' P.
Proof.
  intros HB1 Hm Hcl s rest F HB Hi Hk. rewrite <- app_assoc in Hi.
  assert (B1 ⊆ R ++ F) as HB1' by set_solver. specialize (Hm s rest (R ++ F) HB1' Hi Hk).
  unfold on_error. destruct (m s) as [[s' [a|code]]| | | | |]; cbn [mbind result_bind]; try done.
  - by rewrite <- app_assoc.
  - destruct Hm as (r1 & Hi2 & Hl). specialize (Hcl s' r1 F HB Hi2 ltac:(lia)).
    destruct (cleanup s') as [[s2 [u|code']]| | | | |]; cbn [mbind result_bind]; try done.
    + destruct Hcl as [_ (r2 & ? & ?)]. exists r2. split; [done|lia].
    + destruct Hcl as (r2 & ? & ?). exists r2. split; [done|lia].
Qed.

(** ** Steps *)

(** A question about descriptors the caller holds. *)
Lemma keeps_ask {A} k B c (f : world -> result A) (P : A -> Prop) :
  (forall w, reg_ok ns w -> Forall (usable w) B -> exists a, f w = Done a /\ P a) ->
  keeps k B [] c (ask f) (fun _ => []) c P.
Proof.
  intros Hf s rest F HB Hi _. pose proof (hd_usable _ _ (iv_held _ _ _ _ Hi)) as Hu.
  destruct (Hf (s_world s) (iv_reg _ _ _ _ Hi)) as (a & E & HP).
  { apply Forall_forall. intros p Hp. rewrite Forall_forall in Hu. apply Hu. set_solver. }
  unfold ask. rewrite E. cbn [mbind result_bind]. split; [done|]. by exists rest.
Qed.

(** The same for one descriptor, by what it denotes. *)
Lemma keeps_ask_one {A} k p c (f : world -> result A) (P : A -> Prop) :
  (forall w d, denotes_a ns w p d -> exists a, f w = Done a /\ P a) ->
  keeps k [p] [] c (ask f) (fun _ => []) c P.
Proof.
  intros Hf. apply keeps_ask. intros w Hr Hp. apply Forall_cons in Hp as [Hp _].
  destruct (usable_denotes w p Hr Hp) as (d & Hd). by apply (Hf w d).
Qed.

(** An operation on the world. *)
Lemma keeps_upd {A} k B pre c (f : world -> result (world * A)) post c' (P : A -> Prop) :
  0 <= c' <= c ->
  (forall w L x, reg_ok ns w -> held w (pre ++ L) -> B ⊆ L -> room w (x + c) -> 0 <= x ->
     or_abort (f w) (fun '(w', a) =>
       P a /\ reg_ok ns w' /\ held w' (post a ++ L) /\ room w' (x + c'))) ->
  keeps k B pre c (upd f) post c' P.
Proof.
  intros Hc Hf s rest F HB [Hpb Hb Hr Hh Hroom Hc0] _.
  assert (held (s_world s) (pre ++ default [] (s_tab s) ++ F)) as Hh'.
  { eapply held_sub; [|exact Hh]. apply Permutation_submseteq. solve_Permutation. }
  specialize (Hf (s_world s) _ (length rest) Hr Hh' ltac:(set_solver) Hroom ltac:(lia)).
  unfold upd. destruct (f (s_world s)) as [[w' a]| | | | |]; cbn [mbind result_bind or_abort] in *; try done.
  destruct Hf as (HP & Hr' & Hh2 & Hroom'). split; [done|]. exists rest. split; [|lia].
  split; simpl; try done; [|lia]. eapply held_sub; [|exact Hh2].
  apply Permutation_submseteq. solve_Permutation.
Qed.

Lemma reg_ok_heap h w : reg_ok ns w -> reg_ok ns (set_heap h w).
Proof. by intros []. Qed.

Lemma inv_heap s rest L c h pb j c' :
  inv s rest L c -> reading pb (drop j rest) -> 0 <= c' ->
  length (drop j rest) + c' <= length rest + c ->
  inv (St (set_heap h (s_world s)) pb (s_tab s) (s_cache s)) (drop j rest) L c'.
Proof.
  intros [? ? ? [Hu Hc] [Hx Hr] ?] Hpb Hc' Hl.
  split; simpl; [done|by apply Forall_drop|by apply reg_ok_heap|by split| |done].
  - split; [lia|]. intros l b Hl'. specialize (Hr l b Hl'). lia.
Qed.

(** What is read becomes credit. *)
Lemma keeps_run {A} k B c (n : Z)
    (f : world -> sge_pack_buffer -> result (world * sge_pack_buffer * A * Z)) (P : A -> Prop) :
  0 <= n ->
  (forall w pb rest, reading pb rest -> Forall (fun b => 0 <= b < 256) rest ->
   exists h pb' j a ret,
     f w pb = Done (set_heap h w, pb', a, ret) /\ reading pb' (drop j rest) /\
     (ret = PACK_SUCCESS -> P a /\ length (drop j rest) + n <= length rest)) ->
  keeps k B [] c (run f) (fun _ => []) (c + n) P.
Proof.
  intros Hn Hf s rest F HB Hi _. pose proof (iv_credit _ _ _ _ Hi) as Hc0.
  destruct (Hf (s_world s) _ _ (iv_pb _ _ _ _ Hi) (iv_bytes _ _ _ _ Hi))
    as (h & pb' & j & a & ret & E & Hr & Hok).
  pose proof (length_drop rest j) as Hl.
  unfold run. rewrite E. cbn [mbind result_bind]. destruct (ret =? PACK_SUCCESS) eqn:Er.
  - apply Z.eqb_eq in Er. destruct (Hok Er) as [HP Hln]. split; [done|].
    exists (drop j rest). split; [|lia]. eapply inv_heap; [exact Hi|done|lia|lia].
  - exists (drop j rest). split; [|lia]. eapply inv_heap; [exact Hi|done|lia|lia].
Qed.

Lemma of_be_bytes_range bs : Forall (fun b => 0 <= b < 256) bs -> 0 <= of_be_bytes bs.
Proof.
  intros Hbs. unfold of_be_bytes.
  assert (forall z, 0 <= z -> 0 <= fold_left (fun acc b => acc * 256 + b) bs z) as H; [|by apply H].
  induction Hbs as [|b bs Hb _ IH]; intros z Hz; simpl; [done|]. apply IH. lia.
Qed.

Lemma keeps_word k B c (n : nat) (f : sge_pack_buffer -> outcome (sge_pack_buffer * Z * Z)) :
  (forall pb, f pb = unpack_fixed pb n) ->
  keeps k B [] c (unpack_with f) (fun _ => []) (c + n) (fun i => 0 <= i).
Proof.
  intros Hf. apply keeps_run; [lia|]. intros w pb rest Hr Hb. rewrite Hf.
  rewrite (unpack_fixed_spec _ _ _ Hr) by lia. exists (w_heap w).
  destruct (length rest <? Z.of_nat n) eqn:E; cbn [of_outcome mbind result_bind].
  - exists pb, 0%nat, 0, PACK_FORMAT. destruct w. by split; [|split].
  - eexists _, n, _, _. split; [by destruct w|].
    split; [rewrite <- (Nat2Z.id n) at 2; apply advance_spec; [done|lia]|].
    intros _. split; [by apply of_be_bytes_range, Forall_take|]. rewrite length_drop. lia.
Qed.

Lemma keeps_uint k B c : keeps k B [] c uint (fun _ => []) (c + 4) (fun i => 0 <= i).
Proof. by apply (keeps_word k B c 4). Qed.
Lemma keeps_uint64 k B c : keeps k B [] c uint64 (fun _ => []) (c + 8) (fun i => 0 <= i).
Proof. by apply (keeps_word k B c 8). Qed.
Lemma keeps_udouble k B c : keeps k B [] c udouble (fun _ => []) (c + 8) (fun i => 0 <= i).
Proof. by apply (keeps_word k B c 8). Qed.

Lemma keeps_ustr k B c : keeps k B [] c ustr (fun _ => []) (c + 1) (fun _ => True).
Proof.
  apply keeps_run; [lia|]. intros w pb rest Hr _. rewrite (unpackstr_spec _ _ _ Hr).
  destruct rest as [|b rest].
  { exists (w_heap w), pb, 0%nat, None, PACK_FORMAT. destruct w. by split; [|split]. }
  destruct (b =? 0).
  { exists (w_heap w), (advance pb 1), 1%nat, None, PACK_SUCCESS. split; [by destruct w|].
    split; [apply (advance_spec pb (b :: rest) 1 Hr); cbn [length]; lia|]. rewrite length_drop. cbn [length]. lia. }
  destruct (find_nul (b :: rest)) as [i|] eqn:En.
  - apply find_nul_lt in En. destruct (alloc (w_heap w) (i + 1)) as [h' [m|]].
    + eexists h', _, (S i), _, PACK_SUCCESS. cbn [of_outcome mbind result_bind]. split; [done|].
      split; [replace (S i) with (Z.to_nat (i + 1)) by lia; apply advance_spec; [done|lia]|].
      rewrite length_drop. lia.
    + exists h', pb, 0%nat, None, PACK_ENOMEM. by split; [|split].
  - exists (w_heap w), pb, 0%nat, None, PACK_FORMAT. destruct w. by split; [|split].
Qed.

Lemma keeps_calloc k B c n : 0 <= c -> keeps k B [] c (calloc_ok n) (fun _ => []) c (fun _ => True).
Proof.
  intros Hc. apply keeps_upd; [lia|]. intros w L x Hr Hh _ Hroom _.
  destruct (alloc (w_heap w) n) as [h m]. simpl. split; [done|]. split; [by apply reg_ok_heap|].
  split; [|done]. destruct Hh as [? Hh]. by split.
Qed.

Lemma keeps_malloc k B c n : 0 <= c -> 0 <= n -> keeps k B [] c (malloc n) (fun _ => []) c (fun _ => True).
Proof.
  intros Hc Hn. apply keeps_upd; [lia|]. intros w L x Hr Hh _ Hroom _. unfold sge_malloc.
  destruct Hh as [Hu Hh]. destruct (n =? 0); [simpl; by split; [|split; [by apply reg_ok_heap|split]]|].
  destruct (alloc (w_heap w) n) as [h [m|]] eqn:E; simpl.
  - by split; [|split; [by apply reg_ok_heap|split]].
  - intros Hp. specialize (Hp (w_heap w) n Hn). rewrite E in Hp. by destruct Hp.
Qed.

(** ** Descriptors *)

Lemma keeps_entries k p c :
  keeps k [p] [] c (descr_entries ns p) (fun _ => []) c
    (fun es => exists fs keep, view fs keep es /\ (length fs < 200)%nat).
Proof.
  apply keeps_ask_one. intros w d (fs & Hd). destruct (denotes_entries ns _ _ _ _ _ Hd) as (es & E & Hv).
  exists es. split; [done|]. exists fs, (snd d). split; [done|].
  destruct (denotes_facts ns _ _ _ _ _ Hd) as (Ht & _). by apply (type_at_fields ns _ _ Ht).
Qed.

Lemma keeps_present k p c :
  keeps k [p] [] c (present ns p) (fun _ => []) c
    (fun fs => exists keep, fs = imap (fun slot pos => (pos, Z.of_nat slot)) (kept keep)).
Proof.
  apply keeps_ask_one. intros w d (fs & Hd). eexists. split; [exact (denotes_present ns _ _ _ _ _ Hd)|].
  by exists (snd d).
Qed.

Lemma keeps_count k p c :
  keeps k [p] [] c (count_present_of ns p) (fun _ => []) c (fun n => 0 <= n).
Proof.
  apply keeps_ask_one. intros w d (fs & Hd). eexists. split; [exact (denotes_count ns _ _ _ _ _ Hd)|]. lia.
Qed.

Lemma keeps_is_static k p c :
  keeps k [p] [] c (is_static ns p) (fun _ => []) c (fun _ => True).
Proof.
  apply keeps_ask_one. intros w d (fs & Hd). pose proof (is_static_spec ns Hns _ _ _ _ _ Hd) as E.
  eexists. split; [exact E|done].
Qed.

Lemma keeps_release k B p c : 0 <= c -> keeps k B [p] c (release ns p) (fun _ => []) c (fun _ => True).
Proof.
  intros Hc. apply keeps_upd; [lia|]. intros w L x Hr Hh _ Hroom _.
  pose proof (hd_usable _ _ Hh) as Hu. apply Forall_cons in Hu as [Hp _].
  destruct (usable_denotes w p Hr Hp) as (d & fs & Hd).
  destruct (release_spec ns w p _ _ _ Hr Hd) as (w' & E & Hr' & Hl).
  rewrite E. cbn [mbind result_bind or_abort]. split; [done|]. split; [done|].
  by apply (held_lost w w' p).
Qed.

Lemma keeps_ref k B p c :
  p ∈ B -> 0 <= c -> keeps k B [] (c + 1) (ref ns p) (fun _ => [p]) c (fun _ => True).
Proof.
  intros Hin Hc. apply keeps_upd; [lia|]. intros w L x Hr Hh HB Hroom Hx.
  pose proof (hd_usable _ _ Hh) as Hu. rewrite Forall_forall in Hu.
  destruct (usable_denotes w p Hr (Hu p ltac:(set_solver))) as (d & fs & Hd).
  destruct (ref_spec ns w p _ _ _ Hr Hd) as (w' & E & Hr' & Hg & Hd' & _).
  rewrite E. cbn [or_abort]. split; [done|]. split; [done|]. rewrite Z.add_assoc in Hroom.
  apply (held_gained w w' p d L (x + c) Hh Hroom ltac:(lia) Hg). by exists fs.
Qed.

Lemma keeps_build k B j fs keep c :
  type_at ns j fs -> length fs = length keep -> (0 < length (kept keep))%nat -> 0 <= c ->
  keeps k B [] (c + 1) (upd (fun w => ocs_cull_descr_build ns w (Some (DStatic j)) keep))
    (fun o => match o with Some p => [p] | None => [] end) c (fun _ => True).
Proof.
  intros Ht Hl Hk Hc. apply keeps_upd; [lia|]. intros w L x Hr Hh HB Hroom Hx.
  pose proof (build_spec ns Hns w j fs keep Hr Ht Hl Hk) as Hb.
  destruct (ocs_cull_descr_build _ _ _ _) as [[w' p]| | | | |]; try done. cbn [or_abort] in *.
  destruct Hb as (q & -> & Hr' & Hg & Hd). split; [done|]. split; [done|].
  rewrite Z.add_assoc in Hroom.
  apply (held_gained w w' q (j, keep) L (x + c) Hh Hroom ltac:(lia) Hg). by exists fs.
Qed.

(** ** What values hold *)

Section Freeing.
Context (Hbad : bad).

Definition owner (k : cull_elem_kind) (p : dptr) : list dptr :=
  if bool_decide (k = FREE_ELEM \/ k = OBJECT_ELEM) then [p] else [].

(** A list holds its descriptor for its elements; other elements hold their own. *)
Fixpoint own (v : lMultiType) : list dptr :=
  let elem (e : lListElem) :=
    match e with Elem k p cont => owner k p ++ concat (map own cont) end in
  match v with
  | VList (Some (LList _ dp es)) => dp :: concat (map elem es)
  | VObject (Some e) => elem e
  | _ => []
  end.

Definition own_values (vs : list lMultiType) : list dptr := concat (map own vs).
Definition own_elem (e : lListElem) : list dptr := owner (e_kind e) (e_descr e) ++ own_values (e_cont e).
Definition own_elems (es : list lListElem) : list dptr := concat (map own_elem es).
Definition own_list (l : lList) : list dptr := l_descr l :: own_elems (l_elems l).

(** Elements of a list are bound to its descriptor, a sub-object is one. *)
Fixpoint linked (v : lMultiType) : Prop :=
  match v with
  | VList (Some (LList _ dp es)) =>
      Forall id (map (fun e => match e with Elem k p cont =>
        k = BOUND_ELEM /\ p = dp /\ Forall id (map linked cont) end) es)
  | VObject (Some (Elem k p cont)) => k = OBJECT_ELEM /\ Forall id (map linked cont)
  | _ => True
  end.

Definition bound_to (dp : dptr) (e : lListElem) : Prop :=
  e_kind e = BOUND_ELEM /\ e_descr e = dp /\ Forall linked (e_cont e).

Definition linked_list (l : lList) : Prop := Forall (bound_to (l_descr l)) (l_elems l).

Lemma Forall_id_map {A} (P : A -> Prop) l : Forall id (map P l) <-> Forall P l.
Proof. by rewrite Forall_fmap. Qed.

Lemma linked_VList l : linked (VList (Some l)) <-> linked_list l.
Proof.
  destruct l as [name dp es]. unfold linked_list. simpl. rewrite Forall_id_map.
  split; intros H; (eapply Forall_impl; [exact H|]); intros [k p cont];
    unfold bound_to; simpl; by rewrite Forall_id_map.
Qed.

Lemma own_VList l : own (VList (Some l)) = own_list l.
Proof.
  destruct l as [name dp es]. unfold own_list, own_elems. simpl. do 2 f_equal.
  apply map_ext. by intros [].
Qed.

Lemma own_VObject e : own (VObject (Some e)) = own_elem e.
Proof. by destruct e. Qed.

(** ** Freeing gives back what a value holds *)

Definition frees (v : lMultiType) : Prop :=
  forall k B type, linked v -> keeps k B (own v) 0 (free_value ns v type) (fun _ => []) 0 (fun _ => True).

Lemma keeps_nothing k B pre : keeps k B pre 0 (mret tt) (fun _ => []) 0 (fun _ => True).
Proof. apply keeps_ret; [done|]. apply submseteq_nil_l. Qed.

Lemma free_fields_keeps k B es (ks : list nat) vs (j : nat) :
  Forall frees vs -> Forall linked vs ->
  keeps k B (own_values (drop j vs)) 0
    (free_fields (map (free_value ns) vs) es
       (imap (fun slot pos => (pos, Z.of_nat (slot + j))) ks)) (fun _ => []) 0 (fun _ => True).
Proof.
  intros Hf Hl. revert j. induction ks as [|pos ks IH]; intros j; [apply keeps_nothing|].
  cbn [imap free_fields]. rewrite (proj2 (Z.ltb_ge _ _)) by lia. rewrite Nat2Z.id.
  change (map (free_value ns) vs) with (free_value ns <$> vs) at 1. rewrite list_lookup_fmap.
  destruct (vs !! (0 + j)%nat) as [v|] eqn:Hv; cbn [fmap option_fmap option_map].
  - rewrite Nat.add_0_l in Hv. rewrite (drop_S vs v j Hv). unfold own_values. cbn [map concat].
    eapply (keeps_bind _ _ [] _ (own v) (own_values (drop (S j) vs))); [done|set_solver| |].
    + apply (Forall_lookup_1 _ _ _ _ Hf Hv). apply (Forall_lookup_1 _ _ _ _ Hl Hv).
    + intros [] _. rewrite (imap_ext _ (fun slot pos => (pos, Z.of_nat (slot + S j))))
        by (intros; simpl; do 2 f_equal; lia). apply IH.
  - intros s rest F _ _ _. exact Hbad.
Qed.

(** The caller holds the descriptor of an element that does not. *)
Lemma free_elem_keeps k B kind p vs :
  Forall frees vs -> Forall linked vs -> p ∈ owner kind p ++ B ->
  keeps k B (owner kind p ++ own_values vs) 0 (free_elem ns (kind, p, map (free_value ns) vs))
    (fun _ => []) 0 (fun _ => True).
Proof.
  intros Hf Hl Hp. unfold free_elem.
  eapply (keeps_quiet _ _ [p]); [set_solver|apply keeps_entries|]. intros es _.
  eapply (keeps_quiet _ _ [p]); [set_solver|apply keeps_present|]. intros fs (keep & ->).
  eapply (keeps_bind _ _ [] _ (own_values vs) (owner kind p));
    [apply Permutation_submseteq; solve_Permutation|set_solver| |].
  - pose proof (free_fields_keeps k [] es (kept keep) vs 0 Hf Hl) as H.
    rewrite drop_0 in H. rewrite (imap_ext _ (fun slot pos => (pos, Z.of_nat slot))) in H
      by (intros; simpl; do 2 f_equal; lia). exact H.
  - intros [] _. unfold owner. destruct (bool_decide _); [by apply keeps_release|apply keeps_nothing].
Qed.

Lemma free_elems_keeps k dp (es : list lListElem) :
  Forall (fun e => Forall frees (e_cont e)) es -> Forall (bound_to dp) es ->
  keeps k [dp] (own_elems es) 0 (free_elems ns (map (freers ns) es)) (fun _ => []) 0 (fun _ => True).
Proof.
  induction es as [|e es IH]; intros Hf Hl; [apply keeps_nothing|].
  apply Forall_cons in Hf as [Hfe Hf]. apply Forall_cons in Hl as [(Hk & Hd & Hle) Hl].
  cbn [map free_elems]. unfold own_elems. cbn [map concat].
  eapply (keeps_bind _ _ [dp] _ (own_elem e) (own_elems es)); [done|set_solver| |].
  - unfold freers, own_elem. apply free_elem_keeps; [done|done|]. rewrite Hd. set_solver.
  - intros [] _. by apply IH.
Qed.

Lemma free_list_keeps k B name dp (es : list lListElem) :
  Forall (fun e => Forall frees (e_cont e)) es -> linked_list (LList name dp es) ->
  keeps k B (own_list (LList name dp es)) 0 (free_list ns dp (map (freers ns) es))
    (fun _ => []) 0 (fun _ => True).
Proof.
  intros Hf Hl. unfold free_list, own_list. cbn [l_descr l_elems] in *.
  eapply (keeps_bind _ _ [dp] _ (own_elems es) [dp]);
    [apply Permutation_submseteq; solve_Permutation|set_solver|by apply free_elems_keeps|].
  intros [] _. by apply keeps_release.
Qed.

Lemma all_frees v : frees v.
Proof.
  induction v as [| | | | | | | |name dp es IH| |kind p cont IH] using multi_induction;
    intros k B type Hl; cbn [free_value].
  all: try (repeat (case_match; try apply keeps_nothing; try (apply keeps_bad; exact Hbad)); fail).
  - destruct (_ || _); [by apply keeps_bad|]. destruct (_ =? _).
    + rewrite own_VList. rewrite linked_VList in Hl.
      rewrite (map_ext _ (freers ns)) by (by intros []). by apply free_list_keeps.
    + destruct (_ =? _); [by apply keeps_bad|apply keeps_nothing].
  - destruct (_ || _); [by apply keeps_bad|]. destruct (_ =? _); [by apply keeps_bad|].
    destruct (_ =? _); [|apply keeps_nothing]. destruct Hl as [-> Hl].
    rewrite Forall_id_map in Hl. apply free_elem_keeps; [done|done|set_solver].
Qed.

Lemma keeps_free_list k B l :
  linked_list l -> keeps k B (own_list l) 0 (lFreeList ns l) (fun _ => []) 0 (fun _ => True).
Proof.
  destruct l as [name dp es]. intros Hl. apply free_list_keeps; [|done].
  apply Forall_forall. intros e _. apply Forall_forall. intros v _. apply all_frees.
Qed.

End Freeing.

(** ** Unpacking a descriptor *)

Lemma keeps_less {A} k B pre c (m : M A) post c1 c2 P :
  0 <= c2 <= c1 -> keeps k B pre c m post c1 P -> keeps k B pre c m post c2 P.
Proof.
  intros Hc Hm s rest F HB Hi Hk. specialize (Hm s rest F HB Hi Hk).
  destruct (m s) as [[s' [a|code]]| | | | |]; try done.
  destruct Hm as [HP (r1 & Hi2 & Hl)]. split; [done|]. exists r1. split; [|lia].
  by eapply inv_credit.
Qed.

(** The block of a type needs no reference. *)
Lemma keeps_static {A} k B pre c (m : M A) post c' P j fs :
  type_at ns j fs -> keeps k B (DStatic j :: pre) c m post c' P -> keeps k B pre c m post c' P.
Proof.
  intros Ht Hm s rest F HB Hi Hk. apply Hm; [done| |done].
  destruct Hi as [? ? ? [Hu Hc] ? ?]. split; try done. split.
  - apply Forall_app in Hu as [? ?]. apply Forall_app. split; [done|]. cbn [app].
    constructor; [by exists fs|done].
  - intros l b Hl. specialize (Hc l b Hl). unfold holders in *. rewrite filter_app in *.
    cbn [app]. rewrite filter_cons_False by done. done.
Qed.

Lemma ref_inv s rest L c p :
  inv s rest L (c + 1) -> 0 <= c -> p ∈ default [] (s_tab s) ++ L ->
  exists s', ref ns p s = Done (s', inl (Some p)) /\ inv s' rest (p :: L) c.
Proof.
  intros [Hpb Hb Hr Hh Hroom Hc] Hc0 Hp. pose proof (hd_usable _ _ Hh) as Hu.
  rewrite Forall_forall in Hu. destruct (usable_denotes _ p Hr (Hu p Hp)) as (d & fs & Hd).
  destruct (ref_spec ns _ p _ _ _ Hr Hd) as (w' & E & Hr' & Hg & Hd' & _).
  rewrite Z.add_assoc in Hroom.
  destruct (held_gained _ w' p d _ (length rest + c) Hh Hroom ltac:(lia) Hg) as [Hh' Hroom'];
    [by exists fs|].
  eexists. unfold ref, upd. rewrite E. cbn [mbind result_bind]. split; [done|].
  split; simpl; try done. eapply held_sub; [|exact Hh'].
  apply Permutation_submseteq. solve_Permutation.
Qed.

(** A reference on an entry of the table. *)
Lemma keeps_from_table {A} k B (i : nat) code c (K : dptr -> M A) post c' P :
  0 <= c -> (forall p, keeps k B [p] c (K p) post c' P) ->
  keeps k B [] (c + 1)
    (tab ← table; match tab !! i with
                  | None => fail code
                  | Some p => _ ← ref ns p; K p
                  end) post c' P.
Proof.
  intros Hc HK s rest F HB Hi Hk. unfold mbind at 1, M_bind, table. cbn [mbind result_bind].
  destruct (_ !! i) as [p|] eqn:Hp.
  - destruct (ref_inv s rest F c p Hi Hc) as (s' & E & Hi').
    { apply elem_of_app. left. by apply list_elem_of_lookup_2 in Hp. }
    unfold mbind, M_bind. rewrite E. cbn [mbind result_bind].
    specialize (HK p s' rest F HB Hi' ltac:(lia)).
    destruct (K p s') as [[s2 [a|code']]| | | | |]; try done.
    + destruct HK as [HP (r & Hi2 & Hl)]. split; [done|]. exists r. split; [done|lia].
    + destruct HK as (r & Hi2 & Hl). exists r. split; [done|lia].
  - exists rest. split; [|lia]. eapply inv_credit; [|exact Hi]. lia.
Qed.

Lemma keeps_push k B p c : keeps k B [p] c (table_push p) (fun _ => []) c (fun _ => True).
Proof.
  intros s rest F HB [Hpb Hb Hr Hh Hroom Hc] Hk. cbn. split; [done|]. exists rest. split; [|done].
  split; try done. simpl. by rewrite <- app_assoc.
Qed.

(** A descriptor goes into the table with the reference that is held, and the caller
    takes one of its own. *)
Lemma keeps_push_ref {A} k B p pre c (m : M A) post c' P :
  0 <= c -> keeps k B (p :: pre) c m post c' P ->
  keeps k B (p :: pre) (c + 1) (_ ← table_push p; _ ← ref ns p; m) post c' P.
Proof.
  intros Hc Hm s rest F HB Hi Hk. unfold mbind, M_bind.
  assert (inv (St (s_world s) (s_pb s) (Some (default [] (s_tab s) ++ [p])) (s_cache s)) rest
    (pre ++ F) (c + 1)) as Hi1.
  { destruct Hi as [Hpb Hb Hr Hh Hroom ?]. split; try done. simpl. by rewrite <- app_assoc. }
  unfold table_push. cbn [mbind result_bind].
  destruct (ref_inv _ _ _ _ p Hi1 Hc) as (s' & E & Hi'); [simpl; set_solver|].
  rewrite E. cbn [mbind result_bind]. specialize (Hm s' rest F HB Hi' ltac:(lia)).
  destruct (m s') as [[s2 [a|code]]| | | | |]; try done.
  - destruct Hm as [HP (r & ? & ?)]. split; [done|]. exists r. split; [done|lia].
  - destruct Hm as (r & ? & ?). exists r. split; [done|lia].
Qed.

Lemma keeps_pack_table k B c : 0 <= c -> keeps k B [] c pack_table (fun _ => []) c (fun _ => True).
Proof.
  intros Hc s rest F HB Hi Hk. unfold pack_table. destruct (s_tab s) as [t|] eqn:Et.
  { split; [done|]. by exists rest. }
  pose proof (keeps_calloc k B c 24 Hc s rest F HB Hi Hk) as Hm.
  destruct (calloc_ok 24 s) as [[s' [[]|code]]| | | | |] eqn:E; cbn [mbind result_bind]; try done.
  destruct Hm as [_ (r & [Hpb Hb Hr Hh Hroom ?] & Hl)]. split; [done|]. exists r. split; [|done].
  split; try done. simpl in *. eapply held_sub; [|exact Hh]. by apply submseteq_inserts_l.
Qed.

Lemma kept_from_some pos keep (i : nat) :
  keep !! i = Some true -> (0 < length (kept_from pos keep))%nat.
Proof.
  revert i pos. induction keep as [|b keep IH]; intros i pos; [done|].
  destruct i as [|i]; simpl; [intros [= ->]; simpl; lia|]. intros H%(IH i (S pos)).
  destruct b; simpl; lia.
Qed.

Lemma keeps_indices k B count type_n last keep c :
  0 <= c -> -1 <= last -> type_n = length keep ->
  keeps k B [] c (unpack_indices count type_n last keep) (fun _ => []) c
    (fun keep' => length keep' = length keep /\
       ((exists i : nat, keep !! i = Some true) \/ (0 < count)%nat -> exists i : nat, keep' !! i = Some true)).
Proof.
  intros Hc. revert last keep. induction count as [|count IH]; intros last keep Hlast Hn; cbn [unpack_indices].
  { apply keeps_ret; [|done]. split; [done|]. intros [?|?]; [done|lia]. }
  eapply (keeps_quiet _ _ []); [set_solver|apply keeps_uint|]. intros temp _.
  destruct (_ || _) eqn:E; [apply keeps_fail|]. apply orb_false_iff in E as [E1 E2].
  apply (keeps_spend k k _ _ _ c); [lia|lia|].
  eapply keeps_weaken; [apply (IH temp)|done|]; [lia|rewrite length_insert; lia|].
  intros keep' [Hl Hs]. rewrite length_insert in Hl. split; [split; [done|]|done]. intros _.
  apply Hs. left. exists (Z.to_nat temp). apply list_lookup_insert_eq. lia.
Qed.

Lemma keeps_fields k B n prev c :
  0 <= c -> keeps k B [] c (unpack_fields n prev) (fun _ => []) c (fun _ => True).
Proof.
  intros Hc. revert prev. induction n as [|n IH]; intros prev; cbn [unpack_fields].
  { by apply keeps_ret. }
  eapply (keeps_quiet _ _ []); [set_solver|apply keeps_uint|]. intros t1 _.
  destruct (match prev with Some _ => _ | None => _ end); [apply keeps_fail|].
  eapply (keeps_quiet _ _ []); [set_solver|apply keeps_uint|]. intros t2 _.
  apply (keeps_spend k k _ _ _ c); [lia|lia|].
  eapply (keeps_quiet _ _ B); [set_solver|apply IH|]. intros ds _. by apply keeps_ret.
Qed.

Lemma keeps_type_entries k B j fs c :
  type_at ns j fs ->
  keeps k B [] c (descr_entries ns (DStatic j)) (fun _ => []) c
    (fun es => count_entries es = length fs).
Proof.
  intros Ht. apply keeps_ask. intros w _ _. unfold entries. rewrite (type_at_descr _ _ _ Ht).
  eexists. split; [done|]. apply (type_at_count _ _ _ Ht).
Qed.

Lemma keep_wire_spec tes (type_n : nat) dp keep keep' :
  keep_wire tes type_n dp keep = Some keep' -> type_n = length keep ->
  length keep' = length keep /\
  ((exists i : nat, keep !! i = Some true) \/ dp <> [] -> exists i : nat, keep' !! i = Some true).
Proof.
  revert keep. induction dp as [|d dp IH]; intros keep; cbn [keep_wire].
  { intros [= <-] _. split; [done|]. by intros [?|?]. }
  destruct (_ && _) eqn:E; [|done]. intros Hk Hn.
  destruct (IH _ Hk) as [Hl Hs]; [by rewrite length_insert|]. rewrite length_insert in Hl.
  split; [done|]. intros _. apply Hs. left. eexists. apply list_lookup_insert_eq.
  rewrite !andb_true_iff in E. lia.
Qed.

(** The descriptor comes with a reference for the caller. *)
Notation hands_descr k B pre c m := (keeps k B pre c m (fun pn : dptr * Z => [fst pn]) 0 (fun _ => True)).

Lemma keeps_build_table k B pre j fs keep (n : Z) c :
  type_at ns j fs -> length keep = length fs -> (0 < length (kept keep))%nat -> 0 <= c ->
  hands_descr k B pre (c + 2)
    (shared ← upd (fun w => ocs_cull_descr_build ns w (Some (DStatic j)) keep);
     match shared with
     | None => fail PACK_ENOMEM
     | Some p =>
         ok ← pack_table;
         if negb (ok : bool) then _ ← release ns p; fail PACK_ENOMEM
         else
           _ ← table_push p;
           _ ← ref ns p;
           mret (p, n)
     end).
Proof.
  intros Ht Hl Hk Hc. replace (c + 2) with (c + 1 + 1) by lia.
  eapply (keeps_bind _ _ B _ [] pre); [done|set_solver|eapply keeps_build; [exact Ht|done|done|lia]|].
  intros [p|] _; [|apply keeps_fail]. cbn [app].
  eapply (keeps_quiet _ _ []); [set_solver|apply keeps_pack_table; lia|]. intros [] _; cbn [negb].
  - apply keeps_push_ref; [lia|]. apply (keeps_less _ _ _ _ _ _ c); [lia|].
    apply keeps_ret; [done|]. apply submseteq_skip, submseteq_nil_l.
  - eapply (keeps_bind _ _ [] _ [p] pre); [done|set_solver|apply keeps_release; lia|].
    intros [] _. apply keeps_fail.
Qed.

Lemma keeps_by_index k B c : 0 <= c -> hands_descr k B [] c (unpack_by_index ns).
Proof.
  intros Hc. unfold unpack_by_index.
  eapply (keeps_quiet _ _ []); [set_solver|apply keeps_uint|]. intros type_nm _.
  eapply (keeps_quiet _ _ []); [set_solver|apply keeps_uint|]. intros count Hcount.
  destruct (ocs_cull_descr_static_for ns (s32 type_nm)) as [type|] eqn:Et; [|apply keeps_fail].
  destruct (static_for_sound ns Hns _ _ Et) as (j & fs & d & -> & Ht & _).
  eapply (keeps_quiet _ _ []); [set_solver|by apply keeps_type_entries|]. intros tes Hn.
  destruct (_ <? count); [apply keeps_fail|].
  apply (keeps_spend k k _ _ _ (0 + 2)); [lia|lia|].
  eapply (keeps_quiet _ _ []); [set_solver|apply keeps_indices; [lia|lia|by rewrite repeat_length]|].
  intros keep [Hl Hs]. destruct (count =? 0) eqn:E0; [apply keeps_fail|].
  rewrite repeat_length, Hn in Hl. destruct Hs as (i & Hi); [right; cbv beta in Hcount; lia|].
  eapply keeps_build_table; [exact Ht|done|by apply (kept_from_some 0 _ i)|lia].
Qed.

Lemma keeps_from_wire k B dp n enter c : 2 <= c -> hands_descr k B [] c (build_from_wire ns dp n enter).
Proof.
  intros Hc. unfold build_from_wire. destruct dp as [|d dp]; [apply keeps_fail|].
  destruct (ocs_cull_descr_static_containing ns (nm d)) as [[type i]|] eqn:Et; [|apply keeps_fail].
  destruct (static_containing_sound ns Hns _ _ _ Et) as (j & fs & f & -> & Ht & _).
  eapply (keeps_quiet _ _ []); [set_solver|by apply keeps_type_entries|]. intros tes Hn. rewrite Hn.
  destruct (keep_wire _ _ _ _) as [keep|] eqn:Ek; [|apply keeps_fail].
  destruct (keep_wire_spec _ _ _ _ _ Ek) as [Hl Hs]; [by rewrite repeat_length|].
  rewrite repeat_length in Hl. destruct Hs as (b & Hb); [by right|].
  apply kept_from_some with 0%nat _ _ in Hb.
  apply (keeps_spend k k _ _ _ (0 + 1 + 1)); [lia|lia|].
  eapply (keeps_bind _ _ [] _ [] []); [done|set_solver|eapply keeps_build; [exact Ht|done|done|lia]|].
  intros [p|] _; [|apply keeps_fail]. cbn [app]. destruct enter.
  - eapply (keeps_quiet _ _ []); [set_solver|apply keeps_pack_table; lia|]. intros [] _; cbn [negb].
    + eapply (keeps_bind _ _ [p] _ [] [p]); [done|set_solver|apply keeps_ref; [set_solver|lia]|].
      intros q _. eapply (keeps_bind _ _ [] _ [p] [p]); [done|set_solver|apply keeps_push|].
      intros [] _. by apply keeps_ret.
    + eapply (keeps_bind _ _ [] _ [p] []); [done|set_solver|apply keeps_release; lia|].
      intros [] _. apply keeps_fail.
  - apply (keeps_less _ _ _ _ _ _ 1); [lia|]. by apply keeps_ret.
Qed.

Lemma keeps_prefix_type k B dp c :
  keeps k B [] c (ocs_cull_unpack_prefix_type ns dp) (fun _ => []) c
    (fun t => forall p, t = Some (Some p) -> exists j fs, p = DStatic j /\ type_at ns j fs).
Proof.
  unfold ocs_cull_unpack_prefix_type. destruct dp as [|d dp]; [by apply keeps_ret|].
  destruct (ocs_cull_descr_static_containing ns (nm d)) as [[type [|i]]|] eqn:Et; [|by apply keeps_ret..].
  destruct (static_containing_sound ns Hns _ _ _ Et) as (j & fs & f & -> & Ht & _).
  eapply (keeps_quiet _ _ []); [set_solver|by apply keeps_type_entries|]. intros tes Hn.
  destruct (negb _); [by apply keeps_ret|]. destruct (_ <? _)%nat; [by apply keeps_ret|].
  apply keeps_ret; [|done]. intros p [= <-]. eauto.
Qed.

(** The descriptor the caller expects is one it holds. *)
Definition expected_in (B : list dptr) (expected : option dptr) : Prop :=
  forall p, expected = Some p -> p ∈ B.

Lemma keeps_by_field k B n enter expected c :
  2 <= c -> expected_in B expected -> 0 <= n ->
  hands_descr k B [] c (unpack_by_field ns n enter expected).
Proof.
  intros Hc He Hn. unfold unpack_by_field. destruct (_ <? n); [apply keeps_fail|].
  eapply (keeps_quiet _ _ []); [set_solver|apply keeps_malloc; lia|]. intros [] _.
  eapply (keeps_quiet _ _ []); [set_solver|apply keeps_fields; lia|]. intros dp _.
  destruct (_ && _); [|by apply keeps_from_wire].
  eapply (keeps_quiet _ _ []); [set_solver|apply keeps_prefix_type|]. intros [type|] Ht; [|apply keeps_fail].
  eapply (keeps_quiet _ _ B _ c c _ _ _ _ (fun _ => True)).
  - set_solver.
  - destruct expected as [e|]; [|by apply keeps_ret].
    apply (keeps_borrow _ _ [e]); [apply keeps_is_static|]. intros p Hp. apply He.
    apply list_elem_of_singleton in Hp as ->. done.
  - intros st _. destruct (_ && _); [apply keeps_fail|]. destruct type as [t|]; [|by apply keeps_from_wire].
    destruct (Ht t eq_refl) as (j & fs & -> & Hty).
    apply (keeps_static _ _ _ _ _ _ _ _ _ _ Hty).
    apply (keeps_less _ _ _ _ _ _ c); [lia|]. by apply keeps_ret.
Qed.

Lemma keeps_unpack_descr k B flags expected c :
  0 <= c -> expected_in B expected -> hands_descr k B [] c (cull_unpack_descr ns flags expected).
Proof.
  intros Hc He. unfold cull_unpack_descr.
  eapply (keeps_quiet _ _ []); [set_solver|apply keeps_uint|]. intros n Hn.
  destruct (n =? CULL_PACK_DESCR_TYPE_REF).
  { destruct (negb _); [apply keeps_fail|].
    eapply (keeps_quiet _ _ []); [set_solver|apply keeps_uint|]. intros first_nm _.
    eapply (keeps_quiet _ _ []); [set_solver|apply keeps_uint|]. intros count _.
    destruct (ocs_cull_descr_static_for ns (s32 first_nm)) as [type|] eqn:Et; [|apply keeps_fail].
    destruct (static_for_sound ns Hns _ _ Et) as (j & fs & d & -> & Ht & _).
    eapply (keeps_quiet _ _ []); [set_solver|by apply keeps_type_entries|]. intros tes _.
    destruct (_ || _); [apply keeps_fail|]. apply (keeps_static _ _ _ _ _ _ _ _ _ _ Ht).
    eapply keeps_less; [|by apply keeps_ret]. lia. }
  destruct (_ || _).
  - destruct (negb _); [apply keeps_fail|]. destruct (n =? CULL_PACK_DESCR_TABLE_REF).
    + eapply (keeps_quiet _ _ []); [set_solver|apply keeps_uint|]. intros index _.
      apply (keeps_spend k k _ _ _ (0 + 1)); [lia|lia|]. apply keeps_from_table; [lia|]. intros p.
      eapply (keeps_quiet _ _ [p]); [set_solver|apply keeps_count|]. intros cnt _. by apply keeps_ret.
    + eapply (keeps_quiet _ _ []); [set_solver|apply keeps_uint|]. intros kind _.
      destruct (kind =? _); [apply keeps_by_index; lia|]. destruct (negb _); [apply keeps_fail|].
      eapply (keeps_quiet _ _ []); [set_solver|apply keeps_uint|]. intros m Hm.
      apply keeps_by_field; [lia|done|done].
  - apply keeps_by_field; [lia|done|done].
Qed.

(** ** Unpacking values *)

Section Values.
Context (Hbad : bad).

Lemma keeps_empty {A} k B pre c (m : M A) post c' P : k <= 0 -> keeps k B pre c m post c' P.
Proof. intros Hk s rest F _ Hi Hlt. pose proof (iv_credit _ _ _ _ Hi). lia. Qed.

Lemma keeps_mono {A} k k' B pre c (m : M A) post c' P :
  k <= k' -> keeps k' B pre c m post c' P -> keeps k B pre c m post c' P.
Proof. intros Hk Hm s rest F HB Hi Hlt. apply Hm; [done|done|lia]. Qed.

(** A value of any type is read with less than [k] bytes left. *)
Definition reader (k : Z) (sw : Z -> Z -> M lMultiType) : Prop :=
  forall B type flags, keeps k B [] 0 (sw type flags) own 0 linked.

Lemma reader_mono k k' sw : k <= k' -> reader k' sw -> reader k sw.
Proof. intros Hk Hr B type flags. by eapply keeps_mono. Qed.

Lemma own_values_insert (i : nat) v vs : own_values (<[i := v]> vs) ⊆+ own v ++ own_values vs.
Proof.
  unfold own_values. revert i. induction vs as [|x vs IH]; intros [|i]; simpl.
  - apply submseteq_nil_l.
  - apply submseteq_nil_l.
  - apply submseteq_skips_l, submseteq_inserts_l. done.
  - etrans; [apply submseteq_skips_l, IH|]. apply Permutation_submseteq. solve_Permutation.
Qed.

Lemma keeps_cont_fields k B sw es flags wire_n fs cp :
  reader k sw -> Forall linked cp ->
  keeps k B (own_values cp) 0 (unpack_cont_fields sw es flags wire_n fs cp) own_values 0 (Forall linked).
Proof.
  intros Hsw. revert wire_n cp. induction fs as [|[pos slot] fs IH]; intros wire_n cp Hcp;
    cbn [unpack_cont_fields]; [by apply keeps_ret|].
  destruct (wire_n =? 0); [by apply keeps_ret|]. destruct (_ || _); [|by apply IH].
  eapply (keeps_bind _ _ [] _ [] (own_values cp)); [done|set_solver|apply Hsw|]. intros v Hv.
  destruct (_ && _); [|by apply keeps_bad].
  eapply keeps_weaken; [apply IH; by apply Forall_insert|apply own_values_insert|by auto].
Qed.

Lemma own_zeros n : own_values (repeat VZero n) = [].
Proof. induction n as [|n IH]; [done|]. simpl. exact IH. Qed.

Lemma keeps_unpack_cont k sw dp wire_n flags :
  reader k sw ->
  keeps k [dp] [] 0 (cull_unpack_cont ns sw dp wire_n flags) own_values 0 (Forall linked).
Proof.
  intros Hsw. unfold cull_unpack_cont.
  eapply (keeps_quiet _ _ [dp]); [set_solver|apply keeps_count|]. intros n Hn.
  destruct (n <? wire_n); [apply keeps_fail|].
  eapply (keeps_quiet _ _ []); [set_solver|apply keeps_calloc; lia|]. intros [] _; [|apply keeps_fail].
  cbn [negb]. eapply (keeps_quiet _ _ [dp]); [set_solver|apply keeps_entries|]. intros es _.
  eapply (keeps_quiet _ _ [dp]); [set_solver|apply keeps_present|]. intros fs _.
  rewrite <- (own_zeros (Z.to_nat (n + 1))). apply keeps_cont_fields; [done|].
  generalize (Z.to_nat (n + 1)). intros i. by induction i; constructor.
Qed.

(** What is unpacked as an element for a list or a sub-object. *)
Definition unbound (dp : option dptr) (e : lListElem) : Prop :=
  (e_kind e = FREE_ELEM \/ e_kind e = TRANS_BOUND_ELEM /\ dp = Some (e_descr e)) /\
  Forall linked (e_cont e).

Lemma keeps_unpack_elem k B sw dp wire_n flags :
  reader k sw -> expected_in B dp ->
  keeps k B [] 0 (ocs_cull_unpack_elem ns sw dp wire_n flags) own_elem 0 (unbound dp).
Proof.
  intros Hsw Hdp. unfold ocs_cull_unpack_elem.
  eapply (keeps_quiet _ _ []); [set_solver|apply keeps_calloc; lia|]. intros [] _; [|apply keeps_fail].
  cbn [negb]. eapply (keeps_quiet _ _ []); [set_solver|apply keeps_uint|]. intros wire _.
  destruct (elem_kind_from_wire wire) as [kind|]; [|apply keeps_fail].
  assert (keeps k B [] (0 + 4) (match dp with
    | None => fail PACK_BADARG
    | Some descr => cont ← cull_unpack_cont ns sw descr wire_n flags; mret (Elem TRANS_BOUND_ELEM descr cont)
    end) own_elem 0 (unbound dp)) as Hbound.
  { destruct dp as [p|]; [|apply keeps_fail]. apply (keeps_spend k k _ _ _ 0); [lia|lia|].
    eapply (keeps_bind _ _ [p] _ [] []); [done| |by apply keeps_unpack_cont|].
    { intros q Hq. apply list_elem_of_singleton in Hq as ->. by apply Hdp. }
    intros cont Hc. apply keeps_ret; [split; [by right|done]|]. unfold own_elem. by rewrite app_nil_r. }
  destruct kind; [|exact Hbound..].
  eapply (keeps_bind _ _ B _ [] []); [done|set_solver|apply keeps_unpack_descr; [lia|]|].
  { destruct (flags =? 0); [done|exact Hdp]. }
  intros [descr wn] _. cbn [fst app].
  eapply (keeps_bind _ _ B _ ([] ++ [descr]) []); [done|set_solver| |].
  { eapply (keeps_on_error _ _ [descr]); [set_solver|by apply keeps_unpack_cont|by apply keeps_release]. }
  intros cont Hc. apply keeps_ret; [split; [by left|done]|].
  apply Permutation_submseteq. unfold own_elem, owner. simpl. rewrite app_nil_r. solve_Permutation.
Qed.

Lemma keeps_append k B l e :
  unbound (Some (l_descr l)) e -> linked_list l ->
  keeps k B (own_elem e ++ own_list l) 0 (lAppendElem ns l e) own_list 0
    (fun l' => linked_list l' /\ l_descr l' = l_descr l).
Proof.
  intros [Hk Hc] Hl. unfold lAppendElem.
  rewrite bool_decide_eq_false_2 by (destruct Hk as [-> |[-> _]]; by intros [?|?]).
  assert (forall (m : M unit) pre, (own_values (e_cont e) ++ own_list l) = pre ->
    keeps k B (own_elem e ++ own_list l) 0 m (fun _ => pre) 0 (fun _ => True) ->
    keeps k B (own_elem e ++ own_list l) 0
      (_ ← m; mret (LList (l_name l) (l_descr l) (l_elems l ++ [Elem BOUND_ELEM (l_descr l) (e_cont e)])))
      own_list 0 (fun l' => linked_list l' /\ l_descr l' = l_descr l)) as Hdone.
  { intros m pre <- Hm. eapply (keeps_bind _ _ B _ (own_elem e ++ own_list l) []);
      [by rewrite app_nil_r|set_solver|exact Hm|].
    intros [] _. apply keeps_ret.
    - split; [|done]. unfold linked_list. simpl. apply Forall_app. split; [done|]. by repeat constructor.
    - apply Permutation_submseteq. unfold own_list, own_elems. cbn [l_descr l_elems].
      rewrite map_app, concat_app. simpl. unfold own_elem at 2. simpl. solve_Permutation. }
  destruct (bool_decide (e_kind e = FREE_ELEM)) eqn:E.
  - apply bool_decide_eq_true in E. eapply Hdone; [done|].
    unfold own_elem, owner. rewrite E, bool_decide_eq_true_2 by auto.
    rewrite <- app_assoc.
    apply (keeps_frame k B [] (own_values (e_cont e) ++ own_list l) [e_descr e] 0 _ (fun _ => []));
      [set_solver|by apply keeps_release].
  - eapply Hdone; [done|]. apply keeps_ret; [done|]. apply submseteq_skips_r, submseteq_inserts_l. done.
Qed.

(** Every element takes bytes, so [k] bounds the length of the list. *)
Lemma keeps_elems k B (loops : nat) sw l wire_n flags :
  k <= loops -> reader k sw -> linked_list l ->
  keeps k B (own_list l) 0 (unpack_elems ns loops sw l wire_n flags) own_list 0 linked_list.
Proof.
  revert k l. induction loops as [|loops IH]; intros k l Hk Hsw Hl; [apply keeps_empty; lia|].
  cbn [unpack_elems].
  eapply (keeps_bind _ _ B _ ([] ++ own_list l) []); [by rewrite app_nil_r|set_solver| |].
  { eapply (keeps_on_error k B []); [set_solver|apply keeps_uint|by apply keeps_free_list]. }
  intros more _. rewrite app_nil_r. cbn [app].
  destruct (more =? 0); [eapply keeps_less; [|by apply keeps_ret]; lia|].
  apply (keeps_spend k (k - 4) _ _ _ 0); [lia|lia|].
  assert (reader (k - 4) sw) as Hsw' by (eapply reader_mono; [|exact Hsw]; lia).
  eapply (keeps_bind _ _ B _ ([] ++ own_list l) []); [by rewrite app_nil_r|set_solver| |].
  { eapply (keeps_on_error _ B [l_descr l]); [unfold own_list; set_solver| |by apply keeps_free_list].
    apply keeps_unpack_elem; [done|]. intros p [= <-]. set_solver. }
  intros e He. rewrite app_nil_r.
  eapply (keeps_bind _ _ B _ (own_elem e ++ own_list l) []); [by rewrite app_nil_r|set_solver|
    by apply keeps_append|].
  intros l' [Hl' _]. rewrite app_nil_r. apply IH; [lia|done|done].
Qed.

Definition own_list_opt (l : option lList) : list dptr :=
  match l with Some l => own_list l | None => [] end.
Definition own_elem_opt (e : option lListElem) : list dptr :=
  match e with Some e => own_elem e | None => [] end.

Lemma keeps_unpack_list k B (loops : nat) sw flags :
  k - 4 <= loops -> reader (k - 4) sw ->
  keeps k B [] 0 (unpack_list ns loops sw flags) own_list_opt 0
    (fun o => match o with Some l => linked_list l | None => True end).
Proof.
  intros Hk Hsw. unfold unpack_list.
  eapply (keeps_quiet _ _ []); [set_solver|apply keeps_uint|]. intros i _.
  destruct (i =? 0); [eapply keeps_less; [|by apply keeps_ret]; lia|].
  apply (keeps_spend k (k - 4) _ _ _ 0); [lia|lia|].
  eapply (keeps_quiet _ _ []); [set_solver|apply keeps_calloc; lia|]. intros [] _; [|apply keeps_fail].
  cbn [negb]. eapply (keeps_quiet _ _ []); [set_solver|apply keeps_ustr|]. intros name _.
  eapply (keeps_bind _ _ B _ [] []); [done|set_solver|apply keeps_unpack_descr; [lia|done]|].
  intros [descr wn] _. cbn [fst app].
  eapply (keeps_bind _ _ B _ (own_list (LList name descr [])) []); [done|set_solver| |].
  { apply keeps_elems; [done|done|constructor]. }
  intros l Hl. rewrite app_nil_r. by apply keeps_ret.
Qed.

Lemma keeps_unpack_object k B sw flags :
  reader (k - 4) sw ->
  keeps k B [] 0 (unpack_object ns sw flags) own_elem_opt 0
    (fun o => match o with Some e => e_kind e = OBJECT_ELEM /\ Forall linked (e_cont e) | None => True end).
Proof.
  intros Hsw. unfold unpack_object.
  eapply (keeps_quiet _ _ []); [set_solver|apply keeps_uint|]. intros i _.
  destruct (i =? 0); [eapply keeps_less; [|by apply keeps_ret]; lia|].
  apply (keeps_spend k (k - 4) _ _ _ 0); [lia|lia|].
  eapply (keeps_bind _ _ B _ [] []); [done|set_solver|apply keeps_unpack_descr; [lia|done]|].
  intros [descr wn] _. cbn [fst app].
  eapply (keeps_bind _ _ B _ ([] ++ [descr]) []); [done|set_solver| |].
  { eapply (keeps_on_error _ _ [descr]); [set_solver| |by apply keeps_release].
    apply keeps_unpack_elem; [done|]. intros p [= <-]. set_solver. }
  intros e [Hk Hc]. rewrite app_nil_r.
  eapply (keeps_bind _ _ B _ (own_elem e ++ [descr]) [] 0 0 0 _ _ (fun _ => e_descr e :: own_values (e_cont e)) _
    (fun _ => True)); [by rewrite app_nil_r|set_solver| |].
  - assert (own_elem e ++ [descr] ≡ₚ descr :: owner (e_kind e) (e_descr e) ++ own_values (e_cont e)) as Hp
      by (unfold own_elem; solve_Permutation).
    unfold owner in Hp. destruct Hk as [Hk|[Hk [= Hd]]]; rewrite Hk in Hp.
    + rewrite bool_decide_eq_true_2 in Hp by auto. destruct (bool_decide (e_descr e = descr)).
      * apply keeps_ret; [done|]. rewrite Hp. apply submseteq_cons. done.
      * eapply keeps_weaken; [|by rewrite Hp|].
        { apply (keeps_frame _ B [] (e_descr e :: own_values (e_cont e)) [descr] 0 _ (fun _ => []));
            [set_solver|by apply keeps_release]. }
        by auto.
    + rewrite bool_decide_eq_true_2 by done. apply keeps_ret; [done|]. rewrite Hp, Hd. done.
  - intros [] _. rewrite app_nil_r. apply keeps_ret; [done|]. done.
Qed.

(** Fuel for every byte is enough. *)
Lemma switch_reader (fuel : nat) : reader fuel (cull_unpack_switch ns fuel).
Proof.
  induction fuel as [|fuel IH]; intros B type flags; [apply keeps_empty; lia|].
  cbn [cull_unpack_switch].
  assert (forall {A} (m : M A) (f : A -> lMultiType) post c' P,
    keeps (S fuel) B [] 0 m post c' P -> 0 <= c' -> (forall a, P a -> linked (f a) /\ own (f a) ⊆+ post a) ->
    keeps (S fuel) B [] 0 (a ← m; mret (f a)) own 0 linked) as Hthen.
  { intros A m f post c' P Hm Hc' Hf.
    eapply (keeps_bind _ _ B _ [] []); [done|set_solver|exact Hm|]. intros a Ha.
    rewrite app_nil_r. apply (keeps_less _ _ _ _ _ _ c'); [lia|]. by apply keeps_ret; apply Hf. }
  destruct (type =? lBoolT); [by eapply Hthen; [apply keeps_uint|lia|]|].
  destruct (type =? lUlongT); [by eapply Hthen; [apply keeps_uint|lia|]|].
  destruct (type =? lUlong64T); [by eapply Hthen; [apply keeps_uint64|lia|]|].
  destruct (_ || _); [by eapply Hthen; [apply keeps_ustr|lia|]|].
  destruct (type =? lListT).
  { eapply Hthen; [apply keeps_unpack_list; [|eapply reader_mono; [|exact IH]]; lia|lia|].
    intros [l|] Hl; [|done]. rewrite linked_VList, own_VList. done. }
  destruct (type =? lObjectT).
  { eapply Hthen; [apply keeps_unpack_object; eapply reader_mono; [|exact IH]; lia|lia|].
    intros [[k p cont]|] Hl; [|done]. split; [|done]. simpl. by rewrite Forall_id_map. }
  destruct (type =? lDoubleT); [by eapply Hthen; [apply keeps_udouble|lia|]|].
  destruct (type =? lRefT); [by apply keeps_ret|apply keeps_fail].
Qed.

End Values.

End Own.

End CullOwn.
