(* ===== verification/CullDescrProps.v ===== *)
(** What the registry of object types promises: a type that is reduced to some of its
    fields has values for exactly these, in the order of the type, and two requests for the
    same fields share one descriptor. *)

From S2P Require Import Prelude Pack PackProps CullDescr CullDescrFacts CullRegistry CullPack CullTree CullOwn.
Import Pack PackProps CullDescr CullDescrFacts CullRegistry CullPack CullTree CullOwn.

Module CullDescrProps.

Section Props.
Context (ns : option (list lNameSpace)) (Hns : ns_ok ns).
Context `{Alloc : Allocator}.

(** ** Which fields are kept *)

Lemma keep_fields_spec k fs fields keep :
  type_at ns k fs -> length keep = length fs ->
  Forall (fun f => exists (i : nat) d, fs !! i = Some d /\ nm d = f) fields ->
  exists keep', keep_fields (fs ++ [end_descr]) (length fs) fields keep = Some keep' /\
    length keep' = length fs /\
    forall (i : nat) d, fs !! i = Some d ->
      (keep' !! i = Some true <-> keep !! i = Some true \/ nm d ∈ fields).
Proof.
  intros Ht. revert keep. induction fields as [|f fields IH]; intros keep Hl Hf; cbn [keep_fields].
  { exists keep. split; [done|]. split; [done|]. intros i d _. split; [by left|].
    by intros [?|?%elem_of_nil]. }
  apply Forall_cons in Hf as [(p & d & Hd & Hnm) Hf]. pose proof (lookup_lt_Some _ _ _ Hd) as Hp.
  destruct (lookup_lt_is_Some_2 fs 0 ltac:(lia)) as [d0 Hd0].
  rewrite (proj2 (Nat.ltb_lt _ _)), (entry_app _ _ _ _ Hd0) by lia.
  pose proof (type_at_numbers ns _ _ _ _ _ _ Ht Hd0 Hd) as Hn.
  replace (f - nm d0) with (Z.of_nat p) by lia. rewrite Nat2Z.id, (entry_app _ _ _ _ Hd), Hnm, Z.eqb_refl.
  rewrite (proj2 (Z.ltb_ge _ _)), (proj2 (Z.leb_gt _ _)) by lia. cbn [orb negb].
  destruct (IH (<[p:=true]> keep)) as (keep' & -> & Hl' & Hk); [by rewrite length_insert|done|].
  exists keep'. split; [done|]. split; [done|]. intros i e He. rewrite (Hk i e He), elem_of_cons.
  destruct (decide (i = p)) as [->|Hne].
  - rewrite list_lookup_insert_eq by lia. simplify_eq. tauto.
  - rewrite list_lookup_insert_ne by done.
    assert (nm e <> f); [|tauto]. pose proof (type_at_numbers ns _ _ _ _ _ _ Ht Hd He). lia.
Qed.

(** A field of another type makes the reduction fail. *)
Lemma keep_fields_foreign k fs fields keep f :
  type_at ns k fs -> f ∈ fields -> (forall (i : nat) d, fs !! i = Some d -> nm d <> f) ->
  keep_fields (fs ++ [end_descr]) (length fs) fields keep = None.
Proof.
  intros Ht Hf Hno. revert keep. induction fields as [|g fields IH]; intros keep; [by apply elem_of_nil in Hf|].
  cbn [keep_fields]. destruct (_ || _) eqn:E; [done|]. rewrite !orb_false_iff in E.
  destruct E as [[E1 E2] E3%negb_false_iff%Z.eqb_eq]. set (pos := if (0 <? length fs)%nat then _ else _) in *.
  apply elem_of_cons in Hf as [<-|Hf]; [|by apply IH].
  destruct (lookup_lt_is_Some_2 fs (Z.to_nat pos)) as [d Hd]; [lia|].
  rewrite (entry_app _ _ _ _ Hd) in E3. by destruct (Hno _ _ Hd).
Qed.

(** ** Sharing *)

(** Interning what is registered and alive is one more reference on it. *)
Lemma intern_registered w k fs keep l c :
  reg_ok ns w -> l ∈ snd <$> w_map w -> w_mem w !! l = Some c -> block ns k fs keep c ->
  refs (c_h c) <> 0 ->
  ocs_cull_descr_intern ns w (Some (DPlain (laid 0 0 fs keep ++ [end_reduced]))) =
    Done (set_mem (<[l := set_refs (u32 (refs (c_h c) + 1)) c]> (w_mem w)) w, Some (DCounted l)).
Proof.
  intros Hr Hin Hc Hb Halive. pose proof Hb as [Ht Hl Hk _ _ _ _ _].
  cbn [ocs_cull_descr_intern entries mbind result_bind].
  destruct (view_reduced ns k fs keep _ Ht Hl ltac:(lia) eq_refl) as [_ ->].
  pose proof (find_same_spec ns Hns w (w_map w) k fs keep Hr ltac:(done) Ht Hl Hk) as Hf. cbv zeta in Hf.
  destruct (find_same w (w_map w) _ _ _) as [[l'|]| | | | |]; try done.
  - destruct Hf as [Hin' (c' & Hc' & Hb')].
    assert (l' = l) as -> by (eapply (ro_unique ns w Hr); eauto). simplify_eq.
    cbn [mbind result_bind]. unfold ref_if_alive. rewrite Hc, (proj2 (Z.eqb_neq _ _)) by done. done.
  - by destruct (Hf l c Hin Hc).
Qed.

(** Below the cap, whatever is interned is registered and alive. *)
Lemma intern_in_map w k fs keep w' l :
  reg_ok ns w -> type_at ns k fs -> length fs = length keep -> (0 < length (kept keep) < length fs)%nat ->
  length (w_map w) < w_cap w -> room w 1 ->
  ocs_cull_descr_intern ns w (Some (DPlain (laid 0 0 fs keep ++ [end_reduced]))) =
    Done (w', Some (DCounted l)) ->
  l ∈ snd <$> w_map w' /\ exists c, w_mem w' !! l = Some c /\ 0 < refs (c_h c).
Proof.
  intros Hr Ht Hl Hk Hcap [_ Hroom]. cbn [ocs_cull_descr_intern entries mbind result_bind].
  destruct (view_reduced ns k fs keep _ Ht Hl ltac:(lia) eq_refl) as [_ ->].
  pose proof (find_same_spec ns Hns w (w_map w) k fs keep Hr ltac:(done) Ht Hl Hk) as Hf.
  pose proof (alloc_counted_spec ns w k fs keep Ht Hl Hk) as Ha. cbv zeta in Hf, Ha.
  destruct (find_same w (w_map w) _ _ _) as [[l'|]| | | | |]; try done; cbn [mbind result_bind].
  - destruct Hf as [Hin (c & Hc & Hb)]. unfold ref_if_alive. rewrite Hc.
    specialize (Hroom l' c Hc). destruct (refs (c_h c) =? 0) eqn:E; cbn [mbind result_bind].
    + rewrite Ha. destruct (alloc _ _) as [h [m|]]; cbn [mbind result_bind]; [|done].
      intros [= <- <-]. simpl. split; [apply replace_loc_snd; by right|].
      rewrite lookup_insert_eq. eexists. split; [done|]. simpl. lia.
    + intros [= <- <-]. simpl. split; [done|]. rewrite lookup_insert_eq. eexists.
      split; [done|]. simpl. rewrite u32_small; lia.
  - rewrite Ha. destruct (alloc _ _) as [h [m|]]; cbn [mbind result_bind]; [|done].
    rewrite (proj2 (Z.ltb_lt _ _)) by (simpl; lia). intros [= <- <-]. simpl.
    rewrite fmap_app, elem_of_app. split; [right; simpl; set_solver|].
    rewrite lookup_insert_eq. eexists. split; [done|]. simpl. lia.
Qed.

Lemma build_part w k fs keep :
  type_at ns k fs -> length fs = length keep -> (0 < length (kept keep) < length fs)%nat ->
  ocs_cull_descr_build ns w (Some (DStatic k)) keep =
    ocs_cull_descr_intern ns w (Some (DPlain (laid 0 0 fs keep ++ [end_reduced]))).
Proof.
  intros Ht Hl Hk. cbn [ocs_cull_descr_build]. unfold entries at 1. rewrite (type_at_descr _ _ _ Ht).
  cbn [mbind result_bind]. pose proof (type_at_fields _ _ _ Ht) as (Hok & Hne & _).
  rewrite layout_reduced by (done || lia). rewrite (type_at_count _ _ _ Ht).
  by rewrite (proj2 (Z.eqb_neq _ 0)), (proj2 (Z.eqb_neq _ _)) by lia.
Qed.

Lemma build_whole w w' p k fs :
  plenty -> reg_ok ns w -> type_at ns k fs ->
  ocs_cull_descr_build ns w (Some (DStatic k)) (repeat true (length fs)) = Done (w', Some p) ->
  p = DStatic k.
Proof.
  intros Hp Hr Ht. pose proof (type_at_fields _ _ _ Ht) as (_ & Hne & _).
  pose proof (build_spec ns Hns w k fs (repeat true (length fs)) Hr Ht) as Hb.
  unfold kept in Hb. rewrite repeat_length, kept_from_repeat, length_seq in Hb.
  specialize (Hb eq_refl ltac:(destruct fs; [done|simpl; lia])). intros E. rewrite E in Hb.
  destruct Hb as (q & [= <-] & _ & _ & Hd). destruct p as [j|l|]; [by destruct Hd as [-> _]| |done].
  destruct Hd as (c & _ & Hb). pose proof (bl_some _ _ _ _ _ Hb) as Hs.
  unfold kept in Hs. rewrite kept_from_repeat, length_seq in Hs. lia.
Qed.

(** A second request for the same fields. *)
Lemma build_shared w w' p k fs keep :
  plenty -> reg_ok ns w -> type_at ns k fs -> length fs = length keep -> (0 < length (kept keep))%nat ->
  length (w_map w) < w_cap w -> room w 1 ->
  ocs_cull_descr_build ns w (Some (DStatic k)) keep = Done (w', Some p) ->
  exists w2, ocs_cull_descr_build ns w' (Some (DStatic k)) keep = Done (w2, Some p).
Proof.
  intros Hp Hr Ht Hl Hk Hcap Hroom E. pose proof (build_spec ns Hns w k fs keep Hr Ht Hl Hk) as Hb.
  rewrite E in Hb. destruct Hb as (q & [= <-] & Hr' & Hg & Hd).
  destruct (decide (length (kept keep) = length fs)) as [Hall|Hall].
  - assert (keep = repeat true (length fs)) as ->.
    { rewrite Hl. apply (kept_from_all 0). unfold kept in Hall. lia. }
    rewrite (build_whole _ _ _ _ _ Hp Hr Ht E) in Hg. simpl in Hg. subst w'. by exists w.
  - pose proof (kept_from_length 0 keep) as Hle. unfold kept in Hall.
    assert (0 < length (kept keep) < length fs)%nat as Hs by (unfold kept in *; lia).
    rewrite (build_part w k fs) in E by done. destruct p as [j|l|]; [| |done].
    { pose proof (intern_spec ns Hns w k fs keep Hr Ht Hl Hs) as Hi. rewrite E in Hi.
      by destruct Hi as (l & ? & _). }
    destruct (intern_in_map w k fs keep w' l Hr Ht Hl Hs Hcap Hroom E) as (Hin & c & Hc & Hpos).
    destruct Hd as (c' & Hc' & Hb). simplify_eq.
    eexists. rewrite (build_part w' k fs) by done. apply (intern_registered w' k fs keep l c' Hr' Hin Hc' Hb). lia.
Qed.

(** ** Reducing a type *)

(** The positions in the type of the fields. *)
Definition positions (fs : list lDescr) (fields : list Z) : list nat :=
  filter (fun i : nat => nm (entry fs i) ∈ fields) (seq 0 (length fs)).

Definition keep_of (fs : list lDescr) (fields : list Z) : list bool :=
  map (fun i : nat => bool_decide (nm (entry fs i) ∈ fields)) (seq 0 (length fs)).

Lemma kept_positions fs fields : kept (keep_of fs fields) = positions fs fields.
Proof.
  unfold kept, keep_of, positions. generalize (length fs) as n. intros n. generalize 0%nat at 1 2 3.
  induction n as [|n IH]; intros pos; [done|]. cbn [seq map kept_from]. rewrite filter_cons, IH.
  destruct (decide _) as [H|H]; [by rewrite bool_decide_eq_true_2|by rewrite bool_decide_eq_false_2].
Qed.

Lemma keep_of_unique k fs fields keep :
  type_at ns k fs -> length keep = length fs ->
  (forall (i : nat) d, fs !! i = Some d -> (keep !! i = Some true <-> nm d ∈ fields)) ->
  keep = keep_of fs fields.
Proof.
  intros Ht Hl Hk. apply list_eq. intros i. unfold keep_of. rewrite list_lookup_fmap.
  destruct (fs !! i) as [d|] eqn:Hd.
  - pose proof (lookup_lt_Some _ _ _ Hd) as Hi. rewrite lookup_seq_lt by lia. simpl.
    unfold entry. rewrite Hd. simpl. destruct (lookup_lt_is_Some_2 keep i ltac:(lia)) as [b Hb].
    specialize (Hk i d Hd). rewrite Hb in *. destruct b.
    + by rewrite bool_decide_eq_true_2 by (by apply Hk).
    + rewrite bool_decide_eq_false_2; [done|]. intros Hin. by apply Hk in Hin.
  - apply lookup_ge_None in Hd. rewrite lookup_ge_None_2 by lia. rewrite lookup_seq_ge by lia. done.
Qed.

Lemma reduce_build w k fs fields :
  type_at ns k fs ->
  Forall (fun f => exists (i : nat) d, fs !! i = Some d /\ nm d = f) fields ->
  ocs_cull_descr_reduce ns w (Some (DStatic k)) fields =
    ocs_cull_descr_build ns w (Some (DStatic k)) (keep_of fs fields).
Proof.
  intros Ht Hf. unfold ocs_cull_descr_reduce, entries. rewrite (type_at_descr _ _ _ Ht).
  cbn [mbind result_bind]. rewrite (type_at_count _ _ _ Ht).
  destruct (keep_fields_spec k fs fields (repeat false (length fs)) Ht) as (keep & -> & Hl & Hk);
    [apply repeat_length|done|].
  rewrite (keep_of_unique k fs fields keep Ht Hl); [done|]. intros i d Hd. rewrite (Hk i d Hd).
  split; [|by right]. intros [H|?]; [|done]. apply list_elem_of_lookup_2, list_elem_of_In, repeat_spec in H; done.
Qed.

(** C26: reducing a type to some of its fields gives a descriptor with values for exactly
    these, in the order of the type and without gaps; as long as the registry is below its
    cap a second request for the same fields, in any order, shares the descriptor; a field
    of another type is refused. *)
Theorem reduce_correct (w : world) (k : nat) (fs : list lDescr) (fields : list Z) :
  plenty -> reg_ok ns w -> type_at ns k fs -> fields <> [] ->
  ((forall f, f ∈ fields -> exists d, d ∈ fs /\ nm d = f) ->
   exists w1 p, ocs_cull_descr_reduce ns w (Some (DStatic k)) fields = Done (w1, Some p) /\
     reg_ok ns w1 /\ extends w w1 /\
     ocs_cull_present_fields ns w1 p =
       Done (imap (fun slot pos => (pos, Z.of_nat slot)) (positions fs fields)) /\
     lCountPresent ns w1 (Some p) = Done (Z.of_nat (length (positions fs fields))) /\
     (length (w_map w) < w_cap w -> room w 1 ->
      forall fields', (forall f, f ∈ fields' <-> f ∈ fields) ->
      exists w2, ocs_cull_descr_reduce ns w1 (Some (DStatic k)) fields' = Done (w2, Some p))) /\
  (forall f, f ∈ fields -> (forall d, d ∈ fs -> nm d <> f) ->
   ocs_cull_descr_reduce ns w (Some (DStatic k)) fields = Done (w, None)).
Proof.
  intros Hp Hr Ht Hne. split.
  - intros Hf. assert (forall fields', (forall f, f ∈ fields' <-> f ∈ fields) ->
      Forall (fun f => exists (i : nat) d, fs !! i = Some d /\ nm d = f) fields') as Hfs.
    { intros fields' Hs. apply Forall_forall. intros f Hin%Hs. destruct (Hf f Hin) as (d & Hd & Hn).
      apply list_elem_of_lookup in Hd as [i Hi]. eauto. }
    assert (forall fields', (forall f, f ∈ fields' <-> f ∈ fields) -> keep_of fs fields' = keep_of fs fields) as Hsame.
    { intros fields' Hs. unfold keep_of. apply map_ext. intros i. by apply bool_decide_ext. }
    rewrite (reduce_build w k fs fields Ht) by (by apply Hfs).
    assert (length fs = length (keep_of fs fields)) as Hl
      by (unfold keep_of; by rewrite length_map, length_seq).
    assert (0 < length (kept (keep_of fs fields)))%nat as Hk.
    { destruct fields as [|f fields]; [done|]. destruct (Hf f ltac:(by left)) as (d & Hd & Hn).
      apply list_elem_of_lookup in Hd as [i Hi]. apply (kept_from_some 0 _ i). unfold keep_of.
      rewrite list_lookup_fmap, lookup_seq_lt by (by apply lookup_lt_Some in Hi). simpl. unfold entry.
      rewrite Hi. simpl. rewrite bool_decide_eq_true_2; [done|]. rewrite Hn. by left. }
    pose proof (build_spec ns Hns w k fs _ Hr Ht Hl Hk) as Hb.
    destruct (ocs_cull_descr_build _ _ _ _) as [[w1 q]| | | | |] eqn:E; try done.
    destruct Hb as (p & -> & Hr1 & Hg & Hd). exists w1, p. split; [done|]. split; [done|].
    split; [by eapply gained_ptr_extends|]. rewrite <- kept_positions.
    split; [by apply (denotes_present ns _ _ _ _ _ Hd)|].
    split; [by apply (denotes_count ns _ _ _ _ _ Hd)|]. intros Hcap Hroom fields' Hs.
    rewrite (reduce_build w1 k fs fields' Ht (Hfs _ Hs)), (Hsame _ Hs).
    by apply (build_shared w w1 p k fs).
  - intros f Hin Hno. unfold ocs_cull_descr_reduce, entries. rewrite (type_at_descr _ _ _ Ht).
    cbn [mbind result_bind]. rewrite (type_at_count _ _ _ Ht).
    rewrite (keep_fields_foreign k fs fields _ f Ht Hin); [done|]. intros i d Hd.
    apply Hno. by apply list_elem_of_lookup_2 in Hd.
Qed.

End Props.

End CullDescrProps.
