(* ===== verification/CullPackProps.v ===== *)
(** What the packing of CULL data guarantees: a list that is packed arrives, whatever the
    registry of the receiver holds; what arrives is well typed and arrives unchanged when
    it is sent on; reduced descriptors are shared. *)

From S2P Require Import Prelude Pack PackProps CullDescr CullDescrFacts CullRegistry CullPack CullTree CullWire CullUnwire CullOwn CullDescrProps.
Import Pack PackProps CullDescr CullDescrFacts CullRegistry CullPack CullTree CullWire CullUnwire CullOwn CullDescrProps.

Module CullPackProps.

Section Props.
Context (ns : option (list lNameSpace)) (Hns : ns_ok ns).
Context `{Alloc : Allocator}.

Lemma item_bytes_positive it : 0 < length (item_bytes it).
Proof. destruct it as [| | |[s|]]; simpl; [lia..| |lia]. unfold str_bytes. rewrite length_app. simpl. lia. Qed.

Lemma items_length its : length its <= length (items_bytes its).
Proof.
  induction its as [|it its IH]; [done|]. rewrite items_bytes_cons. cbn [length].
  pose proof (item_bytes_positive it). lia.
Qed.

(** The packer of a list in the two ways the code reaches it. *)
Lemma pack_list_switch (l : option lList) :
  cull_pack_list ns l = cull_pack_switch ns (VList l) None lListT 0.
Proof.
  destruct l as [[name p es]|]; [|done]. unfold cull_pack_list, cull_pack_list_partial.
  cbn [l_name l_descr l_elems]. unfold lMultiType in *.
  change (cull_pack_switch ns (VList (Some (LList name p es))) None lListT 0) with
    (pack_list ns (Some (name, p, map (fun e : lListElem => match e with Elem kind dp cont =>
       (kind, dp, map (cull_pack_switch ns) cont) end) es)) None lListT 0).
  do 3 f_equal. apply map_ext. by intros [].
Qed.

(** The items of a list, at the start of a message. *)
Definition list_items (w : world) (l : option lList) : list item :=
  fst (enc ns w (VList l) lListT []).

Lemma takes_whole_list (Hplenty : plenty) ws wr (l : option lList) (t : option tree_list) (fuel : nat) :
  list_is_tree ns ws l t -> list_well_typed ns t ->
  let bs := items_bytes (list_items ws l) in
  length bs < 4294967296 -> length bs <= fuel ->
  exists tab', takes ns wr (cull_unpack_list ns fuel) (list_items ws l) [] tab'
    (fun w l' => list_is_tree ns w l' (list_arrived ns t)).
Proof.
  intros Ht Hw bs Hbs Hfuel. unfold list_items in *.
  pose proof (items_length (fst (enc ns ws (VList l) lListT []))) as Hlen.
  unfold cull_unpack_list, cull_unpack_list_partial.
  destruct l as [[name p es]|], t as [[name' d es']|]; try done.
  - destruct Ht as (-> & Hd & Ha).
    assert (Forall (fun e => Forall (decodable ns ws) (e_cont e)) es) as Hes.
    { apply Forall_forall. intros e _. apply Forall_forall. intros v _.
      by apply decodes_switch. }
    edestruct (takes_list ns Hns Hplenty ws p d name' es es' fuel fuel wr [] Hd Hes Ha Hw)
      as [_ Hl]; [exact (Z.le_lt_trans _ _ _ Hlen Hbs)|exact Hfuel..|].
    eexists. exact Hl.
  - eexists. eapply takes_weaken; [by apply takes_no_list|]. by intros w a _ ->.
Qed.

(** Packing succeeds, and whoever reads its bytes with fuel for each of them gets a value
    with [R], and is behind these bytes. *)
Definition transferred {A} (ws : world) (pack : M unit) (unpack : nat -> M A)
    (R : world -> A -> Prop) : Prop :=
  forall pb bs0 cache, writing pb bs0 ->
  exists s bs, pack (St ws pb None cache) = Done (s, inl tt) /\
    writing (s_pb s) (bs0 ++ bs) /\ reg_ok ns (s_world s) /\
    forall wr pbr rest cache' (fuel : nat),
      reg_ok ns wr -> reading pbr (bs ++ rest) -> length bs < 4294967296 -> length bs < fuel ->
      exists r a, unpack fuel (St wr pbr None cache') = Done (r, inl a) /\
        reading (s_pb r) rest /\ reg_ok ns (s_world r) /\ R (s_world r) a.

Lemma transferred_intro {A} ws pack (unpack : nat -> M A) R tab its :
  reg_ok ns ws -> emits ns ws pack [] tab its tt ->
  (forall wr (fuel : nat), length (items_bytes its) < 4294967296 -> length (items_bytes its) < fuel ->
     exists tab', takes ns wr (unpack fuel) its [] tab' R) ->
  transferred ws pack unpack R.
Proof.
  intros Hreg He Ht pb bs0 cache Hpb.
  destruct (He (St ws pb None cache) bs0) as (s & E & Hs); [by split|].
  exists s, (items_bytes its). split; [exact E|]. split; [apply Hs|]. split; [apply Hs|].
  intros wr pbr rest cache' fuel Hr Hrd Hbs Hfuel.
  destruct (Ht wr fuel Hbs Hfuel) as (tab' & Htk).
  destruct (Htk (St wr pbr None cache') rest) as (r & a & E' & Hr' & _ & HR); [done|by split|].
  exists r, a. split; [exact E'|]. split; [apply Hr'|]. by split; [apply Hr'|].
Qed.

Definition delivers (ws : world) (l : option lList) (t' : option tree_list) : Prop :=
  transferred ws (cull_pack_list ns l) (cull_unpack_list ns) (fun w l' => list_is_tree ns w l' t').

Lemma list_delivered ws (l : option lList) (t : option tree_list) :
  plenty -> reg_ok ns ws -> list_is_tree ns ws l t -> list_well_typed ns t ->
  delivers ws l (list_arrived ns t).
Proof.
  intros Hplenty Hreg Ht Hw.
  destruct (emits_switch ns Hns Hplenty ws (VList l) (VList t) Ht lListT [] Hw) as [_ He].
  unfold delivers. rewrite pack_list_switch. eapply transferred_intro; [done|exact He|].
  intros wr fuel Hbs Hfuel. apply takes_whole_list; [done|done|done|exact Hbs|exact (Z.lt_le_incl _ _ Hfuel)].
Qed.

(** C2: a well typed list is packed without an error, and any receiver, whatever its
    registry holds, unpacks from exactly the packed bytes the list that arrives: the same
    elements in the same order with the same types, reduced to the same fields, and zero in
    the fields that are not transferred. *)
Theorem cull_list_roundtrip (ws : world) (pb : sge_pack_buffer) (bs0 : list Z) cache
    (l : option lList) (t : option tree_list) :
  plenty -> reg_ok ns ws -> writing pb bs0 -> list_is_tree ns ws l t -> list_well_typed ns t ->
  exists s bs, cull_pack_list ns l (St ws pb None cache) = Done (s, inl tt) /\
    writing (s_pb s) (bs0 ++ bs) /\ reg_ok ns (s_world s) /\
    forall wr pbr rest cache' (fuel : nat),
      reg_ok ns wr -> reading pbr (bs ++ rest) -> length bs < 4294967296 -> length bs < fuel ->
      exists r l', cull_unpack_list ns fuel (St wr pbr None cache') = Done (r, inl l') /\
        reading (s_pb r) rest /\ reg_ok ns (s_world r) /\
        list_is_tree ns (s_world r) l' (list_arrived ns t).
Proof. intros Hplenty Hreg Hpb Ht Hw. by apply (list_delivered ws l t). Qed.

(** ** What arrives is well typed *)

Lemma zero_well_typed type : packable type -> well_typed ns (zero_of type) type /\
  arrived ns (zero_of type) type = zero_of type.
Proof.
  unfold packable. intros [->|[->|[->|[->|[->|[->|[->|[->| ->]]]]]]]];
    (split; [|done]); simpl; unfold string_ok, is_u32, is_u64; simpl;
    repeat match goal with |- _ /\ _ => split end; first [by auto|lia|by constructor].
Qed.

Lemma arrived_string_ok s : string_ok s -> string_ok (arrived_string s).
Proof. by destruct s as [[|]|]. Qed.

Lemma arrived_string_twice s : arrived_string (arrived_string s) = arrived_string s.
Proof. by destruct s as [[|]|]. Qed.

Definition settles (t : tree) : Prop :=
  forall type, well_typed ns t type ->
    well_typed ns (arrived ns t type) type /\ arrived ns (arrived ns t type) type = arrived ns t type.

Lemma arrived_cont_lookup fields cont slot d v :
  fields !! slot = Some d -> cont !! slot = Some v ->
  arrived_cont fields (map (arrived ns) cont) !! slot = Some
    (if mt_do_transfer (mt d) then arrived ns v (mt_get_type (mt d)) else zero_of (mt_get_type (mt d))).
Proof.
  intros Hd Hv. unfold arrived_cont. erewrite lookup_app_l_Some; [done|].
  rewrite lookup_zip_with, Hd. simpl. change (map (arrived ns) cont) with (arrived ns <$> cont).
  by rewrite list_lookup_fmap, Hv.
Qed.

Lemma cont_ok_value fields cont slot d :
  cont_ok fields (map (well_typed ns) cont) -> fields !! slot = Some d ->
  exists v, cont !! slot = Some v /\ well_typed ns v (mt_get_type (mt d)).
Proof.
  intros Hok Hd. specialize (Hok slot d Hd). change (map (well_typed ns) cont) with (well_typed ns <$> cont) in Hok.
  rewrite list_lookup_fmap in Hok. destruct (cont !! slot) as [v|]; [|done]. by exists v.
Qed.

Lemma settled_field v (d : lDescr) :
  settles v -> well_typed ns v (mt_get_type (mt d)) ->
  let a := if mt_do_transfer (mt d) then arrived ns v (mt_get_type (mt d))
           else zero_of (mt_get_type (mt d)) in
  well_typed ns a (mt_get_type (mt d)) /\
  (if mt_do_transfer (mt d) then arrived ns a (mt_get_type (mt d)) else zero_of (mt_get_type (mt d))) = a.
Proof.
  intros Hs Hv. destruct (mt_do_transfer (mt d)); [by apply Hs|]. split; [|done].
  by apply zero_well_typed, (well_typed_packable ns v).
Qed.

Lemma settled_cont fields cont :
  Forall settles cont -> cont_ok fields (map (well_typed ns) cont) ->
  let cont' := arrived_cont fields (map (arrived ns) cont) in
  cont_ok fields (map (well_typed ns) cont') /\ arrived_cont fields (map (arrived ns) cont') = cont'.
Proof.
  intros Hs Hok cont'.
  assert (forall slot d, fields !! slot = Some d -> exists v, cont !! slot = Some v /\ settles v /\
    well_typed ns v (mt_get_type (mt d)) /\ cont' !! slot = Some
    (if mt_do_transfer (mt d) then arrived ns v (mt_get_type (mt d)) else zero_of (mt_get_type (mt d)))) as H.
  { intros slot d Hd. destruct (cont_ok_value _ _ _ _ Hok Hd) as (v & Hv & Hw). exists v.
    split; [done|]. split; [apply (Forall_lookup_1 _ _ _ _ Hs Hv)|]. split; [done|].
    by apply arrived_cont_lookup. }
  split.
  - intros slot d Hd. destruct (H slot d Hd) as (v & _ & Hset & Hw & Hc).
    change (map (well_typed ns) cont') with (well_typed ns <$> cont'). rewrite list_lookup_fmap, Hc.
    by apply settled_field.
  - unfold cont' at 2, arrived_cont at 1 2. f_equal. apply list_eq. intros slot.
    rewrite !lookup_zip_with. destruct (fields !! slot) as [d|] eqn:Hd; [|done]. cbn [mbind option_bind].
    destruct (H slot d Hd) as (v & Hv & Hset & Hw & Hc).
    change (map (arrived ns) cont') with (arrived ns <$> cont').
    change (map (arrived ns) cont) with (arrived ns <$> cont).
    rewrite !list_lookup_fmap, Hc, Hv. simpl. f_equal. by apply settled_field.
Qed.

Lemma list_settles : forall t, settles t.
Proof.
  intros t. induction t as [| | | | |s| | |name d es IH| |kind d cont IH] using multi_induction;
    intros type Hw; try done.
  - by apply zero_well_typed.
  - destruct Hw as [Ht Hs]. simpl. rewrite arrived_string_twice.
    split; [|done]. split; [done|]. by apply arrived_string_ok.
  - destruct Hw as (-> & Hn & Hd & Hes). cbn [arrived]. rewrite arrived_string_twice, map_map.
    assert (Forall (fun e => match e with Elem kind d' cont => kind = BOUND_ELEM /\ d' = d /\
      cont_ok (adescr_fields ns d) (map (well_typed ns) cont) end) es) as Hes'
      by (apply Forall_id_map; exact Hes). clear Hes.
    split.
    + simpl. split; [done|]. split; [by apply arrived_string_ok|]. split; [done|].
      rewrite Forall_id_map, Forall_fmap. eapply Forall_impl; [exact (proj2 (Forall_and _ _) (conj IH Hes'))|].
      intros [k d' cont] [Hs (_ & _ & Hok)]. simpl. do 2 (split; [done|]). by apply settled_cont.
    + do 3 f_equal. apply map_ext_in. intros [k d' cont] Hin. f_equal.
      apply list_elem_of_In in Hin. pose proof (proj2 (Forall_and _ _) (conj IH Hes')) as Hall.
      rewrite Forall_forall in Hall. destruct (Hall _ Hin) as [Hs (_ & _ & Hok)]. by apply settled_cont.
  - destruct Hw as (-> & Hk & Hd & Hok). cbn [arrived]. destruct (settled_cont _ _ IH Hok) as [H1 H2].
    split; [|by rewrite H2]. simpl. done.
Qed.

(** C36: the list that arrives is well typed, so it can be sent on, and whoever
    receives it then gets the same list again: only the first transfer drops the values
    that are not transferred. *)
Theorem received_list_well_typed (w : world) (l : option lList) (t : option tree_list) :
  plenty -> reg_ok ns w -> list_well_typed ns t -> list_is_tree ns w l (list_arrived ns t) ->
  list_well_typed ns (list_arrived ns t) /\ delivers w l (list_arrived ns t).
Proof.
  intros Hplenty Hr Hw Ht.
  assert (arrived ns (VList t) lListT = VList (list_arrived ns t)) as Ha by (by destruct t as [[]|]).
  destruct (list_settles (VList t) lListT Hw) as [H1 H2]. rewrite Ha in *.
  assert (list_arrived ns (list_arrived ns t) = list_arrived ns t) as H3.
  { unfold list_arrived at 1. by rewrite H2. }
  split; [exact H1|]. rewrite <- H3. by apply list_delivered.
Qed.

(** ** Whatever bytes arrive *)

(** What is known of the state once a function is done. *)
Lemma inv_within_held (s' : st) (rest : list Z) (L : list dptr) :
  inv_within ns (length rest + 0) s' L 0 ->
  (exists rest', reading (s_pb s') rest' /\ length rest' <= length rest /\
    room (s_world s') (length rest')) /\
  reg_ok ns (s_world s') /\ held ns (s_world s') (default [] (s_tab s') ++ L).
Proof.
  intros (rest' & [? ? ? ? Hroom ?] & Hl). rewrite Z.add_0_r in Hroom.
  split; [exists rest'; split; [done|split; [lia|done]]|done].
Qed.

(** C12: whatever bytes a message consists of, with whatever flags and whatever type the
    caller expects (of which it holds a reference), unpacking a type descriptor ends and
    never reads outside the message.  The descriptor that is handed out comes with a counted
    reference of its own, beside the one the table of the message takes, whichever of the
    encodings the bytes use; the references [L] others hold stay counted, also when the bytes
    are refused; and no count wraps around, now or on the bytes that are left.  Only
    exhausted memory makes it abort. *)
Theorem unpacked_descr_held (s : st) (rest : list Z) (L : list dptr) (flags : Z) (expected : option dptr) :
  reading (s_pb s) rest -> Forall (fun b => 0 <= b < 256) rest -> reg_ok ns (s_world s) ->
  held ns (s_world s) (default [] (s_tab s) ++ L) -> room (s_world s) (length rest) ->
  (forall p, expected = Some p -> p ∈ L) ->
  match cull_unpack_descr ns flags expected s with
  | Done (s', r) =>
      (exists rest', reading (s_pb s') rest' /\ length rest' <= length rest /\
        room (s_world s') (length rest')) /\
      reg_ok ns (s_world s') /\
      held ns (s_world s') (default [] (s_tab s') ++
        match r with inl (p, _) => [p] | inr _ => [] end ++ L)
  | Abort => ~ plenty
  | _ => False
  end.
Proof.
  intros Hpb Hb Hr Hh Hroom He.
  pose proof (keeps_unpack_descr ns Hns False (Z.of_nat (length rest) + 1) L flags expected 0 ltac:(lia) He) as Hk.
  assert (inv ns s rest L 0) as Hi by (split; [done|done|done|done|by rewrite Z.add_0_r|done]).
  specialize (Hk s rest L (reflexivity L) Hi ltac:(lia)).
  destruct (cull_unpack_descr ns flags expected s) as [[s' [[p n]|code]]| | | | |]; try done.
  - destruct Hk as [_ Hk]. by apply inv_within_held.
  - by apply inv_within_held.
Qed.

(** A list of any bytes is read the same way, for as long as no value is freed as one of
    another type: an element with a type of its own can make that happen (below). *)
Lemma unpacked_list_held (s : st) (rest : list Z) (L : list dptr) (fuel : nat) :
  reading (s_pb s) rest -> Forall (fun b => 0 <= b < 256) rest -> reg_ok ns (s_world s) ->
  held ns (s_world s) (default [] (s_tab s) ++ L) -> room (s_world s) (length rest) ->
  length rest < fuel ->
  match cull_unpack_list ns fuel s with
  | Done (s', r) =>
      (exists rest', reading (s_pb s') rest' /\ length rest' <= length rest /\
        room (s_world s') (length rest')) /\
      reg_ok ns (s_world s') /\
      held ns (s_world s') (default [] (s_tab s') ++
        match r with inl l => own_list_opt l | inr _ => [] end ++ L)
  | Abort => ~ plenty
  | BadElement => True
  | _ => False
  end.
Proof.
  intros Hpb Hb Hr Hh Hroom Hfuel.
  assert (reader ns True fuel (cull_unpack_switch ns fuel)) as Hsw by (by apply switch_reader).
  assert (keeps ns True fuel [] [] 0 (cull_unpack_list ns fuel) own_list_opt 0
    (fun o => match o with Some l => linked_list l | None => True end)) as Hk.
  { apply keeps_unpack_list; [done|done|lia|]. by apply (reader_mono ns _ _ fuel); [lia|]. }
  assert (inv ns s rest L 0) as Hi by (split; [done|done|done|done|by rewrite Z.add_0_r|done]).
  specialize (Hk s rest L (list_subseteq_nil _) Hi ltac:(lia)).
  destruct (cull_unpack_list ns fuel s) as [[s' [l|code]]| | | | |]; try done.
  - destruct Hk as [_ Hk]. by apply inv_within_held.
  - by apply inv_within_held.
Qed.

End Props.

(** ** Witnesses *)

#[local] Existing Instance calloc.

(** Two types: one with a string, a number that is not transferred and a list, one with
    a 64 bit number. *)
Definition sample_space : option (list lNameSpace) := Some
  [NameSpace 100 3 (Some [Field 100 lStringT 0; Field 101 (Z.lor lUlongT CULL_NO_TRANSFER) 0;
     Field 102 lListT 0; end_descr]);
   NameSpace 200 1 (Some [Field 200 lUlong64T 0; end_descr]); NameSpace 0 0 None].

Lemma sample_types k e es :
  name_space sample_space !! k = Some e -> descr e = Some es -> exists fs, type_ok e fs /\ (k < 2)%nat.
Proof.
  destruct k as [|[|k]]; simpl; [intros [= <-] _..|done];
    [exists [Field 100 lStringT 0; Field 101 (Z.lor lUlongT CULL_NO_TRANSFER) 0; Field 102 lListT 0]
    |exists [Field 200 lUlong64T 0]]; (split; [|lia]);
    (split; [done| |done|simpl; lia|done|simpl; lia|]).
  1, 3: repeat constructor; (vm_compute; first [discriminate|reflexivity|split; (discriminate || reflexivity)]).
  - intros [|[|[|i]]] d; simpl; [intros [= <-]; reflexivity..|done].
  - intros [|i] d; simpl; [intros [= <-]; reflexivity|done].
Qed.

Lemma sample_ok : ns_ok sample_space.
Proof.
  split.
  - intros k e es Hk He. destruct (sample_types k e es Hk He) as (fs & ? & _). by exists fs.
  - intros [|[|i]] [|[|j]] ei ej fi fj; simpl; intros Hi Hj _ _; try done; simplify_eq; simpl; lia.
Qed.

Definition empty_world : world (Alloc := calloc) := World (Alloc := calloc) tt ∅ [] 4096 false.

Lemma empty_ok : reg_ok sample_space empty_world.
Proof.
  split; simpl; [by intros|by intros h l ?%elem_of_nil|apply NoDup_nil_2|by intros l1 l2 ? ? ? ? ? ?%elem_of_nil].
Qed.

Lemma calloc_plenty : plenty (Alloc := calloc).
Proof. intros h n Hn. simpl. rewrite (proj2 (Z.leb_le _ _) Hn). by eexists. Qed.

(** The registry of a sender that has reduced the first type to its string and list. *)
Definition sample_world : world (Alloc := calloc) :=
  match ocs_cull_descr_reduce sample_space empty_world (Some (DStatic 0)) [102; 100] with
  | Done (w, _) => w
  | _ => empty_world
  end.

Lemma sample_type_0 : type_at sample_space 0
  [Field 100 lStringT 0; Field 101 (Z.lor lUlongT CULL_NO_TRANSFER) 0; Field 102 lListT 0].
Proof.
  eexists. split; [reflexivity|]. destruct (sample_types 0 _ _ eq_refl eq_refl) as (fs & Ht & _).
  pose proof (ty_descr _ _ Ht) as Hd. simpl in Hd. injection Hd as Hd.
  change [Field 100 lStringT 0; Field 101 (Z.lor lUlongT CULL_NO_TRANSFER) 0; Field 102 lListT 0; end_descr]
    with ([Field 100 lStringT 0; Field 101 (Z.lor lUlongT CULL_NO_TRANSFER) 0; Field 102 lListT 0] ++ [end_descr]) in Hd.
  apply app_inj_tail in Hd as [-> _]. exact Ht.
Qed.

Lemma sample_type_1 : type_at sample_space 1 [Field 200 lUlong64T 0].
Proof.
  eexists. split; [reflexivity|]. destruct (sample_types 1 _ _ eq_refl eq_refl) as (fs & Ht & _).
  pose proof (ty_descr _ _ Ht) as Hd. simpl in Hd. injection Hd as Hd.
  change [Field 200 lUlong64T 0; end_descr] with ([Field 200 lUlong64T 0] ++ [end_descr]) in Hd.
  apply app_inj_tail in Hd as [-> _]. exact Ht.
Qed.

Lemma sample_reduced :
  reg_ok sample_space sample_world /\
  denotes_a sample_space sample_world (DCounted 1) (0%nat, [true; false; true]).
Proof.
  pose proof (build_spec sample_space sample_ok empty_world 0 _ [true; false; true] empty_ok sample_type_0
    eq_refl ltac:(vm_compute; lia)) as Hb.
  assert (ocs_cull_descr_build sample_space empty_world (Some (DStatic 0)) [true; false; true] =
    Done (sample_world, Some (DCounted 1))) as E by (vm_compute; reflexivity).
  rewrite E in Hb. destruct Hb as (q & [= <-] & Hr & _ & Hd). split; [done|]. by eexists.
Qed.

(** A list of the reduced type; the list in its element has the type with the number. *)
Definition sample_list_of {D} (d0 d1 : D) : list_of D (multi_of D) :=
  LList (Some [106]) d0
    [Elem BOUND_ELEM d0
       [VString (Some [97; 98]);
        VList (Some (LList None d1
          [Elem BOUND_ELEM d1 [VString None; VUlong 5; VList None]]))]].

Definition sample_list : option lList := Some (sample_list_of (DCounted 1) (DStatic 0)).
Definition sample_tree : option tree_list :=
  Some (sample_list_of (0%nat, [true; false; true]) (0%nat, [true; true; true])).

Lemma sample_is_tree : list_is_tree sample_space sample_world sample_list sample_tree.
Proof.
  assert (denotes_a sample_space sample_world (DStatic 0) (0%nat, [true; true; true])) as H0
    by (eexists; split; [done|split; [exact sample_type_0|done]]).
  pose proof (proj2 sample_reduced) as H1.
  unfold list_is_tree. simpl. split; [done|]. split; [exact H1|].
  apply Forall2_cons. split; [|constructor]. do 3 (split; [done|]).
  apply Forall2_cons. split; [done|]. apply Forall2_cons. split; [|constructor].
  split; [done|]. split; [exact H0|].
  apply Forall2_cons. split; [|constructor]. do 3 (split; [done|]). by repeat constructor.
Qed.

Lemma sample_well_typed : list_well_typed sample_space sample_tree.
Proof.
  unfold list_well_typed. simpl. split; [done|]. split; [repeat constructor; lia|].
  assert (forall keep, length keep = 3%nat -> (0 < length (kept keep))%nat -> adescr_ok sample_space (0%nat, keep)) as Hok.
  { intros keep Hl Hk. eexists. split; [exact sample_type_0|]. by split. }
  split; [apply Hok; [done|vm_compute; lia]|]. constructor; [|constructor]. do 2 (split; [done|]).
  intros [|[|slot]] d; [..|done]; intros [= <-]; simpl.
  - split; [by left|]. repeat constructor; lia.
  - split; [done|]. split; [constructor|]. split; [apply Hok; [done|vm_compute; lia]|].
    constructor; [|constructor]. do 2 (split; [done|]).
    intros [|[|[|slot]]] d; [..|done]; intros [= <-]; simpl.
    + split; [by left|]. constructor.
    + split; [done|]. unfold is_u32. lia.
    + done.
Qed.

Lemma cull_list_roundtrip_witness :
  exists s bs, cull_pack_list sample_space sample_list (St sample_world fresh_pb None ∅) = Done (s, inl tt) /\
    writing (s_pb s) (items_bytes (header_items (Some [97])) ++ bs) /\ reg_ok sample_space (s_world s) /\
    forall wr pbr rest cache' (fuel : nat),
      reg_ok sample_space wr -> reading pbr (bs ++ rest) -> length bs < 4294967296 -> length bs < fuel ->
      exists r l', cull_unpack_list sample_space fuel (St wr pbr None cache') = Done (r, inl l') /\
        reading (s_pb r) rest /\ reg_ok sample_space (s_world r) /\
        list_is_tree sample_space (s_world r) l' (list_arrived sample_space sample_tree).
Proof.
  apply (cull_list_roundtrip sample_space sample_ok sample_world fresh_pb _ ∅ sample_list sample_tree
    calloc_plenty (proj1 sample_reduced) fresh_writing sample_is_tree sample_well_typed).
Defined.

(** A list of one number, as it arrives. *)
Definition number_list {D} (d : D) : option (list_of D (multi_of D)) :=
  Some (LList None d [Elem BOUND_ELEM d [VUlong64 77; VZero]]).

Definition number_tree : option tree_list :=
  Some (LList None (1%nat, [true]) [Elem BOUND_ELEM (1%nat, [true]) [VUlong64 77]]).

Lemma received_list_well_typed_witness :
  list_well_typed sample_space (list_arrived sample_space number_tree) /\
  delivers sample_space empty_world (number_list (DStatic 1)) (list_arrived sample_space number_tree).
Proof.
  apply (received_list_well_typed sample_space sample_ok empty_world _ number_tree calloc_plenty empty_ok).
  - unfold list_well_typed. simpl. split; [done|]. split; [constructor|].
    split; [eexists; split; [exact sample_type_1|by split; [|vm_compute; lia]]|].
    constructor; [|constructor]. do 2 (split; [done|]). intros [|slot] d; [|done]. intros [= <-]. simpl.
    split; [done|]. unfold is_u64. lia.
  - assert (denotes_a sample_space empty_world (DStatic 1) (1%nat, [true])) as Hd
      by (eexists; split; [done|split; [exact sample_type_1|done]]).
    unfold list_is_tree. simpl. split; [done|]. split; [exact Hd|].
    apply Forall2_cons. split; [|constructor]. do 3 (split; [done|]). by repeat constructor.
Defined.

Lemma reduce_correct_witness :
  exists w p, ocs_cull_descr_reduce sample_space empty_world (Some (DStatic 0)) [102; 100] = Done (w, Some p) /\
    ocs_cull_present_fields sample_space w p = Done [(0%nat, 0); (2%nat, 1)] /\
    exists w2, ocs_cull_descr_reduce sample_space w (Some (DStatic 0)) [100; 102; 100] = Done (w2, Some p).
Proof.
  destruct (reduce_correct sample_space sample_ok empty_world 0 _ [102; 100] calloc_plenty empty_ok
    sample_type_0 ltac:(done)) as [H _].
  destruct H as (w & p & E & _ & _ & Hp & _ & Hs).
  { intros f. rewrite !elem_of_cons, elem_of_nil. intros [->|[->|[]]].
    - eexists. split; [do 2 right; by left|done].
    - eexists. split; [by left|done]. }
  exists w, p. split; [exact E|]. split; [exact Hp|]. apply Hs.
  - vm_compute. reflexivity.
  - split; [lia|]. intros l c Hc. simpl in Hc. by rewrite lookup_empty in Hc.
  - intros f. rewrite !elem_of_cons, elem_of_nil. tauto.
Defined.

(** The state of a process that starts to read the bytes. *)
Definition reading_state (bs : list Z) : st :=
  St empty_world (PackBuffer (Some bs) 0 (length bs) 0 false 0 None) None ∅.

(** The first type, reduced to its string and list, as an entry of the table. *)
Definition table_entry : list Z :=
  items_bytes [Int32 CULL_PACK_DESCR_TABLE_DEF; Int32 CULL_PACK_DESCR_BY_INDEX; Int32 100; Int32 2; Int32 0; Int32 2].

Definition entry_read : result (st * (dptr * Z + Z)) :=
  cull_unpack_descr sample_space 0 (Some (DStatic 1)) (reading_state table_entry).

Lemma unpacked_descr_held_witness :
  exists s' l, entry_read = Done (s', inl (DCounted l, 2)) /\
    held sample_space (s_world s') [DCounted l; DCounted l; DStatic 1].
Proof.
  pose proof (unpacked_descr_held sample_space sample_ok
    (reading_state table_entry) table_entry [DStatic 1] 0 (Some (DStatic 1))) as H.
  destruct (cull_unpack_descr sample_space 0 (Some (DStatic 1)) (reading_state table_entry))
    as [[s' r]| | | | |] eqn:E; vm_compute in E; [|discriminate..].
  injection E as <- <-. eexists _, _. split; [vm_compute; reflexivity|]. apply H.
  - split; [by eexists|simpl; lia|done|vm_compute; split; [discriminate|reflexivity]].
  - vm_compute. repeat (apply List.Forall_cons; [split; [discriminate|reflexivity]|]). constructor.
  - exact empty_ok.
  - split.
    + repeat constructor. eexists. exact sample_type_1.
    + intros l c Hc. simpl in Hc. by rewrite lookup_empty in Hc.
  - split; [vm_compute; split; [discriminate|reflexivity]|]. intros l c Hc. simpl in Hc.
    by rewrite lookup_empty in Hc.
  - intros p [= <-]. by apply list_elem_of_singleton.
Defined.

(** A list of the first type whose element is marked as free and brings the second type;
    its value is the number 77. *)
Definition foreign_element (more : list item) : list Z :=
  items_bytes ([Int32 1; Str None; Int32 CULL_PACK_DESCR_TYPE_REF; Int32 100; Int32 1; Int32 1; Int32 1;
    Int32 CULL_PACK_DESCR_TYPE_REF; Int32 200; Int32 1; Int64 77] ++ more).

Definition foreign_list : lList :=
  LList None (DStatic 0) [Elem BOUND_ELEM (DStatic 0) [VUlong64 77; VZero]].

Definition foreign_end : st :=
  match cull_unpack_list sample_space 100 (reading_state (foreign_element [Int32 0])) with
  | Done (s, _) => s
  | _ => reading_state []
  end.

Lemma foreign_unpacked :
  cull_unpack_list sample_space 100 (reading_state (foreign_element [Int32 0])) =
    Done (foreign_end, inl (Some foreign_list)).
Proof. vm_compute. reflexivity. Qed.

Lemma foreign_list_held :
  held sample_space (s_world foreign_end) (default [] (s_tab foreign_end) ++ own_list foreign_list ++ []).
Proof.
  pose proof (unpacked_list_held sample_space sample_ok
    (reading_state (foreign_element [Int32 0])) (foreign_element [Int32 0]) [] 100) as H.
  rewrite foreign_unpacked in H. apply H.
  - split; [by eexists|simpl; lia|done|vm_compute; split; [discriminate|reflexivity]].
  - vm_compute. repeat (apply List.Forall_cons; [split; [discriminate|reflexivity]|]). constructor.
  - exact empty_ok.
  - split; [constructor|]. intros l c Hc. simpl in Hc. by rewrite lookup_empty in Hc.
  - split; [vm_compute; split; [discriminate|reflexivity]|]. intros l c Hc. simpl in Hc.
    by rewrite lookup_empty in Hc.
  - vm_compute. reflexivity.
Qed.

(** an element of a list that is marked as free on the wire keeps the values of its
    own type, but takes over the descriptor of the list: the list that is returned with
    success has a number where its type has a string, and when the message ends early the
    number is freed as a string. *)
Theorem foreign_free_element_mistyped :
  (exists s', cull_unpack_list sample_space 100 (reading_state (foreign_element [Int32 0])) =
     Done (s', inl (Some (LList None (DStatic 0)
       [Elem BOUND_ELEM (DStatic 0) [VUlong64 77; VZero]])))) /\
  cull_unpack_list sample_space 100 (reading_state (foreign_element [])) = BadElement.
Proof. split; [exists foreign_end; exact foreign_unpacked|vm_compute; reflexivity]. Qed.

End CullPackProps.
