(* ===== verification/CullWhat.v ===== *)
(** Selections and conditions on the wire: the rest of [libs/cull/cull_pack.cc].

    A selection arrives without an address and with an empty cache, so it is the bare
    array of its fields.  A condition keeps the discipline of its union: reading the arm
    that is not live is [BadElement]. *)

From S2P Require Import Prelude Pack CullDescr CullPack.
Import Pack CullDescr CullPack.

Module CullWhat.

(** ** Data *)

(** A field of a selection that was unpacked; the terminating one is left out. *)
Inductive wfield := UField (u_pos u_mt u_nm : Z) (u_ep : option (list wfield)).

Definition PackWhatAll : Z := 0.
Definition PackWhatNone : Z := 1.
Definition PackWhatArray : Z := 2.

(** Operators, by their place in the tokens of [scan]. *)
Definition SUBSCOPE : Z := 3.
Definition EQUAL : Z := 18.
Definition HOSTNAMECMP : Z := 27.
Definition AND : Z := 28.
Definition OR : Z := 29.
Definition NEG : Z := 30.

(** [EQUAL] to [HOSTNAMECMP], and [SUBSCOPE]. *)
Definition is_comparison (op : Z) : bool := (op =? SUBSCOPE) || ((EQUAL <=? op) && (op <=? HOSTNAMECMP)).

(** A comparison with a value, a comparison with a condition on the elements of a list,
    a logical operator. *)
Inductive condition_of (D : Type) :=
  | Cmp (op pos mt nm : Z) (val : multi_of D)
  | CmpCond (op pos mt nm : Z) (cp : option (condition_of D))
  | Log (op : Z) (first second : option (condition_of D)).
Arguments Cmp {D} op pos mt nm val.
Arguments CmpCond {D} op pos mt nm cp.
Arguments Log {D} op first second.

Definition lCondition := condition_of dptr.

Section WithAllocator.
Context (ns : option (list lNameSpace)).
Context `{Alloc : Allocator}.

(** ** Selections *)

Definition what_flag (w : lEnumeration) : Z :=
  if what_pos w =? WHAT_ALL then PackWhatAll
  else if what_pos w =? WHAT_NONE then PackWhatNone
  else PackWhatArray.

(** The loop goes on until the type is [lEndT]; its other condition compares a value of
    8 bits with [NoName] and always holds. *)
Fixpoint pack_enum (w : lEnumeration) : M unit :=
  let fields := fix fields (fs : list lEnumField) : M unit :=
    match fs with
    | [] => mret tt
    | WField pos mt nm ep :: fs =>
        if mt_get_type mt =? lEndT then mret tt
        else
          _ ← pint pos;
          _ ← pint mt;
          _ ← pint nm;
          _ ← match ep with
              | None => pint 0
              | Some e => _ ← pint 1; pack_enum e
              end;
          fields fs
    end in
  _ ← pint 1;
  _ ← pint (what_flag w);
  if what_flag w =? PackWhatArray then
    match w with
    | What _ fs => _ ← pint (length (until_NoName fs)); fields fs
    end
  else mret tt.

Definition cull_pack_enum (w : option lEnumeration) : M unit :=
  match w with
  | None => pint 0
  | Some w => pack_enum w
  end.

(** The position and the type of a field come from the local type, if there is one. *)
Definition localise (pos mt nm : Z) : M (Z * Z) :=
  match ocs_cull_descr_static_containing ns nm with
  | Some (type, p) =>
      es ← descr_entries ns type;
      mret (Z.of_nat p, CullDescr.mt (entry es p))
  | None => mret (pos, mt)
  end.

(** The fields from number [i] on, written to an array of [size] fields; behind it both the
    write and the search for what to free after a failed read are outside. *)
Fixpoint unpack_enum_fields (rec : M (option (list wfield))) (loops : nat) (i n size : Z) :
    M (list wfield) :=
  match loops with
  | O => stuck OutOfFuel
  | S loops =>
      if n <=? i then mret []
      else
        if size <=? i then stuck Outside
        else
          pos ← uint;
          mt ← uint;
          nm ← uint;
          '(pos, mt) ← localise (s32 pos) (s32 mt) (s32 nm);
          temp ← uint;
          ep ← (if temp =? 1 then rec else mret None);
          fs ← unpack_enum_fields rec loops (i + 1) n size;
          mret (UField pos mt (s32 nm) ep :: fs)
  end.

(** [n + 1] is a sum of 32 bits.  What is freed on an error has no cache yet. *)
Fixpoint cull_unpack_enum (fuel : nat) : M (option (list wfield)) :=
  match fuel with
  | O => stuck OutOfFuel
  | S fuel =>
      i ← uint;
      if i =? 0 then mret None
      else
        flag ← uint;
        if negb (flag =? PackWhatArray) then
          ok ← calloc_ok 80;
          if negb (ok : bool) then fail PACK_ENOMEM
          else
            let pos := if flag =? PackWhatAll then WHAT_ALL
                       else if flag =? PackWhatNone then WHAT_NONE else 0 in
            mret (Some [UField pos (-99) (-99) None])
        else
          n ← uint;
          let size := u32 (n + 1) in
          if MAX_DESCR_SIZE <? size then fail PACK_ENOMEM
          else
            ok ← calloc_ok (40 * size);
            if negb (ok : bool) then fail PACK_ENOMEM
            else
              fs ← unpack_enum_fields (cull_unpack_enum fuel) fuel 0 n size;
              mret (Some fs)
  end.

(** ** Conditions *)

(** [operand.cmp.val.cp] *)
Definition condition_in (val : lMultiType) : M (option lCondition) :=
  match val with VZero => mret None | _ => stuck BadElement end.

Definition pack_cmp (op pos mt nm : Z) (body : M unit) : M unit :=
  _ ← pint op;
  if is_comparison op then
    _ ← pint pos;
    _ ← pint mt;
    _ ← pint nm;
    body
  else if (op =? NEG) || (op =? AND) || (op =? OR) then stuck BadElement
  else fail PACK_FORMAT.

Definition pack_log (op : Z) (first second : M unit) : M unit :=
  _ ← pint op;
  if is_comparison op then stuck BadElement
  else if op =? NEG then first
  else if (op =? AND) || (op =? OR) then _ ← first; second
  else fail PACK_FORMAT.

Fixpoint pack_cond (cp : lCondition) : M unit :=
  let sub (c : option lCondition) :=
    match c with None => pint 0 | Some c => pack_cond c end in
  _ ← pint 1;
  match cp with
  | Cmp op pos mt nm val =>
      pack_cmp op pos mt nm
        (if negb (mt_get_type mt =? lListT) then cull_pack_switch ns val None (mt_get_type mt) 0
         else _ ← condition_in val; pint 0)
  | CmpCond op pos mt nm cp =>
      pack_cmp op pos mt nm
        (if negb (mt_get_type mt =? lListT) then stuck BadElement else sub cp)
  | Log op first second => pack_log op (sub first) (sub second)
  end.

Definition cull_pack_cond (cp : option lCondition) : M unit :=
  match cp with None => pint 0 | Some c => pack_cond c end.

(** Strings are freed, other values of a comparison are not. *)
Fixpoint free_where (cp : lCondition) : M unit :=
  let sub (c : option lCondition) := match c with None => mret tt | Some c => free_where c end in
  match cp with
  | Cmp op pos mt nm val =>
      if negb (is_comparison op) then stuck BadElement
      else if mt_get_type mt =? lListT then _ ← condition_in val; mret tt
      else if negb (op =? SUBSCOPE) && ((mt_get_type mt =? lStringT) || (mt_get_type mt =? lHostT)) then
        _ ← get_str val; mret tt
      else mret tt
  | CmpCond op pos mt nm cp =>
      if negb (is_comparison op) then stuck BadElement
      else if mt_get_type mt =? lListT then sub cp
      else mret tt
  | Log op first second =>
      if is_comparison op then stuck BadElement
      else if op =? NEG then sub first
      else if (op =? AND) || (op =? OR) then _ ← sub first; sub second
      else mret tt
  end.

Definition lFreeWhere (cp : option lCondition) : M unit :=
  match cp with None => mret tt | Some c => free_where c end.

Definition unpack_cmp (fuel : nat) (rec : M (option lCondition)) (op : Z) : M lCondition :=
  let cleanup mt := lFreeWhere (Some (Cmp op 0 mt 0 VZero)) in
  pos ← on_error uint (cleanup 0);
  mt ← on_error uint (cleanup 0);
  nm ← on_error uint (cleanup (s32 mt));
  if negb (mt_get_type (s32 mt) =? lListT) then
    val ← on_error (cull_unpack_switch ns fuel (mt_get_type (s32 mt)) 0) (cleanup (s32 mt));
    mret (Cmp op (s32 pos) (s32 mt) (s32 nm) val)
  else
    cp ← on_error rec (cleanup (s32 mt));
    mret (CmpCond op (s32 pos) (s32 mt) (s32 nm) cp).

Fixpoint cull_unpack_cond (fuel : nat) : M (option lCondition) :=
  match fuel with
  | O => stuck OutOfFuel
  | S fuel =>
      i ← uint;
      if i =? 0 then mret None
      else
        ok ← calloc_ok 32;
        if negb (ok : bool) then fail PACK_ENOMEM
        else
          op ← uint;
          let op := s32 op in
          if is_comparison op then c ← unpack_cmp fuel (cull_unpack_cond fuel) op; mret (Some c)
          else if op =? NEG then
            first ← on_error (cull_unpack_cond fuel) (lFreeWhere (Some (Log op None None)));
            mret (Some (Log op first None))
          else if (op =? AND) || (op =? OR) then
            first ← on_error (cull_unpack_cond fuel) (lFreeWhere (Some (Log op None None)));
            second ← on_error (cull_unpack_cond fuel) (lFreeWhere (Some (Log op first None)));
            mret (Some (Log op first second))
          else fail PACK_FORMAT
  end.

End WithAllocator.

(** ** Byte arrays *)

(** [0123456789ABCDEF] *)
Definition numbers : list Z := [48; 49; 50; 51; 52; 53; 54; 55; 56; 57; 65; 66; 67; 68; 69; 70].

(** The lower four bits come first.  The string that is stored; [None] when the array or
    the element is null, and nothing is stored. *)
Definition setByteArray (byteArray : option (list Z)) : option (list Z) :=
  match byteArray with
  | None => None
  | Some bs =>
      Some (concat (map (fun b => [nth (Z.to_nat (Z.land b 0x0F)) numbers 0;
                                   nth (Z.to_nat (Z.shiftr (Z.land b 0xF0) 4)) numbers 0]) bs))
  end.

(** The loop over [numbers] from [a] on. *)
Fixpoint index_of (a : Z) (digits : list Z) (c : Z) : option Z :=
  match digits with
  | [] => None
  | d :: digits => if d =? c then Some a else index_of (a + 1) digits c
  end.

Definition hex_value (c : Z) : option Z := index_of 0 numbers c.

(** The loop from byte [i] on: the bytes that were decoded and the result. *)
Fixpoint get_bytes (i : Z) (s : list Z) (size : Z) : list Z * Z :=
  match s with
  | lo :: hi :: s =>
      match hex_value lo, hex_value hi with
      | None, _ => ([], i * -2)
      | Some _, None => ([], i * -2 - 1)
      | Some l, Some h => let '(bs, ret) := get_bytes (i + 1) s size in (Z.shiftl h 4 + l :: bs, ret)
      end
  | _ => ([], size)
  end.

(** The decoded bytes and what is returned. *)
Definition getByteArray (string : option (list Z)) : list Z * Z :=
  match string with
  | None => ([], 0)
  | Some s => get_bytes 0 s (Z.of_nat (length s) / 2)
  end.

End CullWhat.
