(* ===== verification/CullWhatProps.v ===== *)
(** Selections, conditions and byte arrays arrive as they were packed; what the length
    field of a selection can do. *)

From S2P Require Import Prelude Pack PackProps CullDescr CullDescrFacts CullRegistry CullPack CullTree CullWire CullUnwire CullWhat CullPackProps.
Import Pack PackProps CullDescr CullDescrFacts CullRegistry CullPack CullTree CullWire CullUnwire CullWhat CullPackProps.

Module CullWhatProps.

(** ** Selections *)

Lemma enum_induction (P : lEnumeration -> Prop) :
  (forall loc fs, Forall (fun f => forall e, w_ep f = Some e -> P e) fs -> P (What loc fs)) ->
  forall w, P w.
Proof.
  intros H. fix IH 1. intros [loc fs]. apply H. induction fs as [|[pos mt nm ep] fs IHfs]; constructor.
  - simpl. destruct ep as [e|]; [|by intros ? [=]]. intros e' [= <-]. apply IH.
  - exact IHfs.
Qed.

Definition is_s32_pos (i : Z) : Prop := 0 <= i < 2147483648.

Section Selections.
Context (ns : option (list lNameSpace)) (Hns : ns_ok ns).
Context `{Alloc : Allocator} (Hplenty : plenty).

(** The fields of a selection are numbers of fields of some type. *)
Fixpoint what_ok (w : lEnumeration) : Prop :=
  match w with
  | What _ fs =>
      (what_flag w = PackWhatArray -> (length fs < 200)%nat /\
       Forall id (map (fun f => match f with WField pos mt nm ep =>
         is_s32_pos pos /\ is_s32_pos mt /\ is_s32_pos nm /\ mt_get_type mt <> lEndT /\
         match ep with Some e => what_ok e | None => True end end) fs))
  end.

Definition local_field (pos mt nm : Z) : Z * Z :=
  match ocs_cull_descr_static_containing ns nm with
  | Some (DStatic j, p) => (Z.of_nat p, CullDescr.mt (entry (fields_at ns j) p))
  | _ => (pos, mt)
  end.

(** The selection as it arrives: positions and types are those of the local types. *)
Fixpoint what_arrived (w : lEnumeration) : list wfield :=
  match w with
  | What _ fs =>
      if what_flag w =? PackWhatArray then
        map (fun f => match f with WField pos mt nm ep =>
          UField (fst (local_field pos mt nm)) (snd (local_field pos mt nm)) nm
            (match ep with Some e => Some (what_arrived e) | None => None end) end) fs
      else [UField (what_pos w) (-99) (-99) None]
  end.

Fixpoint what_items (w : lEnumeration) : list item :=
  [Int32 1; Int32 (what_flag w)] ++
  (if what_flag w =? PackWhatArray then
     match w with
     | What _ fs =>
         Int32 (length fs) ::
         concat (map (fun f => match f with WField pos mt nm ep =>
           [Int32 pos; Int32 mt; Int32 nm] ++
           match ep with None => [Int32 0] | Some e => Int32 1 :: what_items e end end) fs)
     end
   else []).

Definition field_items (f : lEnumField) : list item :=
  match f with WField pos mt nm ep =>
    [Int32 pos; Int32 mt; Int32 nm] ++
    match ep with None => [Int32 0] | Some e => Int32 1 :: what_items e end end.

Definition field_wire_ok (f : lEnumField) : Prop :=
  match f with WField pos mt nm ep =>
    is_s32_pos pos /\ is_s32_pos mt /\ is_s32_pos nm /\ mt_get_type mt <> lEndT /\
    match ep with Some e => what_ok e | None => True end end.

Lemma until_NoName_all fs : Forall field_wire_ok fs -> until_NoName fs = fs.
Proof.
  induction 1 as [|[pos mt nm ep] fs (_ & _ & Hnm & _) _ IH]; [done|]. simpl.
  unfold is_s32_pos, NoName in *. rewrite (proj2 (Z.eqb_neq _ _)) by lia. by rewrite IH.
Qed.

Lemma what_flag_cases w : what_flag w = PackWhatAll /\ what_pos w = WHAT_ALL \/
  what_flag w = PackWhatNone /\ what_pos w = WHAT_NONE \/ what_flag w = PackWhatArray.
Proof.
  unfold what_flag. destruct (what_pos w =? WHAT_ALL) eqn:E1; [apply Z.eqb_eq in E1; auto|].
  destruct (what_pos w =? WHAT_NONE) eqn:E2; [apply Z.eqb_eq in E2; auto|auto].
Qed.

Lemma emits_enum w0 tab w :
  what_ok w -> emits ns w0 (pack_enum w) tab tab (what_items w) tt.
Proof.
  induction w as [loc fs IH] using enum_induction. intros Hok. cbn [pack_enum what_items].
  eapply (emits_bind _ _ _ _ _ _ _ [_]); [done|by apply emits_pint|].
  eapply (emits_bind _ _ _ _ _ _ _ [_]); [done|by apply emits_pint|].
  destruct (what_flag (What loc fs) =? PackWhatArray) eqn:E; [|apply emits_ret].
  apply Z.eqb_eq in E. destruct (Hok E) as [_ Hfs]. rewrite Forall_map in Hfs.
  rewrite until_NoName_all by (eapply Forall_impl; [exact Hfs|]; by intros []).
  eapply (emits_bind _ _ _ _ _ _ _ [_]); [done|by apply emits_pint|]. clear E Hok.
  induction fs as [|[pos mt nm ep] fs IHfs]; [apply emits_ret|].
  apply Forall_cons in IH as [IHe IH]. apply Forall_cons in Hfs as [(_ & _ & _ & Hmt & Hep) Hfs].
  simpl. rewrite (proj2 (Z.eqb_neq _ _)) by done.
  eapply (emits_bind _ _ _ _ _ _ _ [_]); [done|by apply emits_pint|].
  eapply (emits_bind _ _ _ _ _ _ _ [_]); [done|by apply emits_pint|].
  eapply (emits_bind _ _ _ _ _ _ _ [_]); [done|by apply emits_pint|].
  eapply emits_bind; [done| |by apply IHfs].
  destruct ep as [e|]; [|by apply emits_pint].
  eapply (emits_bind _ _ _ _ _ _ _ [_]); [done|by apply emits_pint|]. by apply IHe.
Qed.

Lemma s32_pos i : is_s32_pos i -> s32 i = i.
Proof. intros Hi. unfold is_s32_pos, s32 in *. rewrite Z.mod_small; lia. Qed.

Lemma takes_s32 w0 tab i : is_s32_pos i -> takes ns w0 uint [Int32 i] tab tab (fun _ a => s32 a = i /\ 0 <= a).
Proof.
  intros Hi. eapply takes_weaken; [apply takes_uint; unfold is_s32_pos, is_u32 in *; lia|].
  intros w a _ ->. split; [by apply s32_pos|]. unfold is_s32_pos in Hi. lia.
Qed.

Lemma takes_localise w0 tab pos mt nm :
  takes ns w0 (localise ns pos mt nm) [] tab tab (fun _ a => a = local_field pos mt nm).
Proof.
  unfold localise, local_field.
  destruct (ocs_cull_descr_static_containing ns nm) as [[type p]|] eqn:E; [|by apply takes_ret].
  destruct (static_containing_sound ns Hns _ _ _ E) as (j & fs & d & -> & Ht & Hd & _).
  rewrite (fields_at_type ns j fs Ht).
  eapply (takes_silent _ _ _ _ _ _ _ _ (fun _ es => es = fs ++ [end_descr])).
  { apply takes_ask. intros w _. unfold entries. by rewrite (type_at_descr _ _ _ Ht). }
  intros w es _ ->. apply takes_ret. intros _ _. rewrite (entry_app _ _ _ _ Hd).
  unfold entry at 1. by rewrite Hd.
Qed.

Definition field_arrives (f : lEnumField) : wfield :=
  match f with WField pos mt nm ep =>
    UField (fst (local_field pos mt nm)) (snd (local_field pos mt nm)) nm
      (match ep with Some e => Some (what_arrived e) | None => None end) end.

(** The selection is read with fuel for its bytes. *)
Definition enum_taken (w : lEnumeration) : Prop :=
  what_ok w -> forall w0 tab (fuel : nat), length (items_bytes (what_items w)) < fuel ->
  takes ns w0 (cull_unpack_enum ns fuel) (what_items w) tab tab (fun _ r => r = Some (what_arrived w)).

Lemma takes_enum_fields w0 tab fs (i : nat) n size (fuel loops : nat) :
  Forall (fun f => forall e, w_ep f = Some e -> enum_taken e) fs -> Forall field_wire_ok fs ->
  n = (i + length fs)%nat -> n < size ->
  length (items_bytes (concat (map field_items fs))) < fuel ->
  length (items_bytes (concat (map field_items fs))) < loops ->
  takes ns w0 (unpack_enum_fields ns (cull_unpack_enum ns fuel) loops i n size)
    (concat (map field_items fs)) tab tab (fun _ a => a = map field_arrives fs).
Proof.
  intros IH Hfs Hn Hsize. revert w0 i loops Hn.
  induction fs as [|[pos mt nm ep] fs IHfs]; intros w0 i loops Hn Hf Hloops;
    (destruct loops as [|loops]; [lia|]); cbn [unpack_enum_fields].
  { rewrite (proj2 (Z.leb_le _ _)) by (simpl in *; lia). by apply takes_ret. }
  apply Forall_cons in IH as [IHe IH]. apply Forall_cons in Hfs as [(Hpos & Hmt & Hnm & _ & Hep) Hfs].
  cbn [length] in Hn. rewrite (proj2 (Z.leb_gt _ _)) by lia.
  cbn [map concat field_items] in *. rewrite <- !app_assoc in *. cbn [app] in *.
  rewrite !items_bytes_cons, items_bytes_app, length_app, !word_length in *.
  rewrite (proj2 (Z.leb_gt _ _)) by lia.
  eapply (takes_bind _ _ _ _ _ _ _ [_]); [done|by apply takes_s32|]. intros w1 a1 _ [E1 _].
  eapply (takes_bind _ _ _ _ _ _ _ [_]); [done|by apply takes_s32|]. intros w2 a2 _ [E2 _].
  eapply (takes_bind _ _ _ _ _ _ _ [_]); [done|by apply takes_s32|]. intros w3 a3 _ [E3 _].
  rewrite E1, E2, E3. eapply takes_silent; [apply takes_localise|]. intros w4 [p m] _ Hl.
  assert (forall w5 fs', fs' = map field_arrives fs -> forall r,
    r = (match ep with Some e => Some (what_arrived e) | None => None end) ->
    takes ns w5 (mret (UField p m nm r :: fs')) [] tab tab
      (fun _ a => a = field_arrives (WField pos mt nm ep) :: map field_arrives fs)) as Hlast.
  { intros w5 fs' -> r ->. apply takes_ret. intros _ _. cbn [field_arrives]. by rewrite <- Hl. }
  destruct ep as [e|].
  - cbn [app] in *. pose proof (items_bytes_cons (Int32 1) (what_items e)) as Hlen.
    rewrite word_length in Hlen.
    eapply (takes_bind _ _ _ _ _ _ _ [_]); [done|by apply takes_uint|]. intros w5 t _ ->. cbn [Z.eqb].
    eapply takes_bind; [done|apply (IHe e eq_refl Hep); lia|]. intros w6 r _ Hr.
    eapply (takes_bind _ _ _ _ _ _ _ _ []); [by rewrite app_nil_r| |].
    { replace (i + 1) with (Z.of_nat (S i)) by lia. apply IHfs; [done|done|lia|lia|lia]. }
    intros w7 fs' _ Hfs'. by apply Hlast.
  - eapply (takes_bind _ _ _ _ _ _ _ [_]); [done|by apply takes_uint|]. intros w5 t _ ->. cbn [Z.eqb].
    eapply takes_silent; [by apply (takes_ret _ _ _ None (fun _ r => r = None))|]. intros w6 r _ Hr.
    eapply (takes_bind _ _ _ _ _ _ _ _ []); [by rewrite app_nil_r| |].
    { replace (i + 1) with (Z.of_nat (S i)) by lia. apply IHfs; [done|done|lia|lia|lia]. }
    intros w7 fs' _ Hfs'. by apply Hlast.
Qed.

Lemma takes_enum w : enum_taken w.
Proof.
  induction w as [loc fs IH] using enum_induction. intros Hok w0 tab [|fuel] Hfuel; [lia|].
  cbn [cull_unpack_enum what_items what_arrived] in *. cbn [app] in *.
  rewrite !items_bytes_cons, !word_length in Hfuel.
  eapply (takes_bind _ _ _ _ _ _ _ [_]); [done|by apply takes_uint|]. intros w1 i _ ->. cbn [Z.eqb].
  destruct (what_flag_cases (What loc fs)) as [[E Hp]|[[E Hp]|E]]; rewrite E in *.
  - eapply (takes_bind _ _ _ _ _ _ _ [_] []); [done|by apply takes_uint|]. intros w2 f _ ->. cbn.
    eapply takes_silent; [by apply takes_calloc|]. intros w3 b _ ->. cbn. rewrite Hp. by apply takes_ret.
  - eapply (takes_bind _ _ _ _ _ _ _ [_] []); [done|by apply takes_uint|]. intros w2 f _ ->. cbn.
    eapply takes_silent; [by apply takes_calloc|]. intros w3 b _ ->. cbn. rewrite Hp. by apply takes_ret.
  - destruct (Hok E) as [Hlen Hfs]. rewrite Forall_map in Hfs. rewrite Z.eqb_refl in *.
    rewrite items_bytes_cons, word_length in Hfuel.
    match type of Hfuel with context [concat ?l] => change l with (map field_items fs) in Hfuel end.
    match goal with |- context [concat ?l] => change l with (map field_items fs) end.
    eapply (takes_bind _ _ _ _ _ _ _ [_]); [done|by apply takes_uint|]. intros w2 f _ ->.
    change (negb (PackWhatArray =? PackWhatArray)) with false. cbv iota.
    eapply (takes_bind _ _ _ _ _ _ _ [_]); [done|apply takes_uint; unfold is_u32; lia|]. intros w3 n _ ->.
    assert (u32 (length fs + 1) = length fs + 1) as -> by (apply u32_small; lia).
    unfold MAX_DESCR_SIZE. rewrite (proj2 (Z.ltb_ge _ _)) by lia.
    eapply takes_silent; [apply takes_calloc; [done|lia]|]. intros w4 b _ ->. cbn [negb].
    eapply (takes_bind _ _ _ _ _ _ _ _ []); [by rewrite app_nil_r| |].
    { apply (takes_enum_fields w4 tab fs 0 (length fs)); [exact IH| |done|lia|lia|lia].
      eapply Forall_impl; [exact Hfs|]. by intros []. }
    intros w5 r _ ->. by apply takes_ret.
Qed.

(** a selection of fields arrives as the same selection, sub-selections included;
    the positions and types of the fields are those of the receiver's own types. *)
Theorem what_roundtrip (ws : world) (what : option lEnumeration) :
  reg_ok ns ws -> match what with Some w => what_ok w | None => True end ->
  transferred ns ws (cull_pack_enum what) (cull_unpack_enum ns)
    (fun _ r => r = match what with Some w => Some (what_arrived w) | None => None end).
Proof.
  intros Hr Hok. destruct what as [w|].
  - eapply transferred_intro; [done|by apply emits_enum|]. intros wr fuel _ Hfuel. exists [].
    by apply takes_enum.
  - eapply (transferred_intro ns ws _ _ _ _ [_]); [done|by apply emits_pint|].
    intros wr fuel _ Hfuel. exists []. destruct fuel as [|fuel]; [lia|].
    eapply (takes_bind _ _ _ _ _ _ _ [_] []); [done|by apply takes_uint|]. intros w1 i _ ->.
    by apply takes_ret.
Qed.

(** ** Conditions *)

Definition cond_tree := condition_of adescr.

Lemma condition_induction {D} (P : condition_of D -> Prop) :
  (forall op pos mt nm v, P (Cmp op pos mt nm v)) ->
  (forall op pos mt nm cp, (forall c, cp = Some c -> P c) -> P (CmpCond op pos mt nm cp)) ->
  (forall op a b, (forall c, a = Some c -> P c) -> (forall c, b = Some c -> P c) -> P (Log op a b)) ->
  forall c, P c.
Proof.
  intros H1 H2 H3. fix IH 1. intros [op pos mt nm v|op pos mt nm cp|op a b]; [apply H1|apply H2|apply H3].
  - destruct cp as [c|]; [intros c' [= <-]; apply IH|intros c' H; discriminate H].
  - destruct a as [c|]; [intros c' [= <-]; apply IH|intros c' H; discriminate H].
  - destruct b as [c|]; [intros c' [= <-]; apply IH|intros c' H; discriminate H].
Qed.

Definition all_some {A} (P : A -> Prop) (o : option A) : Prop := match o with Some a => P a | None => True end.

(** In the world [w] the condition is the tree. *)
Fixpoint cond_is_tree (w : world) (c : lCondition) (t : cond_tree) : Prop :=
  let sub (c : option lCondition) (t : option cond_tree) :=
    match c, t with
    | None, None => True
    | Some c, Some t => cond_is_tree w c t
    | _, _ => False
    end in
  match c, t with
  | Cmp op pos mt nm v, Cmp op' pos' mt' nm' v' =>
      (op, pos, mt, nm) = (op', pos', mt', nm') /\ is_tree ns w v v'
  | CmpCond op pos mt nm c, CmpCond op' pos' mt' nm' t =>
      (op, pos, mt, nm) = (op', pos', mt', nm') /\ sub c t
  | Log op a b, Log op' a' b' => op = op' /\ sub a a' /\ sub b b'
  | _, _ => False
  end.

Definition cmp_ok (op pos mt nm : Z) : Prop :=
  is_comparison op = true /\ is_s32_pos pos /\ is_s32_pos mt /\ is_s32_pos nm.

(** A comparison has a value of the type of its field, a condition for a list; a
    negation has one operand. *)
Fixpoint cond_ok (t : cond_tree) : Prop :=
  match t with
  | Cmp op pos mt nm v =>
      cmp_ok op pos mt nm /\ mt_get_type mt <> lListT /\ well_typed ns v (mt_get_type mt)
  | CmpCond op pos mt nm c =>
      cmp_ok op pos mt nm /\ mt_get_type mt = lListT /\
      match c with Some c => cond_ok c | None => True end
  | Log op a b =>
      (op = NEG /\ b = None \/ op = AND \/ op = OR) /\
      match a with Some c => cond_ok c | None => True end /\
      match b with Some c => cond_ok c | None => True end
  end.

Fixpoint cond_arrived (t : cond_tree) : cond_tree :=
  let sub (c : option cond_tree) := match c with Some c => Some (cond_arrived c) | None => None end in
  match t with
  | Cmp op pos mt nm v => Cmp op pos mt nm (arrived ns v (mt_get_type mt))
  | CmpCond op pos mt nm c => CmpCond op pos mt nm (sub c)
  | Log op a b => Log op (sub a) (sub b)
  end.

Fixpoint enc_cond (w : world) (c : lCondition) (tab : list dptr) : list item * list dptr :=
  let sub (c : option lCondition) tab := match c with Some c => enc_cond w c tab | None => ([Int32 0], tab) end in
  match c with
  | Cmp op pos mt nm v =>
      let '(its, tab) := enc ns w v (mt_get_type mt) tab in
      ([Int32 1; Int32 op; Int32 pos; Int32 mt; Int32 nm] ++ its, tab)
  | CmpCond op pos mt nm c =>
      let '(its, tab) := sub c tab in ([Int32 1; Int32 op; Int32 pos; Int32 mt; Int32 nm] ++ its, tab)
  | Log op a b =>
      let '(i1, tab1) := sub a tab in
      if op =? NEG then ([Int32 1; Int32 op] ++ i1, tab1)
      else let '(i2, tab2) := sub b tab1 in ([Int32 1; Int32 op] ++ i1 ++ i2, tab2)
  end.

Definition enc_cond_opt (w : world) (c : option lCondition) (tab : list dptr) : list item * list dptr :=
  match c with Some c => enc_cond w c tab | None => ([Int32 0], tab) end.

Definition cond_emits (w0 : world) (c : lCondition) : Prop := forall t tab,
  cond_is_tree w0 c t -> cond_ok t ->
  emits ns w0 (pack_cond ns c) tab (snd (enc_cond w0 c tab)) (fst (enc_cond w0 c tab)) tt.

Lemma emits_cond_opt w0 c t tab :
  (forall c', c = Some c' -> cond_emits w0 c') ->
  match c, t with
  | None, None => True
  | Some c, Some t => cond_is_tree w0 c t /\ cond_ok t
  | _, _ => False
  end ->
  emits ns w0 (cull_pack_cond ns c) tab (snd (enc_cond_opt w0 c tab)) (fst (enc_cond_opt w0 c tab)) tt.
Proof.
  intros IH H. destruct c as [c|], t as [t|]; try done; [|by apply emits_pint].
  destruct H as [H1 H2]. by apply (IH c eq_refl t).
Qed.

Lemma cond_emitted w0 c : cond_emits w0 c.
Proof.
  induction c as [op pos mt nm v|op pos mt nm cp IH|op a b IHa IHb] using condition_induction;
    intros [op' pos' mt' nm' v'|op' pos' mt' nm' t|op' a' b'] tab Ht Hok; try done.
  - destruct Ht as [[= <- <- <- <-] Ht]. destruct Hok as ((Hop & _) & Hmt & Hw).
    destruct (emits_switch ns Hns Hplenty w0 v v' Ht (mt_get_type mt) tab Hw) as [_ He].
    cbn [enc_cond pack_cond]. destruct (enc ns w0 v (mt_get_type mt) tab) as [its tab'].
    cbn [fst snd app] in *. unfold pack_cmp. rewrite Hop, (proj2 (Z.eqb_neq _ _) Hmt). cbn [negb].
    do 5 (eapply (emits_bind _ _ _ _ _ _ _ [_]); [done|by apply emits_pint|]). exact He.
  - destruct Ht as [[= <- <- <- <-] Ht]. destruct Hok as ((Hop & _) & Hmt & Hw).
    pose proof (emits_cond_opt w0 cp t tab IH) as He. cbn [enc_cond pack_cond].
    fold (enc_cond_opt w0 cp tab). destruct (enc_cond_opt w0 cp tab) as [its tab'].
    cbn [fst snd app] in *. unfold pack_cmp. rewrite Hop, (proj2 (Z.eqb_eq _ _) Hmt). cbn [negb].
    do 5 (eapply (emits_bind _ _ _ _ _ _ _ [_]); [done|by apply emits_pint|]). apply He.
    by destruct cp, t.
  - destruct Ht as (<- & Hta & Htb). destruct Hok as (Hop & Hwa & Hwb).
    pose proof (emits_cond_opt w0 a a' tab IHa ltac:(by destruct a, a')) as Ha.
    cbn [enc_cond pack_cond]. fold (enc_cond_opt w0 a tab).
    destruct (enc_cond_opt w0 a tab) as [i1 tab1]. fold (enc_cond_opt w0 b tab1).
    pose proof (emits_cond_opt w0 b b' tab1 IHb ltac:(by destruct b, b')) as Hb.
    cbn [fst snd app] in *. unfold pack_log.
    destruct Hop as [[-> ->]|[-> | ->]]; cbn.
    + do 2 (eapply (emits_bind _ _ _ _ _ _ _ [_]); [done|by apply emits_pint|]). exact Ha.
    + destruct (enc_cond_opt w0 b tab1) as [i2 tab2]. cbn [fst snd] in *.
      do 2 (eapply (emits_bind _ _ _ _ _ _ _ [_]); [done|by apply emits_pint|]).
      eapply emits_bind; [done|exact Ha|exact Hb].
    + destruct (enc_cond_opt w0 b tab1) as [i2 tab2]. cbn [fst snd] in *.
      do 2 (eapply (emits_bind _ _ _ _ _ _ _ [_]); [done|by apply emits_pint|]).
      eapply emits_bind; [done|exact Ha|exact Hb].
Qed.

Definition cond_opt_is_tree (w : world) (c : option lCondition) (t : option cond_tree) : Prop :=
  match c, t with
  | None, None => True
  | Some c, Some t => cond_is_tree w c t
  | _, _ => False
  end.

Lemma cond_is_tree_extends w w' c t : extends w w' -> cond_is_tree w c t -> cond_is_tree w' c t.
Proof.
  intros He. revert t.
  induction c as [op pos mt nm v|op pos mt nm cp IH|op a b IHa IHb] using condition_induction;
    intros [op' pos' mt' nm' v'|op' pos' mt' nm' t|op' a' b']; simpl; try done.
  - intros [? Ht]. split; [done|]. by eapply is_tree_extends.
  - intros [? Ht]. split; [done|]. destruct cp as [c|], t as [t|]; try done. by apply (IH c eq_refl).
  - intros (? & Ha & Hb). split; [done|]. split.
    + destruct a as [c|], a' as [t|]; try done. by apply (IHa c eq_refl).
    + destruct b as [c|], b' as [t|]; try done. by apply (IHb c eq_refl).
Qed.

Lemma cond_opt_extends w w' c t : extends w w' -> cond_opt_is_tree w c t -> cond_opt_is_tree w' c t.
Proof. destruct c, t; simpl; try done. by apply cond_is_tree_extends. Qed.

(** The condition is read with fuel for its bytes. *)
Definition cond_taken (ws : world) (c : option lCondition) (t : option cond_tree) : Prop :=
  forall w0 tab (fuel : nat),
  let enced := enc_cond_opt ws c tab in
  length tab + length (fst enced) < 4294967296 -> length (items_bytes (fst enced)) < fuel ->
  length (snd enced) <= length tab + length (fst enced) /\
  takes ns w0 (cull_unpack_cond ns fuel) (fst enced) (map (abs_descr ns ws) tab)
    (map (abs_descr ns ws) (snd enced))
    (fun w a => cond_opt_is_tree w a (option_map cond_arrived t)).

Lemma cond_taken_none ws : cond_taken ws None None.
Proof.
  intros w0 tab fuel enced _ Hf. subst enced. split; [simpl; lia|].
  destruct fuel as [|fuel]; [lia|].
  eapply (takes_bind _ _ _ _ _ _ _ [_] []); [done|by apply takes_uint|]. intros w1 i _ ->.
  by apply takes_ret.
Qed.

(** What every condition starts with. *)
Lemma takes_cond_head w0 op its tab tab' (fuel : nat) P :
  is_s32_pos op ->
  (forall w, extends w0 w -> takes ns w
     (if is_comparison op then
        c ← unpack_cmp ns fuel (cull_unpack_cond ns fuel) op; mret (Some c)
      else if op =? NEG then
        first ← on_error (cull_unpack_cond ns fuel) (lFreeWhere (Some (Log op None None)));
        mret (Some (Log op first None))
      else if (op =? AND) || (op =? OR) then
        first ← on_error (cull_unpack_cond ns fuel) (lFreeWhere (Some (Log op None None)));
        second ← on_error (cull_unpack_cond ns fuel) (lFreeWhere (Some (Log op first None)));
        mret (Some (Log op first second))
      else fail PACK_FORMAT) its tab tab' P) ->
  takes ns w0 (cull_unpack_cond ns (S fuel)) ([Int32 1; Int32 op] ++ its) tab tab' P.
Proof.
  intros Hop H. cbn [cull_unpack_cond].
  eapply (takes_bind _ _ _ _ _ _ _ [_]); [done|by apply takes_uint|]. intros w1 i He1 ->. cbn [Z.eqb].
  eapply takes_silent; [by apply takes_calloc|]. intros w2 b He2 ->. cbn [negb].
  eapply (takes_bind _ _ _ _ _ _ _ [_]); [done|by apply takes_s32|]. intros w3 o He3 [-> _].
  apply H. transitivity w2; [by transitivity w1|done].
Qed.

Lemma takes_cmp_head w0 op pos mt nm its tab tab' (fuel : nat) rec P :
  is_s32_pos pos -> is_s32_pos mt -> is_s32_pos nm ->
  (forall w, extends w0 w -> takes ns w
     (if negb (mt_get_type mt =? lListT) then
        val ← on_error (cull_unpack_switch ns fuel (mt_get_type mt) 0)
          (lFreeWhere (Some (Cmp op 0 mt 0 VZero)));
        mret (Cmp op pos mt nm val)
      else
        cp ← on_error rec (lFreeWhere (Some (Cmp op 0 mt 0 VZero)));
        mret (CmpCond op pos mt nm cp)) its tab tab' P) ->
  takes ns w0 (unpack_cmp ns fuel rec op) ([Int32 pos; Int32 mt; Int32 nm] ++ its) tab tab' P.
Proof.
  intros Hpos Hmt Hnm H. unfold unpack_cmp.
  eapply (takes_bind _ _ _ _ _ _ _ [_]); [done|by apply takes_on_error, takes_s32|]. intros w1 a1 He1 [E1 _].
  eapply (takes_bind _ _ _ _ _ _ _ [_]); [done|by apply takes_on_error, takes_s32|]. intros w2 a2 He2 [E2 _].
  eapply (takes_bind _ _ _ _ _ _ _ [_]); [done|by apply takes_on_error, takes_s32|]. intros w3 a3 He3 [E3 _].
  rewrite E1, E2, E3. apply H. transitivity w2; [by transitivity w1|done].
Qed.

Lemma takes_some w0 (m : M lCondition) its tab tab' t :
  takes ns w0 m its tab tab' (fun w c => cond_is_tree w c t) ->
  takes ns w0 (c ← m; mret (Some c)) its tab tab' (fun w a => cond_opt_is_tree w a (Some t)).
Proof.
  intros Hm. eapply (takes_bind _ _ _ _ _ _ _ its []); [by rewrite app_nil_r|exact Hm|].
  intros w a _ HP. apply takes_ret. intros w' He. by apply (cond_is_tree_extends w).
Qed.

Lemma is_comparison_s32 op : is_comparison op = true -> is_s32_pos op.
Proof. unfold is_comparison, is_s32_pos, SUBSCOPE, EQUAL, HOSTNAMECMP. lia. Qed.

Lemma takes_cond_cmp ws op pos mt nm v t :
  cmp_ok op pos mt nm -> mt_get_type mt <> lListT -> is_tree ns ws v t ->
  well_typed ns t (mt_get_type mt) ->
  cond_taken ws (Some (Cmp op pos mt nm v)) (Some (Cmp op pos mt nm t)).
Proof.
  intros (Hop & Hpos & Hmt & Hnm) Htype Ht Hw w0 tab [|fuel]; cbn [enc_cond_opt enc_cond]; [lia|].
  destruct (decodes_switch ns Hns Hplenty ws v t Ht _ Hw) as [_ Hdec].
  assert (forall w, _) as Hd by (intros w; exact (Hdec w tab fuel)).
  destruct (enc ns ws v (mt_get_type mt) tab) as [its tab']. cbn [fst snd app length] in *.
  rewrite !items_bytes_cons, !word_length. intros Htab Hf.
  destruct (Hd ws) as [Hl _]; [lia|lia|]. split; [lia|].
  apply (takes_cond_head w0 op (Int32 pos :: Int32 mt :: Int32 nm :: its));
    [by apply is_comparison_s32|]. intros w He. rewrite Hop.
  apply takes_some, takes_cmp_head; [done|done|done|]. intros w1 He1.
  rewrite (proj2 (Z.eqb_neq _ _) Htype). cbn [negb].
  eapply (takes_bind _ _ _ _ _ _ _ its []); [by rewrite app_nil_r|apply takes_on_error, Hd; lia|].
  intros w2 a He2 Ha. apply takes_ret. intros w3 He3. split; [done|]. by eapply is_tree_extends.
Qed.

Lemma takes_cond_sub ws op pos mt nm c t :
  cmp_ok op pos mt nm -> mt_get_type mt = lListT -> cond_taken ws c t ->
  cond_taken ws (Some (CmpCond op pos mt nm c)) (Some (CmpCond op pos mt nm t)).
Proof.
  intros (Hop & Hpos & Hmt & Hnm) Htype Hc w0 tab [|fuel]; cbn [enc_cond_opt enc_cond]; [lia|].
  fold (enc_cond_opt ws c tab). assert (forall w, _) as Hd by (intros w; exact (Hc w tab fuel)).
  cbv zeta in Hd. destruct (enc_cond_opt ws c tab) as [its tab']. cbn [fst snd app length] in *.
  rewrite !items_bytes_cons, !word_length. intros Htab Hf.
  destruct (Hd ws) as [Hl _]; [lia|lia|]. split; [lia|].
  apply (takes_cond_head w0 op (Int32 pos :: Int32 mt :: Int32 nm :: its));
    [by apply is_comparison_s32|]. intros w He. rewrite Hop.
  apply takes_some, takes_cmp_head; [done|done|done|]. intros w1 He1.
  rewrite (proj2 (Z.eqb_eq _ _) Htype). cbn [negb].
  eapply (takes_bind _ _ _ _ _ _ _ its []); [by rewrite app_nil_r|apply takes_on_error, Hd; lia|].
  intros w2 a He2 Ha. apply takes_ret. intros w3 He3. split; [done|].
  apply (cond_opt_extends _ w3) in Ha; [|done]. by destruct a, t.
Qed.

Lemma takes_cond_neg ws a ta :
  cond_taken ws a ta -> cond_taken ws (Some (Log NEG a None)) (Some (Log NEG ta None)).
Proof.
  intros Ha w0 tab [|fuel]; cbn [enc_cond_opt enc_cond]; [lia|].
  fold (enc_cond_opt ws a tab). assert (forall w, _) as Hd by (intros w; exact (Ha w tab fuel)).
  cbv zeta in Hd. destruct (enc_cond_opt ws a tab) as [its tab']. cbn [fst snd app length Z.eqb] in *.
  change (NEG =? NEG) with true. cbn [fst snd app length].
  rewrite !items_bytes_cons, !word_length. intros Htab Hf.
  destruct (Hd ws) as [Hl _]; [lia|lia|]. split; [lia|].
  apply (takes_cond_head w0 NEG its); [done|]. intros w He. cbn.
  eapply (takes_bind _ _ _ _ _ _ _ its []); [by rewrite app_nil_r|apply takes_on_error, Hd; lia|].
  intros w2 c He2 Hc. apply takes_ret. intros w3 He3. simpl. split; [done|]. split; [|done].
  apply (cond_opt_extends _ w3) in Hc; [|done]. by destruct c, ta.
Qed.

Lemma takes_cond_two ws op a b ta tb :
  op = AND \/ op = OR -> cond_taken ws a ta -> cond_taken ws b tb ->
  cond_taken ws (Some (Log op a b)) (Some (Log op ta tb)).
Proof.
  intros Hop Ha Hb w0 tab [|fuel]; cbn [enc_cond_opt enc_cond]; [lia|].
  assert ((op =? NEG) = false) as Hneg by (by destruct Hop as [-> | ->]).
  fold (enc_cond_opt ws a tab). assert (forall w, _) as Hda by (intros w; exact (Ha w tab fuel)).
  cbv zeta in Hda. destruct (enc_cond_opt ws a tab) as [i1 tab1]. rewrite Hneg.
  fold (enc_cond_opt ws b tab1). assert (forall w, _) as Hdb by (intros w; exact (Hb w tab1 fuel)).
  cbv zeta in Hdb. destruct (enc_cond_opt ws b tab1) as [i2 tab2]. cbn [fst snd app length] in *.
  rewrite !items_bytes_cons, !word_length, items_bytes_app, !length_app. intros Htab Hf.
  destruct (Hda ws) as [Hl1 _]; [lia|lia|]. destruct (Hdb ws) as [Hl2 _]; [lia|lia|]. split; [lia|].
  apply (takes_cond_head w0 op (i1 ++ i2)); [by destruct Hop as [-> | ->]|]. intros w He.
  assert (is_comparison op = false /\ (op =? AND) || (op =? OR) = true) as [-> Hor]
    by (by destruct Hop as [-> | ->]). rewrite Hneg, Hor.
  eapply (takes_bind _ _ _ _ _ _ _ i1 i2); [done|apply takes_on_error, Hda; lia|].
  intros w2 c He2 Hc.
  eapply (takes_bind _ _ _ _ _ _ _ i2 []); [by rewrite app_nil_r|apply takes_on_error, Hdb; lia|].
  intros w3 d He3 Hd. apply takes_ret. intros w4 He4. simpl. split; [done|].
  apply (cond_opt_extends _ w4) in Hc; [|by transitivity w3]. apply (cond_opt_extends _ w4) in Hd; [|done].
  split; [by destruct c, ta|by destruct d, tb].
Qed.

Lemma all_cond_taken ws c t : cond_is_tree ws c t -> cond_ok t -> cond_taken ws (Some c) (Some t).
Proof.
  revert t. induction c as [op pos mt nm v|op pos mt nm cp IH|op a b IHa IHb] using condition_induction;
    intros [op' pos' mt' nm' v'|op' pos' mt' nm' t|op' a' b'] Ht Hok; try done.
  - destruct Ht as [[= <- <- <- <-] Ht]. destruct Hok as (Hop & Hmt & Hw). by apply takes_cond_cmp.
  - destruct Ht as [[= <- <- <- <-] Ht]. destruct Hok as (Hop & Hmt & Hw). apply takes_cond_sub; [done|done|].
    destruct cp as [c|], t as [t|]; try done; [by apply (IH c eq_refl)|by apply cond_taken_none].
  - destruct Ht as (<- & Hta & Htb). destruct Hok as (Hop & Hwa & Hwb).
    assert (cond_taken ws a a') as Ha.
    { destruct a as [c|], a' as [t|]; try done; [by apply (IHa c eq_refl)|by apply cond_taken_none]. }
    assert (cond_taken ws b b') as Hb.
    { destruct b as [c|], b' as [t|]; try done; [by apply (IHb c eq_refl)|by apply cond_taken_none]. }
    destruct Hop as [[-> ->]|Hop]; [|by apply takes_cond_two].
    destruct b as [c|]; [done|]. by apply takes_cond_neg.
Qed.

(** a condition arrives as the same condition, with the values it compares with as
    they arrive in a list. *)
Theorem cond_roundtrip (ws : world) (c : lCondition) (t : cond_tree) :
  reg_ok ns ws -> cond_is_tree ws c t -> cond_ok t ->
  transferred ns ws (cull_pack_cond ns (Some c)) (cull_unpack_cond ns)
    (fun w r => cond_opt_is_tree w r (Some (cond_arrived t))).
Proof.
  intros Hr Ht Hok. eapply transferred_intro; [done|by apply (cond_emitted ws c t)|].
  intros wr fuel Hbs Hfuel.
  pose proof (items_length (fst (enc_cond ws c []))) as Hlen.
  destruct (all_cond_taken ws c t Ht Hok wr [] fuel) as [_ H];
    [exact (Z.le_lt_trans _ _ _ Hlen Hbs)|exact Hfuel|]. eexists. exact H.
Qed.

(** C40: the number of fields of a selection is checked after a sum of 32 bits: the
    greatest number passes the check, the array has no room for any field, and it is
    accessed outside whatever follows. *)
Theorem what_length_wraps (s : st) (rest : list Z) (fuel : nat) :
  reg_ok ns (s_world s) -> s_tab s = None ->
  reading (s_pb s) (items_bytes [Int32 1; Int32 PackWhatArray; Int32 4294967295] ++ rest) ->
  cull_unpack_enum ns (S (S fuel)) s = Outside.
Proof.
  intros Hreg Htab Hrd.
  assert (forall w its s0, reads ns s0 (items_bytes its ++ rest) [] -> extends w (s_world s0) ->
    forall i its', its = Int32 i :: its' -> is_u32 i ->
    exists s1, uint s0 = Done (s1, inl i) /\ reads ns s1 (items_bytes its' ++ rest) [] /\
      extends w (s_world s1)) as Huint.
  { intros w its s0 Hr He i its' -> Hi. change (Int32 i :: its') with ([Int32 i] ++ its') in Hr.
    rewrite items_bytes_app, <- app_assoc in Hr.
    destruct (takes_uint ns w [] i Hi s0 _ He Hr) as (s1 & a & E & Hr1 & He1 & ->).
    exists s1. split; [done|]. split; [done|]. by transitivity (s_world s0). }
  assert (reads ns s (items_bytes [Int32 1; Int32 PackWhatArray; Int32 4294967295] ++ rest) [])
    as Hr0 by (split; [done|done|by rewrite Htab; constructor]).
  destruct (Huint (s_world s) _ s Hr0 ltac:(done) _ _ eq_refl ltac:(done)) as (s1 & E1 & Hr1 & He1).
  destruct (Huint (s_world s) _ s1 Hr1 He1 _ _ eq_refl ltac:(done)) as (s2 & E2 & Hr2 & He2).
  destruct (Huint (s_world s) _ s2 Hr2 He2 _ _ eq_refl ltac:(done)) as (s3 & E3 & Hr3 & He3).
  destruct (takes_calloc ns Hplenty (s_world s) 0 [] ltac:(lia) s3 _ He3 Hr3)
    as (s4 & b & E4 & _ & _ & ->).
  cbn [cull_unpack_enum]. unfold mbind, M_bind.
  rewrite E1. cbn [mbind result_bind Z.eqb]. rewrite E2. cbn [mbind result_bind].
  change (negb (PackWhatArray =? PackWhatArray)) with false. cbv beta iota zeta. rewrite E3.
  cbn [mbind result_bind]. change (u32 (4294967295 + 1)) with 0. change (MAX_DESCR_SIZE <? 0) with false.
  cbv beta iota zeta. change (40 * 0) with 0. rewrite E4. cbn [mbind result_bind negb].
  cbn [unpack_enum_fields]. change (4294967295 <=? 0) with false. reflexivity.
Qed.

End Selections.

(** ** Byte arrays *)

Definition is_hex (c : Z) : Prop := exists d, hex_value c = Some d.

Lemma byte_digits b : 0 <= b < 256 ->
  hex_value (nth (Z.to_nat (Z.land b 0x0F)) numbers 0) = Some (Z.land b 0x0F) /\
  hex_value (nth (Z.to_nat (Z.shiftr (Z.land b 0xF0) 4)) numbers 0) = Some (Z.shiftr (Z.land b 0xF0) 4) /\
  Z.shiftl (Z.shiftr (Z.land b 0xF0) 4) 4 + Z.land b 0x0F = b.
Proof.
  intros Hb.
  assert (forallb (fun n : nat => let b := Z.of_nat n in
    bool_decide (hex_value (nth (Z.to_nat (Z.land b 0x0F)) numbers 0) = Some (Z.land b 0x0F)) &&
    bool_decide (hex_value (nth (Z.to_nat (Z.shiftr (Z.land b 0xF0) 4)) numbers 0) =
      Some (Z.shiftr (Z.land b 0xF0) 4)) &&
    (Z.shiftl (Z.shiftr (Z.land b 0xF0) 4) 4 + Z.land b 0x0F =? b)) (seq 0 256) = true) as H
    by (vm_compute; reflexivity).
  rewrite forallb_forall in H. specialize (H (Z.to_nat b)). rewrite in_seq in H.
  specialize (H ltac:(lia)). cbv zeta in H. rewrite Z2Nat.id in H by lia.
  rewrite !andb_true_iff, !bool_decide_eq_true in H. destruct H as [[H1 H2] H3%Z.eqb_eq]. done.
Qed.

Lemma get_bytes_bad pre c rest i size :
  Forall is_hex pre -> hex_value c = None -> Nat.Odd (length pre) \/ rest <> [] ->
  snd (get_bytes i (pre ++ c :: rest) size) = i * -2 - Z.of_nat (length pre).
Proof.
  remember (length pre) as k eqn:Hk. intros Hpre Hc. revert i pre Hk Hpre.
  induction (lt_wf k) as [k _ IH]. intros i pre Hk Hpre Hpos. destruct pre as [|l [|h pre]]; simpl in Hk.
  - destruct rest as [|r rest]; [destruct Hpos as [Ho|?]; [|done]; destruct Ho; lia|].
    cbn [app get_bytes]. rewrite Hc. simpl. lia.
  - apply Forall_cons in Hpre as [(d & Hd) _]. cbn [app get_bytes]. rewrite Hd, Hc. simpl. lia.
  - apply Forall_cons in Hpre as [(d & Hd) Hpre]. apply Forall_cons in Hpre as [(e & He) Hpre].
    cbn [app get_bytes]. rewrite Hd, He. specialize (IH (length pre) ltac:(lia) (i + 1) pre eq_refl Hpre).
    destruct (get_bytes (i + 1) (pre ++ c :: rest) size) as [bs ret]. simpl in *. rewrite IH; [lia|].
    destruct Hpos as [Ho|?]; [left|by right]. subst k. by apply Nat.Odd_succ_succ.
Qed.

(** a byte array that is stored as a string of hexadecimal digits is read back; of a
    string with another character the position of the first one is returned with a minus
    sign, which is 0 for the first position. *)
Theorem byte_array_roundtrip :
  (forall bs, Forall (fun b => 0 <= b < 256) bs ->
     getByteArray (setByteArray (Some bs)) = (bs, Z.of_nat (length bs))) /\
  (forall pre c rest, Forall is_hex pre -> hex_value c = None ->
     (Nat.Odd (length pre) \/ rest <> []) ->
     snd (getByteArray (Some (pre ++ c :: rest))) = - Z.of_nat (length pre)).
Proof.
  split.
  - intros bs Hbs. cbn [setByteArray getByteArray].
    assert (length (concat (map (fun b => [nth (Z.to_nat (Z.land b 15)) numbers 0;
      nth (Z.to_nat (Z.shiftr (Z.land b 240) 4)) numbers 0]) bs)) = (2 * length bs)%nat) as ->.
    { induction bs as [|b bs IH]; [done|]. apply Forall_cons in Hbs as [_ Hbs].
      simpl in *. rewrite IH by done. lia. }
    assert (Z.of_nat (2 * length bs) / 2 = Z.of_nat (length bs)) as ->
      by (rewrite Nat2Z.inj_mul, Z.mul_comm, Z.div_mul; done).
    generalize (Z.of_nat (length bs)) as size. intros size.
    match goal with |- get_bytes 0 ?s size = _ =>
      enough (forall i, get_bytes i s size = (bs, size)) as H by apply H end.
    induction Hbs as [|b bs Hb _ IH]; intros i; [done|]. cbn [map concat app get_bytes].
    destruct (byte_digits b Hb) as (-> & -> & E). rewrite IH. by rewrite E.
  - intros pre c rest Hpre Hc Hpos. cbn [getByteArray]. by rewrite get_bytes_bad by done.
Qed.

(** ** Witnesses *)

#[local] Existing Instance calloc.

(** The string and the list of the first type, of the list every field. *)
Definition sample_what : lEnumeration :=
  What 1 [WField 0 lStringT 100 None; WField 1 lListT 102 (Some (What 2 [WField WHAT_ALL (-99) (-99) None]))].

Lemma what_roundtrip_witness :
  transferred sample_space empty_world (cull_pack_enum (Some sample_what)) (cull_unpack_enum sample_space)
    (fun _ r => r = Some [UField 0 lStringT 100 None;
                          UField 2 lListT 102 (Some [UField WHAT_ALL (-99) (-99) None])]).
Proof.
  apply (what_roundtrip sample_space sample_ok calloc_plenty empty_world (Some sample_what) empty_ok).
  simpl. intros _. split; [lia|]. unfold is_s32_pos. repeat constructor; try done; simpl; try lia; by intros.
Defined.

Definition sample_cond {D} : condition_of D :=
  Log AND (Some (Cmp EQUAL 0 lStringT 100 (VString (Some [97]))))
    (Some (Log NEG (Some (CmpCond SUBSCOPE 2 lListT 102 None)) None)).

Lemma cond_roundtrip_witness :
  transferred sample_space empty_world (cull_pack_cond sample_space (Some sample_cond))
    (cull_unpack_cond sample_space)
    (fun w r => cond_opt_is_tree sample_space w r (Some (cond_arrived sample_space sample_cond))).
Proof.
  apply (cond_roundtrip sample_space sample_ok calloc_plenty empty_world sample_cond sample_cond empty_ok).
  - repeat split.
  - simpl. unfold cmp_ok, is_s32_pos, lStringT, lListT. split; [by right; left|]. split.
    + repeat split; try lia; [done|by left|]. repeat constructor; lia.
    + split; [by left|]. repeat split; lia.
Defined.

Lemma what_length_wraps_witness :
  cull_unpack_enum sample_space 2
    (reading_state (items_bytes [Int32 1; Int32 PackWhatArray; Int32 4294967295])) = Outside.
Proof.
  apply (what_length_wraps sample_space calloc_plenty _ []); [exact empty_ok|done|].
  split; [by eexists|simpl; lia|done|vm_compute; split; [discriminate|reflexivity]].
Defined.

Lemma byte_array_roundtrip_witness :
  getByteArray (setByteArray (Some [0; 18; 255])) = ([0; 18; 255], 3).
Proof. apply (proj1 byte_array_roundtrip). repeat constructor; lia. Defined.

End CullWhatProps.
