(* ===== verification/Host.v ===== *)
(** Names with special characters and host names ([libs/uti/ocs_Pattern.h],
    [libs/uti/sge_hostname.cc], [libs/uti/sge_string.cc]).

    A C string is the list of its bytes without the terminating one.  Bytes are compared
    and lowered as in the C locale. *)

From S2P Require Import Prelude.

Module Host.

(** ** C strings *)

Definition bytes := list Z.

Definition c_string (s : bytes) : Prop := Forall (fun b => 0 < b < 256) s.

Definition tolower (c : Z) : Z := if (65 <=? c) && (c <=? 90) then c + 32 else c.

Definition lower (s : bytes) : bytes := map tolower s.

Fixpoint strcmp (a b : bytes) : Z :=
  match a, b with
  | [], [] => 0
  | [], y :: _ => - y
  | x :: _, [] => x
  | x :: a, y :: b => if x =? y then strcmp a b else x - y
  end.

Definition strcasecmp (a b : bytes) : Z := strcmp (lower a) (lower b).
Definition strncasecmp (a b : bytes) (n : nat) : Z := strcasecmp (take n a) (take n b).

(** The string behind [dst]; [dstsize] is not 0. *)
Definition sge_strlcpy (src : bytes) (dstsize : Z) : bytes := take (Z.to_nat (dstsize - 1)) src.

Definition sge_strtolower (buffer : bytes) (max_len : Z) : bytes :=
  lower (take (Z.to_nat max_len) buffer) ++ drop (Z.to_nat max_len) buffer.

(** ** Special characters *)

(** [* ? \[ \]] *)
Definition pattern_chars : list Z := [42; 63; 91; 93].
(** These and [& | ! ( )] *)
Definition expression_chars : list Z := pattern_chars ++ [38; 124; 33; 40; 41].

Definition is_expression (s : option bytes) : bool :=
  existsb (fun c => existsb (Z.eqb c) expression_chars) (default [] s).

Definition is_pattern (s : option bytes) : bool :=
  existsb (fun c => existsb (Z.eqb c) pattern_chars) (default [] s).

Definition at_sign : Z := 64.
Definition dot : Z := 46.

Definition is_hgroup_name (name : option bytes) : bool :=
  match name with Some (c :: _) => c =? at_sign | _ => false end.

(** [host:], [ip:], [ip6:] *)
Definition MATCHER_PREFIX_HOST : bytes := [104; 111; 115; 116; 58].
Definition MATCHER_PREFIX_IP : bytes := [105; 112; 58].
Definition MATCHER_PREFIX_IP6 : bytes := [105; 112; 54; 58].

Inductive MatcherKind := MNone | MHost | MIp | MIp6.
Inductive MemberClass := GROUP_REFERENCE | MATCHER | LITERAL_HOST.

#[export] Instance MatcherKind_eq_dec : EqDecision MatcherKind.
Proof. solve_decision. Defined.

Definition matcher_kind (s : option bytes) : MatcherKind :=
  match s with
  | None => MNone
  | Some s =>
      if strncasecmp s MATCHER_PREFIX_HOST 5 =? 0 then MHost
      else if strncasecmp s MATCHER_PREFIX_IP6 4 =? 0 then MIp6
      else if strncasecmp s MATCHER_PREFIX_IP 3 =? 0 then MIp
      else MNone
  end.

Definition is_matcher (s : option bytes) : bool := negb (bool_decide (matcher_kind s = MNone)).

Definition matcher_payload (s : option bytes) : option bytes :=
  match matcher_kind s with
  | MHost => drop 5 <$> s
  | MIp6 => drop 4 <$> s
  | MIp => drop 3 <$> s
  | MNone => None
  end.

Definition reference_pattern (s : option bytes) : option bytes :=
  if bool_decide (matcher_kind s = MHost) then matcher_payload s else s.

Definition classify_member (s : option bytes) : MemberClass :=
  if is_hgroup_name s then GROUP_REFERENCE
  else if is_matcher s then MATCHER
  else LITERAL_HOST.

(** ** Host names *)

Definition CL_MAXHOSTNAMELEN : Z := 256.
(** [NONE] *)
Definition NONE_STR : bytes := [78; 79; 78; 69].

(** The settings of the cell that host names depend on. *)
Record bootstrap := Bootstrap { ignore_fqdn : bool; default_domain : option bytes }.

Section WithBootstrap.
Context (cfg : bootstrap).

Definition has_default_domain : bool :=
  match default_domain cfg with Some d => negb (strcasecmp d NONE_STR =? 0) | None => false end.

(** Group names and matchers are passed through. *)
Definition special (s : bytes) : bool := is_hgroup_name (Some s) || is_matcher (Some s).

Definition has_dot (s : bytes) : bool := existsb (Z.eqb dot) s.

(** The part in front of the first dot. *)
Fixpoint before_dot (s : bytes) : bytes :=
  match s with
  | [] => []
  | c :: s => if c =? dot then [] else c :: before_dot s
  end.

(** The string written to [dst]. *)
Definition sge_hostcpy (raw : bytes) : bytes :=
  if special raw then sge_strlcpy raw CL_MAXHOSTNAMELEN
  else if ignore_fqdn cfg then
    let len := Z.of_nat (length (before_dot raw)) in
    let len := if CL_MAXHOSTNAMELEN <=? len then CL_MAXHOSTNAMELEN - 1 else len in
    take (Z.to_nat len) raw
  else if has_default_domain && negb (has_dot raw) then
    let raw_len := Z.of_nat (length raw) in
    let raw_len := if CL_MAXHOSTNAMELEN <=? raw_len then CL_MAXHOSTNAMELEN - 1 else raw_len in
    let dst := take (Z.to_nat raw_len) raw in
    if raw_len + 1 <? CL_MAXHOSTNAMELEN then
      dst ++ dot :: sge_strlcpy (default [] (default_domain cfg)) (CL_MAXHOSTNAMELEN - (raw_len + 1))
    else dst
  else sge_strlcpy raw CL_MAXHOSTNAMELEN.

(** A name of the same address is also equal by its bytes. *)
Definition sge_hostcmp (h1 h2 : option bytes) : Z :=
  match h1, h2 with
  | Some h1, Some h2 =>
      if special h1 || special h2 then strcasecmp h1 h2
      else
        let ignore := if has_dot h1 || has_dot h2 then ignore_fqdn cfg else false in
        let have := if negb (has_dot h1) || negb (has_dot h2) then has_default_domain else false in
        let needs_norm h := (ignore && has_dot h) || (have && negb (has_dot h)) in
        if negb (needs_norm h1) && negb (needs_norm h2) then strcasecmp h1 h2
        else
          strcasecmp (if needs_norm h1 then sge_hostcpy h1 else h1)
                     (if needs_norm h2 then sge_hostcpy h2 else h2)
  | _, _ => -1
  end.

(** Whether [lGetElemHost] finds an element with the name [s] under the name [h]. *)
Definition same_host (h s : bytes) : bool := strcasecmp (sge_hostcpy s) (sge_hostcpy h) =? 0.

(** [fnmatch] of the C library without flags; 0 is a match. *)
Context (fnmatch : bytes -> bytes -> Z).

Definition sge_hostmatch (h1 h2 : option bytes) : Z :=
  match h1, h2 with
  | Some h1, Some h2 => fnmatch (sge_hostcpy h1) (sge_hostcpy h2)
  | _, _ => -1
  end.

Definition sge_hostmatch_pattern (pattern host : option bytes) : Z :=
  match pattern, host with
  | Some pattern, Some host =>
      let n := CL_MAXHOSTNAMELEN + 1 in
      fnmatch (sge_strtolower (sge_strlcpy pattern n) n) (sge_strtolower (sge_hostcpy host) n)
  | _, _ => -1
  end.

End WithBootstrap.

End Host.
