(* ===== verification/HostProps.v ===== *)
(** Host names are compared by the name they are stored under. *)

From S2P Require Import Prelude Host.
Import Host.

Module HostProps.

Lemma tolower_idem c : tolower (tolower c) = tolower c.
Proof.
  unfold tolower. destruct (Z.leb_spec 65 c), (Z.leb_spec c 90); cbn [andb]; zcases; cbn [andb]; lia.
Qed.

Lemma tolower_pos c : 0 < c -> 0 < tolower c.
Proof. unfold tolower. destruct (_ && _); lia. Qed.

Lemma lower_idem s : lower (lower s) = lower s.
Proof. unfold lower. rewrite map_map. apply map_ext, tolower_idem. Qed.

Lemma lower_take n s : lower (take n s) = take n (lower s).
Proof. exact (fmap_take tolower n s). Qed.

Lemma strcmp_zero a b :
  Forall (fun c => 0 < c) a -> Forall (fun c => 0 < c) b -> strcmp a b = 0 <-> a = b.
Proof.
  intros Ha. revert b. induction Ha as [|x a Hx Ha IH]; intros [|y b]; simpl.
  - done.
  - intros [Hy _]%Forall_cons. split; [lia|done].
  - intros _. split; [lia|done].
  - intros [Hy Hb]%Forall_cons. destruct (Z.eqb_spec x y) as [->|Hne].
    + rewrite (IH b Hb). split; [by intros ->|by intros [=]].
    + split; [lia|by intros [=]].
Qed.

Lemma lower_pos s : c_string s -> Forall (fun c => 0 < c) (lower s).
Proof.
  intros Hs. unfold lower. rewrite Forall_map. eapply Forall_impl; [exact Hs|].
  intros c [Hc _]. by apply tolower_pos.
Qed.

Lemma strcasecmp_zero a b : c_string a -> c_string b -> strcasecmp a b = 0 <-> lower a = lower b.
Proof. intros Ha Hb. unfold strcasecmp. apply strcmp_zero; by apply lower_pos. Qed.

Lemma c_string_take n s : c_string s -> c_string (take n s).
Proof. apply Forall_take. Qed.

(** A prefix in lower case is found in a name exactly when the lowered name begins with it. *)
Lemma prefix_zero s p n :
  c_string s -> c_string p -> lower p = p -> length p = n ->
  strncasecmp s p n = 0 <-> take n (lower s) = p.
Proof.
  intros Hs Hp Hl <-. unfold strncasecmp. rewrite (take_ge p) by done.
  rewrite strcasecmp_zero; [|by apply c_string_take|done]. by rewrite lower_take, Hl.
Qed.

Lemma prefix_ok p :
  p ∈ [MATCHER_PREFIX_HOST; MATCHER_PREFIX_IP6; MATCHER_PREFIX_IP] ->
  c_string p /\ lower p = p /\ dot ∉ p.
Proof.
  rewrite !elem_of_cons. intros [->|[->|[->|H]]]; [..|by apply not_elem_of_nil in H];
    (split; [repeat constructor; lia|split; [done|]]);
    intros H; repeat (apply elem_of_cons in H as [H|H]; [done|]); by apply not_elem_of_nil in H.
Qed.

(** What makes a name special. *)
Lemma special_iff s :
  c_string s ->
  special s = true <->
  head (lower s) = Some at_sign \/
  exists p, p ∈ [MATCHER_PREFIX_HOST; MATCHER_PREFIX_IP6; MATCHER_PREFIX_IP] /\
    take (length p) (lower s) = p.
Proof.
  intros Hs. unfold special. rewrite orb_true_iff.
  assert (is_hgroup_name (Some s) = true <-> head (lower s) = Some at_sign) as ->.
  { destruct s as [|c s]; [done|]. cbn [is_hgroup_name lower map head]. unfold at_sign, tolower.
    rewrite Z.eqb_eq. destruct (_ && _) eqn:E; split; intros H; try lia; try congruence.
    injection H as H. lia. }
  assert (forall p, p ∈ [MATCHER_PREFIX_HOST; MATCHER_PREFIX_IP6; MATCHER_PREFIX_IP] ->
    (strncasecmp s p (length p) =? 0) = true <-> take (length p) (lower s) = p) as Hp.
  { intros p (H1 & H2 & _)%prefix_ok. rewrite Z.eqb_eq. by apply prefix_zero. }
  assert (is_matcher (Some s) = true <->
    exists p, p ∈ [MATCHER_PREFIX_HOST; MATCHER_PREFIX_IP6; MATCHER_PREFIX_IP] /\
      (strncasecmp s p (length p) =? 0) = true) as ->.
  { unfold is_matcher, matcher_kind. rewrite negb_true_iff, bool_decide_eq_false.
    change 5%nat with (length MATCHER_PREFIX_HOST). change 4%nat with (length MATCHER_PREFIX_IP6).
    change 3%nat with (length MATCHER_PREFIX_IP).
    split.
    - intros H. repeat case_match; [eexists; split; [|eassumption]; set_solver..|done].
    - intros (p & Hin & Hz). rewrite !elem_of_cons in Hin.
      destruct Hin as [->|[->|[->|Hin]]]; [..|by apply not_elem_of_nil in Hin]; rewrite Hz;
        by repeat case_match. }
  split; (intros [?|(p & Hin & H)]; [by left|right; exists p; split; [done|]]); by apply Hp.
Qed.

Lemma special_lower a b : c_string a -> c_string b -> lower a = lower b -> special a = special b.
Proof.
  intros Ha Hb E. apply eq_true_iff_eq. rewrite !special_iff by done. by rewrite E.
Qed.

(** Neither a leading part of a name nor the name with a domain becomes special. *)
Lemma special_take n s : c_string s -> special (take n s) = true -> special s = true.
Proof.
  intros Hs. rewrite !special_iff, lower_take by (done || by apply c_string_take).
  intros [H|(p & Hin & H)]; [left|right].
  - destruct n; [done|]. by destruct (lower s).
  - exists p. split; [done|]. rewrite take_take in H. rewrite <- H at 2. f_equal.
    apply (f_equal length) in H. rewrite length_take in H. lia.
Qed.

Lemma special_domain s d : c_string s -> c_string d -> special (s ++ dot :: d) = true -> special s = true.
Proof.
  intros Hs Hd.
  assert (c_string (s ++ dot :: d)) by (apply Forall_app; split; [done|by constructor]).
  rewrite !special_iff by done.
  intros [H1|(p & Hin & H1)]; [left; by destruct s|right; exists p; split; [done|]].
  unfold lower in *. rewrite map_app in H1. cbn [map] in H1. change (tolower dot) with dot in H1.
  destruct (prefix_ok p Hin) as (_ & _ & Hdot). rewrite take_app in H1.
  destruct (length p - length (map tolower s))%nat as [|k] eqn:E.
  - by rewrite app_nil_r in H1.
  - exfalso. apply Hdot. rewrite <- H1. apply elem_of_app. right. by left.
Qed.

Section Names.
Context (cfg : bootstrap) (Hcfg : c_string (default [] (default_domain cfg))).

Lemma before_dot_take s : before_dot s = take (length (before_dot s)) s.
Proof. induction s as [|c s IH]; [done|]. simpl. destruct (c =? dot); [done|]. simpl. by rewrite <- IH. Qed.

Lemma before_dot_none s : has_dot s = false -> before_dot s = s.
Proof.
  induction s as [|c s IH]; [done|]. unfold has_dot. cbn [existsb before_dot].
  rewrite orb_false_iff, Z.eqb_sym. intros [-> H]. by rewrite IH.
Qed.

Lemma before_dot_has s : has_dot (before_dot s) = false.
Proof.
  induction s as [|c s IH]; [done|]. cbn [before_dot]. destruct (c =? dot) eqn:E; [done|].
  unfold has_dot. cbn [existsb]. by rewrite Z.eqb_sym, E.
Qed.

(** A host name that fits the buffer. *)
Definition fits (s : bytes) : Prop := c_string s /\ length s < CL_MAXHOSTNAMELEN.

Lemma hostcpy_special s : fits s -> special s = true -> sge_hostcpy cfg s = s.
Proof. intros [_ Hl] H. unfold sge_hostcpy, sge_strlcpy. rewrite H. by rewrite take_ge by lia. Qed.

Lemma hostcpy_plain s :
  fits s -> special s = false ->
  sge_hostcpy cfg s =
    if ignore_fqdn cfg then before_dot s
    else if has_default_domain cfg && negb (has_dot s) then
      s ++ (if length s + 1 <? CL_MAXHOSTNAMELEN then
              dot :: take (Z.to_nat (CL_MAXHOSTNAMELEN - length s - 2)) (default [] (default_domain cfg))
            else [])
    else s.
Proof.
  intros [_ Hl] H. unfold sge_hostcpy, sge_strlcpy. rewrite H.
  pose proof (f_equal length (before_dot_take s)) as Hb. rewrite length_take in Hb.
  destruct (ignore_fqdn cfg).
  - rewrite (proj2 (Z.leb_gt _ _)) by lia. by rewrite Nat2Z.id, <- before_dot_take.
  - destruct (_ && _); [|by rewrite take_ge by lia].
    rewrite (proj2 (Z.leb_gt _ _)) by lia. rewrite Nat2Z.id, take_ge by lia.
    destruct (_ <? _); [|by rewrite app_nil_r]. do 3 f_equal. lia.
Qed.

Lemma hostcpy_fits s : fits s -> fits (sge_hostcpy cfg s).
Proof.
  intros Hf. destruct (special s) eqn:E; [by rewrite hostcpy_special|].
  rewrite hostcpy_plain by done. destruct Hf as [Hs Hl]. destruct (ignore_fqdn cfg).
  - rewrite before_dot_take. split; [by apply c_string_take|]. rewrite length_take. lia.
  - destruct (_ && _); [|done]. destruct (_ <? _) eqn:E2; [|by rewrite app_nil_r].
    split; [apply Forall_app; split; [done|constructor; [done|by apply c_string_take]]|].
    rewrite length_app. simpl. rewrite length_take. lia.
Qed.

Lemma hostcpy_stays_plain s : fits s -> special s = false -> special (sge_hostcpy cfg s) = false.
Proof.
  intros Hf E. rewrite hostcpy_plain by done. destruct Hf as [Hs Hl]. apply not_true_iff_false.
  apply not_true_iff_false in E. contradict E. destruct (ignore_fqdn cfg).
  - rewrite before_dot_take in E. by apply special_take in E.
  - destruct (_ && _); [|done]. destruct (_ <? _) eqn:E2; [|by rewrite app_nil_r in E].
    apply special_domain in E; [done|done|by apply c_string_take].
Qed.

(** What the comparison does without short cuts. *)
Lemma hostcmp_plain h1 h2 :
  fits h1 -> fits h2 -> special h1 = false -> special h2 = false ->
  sge_hostcmp cfg (Some h1) (Some h2) = strcasecmp (sge_hostcpy cfg h1) (sge_hostcpy cfg h2).
Proof.
  intros F1 F2 S1 S2. unfold sge_hostcmp. rewrite S1, S2. cbn [orb].
  set (ignore := if has_dot h1 || has_dot h2 then ignore_fqdn cfg else false).
  set (have := if negb (has_dot h1) || negb (has_dot h2) then has_default_domain cfg else false).
  assert (forall h, fits h -> special h = false -> (h = h1 \/ h = h2) ->
    (ignore && has_dot h) || (have && negb (has_dot h)) = false -> sge_hostcpy cfg h = h) as Hid.
  { intros h Hf Hs Hh Hn. rewrite hostcpy_plain by done.
    assert (ignore && has_dot h = ignore_fqdn cfg && has_dot h) as Hi.
    { unfold ignore. destruct Hh as [->| ->], (has_dot h1), (has_dot h2); simpl; by rewrite ?andb_false_r. }
    assert (have && negb (has_dot h) = has_default_domain cfg && negb (has_dot h)) as Hv.
    { unfold have. destruct Hh as [->| ->], (has_dot h1), (has_dot h2); simpl; by rewrite ?andb_false_r. }
    rewrite Hi, Hv in Hn. apply orb_false_iff in Hn as [Hn1 ->].
    destruct (ignore_fqdn cfg); [|done]. by apply before_dot_none. }
  destruct (ignore && has_dot h1 || have && negb (has_dot h1)) eqn:N1;
    destruct (ignore && has_dot h2 || have && negb (has_dot h2)) eqn:N2; cbn [negb andb];
    rewrite ?(Hid h1), ?(Hid h2) by auto; done.
Qed.

(** A group or matcher is never equal to a host, neither as written nor as stored. *)
Lemma special_differs h1 h2 :
  fits h1 -> fits h2 -> special h1 <> special h2 ->
  lower h1 <> lower h2 /\ lower (sge_hostcpy cfg h1) <> lower (sge_hostcpy cfg h2).
Proof.
  intros F1 F2 Hne.
  assert (forall h, fits h -> special (sge_hostcpy cfg h) = special h) as Hs.
  { intros h F. destruct (special h) eqn:E; [by rewrite hostcpy_special|by apply hostcpy_stays_plain]. }
  split; intros H; apply special_lower in H; try (by apply F1 || by apply F2 || by apply hostcpy_fits);
    [done|]. rewrite !Hs in H by done. done.
Qed.

(** two host names are equal for [sge_hostcmp] exactly when the names they are stored
    under are, up to case: so the comparison is an equivalence and agrees with every index
    over host names, whatever the settings for domains are; and a stored name is stored
    under itself. *)
Theorem hostcmp_compares_keys (h1 h2 : bytes) :
  fits h1 -> fits h2 ->
  (sge_hostcmp cfg (Some h1) (Some h2) = 0 <->
   lower (sge_hostcpy cfg h1) = lower (sge_hostcpy cfg h2)) /\
  sge_hostcpy cfg (sge_hostcpy cfg h1) = sge_hostcpy cfg h1.
Proof.
  intros F1 F2. split.
  - destruct (special h1 || special h2) eqn:E.
    + unfold sge_hostcmp. rewrite E. rewrite strcasecmp_zero by (by apply F1 || by apply F2).
      destruct (decide (special h1 = special h2)) as [Es|Hne].
      * rewrite Es, orb_diag in E. by rewrite !hostcpy_special by congruence.
      * pose proof (special_differs h1 h2 F1 F2 Hne). tauto.
    + apply orb_false_iff in E as [E1 E2]. rewrite hostcmp_plain by done.
      apply strcasecmp_zero; by apply hostcpy_fits.
  - pose proof (hostcpy_fits h1 F1) as F. destruct (special h1) eqn:E1.
    { rewrite (hostcpy_special h1) by done. by apply hostcpy_special. }
    rewrite hostcpy_plain by (done || by apply hostcpy_stays_plain).
    rewrite hostcpy_plain by done. destruct (ignore_fqdn cfg).
    + by rewrite before_dot_none by apply before_dot_has.
    + destruct (has_default_domain cfg && negb (has_dot h1)) eqn:Ed; [|by rewrite Ed].
      apply andb_true_iff in Ed as [-> Hd]. cbn [andb].
      destruct (length h1 + 1 <? CL_MAXHOSTNAMELEN) eqn:El.
      * unfold has_dot at 1. rewrite existsb_app. simpl. by rewrite orb_true_r.
      * rewrite !app_nil_r, Hd. by rewrite El, app_nil_r.
Qed.

End Names.

Lemma hostcmp_compares_keys_witness :
  let cfg := Bootstrap false (Some [100; 111; 109]) in
  (sge_hostcmp cfg (Some [65]) (Some [97; 46; 100; 111; 109]) = 0 <->
   lower (sge_hostcpy cfg [65]) = lower (sge_hostcpy cfg [97; 46; 100; 111; 109])) /\
  sge_hostcpy cfg (sge_hostcpy cfg [65]) = sge_hostcpy cfg [65].
Proof.
  apply (hostcmp_compares_keys (Bootstrap false (Some [100; 111; 109]))).
  - repeat constructor; lia.
  - split; [repeat constructor; lia|simpl; unfold CL_MAXHOSTNAMELEN; lia].
  - split; [repeat constructor; lia|simpl; unfold CL_MAXHOSTNAMELEN; lia].
Defined.

Example hostcmp_with_domain :
  sge_hostcmp (Bootstrap false (Some [100; 111; 109])) (Some [65]) (Some [97; 46; 100; 111; 109]) = 0.
Proof. reflexivity. Qed.

End HostProps.
