(* ===== verification/Expr.v ===== *)
(** Wildcard expressions ([libs/sgeobj/sge_eval_expression.cc]): a recursive descent
    evaluation of patterns combined by [!], [&], [|] and parentheses.

    The index into the expression is the rest of it.  [fnmatch] of the C library and the
    texts of the messages are parameters. *)

From S2P Require Import Prelude Answer Host.
Import Answer Host.

Module Expr.

(** ** Data *)

(** [ocs::CEntry::Type] *)
Inductive centry_type :=
  | NONE | INT | STR | TIME | MEM | BOOL | CSTR | HOST | DOUBLE | RESTR | RSMAP.

Inductive token_type :=
  | T_NOT | T_OR | T_AND | T_BRACEOPEN | T_BRACECLOSE | T_END | T_EXP | T_ERROR.

#[export] Instance token_type_eq_dec : EqDecision token_type.
Proof. solve_decision. Defined.

Definition eTypes : list token_type := [T_NOT; T_OR; T_AND; T_BRACEOPEN; T_BRACECLOSE; T_END].

Definition MAX_STRING_SIZE : Z := 2048.

Record s_token := Token {
  type : centry_type;
  value : bytes;
  expr : bytes;
  s : bytes;
  pattern : option bytes;
  has_patterns : bool;
  tt_ : token_type;
  et : token_type;
  answer_list_ : answer_arg;
}.

(** ** Characters *)

Definition space : Z := 32.

(** The index of a terminal, -1 for other characters; the end of the string is one. *)
Definition indexOfTerminal (c : option Z) : Z :=
  match c with
  | None => 5
  | Some c =>
      if c =? 33 then 0 else if c =? 124 then 1 else if c =? 38 then 2
      else if c =? 40 then 3 else if c =? 41 then 4 else if c =? space then 5
      else -1
  end.

(** The function [is_pattern] on one character. *)
Definition is_pattern_char (c : Z) : bool := existsb (Z.eqb c) pattern_chars.

Definition skip_spaces : bytes -> bytes := fix skip (r : bytes) :=
  match r with
  | c :: r' => if c =? space then skip r' else r
  | [] => []
  end.

(** The characters up to the next terminal, and the rest. *)
Fixpoint up_to_terminal (r : bytes) : bytes * bytes :=
  match r with
  | [] => ([], [])
  | c :: r' =>
      if indexOfTerminal (Some c) =? -1 then let '(p, q) := up_to_terminal r' in (c :: p, q)
      else ([], r)
  end.

Definition is_lowered (type : centry_type) : bool :=
  match type with CSTR | HOST => true | _ => false end.

Definition copy_chars (type : centry_type) (p : bytes) : bytes :=
  if is_lowered type then lower p else p.

(** ** Tokens *)

Definition ParseTerminal (t : s_token) : option s_token :=
  let index := indexOfTerminal (head (s t)) in
  if index =? -1 then None
  else
    Some (Token (type t) (value t) (expr t) (tail (s t)) (pattern t) (has_patterns t)
            (default T_END (eTypes !! Z.to_nat index)) (et t) (answer_list_ t)).

Definition ParseNonTerminal (t : s_token) (skip : bool) : s_token :=
  let '(p, rest) := up_to_terminal (s t) in
  if skip then
    Token (type t) (value t) (expr t) rest (pattern t) (has_patterns t) T_EXP (et t) (answer_list_ t)
  else
    Token (type t) (value t) (expr t) rest (Some (copy_chars (type t) p))
      (existsb is_pattern_char p) T_EXP (et t) (answer_list_ t).

Definition NextToken (t : s_token) (skip : bool) : s_token :=
  let t := Token (type t) (value t) (expr t) (skip_spaces (s t)) (pattern t) (has_patterns t)
             (tt_ t) (tt_ t) (answer_list_ t) in
  if bool_decide (tt_ t = T_ERROR) then t
  else
    match s t with
    | [] => Token (type t) (value t) (expr t) (s t) (pattern t) (has_patterns t) T_END (et t)
              (answer_list_ t)
    | _ =>
        match ParseTerminal t with
        | Some t => t
        | None => ParseNonTerminal t skip
        end
    end.

Section WithLibrary.
Context (cfg : bootstrap) (fnmatch : bytes -> bytes -> Z).
Context (parse_error_text : Z -> bytes -> string) (long_value_text long_expression_text : string).

(** ** Evaluation *)

(** The result is -1. *)
Definition Error (t : s_token) (expected : token_type) : s_token :=
  if bool_decide (tt_ t = T_ERROR) then t
  else
    let text := parse_error_text (length (expr t) - length (s t)) (expr t) in
    Token (type t) (value t) (expr t) (s t) (pattern t) (has_patterns t) T_ERROR expected
      (snd (answer_list_add (answer_list_ t) text STATUS_ESYNTAX ANSWER_QUALITY_ERROR)).

(** 0 for a match of the type's comparison. *)
Definition compare (type : centry_type) (has_patterns : bool) (pattern value : bytes) : Z :=
  if has_patterns then
    match type with
    | STR | CSTR | RESTR => fnmatch pattern value
    | HOST => sge_hostmatch cfg fnmatch (Some pattern) (Some value)
    | _ => -1
    end
  else
    match type with
    | STR | RESTR => strcmp pattern value
    | CSTR => strcasecmp pattern value
    | HOST => sge_hostcmp cfg (Some pattern) (Some value)
    | _ => -1
    end.

Definition MatchPattern (t : s_token) (skip : bool) : Z :=
  if skip then -1
  else
    match pattern t with
    | None => -1
    | Some p => if compare (type t) (has_patterns t) p (value t) =? 0 then 0 else 1
    end.

(** [!match] *)
Definition not_match (match_ : Z) : Z := if match_ =? 0 then 1 else 0.

(** The functions below call each other through this record, which [functions] ties to depth
    [fuel]; [None] is a deeper recursion. *)
Record rules := Rules {
  or_expression : s_token -> bool -> option (s_token * Z);
  or_rest : s_token -> Z -> bool -> option (s_token * Z);
  and_expression : s_token -> bool -> option (s_token * Z);
  and_rest : s_token -> Z -> bool -> option (s_token * Z);
  simple_expression : s_token -> bool -> option (s_token * Z);
}.

Section Rules.
Context (call : rules).

Definition OrExpression (t : s_token) (skip : bool) : option (s_token * Z) :=
  '(t, match_) ← and_expression call (NextToken t skip) skip;
  or_rest call t match_ skip.

(** The loop; one round and the rest. *)
Definition or_loop (t : s_token) (match_ : Z) (skip : bool) : option (s_token * Z) :=
  if bool_decide (tt_ t = T_OR) then
    let t := NextToken t skip in
    if match_ =? 0 then
      '(t, _) ← and_expression call t true; or_rest call t match_ skip
    else
      '(t, match_) ← and_expression call t skip; or_rest call t match_ skip
  else Some (t, match_).

Definition AndExpression (t : s_token) (skip : bool) : option (s_token * Z) :=
  '(t, match_) ← simple_expression call t skip;
  and_rest call t match_ skip.

Definition and_loop (t : s_token) (match_ : Z) (skip : bool) : option (s_token * Z) :=
  if bool_decide (tt_ t = T_AND) then
    let t := NextToken t skip in
    if negb (match_ =? 0) then
      '(t, _) ← simple_expression call t true; and_rest call t match_ skip
    else
      '(t, match_) ← simple_expression call t skip; and_rest call t match_ skip
  else Some (t, match_).

Definition SimpleExpression (t : s_token) (skip : bool) : option (s_token * Z) :=
  match tt_ t with
  | T_ERROR => Some (t, -1)
  | T_BRACEOPEN =>
      '(t, match_) ← or_expression call t skip;
      if bool_decide (tt_ t = T_BRACECLOSE) then Some (NextToken t skip, match_)
      else Some (Error t T_BRACECLOSE, -1)
  | T_EXP => Some (NextToken t skip, MatchPattern t skip)
  | T_NOT =>
      '(t, match_) ← simple_expression call (NextToken t skip) skip;
      Some (t, not_match match_)
  | _ => Some (Error t (et t), -1)
  end.

End Rules.

Fixpoint functions (fuel : nat) : rules :=
  match fuel with
  | O => Rules (fun _ _ => None) (fun _ _ _ => None) (fun _ _ => None) (fun _ _ _ => None)
           (fun _ _ => None)
  | S fuel =>
      let call := functions fuel in
      Rules (OrExpression call) (or_loop call) (AndExpression call) (and_loop call)
        (SimpleExpression call)
  end.

Definition uncaseValue (t : s_token) : s_token :=
  Token (type t) (copy_chars (type t) (value t)) (expr t) (s t) (pattern t) (has_patterns t)
    (tt_ t) (et t) (answer_list_ t).

(** Enough for any expression. *)
Definition expression_fuel (e : bytes) : nat := 8 * length e + 8.

Definition evaluate (t : s_token) : option (Z * answer_arg) :=
  if has_patterns t then
    '(t, match_) ← or_expression (functions (expression_fuel (expr t))) (uncaseValue t) false;
    if negb (bool_decide (tt_ t = T_END)) then Some (-1, answer_list_ (Error t T_END))
    else
      match s t with
      | [] => Some (match_, answer_list_ t)
      | _ => Some (-1, answer_list_ (Error t (et t)))
      end
  else
    let t := Token (type t) (value t) (expr t) (s t) (Some (expr t)) (has_patterns t) (tt_ t) (et t)
               (answer_list_ t) in
    Some (MatchPattern t false, answer_list_ t).

(** The result and the answer list. *)
Definition sge_eval_expression (type : centry_type) (expr value : option bytes)
    (answer_list : answer_arg) (use_is_expression is_expr : bool) : option (Z * answer_arg) :=
  match expr, value with
  | None, Some _ => Some (-1, answer_list)
  | Some _, None => Some (1, answer_list)
  | None, None => Some (0, answer_list)
  | Some expr, Some value =>
      let too_long text :=
        Some (-1, snd (answer_list_add answer_list text STATUS_ESYNTAX ANSWER_QUALITY_ERROR)) in
      if MAX_STRING_SIZE <=? length value then too_long long_value_text
      else if MAX_STRING_SIZE <=? length expr then too_long long_expression_text
      else
        let has := if use_is_expression then is_expr else is_expression (Some expr) in
        evaluate (Token type value expr expr None has T_END T_EXP answer_list)
  end.

(** [CE_valtype] and [CE_stringval] of the attribute. *)
Definition object_verify_expression_syntax (type : centry_type) (stringval : option bytes)
    (answer_list : answer_arg) : option (bool * answer_arg) :=
  match type with
  | STR | CSTR | RESTR | HOST =>
      '(r, answer_list) ← sge_eval_expression type stringval (Some [42]) answer_list false false;
      Some (negb (r =? -1), answer_list)
  | _ => Some (true, answer_list)
  end.

End WithLibrary.

#[global] Arguments OrExpression _ _ _ /.
#[global] Arguments or_loop _ _ _ _ /.
#[global] Arguments AndExpression _ _ _ /.
#[global] Arguments and_loop _ _ _ _ /.
#[global] Arguments SimpleExpression _ _ _ _ _ _ /.

End Expr.
