(* ===== verification/ExprProps.v ===== *)
(** Wildcard expressions are evaluated as their grammar says. *)

From S2P Require Import Prelude Answer Host Expr.
Import Answer Host Expr.

Module ExprProps.

(** ** The language *)

Inductive tok := KNot | KOr | KAnd | KOpen | KClose | KExp (p : bytes).

Definition tok_of (c : Z) : option tok :=
  if c =? 33 then Some KNot else if c =? 124 then Some KOr else if c =? 38 then Some KAnd
  else if c =? 40 then Some KOpen else if c =? 41 then Some KClose else None.

(** A pattern is what stands between special characters and spaces. *)
Fixpoint lex (r : bytes) : list tok :=
  match r with
  | [] => []
  | c :: r =>
      if c =? space then lex r
      else
        match tok_of c with
        | Some k => k :: lex r
        | None =>
            if indexOfTerminal (head r) =? -1 then
              match lex r with
              | KExp p :: ks => KExp (c :: p) :: ks
              | ks => KExp [c] :: ks
              end
            else KExp [c] :: lex r
        end
  end.

Inductive tree := EPat (p : bytes) | ENot (e : tree) | EAnd (e1 e2 : tree) | EOr (e1 e2 : tree).

Inductive level := LSimple | LAnd | LOr.

(** [&] binds stronger than [|], [!] stronger than both. *)
Inductive derives : level -> list tok -> tree -> Prop :=
  | d_pat p : derives LSimple [KExp p] (EPat p)
  | d_not ks e : derives LSimple ks e -> derives LSimple (KNot :: ks) (ENot e)
  | d_paren ks e : derives LOr ks e -> derives LSimple (KOpen :: ks ++ [KClose]) e
  | d_simple ks e : derives LSimple ks e -> derives LAnd ks e
  | d_and ks1 e1 ks2 e2 : derives LSimple ks1 e1 -> derives LAnd ks2 e2 ->
      derives LAnd (ks1 ++ KAnd :: ks2) (EAnd e1 e2)
  | d_one ks e : derives LAnd ks e -> derives LOr ks e
  | d_or ks1 e1 ks2 e2 : derives LAnd ks1 e1 -> derives LOr ks2 e2 ->
      derives LOr (ks1 ++ KOr :: ks2) (EOr e1 e2).

(** ** Reading tokens *)

Lemma skip_spaces_lex r : lex (skip_spaces r) = lex r.
Proof. induction r as [|c r IH]; [done|]. simpl. by destruct (c =? space) eqn:E; [|simpl; rewrite E]. Qed.

Lemma skip_spaces_length r : (length (skip_spaces r) <= length r)%nat.
Proof. induction r as [|c r IH]; [done|]. simpl. destruct (c =? space); simpl in *; lia. Qed.

Lemma skip_spaces_head r c r' : skip_spaces r = c :: r' -> c <> space.
Proof.
  induction r as [|d r IH]; [done|]. simpl. destruct (d =? space) eqn:E; [done|].
  intros [= -> ->]. by apply Z.eqb_neq.
Qed.

Definition tt_of (k : tok) : token_type :=
  match k with
  | KNot => T_NOT | KOr => T_OR | KAnd => T_AND | KOpen => T_BRACEOPEN | KClose => T_BRACECLOSE
  | KExp _ => T_EXP
  end.

Lemma terminal_cases c :
  match tok_of c with
  | Some k => indexOfTerminal (Some c) <> -1 /\
      eTypes !! Z.to_nat (indexOfTerminal (Some c)) = Some (tt_of k) /\ c <> space
  | None => if c =? space then indexOfTerminal (Some c) <> -1 else indexOfTerminal (Some c) = -1
  end.
Proof.
  unfold tok_of, indexOfTerminal, space.
  repeat match goal with |- context [c =? ?n] => destruct (Z.eqb_spec c n); subst; simpl; try done end.
Qed.

Lemma up_to_terminal_length r : (length (snd (up_to_terminal r)) <= length r)%nat.
Proof.
  induction r as [|c r IH]; [done|]. cbn [up_to_terminal]. destruct (_ =? _); [|done].
  destruct (up_to_terminal r). simpl in *. lia.
Qed.

Lemma lex_pattern r :
  indexOfTerminal (head r) = -1 ->
  lex r = KExp (fst (up_to_terminal r)) :: lex (snd (up_to_terminal r)).
Proof.
  induction r as [|c r IH]; [done|]. cbn [head]. intros Hc. pose proof (terminal_cases c) as Ht.
  cbn [lex up_to_terminal]. rewrite Hc, Z.eqb_refl.
  destruct (tok_of c) as [k|] eqn:Ek; [tauto|].
  destruct (c =? space) eqn:Es; [done|].
  destruct (indexOfTerminal (head r) =? -1) eqn:Eh.
  - apply Z.eqb_eq in Eh. rewrite (IH Eh). by destruct (up_to_terminal r).
  - destruct r as [|d r]; [done|]. cbn [head] in Eh. cbn [up_to_terminal]. by rewrite Eh.
Qed.

Section Evaluation.
Context (cfg : bootstrap) (fnmatch : bytes -> bytes -> Z).
Context (parse_error_text : Z -> bytes -> string).

Abbreviation OrExpression fuel := (or_expression (functions cfg fnmatch parse_error_text fuel)).
Abbreviation or_loop fuel := (or_rest (functions cfg fnmatch parse_error_text fuel)).
Abbreviation AndExpression fuel := (and_expression (functions cfg fnmatch parse_error_text fuel)).
Abbreviation and_loop fuel := (and_rest (functions cfg fnmatch parse_error_text fuel)).
Abbreviation SimpleExpression fuel := (simple_expression (functions cfg fnmatch parse_error_text fuel)).
Abbreviation Error := (Error parse_error_text).

(** The state is at the first of these tokens; a pattern that is going to be matched has
    been copied. *)
Definition at_ (t : s_token) (ks : list tok) (skip : bool) : Prop :=
  match ks with
  | [] => tt_ t = T_END /\ s t = []
  | k :: ks =>
      tt_ t = tt_of k /\ lex (s t) = ks /\
      match k with
      | KExp p => skip = false ->
          pattern t = Some (copy_chars (type t) p) /\ has_patterns t = existsb is_pattern_char p
      | _ => True
      end
  end.

Lemma at_skip t ks skip : at_ t ks false -> at_ t ks skip.
Proof. destruct ks as [|[] ks]; simpl; try done. intros (? & ? & H). do 2 (split; [done|]). intros _. by apply H. Qed.

Lemma at_true t ks skip : at_ t ks skip -> at_ t ks true.
Proof. destruct skip; [done|apply at_skip]. Qed.

Lemma at_error t ks skip : at_ t ks skip -> tt_ t <> T_ERROR.
Proof. destruct ks as [|[] ks]; simpl; intros [-> _]; done. Qed.

Lemma next_at t skip : tt_ t <> T_ERROR -> at_ (NextToken t skip) (lex (s t)) skip.
Proof.
  intros Ht. unfold NextToken. cbn [tt_ s]. rewrite bool_decide_eq_false_2 by done.
  rewrite <- skip_spaces_lex. destruct (skip_spaces (s t)) as [|c r] eqn:E; [done|].
  pose proof (skip_spaces_head _ _ _ E) as Hc. pose proof (terminal_cases c) as Hk.
  unfold ParseTerminal. cbn [s head tail type value expr pattern has_patterns et answer_list_].
  destruct (tok_of c) as [k|] eqn:Ek.
  - destruct Hk as (H1 & H2 & _). rewrite (proj2 (Z.eqb_neq _ _)) by done. rewrite H2.
    cbn [lex]. rewrite (proj2 (Z.eqb_neq _ _)) by done. rewrite Ek.
    cbn [at_ tt_ s]. do 2 (split; [done|]). unfold tok_of in Ek. by repeat case_match; simplify_eq.
  - rewrite (proj2 (Z.eqb_neq _ _)) in Hk by done. rewrite Hk, Z.eqb_refl.
    rewrite (lex_pattern (c :: r)) by done. unfold ParseNonTerminal. cbn [s type].
    destruct (up_to_terminal (c :: r)) as [p q]. cbn [fst snd].
    destruct skip; cbn [at_ tt_ s pattern has_patterns type]; by do 2 (split; [done|]).
Qed.

Lemma next_error t skip : tt_ t = T_ERROR -> tt_ (NextToken t skip) = T_ERROR.
Proof. intros Ht. unfold NextToken. cbn [tt_]. rewrite bool_decide_eq_true_2; done. Qed.

(** ** What every function keeps *)

(** What is left to read: two for every character and one for the token. *)
Definition left_ (t : s_token) : nat :=
  2 * length (s t) + if bool_decide (tt_ t = T_END \/ tt_ t = T_ERROR) then 0 else 1.

Lemma left_bounds t : (2 * length (s t) <= left_ t <= 2 * length (s t) + 1)%nat.
Proof. unfold left_. case_bool_decide; lia. Qed.

Lemma next_left t skip :
  (left_ (NextToken t skip) <= left_ t)%nat /\
  (tt_ t <> T_ERROR -> 0 < left_ t -> left_ (NextToken t skip) < left_ t)%nat.
Proof.
  pose proof (skip_spaces_length (s t)) as Hs. pose proof (left_bounds t) as Hb.
  unfold NextToken. cbn [tt_ s]. destruct (bool_decide (tt_ t = T_ERROR)) eqn:E.
  { apply bool_decide_eq_true in E. split; [|done]. unfold left_. cbn [s tt_]. case_bool_decide; lia. }
  apply bool_decide_eq_false in E. destruct (skip_spaces (s t)) as [|c r] eqn:Er.
  { match goal with |- context [left_ ?x] => assert (left_ x = 0%nat) as -> end; [|lia].
    unfold left_. cbn [s tt_]. by rewrite bool_decide_eq_true_2 by auto. }
  unfold ParseTerminal. cbn [s head tail]. pose proof (terminal_cases c) as Hk. cbn [length] in Hs.
  destruct (indexOfTerminal (Some c) =? -1) eqn:Ek.
  - unfold ParseNonTerminal. cbn [s]. pose proof (up_to_terminal_length r) as Hu.
    cbn [up_to_terminal]. rewrite Ek. destruct (up_to_terminal r) as [p q]. cbn [snd] in Hu.
    destruct skip; (match goal with |- context [left_ ?x] => pose proof (left_bounds x) as Hx end);
      cbn [s] in *; lia.
  - match goal with |- context [left_ ?x] => pose proof (left_bounds x) as Hx end. cbn [s] in *. lia.
Qed.

(** The input stays, and there is an answer exactly for the first error. *)
Record keeps (t t' : s_token) : Prop := {
  k_type : type t' = type t;
  k_value : value t' = value t;
  k_expr : expr t' = expr t;
  k_left : (left_ t' <= left_ t)%nat;
  k_error : tt_ t = T_ERROR -> tt_ t' = T_ERROR;
  k_answers : tt_ t = T_ERROR \/ tt_ t' <> T_ERROR -> answer_list_ t' = answer_list_ t;
  k_reported : tt_ t <> T_ERROR -> tt_ t' = T_ERROR -> exists text,
    answer_list_ t' = snd (answer_list_add (answer_list_ t) text STATUS_ESYNTAX ANSWER_QUALITY_ERROR);
}.

#[local] Instance keeps_refl : Reflexive keeps.
Proof. intros t. by split. Qed.

#[local] Instance keeps_trans : Transitive keeps.
Proof.
  intros t1 t2 t3 [T1 V1 X1 L1 E1 A1 R1] [T2 V2 X2 L2 E2 A2 R2].
  split; [congruence|congruence|congruence|lia|tauto|..].
  - intros H. rewrite A2, A1; tauto.
  - intros H H3. destruct (decide (tt_ t2 = T_ERROR)) as [H2|H2].
    + destruct (R1 H H2) as [text E]. exists text. rewrite A2 by tauto. done.
    + destruct (R2 H2 H3) as [text E]. exists text. by rewrite E, A1 by tauto.
Qed.

Lemma next_keeps t skip : keeps t (NextToken t skip).
Proof.
  assert (type (NextToken t skip) = type t /\ value (NextToken t skip) = value t /\
    expr (NextToken t skip) = expr t /\ answer_list_ (NextToken t skip) = answer_list_ t)
    as (E1 & E2 & E3 & E4).
  { unfold NextToken, ParseTerminal, ParseNonTerminal. cbn [tt_ s].
    repeat (case_match; simplify_eq/=); done. }
  split; [done|done|done|apply next_left|by apply next_error|done|].
  intros H1 H2. by pose proof (at_error _ _ _ (next_at t skip H1)).
Qed.

Lemma error_keeps t k : keeps t (Error t k).
Proof.
  unfold Expr.Error. destruct (bool_decide _) eqn:E; [done|]. apply bool_decide_eq_false in E.
  split; try done; simpl; [|tauto|].
  - unfold left_. cbn [s tt_]. rewrite bool_decide_eq_true_2 by auto. case_bool_decide; lia.
  - intros _ _. by eexists.
Qed.

Lemma error_tt t k : tt_ (Error t k) = T_ERROR.
Proof.
  unfold Expr.Error. destruct (bool_decide _) eqn:E; [|done]. by apply bool_decide_eq_true in E.
Qed.

(** What a run that returned did. *)
Ltac taken :=
  match goal with
  | H : mbind _ ?x = Some _ |- _ => destruct x as [[]|] eqn:?; cbn in H; [|discriminate H]
  | H : (if ?c then _ else _) = Some _ |- _ => destruct c eqn:?
  | H : match tt_ ?t with _ => _ end = Some _ |- _ => destruct (tt_ t) eqn:?
  | H : Some _ = Some _ |- _ => injection H as <- <-
  | H : None = Some _ |- _ => discriminate H
  | IH : forall _ _ _ _, ?f _ _ = Some _ -> keeps _ _, E : ?f _ _ = Some _ |- _ => apply IH in E
  | IH : forall _ _ _ _ _, ?f _ _ _ = Some _ -> keeps _ _, E : ?f _ _ _ = Some _ |- _ => apply IH in E
  end.

Ltac chain :=
  lazymatch goal with
  | K : keeps ?y ?x |- keeps _ ?x => transitivity y; [clear K; chain|exact K]
  | |- keeps ?y (NextToken ?y _) => apply next_keeps
  | |- keeps _ (NextToken ?y _) => transitivity y; [chain|apply next_keeps]
  | |- keeps ?y (Expr.Error _ ?y _) => apply error_keeps
  | |- keeps _ (Expr.Error _ ?y _) => transitivity y; [chain|apply error_keeps]
  | |- keeps ?y ?y => reflexivity
  end.

Lemma functions_keep (fuel : nat) :
  (forall t skip t' r, OrExpression fuel t skip = Some (t', r) -> keeps t t') /\
  (forall t m skip t' r, or_loop fuel t m skip = Some (t', r) -> keeps t t') /\
  (forall t skip t' r, AndExpression fuel t skip = Some (t', r) -> keeps t t') /\
  (forall t m skip t' r, and_loop fuel t m skip = Some (t', r) -> keeps t t') /\
  (forall t skip t' r, SimpleExpression fuel t skip = Some (t', r) -> keeps t t').
Proof.
  induction fuel as [|fuel (IHo & IHol & IHa & IHal & IHs)]; [done|].
  split; [|split; [|split; [|split]]]; intros t; [intros skip t' r|intros m skip t' r|intros skip t' r
    |intros m skip t' r|intros skip t' r]; cbn;
    intros H; repeat taken; chain.
Qed.

(** ** Expressions of the language *)

Fixpoint holds (ty : centry_type) (v : bytes) (e : tree) : bool :=
  match e with
  | EPat p => compare cfg fnmatch ty (existsb is_pattern_char p) (copy_chars ty p) v =? 0
  | ENot e => negb (holds ty v e)
  | EAnd e1 e2 => holds ty v e1 && holds ty v e2
  | EOr e1 e2 => holds ty v e1 || holds ty v e2
  end.

(** 0 is true. *)
Definition code (x : bool) : Z := if x then 0 else 1.

(** What can stand behind an expression of a level. *)
Definition follows (l : level) (rest : list tok) : Prop :=
  match head rest with
  | Some (KExp _) => False
  | Some KAnd => l = LSimple
  | Some KOr => l <> LOr
  | _ => True
  end.

Lemma follows_at l t rest skip skip' : follows l rest -> at_ t rest skip -> at_ t rest skip'.
Proof. destruct rest as [|[] rest]; try done. Qed.

Lemma follows_lower l rest : follows l rest -> follows LSimple rest /\ (l <> LSimple -> follows LAnd rest).
Proof. unfold follows. by destruct (head rest) as [[]|]. Qed.

Lemma and_loop_stops fuel t m skip rest t' r :
  follows LAnd rest -> at_ t rest skip -> and_loop fuel t m skip = Some (t', r) -> t' = t /\ r = m.
Proof.
  intros Hf Ha. destruct fuel as [|fuel]; [done|]. cbn.
  rewrite bool_decide_eq_false_2; [by intros [= -> ->]|].
  destruct rest as [|[] rest]; simpl in *; destruct Ha as [-> _]; done.
Qed.

Lemma or_loop_stops fuel t m skip rest t' r :
  follows LOr rest -> at_ t rest skip -> or_loop fuel t m skip = Some (t', r) -> t' = t /\ r = m.
Proof.
  intros Hf Ha. destruct fuel as [|fuel]; [done|]. cbn.
  rewrite bool_decide_eq_false_2; [by intros [= -> ->]|].
  destruct rest as [|[] rest]; simpl in *; destruct Ha as [-> _]; done.
Qed.

Lemma at_next t k ks skip skip' : at_ t (k :: ks) skip -> at_ (NextToken t skip') ks skip'.
Proof.
  intros Ha. pose proof (at_error _ _ _ Ha) as He. destruct Ha as (_ & <- & _). by apply next_at.
Qed.

(** How the functions run on an expression of the level. *)
Definition runs (l : level) (ks : list tok) (e : tree) : Prop :=
  match l with
  | LSimple => forall fuel t skip rest t' r,
      follows LSimple rest -> at_ t (ks ++ rest) skip -> SimpleExpression fuel t skip = Some (t', r) ->
      at_ t' rest skip /\ (skip = false -> r = code (holds (type t) (value t) e))
  | LAnd =>
      (forall fuel t skip rest t' r,
        follows LAnd rest -> at_ t (ks ++ rest) skip -> AndExpression fuel t skip = Some (t', r) ->
        at_ t' rest skip /\ (skip = false -> r = code (holds (type t) (value t) e))) /\
      (forall fuel t m skip rest t' r,
        follows LAnd rest -> at_ t (KAnd :: ks ++ rest) skip -> and_loop fuel t m skip = Some (t', r) ->
        at_ t' rest skip /\
        (skip = false -> r = if m =? 0 then code (holds (type t) (value t) e) else m))
  | LOr =>
      (forall fuel t skip rest t' r,
        follows LOr rest -> tt_ t <> T_ERROR -> lex (s t) = ks ++ rest ->
        OrExpression fuel t skip = Some (t', r) ->
        at_ t' rest skip /\ (skip = false -> r = code (holds (type t) (value t) e))) /\
      (forall fuel t m skip rest t' r,
        follows LOr rest -> at_ t (KOr :: ks ++ rest) skip -> or_loop fuel t m skip = Some (t', r) ->
        at_ t' rest skip /\
        (skip = false -> r = if m =? 0 then m else code (holds (type t) (value t) e)))
  end.

Lemma runs_pat p : runs LSimple [KExp p] (EPat p).
Proof.
  intros [|fuel] t skip rest t' r Hf Ha; [done|]. pose proof (at_next _ _ _ _ skip Ha) as Hn.
  destruct Ha as (Ht & _ & Hp). cbn. rewrite Ht. cbn. intros [= <- <-]. split; [done|]. intros ->.
  destruct (Hp eq_refl) as [H1 H2]. unfold MatchPattern. rewrite H1, H2. done.
Qed.

Lemma runs_not ks e : runs LSimple ks e -> runs LSimple (KNot :: ks) (ENot e).
Proof.
  intros IH [|fuel] t skip rest t' r Hf Ha; [done|]. pose proof (at_next _ _ _ _ skip Ha) as Hn.
  destruct Ha as (Ht & _). cbn. rewrite Ht. cbn. intros H. taken. taken.
  destruct (IH _ _ _ _ _ _ Hf Hn Heqo) as [H1 H2]. split; [done|]. intros Hs. rewrite (H2 Hs).
  destruct (next_keeps t skip) as [E1 E2 _ _ _ _ _]. rewrite E1, E2. cbn [holds].
  destruct (holds (type t) (value t) e); reflexivity.
Qed.

Lemma runs_paren ks e : runs LOr ks e -> runs LSimple (KOpen :: ks ++ [KClose]) e.
Proof.
  intros [IH _] [|fuel] t skip rest t' r Hf Ha; [done|].
  pose proof (at_error _ _ _ Ha) as He. destruct Ha as (Ht & Hl & _).
  cbn. rewrite Ht. cbn. intros H. rewrite <- app_assoc in Hl. taken.
  destruct (IH _ _ _ (KClose :: rest) _ _ I He Hl Heqo) as [H1 H2].
  rewrite bool_decide_eq_true_2 in H by (by destruct H1). injection H as <- <-.
  split; [by eapply at_next|done].
Qed.

(** The loop behind the first expression, and the whole. *)
Lemma runs_and_one ks e : runs LSimple ks e -> runs LAnd ks e.
Proof.
  intros IH. split.
  - intros [|fuel] t skip rest t' r Hf Ha H; [done|]. cbn in H. taken.
    destruct (follows_lower _ _ Hf) as [Hf' _].
    destruct (IH _ _ _ _ _ _ Hf' Ha Heqo) as [H1 H2].
    destruct (and_loop_stops _ _ _ _ _ _ _ Hf H1 H) as [-> ->]. done.
  - intros [|fuel] t m skip rest t' r Hf Ha H; [done|]. cbn in H.
    rewrite bool_decide_eq_true_2 in H by (by destruct Ha).
    destruct (follows_lower _ _ Hf) as [Hf' _].
    destruct (next_keeps t skip) as [E1 E2 _ _ _ _ _]. rewrite <- E1, <- E2.
    destruct (m =? 0) eqn:Em; cbn [negb] in H; taken.
    + destruct (IH _ _ _ _ _ _ Hf' (at_next _ _ _ _ skip Ha) Heqo) as [H1 H2].
      by destruct (and_loop_stops _ _ _ _ _ _ _ Hf H1 H) as [-> ->].
    + pose proof (at_next _ _ _ _ skip Ha) as Hn.
      destruct (IH _ _ true _ _ _ Hf' (at_true _ _ _ Hn) Heqo) as [H1 H2].
      destruct (and_loop_stops _ _ _ _ _ _ _ Hf (follows_at _ _ _ _ skip Hf H1) H) as [-> ->].
      split; [by eapply follows_at|done].
Qed.

Lemma runs_and_more ks1 e1 ks2 e2 :
  runs LSimple ks1 e1 -> runs LAnd ks2 e2 -> runs LAnd (ks1 ++ KAnd :: ks2) (EAnd e1 e2).
Proof.
  intros IH1 [_ IH2]. split.
  - intros [|fuel] t skip rest t' r Hf Ha H; [done|]. cbn in H. taken.
    rewrite <- app_assoc in Ha.
    destruct (IH1 _ _ _ _ _ _ (eq_refl : follows LSimple (KAnd :: ks2 ++ rest)) Ha Heqo) as [H1 H2].
    destruct (IH2 _ _ _ _ _ _ _ Hf H1 H) as [H3 H4]. split; [done|]. intros Hs.
    destruct (functions_keep fuel) as (_ & _ & _ & _ & Hk).
    destruct (Hk _ _ _ _ Heqo) as [E1 E2 _ _ _ _ _]. rewrite (H4 Hs), (H2 Hs), E1, E2. cbn [holds].
    by destruct (holds (type t) (value t) e1).
  - intros [|fuel] t m skip rest t' r Hf Ha H; [done|]. cbn in H.
    rewrite bool_decide_eq_true_2 in H by (by destruct Ha). rewrite <- app_assoc in Ha.
    pose proof (at_next _ _ _ _ skip Ha) as Hn.
    destruct (functions_keep fuel) as (_ & _ & _ & _ & Hk).
    destruct (next_keeps t skip) as [E1 E2 _ _ _ _ _]. rewrite <- E1, <- E2.
    destruct (m =? 0) eqn:Em; cbn [negb] in H; taken.
    + destruct (IH1 _ _ _ _ _ _ (eq_refl : follows LSimple (KAnd :: ks2 ++ rest)) Hn Heqo) as [H1 H2].
      destruct (IH2 _ _ _ _ _ _ _ Hf H1 H) as [H3 H4]. split; [done|]. intros Hs.
      destruct (Hk _ _ _ _ Heqo) as [F1 F2 _ _ _ _ _]. rewrite (H4 Hs), (H2 Hs), F1, F2. cbn [holds].
      by destruct (holds (type (NextToken t skip)) (value (NextToken t skip)) e1).
    + destruct (IH1 _ _ true _ _ _ (eq_refl : follows LSimple (KAnd :: ks2 ++ rest)) (at_true _ _ _ Hn) Heqo)
        as [H1 _].
      destruct (IH2 _ _ _ _ _ _ _ Hf (H1 : at_ s0 (KAnd :: ks2 ++ rest) skip) H) as [H3 H4].
      split; [done|]. intros Hs. by rewrite (H4 Hs), Em.
Qed.

Lemma runs_or_one ks e : runs LAnd ks e -> runs LOr ks e.
Proof.
  intros [IH _]. split.
  - intros [|fuel] t skip rest t' r Hf He Hl H; [done|]. cbn in H. taken.
    destruct (follows_lower _ _ Hf) as [_ Hf']. specialize (Hf' ltac:(done)).
    pose proof (next_at t skip He) as Hn. rewrite Hl in Hn.
    destruct (next_keeps t skip) as [E1 E2 _ _ _ _ _]. rewrite <- E1, <- E2.
    destruct (IH _ _ _ _ _ _ Hf' Hn Heqo) as [H1 H2].
    by destruct (or_loop_stops _ _ _ _ _ _ _ Hf H1 H) as [-> ->].
  - intros [|fuel] t m skip rest t' r Hf Ha H; [done|]. cbn in H.
    rewrite bool_decide_eq_true_2 in H by (by destruct Ha).
    destruct (follows_lower _ _ Hf) as [_ Hf']. specialize (Hf' ltac:(done)).
    pose proof (at_next _ _ _ _ skip Ha) as Hn.
    destruct (next_keeps t skip) as [E1 E2 _ _ _ _ _]. rewrite <- E1, <- E2.
    destruct (m =? 0) eqn:Em; taken.
    + destruct (IH _ _ true _ _ _ Hf' (at_true _ _ _ Hn) Heqo) as [H1 H2].
      destruct (or_loop_stops _ _ _ _ _ _ _ Hf (follows_at _ _ _ _ skip Hf H1) H) as [-> ->].
      split; [by eapply follows_at|done].
    + destruct (IH _ _ _ _ _ _ Hf' Hn Heqo) as [H1 H2].
      by destruct (or_loop_stops _ _ _ _ _ _ _ Hf H1 H) as [-> ->].
Qed.

Lemma runs_or_more ks1 e1 ks2 e2 :
  runs LAnd ks1 e1 -> runs LOr ks2 e2 -> runs LOr (ks1 ++ KOr :: ks2) (EOr e1 e2).
Proof.
  intros [IH1 _] [_ IH2].
  assert (forall rest, follows LAnd (KOr :: ks2 ++ rest)) as Hor by done. split.
  - intros [|fuel] t skip rest t' r Hf He Hl H; [done|]. cbn in H. taken.
    rewrite <- app_assoc in Hl. pose proof (next_at t skip He) as Hn. rewrite Hl in Hn.
    destruct (next_keeps t skip) as [E1 E2 _ _ _ _ _]. rewrite <- E1, <- E2.
    destruct (IH1 _ _ _ _ _ _ (Hor rest) Hn Heqo) as [H1 H2].
    destruct (IH2 _ _ _ _ _ _ _ Hf H1 H) as [H3 H4]. split; [done|]. intros Hs.
    destruct (functions_keep fuel) as (_ & _ & Hk & _).
    destruct (Hk _ _ _ _ Heqo) as [F1 F2 _ _ _ _ _]. rewrite (H4 Hs), (H2 Hs), F1, F2. cbn [holds].
    by destruct (holds (type (NextToken t skip)) (value (NextToken t skip)) e1).
  - intros [|fuel] t m skip rest t' r Hf Ha H; [done|]. cbn in H.
    rewrite bool_decide_eq_true_2 in H by (by destruct Ha). rewrite <- app_assoc in Ha.
    pose proof (at_next _ _ _ _ skip Ha) as Hn.
    destruct (functions_keep fuel) as (_ & _ & Hk & _).
    destruct (next_keeps t skip) as [E1 E2 _ _ _ _ _]. rewrite <- E1, <- E2.
    destruct (m =? 0) eqn:Em; taken.
    + destruct (IH1 _ _ true _ _ _ (Hor rest) (at_true _ _ _ Hn) Heqo) as [H1 _].
      destruct (IH2 _ _ _ _ _ _ _ Hf (H1 : at_ s0 (KOr :: ks2 ++ rest) skip) H) as [H3 H4].
      split; [done|]. intros Hs. by rewrite (H4 Hs), Em.
    + destruct (IH1 _ _ _ _ _ _ (Hor rest) Hn Heqo) as [H1 H2].
      destruct (IH2 _ _ _ _ _ _ _ Hf H1 H) as [H3 H4]. split; [done|]. intros Hs.
      destruct (Hk _ _ _ _ Heqo) as [F1 F2 _ _ _ _ _]. rewrite (H4 Hs), (H2 Hs), F1, F2. cbn [holds].
      by destruct (holds (type (NextToken t skip)) (value (NextToken t skip)) e1).
Qed.

Lemma derives_runs l ks e : derives l ks e -> runs l ks e.
Proof.
  induction 1; auto using runs_pat, runs_not, runs_paren, runs_and_one, runs_and_more, runs_or_one,
    runs_or_more.
Qed.

(** ** Only expressions of the language are read without an error *)

Lemma error_before t t' : keeps t t' -> tt_ t' <> T_ERROR -> tt_ t <> T_ERROR.
Proof. intros K H E. by apply H, (k_error _ _ K). Qed.

Lemma at_next_true t k ks skip : at_ t (k :: ks) true -> at_ (NextToken t skip) ks true.
Proof. intros H. eapply at_true, at_next, H. Qed.

(** What was read from the tokens [ks]. *)
Definition read (l : level) (t' : s_token) (ks : list tok) : Prop :=
  exists pre rest e, ks = pre ++ rest /\ derives l pre e /\ at_ t' rest true.

(** What a loop behind an expression has read. *)
Definition read_more (k : tok) (l : level) (t' : s_token) (ks : list tok) : Prop :=
  at_ t' ks true \/ exists ks', ks = k :: ks' /\ read l t' ks'.

Lemma read_and t' rest pre e :
  derives LSimple pre e -> read_more KAnd LAnd t' rest -> read LAnd t' (pre ++ rest).
Proof.
  intros Hd [H|(ks' & -> & pre2 & rest2 & e2 & -> & Hd2 & H)].
  - exists pre, rest, e. split; [done|]. split; [by apply d_simple|done].
  - exists (pre ++ KAnd :: pre2), rest2, (EAnd e e2). split; [by rewrite <- app_assoc|].
    split; [by apply d_and|done].
Qed.

Lemma read_or t' rest pre e :
  derives LAnd pre e -> read_more KOr LOr t' rest -> read LOr t' (pre ++ rest).
Proof.
  intros Hd [H|(ks' & -> & pre2 & rest2 & e2 & -> & Hd2 & H)].
  - exists pre, rest, e. split; [done|]. split; [by apply d_one|done].
  - exists (pre ++ KOr :: pre2), rest2, (EOr e e2). split; [by rewrite <- app_assoc|].
    split; [by apply d_or|done].
Qed.

Lemma at_kind t ks k : at_ t ks true -> tt_ t = tt_of k -> exists k' ks', ks = k' :: ks' /\ tt_of k' = tt_of k.
Proof.
  intros Ha Ht. destruct ks as [|k' ks].
  - destruct Ha as [Ha _]. rewrite Ha in Ht. by destruct k.
  - exists k', ks. split; [done|]. destruct Ha as [Ha _]. congruence.
Qed.

Ltac bound H t m E :=
  match type of H with
  | mbind _ ?x = Some _ => destruct x as [[t m]|] eqn:E; cbn in H; [|discriminate H]
  end.

(** Each function with one unit of fuel more. *)
Section Step.
Context (fuel : nat).
Context (IHo : forall t skip t' r ks, OrExpression fuel t skip = Some (t', r) -> tt_ t' <> T_ERROR ->
  tt_ t <> T_ERROR -> lex (s t) = ks -> read LOr t' ks).
Context (IHol : forall t m skip t' r ks, or_loop fuel t m skip = Some (t', r) -> tt_ t' <> T_ERROR ->
  at_ t ks true -> read_more KOr LOr t' ks).
Context (IHa : forall t skip t' r ks, AndExpression fuel t skip = Some (t', r) -> tt_ t' <> T_ERROR ->
  at_ t ks true -> read LAnd t' ks).
Context (IHal : forall t m skip t' r ks, and_loop fuel t m skip = Some (t', r) -> tt_ t' <> T_ERROR ->
  at_ t ks true -> read_more KAnd LAnd t' ks).
Context (IHs : forall t skip t' r ks, SimpleExpression fuel t skip = Some (t', r) -> tt_ t' <> T_ERROR ->
  at_ t ks true -> read LSimple t' ks).

Lemma and_then t skip skip' t1 m m' t' r ks :
  SimpleExpression fuel t skip = Some (t1, m) -> and_loop fuel t1 m' skip' = Some (t', r) ->
  tt_ t' <> T_ERROR -> at_ t ks true -> read LAnd t' ks.
Proof.
  intros E H He Ha. destruct (functions_keep fuel) as (_ & _ & _ & Kal & _).
  destruct (IHs _ _ _ _ _ E (error_before _ _ (Kal _ _ _ _ _ H) He) Ha) as (pre & rest & e & -> & Hd & Hr).
  eapply read_and; [exact Hd|]. by eapply IHal.
Qed.

Lemma or_then t skip skip' t1 m m' t' r ks :
  AndExpression fuel t skip = Some (t1, m) -> or_loop fuel t1 m' skip' = Some (t', r) ->
  tt_ t' <> T_ERROR -> at_ t ks true -> read LOr t' ks.
Proof.
  intros E H He Ha. destruct (functions_keep fuel) as (_ & Kol & _).
  destruct (IHa _ _ _ _ _ E (error_before _ _ (Kol _ _ _ _ _ H) He) Ha) as (pre & rest & e & -> & Hd & Hr).
  eapply read_or; [exact Hd|]. by eapply IHol.
Qed.

Lemma or_sound t skip t' r ks :
  OrExpression (S fuel) t skip = Some (t', r) -> tt_ t' <> T_ERROR -> tt_ t <> T_ERROR ->
  lex (s t) = ks -> read LOr t' ks.
Proof.
  intros H He Ht <-. cbn in H. bound H t1 m E.
  eapply or_then; [exact E|exact H|done|by eapply at_true, next_at].
Qed.

Lemma or_loop_sound t m skip t' r ks :
  or_loop (S fuel) t m skip = Some (t', r) -> tt_ t' <> T_ERROR -> at_ t ks true ->
  read_more KOr LOr t' ks.
Proof.
  intros H He Ha. cbn in H. destruct (bool_decide (tt_ t = T_OR)) eqn:Ek; [|by left; simplify_eq].
  apply bool_decide_eq_true in Ek. destruct (at_kind t ks KOr Ha Ek) as (k & ks' & -> & Hk).
  destruct k; try discriminate Hk. right. exists ks'. split; [done|].
  destruct (m =? 0); bound H t1 m1 E; (eapply or_then; [exact E|exact H|done|by eapply at_next_true]).
Qed.

Lemma and_sound t skip t' r ks :
  AndExpression (S fuel) t skip = Some (t', r) -> tt_ t' <> T_ERROR -> at_ t ks true ->
  read LAnd t' ks.
Proof. intros H He Ha. cbn in H. bound H t1 m E. eapply and_then; [exact E|exact H|done|done]. Qed.

Lemma and_loop_sound t m skip t' r ks :
  and_loop (S fuel) t m skip = Some (t', r) -> tt_ t' <> T_ERROR -> at_ t ks true ->
  read_more KAnd LAnd t' ks.
Proof.
  intros H He Ha. cbn in H. destruct (bool_decide (tt_ t = T_AND)) eqn:Ek; [|by left; simplify_eq].
  apply bool_decide_eq_true in Ek. destruct (at_kind t ks KAnd Ha Ek) as (k & ks' & -> & Hk).
  destruct k; try discriminate Hk. right. exists ks'. split; [done|].
  destruct (m =? 0); cbn [negb] in H; bound H t1 m1 E;
    (eapply and_then; [exact E|exact H|done|by eapply at_next_true]).
Qed.

Lemma simple_sound t skip t' r ks :
  SimpleExpression (S fuel) t skip = Some (t', r) -> tt_ t' <> T_ERROR -> at_ t ks true ->
  read LSimple t' ks.
Proof.
  intros H He Ha. cbn in H. destruct (tt_ t) eqn:Et; try (injection H as <- _; by rewrite error_tt in He).
  - destruct (at_kind t ks KNot Ha Et) as (k & ks' & -> & Hk). destruct k; try discriminate Hk.
    bound H t1 m E. injection H as <- <-.
    destruct (IHs _ _ _ _ _ E He (at_next_true _ _ _ skip Ha)) as (pre & rest & e & -> & Hd & Hr).
    exists (KNot :: pre), rest, (ENot e). split; [done|]. split; [by apply d_not|done].
  - destruct (at_kind t ks KOpen Ha Et) as (k & ks' & -> & Hk). destruct k; try discriminate Hk. clear Hk.
    bound H t1 m E. destruct (bool_decide (tt_ t1 = T_BRACECLOSE)) eqn:Ec;
      [|injection H as <- _; by rewrite error_tt in He]. injection H as <- <-.
    apply bool_decide_eq_true in Ec.
    destruct (IHo _ _ _ _ ks' E ltac:(congruence) ltac:(congruence)) as (pre & rest & e & -> & Hd & Hr);
      [by destruct Ha as (_ & ? & _)|].
    destruct (at_kind t1 rest KClose Hr Ec) as (k & rest' & -> & Hk). destruct k; try discriminate Hk.
    exists (KOpen :: pre ++ [KClose]), rest', e. split; [simpl; by rewrite <- app_assoc|].
    split; [by apply d_paren|by eapply at_next_true].
  - injection H as <- <-. destruct (at_kind t ks (KExp []) Ha Et) as (k & ks' & -> & Hk).
    destruct k; try discriminate Hk. exists [KExp p], ks', (EPat p). split; [done|].
    split; [apply d_pat|by eapply at_next_true].
  - injection H as <- _. by rewrite Et in He.
Qed.

End Step.

Lemma functions_sound (fuel : nat) :
  (forall t skip t' r ks, OrExpression fuel t skip = Some (t', r) -> tt_ t' <> T_ERROR ->
     tt_ t <> T_ERROR -> lex (s t) = ks -> read LOr t' ks) /\
  (forall t m skip t' r ks, or_loop fuel t m skip = Some (t', r) -> tt_ t' <> T_ERROR ->
     at_ t ks true -> read_more KOr LOr t' ks) /\
  (forall t skip t' r ks, AndExpression fuel t skip = Some (t', r) -> tt_ t' <> T_ERROR ->
     at_ t ks true -> read LAnd t' ks) /\
  (forall t m skip t' r ks, and_loop fuel t m skip = Some (t', r) -> tt_ t' <> T_ERROR ->
     at_ t ks true -> read_more KAnd LAnd t' ks) /\
  (forall t skip t' r ks, SimpleExpression fuel t skip = Some (t', r) -> tt_ t' <> T_ERROR ->
     at_ t ks true -> read LSimple t' ks).
Proof.
  induction fuel as [|fuel (IHo & IHol & IHa & IHal & IHs)]; [done|].
  split; [|split; [|split; [|split]]]; intros.
  - by eapply or_sound.
  - by eapply or_loop_sound.
  - by eapply and_sound.
  - by eapply and_loop_sound.
  - by eapply simple_sound.
Qed.

(** ** The evaluation ends *)

Lemma some_bind {A B} (x : option A) (f : A -> option B) :
  is_Some x -> (forall a, x = Some a -> is_Some (f a)) -> is_Some (x ≫= f).
Proof. intros [a ->] H. by apply H. Qed.

Lemma left_token t k : tt_ t = k -> k <> T_END -> k <> T_ERROR -> (0 < left_ t)%nat.
Proof. intros <- H1 H2. unfold left_. rewrite bool_decide_eq_false_2 by tauto. lia. Qed.

Lemma functions_return (fuel : nat) :
  (forall t skip, tt_ t <> T_ERROR -> (3 <= fuel)%nat -> (4 * left_ t <= fuel + 1)%nat ->
     is_Some (OrExpression fuel t skip)) /\
  (forall t m skip, (4 * left_ t + 1 <= fuel)%nat -> is_Some (or_loop fuel t m skip)) /\
  (forall t skip, (4 * left_ t + 2 <= fuel)%nat -> is_Some (AndExpression fuel t skip)) /\
  (forall t m skip, (4 * left_ t + 1 <= fuel)%nat -> is_Some (and_loop fuel t m skip)) /\
  (forall t skip, (4 * left_ t + 1 <= fuel)%nat -> is_Some (SimpleExpression fuel t skip)).
Proof.
  induction fuel as [|fuel (IHo & IHol & IHa & IHal & IHs)]; [repeat split; intros; lia|].
  destruct (functions_keep fuel) as (Ko & Kol & Ka & Kal & Ks).
  split; [|split; [|split; [|split]]].
  - intros t skip Ht H3 H. destruct (next_left t skip) as [Hl Hl']. specialize (Hl' Ht). cbn.
    apply some_bind; [apply IHa; lia|]. intros [t1 m] E. apply IHol.
    pose proof (k_left _ _ (Ka _ _ _ _ E)). lia.
  - intros t m skip H. cbn. destruct (bool_decide (tt_ t = T_OR)) eqn:Ek; [|done].
    apply bool_decide_eq_true in Ek. pose proof (left_token _ _ Ek ltac:(done) ltac:(done)) as Hp.
    destruct (next_left t skip) as [_ Hl]. specialize (Hl ltac:(congruence) Hp).
    destruct (m =? 0); (apply some_bind; [apply IHa; lia|]); intros [t1 m1] E; apply IHol;
      pose proof (k_left _ _ (Ka _ _ _ _ E)); lia.
  - intros t skip H. cbn. apply some_bind; [apply IHs; lia|]. intros [t1 m] E. apply IHal.
    pose proof (k_left _ _ (Ks _ _ _ _ E)). lia.
  - intros t m skip H. cbn. destruct (bool_decide (tt_ t = T_AND)) eqn:Ek; [|done].
    apply bool_decide_eq_true in Ek. pose proof (left_token _ _ Ek ltac:(done) ltac:(done)) as Hp.
    destruct (next_left t skip) as [_ Hl]. specialize (Hl ltac:(congruence) Hp).
    destruct (m =? 0); cbn [negb]; (apply some_bind; [apply IHs; lia|]); intros [t1 m1] E; apply IHal;
      pose proof (k_left _ _ (Ks _ _ _ _ E)); lia.
  - intros t skip H. cbn. destruct (tt_ t) eqn:Et; try done;
      pose proof (left_token _ _ Et ltac:(done) ltac:(done)) as Hp;
      destruct (next_left t skip) as [_ Hl]; specialize (Hl ltac:(congruence) Hp);
      apply some_bind; try (intros [t1 m] _; by try case_match); [apply IHs; lia|].
    apply IHo; [congruence|lia|lia].
Qed.

(** ** The result *)

Lemma top_level ty v e al :
  exists t' r, OrExpression (expression_fuel e) (uncaseValue (Token ty v e e None true T_END T_EXP al))
      false = Some (t', r) /\
    keeps (uncaseValue (Token ty v e e None true T_END T_EXP al)) t' /\
    ((exists tr, derives LOr (lex e) tr) /\ at_ t' [] false /\
       (forall tr, derives LOr (lex e) tr -> r = code (holds ty (copy_chars ty v) tr)) \/
     ((forall tr, ~ derives LOr (lex e) tr) /\ ~ at_ t' [] false)).
Proof.
  set (t := uncaseValue _).
  assert (tt_ t <> T_ERROR) as Ht by done.
  destruct (functions_return (expression_fuel e)) as [Hr _].
  destruct (Hr t false Ht) as [[t' r] E]; [unfold expression_fuel; lia|unfold left_, expression_fuel; simpl; lia|].
  exists t', r. split; [done|]. split; [exact (proj1 (functions_keep _) _ _ _ _ E)|].
  assert (forall tr, derives LOr (lex e) tr -> at_ t' [] false /\ r = code (holds ty (copy_chars ty v) tr))
    as Hruns.
  { intros tr Hd. destruct (derives_runs _ _ _ Hd) as [Hrun _].
    destruct (Hrun _ t false [] _ _ I Ht (eq_sym (app_nil_r _)) E) as [H1 H2]. auto. }
  destruct (decide (tt_ t' = T_END /\ s t' = [])) as [Hend|Hend].
  - left. destruct (functions_sound (expression_fuel e)) as [Hs _].
    destruct (Hs t false t' r (lex e) E) as (pre & rest & tr & Hl & Hd & Ha); [by destruct Hend as [-> _]|done|done|].
    destruct rest as [|k rest].
    + rewrite app_nil_r in Hl. rewrite Hl in *. split; [by exists tr|]. split; [by apply (Hruns tr)|]. intros tr' Hd'. by apply Hruns.
    + exfalso. destruct Hend as [Hend _], Ha as [Ha _]. rewrite Hend in Ha. by destruct k.
  - right. split; [|done]. intros tr Hd. by apply Hend, (Hruns tr).
Qed.

Context (long_value_text long_expression_text : string).

Abbreviation sge_eval_expression :=
  (sge_eval_expression cfg fnmatch parse_error_text long_value_text long_expression_text).

(** One error about the syntax more. *)
Definition reported (al al' : answer_arg) : Prop :=
  exists text, al' = snd (answer_list_add al text STATUS_ESYNTAX ANSWER_QUALITY_ERROR).

Lemma evaluated_expression ty (e v : bytes) al use is_e :
  length e < MAX_STRING_SIZE -> length v < MAX_STRING_SIZE ->
  (if use : bool then is_e else is_expression (Some e)) = true ->
  exists r al', sge_eval_expression ty (Some e) (Some v) al use is_e = Some (r, al') /\
    ((exists tr, derives LOr (lex e) tr) /\ al' = al /\
     (forall tr, derives LOr (lex e) tr -> r = code (holds ty (copy_chars ty v) tr)) \/
     (forall tr, ~ derives LOr (lex e) tr) /\ reported al al' /\ r = -1).
Proof.
  intros He Hv Huse. unfold Expr.sge_eval_expression.
  rewrite !(proj2 (Z.leb_gt _ _)) by done. cbv zeta. rewrite Huse. unfold evaluate.
  cbn [has_patterns Expr.expr].
  destruct (top_level ty v e al) as (t' & r & -> & K & Hres). cbn [mbind option_bind].
  assert (forall k, ~ at_ t' [] false -> reported al (answer_list_ (Error t' k))) as Herr.
  { intros k _. assert (keeps (uncaseValue (Token ty v e e None true T_END T_EXP al)) (Error t' k)) as K'
      by (etransitivity; [exact K|apply error_keeps]). destruct K' as [_ _ _ _ _ _ R].
    apply R; [done|apply error_tt]. }
  destruct Hres as [(Hex & [H1 H2] & Hall)|[Hno Hat]].
  - rewrite bool_decide_eq_true_2 by done. rewrite H2. cbn [negb]. eexists _, _. split; [reflexivity|].
    left. split; [done|]. split; [|done]. apply (k_answers _ _ K). right. congruence.
  - destruct (bool_decide (tt_ t' = T_END)) eqn:Et; cbn [negb].
    + destruct (s t') eqn:Es; [exfalso; apply Hat; split; [by apply bool_decide_eq_true in Et|done]|].
      eexists _, _. split; [reflexivity|]. right. auto.
    + eexists _, _. split; [reflexivity|]. right. auto.
Qed.

(** C21: an expression is evaluated as the grammar says, where [!] binds stronger than [&]
    and [&] stronger than [|]: the result is 0 or 1 as the tree of the expression holds of
    the value or not, and nothing is reported; for anything else the result is -1 and one
    error is reported.  The evaluation always ends. *)
Theorem expression_evaluated ty (e v : bytes) (al : answer_arg) :
  length e < MAX_STRING_SIZE -> length v < MAX_STRING_SIZE -> is_expression (Some e) = true ->
  exists r al', sge_eval_expression ty (Some e) (Some v) al false false = Some (r, al') /\
    ((exists tr, derives LOr (lex e) tr) /\ al' = al /\
     (forall tr, derives LOr (lex e) tr -> r = code (holds ty (copy_chars ty v) tr)) \/
     (forall tr, ~ derives LOr (lex e) tr) /\ reported al al' /\ r = -1).
Proof. exact (evaluated_expression ty e v al false false). Qed.

(** C39: the attribute of a resource with a string type is accepted exactly when it has no
    special character or is an expression of the grammar; a refusal reports one error. *)
Theorem expression_syntax_checked ty (e : bytes) (al : answer_arg) :
  ty ∈ [STR; CSTR; RESTR; HOST] -> length e < MAX_STRING_SIZE ->
  exists ok al', object_verify_expression_syntax cfg fnmatch parse_error_text long_value_text
      long_expression_text ty (Some e) al = Some (ok, al') /\
    (ok = true <-> is_expression (Some e) = false \/ exists tr, derives LOr (lex e) tr) /\
    (if ok then al' = al else reported al al').
Proof.
  intros Hty He.
  assert (exists r al', sge_eval_expression ty (Some e) (Some [42]) al false false = Some (r, al') /\
    ((r =? -1) = false <-> is_expression (Some e) = false \/ exists tr, derives LOr (lex e) tr) /\
    (if r =? -1 then reported al al' else al' = al)) as (r & al' & E & Hiff & Hal).
  { destruct (is_expression (Some e)) eqn:Ei.
    - destruct (evaluated_expression ty e [42] al false false He ltac:(done) Ei)
        as (r & al' & E & [(Hex & Hal & Hr)|(Hno & Hal & ->)]); exists r, al' || exists (-1), al';
        (split; [done|]).
      + assert ((r =? -1) = false) as ->.
        { destruct Hex as [tr Hd]. rewrite (Hr tr Hd). by destruct (holds _ _ tr). }
        split; [tauto|done].
      + split; [|done]. split; [done|]. intros [H|[tr Hd]]; [done|by apply Hno in Hd].
    - unfold Expr.sge_eval_expression. rewrite !(proj2 (Z.leb_gt _ _)) by done. rewrite Ei.
      unfold evaluate. cbn [has_patterns]. eexists _, _. split; [reflexivity|].
      unfold MatchPattern. cbn [pattern]. destruct (_ =? 0); cbn; tauto. }
  exists (negb (r =? -1)), al'. split; [|split; [|by destruct (r =? -1)]].
  - unfold object_verify_expression_syntax. rewrite !elem_of_cons in Hty.
    destruct Hty as [->|[->|[->|[->|Hty]]]]; [..|by apply not_elem_of_nil in Hty]; by rewrite E.
  - by rewrite negb_true_iff.
Qed.

End Evaluation.

(** [a&b | !(c)] *)
Definition sample_expression : bytes := [97; 38; 98; 32; 124; 32; 33; 40; 99; 41].

Lemma sample_derives :
  derives LOr (lex sample_expression) (EOr (EAnd (EPat [97]) (EPat [98])) (ENot (EPat [99]))).
Proof.
  apply (d_or [KExp [97]; KAnd; KExp [98]] _ [KNot; KOpen; KExp [99]; KClose]).
  - apply (d_and [KExp [97]] _ [KExp [98]]); [apply d_pat|apply d_simple, d_pat].
  - apply d_one, d_simple, d_not, (d_paren [KExp [99]]), d_one, d_simple, d_pat.
Qed.

Lemma expression_evaluated_witness :
  exists r al', sge_eval_expression (Bootstrap false None) strcmp (fun _ _ => ""%string) "" "" STR
      (Some sample_expression) (Some [100]) (Some None) false false = Some (r, al') /\
    ((exists tr, derives LOr (lex sample_expression) tr) /\ al' = Some None /\
     (forall tr, derives LOr (lex sample_expression) tr ->
        r = code (holds (Bootstrap false None) strcmp STR (copy_chars STR [100]) tr)) \/
     (forall tr, ~ derives LOr (lex sample_expression) tr) /\ reported (Some None) al' /\ r = -1).
Proof.
  apply (expression_evaluated (Bootstrap false None) strcmp (fun _ _ => ""%string) "" "").
  - reflexivity.
  - reflexivity.
  - reflexivity.
Defined.

Example sample_evaluated :
  sge_eval_expression (Bootstrap false None) strcmp (fun _ _ => ""%string) "" "" STR
    (Some sample_expression) (Some [100]) (Some None) false false = Some (0, Some None).
Proof. reflexivity. Qed.

Lemma expression_syntax_checked_witness :
  exists ok al', object_verify_expression_syntax (Bootstrap false None) strcmp (fun _ _ => ""%string) "" ""
      CSTR (Some sample_expression) (Some None) = Some (ok, al') /\
    (ok = true <-> is_expression (Some sample_expression) = false \/
                   exists tr, derives LOr (lex sample_expression) tr) /\
    (if ok then al' = Some None else reported (Some None) al').
Proof.
  apply (expression_syntax_checked (Bootstrap false None) strcmp (fun _ _ => ""%string) "" "").
  - right. left.
  - reflexivity.
Defined.

(** An operator without a right side is refused. *)
Example missing_operand_refused :
  sge_eval_expression (Bootstrap false None) strcmp (fun _ _ => "syntax"%string) "" "" STR
    (Some [97; 38]) (Some [97]) (Some None) false false =
  Some (-1, Some (Some [Ans "syntax" STATUS_ESYNTAX 1])).
Proof. reflexivity. Qed.

(** A type without a comparison is not an error: no pattern matches. *)
Example other_type_never_matches :
  sge_eval_expression (Bootstrap false None) strcmp (fun _ _ => ""%string) "" "" INT
    (Some [97]) (Some [97]) (Some None) false false = Some (1, Some None).
Proof. reflexivity. Qed.

End ExprProps.
