(* ===== verification/Text.v ===== *)
(** Text: numbers in decimal as the C library prints and reads them, and the splitting of
    strings at delimiters ([sge_strtok_r] of [libs/uti/sge_string.cc]). *)

From S2P Require Import Prelude Host.
Import Host.

Module Text.

(** The bytes of a literal. *)
Definition str (s : string) : bytes :=
  map (fun c => Z.of_N (Ascii.N_of_ascii c)) (String.list_ascii_of_string s).

Definition is_digit (c : Z) : bool := (48 <=? c) && (c <=? 57).
Definition is_space (c : Z) : bool := (c =? 32) || ((9 <=? c) && (c <=? 13)).

Definition minus : Z := 45.
Definition plus : Z := 43.
Definition colon : Z := 58.
Definition comma : Z := 44.

(** The string goes on with [c]. *)
Definition starts (c : Z) (s : bytes) : bool :=
  match s with x :: _ => x =? c | [] => false end.

Definition starts_digit (s : bytes) : bool :=
  match s with x :: _ => is_digit x | [] => false end.

(** ** Numbers *)

(** The decimal digits of a number of at most [fuel] digits, put in front of [acc]. *)
Fixpoint dec_digits (fuel : nat) (n : Z) (acc : bytes) : bytes :=
  match fuel with
  | O => acc
  | S fuel =>
      let acc := 48 + n mod 10 :: acc in
      if n <? 10 then acc else dec_digits fuel (n / 10) acc
  end.

(** [%u]: 20 digits are enough for 64 bits. *)
Definition dec (n : Z) : bytes := dec_digits 20 n [].
(** [%d] *)
Definition dec_int (n : Z) : bytes := if n <? 0 then minus :: dec (- n) else dec n.

Fixpoint skip_space (s : bytes) : bytes :=
  match s with
  | c :: s' => if is_space c then skip_space s' else s
  | [] => []
  end.

Fixpoint read_digits (acc : Z) (s : bytes) : Z * bytes :=
  match s with
  | c :: s' => if is_digit c then read_digits (acc * 10 + (c - 48)) s' else (acc, s)
  | [] => (acc, [])
  end.

(** [strtol] with base 10: the number, clamped to a [long], and what follows; without a
    number the string itself follows. *)
Definition strtol (s : bytes) : Z * bytes :=
  let r := skip_space s in
  let neg := starts minus r in
  let r := if neg || starts plus r then tail r else r in
  if starts_digit r then
    let '(v, rest) := read_digits 0 r in
    (Z.max (-9223372036854775808) (Z.min 9223372036854775807 (if neg then - v else v)), rest)
  else (0, s).

(** [a == b] for two pointers into one string, given what is behind them. *)
Definition same_place (a b : bytes) : bool := bool_decide (length a = length b).

(** ** Splitting *)

(** [IS_DELIMITOR] *)
Definition is_delimitor (c : Z) (delimitor : option bytes) : bool :=
  match delimitor with Some d => existsb (Z.eqb c) d | None => is_space c end.

Fixpoint skip_delimitors (s : bytes) (delimitor : option bytes) : bytes :=
  match s with
  | c :: s' => if is_delimitor c delimitor then skip_delimitors s' delimitor else s
  | [] => []
  end.

Fixpoint up_to_delimitor (s : bytes) (delimitor : option bytes) : bytes * bytes :=
  match s with
  | [] => ([], [])
  | c :: s =>
      if is_delimitor c delimitor then ([], s)
      else let '(t, rest) := up_to_delimitor s delimitor in (c :: t, rest)
  end.

(** The next token and what is saved for the next call. *)
Definition sge_strtok_r (s : bytes) (delimitor : option bytes) : option (bytes * bytes) :=
  match skip_delimitors s delimitor with
  | [] => None
  | s => Some (up_to_delimitor s delimitor)
  end.

(** ** Lemmas *)

Lemma is_digit_dec n : is_digit (48 + n mod 10) = true.
Proof. unfold is_digit. pose proof (Z.mod_pos_bound n 10). lia. Qed.

(** Digits that read as [n]. *)
Record digits (n : Z) (ds : bytes) : Prop := {
  dg_digits : Forall (fun c => is_digit c = true) ds;
  dg_some : ds <> [];
  dg_read : forall a rest, read_digits a (ds ++ rest) = read_digits (a * 10 ^ length ds + n) rest;
}.

Lemma dec_digits_spec fuel n acc :
  0 <= n < 10 ^ Z.of_nat fuel -> (0 < fuel)%nat ->
  exists ds, dec_digits fuel n acc = ds ++ acc /\ digits n ds.
Proof.
  revert n acc. induction fuel as [|fuel IH]; intros n acc Hn Hf; [lia|]. cbn [dec_digits].
  destruct (Z.ltb_spec n 10) as [Hs|Hs].
  - exists [48 + n mod 10]. split; [done|]. split; [by repeat constructor; apply is_digit_dec|done|].
    intros a rest. cbn [app read_digits]. rewrite is_digit_dec. f_equal. rewrite Z.mod_small by lia.
    simpl length. lia.
  - assert (10 ^ Z.of_nat (S fuel) = 10 * 10 ^ Z.of_nat fuel) as E by (rewrite Nat2Z.inj_succ, Z.pow_succ_r; lia).
    assert (0 < fuel)%nat by (destruct fuel; [simpl in *; lia|lia]).
    pose proof (Z.div_mod n 10 ltac:(lia)) as Hdm. pose proof (Z.mod_pos_bound n 10 ltac:(lia)) as Hm.
    destruct (IH (n / 10) (48 + n mod 10 :: acc)) as (ds & -> & [D1 D2 D3]).
    { split; [apply Z.div_pos; lia|apply Z.div_lt_upper_bound; lia]. } { done. }
    exists (ds ++ [48 + n mod 10]). rewrite <- app_assoc. split; [done|]. split.
    + apply Forall_app. split; [done|]. repeat constructor. apply is_digit_dec.
    + by destruct ds.
    + intros a rest. rewrite <- app_assoc, D3. cbn [app read_digits]. rewrite is_digit_dec. f_equal.
      rewrite length_app, Nat2Z.inj_add, Z.pow_add_r by lia. simpl (length [_]).
      change (10 ^ Z.of_nat 1) with 10. lia.
Qed.

Lemma dec_spec n : is_u64 n -> digits n (dec n).
Proof.
  intros [H1 H2]. destruct (dec_digits_spec 20 n []) as (ds & E & Hd); [|lia|].
  - change (10 ^ Z.of_nat 20) with 100000000000000000000. lia.
  - unfold dec. rewrite E, app_nil_r. done.
Qed.

Lemma read_digits_stop a s : starts_digit s = false -> read_digits a s = (a, s).
Proof. destruct s as [|c s]; [done|]. simpl. by intros ->. Qed.

Lemma digit_not c : is_digit c = true -> is_space c = false /\ c <> minus /\ c <> plus /\ c <> comma.
Proof. unfold is_digit, is_space, minus, plus, comma. lia. Qed.

(** A number is read back in front of what does not go on with a digit. *)
Lemma strtol_dec n rest :
  is_u32 n -> starts_digit rest = false -> strtol (dec n ++ rest) = (n, rest).
Proof.
  intros Hn Hr. destruct (dec_spec n) as [D1 D2 D3]; [unfold is_u32, is_u64 in *; lia|].
  unfold strtol. destruct (dec n) as [|c ds] eqn:E; [done|]. apply Forall_cons in D1 as [Hc _].
  destruct (digit_not c Hc) as (H1 & H2 & H3 & _).
  cbn [app skip_space]. rewrite H1. cbn [starts].
  rewrite (proj2 (Z.eqb_neq c minus)), (proj2 (Z.eqb_neq c plus)) by done. cbn [orb starts_digit].
  rewrite Hc. change (c :: ds ++ rest) with ((c :: ds) ++ rest). rewrite D3, read_digits_stop by done.
  f_equal. unfold is_u32 in Hn. lia.
Qed.

Lemma dec_digit n : is_u64 n -> starts_digit (dec n) = true.
Proof. intros H. destruct (dec_spec n H) as [D1 D2 _]. destruct (dec n); [done|]. by inversion D1. Qed.

End Text.
