(* ===== verification/RangeText.v ===== *)
(** Range lists as text: the printing and parsing functions of [libs/sgeobj/sge_range.cc].

    [strtod] of the C library is used through an interface; its conversion to [uint32_t]
    is not specified by the language for large numbers, so it belongs to the interface. *)

From S2P Require Import Prelude Answer Host Text Range.
Import Answer Host Text Ranges.

Module RangeText.

Class Strtod := {
  double : Type;
  strtod : bytes -> double * bytes;
  d_positive : double -> bool;          (* [d > 0] *)
  d_to_u32 : double -> Z;
  d_exceeds : double -> Z -> bool;      (* [d - i > 1.0E-12] *)
}.

(** ** Printing *)

Definition range_to_dstring (start end_ step : Z) (dyn_taskrange_str : bytes)
    (ignore_step use_comma_as_separator print_always_as_range : bool) : bytes :=
  let to_char := if use_comma_as_separator then comma else minus in
  let step_char := if use_comma_as_separator then comma else colon in
  let sep := match dyn_taskrange_str with [] => [] | _ => [comma] end in
  let tail :=
    if (start =? end_) && negb print_always_as_range then dec start
    else if start =? end_ then dec start ++ to_char :: dec end_
    else if u32 (start + step) =? end_ then dec start ++ comma :: dec end_
    else if ignore_step then dec start ++ to_char :: dec end_
    else dec start ++ to_char :: dec end_ ++ step_char :: dec_int step in
  dyn_taskrange_str ++ sep ++ tail.

Definition range_list_print_to_string (this_list : option (list range)) (string : option bytes)
    (ignore_step comma_as_separator print_always_as_range : bool) : option bytes :=
  match string with
  | None => None
  | Some s =>
      match this_list with
      | Some l =>
          Some (fold_left (fun s r =>
            let '(start, end_, step) := range_get_all_ids (Some r) in
            range_to_dstring start end_ (s32 step) s ignore_step comma_as_separator print_always_as_range)
            l s)
      | None => Some (s ++ str "UNDEFINED")
      end
  end.

(** ** Collecting ranges *)

(** The ranges behind [rr], which has taken over the range from [rmin] on. *)
Fixpoint glue_covered (rmin : Z) (rr : range) (l : list range) : range * list range :=
  match l with
  | [] => (rr, [])
  | ep :: l1 =>
      if rmin <? rn_min ep then
        match l1 with
        | [] => (rr, [])
        | kept :: l2 => let '(rr, l2) := glue_covered rmin rr l2 in (rr, kept :: l2)
        end
      else if rmin <=? rn_max ep then (Range (rn_min ep) (rn_max rr) (rn_step rr), l1)
      else (rr, l)
  end.

(** The walk over the list; [None] is the insertion in front of the whole list. *)
Fixpoint expand_walk (r : range) (l : list range) : option (list range) :=
  let '(rmin, rmax, rstep) := range_get_all_ids (Some r) in
  match l with
  | [] => Some []
  | ep :: l' =>
      if negb (rstep =? rn_step ep) || (1 <? rstep) || (1 <? rn_step ep) then None
      else if rn_max ep <? rmin then None
      else if rmax <? rn_min ep then
        match l' with
        | [] => Some [ep; r]
        | _ => cons ep <$> expand_walk r l'
        end
      else if (rmax <=? rn_max ep) && (rn_min ep <=? rmin) then Some l
      else if rmin <? rn_min ep then
        let '(rr, rest) :=
          glue_covered rmin (Range rmin (if rn_max ep <? rmax then rmax else rn_max ep) (rn_step ep)) l' in
        Some (rr :: rest)
      else Some (Range (rn_min ep) rmax (rn_step ep) :: l')
  end.

Definition expand_range_list (r : range) (rl : option (list range)) : list range :=
  match default [] rl with
  | [] => [r]
  | l => default (r :: l) (expand_walk r l)
  end.

Definition range_list_initialize (this_list : option (option (list range))) :
    option (option (list range)) :=
  match this_list with Some _ => Some (Some []) | None => None end.

(** ** Parsing *)

Definition RANGE_INFINITY : Z := 9999999.

(** What a message says. *)
Inductive range_message :=
  | NoDecimal (s : bytes)
  | UnknownTrailer (s trailer : bytes)
  | NegativeStep
  | RangeAfterUndefined
  | UndefinedAfterRange.

Section Parsing.
Context `{Strtod}.
Context (text : range_message -> string).

Definition syntax_error (al : answer_arg) (m : range_message) : answer_arg :=
  snd (answer_list_add al (text m) STATUS_ESYNTAX ANSWER_QUALITY_ERROR).

(** The element with the smaller number first. *)
Definition range_of (rmin rmax step : Z) : range :=
  if rmax <? rmin then Range rmax rmin step else Range rmin rmax step.

(** The number behind the colon. *)
Definition parse_step (rstr : bytes) (al : answer_arg) : option Z * answer_arg :=
  let '(d, dptr) := strtod rstr in
  let ldummy := d_to_u32 d in
  if d_positive d then
    if d_exceeds d ldummy || ((ldummy =? 0) && same_place rstr dptr) then
      (None, syntax_error al (NoDecimal rstr))
    else
      match dptr with
      | [] => (Some ldummy, al)
      | _ => (None, syntax_error al (UnknownTrailer rstr dptr))
      end
  else if same_place dptr rstr then (None, syntax_error al (NoDecimal rstr))
  else (None, syntax_error al NegativeStep).

(** What stands behind [<n>] and one more character. *)
Definition parse_upper (rmin : Z) (rstr : bytes) (step_allowed : bool) (al : answer_arg) :
    option range * answer_arg :=
  let '(v, dptr) := strtol rstr in
  let ldummy := u32 v in
  let has_step := step_allowed && starts colon dptr in
  if (ldummy =? 0) && same_place rstr dptr then (None, syntax_error al (NoDecimal rstr))
  else if negb (bool_decide (dptr = []) || has_step) then
    (None, syntax_error al (UnknownTrailer rstr dptr))
  else if has_step then
    let '(step, al) := parse_step (tail dptr) al in
    (range_of rmin ldummy <$> step, al)
  else (Some (range_of rmin ldummy 1), al).

(** The range, [None] for the null pointer.  A range that only consists of a minus sign
    keeps the step of a new element. *)
Definition range_parse_from_string (rstr : bytes) (step_allowed inf_allowed : bool)
    (al : answer_arg) : option range * answer_arg :=
  if strcasecmp rstr (str "UNDEFINED") =? 0 then (None, al)
  else
    let old_str := rstr in
    let open := starts minus rstr in
    let rstr := if open then tail rstr else rstr in
    if open && bool_decide (rstr = []) then
      (if inf_allowed then Some (Range 1 RANGE_INFINITY 0) else None, al)
    else
      let '(v, dptr) := strtol rstr in
      let ldummy := u32 v in
      if (ldummy =? 0) && same_place rstr dptr then (None, syntax_error al (NoDecimal rstr))
      else if open then
        if negb (bool_decide (dptr = [])) || (step_allowed && negb (starts colon dptr)) then
          (None, syntax_error al (UnknownTrailer old_str rstr))
        else (Some (range_of 1 ldummy 1), al)
      else
        match dptr with
        | [] => (Some (range_of ldummy ldummy 1), al)
        | c :: rest =>
            if negb ((c =? minus) || starts_digit rest || bool_decide (rest = []) ||
                     (step_allowed && (c =? colon))) then
              (None, syntax_error al (UnknownTrailer old_str dptr))
            else
              match rest with
              | [] => (if inf_allowed then Some (range_of ldummy RANGE_INFINITY 1) else None, al)
              | _ => parse_upper ldummy rest step_allowed al
              end
        end.

Definition range_parse_get_ids (value : bytes) (step_allowed : bool) : option (Z * Z * Z) :=
  match fst (range_parse_from_string value step_allowed false None) with
  | Some r => Some (rn_min r, rn_max r, rn_step r)
  | None => None
  end.

(** The loop over the tokens. *)
Fixpoint parse_tokens (fuel : nat) (s : bytes) (undefined first just_parse step_allowed inf_allowed : bool)
    (this_list : option (list range)) (al : answer_arg) : option (bool * option (list range) * answer_arg) :=
  match fuel with
  | O => None
  | S fuel =>
      match sge_strtok_r s (Some [comma]) with
      | None => Some (true, this_list, al)
      | Some (tok, s) =>
          if negb first && undefined then Some (false, None, syntax_error al RangeAfterUndefined)
          else
            let '(r, al) := range_parse_from_string tok step_allowed inf_allowed al in
            match r with
            | None =>
                if first then
                  parse_tokens fuel s true false just_parse step_allowed inf_allowed this_list al
                else Some (false, None, syntax_error al UndefinedAfterRange)
            | Some r =>
                let this_list := if just_parse then this_list else Some (expand_range_list r this_list) in
                parse_tokens fuel s undefined false just_parse step_allowed inf_allowed this_list al
            end
      end
  end.

(** The verdict, the list and the answers; a null pointer for the list stands for one of
    the function's own. *)
Definition range_list_parse_from_string (this_list : option (option (list range))) (string : bytes)
    (just_parse step_allowed inf_allowed : bool) (al : answer_arg) :
    option (bool * option (option (list range)) * answer_arg) :=
  '(ok, l, al) ← parse_tokens (S (length string)) string false true just_parse step_allowed inf_allowed
                  (default None this_list) al;
  Some (ok, (match this_list with Some _ => Some l | None => None end), al).

End Parsing.

End RangeText.
