(* ===== verification/RangeTextProps.v ===== *)
(** Range lists as text: what is printed is parsed again. *)

From S2P Require Import Prelude Answer Host Text Range RangeFacts RangeText.
Import Answer Host Text Ranges RangeText.

Module RangeTextProps.

(** ** Tokens *)

Definition plain (t : bytes) : Prop := t <> [] /\ Forall (fun c => c <> comma) t.

Lemma up_to_comma t rest :
  Forall (fun c => c <> comma) t -> up_to_delimitor (t ++ comma :: rest) (Some [comma]) = (t, rest).
Proof.
  induction 1 as [|c t Hc Ht IH]; [done|]. cbn [app up_to_delimitor is_delimitor existsb].
  rewrite (proj2 (Z.eqb_neq c comma)) by done. cbn [orb]. by rewrite IH.
Qed.

Lemma up_to_end t : Forall (fun c => c <> comma) t -> up_to_delimitor t (Some [comma]) = (t, []).
Proof.
  induction 1 as [|c t Hc Ht IH]; [done|]. cbn [up_to_delimitor is_delimitor existsb].
  rewrite (proj2 (Z.eqb_neq c comma)) by done. cbn [orb]. by rewrite IH.
Qed.

Lemma skip_comma c s : c <> comma -> skip_delimitors (c :: s) (Some [comma]) = c :: s.
Proof.
  intros Hc. cbn [skip_delimitors is_delimitor existsb]. by rewrite (proj2 (Z.eqb_neq c comma)).
Qed.

(** The tokens with commas between them. *)
Fixpoint join (ts : list bytes) : bytes :=
  match ts with
  | [] => []
  | [t] => t
  | t :: ts => t ++ comma :: join ts
  end.

Lemma strtok_join t ts :
  plain t -> Forall plain ts -> sge_strtok_r (join (t :: ts)) (Some [comma]) = Some (t, join ts).
Proof.
  intros [Hne Ht] Hts. destruct t as [|c t]; [done|]. pose proof (Forall_inv Ht) as Hc.
  unfold sge_strtok_r. destruct ts as [|t2 ts].
  - cbn [join]. rewrite skip_comma by done. f_equal. by apply up_to_end.
  - change (join ((c :: t) :: t2 :: ts)) with (c :: (t ++ comma :: join (t2 :: ts))).
    rewrite skip_comma by done. f_equal. by apply (up_to_comma (c :: t)).
Qed.

Lemma strtok_none : sge_strtok_r [] (Some [comma]) = None.
Proof. done. Qed.

Lemma join_snoc ts t : ts <> [] -> join (ts ++ [t]) = join ts ++ comma :: t.
Proof.
  induction ts as [|a ts IH]; [done|]. intros _. destruct ts as [|b ts]; [done|].
  change (join ((a :: b :: ts) ++ [t])) with (a ++ comma :: join ((b :: ts) ++ [t])).
  rewrite IH by done. change (join (a :: b :: ts)) with (a ++ comma :: join (b :: ts)).
  by rewrite <- app_assoc.
Qed.

Lemma join_nil ts : Forall plain ts -> join ts = [] -> ts = [].
Proof.
  destruct ts as [|t ts]; [done|]. intros [[Hne _] _]%Forall_cons H. destruct t; [done|]. by destruct ts.
Qed.

(** ** Printing *)

(** A range as it is printed: two ids are printed one by one. *)
Definition pieces (r : range) : list range :=
  if rn_min r =? rn_max r then [Range (rn_min r) (rn_min r) 1]
  else if u32 (rn_min r + rn_step r) =? rn_max r then
    [Range (rn_min r) (rn_min r) 1; Range (rn_max r) (rn_max r) 1]
  else [r].

Definition token (r : range) : bytes :=
  if rn_min r =? rn_max r then dec (rn_min r)
  else dec (rn_min r) ++ minus :: dec (rn_max r) ++ colon :: dec (rn_step r).

Definition printable (r : range) : Prop :=
  0 <= rn_min r <= rn_max r /\ rn_max r < 4294967296 /\ 1 <= rn_step r < 2147483648.

Lemma dec_plain n : is_u32 n -> plain (dec n).
Proof.
  intros Hn. destruct (dec_spec n) as [D1 D2 _]; [unfold is_u32, is_u64 in *; lia|]. split; [done|].
  eapply Forall_impl; [exact D1|]. intros c Hc. by apply digit_not.
Qed.

Lemma token_plain r : printable r -> plain (token r).
Proof.
  intros (H1 & H2 & H3). unfold token.
  pose proof (dec_plain (rn_min r) ltac:(unfold is_u32; lia)) as [P1 Q1].
  destruct (_ =? _); [done|].
  pose proof (dec_plain (rn_max r) ltac:(unfold is_u32; lia)) as [_ Q2].
  pose proof (dec_plain (rn_step r) ltac:(unfold is_u32; lia)) as [_ Q3].
  split; [by destruct (dec (rn_min r))|]. apply Forall_app. split; [done|]. constructor; [done|].
  apply Forall_app. split; [done|]. by constructor.
Qed.

Lemma pieces_printable r : printable r -> Forall printable (pieces r).
Proof.
  intros (H1 & H2 & H3). unfold pieces.
  destruct (_ =? _); [|destruct (_ =? _)]; repeat constructor; simpl; try lia; done.
Qed.

Lemma dec_int_pos n : 0 <= n -> dec_int n = dec n.
Proof. intros. unfold dec_int. by rewrite (proj2 (Z.ltb_ge _ _)). Qed.

Lemma print_one r s :
  printable r ->
  range_to_dstring (rn_min r) (rn_max r) (s32 (rn_step r)) s false false false =
    s ++ (match s with [] => [] | _ => [comma] end) ++ join (map token (pieces r)).
Proof.
  intros (H1 & H2 & H3). unfold range_to_dstring, pieces.
  assert (s32 (rn_step r) = rn_step r) as -> by (unfold s32; rewrite Z.mod_small; lia).
  rewrite dec_int_pos by lia. do 2 f_equal. rewrite andb_true_r.
  destruct (rn_min r =? rn_max r) eqn:E.
  - cbn [map join]. unfold token. cbn [rn_min rn_max]. by rewrite Z.eqb_refl.
  - destruct (u32 (rn_min r + rn_step r) =? rn_max r) eqn:E2.
    + cbn [map join]. unfold token. cbn [rn_min rn_max].
      by rewrite !Z.eqb_refl.
    + cbn [map join]. unfold token. by rewrite E.
Qed.

Lemma join_app ts us : ts <> [] -> us <> [] -> join (ts ++ us) = join ts ++ comma :: join us.
Proof.
  induction ts as [|t ts IH]; [done|]. intros _ Hus. destruct ts as [|t2 ts].
  - by destruct us.
  - change (join ((t :: t2 :: ts) ++ us)) with (t ++ comma :: join ((t2 :: ts) ++ us)).
    rewrite IH by done. change (join (t :: t2 :: ts)) with (t ++ comma :: join (t2 :: ts)).
    by rewrite <- app_assoc.
Qed.

Lemma pieces_some r : map token (pieces r) <> [].
Proof. unfold pieces. repeat case_match; done. Qed.

Lemma print_list l ts :
  Forall printable l -> Forall plain ts ->
  range_list_print_to_string (Some l) (Some (join ts)) false false false =
    Some (join (ts ++ concat (map (fun r => map token (pieces r)) l))).
Proof.
  intros Hl. revert ts. unfold range_list_print_to_string.
  induction Hl as [|r l Hr Hl IH]; intros ts Hts; [by rewrite app_nil_r|].
  cbn [fold_left map concat range_get_all_ids].
  assert (join ts ++ (match join ts with [] => [] | _ => [comma] end) ++ join (map token (pieces r)) =
    join (ts ++ map token (pieces r))) as E.
  { destruct ts as [|t ts]; [done|]. rewrite join_app by (done || apply pieces_some).
    destruct (join (t :: ts)) eqn:E; [|done]. by apply join_nil in E. }
  rewrite (print_one r) by done. rewrite E, app_assoc. apply IH.
  apply Forall_app. split; [done|]. rewrite Forall_map. eapply Forall_impl; [by apply pieces_printable|].
  intros p. apply token_plain.
Qed.

(** ** Parsing what was printed *)

(** A range of one id has step 1. *)
Definition normal (r : range) : Prop := rn_min r = rn_max r -> rn_step r = 1.

Lemma pieces_normal r : printable r -> Forall normal (pieces r).
Proof.
  intros _. unfold pieces. destruct (rn_min r =? rn_max r) eqn:E;
    [|destruct (u32 (rn_min r + rn_step r) =? rn_max r)];
    repeat (apply Forall_cons_2; [unfold normal; simpl; lia|]); apply Forall_nil_2.
Qed.

Lemma strcasecmp_digit c s : is_digit c = true -> strcasecmp (c :: s) (str "UNDEFINED") =? 0 = false.
Proof.
  unfold is_digit. intros Hc. unfold strcasecmp. change (lower (str "UNDEFINED")) with (str "undefined").
  cbn [lower map strcmp]. unfold tolower. rewrite (proj2 (andb_false_iff _ _)) by lia.
  change (str "undefined") with (117 :: str "ndefined"). cbn [strcmp].
  rewrite (proj2 (Z.eqb_neq c 117)) by lia. lia.
Qed.

Lemma same_place_not (a b : bytes) : (length b < length a)%nat -> same_place a b = false.
Proof. intros H. unfold same_place. apply bool_decide_eq_false. lia. Qed.

Lemma dec_length n : is_u32 n -> (0 < length (dec n))%nat.
Proof. intros Hn. destruct (dec_plain n Hn) as [H _]. destruct (dec n); [done|simpl; lia]. Qed.

Lemma dec_head n : is_u32 n -> exists c ds, dec n = c :: ds /\ is_digit c = true.
Proof.
  intros Hn. pose proof (dec_digit n ltac:(unfold is_u32, is_u64 in *; lia)) as H.
  destruct (dec n) as [|c ds]; [done|]. by exists c, ds.
Qed.

Lemma read_number (n : Z) (rest : bytes) :
  is_u32 n -> starts_digit rest = false ->
  strtol (dec n ++ rest) = (n, rest) /\ u32 n = n /\ same_place (dec n ++ rest) rest = false.
Proof.
  intros Hn Hr. split; [by apply strtol_dec|]. split; [apply u32_small; exact Hn|].
  apply same_place_not. rewrite length_app. pose proof (dec_length n Hn). lia.
Qed.

(** The interface for [strtod] with what it does with a decimal number. *)
Class DecimalStrtod `{Strtod} := {
  strtod_dec : forall n, 0 < n < 2147483648 -> exists d,
    strtod (dec n) = (d, []) /\ d_positive d = true /\ d_to_u32 d = n /\ d_exceeds d n = false;
}.

Section Parsed.
Context `{DecimalStrtod} (text : range_message -> string).

Lemma parse_step_dec n al : 0 < n < 2147483648 -> parse_step text (dec n) al = (Some n, al).
Proof.
  intros Hn. destruct (strtod_dec n Hn) as (d & E & Ep & Eu & Ee).
  unfold parse_step. rewrite E, Ep, Eu, Ee, (proj2 (Z.eqb_neq n 0)) by lia. done.
Qed.

Lemma parse_upper_dec rmin n k al :
  is_u32 n -> rmin <= n -> 0 < k < 2147483648 ->
  parse_upper text rmin (dec n ++ colon :: dec k) true al = (Some (Range rmin n k), al).
Proof.
  intros Hn Hle Hk. destruct (read_number n (colon :: dec k) Hn eq_refl) as (E & Eu & Es).
  unfold parse_upper. rewrite E, Eu, Es, andb_false_r. cbn [starts]. rewrite Z.eqb_refl, andb_true_l.
  rewrite orb_true_r. cbn [negb tail]. rewrite parse_step_dec by done.
  unfold range_of. by rewrite (proj2 (Z.ltb_ge n rmin)) by done.
Qed.

Lemma parse_token r al :
  printable r -> normal r -> range_parse_from_string text (token r) true false al = (Some r, al).
Proof.
  intros (H1 & H2 & H3) Hn. destruct r as [min max step]. unfold normal in Hn. cbn [rn_min rn_max rn_step] in *.
  unfold token. cbn [rn_min rn_max rn_step].
  assert (is_u32 min) as Hu by (unfold is_u32; lia).
  destruct (dec_head min Hu) as (c & ds & Ed & Hc). destruct (digit_not c Hc) as (_ & Hm & _ & _).
  set (rest := if min =? max then [] else minus :: dec max ++ colon :: dec step).
  replace (if min =? max then dec min else _) with (dec min ++ rest)
    by (unfold rest; destruct (min =? max); [by rewrite app_nil_r|done]).
  assert (starts_digit rest = false) as Hr by (unfold rest; by destruct (min =? max)).
  destruct (read_number min rest Hu Hr) as (E & Eu & Es).
  assert (starts minus (dec min ++ rest) = false) as Hs
    by (rewrite Ed; cbn [app starts]; by apply Z.eqb_neq).
  assert (strcasecmp (dec min ++ rest) (str "UNDEFINED") =? 0 = false) as Hc'
    by (rewrite Ed; cbn [app]; by apply strcasecmp_digit).
  unfold range_parse_from_string. rewrite Hc', Hs. cbv zeta. rewrite E, Eu, Es, andb_false_r.
  cbn [andb]. unfold rest. destruct (min =? max) eqn:Em.
  - unfold range_of. rewrite Z.ltb_irrefl. apply Z.eqb_eq in Em. by rewrite Hn, Em.
  - rewrite Z.eqb_refl. cbn [orb negb].
    destruct (dec max ++ colon :: dec step) as [|x y] eqn:Ex.
    + destruct (dec max); done.
    + rewrite <- Ex. apply parse_upper_dec; unfold is_u32; lia.
Qed.

(** A range behind all others comes to the front of the list. *)
Lemma expand_front r rl :
  below (rn_min r) (default [] rl) -> expand_range_list r rl = r :: default [] rl.
Proof.
  unfold expand_range_list. destruct (default [] rl) as [|ep l]; [done|].
  intros [Hb _]%below_cons. cbn [expand_walk range_get_all_ids].
  rewrite (proj2 (Z.ltb_lt _ _) Hb). by destruct (_ || _).
Qed.

(** Ascending ranges are collected in front of what is already there. *)
Lemma parse_join ps fuel f tl al :
  Forall (fun p => printable p /\ normal p) ps -> StronglySorted before ps ->
  (forall p, p ∈ ps -> below (rn_min p) (default [] tl)) -> (length ps < fuel)%nat ->
  parse_tokens text fuel (join (map token ps)) false f false true false tl al =
    Some (true, (match ps with [] => tl | _ => Some (rev ps ++ default [] tl) end), al).
Proof.
  intros Hp. revert fuel f tl.
  induction Hp as [|p ps [Hp Hn] Hps IH]; intros fuel f tl Hs Hb Hf;
    (destruct fuel as [|fuel]; [simpl in Hf; lia|]); [done|].
  cbn [map parse_tokens]. rewrite strtok_join.
  2: by apply token_plain.
  2: { rewrite Forall_map. eapply Forall_impl; [exact Hps|]. intros q [Hq _]. by apply token_plain. }
  rewrite andb_false_r, parse_token by done. rewrite expand_front by (apply Hb; left).
  apply StronglySorted_inv in Hs as [Hs Hall]. rewrite IH; [|done| |simpl in Hf; lia].
  - destruct ps; [done|]. simpl. by rewrite <- !app_assoc.
  - intros q Hq. apply below_cons. split; [|apply Hb; set_solver].
    rewrite Forall_forall in Hall. exact (Hall q Hq).
Qed.

End Parsed.

(** ** The pieces of a list *)

Definition all_pieces (l : list range) : list range := concat (map pieces l).

Section Bound.
Context (B : Z) (HB : 2 <= B <= 2147483648).

Lemma range_ok_printable r : range_ok B r -> printable r.
Proof. unfold range_ok, printable. lia. Qed.

Lemma pieces_ok r : range_ok B r -> Forall (range_ok B) (pieces r).
Proof.
  intros (H1 & H2 & H3 & H4). unfold pieces. destruct (rn_min r =? rn_max r);
    [|destruct (u32 (rn_min r + rn_step r) =? rn_max r)];
    repeat (apply Forall_cons_2; [unfold range_ok; simpl; lia|]); apply Forall_nil_2.
Qed.

Lemma pieces_ids r x : range_ok B r -> ids_in x (pieces r) <-> id_in x r.
Proof.
  intros (H1 & H2 & H3 & H4). unfold pieces. destruct (rn_min r =? rn_max r) eqn:E.
  { autorewrite with ids. unfold id_in; cbn [rn_min rn_max rn_step]. split.
    - intros [(j & ? & ? & ?)|[]]. exists 0. lia.
    - intros (j & ? & ? & ?). left. exists 0. nia. }
  rewrite u32_small by lia. destruct (rn_min r + rn_step r =? rn_max r) eqn:E2.
  - autorewrite with ids. unfold id_in; cbn [rn_min rn_max rn_step]. split.
    + intros [(j & ? & ? & ?)|[(j & ? & ? & ?)|[]]]; [exists 0|exists 1]; lia.
    + intros (j & ? & ? & ?). assert (j = 0 \/ j = 1) as [-> | ->] by nia;
        [left|right; left]; exists 0; lia.
  - autorewrite with ids. tauto.
Qed.

Lemma pieces_sorted r : range_ok B r -> StronglySorted before (pieces r).
Proof.
  intros (H1 & H2 & H3 & H4). unfold pieces. destruct (rn_min r =? rn_max r) eqn:E;
    [|destruct (u32 (rn_min r + rn_step r) =? rn_max r)]; repeat constructor.
  unfold before. simpl. lia.
Qed.

Lemma pieces_between r :
  range_ok B r -> Forall (fun p => rn_min r <= rn_min p /\ rn_max p <= rn_max r) (pieces r).
Proof.
  intros (H1 & H2 & H3 & H4). unfold pieces. destruct (rn_min r =? rn_max r);
    [|destruct (u32 (rn_min r + rn_step r) =? rn_max r)];
    repeat (apply Forall_cons_2; [simpl; lia|]); apply Forall_nil_2.
Qed.

Lemma all_pieces_spec l :
  Forall (range_ok B) l -> StronglySorted before l ->
  Forall (fun p => (printable p /\ normal p) /\ range_ok B p) (all_pieces l) /\
  StronglySorted before (all_pieces l) /\
  (forall x, ids_in x (all_pieces l) <-> ids_in x l) /\
  (forall y, above y l -> above y (all_pieces l)).
Proof.
  induction l as [|r l IH]; [by repeat split|].
  intros [Hr Hl]%Forall_cons [Hs Hall]%StronglySorted_inv. destruct (IH Hl Hs) as (I1 & I2 & I3 & I4).
  pose proof (pieces_between r Hr) as Hpb. change (all_pieces (r :: l)) with (pieces r ++ all_pieces l).
  split; [|split; [|split]].
  - apply Forall_app. split; [|done]. rewrite !Forall_and. split; [split|by apply pieces_ok].
    + by apply pieces_printable, range_ok_printable.
    + by apply pieces_normal, range_ok_printable.
  - apply StronglySorted_app. split; [|split; [|done]]; [|by apply pieces_sorted].
    intros a b Ha Hb. specialize (I4 (rn_max r) Hall). rewrite Forall_forall in Hpb.
    unfold above in I4. rewrite Forall_forall in I4. specialize (Hpb a Ha). specialize (I4 b Hb).
    unfold before. lia.
  - intros x. rewrite ids_in_app, ids_in_cons, I3, pieces_ids by done. done.
  - intros y [Hy Ha]%above_cons. apply above_app. split; [|by apply I4].
    eapply Forall_impl; [exact Hpb|]. simpl. lia.
Qed.

End Bound.

Lemma join_length ts : Forall plain ts -> (length ts <= length (join ts))%nat.
Proof.
  induction 1 as [|t ts [Ht _] Hts IH]; [done|]. destruct t as [|c t]; [done|].
  destruct ts as [|t2 ts]; [simpl; lia|].
  change (join ((c :: t) :: t2 :: ts)) with (c :: t ++ comma :: join (t2 :: ts)).
  cbn [length] in *. rewrite length_app. cbn [length]. lia.
Qed.

(** ** Any text *)

Lemma skip_length s d : (length (skip_delimitors s d) <= length s)%nat.
Proof. induction s as [|c s IH]; [done|]. cbn [skip_delimitors]. destruct (is_delimitor c d); simpl in *; lia. Qed.

Lemma up_to_length s d : (length (snd (up_to_delimitor s d)) <= length s)%nat.
Proof.
  induction s as [|c s IH]; [done|]. cbn [up_to_delimitor]. destruct (is_delimitor c d); [simpl; lia|].
  destruct (up_to_delimitor s d). simpl in *. lia.
Qed.

Lemma strtok_shorter s d t rest : sge_strtok_r s d = Some (t, rest) -> (length rest < length s)%nat.
Proof.
  unfold sge_strtok_r. pose proof (skip_length s d) as H.
  destruct (skip_delimitors s d) as [|c s'] eqn:E; [done|]. intros [= Eu].
  destruct (is_delimitor c d) eqn:Ed.
  - exfalso. clear H Eu. induction s as [|x s IH]; [done|]. cbn [skip_delimitors] in E.
    destruct (is_delimitor x d) eqn:Ex; [auto|]. simplify_eq. congruence.
  - pose proof (up_to_length s' d) as Hu.
    destruct (up_to_delimitor s' d). simplify_eq. simpl in *. lia.
Qed.

(** The numbers of a range in order, as [uint32_t]. *)
Definition range_wf (r : range) : Prop := 0 <= rn_min r <= rn_max r /\ rn_max r < 4294967296.

Lemma glue_covered_wf rmin rr l :
  range_wf rr -> rmin <= rn_max rr -> Forall range_wf l ->
  range_wf (fst (glue_covered rmin rr l)) /\ Forall range_wf (snd (glue_covered rmin rr l)).
Proof.
  intros Hr Hm. revert l. fix IH 1. intros [|ep [|kept l2]] Hl; [done| |].
  - pose proof Hl as [He _]%Forall_cons. cbn [glue_covered].
    destruct (Z.ltb_spec rmin (rn_min ep)); [done|].
    destruct (rmin <=? rn_max ep); [|done]. split; [|done]. unfold range_wf in *. simpl. lia.
  - apply Forall_cons in Hl as [He Hl]. pose proof Hl as [Hk Hl2]%Forall_cons. cbn [glue_covered].
    destruct (Z.ltb_spec rmin (rn_min ep)).
    + destruct (IH l2 Hl2) as [I1 I2]. destruct (glue_covered rmin rr l2). simpl in *.
      split; [done|]. by constructor.
    + destruct (rmin <=? rn_max ep); simpl; [|by split; [|constructor]].
      split; [unfold range_wf in *; simpl; lia|done].
Qed.

Lemma expand_walk_wf r l l' :
  range_wf r -> Forall range_wf l -> expand_walk r l = Some l' -> Forall range_wf l'.
Proof.
  intros Hr Hl. revert l'. induction Hl as [|ep l He Hl IH]; intros l' E.
  { cbn in E. by simplify_eq. }
  cbn [expand_walk range_get_all_ids] in E.
  destruct (_ || _ || _); [done|]. destruct (rn_max ep <? rn_min r); [done|].
  destruct (Z.ltb_spec (rn_max r) (rn_min ep)).
  { destruct l; [simplify_eq; constructor; [done|]; by apply Forall_singleton|].
    apply fmap_Some in E as (l2 & E & ->). constructor; eauto. }
  destruct (_ && _); [simplify_eq; by constructor|].
  destruct (Z.ltb_spec (rn_min r) (rn_min ep)).
  - pose proof (glue_covered_wf (rn_min r)
      (Range (rn_min r) (if rn_max ep <? rn_max r then rn_max r else rn_max ep) (rn_step ep)) l) as G.
    destruct (glue_covered _ _ _) as [rr rest]. simplify_eq. simpl in G.
    unfold range_wf in Hr, He. destruct G as [G1 G2]; [| |done|by constructor].
    + unfold range_wf. simpl. destruct (rn_max ep <? rn_max r); lia.
    + destruct (rn_max ep <? rn_max r) eqn:?; lia.
  - simplify_eq. constructor; [|done]. unfold range_wf in *. simpl. lia.
Qed.

Lemma expand_wf r rl :
  range_wf r -> Forall range_wf (default [] rl) -> Forall range_wf (expand_range_list r rl).
Proof.
  intros Hr Hl. unfold expand_range_list. destruct (default [] rl) as [|ep l]; [by apply Forall_singleton|].
  destruct (expand_walk r (ep :: l)) eqn:E; [by eapply expand_walk_wf|]. by constructor.
Qed.

Lemma range_of_wf a b k : is_u32 a -> is_u32 b -> range_wf (range_of a b k).
Proof. unfold is_u32, range_wf, range_of. destruct (Z.ltb_spec b a); simpl; lia. Qed.

Section AnyText.
Context `{Strtod} (text : range_message -> string).

Lemma parse_upper_wf rmin s st al r :
  is_u32 rmin -> fst (parse_upper text rmin s st al) = Some r -> range_wf r.
Proof.
  intros Hr. unfold parse_upper. destruct (strtol s) as [v p].
  pose proof (u32_range v) as Hv. repeat (destruct (_ && _) || destruct (negb _)); try done.
  - destruct (parse_step text (tail p) al) as [[k|] al']; [|done]. intros [= <-]. by apply range_of_wf.
  - intros [= <-]. by apply range_of_wf.
Qed.

Lemma parse_wf s st inf al r :
  fst (range_parse_from_string text s st inf al) = Some r -> range_wf r.
Proof.
  assert (is_u32 1 /\ is_u32 RANGE_INFINITY) as [H1 Hi] by (unfold is_u32, RANGE_INFINITY; lia).
  unfold range_parse_from_string. destruct (_ =? 0); [done|].
  destruct (starts minus s && _).
  { destruct inf; [|done]. intros [= <-]. unfold range_wf. simpl. unfold RANGE_INFINITY. lia. }
  destruct (strtol _) as [v p]. pose proof (u32_range v) as Hv. destruct (_ && _); [done|].
  destruct (starts minus s).
  { destruct (_ || _); [done|]. intros [= <-]. by apply range_of_wf. }
  destruct p as [|c rest]; [intros [= <-]; by apply range_of_wf|].
  destruct (negb _); [done|]. destruct rest.
  - destruct inf; [|done]. intros [= <-]. by apply range_of_wf.
  - by apply parse_upper_wf.
Qed.

Lemma parse_tokens_spec fuel s u f jp st inf tl al :
  (length s < fuel)%nat -> Forall range_wf (default [] tl) ->
  exists ok l al', parse_tokens text fuel s u f jp st inf tl al = Some (ok, l, al') /\
    Forall range_wf (default [] l) /\ (jp = true -> ok = true -> l = tl) /\
    (ok = false -> l = None /\
       exists al0 m, al' = syntax_error text al0 m /\ (m = RangeAfterUndefined \/ m = UndefinedAfterRange)).
Proof.
  revert s u f tl al. induction fuel as [|fuel IH]; intros s u f tl al Hs Hl; [lia|].
  cbn [parse_tokens]. destruct (sge_strtok_r s (Some [comma])) as [[tok s']|] eqn:E.
  2: { exists true, tl, al. done. }
  apply strtok_shorter in E. destruct (negb f && u).
  { exists false, None, (syntax_error text al RangeAfterUndefined). naive_solver. }
  pose proof (parse_wf tok st inf al) as Hw.
  destruct (range_parse_from_string text tok st inf al) as [[r|] al1].
  - specialize (Hw r eq_refl). destruct jp.
    + apply IH; [lia|done].
    + destruct (IH s' u false (Some (expand_range_list r tl)) al1) as (ok & l & al' & -> & I1 & I2 & I3);
        [lia|by apply expand_wf|].
      by exists ok, l, al'.
  - destruct f; [apply IH; [lia|done]|].
    exists false, None, (syntax_error text al1 UndefinedAfterRange). naive_solver.
Qed.

End AnyText.

(** ** Properties *)

(** A well-formed range list that is printed is parsed back without an error, and the
    list that comes back holds exactly the same ids.  It is the printed one from behind,
    with a range of two ids as two ranges: [range_to_dstring] prints these ids one by one
    and [expand_range_list] puts every range it reads in front of the smaller ones. *)
Theorem range_text_roundtrip `{DecimalStrtod} (text : range_message -> string) (l : list range)
    (al : answer_arg) :
  rl_ok 2147483648 l -> l <> [] ->
  exists s l', range_list_print_to_string (Some l) (Some []) false false false = Some s /\
    range_list_parse_from_string text (Some None) s false true false al = Some (true, Some (Some l'), al) /\
    (forall x, range_list_is_id_within l' x = range_list_is_id_within l x) /\
    l' = rev (all_pieces l).
Proof.
  intros [Hok Hs] Hne. assert (Forall (range_ok 2147483648) l) as Hr by (eapply Forall_impl; [exact Hok|by intros r []]).
  assert (2 <= 2147483648 <= 2147483648) as HB by lia.
  destruct (all_pieces_spec 2147483648 HB l Hr Hs) as (P1 & P2 & P3 & _).
  apply Forall_and in P1 as [P1 P4].
  assert (Forall plain (map token (all_pieces l))) as Hpl.
  { rewrite Forall_map. eapply Forall_impl; [exact P1|]. intros q [Hq _]. by apply token_plain. }
  exists (join (map token (all_pieces l))), (rev (all_pieces l)). split; [|split; [|split; [|done]]].
  - change (Some []) with (Some (join [])). rewrite print_list; [cbn [app]| |by constructor].
    + unfold all_pieces. rewrite concat_map, map_map. done.
    + eapply Forall_impl; [exact Hr|]. intros r. by apply range_ok_printable.
  - unfold range_list_parse_from_string. cbn [default]. rewrite parse_join; [|done|done|by constructor|].
    + destruct (all_pieces l) eqn:E; [|by rewrite app_nil_r].
      destruct l as [|r l]; [done|]. unfold all_pieces in E. simpl in E. apply app_eq_nil in E as [E _].
      by destruct (pieces_some r); rewrite E.
    + pose proof (join_length _ Hpl) as Hj. rewrite length_map in Hj. lia.
  - intros x. apply eq_true_iff_eq.
    rewrite !(within_list_iff 2147483648) by first [lia|done|by apply Forall_rev].
    by rewrite ids_in_rev.
Qed.

(** [strtod] for whole numbers. *)
#[local] Instance whole_strtod : Strtod := {
  double := Z;
  strtod := strtol;
  d_positive := fun d => 0 <? d;
  d_to_u32 := u32;
  d_exceeds := fun d i => 0 <? d - i;
}.

#[local] Instance whole_decimal : DecimalStrtod.
Proof.
  split. intros n Hn. exists n. cbn [strtod whole_strtod d_positive d_to_u32 d_exceeds].
  pose proof (strtol_dec n [] ltac:(unfold is_u32; lia) eq_refl) as E. rewrite app_nil_r in E.
  rewrite E, u32_small by lia. repeat split; lia.
Defined.

Definition no_text (m : range_message) : string := "".

Lemma range_text_roundtrip_witness :
  exists s l', range_list_print_to_string (Some [Range 1 9 2; Range 12 12 1; Range 20 30 10]) (Some [])
      false false false = Some s /\
    range_list_parse_from_string no_text (Some None) s false true false None = Some (true, Some (Some l'), None) /\
    (forall x, range_list_is_id_within l' x =
       range_list_is_id_within [Range 1 9 2; Range 12 12 1; Range 20 30 10] x) /\
    l' = [Range 30 30 1; Range 20 20 1; Range 12 12 1; Range 1 9 2].
Proof.
  apply (range_text_roundtrip no_text [Range 1 9 2; Range 12 12 1; Range 20 30 10] None); [|done].
  split.
  - repeat (apply Forall_cons_2; [split; [unfold range_ok; simpl; lia|]|]); [..|apply Forall_nil_2].
    + exists 4. simpl. lia.
    + exists 0. simpl. lia.
    + exists 1. simpl. lia.
  - repeat constructor.
Defined.

(** Whatever the text is, it is read to its end or to the first token that must not
    stand where it does.  Every range of the list is then in order, a list that is only
    checked is not touched, and a refusal leaves no list and one more error. *)
Theorem range_list_parsed `{Strtod} (text : range_message -> string) (l : list range) (s : bytes)
    (just_parse step_allowed inf_allowed : bool) (al : answer_arg) :
  Forall range_wf l ->
  exists ok l' al', range_list_parse_from_string text (Some (Some l)) s just_parse step_allowed inf_allowed al =
      Some (ok, Some l', al') /\
    Forall range_wf (default [] l') /\ (just_parse = true -> ok = true -> l' = Some l) /\
    (ok = false -> l' = None /\
       exists al0 m, al' = syntax_error text al0 m /\ (m = RangeAfterUndefined \/ m = UndefinedAfterRange)).
Proof.
  intros Hl. unfold range_list_parse_from_string. change (default None (Some (Some l))) with (Some l).
  destruct (parse_tokens_spec text (S (length s)) s false true just_parse step_allowed inf_allowed
    (Some l) al) as (ok & l' & al' & -> & Hs); [lia|done|]. by exists ok, l', al'.
Qed.

Lemma range_list_parsed_witness :
  Forall range_wf [Range 3 4 1] /\
  exists ok l' al', range_list_parse_from_string no_text (Some (Some [Range 3 4 1])) (str "7,x-") false true false None =
      Some (ok, Some l', al') /\
    Forall range_wf (default [] l') /\ (false = true -> ok = true -> l' = Some [Range 3 4 1]) /\
    (ok = false -> l' = None /\
       exists al0 m, al' = syntax_error no_text al0 m /\ (m = RangeAfterUndefined \/ m = UndefinedAfterRange)).
Proof.
  assert (Forall range_wf [Range 3 4 1]) as Hw by (apply Forall_singleton; unfold range_wf; simpl; lia).
  split; [done|]. exact (range_list_parsed no_text [Range 3 4 1] (str "7,x-") false true false None Hw).
Defined.

(** ** What some texts are read as *)

Section Read.
Let read (s : string) (st inf : bool) := range_list_parse_from_string no_text (Some None) (str s) false st inf None.

(** A text that is no range at all is accepted when it is the only one. *)
Example read_no_range : read "abc" true true = Some (true, Some None, None).
Proof. reflexivity. Qed.

(** [-n] is refused where a step may stand. *)
Example read_open_below :
  read "-5" false false = Some (true, Some (Some [Range 1 5 1]), None) /\
  read "-5" true false = Some (true, Some None, None).
Proof. split; reflexivity. Qed.

(** Any character may stand between two numbers. *)
Example read_odd_separator : read "5x6" true false = Some (true, Some (Some [Range 5 6 1]), None).
Proof. reflexivity. Qed.

(** A lone minus sign gives a range whose step is 0; no loop over its ids ends. *)
Example read_minus : read "-" true true = Some (true, Some (Some [Range 1 RANGE_INFINITY 0]), None).
Proof. reflexivity. Qed.

(** Ranges behind the range that covers them are passed over in pairs. *)
Example read_overlap :
  exists l, read "5-6,10-11,20-21,30-31,1-40" true false = Some (true, Some (Some l), None) /\
    Range 1 40 1 ∈ l /\ Range 10 11 1 ∈ l.
Proof. eexists. split; [reflexivity|]. set_solver. Qed.

End Read.

Lemma endless_ids fuel start end_ : is_u32 start -> start <= end_ -> id_loop fuel start end_ 0 = None.
Proof.
  intros Hs Hle. induction fuel as [|fuel IH]; cbn [id_loop]; rewrite (proj2 (Z.leb_le _ _) Hle); [done|].
  rewrite Z.add_0_r, u32_small by exact Hs. by rewrite IH.
Qed.

End RangeTextProps.
