(* ===== verification/CalTime.v ===== *)
(** CalTime: calendar time as the C library computes it, [localtime_r] and [mktime].

    A time zone is an interface of the two functions; [fixed_zone] is the zone at a constant
    offset from UTC, in the Gregorian calendar. *)

From S2P Require Import Prelude.

Module CalTime.

(** [struct tm], and the attributes of [TM_Type]. *)
Record tm := Tm {
  tm_sec : Z; tm_min : Z; tm_hour : Z;
  tm_mday : Z; tm_mon : Z; tm_year : Z;
  tm_wday : Z; tm_yday : Z; tm_isdst : Z;
}.

Class Zone := {
  localtime : Z -> tm;
  mktime : tm -> Z;
}.

(** ** The Gregorian calendar

    Months are counted from January of the year 0, days from the first of March of that
    year: a leap day is then the last of its year. *)

(** The first day of a month. *)
Definition month_start (k : Z) : Z :=
  let y := (k - 2) / 12 in
  let m := (k - 2) mod 12 in
  365 * y + y / 4 - y / 100 + y / 400 + (153 * m + 2) / 5.

(** The month a day lies in: 4800 months have 146097 days, which is at most a month off. *)
Definition month_of (n : Z) : Z :=
  let k := n * 4800 / 146097 + 2 in
  if month_start (k + 1) <=? n then k + 1 else if n <? month_start k then k - 1 else k.

(** The first of January 1970. *)
Definition epoch : Z := 719468.

(** ** Zones at a constant offset *)

Definition fixed_localtime (off t : Z) : tm :=
  let n := (t + off) / 86400 + epoch in
  let s := (t + off) mod 86400 in
  let k := month_of n in
  {| tm_sec := s mod 60; tm_min := s / 60 mod 60; tm_hour := s / 3600;
     tm_mday := n - month_start k + 1; tm_mon := k mod 12; tm_year := k / 12 - 1900;
     tm_wday := (n + 3) mod 7; tm_yday := n - month_start (12 * (k / 12)); tm_isdst := 0 |}.

(** Attributes outside of their ranges count on. *)
Definition fixed_mktime (off : Z) (t : tm) : Z :=
  (month_start (12 * (tm_year t + 1900) + tm_mon t) + tm_mday t - 1 - epoch) * 86400 +
  tm_hour t * 3600 + tm_min t * 60 + tm_sec t - off.

Definition fixed_zone (off : Z) : Zone :=
  {| localtime := fixed_localtime off; mktime := fixed_mktime off |}.

(** ** Facts *)

(** Linear arithmetic with division by constants. *)
Ltac divlia := Z.to_euclidean_division_equations; lia.

Lemma month_start_next k : month_start k < month_start (k + 1).
Proof.
  unfold month_start. pose proof (Z.div_mod (k - 2) 12 ltac:(lia)) as H.
  pose proof (Z.mod_pos_bound (k - 2) 12 ltac:(lia)) as Hm.
  set (y := (k - 2) / 12) in *. set (m := (k - 2) mod 12) in *.
  destruct (Z.eq_dec m 11) as [E|E].
  - rewrite <- (Z.div_unique (k + 1 - 2) 12 (y + 1) 0) by lia.
    rewrite <- (Z.mod_unique (k + 1 - 2) 12 (y + 1) 0) by lia. rewrite E.
    change ((153 * 11 + 2) / 5) with 337. change ((153 * 0 + 2) / 5) with 0. divlia.
  - rewrite <- (Z.div_unique (k + 1 - 2) 12 y (m + 1)) by lia.
    rewrite <- (Z.mod_unique (k + 1 - 2) 12 y (m + 1)) by lia. divlia.
Qed.

Lemma month_start_mono a b : a < b -> month_start a < month_start b.
Proof.
  intros H. replace b with (a + Z.of_nat (S (Z.to_nat (b - a - 1)))) by lia.
  induction (Z.to_nat (b - a - 1)) as [|n IH].
  - replace (a + Z.of_nat 1) with (a + 1) by lia. apply month_start_next.
  - etrans; [exact IH|]. replace (a + Z.of_nat (S (S n))) with (a + Z.of_nat (S n) + 1) by lia.
    apply month_start_next.
Qed.

(** A month starts where its share of the 146097 days ends, give or take a few days. *)
Lemma month_start_linear k : -4 <= month_start k - (k - 2) * 146097 / 4800 <= 4.
Proof.
  unfold month_start. pose proof (Z.div_mod (k - 2) 12 ltac:(lia)) as H.
  pose proof (Z.mod_pos_bound (k - 2) 12 ltac:(lia)) as Hm.
  set (y := (k - 2) / 12) in *. set (m := (k - 2) mod 12) in *. clearbody y m.
  rewrite H. clear H. divlia.
Qed.

(** Every day is in its month. *)
Lemma month_of_spec n : month_start (month_of n) <= n < month_start (month_of n + 1).
Proof.
  unfold month_of. set (k := n * 4800 / 146097 + 2).
  pose proof (month_start_linear (k - 1)) as H1. pose proof (month_start_linear (k + 2)) as H2.
  assert (month_start (k - 1) <= n < month_start (k + 2)) as [H3 H4] by (unfold k in *; divlia).
  destruct (Z.leb_spec (month_start (k + 1)) n); [by replace (k + 1 + 1) with (k + 2) by lia|].
  destruct (Z.ltb_spec n (month_start k)); [replace (k - 1 + 1) with k by lia|]; lia.
Qed.

Lemma month_of_unique n k : month_start k <= n < month_start (k + 1) -> month_of n = k.
Proof.
  intros H. pose proof (month_of_spec n) as Hs.
  destruct (Z.lt_trichotomy (month_of n) k) as [Hl|[->|Hl]]; [|done|]; exfalso.
  - destruct (Z.eq_dec (month_of n + 1) k) as [E|E]; [rewrite E in Hs; lia|].
    pose proof (month_start_mono (month_of n + 1) k ltac:(lia)). lia.
  - destruct (Z.eq_dec (k + 1) (month_of n)) as [E|E]; [rewrite E in H; lia|].
    pose proof (month_start_mono (k + 1) (month_of n) ltac:(lia)). lia.
Qed.

End CalTime.
