(* ===== verification/Calendar.v ===== *)
(** Calendars: when a queue is open ([libs/sgeobj/sge_calendar.cc], all but the parser).

    A parsed calendar is a list of entries; an entry has days, times of day and the state
    that is valid then.  Everything is asked through [state_at]: the state at a moment and
    when to ask again.  A result [None] is a null pointer that is read (CULL aborts then)
    or fuel that is gone; the properties show that neither happens. *)

From S2P Require Import Prelude Answer CalTime Host QState.
Import Answer CalTime Host QState.

Module Calendar.

Definition QI_DO_CAL_DISABLE : Z := 0x20000.
Definition QI_DO_CAL_SUSPEND : Z := 0x40000.

(** [TMR_Type]: a range of moments, or one moment. *)
Record tmr := Tmr { TMR_begin : tm; TMR_end : option tm }.

(** [CA_Type]: a null list is no restriction. *)
Record ca := Ca {
  CA_yday_range_list : option (list tmr);
  CA_wday_range_list : option (list tmr);
  CA_daytime_range_list : option (list tmr);
  CA_state : Z;
}.

(** [CAL_Type] *)
Record cal := Cal {
  CAL_name : option bytes;
  CAL_year_calendar : option bytes;
  CAL_week_calendar : option bytes;
  CAL_parsed_year_calendar : option (list ca);
  CAL_parsed_week_calendar : option (list ca);
}.

(** A new [TM_Type] element. *)
Definition tm_zero : tm := Tm 0 0 0 0 0 0 0 0 0.

Definition on_fields (f : Z -> Z) (t : tm) : tm :=
  Tm (f (tm_sec t)) (f (tm_min t)) (f (tm_hour t)) (f (tm_mday t)) (f (tm_mon t)) (f (tm_year t))
     (f (tm_wday t)) (f (tm_yday t)) (f (tm_isdst t)).

Definition cullify_tm (t : tm) : tm := on_fields u32 t.
Definition uncullify_tm (t : tm) : tm := on_fields s32 t.

Definition with_time (h m s : Z) (t : tm) : tm :=
  Tm s m h (tm_mday t) (tm_mon t) (tm_year t) (tm_wday t) (tm_yday t) (tm_isdst t).
Definition with_mday (d : Z) (t : tm) : tm :=
  Tm (tm_sec t) (tm_min t) (tm_hour t) d (tm_mon t) (tm_year t) (tm_wday t) (tm_yday t) (tm_isdst t).
Definition with_month (mon year : Z) (t : tm) : tm :=
  Tm (tm_sec t) (tm_min t) (tm_hour t) (tm_mday t) mon year (tm_wday t) (tm_yday t) (tm_isdst t).
Definition with_isdst (d : Z) (t : tm) : tm :=
  Tm (tm_sec t) (tm_min t) (tm_hour t) (tm_mday t) (tm_mon t) (tm_year t) (tm_wday t) (tm_yday t) d.
Definition with_wday (w : Z) (t : tm) : tm :=
  Tm (tm_sec t) (tm_min t) (tm_hour t) (tm_mday t) (tm_mon t) (tm_year t) w (tm_yday t) (tm_isdst t).
Definition with_hour (h : Z) (t : tm) : tm := with_time h (tm_min t) (tm_sec t) t.

(** ** Comparing *)

Definition cmp_func_t : Type := tm -> tm -> Z.

(** The first difference that is not 0. *)
Definition first_diff (a b : Z) : Z := if a =? 0 then b else a.

Definition tm_yday_cmp : cmp_func_t := fun t1 t2 =>
  first_diff (s32 (tm_year t1 - tm_year t2))
    (first_diff (s32 (tm_mon t1 - tm_mon t2)) (s32 (tm_mday t1 - tm_mday t2))).

Definition tm_wday_cmp : cmp_func_t := fun t1 t2 => s32 (tm_wday t1 - tm_wday t2).

Definition tm_daytime_cmp : cmp_func_t := fun t1 t2 =>
  first_diff (s32 (tm_hour t1 - tm_hour t2))
    (first_diff (s32 (tm_min t1 - tm_min t2)) (s32 (tm_sec t1 - tm_sec t2))).

Definition in_range (cmp : cmp_func_t) (t : tm) (r : tmr) : bool :=
  match TMR_end r with
  | Some t2 => (cmp (TMR_begin r) t <=? 0) && (cmp t t2 <=? 0)
  | None => cmp (TMR_begin r) t =? 0
  end.

Definition in_range_list (cmp : cmp_func_t) (t : tm) (rl : option (list tmr)) : bool :=
  match rl with None => true | Some l => existsb (in_range cmp t) l end.

(** ** Lists of ranges *)

Definition opt_in_range (cmp : cmp_func_t) (t : option tm) (r : tmr) : bool :=
  match t with Some t => in_range cmp t r | None => false end.

Definition overlapping (cmp : cmp_func_t) (r q : tmr) : bool :=
  in_range cmp (TMR_begin r) q || opt_in_range cmp (TMR_end r) q ||
  in_range cmp (TMR_begin q) r || opt_in_range cmp (TMR_end q) r.

(** [r] extended by [q]. *)
Definition combine (cmp : cmp_func_t) (r q : tmr) : option tmr :=
  let b := if 0 <? cmp (TMR_begin r) (TMR_begin q) then TMR_begin q else TMR_begin r in
  match TMR_end r, TMR_end q with
  | None, Some q2 => Some (Tmr b (Some q2))
  | Some r2, Some q2 => Some (Tmr b (Some (if cmp r2 q2 <? 0 then q2 else r2)))
  | _, None => None
  end.

(** The first range that overlaps [r], and what is around it. *)
Fixpoint find_overlap (cmp : cmp_func_t) (r : tmr) (l : list tmr) : option (list tmr * tmr * list tmr) :=
  match l with
  | [] => None
  | q :: l =>
      if overlapping cmp r q then Some ([], q, l)
      else match find_overlap cmp r l with
           | Some (bf, q', af) => Some (q :: bf, q', af)
           | None => None
           end
  end.

(** Takes over what overlaps [r], from the beginning again after every time. *)
Fixpoint absorb (cmp : cmp_func_t) (fuel : nat) (r : tmr) (l : list tmr) : option (tmr * list tmr) :=
  match find_overlap cmp r l with
  | None => Some (r, l)
  | Some (bf, q, af) =>
      match fuel with
      | O => None
      | S fuel => r ← combine cmp r q; absorb cmp fuel r (bf ++ af)
      end
  end.

Fixpoint normalize_loop (cmp : cmp_func_t) (fuel : nat) (rl : list tmr) : option (list tmr) :=
  match rl with
  | [] => Some []
  | r :: l =>
      match fuel with
      | O => None
      | S fuel => '(r, l) ← absorb cmp (length l) r l; cons r <$> normalize_loop cmp fuel l
      end
  end.

Definition normalize_range_list (rl : list tmr) (cmp : cmp_func_t) : option (list tmr) :=
  normalize_loop cmp (length rl) rl.

Definition full_daytime_range : list tmr := [Tmr tm_zero (Some (with_hour 24 tm_zero))].
Definition full_weekday_range : list tmr := [Tmr tm_zero (Some (with_wday 6 tm_zero))].

(** What becomes of a range that has just been appended. *)
Definition split_daytime_range (r : tmr) : list tmr :=
  match TMR_end r with
  | Some t2 =>
      if 0 <? tm_daytime_cmp (TMR_begin r) t2 then
        [Tmr (TMR_begin r) (Some (with_hour 24 tm_zero)); Tmr tm_zero (Some t2)]
      else [r]
  | None => [r]
  end.

Definition split_wday_range (r : tmr) : list tmr :=
  match TMR_end r with
  | Some t2 =>
      if 0 <? tm_wday_cmp (TMR_begin r) t2 then
        [Tmr (TMR_begin r) (Some (with_wday 6 tm_zero)); Tmr tm_zero (Some t2)]
      else [r]
  | None => [r]
  end.

Definition begin_wday (r : tmr) : Z := tm_wday (TMR_begin r).
Definition end_wday (r : tmr) : Z := match TMR_end r with Some t => tm_wday t | None => begin_wday r end.

(** [day_range1], whose end was [end1] with an element ([has_end]) when the loop began, and
    one other range: the new [day_range1] and whether the other one is removed. *)
Definition join_one (begin1 end1 : Z) (has_end : bool) (r1 r2 : tmr) : tmr * bool :=
  let begin2 := begin_wday r2 in
  let end2 := end_wday r2 in
  if (begin2 <=? u32 (end1 + 1)) && (begin1 <=? begin2) then
    ((if end1 <? end2 then
        if has_end then Tmr (TMR_begin r1) (with_wday end2 <$> TMR_end r1)
        else Tmr (TMR_begin r1) (TMR_end r2)
      else r1), true)
  else (r1, false).

Fixpoint join_others (begin1 end1 : Z) (has_end : bool) (r1 : tmr) (l : list tmr) : tmr * list tmr :=
  match l with
  | [] => (r1, [])
  | r2 :: l =>
      let '(r1, removed) := join_one begin1 end1 has_end r1 r2 in
      let '(r1, l) := join_others begin1 end1 has_end r1 l in
      (r1, if removed then l else r2 :: l)
  end.

(** [bf]: the ranges in front of [day_range1]. *)
Fixpoint join_loop (fuel : nat) (bf l : list tmr) : option (list tmr) :=
  match l with
  | [] => Some bf
  | r1 :: l =>
      match fuel with
      | O => None
      | S fuel =>
          let has_end := match TMR_end r1 with Some _ => true | None => false end in
          let join := join_others (begin_wday r1) (end_wday r1) has_end in
          let '(r1, bf) := join r1 bf in
          let '(r1, l) := join r1 l in
          join_loop fuel (bf ++ [r1]) l
      end
  end.

Definition join_wday_range (week_day : list tmr) : option (list tmr) :=
  join_loop (length week_day) [] week_day.

Definition extend_one (end1 : Z) (r1 r2 : tmr) : tmr :=
  if (end1 =? 6) && (begin_wday r2 =? 0) then
    let tempEnd := u32 (end1 + 1 + end_wday r2) in
    Tmr (TMR_begin r1) (Some (with_wday tempEnd (default (TMR_begin r1) (TMR_end r1))))
  else r1.

Fixpoint extend_loop (bf l : list tmr) : list tmr :=
  match l with
  | [] => bf
  | r1 :: l =>
      let r1 := fold_left (extend_one (end_wday r1)) (bf ++ l) r1 in
      extend_loop (bf ++ [r1]) l
  end.

Definition extend_wday_range (week_day : list tmr) : list tmr := extend_loop [] week_day.

(** ** The next change *)

Definition midnight (t : tm) : bool :=
  (tm_sec t =? 0) && (tm_min t =? 0).

(** The range of a calendar that is valid for whole days. *)
Definition full_day (r : tmr) : option bool :=
  e ← TMR_end r;
  Some (midnight e && (tm_hour e =? 24) && midnight (TMR_begin r) && (tm_hour (TMR_begin r) =? 0)).

(** The smallest begin that [ok] allows. *)
Definition min_begin (cmp : cmp_func_t) (ok : tm -> bool) (l : list tmr) : option tm :=
  fold_left (fun lep r =>
    let b := TMR_begin r in
    if ok b && (match lep with None => true | Some t => 0 <? cmp t b end) then Some b else lep) l None.

(** The end of the range [now] is in; nothing when the ranges cover the whole week.  The
    first flag is the loop's [is_allways_inactive]. *)
Fixpoint week_end (is_full_day always : bool) (now : tm) (l : list tmr) : bool * option tm :=
  match l with
  | [] => (always, None)
  | r :: l =>
      let always := always && is_full_day &&
        match TMR_end r with Some e => u32 (tm_wday e - begin_wday r) =? 6 | None => false end in
      if in_range tm_wday_cmp now r then
        let e := default (TMR_begin r) (TMR_end r) in
        (always, Some (with_mday (u32 (tm_mday now + (tm_wday e - tm_wday now))) now))
      else week_end is_full_day always now l
  end.

Inductive next_day :=
  | Never             (* the calendar is valid for the whole week *)
  | NoEntry           (* no day is left *)
  | Day (t : tm) (end_of_day : bool).

(** Whole days, or a day that is not today: the day of the change. *)
Definition find_day (active is_full_day : bool) (year_time week_time : option (list tmr)) (now : tm) :
    option next_day :=
  if active then
    match year_time, week_time with
    | Some l, _ =>
        match find (in_range tm_yday_cmp now) l with
        | Some r => Some (Day (with_time 23 59 59 (default (TMR_begin r) (TMR_end r))) true)
        | None => None
        end
    | None, Some l =>
        match week_end is_full_day true now l with
        | (true, _) => Some Never
        | (false, Some t) => Some (Day (with_time 23 59 59 t) true)
        | (false, None) => None
        end
    | None, None => None
    end
  else
    match year_time, week_time with
    | Some l, _ =>
        Some (match min_begin tm_yday_cmp (fun b => tm_yday_cmp now b <? 0) l with
              | Some t => Day t false
              | None => NoEntry
              end)
    | None, Some l =>
        match min_begin tm_wday_cmp (fun b => tm_wday_cmp now b <? 0) l with
        | Some t =>
            Some (Day (with_month (tm_mon now) (tm_year now)
                   (with_mday (u32 (tm_mday now + (tm_wday t - tm_wday now))) t)) false)
        | None =>
            t ← min_begin tm_wday_cmp (fun _ => true) l;
            Some (Day (with_month (tm_mon now) (tm_year now)
                   (with_mday (u32 (tm_mday now + (7 - tm_wday now) + tm_wday t)) t)) false)
        end
    | None, None => None
    end.

(** The time of day of the change. *)
Definition find_daytime (active : bool) (day_time : list tmr) (now : tm) : option tm :=
  if active then r ← find (in_range tm_daytime_cmp now) day_time; TMR_end r
  else min_begin tm_daytime_cmp (fun b => tm_daytime_cmp now b <=? 0) day_time.

Section TimeZone.
Context `{Zone}.

(** The change on the day of [new_now], or its end; the flag is [is_end_of_day_reached]. *)
Definition day_limit (active : bool) (day_time : list tmr) (new_now : tm) : Z * bool :=
  let found := find_daytime active day_time new_now in
  let reached := match found with Some _ => false | None => true end in
  let lep := default (with_time 24 0 0 new_now) found in
  let end_of_day := tm_hour lep =? 24 in
  let lep := if end_of_day then with_time 23 59 59 lep else lep in
  let tm_limit := with_time (s32 (tm_hour lep)) (s32 (tm_min lep)) (s32 (tm_sec lep)) (uncullify_tm new_now) in
  (mktime tm_limit + Z.b2z end_of_day, reached).

Definition compute_limit (today active : bool) (year_time week_time day_time : option (list tmr)) (now : tm) :
    option (Z * bool) :=
  match day_time with
  | None => Some (0, false)
  | Some day_time =>
      match year_time, week_time with
      | Some _, Some _ | None, None => Some (0, false)
      | _, _ =>
          first ← head day_time;
          is_full_day ← full_day first;
          if is_full_day || negb today then
            d ← find_day active is_full_day year_time week_time now;
            Some (match d with
              | Never | NoEntry => (0, false)
              | Day t end_of_day =>
                  let t := with_isdst (u32 (-1)) t in
                  if (is_full_day : bool) then (mktime (uncullify_tm t) + Z.b2z end_of_day, false)
                  else day_limit active day_time t
              end)
          else Some (day_limit active day_time now)
      end
  end.

Definition cullified (t : Z) : tm := cullify_tm (localtime t).

(** The state, the limit and the state behind it.  The call passes the value [rec_count++]
    has, the old one. *)
Fixpoint is_week_entry_active (fuel : nat) (t : tm) (week_entry : ca) (rec_count : Z) : option (Z * Z * Z) :=
  match fuel with
  | O => None
  | S fuel =>
      let in_wday_range := in_range_list tm_wday_cmp t (CA_wday_range_list week_entry) in
      let in_daytime_range := in_wday_range &&
        in_range_list tm_daytime_cmp t (CA_daytime_range_list week_entry) in
      let state := if in_daytime_range then CA_state week_entry else 0 in
      let next_state := if in_daytime_range then 0 else CA_state week_entry in
      '(limit, reached) ← compute_limit in_wday_range in_daytime_range None (CA_wday_range_list week_entry)
                            (CA_daytime_range_list week_entry) t;
      '(state, limit, next_state) ←
        (if (reached : bool) then
           let limit := limit + 1 in
           if rec_count <? 4 then is_week_entry_active fuel (cullified limit) week_entry rec_count
           else Some (state, limit, next_state)
         else Some (state, limit, next_state));
      Some (state, limit, if limit =? 0 then 0 else next_state)
  end.

Fixpoint is_year_entry_active (fuel : nat) (t : tm) (year_entry : ca) : option (Z * Z) :=
  match fuel with
  | O => None
  | S fuel =>
      let in_yday_range := in_range_list tm_yday_cmp t (CA_yday_range_list year_entry) in
      let in_daytime_range := in_yday_range &&
        in_range_list tm_daytime_cmp t (CA_daytime_range_list year_entry) in
      let state := if in_daytime_range then CA_state year_entry else 0 in
      '(limit, reached) ← compute_limit in_yday_range in_daytime_range (CA_yday_range_list year_entry) None
                            (CA_daytime_range_list year_entry) t;
      if (reached : bool) then
        let next_day := limit + 1 in
        '(next_day_state, limit) ← is_year_entry_active fuel (cullified next_day) year_entry;
        Some (if negb (next_day_state =? state) then (state, next_day) else (next_day_state, limit))
      else Some (state, limit)
  end.

(** One entry is looked at, then the day behind a day whose end was reached. *)
Definition entry_fuel : nat := 3.

(** ** The state *)

Definition year_step (t : tm) (acc : option (Z * Z)) (yc : ca) : option (Z * Z) :=
  '(state, next_event) ← acc;
  '(y_is_active, limit) ← is_year_entry_active entry_fuel t yc;
  Some (if negb (state =? y_is_active) || (state =? QI_DO_NOTHING) then
          (Z.lor state y_is_active,
           if (next_event =? 0) || (negb (limit =? 0) && (limit <? next_event)) then limit else next_event)
        else
          (state, if (next_event =? 0) || (negb (limit =? 0) && (next_event <? limit)) then limit else next_event)).

(** The variables of the loop over the week calendar. *)
Record week_vars := Wv {
  wv_state : Z; wv_next_event : Z; wv_tm : tm; wv_visited : list bool; wv_overlapping : bool;
}.

Definition activate (state w_is_active : Z) : Z := if 0 <? w_is_active then Z.lor state w_is_active else state.

(** The [for] loop: the entries from the one with number [counter] on. *)
Fixpoint week_round (counter : nat) (wcal : list ca) (v : week_vars) : option week_vars :=
  match wcal with
  | [] => Some v
  | wc :: wcal =>
      '(w, limit, next_state) ← is_week_entry_active entry_fuel (wv_tm v) wc 0;
      let state := activate (wv_state v) w in
      let go_on '(state, next_event, t, visited, overlapping, limit, next_state) :=
        let next_event :=
          if negb (state =? next_state) && ((next_event =? 0) || (negb (limit =? 0) && (limit <? next_event)))
          then limit else next_event in
        week_round (S counter) wcal (Wv state next_event t visited overlapping) in
      if negb (limit =? 0) && (state =? next_state) && (limit <=? wv_next_event v) then
        if default true (wv_visited v !! counter) then
          Some (Wv state 0 (wv_tm v) (wv_visited v) false)
        else
          let t := cullified (wv_next_event v + 1) in
          '(w, limit, next_state) ← is_week_entry_active entry_fuel t wc 0;
          go_on (activate state w, 0, t, <[counter := true]> (wv_visited v), true, limit, next_state)
      else go_on (state, wv_next_event v, wv_tm v, wv_visited v, wv_overlapping v, limit, next_state)
  end.

Fixpoint week_loop (fuel : nat) (wcal : list ca) (v : week_vars) : option week_vars :=
  match fuel with
  | O => None
  | S fuel =>
      v ← week_round 0 wcal (Wv (wv_state v) (wv_next_event v) (wv_tm v) (wv_visited v) false);
      if wv_overlapping v then week_loop fuel wcal v else Some v
  end.

(** The state that wins. *)
Definition resolve (state : Z) : Z :=
  if negb (Z.land state QI_DO_ENABLE =? 0) then QI_DO_ENABLE
  else if negb (Z.land state QI_DO_SUSPEND =? 0) then QI_DO_SUSPEND
  else if negb (Z.land state QI_DO_DISABLE =? 0) then QI_DO_DISABLE
  else QI_DO_ENABLE.

(** The state and [*next_event]. *)
Definition state_at (now : Z) (ycal wcal : option (list ca)) : option (Z * Z) :=
  let t := cullified now in
  '(state, next_event) ← fold_left (year_step t) (default [] ycal) (Some (0, 0));
  '(state, next_event) ←
    (if state =? 0 then
       let wcal := default [] wcal in
       v ← week_loop (S (S (length wcal))) wcal (Wv state next_event t (repeat false (length wcal)) false);
       Some (wv_state v, wv_next_event v)
     else Some (state, next_event));
  Some (resolve state, next_event).

Definition calendar_get_current_state_and_end (cep : cal) (now : Z) : option (Z * Z) :=
  '(new_state, next_event) ← state_at now (CAL_parsed_year_calendar cep) (CAL_parsed_week_calendar cep);
  Some (if new_state =? QI_DO_DISABLE then QI_DO_CAL_DISABLE
        else if new_state =? QI_DO_SUSPEND then QI_DO_CAL_SUSPEND
        else QI_DO_NOTHING, next_event).

(** ** Changes *)

(** [libs/uti/sge_time.cc] *)
Definition sge_gmt64_to_time_t (timestamp : Z) : Z := timestamp / 1000000.
Definition sge_time_t_to_gmt64 (timestamp : Z) : Z := u64 (timestamp * 1000000).

Definition max_state_changes : Z := 60.

(** [CQU_Type] *)
Record cqu := Cqu { CQU_state : Z; CQU_till : Z }.

(** The two loops: from [temp_when] on to the end of a state other than [state0].  The result
    is the moment the last round began at, the state it found, its end and the number of rounds. *)
Fixpoint skip_changes (fuel : nat) (cep : cal) (state0 temp_when state_changes : Z) : option (Z * Z * Z * Z) :=
  match fuel with
  | O => None
  | S fuel =>
      '(state, next) ← calendar_get_current_state_and_end cep (temp_when + 1);
      let state_changes := state_changes + 1 in
      if negb (next =? 0) && (state =? state0) && (state_changes <? max_state_changes) then
        skip_changes fuel cep state0 next state_changes
      else Some (temp_when, state, next, state_changes)
  end.

(** The state, the list, [*when64] and [*now64]. *)
Definition calender_state_changes (cep : option cal) (now64 : Z) : option (Z * option (list cqu) * option Z * Z) :=
  match cep with
  | None => Some (0, None, None, now64)
  | Some cep =>
      let now := sge_gmt64_to_time_t now64 in
      '(state0, temp_when) ← calendar_get_current_state_and_end cep now;
      '(when, when1, state1) ←
        (if negb (temp_when =? 0) then
           '(when, state1, temp_when, state_changes) ← skip_changes 61 cep state0 temp_when 0;
           let when := if state0 =? state1 then temp_when else when in
           '(when1, state2, temp_when) ←
             (if negb (temp_when =? 0) then
                '(when1, state2, temp_when, _) ← skip_changes 61 cep state1 temp_when state_changes;
                Some (when1, state2, temp_when)
              else Some (temp_when, 0, temp_when));
           Some (when, if state1 =? state2 then temp_when else when1, state1)
         else Some (temp_when, 0, 0));
      let when64 := sge_time_t_to_gmt64 when in
      Some (state0,
            Some (Cqu state0 when64 ::
                  if negb (when64 =? 0) then [Cqu state1 (sge_time_t_to_gmt64 when1)] else []),
            Some when64, sge_time_t_to_gmt64 now)
  end.

Definition duration_add_offset (duration offset : Z) : Z :=
  let max := 18446744073709551615 in
  if (duration =? max) || (offset =? max) then max
  else if max - offset <? duration then max
  else duration + offset.

Fixpoint open_loop (fuel : nat) (ycal wcal : option (list ca)) (start end_ : Z) : option bool :=
  match fuel with
  | O => None
  | S fuel =>
      '(state, next_change) ← state_at start ycal wcal;
      if (state =? QI_DO_ENABLE) && negb (next_change =? 0) && (next_change <=? end_) then
        open_loop fuel ycal wcal next_change end_
      else Some (state =? QI_DO_ENABLE)
  end.

Definition calendar_open_in_time_frame (fuel : nat) (cep : option cal) (start_time duration : Z) : option bool :=
  let start := sge_gmt64_to_time_t start_time in
  let end_ := sge_gmt64_to_time_t (duration_add_offset start_time duration) in
  open_loop fuel (cep ≫= CAL_parsed_year_calendar) (cep ≫= CAL_parsed_week_calendar) start end_.

End TimeZone.

(** ** References *)

(** [CQ_Type], as far as calendars go: the name and the [ASTR_value]s of [CQ_calendar]. *)
Record cqueue := Cq { CQ_name : option bytes; CQ_calendar : list (option bytes) }.

(** The result and an information for every cluster queue that uses the calendar. *)
Definition calendar_is_referenced (text : bytes -> option bytes -> string) (calendar : cal) (al : answer_arg)
    (master_cqueue_list : list cqueue) : bool * answer_arg :=
  match CAL_name calendar with
  | None => (false, al)
  | Some name =>
      fold_left (fun '(ret, al) cq =>
        if existsb (fun q => match q with Some q => Host.strcmp q name =? 0 | None => false end) (CQ_calendar cq) then
          (true, snd (answer_list_add al (text name (CQ_name cq)) STATUS_EUNKNOWN ANSWER_QUALITY_INFO))
        else (ret, al))
        master_cqueue_list (false, al)
  end.

Definition sge_generic_cal (cal_name : option bytes) (template : bytes) : cal :=
  Cal (Some (default template cal_name)) None None None None.

End Calendar.
