(* ===== verification/CalFacts.v ===== *)
(** CalFacts: the ranges of a calendar as intervals.

    The three comparison functions order their moments by a key each; a range is then an
    interval of keys, and the operations on lists of ranges are about sets of keys.  In
    [CalMoments], the moments of a zone at a constant offset as days and seconds. *)

From S2P Require Import Prelude CalTime Calendar.
Import CalTime Calendar.

Module CalFacts.

(** ** Keys *)

(** [cmp] orders the moments that satisfy [dom] by [key]. *)
Class Ordered (cmp : cmp_func_t) (dom : tm -> Prop) (key : tm -> Z) : Prop := {
  cmp_sign : forall t1 t2, dom t1 -> dom t2 -> Z.sgn (cmp t1 t2) = Z.sgn (key t1 - key t2);
}.

Definition daytime_key (t : tm) : Z := tm_hour t * 3600 + tm_min t * 60 + tm_sec t.
Definition daytime_dom (t : tm) : Prop :=
  (0 <= tm_hour t <= 24 /\ 0 <= tm_min t < 60 /\ 0 <= tm_sec t < 60) /\ daytime_key t <= 86400.

Definition wday_dom (t : tm) : Prop := 0 <= tm_wday t < 1000.

Definition yday_dom (t : tm) : Prop :=
  0 <= tm_year t < 1000000 /\ 0 <= tm_mon t < 12 /\ 0 <= tm_mday t < 32.
Definition yday_key (t : tm) : Z := (tm_year t * 12 + tm_mon t) * 32 + tm_mday t.

Lemma s32_small z : -2147483648 <= z < 2147483648 -> s32 z = z.
Proof. intros. unfold s32. rewrite Z.mod_small; lia. Qed.

Lemma first_diff_sgn a b : Z.sgn (first_diff a b) = if a =? 0 then Z.sgn b else Z.sgn a.
Proof. unfold first_diff. by destruct (a =? 0). Qed.

#[export] Instance daytime_ordered : Ordered tm_daytime_cmp daytime_dom daytime_key.
Proof.
  split. intros t1 t2 [(H1 & H2 & H3) _] [(H4 & H5 & H6) _]. unfold tm_daytime_cmp, daytime_key.
  rewrite !first_diff_sgn, !s32_small by lia. repeat case_match; lia.
Qed.

#[export] Instance wday_ordered : Ordered tm_wday_cmp wday_dom tm_wday.
Proof. split. intros t1 t2 H1 H2. unfold tm_wday_cmp, wday_dom in *. by rewrite s32_small by lia. Qed.

#[export] Instance yday_ordered : Ordered tm_yday_cmp yday_dom yday_key.
Proof.
  split. intros t1 t2 (H1 & H2 & H3) (H4 & H5 & H6). unfold tm_yday_cmp, yday_key.
  rewrite !first_diff_sgn, !s32_small by lia. repeat case_match; lia.
Qed.

(** ** Ranges *)

Section Ranges.
Context (cmp : cmp_func_t) (dom : tm -> Prop) (key : tm -> Z) `{!Ordered cmp dom key}.

Lemma cmp_le t1 t2 : dom t1 -> dom t2 -> (cmp t1 t2 <=? 0) = (key t1 <=? key t2).
Proof. intros H1 H2. pose proof (cmp_sign t1 t2 H1 H2). lia. Qed.
Lemma cmp_lt t1 t2 : dom t1 -> dom t2 -> (cmp t1 t2 <? 0) = (key t1 <? key t2).
Proof. intros H1 H2. pose proof (cmp_sign t1 t2 H1 H2). lia. Qed.
Lemma cmp_gt t1 t2 : dom t1 -> dom t2 -> (0 <? cmp t1 t2) = (key t2 <? key t1).
Proof. intros H1 H2. pose proof (cmp_sign t1 t2 H1 H2). lia. Qed.
Lemma cmp_eq t1 t2 : dom t1 -> dom t2 -> (cmp t1 t2 =? 0) = (key t1 =? key t2).
Proof. intros H1 H2. pose proof (cmp_sign t1 t2 H1 H2). lia. Qed.

Definition last_of (r : tmr) : tm := match TMR_end r with Some e => e | None => TMR_begin r end.
Definition lo (r : tmr) : Z := key (TMR_begin r).
Definition hi (r : tmr) : Z := key (last_of r).

Record range_ok (r : tmr) : Prop := {
  ro_begin : dom (TMR_begin r);
  ro_last : dom (last_of r);
  ro_order : lo r <= hi r;
}.

(** [x] is one of the keys of the ranges. *)
Definition covers (l : list tmr) (x : Z) : Prop := Exists (fun r => lo r <= x <= hi r) l.

Lemma covers_nil x : covers [] x <-> False.
Proof. apply Exists_nil. Qed.
Lemma covers_cons r l x : covers (r :: l) x <-> lo r <= x <= hi r \/ covers l x.
Proof. apply Exists_cons. Qed.
Lemma covers_app l1 l2 x : covers (l1 ++ l2) x <-> covers l1 x \/ covers l2 x.
Proof. apply Exists_app. Qed.

Lemma in_range_key t r : dom t -> range_ok r -> in_range cmp t r = (lo r <=? key t) && (key t <=? hi r).
Proof.
  intros Ht [H1 H2 H3]. unfold in_range, hi, last_of, lo in *. destruct (TMR_end r) as [e|].
  - by rewrite !cmp_le.
  - rewrite cmp_eq by done. lia.
Qed.

Lemma in_list_key t l :
  dom t -> Forall range_ok l -> in_range_list cmp t (Some l) = true <-> covers l (key t).
Proof.
  intros Ht Hl. cbn [in_range_list]. rewrite existsb_exists. unfold covers. rewrite Exists_exists.
  rewrite Forall_forall in Hl. split.
  - intros (r & Hr & E). apply list_elem_of_In in Hr. rewrite in_range_key in E by auto. exists r. split; [done|lia].
  - intros (r & Hr & E). exists r. split; [by apply list_elem_of_In|]. rewrite in_range_key by auto. lia.
Qed.

(** ** Combining overlapping ranges *)

Definition closed (r : tmr) : Prop := range_ok r /\ is_Some (TMR_end r).

Definition apart (r q : tmr) : Prop := hi r < lo q \/ hi q < lo r.

Lemma opt_in_range_key r q :
  range_ok q -> closed r -> opt_in_range cmp (TMR_end r) q = (lo q <=? hi r) && (hi r <=? hi q).
Proof.
  intros Hq [[H1 H2 H3] [e E]]. unfold hi, last_of in *. rewrite E in *. cbn [opt_in_range] in *.
  by rewrite in_range_key.
Qed.

Lemma overlapping_key r q : closed r -> closed q -> overlapping cmp r q = false <-> apart r q.
Proof.
  intros Hr Hq. pose proof Hr as [[] _]. pose proof Hq as [[] _]. unfold overlapping, apart.
  rewrite !opt_in_range_key, !in_range_key by (done || apply Hr || apply Hq).
  unfold lo in *. lia.
Qed.

Lemma combine_spec r q :
  closed r -> closed q -> ~ apart r q ->
  exists r', combine cmp r q = Some r' /\ closed r' /\ forall x, lo r' <= x <= hi r' <-> lo r <= x <= hi r \/ lo q <= x <= hi q.
Proof.
  intros [[R1 R2 R3] [r2 Er]] [[Q1 Q2 Q3] [q2 Eq]] Ha. unfold combine, apart, hi, last_of, lo in *.
  rewrite Er, Eq in *.
  eexists. split; [done|]. unfold closed. cbn [TMR_begin TMR_end].
  rewrite cmp_gt, cmp_lt by done.
  destruct (Z.ltb_spec (key (TMR_begin q)) (key (TMR_begin r))), (Z.ltb_spec (key r2) (key q2));
    (split; [split; [split|by eexists]|]); unfold lo, hi, last_of; cbn [TMR_begin TMR_end];
    first [done | intros x; lia | lia].
Qed.

Lemma find_overlap_spec r l :
  closed r -> Forall closed l ->
  match find_overlap cmp r l with
  | None => Forall (apart r) l
  | Some (bf, q, af) => l = bf ++ q :: af /\ ~ apart r q
  end.
Proof.
  intros Hr. induction 1 as [|q l Hq Hl IH]; [apply Forall_nil_2|]. cbn [find_overlap].
  destruct (overlapping cmp r q) eqn:E.
  - split; [done|]. rewrite <- overlapping_key by done. congruence.
  - apply overlapping_key in E; [|done|done]. destruct (find_overlap cmp r l) as [[[bf q'] af]|].
    + destruct IH as [-> ?]. done.
    + by apply Forall_cons_2.
Qed.

Lemma absorb_spec fuel r l :
  closed r -> Forall closed l -> (length l <= fuel)%nat ->
  exists r' l', absorb cmp fuel r l = Some (r', l') /\ closed r' /\ Forall closed l' /\ Forall (apart r') l' /\
    (length l' <= length l)%nat /\
    forall x, covers (r' :: l') x <-> covers (r :: l) x.
Proof.
  revert r l. induction fuel as [|fuel IH]; intros r l Hr Hl Hf; cbn [absorb];
    pose proof (find_overlap_spec r l Hr Hl) as Hs; destruct (find_overlap cmp r l) as [[[bf q] af]|].
  - destruct Hs as [-> _]. rewrite length_app in Hf. simpl in Hf. lia.
  - by exists r, l.
  - destruct Hs as [-> Ha]. apply Forall_app in Hl as [Hb [Hq Haf]%Forall_cons].
    destruct (combine_spec r q Hr Hq Ha) as (r1 & -> & Hr1 & Hx). cbn [mbind option_bind].
    rewrite length_app in Hf. simpl in Hf.
    destruct (IH r1 (bf ++ af)) as (r' & l' & -> & H1 & H2 & H3 & H4 & H5);
      [done|by apply Forall_app|rewrite length_app; lia|].
    exists r', l'. split; [done|]. split; [done|]. split; [done|]. split; [done|].
    split; [rewrite !length_app in *; simpl; lia|]. intros x. rewrite H5, !covers_cons, !covers_app, covers_cons, Hx.
    tauto.
  - by exists r, l.
Qed.

Lemma apart_covers r l : Forall closed l -> closed r ->
  Forall (apart r) l <-> forall x, covers l x -> ~ (lo r <= x <= hi r).
Proof.
  intros Hl [[_ _ Hr] _]. unfold covers. setoid_rewrite Exists_exists. rewrite Forall_forall in Hl |- *. split.
  - intros Ha x (q & Hq & Hx) Hx'. destruct (Ha q Hq); lia.
  - intros Hx q Hq. destruct (Hl q Hq) as [[_ _ Ho] _]. unfold apart.
    specialize (Hx (Z.max (lo r) (lo q))). destruct (Z_lt_dec (hi r) (lo q)); [by left|].
    destruct (Z_lt_dec (hi q) (lo r)); [by right|]. exfalso. apply Hx; [|lia]. exists q. split; [done|lia].
Qed.

Lemma normalize_loop_spec fuel rl :
  Forall closed rl -> (length rl <= fuel)%nat ->
  exists rl', normalize_loop cmp fuel rl = Some rl' /\ Forall closed rl' /\
    (forall x, covers rl' x <-> covers rl x) /\ ForallOrdPairs apart rl'.
Proof.
  revert rl. induction fuel as [|fuel IH]; intros [|r l] Hl Hf;
    try (simpl in Hf; lia); try (exists []; split; [done|]; split; [done|]; split; [done|constructor]).
  apply Forall_cons in Hl as [Hr Hl]. cbn [normalize_loop].
  destruct (absorb_spec (length l) r l Hr Hl) as (r1 & l1 & -> & H1 & H2 & H3 & H4 & H5); [done|].
  cbn [mbind option_bind]. destruct (IH l1) as (l2 & -> & I1 & I2 & I3); [done|simpl in Hf; lia|].
  exists (r1 :: l2). split; [done|]. split; [by apply Forall_cons_2|]. split.
  - intros x. rewrite <- H5, !covers_cons, I2. done.
  - constructor; [|done]. apply apart_covers; [done|done|]. intros x Hx. rewrite I2 in Hx.
    by apply (proj1 (apart_covers r1 l1 H2 H1) H3).
Qed.

(** Normalising keeps the set and leaves ranges that are apart. *)
Lemma normalize_spec rl :
  Forall closed rl ->
  exists rl', normalize_range_list rl cmp = Some rl' /\ Forall closed rl' /\
    (forall x, covers rl' x <-> covers rl x) /\ ForallOrdPairs apart rl'.
Proof. intros H. by apply normalize_loop_spec. Qed.

(** ** The smallest begin *)

Lemma min_begin_spec ok l :
  Forall (fun r => dom (TMR_begin r)) l ->
  match min_begin cmp ok l with
  | Some b => (exists r, r ∈ l /\ b = TMR_begin r) /\ ok b = true /\
      forall r, r ∈ l -> ok (TMR_begin r) = true -> key b <= lo r
  | None => forall r, r ∈ l -> ok (TMR_begin r) = false
  end.
Proof.
  intros Hl. unfold min_begin.
  assert (forall done acc,
    (match acc with
     | Some b => (exists r, r ∈ done /\ b = TMR_begin r) /\ dom b /\ ok b = true /\
         forall r, r ∈ done -> ok (TMR_begin r) = true -> key b <= lo r
     | None => forall r, r ∈ done -> ok (TMR_begin r) = false
     end) ->
    match fold_left (fun lep r =>
        if ok (TMR_begin r) && (match lep with None => true | Some t => 0 <? cmp t (TMR_begin r) end)
        then Some (TMR_begin r) else lep) l acc with
    | Some b => (exists r, r ∈ done ++ l /\ b = TMR_begin r) /\ ok b = true /\
        forall r, r ∈ done ++ l -> ok (TMR_begin r) = true -> key b <= lo r
    | None => forall r, r ∈ done ++ l -> ok (TMR_begin r) = false
    end) as H.
  { induction Hl as [|q l Hq Hl IH]; intros ds acc Hacc.
    - cbn [fold_left]. rewrite app_nil_r. destruct acc; [|done]. naive_solver.
    - cbn [fold_left]. replace (ds ++ q :: l) with ((ds ++ [q]) ++ l) by (by rewrite <- app_assoc).
      apply IH. destruct (ok (TMR_begin q)) eqn:Eq; cbn [andb].
      + destruct acc as [b|].
        * destruct Hacc as ((r & Hr & ->) & Hd & Ho & Hm). rewrite cmp_gt by done.
          destruct (Z.ltb_spec (key (TMR_begin q)) (key (TMR_begin r))).
          -- split; [exists q; split; [set_solver|done]|]. split; [done|]. split; [done|].
             intros r'. rewrite elem_of_app, list_elem_of_singleton. intros [Hr'| ->] Ho'; [|done].
             specialize (Hm r' Hr' Ho'). unfold lo in *. lia.
          -- split; [exists r; split; [set_solver|done]|]. split; [done|]. split; [done|].
             intros r'. rewrite elem_of_app, list_elem_of_singleton. intros [Hr'| ->] Ho'; [by apply Hm|done].
        * split; [exists q; split; [set_solver|done]|]. split; [done|]. split; [done|].
          intros r'. rewrite elem_of_app, list_elem_of_singleton. intros [Hr'| ->] Ho'; [|done].
          specialize (Hacc r' Hr'). congruence.
      + destruct acc as [b|].
        * destruct Hacc as ((r & Hr & ->) & Hd & Ho & Hm).
          split; [exists r; split; [set_solver|done]|]. split; [done|]. split; [done|].
          intros r'. rewrite elem_of_app, list_elem_of_singleton. intros [Hr'| ->] Ho'; [by apply Hm|congruence].
        * intros r'. rewrite elem_of_app, list_elem_of_singleton. intros [Hr'| ->]; [by apply Hacc|done]. }
  specialize (H [] None). cbn [app] in H. apply H. intros r Hr. by apply elem_of_nil in Hr.
Qed.

End Ranges.

End CalFacts.

Import CalFacts.

Module CalMoments.

Lemma month_length k : month_start (k + 1) <= month_start k + 31.
Proof.
  unfold month_start. pose proof (Z.div_mod (k - 2) 12 ltac:(lia)) as H.
  pose proof (Z.mod_pos_bound (k - 2) 12 ltac:(lia)) as Hm.
  set (y := (k - 2) / 12) in *. set (m := (k - 2) mod 12) in *.
  destruct (Z.eq_dec m 11) as [E|E].
  - rewrite <- (Z.div_unique (k + 1 - 2) 12 (y + 1) 0) by lia.
    rewrite <- (Z.mod_unique (k + 1 - 2) 12 (y + 1) 0) by lia. rewrite E.
    change ((153 * 11 + 2) / 5) with 337. change ((153 * 0 + 2) / 5) with 0. divlia.
  - rewrite <- (Z.div_unique (k + 1 - 2) 12 y (m + 1)) by lia.
    rewrite <- (Z.mod_unique (k + 1 - 2) 12 y (m + 1)) by lia. divlia.
Qed.

Lemma month_of_mono a b : a <= b -> month_of a <= month_of b.
Proof.
  intros H. destruct (Z.le_gt_cases (month_of a) (month_of b)) as [|Hl]; [done|exfalso].
  pose proof (month_of_spec a). pose proof (month_of_spec b).
  destruct (Z.eq_dec (month_of b + 1) (month_of a)) as [E|E]; [rewrite <- E in *; lia|].
  pose proof (month_start_mono (month_of b + 1) (month_of a) ltac:(lia)). lia.
Qed.

Lemma year_length y : month_start (12 * (y + 1)) <= month_start (12 * y) + 366.
Proof.
  unfold month_start. replace (12 * (y + 1) - 2) with (y * 12 + 10) by lia.
  replace (12 * y - 2) with ((y - 1) * 12 + 10) by lia.
  rewrite !Z.div_add_l, !(Z.add_comm _ 10), !Z.mod_add by lia.
  change (10 / 12) with 0. change (10 mod 12) with 10. divlia.
Qed.

(** The days from 1970 to about the year 65000. *)
Definition day_ok (n : Z) : Prop := epoch <= n < 24000000.

Lemma day_month n : day_ok n -> 23640 <= month_of n < 800000.
Proof.
  intros [H1 H2]. split.
  - etrans; [|by apply month_of_mono]. by vm_compute.
  - apply Z.le_lt_trans with (month_of 24000000); [by apply month_of_mono; lia|]. by vm_compute.
Qed.

(** ** Dates *)

(** The date of [t] is the day [n]. *)
Definition is_day (t : tm) (n : Z) : Prop :=
  tm_mon t = month_of n mod 12 /\ tm_year t = month_of n / 12 - 1900 /\
  tm_mday t = n - month_start (month_of n) + 1.

Lemma is_day_dom t n : day_ok n -> is_day t n -> yday_dom t.
Proof.
  intros Hn (H1 & H2 & H3). pose proof (day_month n Hn). pose proof (month_of_spec n).
  pose proof (month_length (month_of n)). unfold yday_dom. rewrite H1, H2, H3. divlia.
Qed.

Lemma is_day_key t n :
  is_day t n -> yday_key t = (month_of n - 22800) * 32 + (n - month_start (month_of n) + 1).
Proof. intros (H1 & H2 & H3). unfold yday_key. rewrite H1, H2, H3. divlia. Qed.

(** Dates are ordered like days. *)
Lemma is_day_order t1 t2 n1 n2 :
  is_day t1 n1 -> is_day t2 n2 -> (yday_key t1 ?= yday_key t2) = (n1 ?= n2).
Proof.
  intros D1 D2. rewrite (is_day_key _ _ D1), (is_day_key _ _ D2).
  assert (forall a b, a < b -> (month_of a - 22800) * 32 + (a - month_start (month_of a) + 1) <
    (month_of b - 22800) * 32 + (b - month_start (month_of b) + 1)) as Hlt.
  { intros a b Hab. pose proof (month_of_mono a b ltac:(lia)). pose proof (month_of_spec a).
    pose proof (month_of_spec b). pose proof (month_length (month_of a)).
    destruct (Z.eq_dec (month_of a) (month_of b)) as [E|E]; [rewrite E in *; lia|lia]. }
  destruct (Z.compare_spec n1 n2) as [->|H|H].
  - by rewrite Z.compare_refl.
  - by apply Z.compare_lt_iff, Hlt.
  - by apply Z.compare_gt_iff, Hlt.
Qed.

Lemma is_day_le t1 t2 n1 n2 : is_day t1 n1 -> is_day t2 n2 -> (yday_key t1 <=? yday_key t2) = (n1 <=? n2).
Proof. intros D1 D2. unfold Z.leb. by rewrite (is_day_order _ _ _ _ D1 D2). Qed.
Lemma is_day_lt t1 t2 n1 n2 : is_day t1 n1 -> is_day t2 n2 -> (yday_key t1 <? yday_key t2) = (n1 <? n2).
Proof. intros D1 D2. unfold Z.ltb. by rewrite (is_day_order _ _ _ _ D1 D2). Qed.

(** ** Moments *)

Section Offset.
Context (off : Z).

Definition day_of (t : Z) : Z := (t + off) / 86400 + epoch.
Definition sec_of (t : Z) : Z := (t + off) mod 86400.
Definition at_time (n s : Z) : Z := (n - epoch) * 86400 + s - off.

Lemma sec_of_bound t : 0 <= sec_of t < 86400.
Proof. apply Z.mod_pos_bound. lia. Qed.

Lemma at_time_of t : at_time (day_of t) (sec_of t) = t.
Proof. unfold at_time, day_of, sec_of. pose proof (Z.div_mod (t + off) 86400 ltac:(lia)). lia. Qed.

Lemma day_of_at n s : 0 <= s < 86400 -> day_of (at_time n s) = n /\ sec_of (at_time n s) = s.
Proof.
  intros Hs. unfold day_of, sec_of, at_time.
  replace ((n - epoch) * 86400 + s - off + off) with ((n - epoch) * 86400 + s) by lia.
  rewrite Z.div_add_l by lia. rewrite (Z.add_comm (_ * _) s), Z.mod_add by lia.
  rewrite Z.div_small, Z.mod_small by lia. lia.
Qed.

Lemma moment_at_next n : at_time n 86400 = at_time (n + 1) 0.
Proof. unfold at_time. lia. Qed.

Lemma day_mono t1 t2 : t1 <= t2 -> day_of t1 <= day_of t2.
Proof. intros. unfold day_of. pose proof (Z.div_le_mono (t1 + off) (t2 + off) 86400). lia. Qed.

(** [t] is on day [n] when it is between its ends. *)
Lemma at_time_le n s t : 0 <= s <= 86400 -> at_time n s <= t <-> n < day_of t \/ (n = day_of t /\ s <= sec_of t).
Proof.
  intros Hs. pose proof (sec_of_bound t). rewrite <- (at_time_of t) at 1. unfold at_time. nia.
Qed.

Lemma at_time_lt n s t : 0 <= s <= 86400 -> t < at_time n s <-> day_of t < n \/ (n = day_of t /\ sec_of t < s).
Proof.
  intros Hs. pose proof (at_time_le n s t Hs). lia.
Qed.

Definition moment (t : Z) : Prop := 0 < t /\ day_ok (day_of t).

Lemma tm_date t : is_day (fixed_localtime off t) (day_of t).
Proof. done. Qed.

Lemma localtime_time t :
  daytime_dom (fixed_localtime off t) /\ daytime_key (fixed_localtime off t) = sec_of t.
Proof.
  unfold daytime_dom, daytime_key, fixed_localtime, sec_of. cbn [tm_hour tm_min tm_sec].
  pose proof (Z.mod_pos_bound (t + off) 86400 ltac:(lia)). set (s := (t + off) mod 86400) in *. divlia.
Qed.

Lemma u32_id z : 0 <= z < 4294967296 -> u32 z = z.
Proof. apply u32_small. Qed.

Lemma tm_eq a b :
  tm_sec a = tm_sec b -> tm_min a = tm_min b -> tm_hour a = tm_hour b -> tm_mday a = tm_mday b ->
  tm_mon a = tm_mon b -> tm_year a = tm_year b -> tm_wday a = tm_wday b -> tm_yday a = tm_yday b ->
  tm_isdst a = tm_isdst b -> a = b.
Proof. destruct a, b. simpl. by intros -> -> -> -> -> -> -> -> ->. Qed.

#[local] Hint Extern 0 Zone => exact (fixed_zone off) : typeclass_instances.

(** The attributes of a moment fit into 32 bits. *)
Lemma cullified_id t : day_ok (day_of t) -> cullified t = fixed_localtime off t.
Proof.
  intros Hd. destruct (localtime_time t) as [[(H1 & H2 & H3) _] _].
  destruct (is_day_dom _ _ Hd (tm_date t)) as (H4 & H5 & H6).
  unfold cullified, cullify_tm, on_fields. cbn [localtime fixed_zone].
  apply tm_eq; cbn -[fixed_localtime]; try (apply u32_small; lia).
  - apply u32_small. cbn [fixed_localtime tm_wday]. divlia.
  - apply u32_small. cbn [fixed_localtime tm_yday]. change ((t + off) / 86400 + epoch) with (day_of t).
    pose proof (month_of_spec (day_of t)) as [M1 M2]. set (k := month_of (day_of t)) in *.
    assert (month_start (12 * (k / 12)) <= month_start k).
    { destruct (Z.eq_dec (12 * (k / 12)) k) as [->|E]; [lia|]. apply Z.lt_le_incl, month_start_mono. divlia. }
    assert (month_start (k + 1) <= month_start (12 * (k / 12 + 1))).
    { destruct (Z.eq_dec (12 * (k / 12 + 1)) (k + 1)) as [->|E]; [lia|].
      apply Z.lt_le_incl, month_start_mono. divlia. }
    pose proof (year_length (k / 12)). lia.
  - done.
Qed.

(** [mktime] of a date and a time of day. *)
Lemma mktime_day t n h m s :
  is_day t n -> fixed_mktime off (with_time h m s t) = at_time n (h * 3600 + m * 60 + s).
Proof.
  intros (H1 & H2 & H3). unfold fixed_mktime, at_time, with_time. cbn [tm_year tm_mon tm_mday tm_hour tm_min tm_sec].
  rewrite H1, H2, H3. replace (12 * (month_of n / 12 - 1900 + 1900) + month_of n mod 12) with (month_of n)
    by (pose proof (Z.div_mod (month_of n) 12 ltac:(lia)); lia). lia.
Qed.

End Offset.

End CalMoments.
