(* ===== verification/CalState.v ===== *)
(** CalState: what the next change of a calendar entry means, in a zone at a constant
    offset. *)

From S2P Require Import Prelude CalTime Calendar CalFacts.
Import CalTime Calendar CalFacts CalMoments.

Module CalState.

Abbreviation dlo := (lo daytime_key).
Abbreviation dhi := (hi daytime_key).
Abbreviation dclosed := (closed daytime_dom daytime_key).

(** ** Times of day *)

(** [s], a second of the day, is in the ranges. *)
Definition times (dt : list tmr) (s : Z) : bool := existsb (fun r => (dlo r <=? s) && (s <=? dhi r)) dt.

Record daytimes_ok (dt : list tmr) : Prop := {
  do_closed : Forall dclosed dt;
  do_last : Exists (fun r => 1 <= dhi r) dt;
}.

Lemma times_spec dt s : times dt s = true <-> exists r, r ∈ dt /\ dlo r <= s <= dhi r.
Proof.
  unfold times. rewrite existsb_exists. split; intros (r & Hr & E); exists r; rewrite list_elem_of_In in *; lia || (split; [done|lia]).
Qed.

Lemma times_false dt s : times dt s = false <-> forall r, r ∈ dt -> s < dlo r \/ dhi r < s.
Proof.
  destruct (times dt s) eqn:E.
  - apply times_spec in E as (r & Hr & E). split; [done|]. intros H. specialize (H r Hr). lia.
  - split; [|done]. intros _ r Hr. destruct (decide (dlo r <= s <= dhi r)) as [Hd|]; [|lia].
    assert (times dt s = true) by (apply times_spec; eauto). congruence.
Qed.

Lemma daytimes_range dt : daytimes_ok dt -> Forall (range_ok daytime_dom daytime_key) dt.
Proof. intros [H _]. eapply Forall_impl; [exact H|]. by intros r []. Qed.

Lemma daytimes_elem dt r : daytimes_ok dt -> r ∈ dt -> dclosed r /\ 0 <= dlo r <= dhi r /\ dhi r <= 86400.
Proof.
  intros [H _] Hr. rewrite Forall_forall in H. specialize (H r Hr). split; [done|].
  destruct H as [[[H1 _] [_ H2] H3] _]. unfold lo, hi, daytime_key in *. lia.
Qed.

Lemma times_in_list dt t :
  daytimes_ok dt -> daytime_dom t -> in_range_list tm_daytime_cmp t (Some dt) = times dt (daytime_key t).
Proof.
  intros Hd Ht. apply eq_true_iff_eq.
  rewrite (in_list_key tm_daytime_cmp daytime_dom daytime_key t dt Ht) by by apply daytimes_range.
  rewrite times_spec. unfold covers. by rewrite Exists_exists.
Qed.

(** A list of ranges that is taken for whole days. *)
Lemma full_day_times first dt :
  daytimes_ok (first :: dt) ->
  exists b, full_day first = Some b /\ (b = true -> forall s, 0 <= s < 86400 -> times (first :: dt) s = true).
Proof.
  intros Hok. destruct (daytimes_elem _ first Hok ltac:(set_solver)) as ([[H1 H2 H3] [e He]] & Hb).
  unfold full_day. rewrite He. cbn [mbind option_bind]. eexists. split; [done|]. intros E s Hs.
  apply times_spec. exists first. split; [set_solver|]. unfold lo, hi, last_of in *. rewrite He in *.
  unfold midnight, daytime_key in *. lia.
Qed.

Lemma find_daytime_active dt t :
  daytimes_ok dt -> daytime_dom t -> times dt (daytime_key t) = true ->
  exists r, r ∈ dt /\ dlo r <= daytime_key t <= dhi r /\ find_daytime true dt t = Some (last_of r) /\
    daytime_dom (last_of r).
Proof.
  intros Hok Ht E. pose proof (daytimes_range _ Hok) as Hr. unfold find_daytime.
  destruct (find (in_range tm_daytime_cmp t) dt) as [r|] eqn:Ef.
  - apply find_some in Ef as [Hin Hr']. apply list_elem_of_In in Hin.
    destruct (daytimes_elem _ r Hok Hin) as ([[H1 H2 H3] [e He]] & _).
    rewrite (in_range_key tm_daytime_cmp daytime_dom daytime_key) in Hr' by done.
    exists r. split; [done|]. split; [lia|]. split; [|done].
    cbn [mbind option_bind]. unfold last_of. by rewrite He.
  - exfalso. apply times_spec in E as (r & Hin & Hs). pose proof (find_none _ _ Ef r) as Hn.
    rewrite <- list_elem_of_In in Hn. specialize (Hn Hin). rewrite Forall_forall in Hr.
    rewrite (in_range_key tm_daytime_cmp daytime_dom daytime_key) in Hn by auto. lia.
Qed.

(** Without a range that began before [t] and is still on. *)
Lemma find_daytime_inactive dt t :
  daytimes_ok dt -> daytime_dom t ->
  let s := daytime_key t in
  (forall r, r ∈ dt -> dlo r < s -> dhi r < s) ->
  match find_daytime false dt t with
  | Some b => daytime_dom b /\ s <= daytime_key b /\ times dt (daytime_key b) = true /\
      forall x, s <= x < daytime_key b -> times dt x = false
  | None => (forall r, r ∈ dt -> dlo r < s) /\ forall x, s <= x -> times dt x = false
  end.
Proof.
  intros Hok Ht s E. pose proof (daytimes_range _ Hok) as Hr. unfold find_daytime.
  assert (Forall (fun r => daytime_dom (TMR_begin r)) dt) as Hdom
    by (eapply Forall_impl; [exact Hr|]; by intros r []).
  pose proof (min_begin_spec tm_daytime_cmp daytime_dom daytime_key
    (fun b => tm_daytime_cmp t b <=? 0) dt Hdom) as Hm. rewrite Forall_forall in Hdom.
  destruct (min_begin _ _ dt) as [b|].
  - destruct Hm as ((r & Hin & ->) & Hle & Hmin).
    rewrite (cmp_le tm_daytime_cmp daytime_dom daytime_key) in Hle by auto.
    destruct (daytimes_elem _ r Hok Hin) as (_ & Hb). unfold lo in *.
    split; [by apply Hdom|]. split; [unfold s in *; lia|]. split.
    + apply times_spec. exists r. split; [done|]. unfold lo. lia.
    + intros x Hx'. apply times_false. intros q Hq. pose proof (E q Hq) as Hxq. unfold lo.
      destruct (Z.ltb_spec (daytime_key (TMR_begin q)) s); [right; unfold lo in *; lia|left].
      pose proof (Hmin q Hq) as Hmq. rewrite (cmp_le tm_daytime_cmp daytime_dom daytime_key) in Hmq by auto.
      fold s in Hmq. specialize (Hmq ltac:(lia)). lia.
  - assert (forall r, r ∈ dt -> dlo r < s) as Hlt.
    { intros r Hin. specialize (Hm r Hin).
      rewrite (cmp_le tm_daytime_cmp daytime_dom daytime_key) in Hm by auto. unfold lo, s. lia. }
    split; [done|]. intros x Hx. apply times_false. intros q Hq. right.
    pose proof (E q Hq (Hlt q Hq)). lia.
Qed.

(** ** Days *)

Section Offset.
Context (off : Z).

#[local] Hint Extern 0 Zone => exact (fixed_zone off) : typeclass_instances.

Notation day_of := (day_of off).
Notation sec_of := (sec_of off).
Notation at_time := (at_time off).

(** Whatever the time of day is set to, [t] is on day [n]. *)
Definition lands (t : tm) (n : Z) : Prop :=
  forall h m s, 0 <= h <= 24 -> 0 <= m < 60 -> 0 <= s < 60 ->
  fixed_mktime off (with_time h m s (uncullify_tm t)) = at_time n (h * 3600 + m * 60 + s).

Definition starts_day (t : tm) : Prop := daytime_dom t /\ daytime_key t = 0.

(** The days of an entry, [days], are what its year or week ranges say. *)
Record day_list (year_time week_time : option (list tmr)) (days : Z -> bool) : Prop := {
  dl_one : match year_time, week_time with Some _, None | None, Some _ => True | _, _ => False end;
  dl_next : forall t full, day_ok (day_of t) -> days (day_of t) = false ->
    match find_day false full year_time week_time (fixed_localtime off t) with
    | Some (Day d e) => e = false /\ starts_day d /\
        exists n, day_of t < n /\ lands d n /\ days n = true /\ forall x, day_of t < x < n -> days x = false
    | Some NoEntry => forall x, day_of t < x -> days x = false
    | _ => False
    end;
  dl_end : forall t, day_ok (day_of t) -> days (day_of t) = true ->
    match find_day true true year_time week_time (fixed_localtime off t) with
    | Some (Day d e) => e = true /\
        exists n, day_of t <= n /\ fixed_mktime off (uncullify_tm d) = at_time n 86399 /\
          forall x, day_of t <= x <= n -> days x = true
    | Some Never => forall x, days x = true
    | _ => False
    end;
}.

Definition active_at (days : Z -> bool) (dt : list tmr) (t : Z) : bool := days (day_of t) && times dt (sec_of t).

(** Nothing changes from [t] to [limit]; 0 is for ever. *)
Definition limit_ok (act : Z -> bool) (t limit : Z) : Prop :=
  if limit =? 0 then forall x, t <= x -> act x = act t
  else t <= limit /\ (act t = false -> t < limit) /\ forall x, t <= x < limit -> act x = act t.

(** The end of the day is reached without a change. *)
Definition quiet_day (days : Z -> bool) (dt : list tmr) (t limit : Z) : Prop :=
  days (day_of t) = true /\ times dt (sec_of t) = false /\ limit = at_time (day_of t + 1) 0 /\
  (forall r, r ∈ dt -> dlo r < sec_of t) /\ forall x, sec_of t <= x -> times dt x = false.

Lemma mktime_fields a b :
  tm_sec a = tm_sec b -> tm_min a = tm_min b -> tm_hour a = tm_hour b -> tm_mday a = tm_mday b ->
  tm_mon a = tm_mon b -> tm_year a = tm_year b -> fixed_mktime off a = fixed_mktime off b.
Proof. unfold fixed_mktime. by intros -> -> -> -> -> ->. Qed.

Lemma uncullify_isdst d x : fixed_mktime off (uncullify_tm (with_isdst x d)) = fixed_mktime off (uncullify_tm d).
Proof. by apply mktime_fields. Qed.

Lemma lands_isdst d n x : lands d n -> lands (with_isdst x d) n.
Proof. intros H h m s Hh Hm Hs. rewrite <- H by done. by apply mktime_fields. Qed.

Lemma s32_time e : daytime_dom e ->
  s32 (tm_hour e) = tm_hour e /\ s32 (tm_min e) = tm_min e /\ s32 (tm_sec e) = tm_sec e.
Proof. intros [(H1 & H2 & H3) _]. rewrite !s32_small; lia. Qed.

(** The limit on the day [n] that [d] is on. *)
Lemma day_limit_spec active dt d n e :
  lands d n -> find_daytime active dt d = Some e -> daytime_dom e ->
  day_limit active dt d = (at_time n (daytime_key e), false).
Proof.
  intros Hl Ef He. unfold day_limit. rewrite Ef. cbn [default from_option id].
  change (default (with_time 24 0 0 d) (Some e)) with e. f_equal.
  destruct (Z.eqb_spec (tm_hour e) 24) as [E|E]; cbn [Z.b2z mktime fixed_zone].
  - cbn [with_time tm_hour tm_min tm_sec]. change (s32 23) with 23. change (s32 59) with 59.
    pose proof (Hl 23 59 59 ltac:(lia) ltac:(lia) ltac:(lia)) as Hk. rewrite Hk.
    destruct He as [(H1 & H2 & H3) H4]. unfold at_time, daytime_key in *. lia.
  - destruct (s32_time e He) as (-> & -> & ->). destruct He as [(H1 & H2 & H3) H4].
    pose proof (Hl (tm_hour e) (tm_min e) (tm_sec e) ltac:(lia) ltac:(lia) ltac:(lia)) as Hk. rewrite Hk.
    unfold daytime_key. lia.
Qed.

Lemma day_limit_none active dt d n :
  lands d n -> find_daytime active dt d = None -> day_limit active dt d = (at_time (n + 1) 0, true).
Proof.
  intros Hl Ef. unfold day_limit. rewrite Ef. cbn [with_time tm_hour tm_min tm_sec Z.eqb].
  change (default (with_time 24 0 0 d) None) with (with_time 24 0 0 d).
  cbn [with_time tm_hour tm_min tm_sec]. rewrite Z.eqb_refl. cbn [with_time tm_hour tm_min tm_sec].
  change (s32 23) with 23. change (s32 59) with 59. cbn [mktime fixed_zone Z.b2z].
  f_equal. pose proof (Hl 23 59 59) as E. cbn [uncullify_tm on_fields with_time tm_mday tm_mon tm_year tm_wday
    tm_yday tm_isdst] in E |- *. rewrite E by lia. unfold at_time. lia.
Qed.

Lemma localtime_lands t : day_ok (day_of t) -> lands (fixed_localtime off t) (day_of t).
Proof.
  intros Hd h m s _ _ _. destruct (is_day_dom _ _ Hd (tm_date off t)) as (H1 & H2 & H3).
  apply mktime_day. destruct (tm_date off t) as (D1 & D2 & D3). unfold is_day, uncullify_tm, on_fields.
  cbn [tm_mon tm_year tm_mday]. rewrite !s32_small by lia. done.
Qed.

(** ** The limit *)

Section Limit.
Context (year_time week_time : option (list tmr)) (days : Z -> bool) (dt : list tmr).
Context (Hdays : day_list year_time week_time days) (Hdt : daytimes_ok dt).

Notation act := (active_at days dt).

Lemma at_time_pos t n s : 0 < t -> t <= at_time n s -> (at_time n s =? 0) = false.
Proof. lia. Qed.

Lemma act_on n s : 0 <= s < 86400 -> act (at_time n s) = days n && times dt s.
Proof. intros Hs. unfold active_at. by destruct (day_of_at off n s Hs) as [-> ->]. Qed.

(** A limit at [s] o'clock on day [n]: until then [act] is as at [t]. *)
Lemma limit_at t n s :
  0 < t -> 0 <= s <= 86400 -> t <= at_time n s -> (act t = false -> t < at_time n s) ->
  (forall x, t <= x -> (day_of x < n \/ (n = day_of x /\ sec_of x < s)) -> act x = act t) ->
  limit_ok act t (at_time n s).
Proof.
  intros Ht Hs Hle Hlt Hx. unfold limit_ok. rewrite at_time_pos with (t := t) by done.
  split; [done|]. split; [done|]. intros x [Hx1 Hx2]. apply Hx; [done|].
  by apply at_time_lt in Hx2.
Qed.

Lemma first_ok : exists first l, dt = first :: l.
Proof. destruct dt as [|first l] eqn:E; [|by eauto]. destruct Hdt as [_ H]. by inversion H. Qed.

Lemma whole_day_end t :
  0 < t -> day_ok (day_of t) -> days (day_of t) = true -> (forall s, 0 <= s < 86400 -> times dt s = true) ->
  exists limit, (d ← find_day true true year_time week_time (fixed_localtime off t);
    Some (match d with
      | Never | NoEntry => (0, false)
      | Day t end_of_day =>
          (mktime (uncullify_tm (with_isdst (u32 (-1)) t)) + Z.b2z end_of_day, false)
      end)) = Some (limit, false) /\ limit_ok act t limit.
Proof.
  intros Ht Hd Hday Htimes. pose proof (dl_end _ _ _ Hdays t Hd Hday) as He.
  assert (forall x, act x = days (day_of x)) as Ha.
  { intros x. unfold active_at. rewrite Htimes by apply sec_of_bound. by rewrite andb_true_r. }
  destruct (find_day _ _ _ _ _) as [[| |d e]|]; [|done| |done]; cbn [mbind option_bind].
  - exists 0. split; [done|]. intros x _. by rewrite !Ha, !He.
  - destruct He as (-> & n & Hn & Hmk & Hall). eexists. split; [done|].
    cbn [mktime fixed_zone Z.b2z]. rewrite uncullify_isdst, Hmk.
    replace (at_time n 86399 + 1) with (at_time n 86400) by (unfold at_time; lia).
    pose proof (sec_of_bound off t). apply limit_at; [done|lia| | |].
    + rewrite <- (at_time_of off t) at 1. unfold at_time. lia.
    + rewrite Ha, Hday. done.
    + intros x Hx Hx2. pose proof (day_mono off t x Hx). rewrite !Ha, Hday. apply Hall. lia.
Qed.

Lemma next_day_start t full :
  0 < t -> day_ok (day_of t) -> days (day_of t) = false ->
  (full = true -> forall s, 0 <= s < 86400 -> times dt s = true) ->
  exists limit, (d ← find_day false full year_time week_time (fixed_localtime off t);
    Some (match d with
      | Never | NoEntry => (0, false)
      | Day t end_of_day =>
          let t := with_isdst (u32 (-1)) t in
          if full then (mktime (uncullify_tm t) + Z.b2z end_of_day, false) else day_limit false dt t
      end)) = Some (limit, false) /\ limit_ok act t limit.
Proof.
  intros Ht Hd Hday Hfull. pose proof (dl_next _ _ _ Hdays t full Hd Hday) as Hn.
  assert (act t = false) as Hact by (unfold active_at; by rewrite Hday).
  destruct (find_day _ _ _ _ _) as [[| |d e]|]; [done| | |done]; cbn [mbind option_bind].
  { exists 0. split; [done|]. intros x Hx. rewrite Hact. unfold active_at.
    destruct (Z.eq_dec (day_of t) (day_of x)) as [<-|E]; [by rewrite Hday|].
    pose proof (day_mono off t x Hx). by rewrite Hn by lia. }
  destruct Hn as (-> & [Hdom Hkey] & n & Hn & Hl & Hdn & Hgap). cbv zeta.
  assert (forall s, 0 <= s <= 86400 -> (forall x, 0 <= x < s -> times dt x = false) ->
    limit_ok act t (at_time n s)) as Hlim.
  { intros s Hs Hq. pose proof (sec_of_bound off t).
    assert (t < at_time n s) by (rewrite <- (at_time_of off t) at 1; unfold at_time; lia).
    apply limit_at; [done|lia|lia|done|]. intros x Hx Hx2. pose proof (day_mono off t x Hx).
    rewrite Hact. unfold active_at. destruct Hx2 as [Hx2|[<- Hx2]].
    - destruct (Z.eq_dec (day_of t) (day_of x)) as [<-|E]; [by rewrite Hday|]. by rewrite Hgap by lia.
    - rewrite Hq, andb_false_r; [done|]. pose proof (sec_of_bound off x). lia. }
  destruct full.
  - eexists. split; [done|]. cbn [mktime fixed_zone Z.b2z]. rewrite uncullify_isdst.
    assert (fixed_mktime off (uncullify_tm d) = at_time n 0) as ->.
    { pose proof (Hl 0 0 0 ltac:(lia) ltac:(lia) ltac:(lia)) as Hk. rewrite !Z.mul_0_l, !Z.add_0_r in Hk.
      rewrite <- Hk. apply mktime_fields; try done.
      all: destruct (s32_time d Hdom) as (E1 & E2 & E3); destruct Hdom as [(D1 & D2 & D3) _].
      all: cbn [uncullify_tm on_fields tm_sec tm_min tm_hour with_time]; unfold daytime_key in Hkey; lia. }
    rewrite Z.add_0_r. apply Hlim; [lia|]. intros x Hx. lia.
  - pose proof (find_daytime_inactive dt (with_isdst (u32 (-1)) d) Hdt Hdom) as Hf. cbv zeta in Hf.
    change (daytime_key (with_isdst (u32 (-1)) d)) with (daytime_key d) in Hf. rewrite Hkey in Hf.
    assert (forall r, r ∈ dt -> dlo r < 0 -> dhi r < 0) as H0
      by (intros r Hr; destruct (daytimes_elem _ r Hdt Hr) as (_ & ? & ?); lia).
    specialize (Hf H0). destruct (find_daytime false dt _) as [b|] eqn:Ef.
    + destruct Hf as (Hb & Hlt & _ & Hq). rewrite (day_limit_spec false dt _ n b); [|by apply lands_isdst|done|done].
      eexists. split; [done|]. apply Hlim; [destruct Hb; lia|]. intros x Hx. apply Hq. lia.
    + exfalso. destruct Hf as [Hf _]. destruct Hdt as [_ Hlast]. apply Exists_exists in Hlast as (r & Hr & Hhi).
      specialize (Hf r Hr). destruct (daytimes_elem _ r Hdt Hr). lia.
Qed.

(** The change within the day. *)
Lemma same_day t :
  0 < t -> day_ok (day_of t) -> days (day_of t) = true ->
  exists limit reached, day_limit (times dt (sec_of t)) dt (fixed_localtime off t) = (limit, reached) /\
    if reached then quiet_day days dt t limit else limit_ok act t limit.
Proof.
  intros Ht Hd Hday. destruct (localtime_time off t) as [Hdom Hkey].
  pose proof (localtime_lands t Hd) as Hl. pose proof (sec_of_bound off t) as Hs.
  assert (forall x, t <= x -> day_of x = day_of t -> sec_of t <= sec_of x) as Hsec.
  { intros x Hx E. rewrite <- (at_time_of off t), <- (at_time_of off x), E in Hx. unfold at_time in Hx. lia. }
  assert (forall s, sec_of t <= s <= 86400 -> (times dt (sec_of t) = false -> sec_of t < s) ->
    (forall x, sec_of t <= x < s -> times dt x = times dt (sec_of t)) -> limit_ok act t (at_time (day_of t) s)) as Hlim.
  { intros s Hse Hlt Hx. assert (at_time (day_of t) s = t + (s - sec_of t)) as Ea
      by (pose proof (at_time_of off t); unfold at_time in *; lia).
    apply limit_at; [done|lia|lia| |].
    - unfold active_at. rewrite Hday. cbn [andb]. intros E. specialize (Hlt E). lia.
    - intros x Htx Hx2. pose proof (day_mono off t x Htx). assert (day_of x = day_of t) as E by lia.
      unfold active_at. rewrite E, Hday. cbn [andb]. apply Hx. specialize (Hsec x Htx E). lia. }
  destruct (times dt (sec_of t)) eqn:E.
  - destruct (find_daytime_active dt (fixed_localtime off t) Hdt Hdom) as (r & Hr & Hse & Ef & Hlast);
      [by rewrite Hkey|]. rewrite Hkey in Hse. change (daytime_key (last_of r)) with (dhi r) in *.
    rewrite (day_limit_spec true dt _ _ _ Hl Ef Hlast). exists (at_time (day_of t) (dhi r)), false.
    destruct (daytimes_elem _ r Hdt Hr) as (_ & H1 & H2).
    split; [done|]. apply Hlim; [lia|done|]. intros x Hx. apply times_spec. exists r. split; [done|lia].
  - pose proof (find_daytime_inactive dt (fixed_localtime off t) Hdt Hdom) as Hf. cbv zeta in Hf.
    rewrite Hkey in Hf. rewrite times_false in E. specialize (Hf ltac:(intros r Hr; specialize (E r Hr); lia)).
    rewrite <- times_false in E. destruct (find_daytime false dt _) as [b|] eqn:Ef.
    + destruct Hf as (Hb & Hle & Htb & Hq). rewrite (day_limit_spec false dt _ _ _ Hl Ef Hb).
      exists (at_time (day_of t) (daytime_key b)), false. split; [done|].
      apply Hlim; [destruct Hb; lia| |done]. intros _. destruct (Z.eq_dec (sec_of t) (daytime_key b)); [congruence|lia].
    + rewrite (day_limit_none false dt _ _ Hl Ef). eexists _, true. split; [done|].
      destruct Hf as [Hf Hq]. by repeat split.
Qed.

Lemma compute_limit_spec t :
  0 < t -> day_ok (day_of t) ->
  exists limit reached,
    compute_limit (days (day_of t)) (act t) year_time week_time (Some dt) (fixed_localtime off t) =
      Some (limit, reached) /\
    if reached then quiet_day days dt t limit else limit_ok act t limit.
Proof.
  intros Ht Hd. destruct first_ok as (first & l & Edt).
  assert (exists full, full_day first = Some full /\
    (full = true -> forall s, 0 <= s < 86400 -> times dt s = true)) as (full & Ef & Hfull).
  { rewrite Edt. apply full_day_times. by rewrite <- Edt. }
  assert (head dt = Some first) as Eh by (by rewrite Edt).
  unfold compute_limit. rewrite Eh. cbn [mbind option_bind]. rewrite Ef. cbn [mbind option_bind].
  assert (act t = days (day_of t) && times dt (sec_of t)) as Ea by done.
  assert (forall X : option (Z * bool), match year_time, week_time with
    | Some _, Some _ | None, None => Some (0, false) | _, _ => X end = X) as Hone.
  { pose proof (dl_one _ _ _ Hdays). intros X. by destruct year_time, week_time. }
  destruct (days (day_of t)) eqn:Eday; cbn [negb andb] in *.
  - rewrite orb_false_r. destruct full.
    + specialize (Hfull eq_refl). rewrite Ea, Hfull by apply sec_of_bound.
      destruct (whole_day_end t Ht Hd Eday Hfull) as (limit & E & Hl).
      exists limit, false. split; [|done]. destruct year_time, week_time; try done; exact E.
    + destruct (same_day t Ht Hd Eday) as (limit & reached & E & Hl). exists limit, reached. split; [|done].
      rewrite Ea, E. destruct year_time, week_time; done.
  - rewrite orb_true_r, Ea. destruct (next_day_start t full Ht Hd Eday Hfull) as (limit & E & Hl).
    exists limit, false. split; [|done]. destruct year_time, week_time; try done; exact E.
Qed.

End Limit.

End Offset.

End CalState.
