(* ===== verification/CalDays.v ===== *)
(** CalDays: the days of week and year ranges. *)

From S2P Require Import Prelude CalTime Calendar CalFacts CalState.
Import CalTime Calendar CalFacts CalMoments CalState.

Module CalDays.

Abbreviation wcovers := (covers tm_wday).

(** ** Days of the week *)

Definition wday (n : Z) : Z := (n + 3) mod 7.

Definition week_days (l : list tmr) (n : Z) : bool :=
  existsb (fun r => (begin_wday r <=? wday n) && (wday n <=? tm_wday (last_of r))) l.

(** A range that goes on over the end of the week does so with days that other ranges have. *)
Record wdays_ok (l : list tmr) : Prop := {
  wo_some : l <> [];
  wo_ranges : Forall (range_ok wday_dom tm_wday) l;
  wo_begin : Forall (fun r => begin_wday r <= 6 /\ starts_day (TMR_begin r)) l;
  wo_closed : forall r d, r ∈ l -> begin_wday r <= d <= tm_wday (last_of r) -> wcovers l (d mod 7);
}.

Section Offset.
Context (off : Z).
#[local] Hint Extern 0 Zone => exact (fixed_zone off) : typeclass_instances.

Notation day_of := (day_of off).
Notation lt := (fixed_localtime off).

Lemma wday_bound n : 0 <= wday n < 7.
Proof. apply Z.mod_pos_bound. lia. Qed.

Lemma localtime_wday t : tm_wday (lt t) = wday (day_of t).
Proof. done. Qed.

Lemma wday_add n k : wday (n + k) = (wday n + k) mod 7.
Proof. unfold wday. rewrite Z.add_mod_idemp_l by lia. f_equal. lia. Qed.

Lemma week_days_covers l n : week_days l n = true <-> wcovers l (wday n).
Proof.
  unfold week_days, covers. rewrite existsb_exists, Exists_exists.
  split; intros (r & Hr & E); exists r; rewrite list_elem_of_In in *;
    (split; [done|]); unfold lo, hi, begin_wday in *; lia.
Qed.

Lemma mktime_eq d h m s :
  fixed_mktime off (with_time h m s d) =
  (month_start (12 * (tm_year d + 1900) + tm_mon d) + tm_mday d - 1 - epoch) * 86400 + h * 3600 + m * 60 + s - off.
Proof. reflexivity. Qed.

Lemma mktime_plus t n k h m s d :
  is_day t n -> tm_mon d = tm_mon t -> tm_year d = tm_year t -> tm_mday d = tm_mday t + k ->
  fixed_mktime off (with_time h m s d) = at_time off (n + k) (h * 3600 + m * 60 + s).
Proof.
  intros Hd E1 E2 E3. pose proof (mktime_day off t n h m s Hd) as E.
  rewrite mktime_eq in E |- *. rewrite E1, E2, E3. unfold at_time in *. lia.
Qed.

Lemma lands_plus t k d :
  day_ok (day_of t) -> -100 <= k <= 10000 ->
  tm_mon d = tm_mon (lt t) -> tm_year d = tm_year (lt t) -> tm_mday d = u32 (tm_mday (lt t) + k) ->
  0 <= tm_mday (lt t) + k -> lands off d (day_of t + k).
Proof.
  intros Hd Hk E1 E2 E3 Hpos h m s Hh Hm Hs.
  destruct (is_day_dom _ _ Hd (tm_date off t)) as (H1 & H2 & H3).
  rewrite u32_small in E3 by lia.
  apply (mktime_plus (lt t)); [apply tm_date| | |];
    cbn [uncullify_tm on_fields tm_mon tm_year tm_mday]; rewrite ?E1, ?E2, ?E3, s32_small; lia.
Qed.

Lemma wday_in_range t r : range_ok wday_dom tm_wday r ->
  in_range tm_wday_cmp (lt t) r = (begin_wday r <=? wday (day_of t)) && (wday (day_of t) <=? tm_wday (last_of r)).
Proof.
  intros Hr. rewrite (in_range_key tm_wday_cmp wday_dom tm_wday); [done| |done].
  unfold wday_dom. rewrite localtime_wday. pose proof (wday_bound (day_of t)). lia.
Qed.

Lemma week_in_list t l : wdays_ok l -> in_range_list tm_wday_cmp (lt t) (Some l) = week_days l (day_of t).
Proof.
  intros [_ H _ _]. cbn [in_range_list]. unfold week_days.
  induction H as [|r l Hr Hl IH]; [done|]. cbn [existsb]. by rewrite wday_in_range, IH.
Qed.

Lemma week_begin_dom l : wdays_ok l -> Forall (fun r => wday_dom (TMR_begin r)) l.
Proof. intros [_ H _ _]. eapply Forall_impl; [exact H|]. by intros r []. Qed.

Lemma wdays_elem l r : wdays_ok l -> r ∈ l ->
  0 <= begin_wday r <= 6 /\ begin_wday r <= tm_wday (last_of r) < 1000 /\ starts_day (TMR_begin r).
Proof.
  intros [_ H1 H2 _] Hr. rewrite Forall_forall in H1, H2. destruct (H1 r Hr) as [Hb Hl Ho].
  destruct (H2 r Hr). unfold wday_dom, lo, hi, begin_wday in *. split; [lia|]. split; [lia|done].
Qed.

(** The next weekday on the list. *)
Lemma week_next l t full :
  wdays_ok l -> day_ok (day_of t) -> week_days l (day_of t) = false ->
  exists d n, find_day false full None (Some l) (lt t) = Some (Day d false) /\ starts_day d /\
    day_of t < n /\ lands off d n /\ week_days l n = true /\ forall x, day_of t < x < n -> week_days l x = false.
Proof.
  intros Hok Hd Hno. set (w := wday (day_of t)). pose proof (wday_bound (day_of t)) as Hw. fold w in Hw.
  pose proof (week_begin_dom l Hok) as Hdom.
  assert (wday_dom (lt t)) as Hwd by (unfold wday_dom; rewrite localtime_wday; fold w; lia).
  assert (forall r, r ∈ l -> w < begin_wday r \/ tm_wday (last_of r) < w) as Hout.
  { intros r Hr. destruct (decide (begin_wday r <= w <= tm_wday (last_of r))); [|lia].
    assert (week_days l (day_of t) = true); [|congruence].
    apply week_days_covers, Exists_exists. exists r. done. }
  assert (forall x, week_days l x = true -> exists r, r ∈ l /\ begin_wday r <= wday x <= tm_wday (last_of r)) as Hin.
  { intros x Hx. by apply week_days_covers, Exists_exists in Hx. }
  assert (forall r, r ∈ l -> forall x, wday x = begin_wday r -> week_days l x = true) as Hyes.
  { intros r Hr x Hx. apply week_days_covers, Exists_exists. exists r. split; [done|].
    destruct (wdays_elem l r Hok Hr). unfold lo, hi. fold (begin_wday r). lia. }
  destruct (is_day_dom _ _ Hd (tm_date off t)) as (_ & _ & Hmd).
  assert (forall k, 0 < k -> (7 - w <= k -> k < 14 - w) -> wday (day_of t + k) = if k <? 7 - w then w + k else w + k - 7) as Hwk.
  { intros k Hk1 Hk2. rewrite wday_add. fold w. destruct (Z.ltb_spec k (7 - w)).
    - by rewrite Z.mod_small by lia.
    - symmetry. apply Z.mod_unique with 1; lia. }
  unfold find_day.
  pose proof (min_begin_spec tm_wday_cmp wday_dom tm_wday (fun b => tm_wday_cmp (lt t) b <? 0) l Hdom) as Hm.
  destruct (min_begin tm_wday_cmp (fun b => tm_wday_cmp (lt t) b <? 0) l) as [b|].
  - destruct Hm as ((r & Hr & ->) & Hlt & Hmin).
    rewrite Forall_forall in Hdom.
    rewrite (cmp_lt tm_wday_cmp wday_dom tm_wday), localtime_wday in Hlt by auto. fold w in Hlt.
    destruct (wdays_elem l r Hok Hr) as (Hb & Hl & Hs). unfold begin_wday in *.
    set (b := tm_wday (TMR_begin r)) in *. rewrite localtime_wday. fold w.
    exists (with_month (tm_mon (lt t)) (tm_year (lt t)) (with_mday (u32 (tm_mday (lt t) + (b - w))) (TMR_begin r))),
      (day_of t + (b - w)). split; [done|]. split; [exact Hs|]. split; [lia|].
    split; [apply lands_plus; done || lia|]. split.
    + apply (Hyes r Hr). rewrite Hwk by lia. rewrite (proj2 (Z.ltb_lt _ _)) by lia. unfold begin_wday. fold b. lia.
    + intros x Hx. destruct (week_days l x) eqn:E; [exfalso|done]. apply Hin in E as (q & Hq & E).
      replace x with (day_of t + (x - day_of t)) in E by lia. rewrite Hwk, (proj2 (Z.ltb_lt _ _)) in E by lia.
      destruct (Hout q Hq) as [Ho|Ho]; [|lia]. specialize (Hmin q Hq).
      rewrite (cmp_lt tm_wday_cmp wday_dom tm_wday), localtime_wday in Hmin by auto. fold w in Hmin.
      unfold lo in Hmin. specialize (Hmin ltac:(lia)). lia.
  - pose proof (min_begin_spec tm_wday_cmp wday_dom tm_wday (fun _ => true) l Hdom) as Hm2.
    rewrite Forall_forall in Hdom.
    assert (forall r, r ∈ l -> begin_wday r <= w) as Hle.
    { intros r Hr. specialize (Hm r Hr). rewrite (cmp_lt tm_wday_cmp wday_dom tm_wday), localtime_wday in Hm by auto.
      fold w in Hm. unfold begin_wday. lia. }
    destruct (min_begin tm_wday_cmp (fun _ => true) l) as [b|].
    2: { exfalso. destruct l as [|r l]; [by destruct Hok|]. by specialize (Hm2 r ltac:(set_solver)). }
    destruct Hm2 as ((r & Hr & ->) & _ & Hmin). destruct (wdays_elem l r Hok Hr) as (Hb & Hl & Hs).
    pose proof (Hle r Hr) as Hbw. unfold begin_wday in *. set (b := tm_wday (TMR_begin r)) in *.
    rewrite localtime_wday. fold w. cbn [mbind option_bind].
    exists (with_month (tm_mon (lt t)) (tm_year (lt t)) (with_mday (u32 (tm_mday (lt t) + (7 - w) + b)) (TMR_begin r))),
      (day_of t + (7 - w + b)). split; [done|]. split; [exact Hs|]. split; [lia|]. split.
    { apply lands_plus; try done; [lia| |lia]. cbn [tm_mday with_month with_mday]. f_equal. lia. } split.
    + apply (Hyes r Hr). destruct (Hout r Hr); [lia|]. rewrite Hwk by lia.
      rewrite (proj2 (Z.ltb_ge _ _)) by lia. unfold begin_wday. fold b. lia.
    + intros x Hx. destruct (week_days l x) eqn:E; [exfalso|done]. apply Hin in E as (q & Hq & E).
      replace x with (day_of t + (x - day_of t)) in E by lia.
      destruct (Hout r Hr); [lia|]. rewrite Hwk in E by lia.
      destruct (Hout q Hq) as [Ho|Ho]; [specialize (Hle q Hq); lia|].
      specialize (Hmin q Hq eq_refl). unfold lo in Hmin. specialize (Hle q Hq).
      destruct (Z.ltb_spec (x - day_of t) (7 - w)); lia.
Qed.

Lemma with_time_uncullify d :
  uncullify_tm (with_time 23 59 59 d) = with_time 23 59 59 (uncullify_tm d).
Proof. destruct d. reflexivity. Qed.

Lemma week_end_spec (l0 l : list tmr) t always :
  Forall (range_ok wday_dom tm_wday) l -> (forall r, r ∈ l -> r ∈ l0) ->
  (exists r, r ∈ l /\ in_range tm_wday_cmp (lt t) r = true) ->
  exists r, r ∈ l0 /\ in_range tm_wday_cmp (lt t) r = true /\
    match week_end true always (lt t) l with
    | (true, _) => tm_wday (last_of r) - begin_wday r = 6
    | (false, d) => d = Some (with_mday (u32 (tm_mday (lt t) + (tm_wday (last_of r) - tm_wday (lt t)))) (lt t))
    end.
Proof.
  intros Hl. revert always. induction Hl as [|r l Hr Hl IH]; intros always Hsub (q & Hq & Hin).
  { by apply elem_of_nil in Hq. }
  cbn [week_end]. destruct (in_range tm_wday_cmp (lt t) r) eqn:E.
  - exists r. split; [apply Hsub; set_solver|]. split; [done|].
    destruct Hr as [H1 H2 H3]. unfold lo, hi, last_of, wday_dom, begin_wday in H1, H2, H3 |- *. destruct (TMR_end r) as [e|].
    + destruct always; cbn [andb]; [|done]. change (default (TMR_begin r) (Some e)) with e.
      rewrite (u32_small (tm_wday e - tm_wday (TMR_begin r))) by lia.
      destruct (_ =? 6) eqn:E6; [lia|done].
    + rewrite andb_false_r. done.
  - apply elem_of_cons in Hq as [-> | Hq]; [congruence|].
    apply IH; [intros p Hp; apply Hsub; set_solver|by exists q].
Qed.

Lemma week_day_list l : wdays_ok l -> day_list off None (Some l) (week_days l).
Proof.
  intros Hok. split; [done| |].
  - intros t full Hd Hno. destruct (week_next l t full Hok Hd Hno) as (d & n & -> & Hs & Hn & Hl & Hy & Hg).
    split; [done|]. split; [done|]. by exists n.
  - intros t Hd Hday. pose proof (week_in_list t l Hok) as E. rewrite Hday in E. cbn [in_range_list] in E.
    rewrite existsb_exists in E. destruct E as (q & Hq & Hin). apply list_elem_of_In in Hq.
    destruct (week_end_spec l l t true (wo_ranges _ Hok)) as (r & Hr & Hri & Hw); [done|by exists q|].
    pose proof Hok as [_ Hrange _ Hclosed]. rewrite Forall_forall in Hrange.
    rewrite wday_in_range in Hri by auto. destruct (wdays_elem l r Hok Hr) as (Hb & He & _).
    pose proof (wday_bound (day_of t)) as Hwb.
    destruct (is_day_dom _ _ Hd (tm_date off t)) as (D1 & D2 & D3).
    unfold find_day. destruct (week_end true true (lt t) l) as [[|] d].
    + intros x. apply week_days_covers. pose proof (wday_bound x).
      destruct (Z.leb_spec (begin_wday r) (wday x)).
      * replace (wday x) with (wday x mod 7) by (by rewrite Z.mod_small). apply (Hclosed r); [done|lia].
      * replace (wday x) with ((wday x + 7) mod 7) by (symmetry; apply Z.mod_unique with 1; lia).
        apply (Hclosed r); [done|lia].
    + rewrite Hw. split; [done|]. rewrite localtime_wday.
      exists (day_of t + (tm_wday (last_of r) - wday (day_of t))). split; [lia|]. split.
      * transitivity (fixed_mktime off (with_time 23 59 59 (uncullify_tm (with_mday
          (u32 (tm_mday (lt t) + (tm_wday (last_of r) - wday (day_of t)))) (lt t))))).
        { by rewrite with_time_uncullify. }
        rewrite (lands_plus t (tm_wday (last_of r) - wday (day_of t))); try done; lia.
      * intros x Hx. apply week_days_covers.
        replace x with (day_of t + (x - day_of t)) by lia. rewrite wday_add.
        apply (Hclosed r); [done|lia].
Qed.

(** ** Days of the year *)

(** The day a date is. *)
Definition day_number (t : tm) : Z := month_start (12 * (tm_year t + 1900) + tm_mon t) + tm_mday t - 1.

(** A date of the calendar, not the 31st of a shorter month. *)
Definition valid_date (t : tm) : Prop := is_day t (day_number t) /\ day_ok (day_number t).

Definition year_days (l : list tmr) (n : Z) : bool :=
  existsb (fun r => (day_number (TMR_begin r) <=? n) && (n <=? day_number (last_of r))) l.

Definition ydays_ok (l : list tmr) : Prop :=
  Forall (fun r => valid_date (TMR_begin r) /\ valid_date (last_of r) /\
    day_number (TMR_begin r) <= day_number (last_of r) /\ starts_day (TMR_begin r)) l.

Lemma yday_in_range t r :
  day_ok (day_of t) -> valid_date (TMR_begin r) -> valid_date (last_of r) ->
  day_number (TMR_begin r) <= day_number (last_of r) ->
  in_range tm_yday_cmp (lt t) r = (day_number (TMR_begin r) <=? day_of t) && (day_of t <=? day_number (last_of r)).
Proof.
  intros Hd [Hb Hbo] [Hl Hlo] Ho.
  pose proof (is_day_dom _ _ Hd (tm_date off t)). pose proof (is_day_dom _ _ Hbo Hb). pose proof (is_day_dom _ _ Hlo Hl).
  rewrite (in_range_key tm_yday_cmp yday_dom yday_key).
  - unfold lo, hi. by rewrite (is_day_le _ _ _ _ Hb (tm_date off t)), (is_day_le _ _ _ _ (tm_date off t) Hl).
  - done.
  - split; [done|done|]. apply Z.leb_le. unfold lo, hi. rewrite (is_day_le _ _ _ _ Hb Hl). lia.
Qed.

Lemma year_in_list t l :
  ydays_ok l -> day_ok (day_of t) -> in_range_list tm_yday_cmp (lt t) (Some l) = year_days l (day_of t).
Proof.
  intros H Hd. cbn [in_range_list]. unfold year_days.
  induction H as [|r l (H1 & H2 & H3 & _) Hl IH]; [done|]. cbn [existsb]. by rewrite yday_in_range, IH.
Qed.

Lemma year_days_spec l n : year_days l n = true <->
  exists r, r ∈ l /\ day_number (TMR_begin r) <= n <= day_number (last_of r).
Proof.
  unfold year_days. rewrite existsb_exists.
  split; intros (r & Hr & E); exists r; rewrite list_elem_of_In in *; (split; [done|lia]).
Qed.

Lemma valid_lands t : valid_date t -> lands off t (day_number t).
Proof.
  intros [Hd Ho] h m s _ _ _. destruct (is_day_dom _ _ Ho Hd) as (H1 & H2 & H3).
  apply mktime_day. destruct Hd as (D1 & D2 & D3). unfold is_day.
  cbn [uncullify_tm on_fields tm_mon tm_year tm_mday]. rewrite !s32_small by lia. done.
Qed.

Lemma year_day_list l : ydays_ok l -> day_list off (Some l) None (year_days l).
Proof.
  intros Hok. split; [done| |].
  - intros t full Hd Hno. cbn [find_day]. pose proof (is_day_dom _ _ Hd (tm_date off t)) as Hdom.
    assert (forall r, r ∈ l -> valid_date (TMR_begin r) /\ valid_date (last_of r) /\
      day_number (TMR_begin r) <= day_number (last_of r) /\ starts_day (TMR_begin r)) as Hall
      by (by apply Forall_forall).
    assert (Forall (fun r => yday_dom (TMR_begin r)) l) as Hbd.
    { eapply Forall_impl; [exact Hok|]. intros r ([Hd1 Hd2] & _). by apply is_day_dom in Hd1. }
    assert (forall r, r ∈ l -> (tm_yday_cmp (lt t) (TMR_begin r) <? 0) = (day_of t <? day_number (TMR_begin r))) as Hlt.
    { intros r Hr. rewrite Forall_forall in Hbd. rewrite (cmp_lt tm_yday_cmp yday_dom yday_key) by auto.
      destruct (Hall r Hr) as ([Hd1 _] & _). by rewrite (is_day_lt _ _ _ _ (tm_date off t) Hd1). }
    pose proof (min_begin_spec tm_yday_cmp yday_dom yday_key (fun b => tm_yday_cmp (lt t) b <? 0) l Hbd) as Hm.
    destruct (min_begin _ _ l) as [b|].
    + destruct Hm as ((r & Hr & ->) & E & Hmin). rewrite Hlt in E by done. destruct (Hall r Hr) as (V1 & V2 & V3 & V4).
      split; [done|]. split; [done|]. exists (day_number (TMR_begin r)). split; [lia|]. split; [by apply valid_lands|].
      split; [apply year_days_spec; exists r; split; [done|lia]|].
      intros x Hx. destruct (year_days l x) eqn:Ex; [exfalso|done]. apply year_days_spec in Ex as (q & Hq & Hqx).
      destruct (Hall q Hq) as ([W1 _] & W2 & W3 & _). specialize (Hmin q Hq). rewrite Hlt in Hmin by done.
      destruct (Z.ltb_spec (day_of t) (day_number (TMR_begin q))).
      * specialize (Hmin eq_refl). unfold lo in Hmin. destruct V1 as [V1 _].
        pose proof (is_day_le _ _ _ _ V1 W1). lia.
      * assert (year_days l (day_of t) = true); [|congruence]. apply year_days_spec. exists q. split; [done|lia].
    + intros x Hx. destruct (year_days l x) eqn:Ex; [exfalso|done]. apply year_days_spec in Ex as (q & Hq & Hqx).
      specialize (Hm q Hq). rewrite Hlt in Hm by done.
      assert (year_days l (day_of t) = true); [|congruence]. apply year_days_spec. exists q. split; [done|lia].
  - intros t Hd Hday. cbn [find_day]. pose proof (year_in_list t l Hok Hd) as E. rewrite Hday in E.
    cbn [in_range_list] in E. rewrite existsb_exists in E. destruct E as (q & Hq & Hin).
    destruct (find (in_range tm_yday_cmp (lt t)) l) as [r|] eqn:Ef.
    2: { pose proof (find_none _ _ Ef q Hq). congruence. }
    apply find_some in Ef as [Hr Hri]. apply list_elem_of_In in Hr.
    unfold ydays_ok in Hok. rewrite Forall_forall in Hok. destruct (Hok r Hr) as (V1 & V2 & V3 & V4).
    rewrite yday_in_range in Hri by done. split; [done|]. exists (day_number (last_of r)). split; [lia|]. split.
    + transitivity (fixed_mktime off (with_time 23 59 59 (uncullify_tm (last_of r)))).
      { rewrite <- with_time_uncullify by done. unfold last_of. by destruct (TMR_end r). }
      rewrite (valid_lands _ V2) by lia. unfold at_time. lia.
    + intros x Hx. apply year_days_spec. exists r. split; [done|lia].
Qed.

End Offset.

End CalDays.
