(* ===== verification/CalEntry.v ===== *)
(** CalEntry: the state of one calendar entry and its limit. *)

From S2P Require Import Prelude CalTime QState Calendar CalFacts CalState CalDays.
Import CalTime QState Calendar CalFacts CalMoments CalState CalDays.

Module CalEntry.

(** An entry is active when its days and its times of day contain the moment. *)
Definition entry_active `{Zone} (e : ca) (t : Z) : bool :=
  in_range_list tm_yday_cmp (cullified t) (CA_yday_range_list e) &&
  in_range_list tm_wday_cmp (cullified t) (CA_wday_range_list e) &&
  in_range_list tm_daytime_cmp (cullified t) (CA_daytime_range_list e).

Definition state_ok (e : ca) : Prop :=
  CA_state e = QI_DO_ENABLE \/ CA_state e = QI_DO_DISABLE \/ CA_state e = QI_DO_SUSPEND.

(** What the parser makes of an entry of the week field. *)
Definition week_entry_ok (e : ca) : Prop :=
  state_ok e /\ CA_yday_range_list e = None /\
  exists wl dt, CA_wday_range_list e = Some wl /\ CA_daytime_range_list e = Some dt /\ wdays_ok wl /\ daytimes_ok dt.

(** An entry of the year field: without days it has no times either. *)
Definition year_entry_ok (e : ca) : Prop :=
  state_ok e /\ CA_wday_range_list e = None /\
  ((CA_yday_range_list e = None /\ CA_daytime_range_list e = Some full_daytime_range) \/
   exists yl dt, CA_yday_range_list e = Some yl /\ CA_daytime_range_list e = Some dt /\ ydays_ok yl /\ daytimes_ok dt).

(** Nothing begins with the day, or something lasts until its end. *)
Definition smooth (e : ca) : Prop :=
  exists dt, CA_daytime_range_list e = Some dt /\ (Exists (fun r => dhi r = 86400) dt \/ Forall (fun r => 1 < dlo r) dt).

Lemma full_daytimes_ok : daytimes_ok full_daytime_range.
Proof.
  split.
  - apply Forall_singleton. split; [|by eexists]. split; unfold daytime_dom, daytime_key, lo, hi; simpl; lia.
  - apply Exists_cons_hd. by vm_compute.
Qed.

Section Offset.
Context (off : Z).
#[local] Hint Extern 0 Zone => exact (fixed_zone off) : typeclass_instances.

Notation day_of := (day_of off).

(** Today and tomorrow can be told. *)
Definition time_ok (t : Z) : Prop := 0 < t /\ day_ok (day_of t) /\ day_ok (day_of t + 1).

Definition tomorrow (t : Z) : Z := at_time off (day_of t + 1) 0 + 1.

Lemma tomorrow_day t : day_of (tomorrow t) = day_of t + 1 /\ sec_of off (tomorrow t) = 1.
Proof.
  unfold tomorrow. replace (at_time off (day_of t + 1) 0 + 1) with (at_time off (day_of t + 1) 1)
    by (unfold at_time; lia). apply day_of_at. lia.
Qed.

Lemma tomorrow_later t : t < tomorrow t.
Proof.
  pose proof (at_time_of off t). pose proof (sec_of_bound off t). unfold tomorrow, at_time in *. lia.
Qed.

Section Days.
Context (year_time week_time : option (list tmr)) (days : Z -> bool) (dt : list tmr).
Context (Hdays : day_list off year_time week_time days) (Hdt : daytimes_ok dt).

Notation act := (active_at off days dt).

(** The limit at [t], and what is found tomorrow when the end of the day is reached. *)
Lemma limit_tomorrow t :
  time_ok t ->
  exists limit reached,
    compute_limit (days (day_of t)) (act t) year_time week_time (Some dt) (cullified t) = Some (limit, reached) /\
    if reached then
      act t = false /\ limit + 1 = tomorrow t /\
      exists limit2, compute_limit (days (day_of (tomorrow t))) (act (tomorrow t)) year_time week_time (Some dt)
          (cullified (tomorrow t)) = Some (limit2, false) /\
        limit_ok act (tomorrow t) limit2 /\
        ((Exists (fun r => dhi r = 86400) dt \/ Forall (fun r => 1 < dlo r) dt) ->
           act (tomorrow t) = false /\ limit_ok act t limit2)
    else limit_ok act t limit.
Proof.
  intros (Ht & Hd & Hd2). rewrite cullified_id by done.
  destruct (compute_limit_spec off year_time week_time days dt Hdays Hdt t Ht Hd) as (limit & [|] & -> & Hl);
    [|by exists limit, false].
  destruct Hl as (Hday & Hno & Hlim & Hlo & Hrest). exists limit, true. split; [done|].
  assert (act t = false) as Hact by (unfold active_at; by rewrite Hno, andb_false_r).
  split; [done|]. split; [by rewrite Hlim|].
  destruct (tomorrow_day t) as [E1 E2]. pose proof (tomorrow_later t) as Hlater.
  rewrite (cullified_id off (tomorrow t)) by (by rewrite E1).
  destruct (compute_limit_spec off year_time week_time days dt Hdays Hdt (tomorrow t)) as (limit2 & [|] & -> & Hl2);
    [lia|by rewrite E1| |].
  { exfalso. destruct Hl2 as (_ & Hno2 & _ & Hlo2 & _). rewrite E2 in *. rewrite times_false in Hno2.
    destruct Hdt as [_ Hlast]. apply Exists_exists in Hlast as (r & Hr & Hhi).
    specialize (Hlo2 r Hr). destruct (Hno2 r Hr); lia. }
  exists limit2. split; [done|]. split; [done|]. intros Hs.
  assert (Forall (fun r => 1 < dlo r) dt) as Hlate.
  { destruct Hs as [Hs|Hs]; [exfalso|done]. apply Exists_exists in Hs as (r & Hr & Hhi).
    rewrite times_false in Hno. specialize (Hlo r Hr). pose proof (sec_of_bound off t). destruct (Hno r Hr); lia. }
  assert (forall s, 0 <= s <= 1 -> times dt s = false) as Hearly.
  { intros s Hs1. apply times_false. intros r Hr. rewrite Forall_forall in Hlate. specialize (Hlate r Hr). lia. }
  assert (act (tomorrow t) = false) as Hact2
    by (unfold active_at; rewrite E2, Hearly, andb_false_r; [done|lia]).
  split; [done|]. unfold limit_ok in *. rewrite Hact, Hact2 in *.
  assert (forall x, t <= x < tomorrow t -> act x = false) as Hgap.
  { intros x Hx. unfold active_at. pose proof (day_mono off t x ltac:(lia)).
    destruct (Z.eq_dec (day_of x) (day_of t)) as [E|E].
    - rewrite Hrest, andb_false_r; [done|]. destruct Hx as [Hx _].
      rewrite <- (at_time_of off t), <- (at_time_of off x), E in Hx. unfold at_time in Hx. lia.
    - rewrite Hearly, andb_false_r; [done|]. pose proof (day_mono off x (tomorrow t) ltac:(lia)) as Hm.
      rewrite E1 in Hm. assert (day_of x = day_of t + 1) as Ex by lia. pose proof (sec_of_bound off x).
      destruct Hx as [_ Hx]. rewrite <- (at_time_of off x), Ex in Hx. unfold tomorrow, at_time in Hx. lia. }
  destruct (limit2 =? 0).
  - intros x Hx. destruct (Z.lt_ge_cases x (tomorrow t)); [apply Hgap; lia|by apply Hl2].
  - destruct Hl2 as (L1 & L2 & L3). split; [lia|]. split; [lia|]. intros x Hx.
    destruct (Z.lt_ge_cases x (tomorrow t)); [apply Hgap; lia|apply L3; lia].
Qed.

End Days.

(** ** Week entries *)

Lemma week_active e wl dt t :
  CA_yday_range_list e = None -> CA_wday_range_list e = Some wl -> CA_daytime_range_list e = Some dt ->
  wdays_ok wl -> daytimes_ok dt -> day_ok (day_of t) ->
  in_range_list tm_wday_cmp (cullified t) (CA_wday_range_list e) = week_days wl (day_of t) /\
  in_range_list tm_daytime_cmp (cullified t) (CA_daytime_range_list e) = times dt (sec_of off t) /\
  entry_active e t = active_at off (week_days wl) dt t.
Proof.
  intros Ey Ew Ed Hw Hd Hday. unfold entry_active. rewrite Ey, Ew, Ed, cullified_id by done.
  rewrite (week_in_list off t wl Hw). destruct (localtime_time off t) as [Hdom Hkey].
  rewrite times_in_list, Hkey by done. done.
Qed.

(** The limit of an entry, for the moments that can be told. *)
Definition steady (act : Z -> bool) (t limit : Z) : Prop :=
  if limit =? 0 then forall x, t <= x -> day_ok (day_of x) -> act x = act t
  else t <= limit /\ (act t = false -> t < limit) /\
    forall x, t <= x < limit -> day_ok (day_of x) -> act x = act t.

Lemma limit_steady act act' t limit :
  (forall x, day_ok (day_of x) -> act' x = act x) -> day_ok (day_of t) -> limit_ok act t limit -> steady act' t limit.
Proof.
  intros Ha Hd H. unfold limit_ok, steady in *. rewrite (Ha t) by done. destruct (limit =? 0).
  - intros x Hx Hdx. rewrite (Ha x) by done. by apply H.
  - destruct H as (H1 & H2 & H3). split; [done|]. split; [done|]. intros x Hx Hdx.
    rewrite (Ha x) by done. by apply H3.
Qed.

Lemma smooth_times e dt : CA_daytime_range_list e = Some dt -> smooth e ->
  Exists (fun r => dhi r = 86400) dt \/ Forall (fun r => 1 < dlo r) dt.
Proof. intros E (dt' & E' & H). congruence. Qed.

Lemma week_entry_spec e t :
  week_entry_ok e -> time_ok t ->
  exists state limit next_state, is_week_entry_active entry_fuel (cullified t) e 0 = Some (state, limit, next_state) /\
    (smooth e ->
       state = (if entry_active e t then CA_state e else 0) /\ steady (entry_active e) t limit /\
       next_state = (if limit =? 0 then 0 else if entry_active e t then 0 else CA_state e)).
Proof.
  intros (_ & Ey & wl & dt & Ew & Ed & Hw & Hdt) Ht. pose proof Ht as (Hpos & Hd & Hd2).
  assert (forall x, day_ok (day_of x) -> entry_active e x = active_at off (week_days wl) dt x) as Hact
    by (intros x Hx; by apply week_active).
  destruct (week_active e wl dt t Ey Ew Ed Hw Hdt Hd) as (A1 & A2 & A3).
  destruct (tomorrow_day t) as [E1 E2].
  destruct (week_active e wl dt (tomorrow t) Ey Ew Ed Hw Hdt) as (B1 & B2 & B3); [by rewrite E1|].
  destruct (limit_tomorrow None (Some wl) (week_days wl) dt (week_day_list off wl Hw) Hdt t Ht)
    as (limit & reached & C & Hl).
  change entry_fuel with (S (S 1)). cbn [is_week_entry_active]. rewrite A1, A2.
  change (week_days wl (day_of t) && times dt (sec_of off t)) with (active_at off (week_days wl) dt t).
  rewrite Ew, Ed, C. cbn [mbind option_bind]. destruct reached.
  - destruct Hl as (L1 & L2 & limit2 & C2 & _ & L3). rewrite L2. cbn [Z.ltb Z.compare].
    rewrite <- Ew, <- Ed, B1, B2.
    change (week_days wl (day_of (tomorrow t)) && times dt (sec_of off (tomorrow t)))
      with (active_at off (week_days wl) dt (tomorrow t)).
    rewrite Ew, Ed, C2. cbn [mbind option_bind]. do 3 eexists. split; [done|]. intros Hs.
    destruct (L3 (smooth_times e dt Ed Hs)) as [L4 L5]. rewrite L4, A3, L1. split; [done|].
    split; [by apply (limit_steady _ _ _ _ Hact)|]. by destruct (limit2 =? 0).
  - do 3 eexists. split; [done|]. intros _. rewrite A3. split; [done|].
    split; [by apply (limit_steady _ _ _ _ Hact)|]. done.
Qed.

(** ** Year entries *)

Lemma year_active e yl dt t :
  CA_wday_range_list e = None -> CA_yday_range_list e = Some yl -> CA_daytime_range_list e = Some dt ->
  ydays_ok yl -> daytimes_ok dt -> day_ok (day_of t) ->
  in_range_list tm_yday_cmp (cullified t) (CA_yday_range_list e) = year_days yl (day_of t) /\
  in_range_list tm_daytime_cmp (cullified t) (CA_daytime_range_list e) = times dt (sec_of off t) /\
  entry_active e t = active_at off (year_days yl) dt t.
Proof.
  intros Ew Ey Ed Hy Hd Hday. unfold entry_active. rewrite Ey, Ew, Ed, cullified_id by done.
  rewrite (year_in_list off t yl Hy Hday). destruct (localtime_time off t) as [Hdom Hkey].
  rewrite times_in_list, Hkey, andb_true_r by done. done.
Qed.

Lemma full_day_active t : day_ok (day_of t) ->
  in_range_list tm_daytime_cmp (cullified t) (Some full_daytime_range) = true.
Proof.
  intros Hd. rewrite cullified_id by done. destruct (localtime_time off t) as [Hdom Hkey].
  rewrite times_in_list, Hkey by (done || apply full_daytimes_ok). apply times_spec.
  exists (Tmr tm_zero (Some (with_hour 24 tm_zero))). split; [left|]. pose proof (sec_of_bound off t).
  unfold lo, hi, daytime_key. simpl. lia.
Qed.

(** The state is right; the limit is when the entry is smooth. *)
Lemma year_entry_spec e t :
  year_entry_ok e -> time_ok t ->
  exists state limit, is_year_entry_active entry_fuel (cullified t) e = Some (state, limit) /\
    state = (if entry_active e t then CA_state e else 0) /\
    (smooth e -> steady (entry_active e) t limit).
Proof.
  intros (Hst & Ew & [[Ey Ed]|(yl & dt & Ey & Ed & Hy & Hdt)]) Ht; pose proof Ht as (Hpos & Hd & Hd2).
  - assert (forall x, day_ok (day_of x) -> entry_active e x = true) as Ha.
    { intros x Hx. unfold entry_active. rewrite Ey, Ew, Ed, full_day_active by done. done. }
    change entry_fuel with (S 2). cbn [is_year_entry_active]. rewrite Ey, Ed, full_day_active by done.
    cbn [in_range_list andb compute_limit mbind option_bind]. exists (CA_state e), 0. split; [done|].
    split; [by rewrite Ha|]. intros _ x _ Hx. by rewrite !Ha.
  - assert (forall x, day_ok (day_of x) -> entry_active e x = active_at off (year_days yl) dt x) as Hact
      by (intros x Hx; by apply year_active).
    destruct (year_active e yl dt t Ew Ey Ed Hy Hdt Hd) as (A1 & A2 & A3).
    destruct (tomorrow_day t) as [E1 E2].
    destruct (year_active e yl dt (tomorrow t) Ew Ey Ed Hy Hdt) as (B1 & B2 & B3); [by rewrite E1|].
    destruct (limit_tomorrow (Some yl) None (year_days yl) dt (year_day_list off yl Hy) Hdt t Ht)
      as (limit & reached & C & Hl).
    change entry_fuel with (S (S 1)). cbn [is_year_entry_active]. rewrite A1, A2.
    change (year_days yl (day_of t) && times dt (sec_of off t)) with (active_at off (year_days yl) dt t).
    rewrite Ey, Ed, C. cbn [mbind option_bind]. destruct reached.
    + destruct Hl as (L1 & L2 & limit2 & C2 & _ & L3). rewrite L2, L1. rewrite <- Ey, <- Ed, B1, B2.
      change (year_days yl (day_of (tomorrow t)) && times dt (sec_of off (tomorrow t)))
        with (active_at off (year_days yl) dt (tomorrow t)).
      rewrite Ey, Ed, C2. cbn [mbind option_bind].
      destruct (active_at off (year_days yl) dt (tomorrow t)) eqn:Et; rewrite A3, L1.
      * assert (negb (CA_state e =? 0) = true) as -> by (destruct Hst as [->|[->| ->]]; done).
        do 2 eexists. split; [done|]. split; [done|]. intros Hs.
        destruct (L3 (smooth_times e dt Ed Hs)) as [L4 _]. congruence.
      * cbn [Z.eqb negb]. do 2 eexists. split; [done|]. split; [done|]. intros Hs.
        destruct (L3 (smooth_times e dt Ed Hs)) as [_ L5]. by apply (limit_steady _ _ _ _ Hact).
    + do 2 eexists. split; [done|]. rewrite A3. split; [done|]. intros _. by apply (limit_steady _ _ _ _ Hact).
Qed.

End Offset.

End CalEntry.
