(* ===== verification/CalStateProps.v ===== *)
(** CalStateProps: the state of a calendar, and when it is open. *)

From S2P Require Import Prelude CalTime QState Calendar CalFacts CalState CalDays CalEntry.
Import CalTime QState Calendar CalFacts CalMoments CalState CalDays CalEntry.

Module CalStateProps.

(** ** The state of a calendar *)

Section Spec.
Context `{Zone}.

Definition active_state (t : Z) (e : ca) : Z := if entry_active e t then CA_state e else 0.

(** The states of the active entries. *)
Definition states_of (l : list ca) (t : Z) : Z := fold_left (fun s e => Z.lor s (active_state t e)) l 0.

(** How the code reads a calendar: the active entries of the year, or else those of the week. *)
Definition calendar_state (ycal wcal : list ca) (t : Z) : Z :=
  let y := states_of ycal t in
  resolve (if y =? 0 then states_of wcal t else y).

(** The state the manual page gives: an entry is in force on its days, from the beginning of
    its times to the second before their end; a day that an entry of the year names belongs to
    the year alone. *)
Definition entry_day (t : Z) (e : ca) : bool :=
  in_range_list tm_yday_cmp (cullified t) (CA_yday_range_list e) &&
  in_range_list tm_wday_cmp (cullified t) (CA_wday_range_list e).

Definition in_force (t : Z) (e : ca) : bool :=
  entry_day t e &&
  existsb (fun r => (lo daytime_key r <=? daytime_key (cullified t)) &&
                    (daytime_key (cullified t) <? hi daytime_key r))
    (default [] (CA_daytime_range_list e)).

Definition manual_state (ycal wcal : list ca) (t : Z) : Z :=
  let entries := if existsb (entry_day t) ycal then ycal else wcal in
  resolve (fold_left (fun s e => Z.lor s (if in_force t e then CA_state e else 0)) entries 0).

(** The moments at which the code reads a calendar as the manual page does: no time of day ends
    in this second, and if the day is one of the year field, then an entry of the year is in
    force now or none of the week is. *)
Definition reads_as_documented (ycal wcal : list ca) (t : Z) : Prop :=
  Forall (fun e => Forall (fun r => daytime_key (cullified t) <> hi daytime_key r)
                     (default [] (CA_daytime_range_list e))) (ycal ++ wcal) /\
  (existsb (entry_day t) ycal = true ->
   existsb (in_force t) ycal = true \/ existsb (in_force t) wcal = false).

Lemma states_snoc l e t : states_of (l ++ [e]) t = Z.lor (states_of l t) (active_state t e).
Proof. unfold states_of. by rewrite fold_left_app. Qed.

Lemma active_state_nonneg t e : state_ok e -> 0 <= active_state t e.
Proof. unfold active_state. intros [->|[->| ->]]; by destruct (entry_active e t). Qed.

Lemma states_nonneg l t : Forall state_ok l -> 0 <= states_of l t.
Proof.
  induction l as [|e l IH] using rev_ind; intros Hok; [done|].
  apply Forall_app in Hok as [Hl [He _]%Forall_cons]. rewrite states_snoc.
  apply Z.lor_nonneg. split; [by apply IH|by apply active_state_nonneg].
Qed.

Lemma states_zero l t : Forall state_ok l -> states_of l t = 0 <-> Forall (fun e => entry_active e t = false) l.
Proof.
  induction l as [|e l IH] using rev_ind; intros Hok; [done|].
  apply Forall_app in Hok as [Hl [He _]%Forall_cons]. rewrite states_snoc, Z.lor_eq_0_iff, IH by done.
  rewrite Forall_app, Forall_singleton. unfold active_state.
  destruct (entry_active e t); [|tauto]. destruct He as [->|[->| ->]]; naive_solver.
Qed.

(** No entry in front of [e] has its state. *)
Lemma states_land l e t :
  Forall state_ok l -> state_ok e -> CA_state e ∉ map CA_state l -> Z.land (states_of l t) (CA_state e) = 0.
Proof.
  induction l as [|q l IH] using rev_ind; intros Hok He Hni; [done|].
  apply Forall_app in Hok as [Hl [Hq _]%Forall_cons]. rewrite map_app in Hni. cbn [map] in Hni.
  rewrite states_snoc, Z.land_lor_distr_l, IH by set_solver. unfold active_state.
  assert (CA_state e <> CA_state q) as Hne by set_solver.
  destruct (entry_active q t); [|done].
  destruct He as [E1|[E1|E1]], Hq as [E2|[E2|E2]]; rewrite E1, E2 in *; done.
Qed.

Lemma states_ne l e t :
  Forall state_ok l -> state_ok e -> CA_state e ∉ map CA_state l -> (states_of l t =? CA_state e) = false.
Proof.
  intros Hok He Hni. apply Z.eqb_neq. intros E. pose proof (states_land l e t Hok He Hni) as Hl.
  rewrite E, Z.land_diag in Hl. by destruct He as [H1|[H1|H1]]; rewrite H1 in Hl.
Qed.

Lemma states_ext l t x :
  Forall (fun e => entry_active e x = entry_active e t) l -> states_of l x = states_of l t.
Proof.
  induction l as [|e l IH] using rev_ind; [done|]. intros [Hl [He _]%Forall_cons]%Forall_app.
  rewrite !states_snoc, IH by done. unfold active_state. by rewrite He.
Qed.

End Spec.

Section Offset.
Context (off : Z).
#[local] Hint Extern 0 Zone => exact (fixed_zone off) : typeclass_instances.

Notation day_of := (day_of off).
Notation time_ok := (time_ok off).

(** ** Putting limits together *)

Definition until (act : Z -> bool) (t next : Z) : Prop :=
  forall x, t <= x -> next = 0 \/ x < next -> day_ok (day_of x) -> act x = act t.

(** [next] is a limit for all entries of [l]; [quiet] tells that none is active. *)
Record limits (l : list ca) (t next : Z) : Prop := {
  li_until : Forall (fun e => until (entry_active e) t next) l;
  li_later : next = 0 \/ (t <= next /\ (Forall (fun e => entry_active e t = false) l -> t < next));
}.

Definition earlier (next limit : Z) : Z :=
  if (next =? 0) || (negb (limit =? 0) && (limit <? next)) then limit else next.

Lemma until_earlier act t next limit : 0 < t -> t <= next \/ next = 0 ->
  until act t next -> until act t (earlier next limit).
Proof.
  intros Ht Hn H x Hx Hl Hd. apply H; [done| |done]. unfold earlier in Hl.
  destruct (Z.eqb_spec next 0); [by left|]. right. cbn [orb] in Hl.
  destruct (Z.eqb_spec limit 0), (Z.ltb_spec limit next); cbn [negb andb] in Hl; lia.
Qed.

Lemma until_steady act t next limit : 0 < t -> steady off act t limit -> t <= next \/ next = 0 ->
  until act t (earlier next limit).
Proof.
  intros Ht H Hn x Hx Hl Hd. unfold steady in H. unfold earlier in Hl.
  destruct (Z.eqb_spec limit 0); [by apply H|]. destruct H as (H1 & H2 & H3). apply H3; [|done].
  destruct (Z.eqb_spec next 0), (Z.ltb_spec limit next); cbn [negb andb orb] in Hl; lia.
Qed.

Lemma limits_nil t : limits [] t 0.
Proof. split; [apply Forall_nil_2|by left]. Qed.

Lemma limits_snoc l e t next limit :
  0 < t -> limits l t next -> steady off (entry_active e) t limit -> limits (l ++ [e]) t (earlier next limit).
Proof.
  intros Ht [H1 H2] Hs. assert (t <= next \/ next = 0) as Hn by (destruct H2 as [|[]]; lia). split.
  - apply Forall_app. split.
    + eapply Forall_impl; [exact H1|]. intros q. by apply until_earlier.
    + apply Forall_singleton. by apply until_steady.
  - unfold steady, earlier in *. rewrite Forall_app, Forall_singleton.
    destruct (Z.eqb_spec limit 0), (Z.eqb_spec next 0), (Z.ltb_spec limit next); cbn [orb negb andb]; naive_solver lia.
Qed.

(** Without a change to a limit that is 0. *)
Lemma limits_forever l e t next :
  0 < t -> limits l t next -> steady off (entry_active e) t 0 -> limits (l ++ [e]) t next.
Proof.
  intros Ht H Hs. pose proof (limits_snoc l e t next 0 Ht H Hs) as Hl. unfold earlier in Hl.
  destruct (Z.eqb_spec next 0) as [->|]; exact Hl.
Qed.

(** ** The two loops *)

Definition entries_ok (ok : ca -> Prop) (l : list ca) : Prop :=
  Forall (fun e => ok e /\ smooth e) l /\ NoDup (map CA_state l).

Lemma entries_state_ok (ok : ca -> Prop) l : (forall e, ok e -> state_ok e) -> entries_ok ok l -> Forall state_ok l.
Proof. intros H [Hl _]. eapply Forall_impl; [exact Hl|]. intros e [He _]. by apply H. Qed.

Lemma year_loop t ycal : time_ok t -> entries_ok year_entry_ok ycal ->
  exists next, fold_left (year_step (cullified t)) ycal (Some (0, 0)) = Some (states_of ycal t, next) /\ limits ycal t next.
Proof.
  intros Ht. induction ycal as [|e l IH] using rev_ind; intros Hok.
  { exists 0. split; [done|apply limits_nil]. }
  destruct Hok as [[Hl [[He Hsm] _]%Forall_cons]%Forall_app Hnd]. rewrite map_app in Hnd.
  apply NoDup_app in Hnd as (Hnd & Hdis & _). cbn [map] in Hdis.
  assert (entries_ok year_entry_ok l) as Hok by done. destruct (IH Hok) as (next & E & Hli).
  assert (Forall state_ok l) as Hso by (eapply entries_state_ok; [|exact Hok]; by intros q []).
  rewrite fold_left_app, E. cbn [fold_left year_step mbind option_bind].
  destruct (year_entry_spec off e t He Ht) as (state & limit & -> & -> & Hst). cbn [mbind option_bind].
  specialize (Hst Hsm). exists (earlier next limit).
  assert (negb (states_of l t =? (if entry_active e t then CA_state e else 0)) || (states_of l t =? QI_DO_NOTHING) = true) as ->.
  { destruct (entry_active e t).
    - rewrite (states_ne l e t Hso); [done|apply He|]. intros Hin. apply (Hdis _ Hin). set_solver.
    - change QI_DO_NOTHING with 0. by destruct (_ =? 0). }
  rewrite states_snoc. split; [done|]. apply limits_snoc; [apply Ht|done|done].
Qed.

Lemma week_round_spec t counter done l v :
  time_ok t -> entries_ok week_entry_ok (done ++ l) -> wv_tm v = cullified t ->
  wv_state v = states_of done t -> wv_overlapping v = false ->
  exists v', week_round counter l v = Some v' /\ wv_state v' = states_of (done ++ l) t /\ wv_overlapping v' = false /\
    forall ys, limits (ys ++ done) t (wv_next_event v) -> limits (ys ++ done ++ l) t (wv_next_event v').
Proof.
  intros Ht. revert counter done v. induction l as [|e l IH]; intros counter done v Hok Htm Hst Hov.
  { exists v. rewrite app_nil_r. done. }
  pose proof Hok as [[Hd [[He Hsm] Hl]%Forall_cons]%Forall_app Hnd]. rewrite map_app in Hnd.
  apply NoDup_app in Hnd as (Hnd & Hdis & _). cbn [map] in Hdis.
  assert (Forall state_ok done) as Hso by (eapply Forall_impl; [exact Hd|]; by intros q [[] _]).
  assert (CA_state e ∉ map CA_state done) as Hni by (intros Hin; apply (Hdis _ Hin); set_solver).
  cbn [week_round]. rewrite Htm. destruct (week_entry_spec off e t He Ht) as (state & limit & next & -> & Hspec).
  destruct (Hspec Hsm) as (-> & Hsteady & ->). cbn [mbind option_bind]. rewrite Hst.
  assert (activate (states_of done t) (if entry_active e t then CA_state e else 0) = states_of (done ++ [e]) t) as ->.
  { rewrite states_snoc. unfold activate, active_state. destruct (entry_active e t); [|by rewrite Z.lor_0_r].
    destruct He as [He _]. by destruct He as [->|[->| ->]]. }
  assert (negb (limit =? 0) && (states_of (done ++ [e]) t =? (if limit =? 0 then 0 else if entry_active e t then 0 else CA_state e)) = false) as Hno.
  { destruct (limit =? 0); [done|]. cbn [negb andb]. rewrite states_snoc. unfold active_state.
    destruct (entry_active e t).
    - apply Z.eqb_neq. rewrite Z.lor_eq_0_iff. destruct He as [He _]. intros [_ E]. by destruct He as [E2|[E2|E2]]; rewrite E2 in E.
    - rewrite Z.lor_0_r. apply states_ne; [done|apply He|done]. }
  rewrite Hno. cbn [andb].
  set (next' := if negb _ && _ then limit else wv_next_event v).
  assert (forall ys, limits (ys ++ done) t (wv_next_event v) -> limits (ys ++ done ++ [e]) t next') as Hnext.
  { intros ys Hys. rewrite app_assoc. destruct (Z.eqb_spec limit 0) as [E0|Hl0].
    - unfold next'. rewrite E0 in Hsteady |- *. cbn [Z.eqb negb andb]. rewrite orb_false_r.
      destruct (Z.eqb_spec (wv_next_event v) 0) as [E|E].
      + clear Hno. destruct (negb _ && _).
        * rewrite <- E. apply limits_forever; [apply Ht|done|done].
        * apply limits_forever; [apply Ht|done|done].
      + rewrite andb_false_r. apply limits_forever; [apply Ht|done|done].
    - cbn [negb andb] in Hno. unfold next'. rewrite Hno. cbn [negb andb].
      pose proof (limits_snoc (ys ++ done) e t (wv_next_event v) limit) as Hsn. unfold earlier in Hsn.
      rewrite (proj2 (Z.eqb_neq limit 0) Hl0) in Hsn. apply Hsn; [apply Ht|done|done]. }
  destruct (IH (S counter) (done ++ [e]) (Wv (states_of (done ++ [e]) t) next' (wv_tm v) (wv_visited v) (wv_overlapping v)))
    as (v' & E & H1 & H2 & H3); try done.
  - by rewrite <- app_assoc.
  - rewrite <- app_assoc in H1. exists v'. rewrite Htm in E. split; [exact E|]. split; [done|]. split; [done|].
    intros zs Hzs. specialize (H3 zs). rewrite <- app_assoc in H3. by apply H3, Hnext.
Qed.

(** A calendar of smooth entries, at most one for every state in each field. *)
Definition calendar_ok (ycal wcal : list ca) : Prop :=
  entries_ok year_entry_ok ycal /\ entries_ok week_entry_ok wcal.

Lemma states_until l t next x :
  Forall (fun e => until (entry_active e) t next) l -> t <= x -> next = 0 \/ x < next -> day_ok (day_of x) ->
  states_of l x = states_of l t.
Proof.
  intros Hl Hx Hn Hd. apply states_ext. eapply Forall_impl; [exact Hl|]. intros e He. by apply He.
Qed.

Lemma state_at_spec ycal wcal t :
  calendar_ok ycal wcal -> time_ok t ->
  exists next, state_at t (Some ycal) (Some wcal) = Some (calendar_state ycal wcal t, next) /\
    (next = 0 \/ (t <= next /\
       (Forall (fun e => entry_active e t = false) (ycal ++ wcal) -> t < next))) /\
    forall x, t <= x -> next = 0 \/ x < next -> day_ok (day_of x) ->
      calendar_state ycal wcal x = calendar_state ycal wcal t.
Proof.
  intros [Hy Hw] Ht. unfold state_at, calendar_state. cbn [default from_option id].
  change (default [] (Some ycal)) with ycal. change (default [] (Some wcal)) with wcal.
  destruct (year_loop t ycal Ht Hy) as (next & -> & Hli). cbn [mbind option_bind].
  assert (Forall state_ok ycal) as Hyo by (eapply entries_state_ok; [|exact Hy]; by intros q []).
  assert (Forall state_ok wcal) as Hwo by (eapply entries_state_ok; [|exact Hw]; by intros q []).
  destruct (Z.eqb_spec (states_of ycal t) 0) as [E|E].
  - rewrite E. cbn [week_loop]. 
    destruct (week_round_spec t 0 [] wcal (Wv 0 next (cullified t) (repeat false (length wcal)) false))
      as (v & Ev & H1 & H2 & H3); [done|done|done|done|done|].
    cbn [wv_state wv_next_event wv_tm wv_visited]. rewrite Ev. cbn [mbind option_bind]. rewrite H2. cbn [mbind option_bind].
    cbn [app] in H1. rewrite H1. exists (wv_next_event v). split; [done|].
    specialize (H3 ycal). rewrite app_nil_r in H3. specialize (H3 Hli). cbn [app] in H3. destruct H3 as [L1 L2].
    split; [done|]. apply Forall_app in L1 as [L1 L3]. intros x Hx Hn Hd.
    rewrite (states_until ycal t (wv_next_event v) x), E by done. cbn [Z.eqb].
    by rewrite (states_until wcal t (wv_next_event v) x).
  - exists next. split; [done|]. destruct Hli as [L1 L2]. split.
    + destruct L2 as [L2|[L2 L3]]; [by left|]. right. split; [done|]. intros [Hq _]%Forall_app. by apply L3.
    + intros x Hx Hn Hd. by rewrite (states_until ycal t next x), (proj2 (Z.eqb_neq _ _) E).
Qed.

(** ** Open for a time *)

(** No entry opens the queue on purpose. *)
Definition never_on (l : list ca) : Prop := Forall (fun e => CA_state e <> QI_DO_ENABLE) l.

Lemma resolve_enable s : resolve s = QI_DO_ENABLE <-> Z.land s QI_DO_ENABLE <> 0 \/
  (Z.land s QI_DO_SUSPEND = 0 /\ Z.land s QI_DO_DISABLE = 0).
Proof.
  unfold resolve. destruct (Z.eqb_spec (Z.land s QI_DO_ENABLE) 0); cbn [negb]; [|naive_solver].
  destruct (Z.eqb_spec (Z.land s QI_DO_SUSPEND) 0); cbn [negb]; [|by naive_solver].
  destruct (Z.eqb_spec (Z.land s QI_DO_DISABLE) 0); cbn [negb]; naive_solver.
Qed.

(** An enabled calendar that never opens a queue has no active entry. *)
Lemma enabled_quiet l t :
  Forall state_ok l -> never_on l -> resolve (states_of l t) = QI_DO_ENABLE -> states_of l t = 0.
Proof.
  intros Hok Hnon Hr. apply states_zero; [done|]. apply resolve_enable in Hr.
  assert (Z.land (states_of l t) QI_DO_ENABLE = 0 /\
    (Forall (fun e => entry_active e t = false) l \/
     Z.land (states_of l t) QI_DO_SUSPEND <> 0 \/ Z.land (states_of l t) QI_DO_DISABLE <> 0)) as [H1 H2].
  { clear Hr. induction l as [|e l IH] using rev_ind; [by split; [|left]|].
    apply Forall_app in Hok as [Hl [He _]%Forall_cons]. apply Forall_app in Hnon as [Hnl [Hne _]%Forall_cons].
    destruct (IH Hl Hnl) as [I1 I2]. rewrite states_snoc, !Z.land_lor_distr_l, I1, Forall_app, Forall_singleton.
    unfold active_state. destruct (entry_active e t).
    - destruct He as [E|[E|E]]; [congruence| |]; rewrite E; split; try done; right; [right|left];
        rewrite Z.lor_eq_0_iff; intros [_ Hz]; done.
    - split; [done|]. rewrite !Z.lor_0_r. naive_solver. }
  destruct Hr as [Hr|[Hr1 Hr2]]; [done|]. destruct H2 as [H2|[H2|H2]]; done.
Qed.

Lemma time_ok_between a b x : time_ok a -> time_ok b -> a <= x <= b -> time_ok x.
Proof.
  intros (A1 & [A2 A3] & A4) (B1 & [B2 B3] & [B4 B5]) Hx. unfold CalEntry.time_ok, day_ok in *.
  pose proof (day_mono off a x ltac:(lia)). pose proof (day_mono off x b ltac:(lia)). lia.
Qed.

Lemma enabled_inactive ycal wcal t :
  calendar_ok ycal wcal -> never_on ycal -> never_on wcal -> calendar_state ycal wcal t = QI_DO_ENABLE ->
  Forall (fun e => entry_active e t = false) (ycal ++ wcal).
Proof.
  intros [Hy Hw] Hyn Hwn E.
  assert (Forall state_ok ycal) as Hyo by (eapply entries_state_ok; [|exact Hy]; by intros q []).
  assert (Forall state_ok wcal) as Hwo by (eapply entries_state_ok; [|exact Hw]; by intros q []).
  unfold calendar_state in E. rewrite Forall_app. destruct (Z.eqb_spec (states_of ycal t) 0) as [E0|E0].
  - split; [by apply states_zero|]. apply states_zero; [done|]. by apply enabled_quiet.
  - apply enabled_quiet in E; done.
Qed.

(** ** The manual page *)

Definition has_times (e : ca) : Prop :=
  exists dt, CA_daytime_range_list e = Some dt /\ daytimes_ok dt.

Lemma calendar_has_times ycal wcal : calendar_ok ycal wcal -> Forall has_times (ycal ++ wcal).
Proof.
  intros [[Hy _] [Hw _]]. apply Forall_app. split.
  - eapply Forall_impl; [exact Hy|]. intros e [(_ & _ & [[_ E]|(yl & dt & _ & E & _ & H)]) _].
    + eexists. split; [exact E|apply full_daytimes_ok].
    + by exists dt.
  - eapply Forall_impl; [exact Hw|]. intros e [(_ & _ & wl & dt & _ & E & _ & H) _]. by exists dt.
Qed.

Lemma cullified_daytime t : day_ok (day_of t) -> daytime_dom (cullified t).
Proof. intros Hd. rewrite cullified_id by done. apply localtime_time. Qed.

Lemma active_closed e t : day_ok (day_of t) -> has_times e ->
  entry_active e t = entry_day t e && times (default [] (CA_daytime_range_list e)) (daytime_key (cullified t)).
Proof.
  intros Hd (dt & E & Hdt). unfold entry_active, entry_day. rewrite E.
  by rewrite times_in_list by (done || by apply cullified_daytime).
Qed.

(** What is in force is active; and the other way round unless a range ends now. *)
Lemma in_force_active e t : day_ok (day_of t) -> has_times e -> in_force t e = true -> entry_active e t = true.
Proof.
  intros Hd He. rewrite active_closed by done. unfold in_force. rewrite !andb_true_iff.
  intros [? (r & Hr & E)%existsb_exists]. split; [done|]. apply times_spec. exists r.
  split; [by apply list_elem_of_In|]. lia.
Qed.

Lemma in_force_same e t : day_ok (day_of t) -> has_times e ->
  Forall (fun r => daytime_key (cullified t) <> hi daytime_key r) (default [] (CA_daytime_range_list e)) ->
  in_force t e = entry_active e t.
Proof.
  intros Hd He Hends. apply eq_true_iff_eq. split; [by apply in_force_active|].
  rewrite active_closed by done. unfold in_force. rewrite !andb_true_iff.
  intros [? (r & Hr & E)%times_spec]. split; [done|]. apply existsb_exists. exists r.
  split; [by apply list_elem_of_In|]. rewrite Forall_forall in Hends. specialize (Hends r Hr). lia.
Qed.

Lemma states_in_force l t :
  Forall (fun e => in_force t e = entry_active e t) l ->
  fold_left (fun s e => Z.lor s (if in_force t e then CA_state e else 0)) l 0 = states_of l t.
Proof.
  induction l as [|e l IH] using rev_ind; [done|]. intros [Hl [He _]%Forall_cons]%Forall_app.
  rewrite fold_left_app, states_snoc, IH by done. cbn [fold_left]. unfold active_state. by rewrite He.
Qed.

Lemma none_in_force l t :
  Forall (fun e => in_force t e = false) l ->
  fold_left (fun s e => Z.lor s (if in_force t e then CA_state e else 0)) l 0 = 0.
Proof.
  induction l as [|e l IH] using rev_ind; [done|]. intros [Hl [He _]%Forall_cons]%Forall_app.
  rewrite fold_left_app, IH by done. cbn [fold_left]. by rewrite He.
Qed.

Lemma existsb_none {A} (f : A -> bool) l : existsb f l = false <-> Forall (fun x => f x = false) l.
Proof.
  induction l as [|x l IH]; [by split|]. cbn [existsb].
  by rewrite orb_false_iff, IH, Forall_cons.
Qed.

Lemma day_not_in_force t e : entry_day t e = false -> in_force t e = false.
Proof. unfold in_force. by intros ->. Qed.

(** Outside those moments the code reads the calendar as documented. *)
Lemma documented_state ycal wcal t :
  calendar_ok ycal wcal -> day_ok (day_of t) -> reads_as_documented ycal wcal t ->
  calendar_state ycal wcal t = manual_state ycal wcal t.
Proof.
  intros Hok Hd [Hends Hyear]. pose proof (calendar_has_times _ _ Hok) as Ht.
  assert (Forall (fun e => in_force t e = entry_active e t) (ycal ++ wcal)) as Hsame.
  { rewrite Forall_forall in *. intros e He. apply in_force_same; auto. }
  apply Forall_app in Hsame as [Hy Hw]. destruct Hok as [Hyo Hwo].
  assert (Forall state_ok ycal) as Hys by (eapply entries_state_ok; [|exact Hyo]; by intros q []).
  assert (Forall state_ok wcal) as Hws by (eapply entries_state_ok; [|exact Hwo]; by intros q []).
  unfold calendar_state, manual_state.
  assert (forall l, Forall (fun e => in_force t e = entry_active e t) l -> Forall state_ok l ->
    states_of l t = 0 <-> existsb (in_force t) l = false) as Hz.
  { intros l Hl Hs. rewrite states_zero, existsb_none by done. rewrite !Forall_forall in *.
    split; intros H e He; [rewrite Hl by done|rewrite <- Hl by done]; by apply H. }
  destruct (existsb (entry_day t) ycal) eqn:Eday.
  - rewrite (states_in_force ycal) by done. destruct (Z.eqb_spec (states_of ycal t) 0) as [E|E]; [|done].
    rewrite E. f_equal. apply Hz; [done..|]. destruct (Hyear eq_refl) as [Hin|]; [|done].
    apply Hz in E; [congruence|done..].
  - rewrite (states_in_force wcal) by done.
    assert (states_of ycal t = 0) as ->; [|done]. apply Hz; [done..|].
    rewrite existsb_none in *. eapply Forall_impl; [exact Eday|]. apply day_not_in_force.
Qed.

(** When the code says enabled, the manual page does, unless the calendar opens on purpose. *)
Lemma enabled_documented ycal wcal t :
  calendar_ok ycal wcal -> never_on ycal -> never_on wcal -> day_ok (day_of t) ->
  calendar_state ycal wcal t = QI_DO_ENABLE -> manual_state ycal wcal t = QI_DO_ENABLE.
Proof.
  intros Hok Hyn Hwn Hd E. pose proof (calendar_has_times _ _ Hok) as Ht.
  pose proof (enabled_inactive ycal wcal t Hok Hyn Hwn E) as Hq.
  assert (Forall (fun e => in_force t e = false) (ycal ++ wcal)) as Hn.
  { rewrite Forall_forall in *. intros e He. apply not_true_iff_false. intros Hin.
    apply in_force_active in Hin; [|done|by apply Ht]. by rewrite Hq in Hin. }
  apply Forall_app in Hn as [Hn1 Hn2]. unfold manual_state.
  by rewrite none_in_force by (by destruct (existsb _ _)).
Qed.

Lemma open_loop_spec ycal wcal end_ (fuel : nat) start :
  calendar_ok ycal wcal -> never_on ycal -> never_on wcal -> time_ok start -> time_ok end_ -> start <= end_ ->
  end_ - start < fuel ->
  exists b, open_loop fuel (Some ycal) (Some wcal) start end_ = Some b /\
    (b = true <-> forall x, start <= x <= end_ -> calendar_state ycal wcal x = QI_DO_ENABLE).
Proof.
  intros Hok Hyn Hwn Hs He. revert start Hs. induction fuel as [|fuel IH]; intros start Hs Hle Hf; [lia|].
  cbn [open_loop]. destruct (state_at_spec ycal wcal start Hok Hs) as (next & -> & Hnext & Hsame).
  cbn [mbind option_bind]. destruct (Z.eqb_spec (calendar_state ycal wcal start) QI_DO_ENABLE) as [E|E].
  2: { exists false. split; [done|]. split; [done|]. intros H. specialize (H start ltac:(lia)). done. }
  pose proof (enabled_inactive ycal wcal start Hok Hyn Hwn E) as Hquiet.
  cbn [andb]. destruct (Z.eqb_spec next 0) as [E0|E0]; cbn [negb andb].
  - exists true. split; [done|]. split; [|done]. intros _ x Hx. rewrite Hsame; [done|lia|by left|].
    by destruct (time_ok_between start end_ x Hs He Hx) as (_ & ? & _).
  - destruct Hnext as [|[Hn1 Hn2]]; [done|]. specialize (Hn2 Hquiet). destruct (Z.leb_spec next end_) as [Hne|Hne].
    + assert (time_ok next) as Hnt by (apply (time_ok_between start end_); done || lia).
      destruct (IH next Hnt Hne ltac:(lia)) as (b & -> & Hb). exists b. split; [done|]. rewrite Hb. split.
      * intros H x Hx. destruct (Z.lt_ge_cases x next); [|apply H; lia].
        rewrite Hsame; [done|lia|by right|]. by destruct (time_ok_between start end_ x Hs He Hx) as (_ & ? & _).
      * intros H x Hx. apply H. lia.
    + exists true. split; [done|]. split; [|done]. intros _ x Hx. rewrite Hsame; [done|lia|right; lia|].
      by destruct (time_ok_between start end_ x Hs He Hx) as (_ & ? & _).
Qed.

End Offset.

End CalStateProps.
