(* ===== verification/CalWeek.v ===== *)
(** CalWeek: joining and extending the ranges of a week field. *)

From S2P Require Import Prelude CalTime Calendar CalFacts CalState CalDays.
Import CalTime Calendar CalFacts CalMoments CalState CalDays.

Module CalWeek.

(** A range within one week. *)
Definition in_week (r : tmr) : Prop :=
  0 <= begin_wday r <= end_wday r /\ end_wday r <= 6 /\ starts_day (TMR_begin r).

Lemma end_wday_last r : end_wday r = tm_wday (last_of r).
Proof. unfold end_wday, last_of, begin_wday. by destruct (TMR_end r). Qed.

Lemma in_week_range r : in_week r -> range_ok wday_dom tm_wday r.
Proof.
  intros ((H1 & H2) & H3 & _). rewrite end_wday_last in *. unfold begin_wday in *.
  split; unfold wday_dom, lo, hi; lia.
Qed.

(** ** Joining *)

(** Ranges that begin on Sunday. *)
Definition sundays (l : list tmr) : list tmr := List.filter (fun r => begin_wday r =? 0) l.

Lemma sundays_app l1 l2 : sundays (l1 ++ l2) = sundays l1 ++ sundays l2.
Proof. apply List.filter_app. Qed.

Lemma join_one_spec b e has_end r1 r2 :
  in_week r1 -> in_week r2 -> begin_wday r1 = b -> b <= e <= 6 ->
  in_week (fst (join_one b e has_end r1 r2)) /\ begin_wday (fst (join_one b e has_end r1 r2)) = b /\
  (b = 0 -> begin_wday r2 = 0 -> snd (join_one b e has_end r1 r2) = true).
Proof.
  intros H1 H2 Hb He. pose proof H1 as ((? & ?) & ? & ?). pose proof H2 as ((? & ?) & ? & ?).
  unfold join_one. rewrite u32_small by lia.
  destruct (Z.leb_spec (begin_wday r2) (e + 1)), (Z.leb_spec b (begin_wday r2)); cbn [andb];
    try (split; [done|]; split; [done|]; lia).
  destruct (Z.ltb_spec e (end_wday r2)); [|by split].
  split; [|split; [|done]].
  - destruct has_end.
    + split; [|split; [|done]].
      * unfold end_wday, begin_wday in *. cbn [fst TMR_begin TMR_end]. destruct (TMR_end r1); cbn [fmap option_fmap option_map with_wday tm_wday] in *; lia.
      * unfold end_wday, begin_wday in *. cbn [fst TMR_begin TMR_end]. destruct (TMR_end r1); cbn [fmap option_fmap option_map with_wday tm_wday] in *; lia.
    + unfold end_wday, begin_wday in *. split; [|split; [|done]]; unfold end_wday, begin_wday; cbn [fst TMR_begin TMR_end];
        destruct (TMR_end r2); lia.
  - by destruct has_end.
Qed.

Lemma join_others_spec b e has_end r1 l :
  in_week r1 -> Forall in_week l -> begin_wday r1 = b -> b <= e <= 6 ->
  let '(r1', l') := join_others b e has_end r1 l in
  in_week r1' /\ Forall in_week l' /\ begin_wday r1' = b /\ (length l' <= length l)%nat /\
  (b = 0 -> sundays l' = []) /\ (length (sundays l') <= length (sundays l))%nat.
Proof.
  intros H1 Hl. revert r1 H1. induction Hl as [|r2 l H2 Hl IH]; intros r1 H1 Hb He; [cbn [join_others]; by repeat (split; [done|])|].
  cbn [join_others]. destruct (join_one_spec b e has_end r1 r2 H1 H2 Hb He) as (J1 & J2 & J3).
  destruct (join_one b e has_end r1 r2) as [r1' removed]. cbn [fst snd] in *.
  specialize (IH r1' J1 J2 He). destruct (join_others b e has_end r1' l) as [r1'' l'].
  destruct IH as (I1 & I2 & I3 & I4 & I5 & I6).
  split; [done|]. split; [destruct removed; [done|by apply Forall_cons_2]|]. split; [done|].
  split; [destruct removed; simpl; lia|]. unfold sundays in *. split.
  - intros E. specialize (I5 E). destruct removed; [done|]. cbn [List.filter].
    destruct (Z.eqb_spec (begin_wday r2) 0) as [E2|E2]; [|done]. specialize (J3 E E2). done.
  - destruct removed; cbn [List.filter]; destruct (begin_wday r2 =? 0); cbn [length]; lia.
Qed.

Lemma join_loop_spec fuel bf l :
  Forall in_week bf -> Forall in_week l -> (length l <= fuel)%nat -> bf ++ l <> [] ->
  (length (sundays bf) <= 1)%nat -> (sundays bf <> [] -> sundays l = []) ->
  exists l', join_loop fuel bf l = Some l' /\ Forall in_week l' /\ l' <> [] /\ (length (sundays l') <= 1)%nat.
Proof.
  revert bf l. induction fuel as [|fuel IH]; intros bf [|r1 l] Hbf Hl Hf Hne Hs1 Hs2; try (simpl in Hf; lia);
    try (exists bf; rewrite app_nil_r in Hne; by split).
  apply Forall_cons in Hl as [H1 Hl]. cbn [join_loop].
  set (has_end := match TMR_end r1 with Some _ => true | None => false end). pose proof H1 as ((Hb1 & Hb2) & Hb3 & _).
  pose proof (join_others_spec (begin_wday r1) (end_wday r1) has_end r1 bf H1 Hbf eq_refl ltac:(lia)) as J.
  destruct (join_others _ _ _ r1 bf) as [r1' bf']. destruct J as (J1 & J2 & J3 & J4 & J5 & J6).
  pose proof (join_others_spec (begin_wday r1) (end_wday r1) has_end r1' l J1 Hl J3 ltac:(lia)) as K.
  destruct (join_others _ _ _ r1' l) as [r1'' l']. destruct K as (K1 & K2 & K3 & K4 & K5 & K6).
  assert (sundays l' <> [] -> sundays l <> []) as Hmono.
  { intros Hx Hy. rewrite Hy in K6. destruct (sundays l'); [done|simpl in K6; lia]. }
  unfold sundays in Hs2. cbn [List.filter] in Hs2. fold (sundays l) in Hs2. fold (sundays bf) in Hs2.
  apply IH.
  - apply Forall_app. split; [done|]. by apply Forall_singleton.
  - done.
  - simpl in Hf. lia.
  - by destruct bf'.
  - rewrite sundays_app, length_app. unfold sundays at 2. cbn [List.filter]. rewrite K3.
    destruct (Z.eqb_spec (begin_wday r1) 0) as [E|E]; [rewrite J5 by done; simpl; lia|simpl; lia].
  - rewrite sundays_app. intros Hx. destruct (Z.eq_dec (begin_wday r1) 0) as [E|E]; [by apply K5|].
    destruct (sundays l') eqn:El; [done|exfalso]. apply Hmono; [done|].
    rewrite (proj2 (Z.eqb_neq _ _) E) in Hs2. apply Hs2. intros Hbz. rewrite Hbz in J6.
    destruct (sundays bf') eqn:Eb; [|simpl in J6; lia]. apply Hx. unfold sundays. cbn [List.filter app].
    rewrite K3, (proj2 (Z.eqb_neq _ _) E). done.
Qed.

Lemma join_wday_spec l :
  Forall in_week l -> l <> [] ->
  exists l', join_wday_range l = Some l' /\ Forall in_week l' /\ l' <> [] /\ (length (sundays l') <= 1)%nat.
Proof. intros Hl Hne. apply join_loop_spec; try done. simpl. lia. Qed.

(** ** Extending *)

(** [r] goes on with the range that begins on Sunday. *)
Definition extended (l : list tmr) (r r' : tmr) : Prop :=
  TMR_begin r' = TMR_begin r /\
  (last_of r' = last_of r \/
   (begin_wday r <> 0 /\ end_wday r = 6 /\ exists z, z ∈ l /\ begin_wday z = 0 /\ tm_wday (last_of r') = 7 + end_wday z)).

Lemma sundays_elem l z : z ∈ l -> begin_wday z = 0 -> z ∈ sundays l.
Proof.
  intros Hz E. unfold sundays. apply list_elem_of_In, List.filter_In. split; [by apply list_elem_of_In|lia].
Qed.

Lemma sundays_once (bf af : list tmr) r y :
  (length (sundays (bf ++ r :: af)) <= 1)%nat -> y ∈ bf ++ af -> begin_wday y = 0 -> begin_wday r <> 0.
Proof.
  intros Hs Hy Ey Er. pose proof (sundays_elem _ y Hy Ey) as Sy. rewrite sundays_app in *.
  unfold sundays at 2 in Hs. cbn [List.filter] in Hs. rewrite Er, Z.eqb_refl in Hs. fold (sundays af) in Hs.
  rewrite length_app in Hs. cbn [length] in Hs.
  destruct (sundays bf), (sundays af); cbn [length] in Hs; try lia. by apply elem_of_nil in Sy.
Qed.

Lemma extended_sunday l r r' : extended l r r' -> begin_wday r' = 0 -> begin_wday r = 0 /\ end_wday r' = end_wday r.
Proof.
  intros [E1 E2] E. unfold begin_wday in *. rewrite E1 in E. split; [done|].
  rewrite !end_wday_last. destruct E2 as [->|(H & _)]; [done|done].
Qed.

Lemma extend_one_spec l r1 r r2 r2' :
  in_week r1 -> extended l r1 r -> r2 ∈ l -> in_week r2 -> extended l r2 r2' ->
  (begin_wday r2 = 0 -> begin_wday r1 <> 0) ->
  extended l r1 (extend_one (end_wday r1) r r2').
Proof.
  intros H1 [E1 E2] Hin ((Hb & Hbe) & He & _) Hr2 Hs. unfold extend_one.
  destruct (Z.eqb_spec (end_wday r1) 6) as [E6|E6]; cbn [andb]; [|by split].
  destruct (Z.eqb_spec (begin_wday r2') 0) as [E0|E0]; [|by split].
  apply extended_sunday in Hr2 as [E0' Ee]; [|done].
  split; [done|]. right. split; [by apply Hs|]. split; [done|]. exists r2. split; [done|]. split; [done|].
  rewrite Ee, u32_small by lia. unfold last_of. cbn [TMR_end with_wday tm_wday]. lia.
Qed.

Lemma extended_refl l r : extended l r r.
Proof. split; [done|by left]. Qed.

Lemma extend_fold l r1 os os' r :
  in_week r1 -> extended l r1 r -> Forall2 (extended l) os os' -> Forall (fun r => r ∈ l /\ in_week r) os ->
  (forall r2, r2 ∈ os -> begin_wday r2 = 0 -> begin_wday r1 <> 0) ->
  extended l r1 (fold_left (extend_one (end_wday r1)) os' r).
Proof.
  intros H1 Hr Ho Hos Hs. revert r Hr. induction Ho as [|r2 r2' os os' H2 Ho IH]; intros r Hr; [done|].
  apply Forall_cons in Hos as [[Hin Hw] Hos]. cbn [fold_left]. apply IH; [done| |].
  - intros q Hq. apply Hs. by right.
  - eapply extend_one_spec; eauto. apply Hs. by left.
Qed.

(** The ranges in front of [r1] have been extended, all others are as they were. *)
Lemma extend_loop_spec (l bf0 bf af : list tmr) :
  Forall in_week l -> (length (sundays l) <= 1)%nat ->
  l = bf0 ++ af -> Forall2 (extended l) bf0 bf -> Forall2 (extended l) l (extend_loop bf af).
Proof.
  intros Hl Hs. revert bf0 bf. induction af as [|r1 af IH]; intros bf0 bf El Hbf.
  { cbn [extend_loop]. rewrite app_nil_r in El. by rewrite El at 2. }
  cbn [extend_loop]. apply (IH (bf0 ++ [r1])); [by rewrite <- app_assoc|].
  apply Forall2_app; [done|]. constructor; [|by constructor].
  rewrite Forall_forall in Hl. apply extend_fold with (bf0 ++ af).
  - apply Hl. rewrite El. set_solver.
  - apply extended_refl.
  - apply Forall2_app; [done|]. apply Forall_Forall2_diag, Forall_forall. intros r _. apply extended_refl.
  - apply Forall_forall. intros r Hr. assert (r ∈ l) by (rewrite El; set_solver). auto.
  - intros r2 Hr2 E2. apply (sundays_once bf0 af r1 r2); [by rewrite <- El|done|done].
Qed.

(** The ranges of a week field: within the week before, closed over its end behind. *)
Lemma extend_spec l :
  Forall in_week l -> (length (sundays l) <= 1)%nat -> l <> [] -> wdays_ok (extend_wday_range l).
Proof.
  intros Hl Hs Hne. pose proof (extend_loop_spec l [] [] l Hl Hs eq_refl ltac:(constructor)) as H.
  fold (extend_wday_range l) in H. set (l' := extend_wday_range l) in *. clearbody l'.
  rewrite Forall_forall in Hl.
  assert (forall r', r' ∈ l' -> exists r, r ∈ l /\ extended l r r') as Hback.
  { intros r' Hr'. apply list_elem_of_lookup in Hr' as [i Hi].
    destruct (Forall2_lookup_r _ _ _ _ _ H Hi) as (r & Hr & He). exists r. split; [|done].
    apply list_elem_of_lookup. by exists i. }
  assert (forall r, r ∈ l -> exists r', r' ∈ l' /\ extended l r r') as Hforth.
  { intros r Hr. apply list_elem_of_lookup in Hr as [i Hi].
    destruct (Forall2_lookup_l _ _ _ _ _ H Hi) as (r' & Hr' & He). exists r'. split; [|done].
    apply list_elem_of_lookup. by exists i. }
  assert (forall r r', r ∈ l -> extended l r r' ->
    0 <= begin_wday r' <= 6 /\ begin_wday r' <= tm_wday (last_of r') <= 13 /\ end_wday r <= tm_wday (last_of r')) as Hb.
  { intros r r' Hr [E1 E2]. destruct (Hl r Hr) as ((H1 & H2) & H3 & _). unfold begin_wday in *. rewrite E1.
    destruct E2 as [->|(_ & _ & z & Hz & Ez & ->)]; [rewrite <- end_wday_last; lia|].
    destruct (Hl z Hz) as ((? & ?) & ? & _). unfold begin_wday in *. lia. }
  split.
  - intros ->. apply Forall2_nil_inv_r in H. done.
  - apply Forall_forall. intros r' Hr'. destruct (Hback r' Hr') as (r & Hr & He). pose proof (Hb r r' Hr He).
    unfold begin_wday in *. split; unfold wday_dom, lo, hi; lia.
  - apply Forall_forall. intros r' Hr'. destruct (Hback r' Hr') as (r & Hr & He). pose proof (Hb r r' Hr He).
    split; [lia|]. destruct He as [-> _]. by destruct (Hl r Hr) as (_ & _ & ?).
  - intros r' d Hr' Hd. destruct (Hback r' Hr') as (r & Hr & He). pose proof (Hb r r' Hr He) as (B1 & B2 & B3).
    destruct (Z.le_gt_cases d 6) as [H6|H6].
    + rewrite Z.mod_small by lia. apply Exists_exists. exists r'. split; [done|]. unfold lo, hi, begin_wday in *. lia.
    + destruct He as [_ [E|(_ & _ & z & Hz & Ez & E)]].
      { rewrite E, <- end_wday_last in *. destruct (Hl r Hr) as (_ & ? & _). lia. }
      destruct (Hl z Hz) as ((? & ?) & ? & _). destruct (Hforth z Hz) as (z' & Hz' & He').
      pose proof (Hb z z' Hz He') as (C1 & C2 & C3). replace (d mod 7) with (d - 7)
        by (apply Z.mod_unique with 1; lia).
      apply Exists_exists. exists z'. split; [done|]. destruct He' as [Eb _]. unfold lo, hi, begin_wday in *.
      rewrite Eb. lia.
Qed.

End CalWeek.
