(* ===== verification/CalParse.v ===== *)
(** CalParse: the year and week fields of a calendar as text (the parser of
    [libs/sgeobj/sge_calendar.cc]).

    The static variables of the scanner are a record that the functions pass on; a function
    of the code that returns -1 fails.  [Stuck] is a null pointer that is read or fuel that
    is gone. *)

From S2P Require Import Prelude Answer CalTime Host Text QState Calendar.
Import Answer CalTime Host Text QState Calendar.

Module CalParse.

Inductive token :=
  | DOT | COLON | EQUAL_SIGN | MINUS | COMMA | SPACE | NUMBER | STRING | NO_TOKEN | ERR_TOKEN.

#[export] Instance token_eq_dec : EqDecision token.
Proof. solve_decision. Defined.

(** What a number is of, and where it may lie. *)
Inductive field := Month | Day | Year | Hour | Minute | Seconds.

(** What is written to [parse_error]. *)
Inductive parse_message :=
  | UnrecognizedString (s : bytes)
  | UnrecognizedToken
  | EqualWithoutRangeOrState
  | FirstDayAfterSecond
  | MissingPointAfterDay
  | MissingPointAfterMonth
  | OutsideOfRange (s : bytes) (min max : Z) (f : field)
  | IsNotA (s : bytes) (f : field)
  | MissingDash
  | RangeIsEmpty
  | Beyond24h
  | IsNotAState (s : bytes)
  | UselessWeekdayRange
  | ExpectedWeekday
  | IsNotAWeekday (s : bytes).

(** The static variables; [overrun] tells that more than [store] holds was written to it. *)
Record scanner := Sc {
  sc_text : bytes;
  sc_set : list (token * bytes);
  sc_token : token;
  sc_valid : bool;
  sc_number : Z;
  sc_store : bytes;
  sc_error : option parse_message;
  sc_overrun : bool;
}.

Definition store_size : Z := 1000.

Definition isalpha (c : Z) : bool := ((65 <=? c) && (c <=? 90)) || ((97 <=? c) && (c <=? 122)).
Definition isalnum (c : Z) : bool := isalpha c || is_digit c.

(** ** The scanner *)

Definition with_store (s : bytes) (sc : scanner) : scanner :=
  Sc (sc_text sc) (sc_set sc) (sc_token sc) (sc_valid sc) (sc_number sc) s (sc_error sc)
     (sc_overrun sc || (store_size <=? length s)).
Definition with_number (n : Z) (sc : scanner) : scanner :=
  Sc (sc_text sc) (sc_set sc) (sc_token sc) (sc_valid sc) n (sc_store sc) (sc_error sc) (sc_overrun sc).
Definition with_token (t : token) (len : nat) (sc : scanner) : scanner :=
  Sc (drop len (sc_text sc)) (sc_set sc) t true (sc_number sc) (sc_store sc) (sc_error sc) (sc_overrun sc).

(** The digits of a number: their count, the number and whether it overflowed. *)
Fixpoint scan_digits (t : bytes) (old_number : Z) : nat * Z * bool :=
  match t with
  | c :: t =>
      if is_digit c then
        let number := s32 (old_number * 10 + (c - 48)) in
        if number <? old_number then (0%nat, number, true)
        else let '(j, n, e) := scan_digits t number in (S j, n, e)
      else (0%nat, old_number, false)
  | [] => (0%nat, old_number, false)
  end.

Fixpoint alnum_prefix (t : bytes) : bytes :=
  match t with
  | c :: t => if isalnum c then c :: alnum_prefix t else []
  | [] => []
  end.

(** The tokens of the set, one after the other. *)
Fixpoint try_tokens (ts : list (token * bytes)) (sc : scanner) : scanner :=
  match ts with
  | [] => with_token ERR_TOKEN 0 sc
  | (NUMBER, _) :: ts =>
      if starts_digit (sc_text sc) then
        let '(j, n, overflow) := scan_digits (sc_text sc) 0 in
        let sc := with_number n sc in
        if (overflow : bool) then with_token ERR_TOKEN 0 sc
        else with_token NUMBER j (with_store (take j (sc_text sc)) sc)
      else try_tokens ts sc
  | (STRING, _) :: ts =>
      match sc_text sc with
      | c :: _ =>
          if isalpha c then
            let word := alnum_prefix (sc_text sc) in
            with_token STRING (length word) (with_store word sc)
          else try_tokens ts sc
      | [] => try_tokens ts sc
      end
  | (tok, text) :: ts =>
      let len := length text in
      let sc := with_store (take len (sc_text sc)) sc in
      if strncasecmp text (sc_text sc) len =? 0 then with_token tok len sc else try_tokens ts sc
  end.

(** [scan(nullptr, nullptr)] *)
Definition scan (sc : scanner) : token * scanner :=
  let sc :=
    if sc_valid sc then sc
    else match sc_text sc with
         | [] => with_token NO_TOKEN 0 sc
         | _ => try_tokens (sc_set sc) sc
         end in
  (sc_token sc, sc).

(** [scan(s, token_set)] *)
Definition scan_init (s : bytes) (token_set : list (token * bytes)) (sc : scanner) : scanner :=
  snd (scan (Sc s token_set (sc_token sc) false (sc_number sc) (sc_store sc) None (sc_overrun sc))).

Definition cheap_scan (s : bytes) (tokenv : list (Z * bytes)) (n : nat) : Z :=
  let len := length s in
  let matches text := if (len <? n)%nat then strcasecmp text s =? 0 else strncasecmp text s len =? 0 in
  match find (fun e => matches (snd e)) tokenv with Some e => fst e | None => -1 end.

Definition statev : list (Z * bytes) :=
  [(QI_DO_ENABLE, str "on"); (QI_DO_DISABLE, str "off"); (QI_DO_SUSPEND, str "suspended")].

Definition monthv : list (Z * bytes) :=
  [(1, str "january"); (2, str "february"); (3, str "march"); (4, str "april"); (5, str "may"); (6, str "june");
   (7, str "july"); (8, str "august"); (9, str "september"); (10, str "october"); (11, str "november");
   (12, str "december")].

Definition weekdayv : list (Z * bytes) :=
  [(0, str "sunday"); (1, str "monday"); (2, str "tuesday"); (3, str "wednesday"); (4, str "thursday");
   (5, str "friday"); (6, str "saturday")].

Definition year_set : list (token * bytes) :=
  [(DOT, str "."); (COLON, str ":"); (EQUAL_SIGN, str "="); (MINUS, str "-"); (COMMA, str ","); (SPACE, str " ");
   (STRING, []); (NUMBER, [])].
Definition week_set : list (token * bytes) :=
  [(COLON, str ":"); (EQUAL_SIGN, str "="); (MINUS, str "-"); (COMMA, str ","); (SPACE, str " ");
   (STRING, []); (NUMBER, [])].

(** ** Parsers *)

Inductive res (A : Type) := Done (a : A) | Fail | Stuck.
#[global] Arguments Done {A}.
#[global] Arguments Fail {A}.
#[global] Arguments Stuck {A}.

Definition parser (A : Type) : Type := scanner -> res A * scanner.

#[export] Instance parser_ret : MRet parser := fun A a sc => (Done a, sc).
#[export] Instance parser_bind : MBind parser := fun A B f p sc =>
  match p sc with
  | (Done a, sc) => f a sc
  | (Fail, sc) => (Fail, sc)
  | (Stuck, sc) => (Stuck, sc)
  end.

Definition peek : parser token := fun sc => let '(t, sc) := scan sc in (Done t, sc).
Definition eat_token : parser unit := fun sc =>
  (Done tt, Sc (sc_text sc) (sc_set sc) (sc_token sc) false (sc_number sc) (sc_store sc) (sc_error sc) (sc_overrun sc)).
Definition get_string : parser bytes := fun sc => (Done (sc_store sc), sc).
Definition get_number : parser Z := fun sc => (Done (sc_number sc), sc).
(** The message is written and -1 returned. *)
Definition fail_with {A} (m : parse_message) : parser A := fun sc =>
  (Fail, Sc (sc_text sc) (sc_set sc) (sc_token sc) (sc_valid sc) (sc_number sc) (sc_store sc) (Some m) (sc_overrun sc)).
Definition fail {A} : parser A := fun sc => (Fail, sc).
Definition lift {A} (o : option A) : parser A := fun sc => (match o with Some a => Done a | None => Stuck end, sc).

(** The token has to be [t]. *)
Definition expect (t : token) (m : parse_message) : parser unit :=
  tok ← peek; if decide (tok = t) then eat_token else fail_with m.

Definition range_number (min max : Z) (f : field) : parser Z :=
  tok ← peek;
  if decide (tok = NUMBER) then
    n ← get_number; eat_token;; s ← get_string;
    if (max <? n) || (n <? min) then fail_with (OutsideOfRange s min max f) else mret n
  else s ← get_string; fail_with (IsNotA s f).

Definition month : parser Z :=
  tok ← peek;
  m ← (if decide (tok = STRING) then
          s ← get_string;
          let m := cheap_scan s monthv 3 in
          if m <? 0 then fail else eat_token;; mret m
        else range_number 1 12 Month);
  mret (m - 1).

Definition day : parser Z := range_number 1 31 Day.
Definition year : parser Z := range_number 1970 2037 Year.
Definition hour : parser Z := range_number 0 24 Hour.
Definition minute : parser Z := range_number 0 59 Minute.
Definition seconds : parser Z := range_number 0 59 Seconds.

Definition year_day : parser tm :=
  d ← day; expect DOT MissingPointAfterDay;;
  m ← month; expect DOT MissingPointAfterMonth;;
  y ← year;
  mret (Tm 0 0 0 d m (u32 (y - 1900)) 0 0 0).

Definition year_day_range : parser tmr :=
  t1 ← year_day; tok ← peek;
  if decide (tok = MINUS) then
    eat_token;; t2 ← year_day;
    if 0 <? tm_yday_cmp t1 t2 then fail_with FirstDayAfterSecond else mret (Tmr t1 (Some t2))
  else mret (Tmr t1 None).

(** The loop [while (scan(nullptr, nullptr)==COMMA)] around [p]. *)
Fixpoint comma_loop {A} (fuel : nat) (p : parser (list A)) (l : list A) : parser (list A) :=
  match fuel with
  | O => lift None
  | S fuel =>
      tok ← peek;
      if decide (tok = COMMA) then eat_token;; r ← p; comma_loop fuel p (l ++ r) else mret l
  end.

Definition year_day_range_list (fuel : nat) : parser (list tmr) :=
  let p := r ← year_day_range; mret [r] in
  l ← p; comma_loop fuel p l.

Definition daytime : parser tm :=
  h ← hour; tok ← peek;
  '(m, s) ← (if decide (tok = COLON) then
                eat_token;; m ← minute; tok ← peek;
                if decide (tok = COLON) then eat_token;; s ← seconds; mret (m, s) else mret (m, 0)
              else mret (0, 0));
  if (h =? 24) && (negb (m =? 0) || negb (s =? 0)) then fail_with Beyond24h
  else mret (Tm s m h 0 0 0 0 0 0).

Definition daytime_range : parser tmr :=
  t1 ← daytime; expect MINUS MissingDash;; t2 ← daytime;
  if tm_daytime_cmp t1 t2 =? 0 then fail_with RangeIsEmpty else mret (Tmr t1 (Some t2)).

Definition daytime_range_list (fuel : nat) : parser (list tmr) :=
  let p := r ← daytime_range; mret (split_daytime_range r) in
  l ← p; comma_loop fuel p l.

Definition action : parser Z :=
  tok ← peek; s ← get_string;
  if decide (tok = STRING) then
    let state := cheap_scan s statev 3 in
    if state <? 0 then fail_with (IsNotAState s) else eat_token;; mret state
  else fail_with (IsNotAState s).

Definition week_day : parser tm :=
  tok ← peek;
  if decide (tok = STRING) then
    s ← get_string;
    let wday := cheap_scan s weekdayv 3 in
    if wday <? 0 then fail_with (IsNotAWeekday s) else eat_token;; mret (with_wday wday tm_zero)
  else fail_with ExpectedWeekday.

Definition week_day_range : parser tmr :=
  t1 ← week_day; tok ← peek;
  if decide (tok = MINUS) then
    eat_token;; t2 ← week_day;
    if tm_wday_cmp t1 t2 =? 0 then fail_with UselessWeekdayRange else mret (Tmr t1 (Some t2))
  else mret (Tmr t1 None).

Definition week_day_range_list (fuel : nat) : parser (list tmr) :=
  let p := r ← week_day_range; mret (split_wday_range r) in
  l ← p; l ← comma_loop fuel p l;
  l ← lift (join_wday_range l);
  mret (extend_wday_range l).

(** What follows the days: times and state.  [EqualWithoutRangeOrState] when there is neither. *)
Definition times_and_state (fuel : nat) : parser (option (list tmr) * Z) :=
  tok ← peek;
  '(dtrl, more) ← (if decide (tok = NUMBER) then
       l ← daytime_range_list fuel;
       l ← lift (normalize_range_list l tm_daytime_cmp);
       tok ← peek;
       if decide (tok = EQUAL_SIGN) then eat_token;; mret (Some l, true) else mret (Some l, false)
     else mret (None, true));
  if (more : bool) then
    tok ← peek;
    if decide (tok = STRING) then state ← action; mret (dtrl, state)
    else fail_with EqualWithoutRangeOrState
  else mret (dtrl, QI_DO_DISABLE).

(** The days in front of an equal sign, times and state behind it. *)
Definition entry (fuel : nat) (has_days : parser bool) (days : parser (list tmr)) :
    parser (option (list tmr) * option (list tmr) * Z) :=
  d ← has_days;
  if (d : bool) then
    l ← days; tok ← peek;
    if decide (tok = EQUAL_SIGN) then
      eat_token;; '(dtrl, state) ← times_and_state fuel; mret (Some l, dtrl, state)
    else mret (Some l, None, QI_DO_DISABLE)
  else '(dtrl, state) ← times_and_state fuel; mret (None, dtrl, state).

Definition disabled_year_entry (fuel : nat) : parser ca :=
  '(ydrl, dtrl, state) ←
    entry fuel (tok ← peek; mret (bool_decide (tok = NUMBER))) (year_day_range_list fuel);
  mret (Ca ydrl None (Some (default full_daytime_range dtrl)) state).

Definition disabled_week_entry (fuel : nat) : parser ca :=
  '(wdrl, dtrl, state) ←
    entry fuel (tok ← peek; s ← get_string;
                mret (bool_decide (tok = STRING) && (cheap_scan s statev 3 <? 0))) (week_day_range_list fuel);
  mret (Ca None (Some (default full_weekday_range wdrl)) (Some (default full_daytime_range dtrl)) state).

Fixpoint skip_space_tokens (fuel : nat) : parser unit :=
  match fuel with
  | O => lift None
  | S fuel => tok ← peek; if decide (tok = SPACE) then eat_token;; skip_space_tokens fuel else mret tt
  end.

(** The loop [while (scan(nullptr, nullptr) == SPACE)]. *)
Fixpoint entry_loop (fuel : nat) (p : parser ca) (l : list ca) : parser (list ca) :=
  match fuel with
  | O => lift None
  | S fuel' =>
      tok ← peek;
      if decide (tok = SPACE) then
        eat_token;; skip_space_tokens fuel;; e ← p; entry_loop fuel' p (l ++ [e])
      else mret l
  end.

(** Entries up to the end of the text. *)
Definition entry_list (fuel : nat) (p : parser ca) (m : bytes -> parse_message) : parser (list ca) :=
  e ← p; l ← entry_loop fuel p [e]; tok ← peek;
  if decide (tok = NO_TOKEN) then mret l else s ← get_string; fail_with (m s).

Inductive field_kind := YearField | WeekField.

Section Lists.
(** The text of an error: the field, the message and the name of the calendar. *)
Context (text : field_kind -> option parse_message -> option bytes -> string).

(** The list of a field, [Fail] and an error when it is malformed. *)
Definition disabled_list (k : field_kind) (set : list (token * bytes)) (p : nat -> parser ca)
    (m : bytes -> parse_message) (al : answer_arg) (s : option bytes) (cal_name : option bytes) (sc : scanner) :
    res (option (list ca)) * answer_arg * scanner :=
  match s with
  | None => (Done None, al, sc)
  | Some s =>
      if strcasecmp s (str "none") =? 0 then (Done None, al, sc)
      else
        let fuel := S (length s) in
        match entry_list fuel (p fuel) m (scan_init s set sc) with
        | (Done l, sc) => (Done (Some l), al, sc)
        | (Fail, sc) =>
            (Fail, snd (answer_list_add al (text k (sc_error sc) cal_name) STATUS_EEXIST ANSWER_QUALITY_ERROR), sc)
        | (Stuck, sc) => (Stuck, al, sc)
        end
  end.

Definition disabled_year_list := disabled_list YearField year_set disabled_year_entry UnrecognizedString.
Definition disabled_week_list := disabled_list WeekField week_set disabled_week_entry (fun _ => UnrecognizedToken).

Definition calendar_parse_year (c : cal) (al : answer_arg) (sc : scanner) : res bool * cal * answer_arg * scanner :=
  match disabled_year_list al (CAL_year_calendar c) (CAL_name c) sc with
  | (Done l, al, sc) =>
      (Done true, Cal (CAL_name c) (CAL_year_calendar c) (CAL_week_calendar c) l (CAL_parsed_week_calendar c), al, sc)
  | (Fail, al, sc) => (Done false, c, al, sc)
  | (Stuck, al, sc) => (Stuck, c, al, sc)
  end.

Definition calendar_parse_week (c : cal) (al : answer_arg) (sc : scanner) : res bool * cal * answer_arg * scanner :=
  match disabled_week_list al (CAL_week_calendar c) (CAL_name c) sc with
  | (Done l, al, sc) =>
      (Done true, Cal (CAL_name c) (CAL_year_calendar c) (CAL_week_calendar c) (CAL_parsed_year_calendar c) l, al, sc)
  | (Fail, al, sc) => (Done false, c, al, sc)
  | (Stuck, al, sc) => (Stuck, c, al, sc)
  end.

End Lists.

(** The static variables when the program starts. *)
Definition scanner_start : scanner := Sc [] [] DOT false 0 [] None false.

End CalParse.
