(* ===== verification/CalParseFacts.v ===== *)
(** CalParseFacts: what the parser of calendars makes of any text. *)

From S2P Require Import Prelude Answer CalTime Host Text QState Calendar CalFacts CalState CalDays CalEntry CalWeek CalParse.
Import Answer CalTime Host Text QState Calendar CalFacts CalMoments CalState CalDays CalEntry CalWeek CalParse.

Module CalParseFacts.

(** ** Running to the end *)

Definition real (t : token) : bool := negb (bool_decide (t = NO_TOKEN \/ t = ERR_TOKEN)).

(** What is left of the text, with the token that has been read but not eaten. *)
Definition left_over (sc : scanner) : nat :=
  (length (sc_text sc) + if sc_valid sc && real (sc_token sc) then 1 else 0)%nat.

(** The texts of a token set are not empty. *)
Definition set_ok (ts : list (token * bytes)) : Prop :=
  Forall (fun e => fst e <> NO_TOKEN /\ fst e <> ERR_TOKEN /\
    (snd e <> [] \/ fst e = NUMBER \/ fst e = STRING)) ts.

(** A result that satisfies [Q] with at most [n] left, or a failure. *)
Definition good {A} (n : nat) (Q : A -> Prop) (x : res A * scanner) : Prop :=
  match x with
  | (Done a, sc) => Q a /\ (left_over sc <= n)%nat /\ set_ok (sc_set sc)
  | (Fail, _) => True
  | (Stuck, _) => False
  end.

Lemma good_bind {A B} n m (Q : A -> Prop) (R : B -> Prop) (p : parser A) (f : A -> parser B) sc :
  good n Q (p sc) ->
  (forall a sc', Q a -> (left_over sc' <= n)%nat -> set_ok (sc_set sc') -> good m R (f a sc')) -> good m R ((p ≫= f) sc).
Proof.
  unfold mbind, parser_bind, good. destruct (p sc) as [[a| |] sc']; try done. intros (HQ & Hn & Hs) H. by apply H.
Qed.

Lemma good_ret {A} n (Q : A -> Prop) (a : A) sc :
  Q a -> (left_over sc <= n)%nat -> set_ok (sc_set sc) -> good n Q ((mret a : parser A) sc).
Proof. done. Qed.

Lemma good_mono {A} n m (Q R : A -> Prop) x : (n <= m)%nat -> (forall a, Q a -> R a) -> good n Q x -> good m R x.
Proof. intros Hn HQ. destruct x as [[a| |] sc]; [|done|done]. intros (H1 & H2 & H3). split; [auto|split; [lia|done]]. Qed.

Lemma scan_digits_length t old : (fst (fst (scan_digits t old)) <= length t)%nat.
Proof.
  revert old. induction t as [|c t IH]; intros old; cbn [scan_digits]; [done|].
  destruct (is_digit c); [|simpl; lia]. destruct (_ <? _); [simpl; lia|].
  specialize (IH (s32 (old * 10 + (c - 48)))). destruct (scan_digits t _) as [[j n] e]. simpl in *. lia.
Qed.

Lemma scan_digits_some c t old :
  is_digit c = true -> snd (scan_digits (c :: t) old) = false -> (1 <= fst (fst (scan_digits (c :: t) old)))%nat.
Proof.
  intros Hc. cbn [scan_digits]. rewrite Hc. destruct (_ <? _); [done|].
  destruct (scan_digits t _) as [[j n] e]. simpl. lia.
Qed.

Lemma alnum_length t : (length (alnum_prefix t) <= length t)%nat.
Proof. induction t as [|c t IH]; [done|]. simpl. destruct (isalnum c); simpl; lia. Qed.

Lemma try_tokens_spec ts sc :
  set_ok ts -> sc_text sc <> [] ->
  sc_valid (try_tokens ts sc) = true /\ sc_set (try_tokens ts sc) = sc_set sc /\
  (left_over (try_tokens ts sc) <= length (sc_text sc))%nat.
Proof.
  intros Hts. revert sc. induction Hts as [|[tok text] ts (H1 & H2 & H3) Hts IH]; intros sc Hne.
  { cbn [try_tokens]. unfold left_over, with_token. cbn [sc_text sc_valid sc_token sc_set]. rewrite drop_0.
    change (real ERR_TOKEN) with false. split; [done|]. split; [done|simpl; lia]. }
  cbn [fst snd] in *.
  assert (forall len sc', sc_text sc' = sc_text sc -> sc_set sc' = sc_set sc -> (1 <= len)%nat ->
    sc_valid (with_token tok len sc') = true /\ sc_set (with_token tok len sc') = sc_set sc /\
    (left_over (with_token tok len sc') <= length (sc_text sc))%nat) as Htok.
  { intros len sc' E1 E2 Hlen. split; [done|]. split; [done|]. unfold left_over, with_token. cbn [sc_text sc_valid sc_token].
    rewrite E1, length_drop. destruct (sc_text sc); [done|]. cbn [length]. destruct (_ && _); lia. }
  assert (tok <> NUMBER -> tok <> STRING ->
    let len := length text in let sc' := with_store (take len (sc_text sc)) sc in
    let r := if strncasecmp text (sc_text sc') len =? 0 then with_token tok len sc' else try_tokens ts sc' in
    sc_valid r = true /\ sc_set r = sc_set sc /\ (left_over r <= length (sc_text sc))%nat) as Hplain.
  { intros Hn1 Hn2. cbv zeta. destruct H3 as [H3|[H3|H3]]; [|done|done].
    destruct (strncasecmp _ _ _ =? 0); [|by apply (IH (with_store _ sc))].
    apply Htok; [done|done|]. destruct text; [done|simpl; lia]. }
  cbn [try_tokens]. destruct tok; try (by apply Hplain); try done.
  - destruct (starts_digit (sc_text sc)) eqn:Ed; [|by apply IH].
    destruct (sc_text sc) as [|c t] eqn:Et; [done|]. cbn [starts_digit] in Ed.
    pose proof (scan_digits_some c t 0 Ed) as Hs. destruct (scan_digits (c :: t) 0) as [[j n] e] eqn:Es. cbn [fst snd] in Hs.
    destruct e.
    + unfold left_over, with_token. cbn [sc_text sc_valid sc_token sc_set with_number]. rewrite Et.
      change (real ERR_TOKEN) with false. split; [done|]. split; [done|simpl; lia].
    + rewrite <- Et in *. by apply Htok; [| |apply Hs].
  - destruct (sc_text sc) as [|c t] eqn:Et; [done|]. destruct (isalpha c) eqn:Ea.
    + rewrite <- Et in *. apply Htok; [done|done|]. rewrite Et. cbn [alnum_prefix].
      unfold isalnum. rewrite Ea. cbn [orb length]. lia.
    + rewrite <- Et in *. by apply IH.
Qed.

Lemma scan_spec sc :
  set_ok (sc_set sc) ->
  sc_valid (snd (scan sc)) = true /\ sc_token (snd (scan sc)) = fst (scan sc) /\ sc_set (snd (scan sc)) = sc_set sc /\
  (left_over (snd (scan sc)) <= left_over sc)%nat.
Proof.
  intros Hs. unfold scan. cbn [fst snd]. destruct (sc_valid sc) eqn:Ev; [by rewrite Ev|].
  destruct (sc_text sc) as [|c t] eqn:Et.
  - unfold left_over, with_token. cbn [snd sc_text sc_valid sc_token sc_set]. rewrite Et, Ev.
    change (real NO_TOKEN) with false. split; [done|]. split; [done|]. split; [done|simpl; lia].
  - destruct (try_tokens_spec (sc_set sc) sc Hs) as (H1 & H2 & H3); [by rewrite Et|].
    split; [done|]. split; [done|]. split; [done|]. rewrite Et in H3. unfold left_over at 2. rewrite Et, Ev. simpl in *. lia.
Qed.

(** The next token, not eaten yet. *)
Definition peeked (tok : token) (sc : scanner) : Prop :=
  sc_valid sc = true /\ sc_token sc = tok /\ set_ok (sc_set sc).

Lemma good_peek {B} m (R : B -> Prop) (f : token -> parser B) sc :
  set_ok (sc_set sc) ->
  (forall tok sc', peeked tok sc' -> (left_over sc' <= left_over sc)%nat -> good m R (f tok sc')) ->
  good m R ((peek ≫= f) sc).
Proof.
  intros Hs H. unfold mbind, parser_bind, peek. destruct (scan_spec sc Hs) as (H1 & H2 & H3 & H4).
  destruct (scan sc) as [tok sc']. cbn [fst snd] in *. apply H; [|done]. by rewrite <- H3 in Hs.
Qed.

Lemma good_eat {B} m (R : B -> Prop) (f : unit -> parser B) tok sc :
  peeked tok sc -> real tok = true ->
  (forall sc', (S (left_over sc') <= left_over sc)%nat -> set_ok (sc_set sc') -> good m R (f tt sc')) ->
  good m R ((eat_token ≫= f) sc).
Proof.
  intros (H1 & H2 & H3) Hr H. unfold mbind, parser_bind, eat_token. apply H; [|done].
  unfold left_over. cbn. rewrite H1, H2, Hr. cbn. lia.
Qed.

Lemma good_string {B} m (R : B -> Prop) (f : bytes -> parser B) sc :
  good m R (f (sc_store sc) sc) -> good m R ((get_string ≫= f) sc).
Proof. done. Qed.

Lemma good_number {B} m (R : B -> Prop) (f : Z -> parser B) sc :
  good m R (f (sc_number sc) sc) -> good m R ((get_number ≫= f) sc).
Proof. done. Qed.

Lemma good_lift_bind {A B} m (R : B -> Prop) (f : A -> parser B) a sc :
  good m R (f a sc) -> good m R ((lift (Some a) ≫= f) sc).
Proof. done. Qed.

(** A parser that ends on any text with results that satisfy [Q]. *)
Definition parses {A} (Q : A -> Prop) (p : parser A) : Prop :=
  forall sc, set_ok (sc_set sc) -> good (left_over sc) Q (p sc).

Lemma parses_bind {A B} m (Q : A -> Prop) (R : B -> Prop) (p : parser A) (f : A -> parser B) sc :
  parses Q p -> set_ok (sc_set sc) ->
  (forall a sc', Q a -> (left_over sc' <= left_over sc)%nat -> set_ok (sc_set sc') -> good m R (f a sc')) ->
  good m R ((p ≫= f) sc).
Proof. intros Hp Hs H. eapply good_bind; [by apply Hp|done]. Qed.

Lemma peeked_set tok sc : peeked tok sc -> set_ok (sc_set sc).
Proof. by intros (_ & _ & ?). Qed.

#[local] Hint Resolve peeked_set : core.

(** One step of a parser. *)
Ltac pstep :=
  match goal with
  | |- good _ _ ((peek ≫= _) _) => apply good_peek; [eauto|intros ?tk ?ss ?Pk ?Lk]
  | |- good _ _ ((get_string ≫= _) _) => apply good_string
  | |- good _ _ ((get_number ≫= _) _) => apply good_number
  | H : peeked ?t ?sc |- good _ _ ((eat_token ≫= _) ?sc) =>
      eapply good_eat; [exact H|subst; reflexivity|intros ?ss ?Lk ?Sk]
  | |- good _ _ (mret _ _) => apply good_ret; [|lia|eauto]
  | |- good _ _ (fail_with _ _) => exact I
  | |- good _ _ (fail _) => exact I
  | |- good _ _ ((if decide ?P then _ else _) _) => destruct (decide P)
  | |- good _ _ ((if ?b then _ else _) _) => destruct b eqn:?
  end.

Lemma range_number_parses min max f : parses (fun n => min <= n <= max) (range_number min max f).
Proof. intros sc Hs. unfold range_number. repeat pstep. lia. Qed.

Lemma expect_parses t m : real t = true -> parses (fun _ => True) (expect t m).
Proof.
  intros Ht sc Hs. unfold expect. pstep. destruct (decide _); [|done].
  destruct Pk as (H1 & H2 & H3). unfold eat_token, good. split; [done|]. split; [|done].
  unfold left_over in *. cbn. rewrite H1 in *. lia.
Qed.

Lemma find_cheap s tokenv n k : cheap_scan s tokenv n = k -> k <> -1 -> k ∈ map fst tokenv.
Proof.
  unfold cheap_scan. intros <-. destruct (find _ tokenv) as [e|] eqn:E; [|done]. intros _.
  apply find_some in E as [E _]. apply list_elem_of_In, in_map. by apply E.
Qed.

Ltac cheap :=
  match goal with
  | H : (cheap_scan ?s ?v ?n <? 0) = false |- _ =>
      pose proof (find_cheap s v n _ eq_refl ltac:(lia)) as Hf
  end.

Lemma month_parses : parses (fun m => 0 <= m < 12) month.
Proof.
  intros sc Hs. unfold month. pstep. eapply good_bind with (n := left_over sc) (Q := fun m => 1 <= m <= 12).
  - destruct (decide _).
    + pstep. cbv zeta. pstep; [done|]. pstep. pstep. cheap. cbn [map fst monthv] in Hf. set_unfold. lia.
    + eapply good_mono; [| |apply range_number_parses; eauto]; [lia|done].
  - intros m sc9 Hm L9 S9. pstep. lia.
Qed.

(** A date without a time of day. *)
Definition date_ok (t : tm) : Prop :=
  70 <= tm_year t <= 137 /\ 0 <= tm_mon t < 12 /\ 1 <= tm_mday t <= 31 /\ starts_day t.

Lemma year_day_parses : parses date_ok year_day.
Proof.
  intros sc Hs. unfold year_day. eapply parses_bind; [apply range_number_parses|done|]. intros d sc1 Hd L1 S1.
  eapply parses_bind; [by apply expect_parses|done|]. intros _ sc2 _ L2 S2.
  eapply parses_bind; [apply month_parses|done|]. intros m sc3 Hm L3 S3.
  eapply parses_bind; [by apply expect_parses|done|]. intros _ sc4 _ L4 S4.
  eapply parses_bind; [apply range_number_parses|done|]. intros y sc5 Hy L5 S5.
  pstep. cbv beta in *. unfold date_ok, starts_day, daytime_dom, daytime_key. simpl. rewrite u32_small by lia. lia.
Qed.

Definition dates_ok (r : tmr) : Prop :=
  date_ok (TMR_begin r) /\ date_ok (last_of r) /\ yday_key (TMR_begin r) <= yday_key (last_of r).

Lemma date_dom t : date_ok t -> yday_dom t.
Proof. unfold date_ok, yday_dom. lia. Qed.

Lemma year_day_range_parses : parses dates_ok year_day_range.
Proof.
  intros sc Hs. unfold year_day_range. eapply parses_bind; [apply year_day_parses|done|]. intros t1 sc1 H1 L1 S1.
  repeat pstep.
  - eapply parses_bind; [apply year_day_parses|done|]. intros t2 sc2 H2 L2 S2. repeat pstep.
    split; [done|]. split; [done|].
    match goal with E : (0 <? _) = false |- _ =>
      rewrite (cmp_gt tm_yday_cmp yday_dom yday_key) in E by by apply date_dom end.
    change (yday_key t1 <= yday_key t2). lia.
  - done.
Qed.

Lemma comma_loop_parses {A} fuel (Q : A -> Prop) (p : parser (list A)) l sc :
  parses (Forall Q) p -> Forall Q l -> set_ok (sc_set sc) -> (left_over sc < fuel)%nat ->
  good (left_over sc) (fun l' => Forall Q l' /\ (l <> [] -> l' <> [])) (comma_loop fuel p l sc).
Proof.
  intros Hp. revert l sc. induction fuel as [|fuel IH]; intros l sc Hl Hs Hf; [lia|]. cbn [comma_loop]. repeat pstep.
  - eapply parses_bind; [done|done|]. intros r sc3 Hr L3 S3.
    eapply good_mono; [| |apply IH]; [lia| |by apply Forall_app|done|lia].
    intros l' [H1' H2']. split; [done|]. intros Hne. apply H2'. by destruct l.
  - done.
Qed.

Lemma year_day_range_list_parses fuel sc :
  set_ok (sc_set sc) -> (left_over sc < fuel)%nat ->
  good (left_over sc) (Forall dates_ok) (year_day_range_list fuel sc).
Proof.
  intros Hs Hf. unfold year_day_range_list.
  assert (parses (Forall dates_ok) (r ← year_day_range; mret [r])) as Hp.
  { intros sc' Hs'. eapply parses_bind; [apply year_day_range_parses|done|]. intros r sc2 Hr L2 S2.
    pstep. by apply Forall_singleton. }
  eapply parses_bind; [exact Hp|done|]. intros l sc1 Hl L1 S1.
  eapply good_mono; [| |by apply comma_loop_parses; [exact Hp|exact Hl|done|lia]]; [lia|]. by intros l' [].
Qed.

(** ** Times of day *)

Lemma daytime_parses : parses daytime_dom daytime.
Proof.
  intros sc Hs. unfold daytime. eapply parses_bind; [apply range_number_parses|done|]. intros h sc1 Hh L1 S1.
  pstep. eapply good_bind with (n := left_over ss) (Q := fun ms => 0 <= ms.1 < 60 /\ 0 <= ms.2 < 60).
  - repeat pstep; [|simpl; lia]. eapply parses_bind; [apply range_number_parses|done|]. intros m sc2 Hm L2 S2.
    repeat pstep; cbv beta in *.
    + eapply parses_bind; [apply range_number_parses|done|]. intros s sc3 H3 L3 S3. pstep. cbv beta in *. simpl. lia.
    + simpl. lia.
  - intros [m s] sc2 Hms L2 S2. repeat pstep. unfold daytime_dom, daytime_key. cbv beta in *. simpl in *. lia.
Qed.

(** A range as it is written: its end may lie before its begin. *)
Definition raw_daytime (r : tmr) : Prop :=
  exists e, TMR_end r = Some e /\ daytime_dom (TMR_begin r) /\ daytime_dom e /\
    daytime_key (TMR_begin r) <> daytime_key e.

Lemma daytime_range_parses : parses raw_daytime daytime_range.
Proof.
  intros sc Hs. unfold daytime_range. eapply parses_bind; [apply daytime_parses|done|]. intros t1 sc1 H1 L1 S1.
  eapply parses_bind; [by apply expect_parses|done|]. intros _ sc2 _ L2 S2.
  eapply parses_bind; [apply daytime_parses|done|]. intros t2 sc3 H3 L3 S3.
  repeat pstep. exists t2. split; [done|]. split; [done|]. split; [done|].
  match goal with E : (_ =? 0) = false |- _ =>
    rewrite (cmp_eq tm_daytime_cmp daytime_dom daytime_key) in E by done end. cbn [TMR_begin]. lia.
Qed.

Lemma split_daytime_closed r : raw_daytime r ->
  Forall dclosed (split_daytime_range r) /\ Exists (fun r => 1 <= dhi r) (split_daytime_range r).
Proof.
  intros (e & He & H1 & H2 & Hne). unfold split_daytime_range. rewrite He.
  rewrite (cmp_gt tm_daytime_cmp daytime_dom daytime_key) by done.
  assert (daytime_dom (with_hour 24 tm_zero) /\ daytime_key (with_hour 24 tm_zero) = 86400 /\
    daytime_dom tm_zero /\ daytime_key tm_zero = 0) as (Z1 & Z2 & Z3 & Z4)
    by (unfold daytime_dom, daytime_key; simpl; lia).
  pose proof H1 as [(? & ? & ?) ?]. pose proof H2 as [(? & ? & ?) ?].
  destruct (Z.ltb_spec (daytime_key e) (daytime_key (TMR_begin r))).
  - split.
    + repeat (apply Forall_cons_2; [split; [split|by eexists]; unfold lo, hi, last_of; cbn [TMR_begin TMR_end];
        rewrite ?Z2, ?Z4; try done; unfold daytime_key in *; lia|]). apply Forall_nil_2.
    + apply Exists_cons_hd. unfold hi, last_of. cbn [TMR_end]. rewrite Z2. lia.
  - assert (last_of r = e) as El by (unfold last_of; by rewrite He). split.
    + apply Forall_singleton. split; [split|by eexists]; unfold lo, hi; rewrite ?El; done.
    + apply Exists_cons_hd. unfold hi. rewrite El. unfold daytime_key in *. lia.
Qed.

Lemma daytime_range_list_parses fuel sc :
  set_ok (sc_set sc) -> (left_over sc < fuel)%nat ->
  good (left_over sc) (fun l => Forall dclosed l /\ Exists (fun r => 1 <= dhi r) l) (daytime_range_list fuel sc).
Proof.
  intros Hs Hf. unfold daytime_range_list.
  set (Q := fun l : list tmr => Forall dclosed l /\ Exists (fun r => 1 <= dhi r) l).
  assert (parses Q (r ← daytime_range; mret (split_daytime_range r))) as Hp.
  { intros sc' Hs'. eapply parses_bind; [apply daytime_range_parses|done|]. intros r sc2 Hr L2 S2.
    pstep. by apply split_daytime_closed. }
  eapply parses_bind; [exact Hp|done|]. intros l sc1 [Hl He] L1 S1.
  assert (exists l2, l = l2) as [l2 El] by eauto. rewrite El in *. clear El.
  enough (good (left_over sc1) (fun l' => Forall dclosed l' /\ exists l3, l' = l2 ++ l3)
    (comma_loop fuel (r ← daytime_range; mret (split_daytime_range r)) l2 sc1)) as Hg.
  { eapply good_mono; [| |exact Hg]; [lia|]. intros l' [H1 [l3 ->]]. split; [done|]. apply Exists_app. by left. }
  assert (left_over sc1 < fuel)%nat as Hf1 by lia. clear -Hp Hl S1 Hf1.
  revert l2 Hl sc1 S1 Hf1. induction fuel as [|fuel IH]; intros l2 Hl sc1 S1 Hf1; [lia|]. cbn [comma_loop]. repeat pstep.
  - eapply parses_bind; [exact Hp|done|]. intros r sc3 [Hr _] L3 S3.
    eapply good_mono; [| |apply (IH (l2 ++ r)); [by apply Forall_app|done|lia]]; [lia|].
    intros l' [H1 [l3 ->]]. split; [done|]. exists (r ++ l3). by rewrite app_assoc.
  - split; [done|]. exists []. by rewrite app_nil_r.
Qed.

Lemma normalized_ok l l' :
  Forall dclosed l -> Exists (fun r => 1 <= dhi r) l -> Forall dclosed l' ->
  (forall x, covers daytime_key l' x <-> covers daytime_key l x) -> daytimes_ok l'.
Proof.
  intros Hl He Hl' Hc. split; [done|]. apply Exists_exists in He as (r & Hr & Hhi).
  rewrite Forall_forall in Hl. destruct (Hl r Hr) as [[_ _ Ho] _].
  assert (covers daytime_key l' (dhi r)) as Hx by (apply Hc, Exists_exists; exists r; split; [done|lia]).
  apply Exists_exists in Hx as (q & Hq & Hx). apply Exists_exists. exists q. split; [done|lia].
Qed.

(** ** Days of the week *)

Definition weekday_ok (t : tm) : Prop := 0 <= tm_wday t <= 6 /\ starts_day t.

Lemma week_day_parses : parses weekday_ok week_day.
Proof.
  intros sc Hs. unfold week_day. pstep. pstep; [|done]. pstep. cbv zeta. pstep; [done|]. pstep. pstep.
  cheap. cbn [map fst weekdayv] in Hf. split; [|by unfold starts_day, daytime_dom, daytime_key; simpl; lia].
  cbn [with_wday tm_wday]. set_unfold. lia.
Qed.

Definition raw_week (r : tmr) : Prop := weekday_ok (TMR_begin r) /\ weekday_ok (last_of r).

Lemma week_day_range_parses : parses raw_week week_day_range.
Proof.
  intros sc Hs. unfold week_day_range. eapply parses_bind; [apply week_day_parses|done|]. intros t1 sc1 H1 L1 S1.
  repeat pstep; [|done].
  eapply parses_bind; [apply week_day_parses|done|]. intros t2 sc2 H2 L2 S2. by repeat pstep.
Qed.

Lemma split_wday_in_week r : raw_week r -> Forall in_week (split_wday_range r) /\ split_wday_range r <> [].
Proof.
  intros [[H1 H2] [H3 H4]]. unfold split_wday_range.
  assert (forall a b, 0 <= tm_wday a <= tm_wday b -> tm_wday b <= 6 -> starts_day a -> in_week (Tmr a (Some b))) as Hin
    by (intros a b Ha Hb Hd; unfold in_week, begin_wday, end_wday; cbn [TMR_begin TMR_end]; done).
  assert (starts_day tm_zero) as Hz by (unfold starts_day, daytime_dom, daytime_key; simpl; lia).
  unfold last_of in *. destruct (TMR_end r) as [e|] eqn:Ee.
  - rewrite (cmp_gt tm_wday_cmp wday_dom tm_wday) by (unfold wday_dom; lia).
    destruct (Z.ltb_spec (tm_wday e) (tm_wday (TMR_begin r))).
    + split; [|done]. repeat (apply Forall_cons_2; [apply Hin; simpl; done || lia|]). apply Forall_nil_2.
    + split; [|done]. apply Forall_singleton. unfold in_week, begin_wday, end_wday. rewrite Ee. split; [lia|]. split; [lia|done].
  - split; [|done]. apply Forall_singleton. unfold in_week, begin_wday, end_wday. rewrite Ee. unfold begin_wday. split; [lia|]. split; [lia|done].
Qed.

Lemma week_day_range_list_parses fuel sc :
  set_ok (sc_set sc) -> (left_over sc < fuel)%nat -> good (left_over sc) wdays_ok (week_day_range_list fuel sc).
Proof.
  intros Hs Hf. unfold week_day_range_list.
  assert (parses (fun l => Forall in_week l /\ l <> []) (r ← week_day_range; mret (split_wday_range r))) as Hp.
  { intros sc' Hs'. eapply parses_bind; [apply week_day_range_parses|done|]. intros r sc2 Hr L2 S2.
    pstep. by apply split_wday_in_week. }
  eapply parses_bind; [exact Hp|done|]. intros l sc1 [Hl Hne] L1 S1.
  assert (parses (Forall in_week) (r ← week_day_range; mret (split_wday_range r))) as Hp'.
  { intros sc' Hs'. eapply good_mono; [| |by apply Hp]; [lia|]. by intros l' []. }
  eapply good_bind; [by apply comma_loop_parses; [exact Hp'|exact Hl|done|lia]|]. intros l2 sc2 [H2 Hne2] L2 S2.
  destruct (join_wday_spec l2 H2 (Hne2 Hne)) as (l3 & -> & J1 & J2 & J3). apply good_lift_bind. pstep.
  by apply extend_spec.
Qed.

(** ** Entries *)

Definition state_value (st : Z) : Prop := st = QI_DO_ENABLE \/ st = QI_DO_DISABLE \/ st = QI_DO_SUSPEND.

Definition opt_daytimes (o : option (list tmr)) : Prop := match o with Some l => daytimes_ok l | None => True end.

Lemma action_parses : parses state_value action.
Proof.
  intros sc Hs. unfold action. pstep. pstep. pstep; [|done]. cbv zeta. pstep; [done|]. pstep. pstep.
  cheap. cbn [map fst statev] in Hf. unfold state_value. set_unfold. tauto.
Qed.

Lemma peek_again {B} (f : token -> parser B) tok sc : peeked tok sc -> (peek ≫= f) sc = f tok sc.
Proof. intros (H1 & H2 & _). unfold mbind, parser_bind, peek, scan. by rewrite H1, H2. Qed.

Definition state_part (dtrl : option (list tmr)) : parser (option (list tmr) * Z) :=
  tok ← peek;
  if decide (tok = STRING) then state ← action; mret (dtrl, state) else fail_with EqualWithoutRangeOrState.

Lemma state_part_good dtrl n sc :
  set_ok (sc_set sc) -> (left_over sc <= n)%nat ->
  good n (fun ds => ds.1 = dtrl /\ state_value ds.2) (state_part dtrl sc).
Proof.
  intros Hs Hn. unfold state_part. pstep. pstep; [|done].
  eapply parses_bind; [apply action_parses|eauto|]. intros st sc2 Hst L2 S2. by pstep.
Qed.

Lemma times_and_state_parses fuel sc :
  set_ok (sc_set sc) -> (left_over sc < fuel)%nat ->
  good (left_over sc) (fun ds => opt_daytimes ds.1 /\ state_value ds.2) (times_and_state fuel sc).
Proof.
  intros Hs Hf. unfold times_and_state. pstep.
  eapply good_bind with (n := left_over sc) (Q := fun dm => opt_daytimes dm.1).
  - pstep; [|by pstep].
    eapply good_bind; [apply daytime_range_list_parses; [eauto|lia]|]. intros l sc2 [Hl He] L2 S2.
    destruct (normalize_spec tm_daytime_cmp daytime_dom daytime_key l Hl) as (l' & -> & N1 & N2 & _).
    apply good_lift_bind. assert (daytimes_ok l') as Hok by (by apply (normalized_ok l)). repeat pstep; done.
  - intros [dtrl more] sc2 Hd L2 S2. cbn [fst] in Hd. destruct more.
    + eapply good_mono; [| |by apply (state_part_good dtrl (left_over sc2))]; [lia|]. by intros [d st] [-> ?].
    + pstep. split; [done|]. right. by left.
Qed.

Lemma times_and_state_no_number fuel sc tok :
  peeked tok sc -> tok <> NUMBER ->
  good (left_over sc) (fun ds => ds.1 = None /\ state_value ds.2) (times_and_state fuel sc).
Proof.
  intros Hp Hne. unfold times_and_state. rewrite (peek_again _ _ _ Hp). rewrite decide_False by done.
  apply state_part_good; [eauto|done].
Qed.

(** What an entry is made of, given what its days satisfy. *)
Definition parts_ok (Q : list tmr -> Prop) (x : option (list tmr) * option (list tmr) * Z) : Prop :=
  match x with (days, times, st) =>
    (match days with Some l => Q l | None => True end) /\ opt_daytimes times /\ state_value st
  end.

Lemma disabled_state : state_value QI_DO_DISABLE.
Proof. right. by left. Qed.

Lemma entry_parses Q fuel has_days days sc :
  parses (fun _ => True) has_days ->
  (forall sc, set_ok (sc_set sc) -> (left_over sc < fuel)%nat -> good (left_over sc) Q (days sc)) ->
  set_ok (sc_set sc) -> (left_over sc < fuel)%nat ->
  good (left_over sc) (parts_ok Q) (entry fuel has_days days sc).
Proof.
  intros Hh Hd Hs Hf. unfold entry. eapply parses_bind; [exact Hh|done|]. intros d sc1 _ L1 S1.
  destruct d.
  - eapply good_bind; [apply Hd; [done|lia]|]. intros l sc2 Hl L2 S2. repeat pstep.
    + eapply good_bind; [apply times_and_state_parses; [done|lia]|]. intros [dtrl st] sc3 [H1 H2] L3 S3. pstep. done.
    + split; [done|]. split; [done|apply disabled_state].
  - eapply good_bind; [apply times_and_state_parses; [done|lia]|]. intros [dtrl st] sc3 [H1 H2] L3 S3. pstep. done.
Qed.

Lemma disabled_week_entry_parses fuel sc :
  set_ok (sc_set sc) -> (left_over sc < fuel)%nat -> good (left_over sc) week_entry_ok (disabled_week_entry fuel sc).
Proof.
  intros Hs Hf. unfold disabled_week_entry. eapply good_bind.
  - apply (entry_parses wdays_ok); [| |done|done].
    + intros sc' Hs'. repeat pstep. done.
    + intros sc' Hs' Hf'. by apply week_day_range_list_parses.
  - intros [[wdrl dtrl] st] sc1 (H1 & H2 & H3) L1 S1. pstep. split; [exact H3|]. split; [done|].
    exists (default full_weekday_range wdrl), (default full_daytime_range dtrl). split; [done|]. split; [done|].
    split; [|destruct dtrl; [done|apply full_daytimes_ok]].
    destruct wdrl as [l|]; [done|]. change (wdays_ok full_weekday_range). split.
    + done.
    + apply Forall_singleton. split; unfold wday_dom, lo, hi; simpl; lia.
    + apply Forall_singleton. unfold starts_day, daytime_dom, daytime_key, begin_wday. simpl. lia.
    + intros r d Hr Hd. apply Exists_cons_hd. unfold lo, hi. simpl. pose proof (Z.mod_pos_bound d 7). lia.
Qed.

(** An entry of the year field with dates that are in range, whether or not they exist. *)
Definition year_entry_parsed (e : ca) : Prop :=
  state_ok e /\ CA_wday_range_list e = None /\
  ((CA_yday_range_list e = None /\ CA_daytime_range_list e = Some full_daytime_range) \/
   exists yl dt, CA_yday_range_list e = Some yl /\ CA_daytime_range_list e = Some dt /\
     Forall dates_ok yl /\ daytimes_ok dt).

Lemma disabled_year_entry_parses fuel sc :
  set_ok (sc_set sc) -> (left_over sc < fuel)%nat -> good (left_over sc) year_entry_parsed (disabled_year_entry fuel sc).
Proof.
  intros Hs Hf. unfold disabled_year_entry. eapply good_bind with (n := left_over sc)
    (Q := fun x => parts_ok (Forall dates_ok) x /\ (x.1.1 = None -> x.1.2 = None)).
  - unfold entry, mbind, parser_bind, peek at 1. destruct (scan_spec sc Hs) as (P1 & P2 & P3 & P4).
    destruct (scan sc) as [tok sc1]. cbn [fst snd] in *. unfold mret, parser_ret.
    assert (set_ok (sc_set sc1)) as S1 by (by rewrite P3). assert (peeked tok sc1) as Pk by done.
    destruct (bool_decide_reflect (tok = NUMBER)) as [Hn|Hn].
    + change (good (left_over sc) (fun x => parts_ok (Forall dates_ok) x /\ (x.1.1 = None -> x.1.2 = None))
        ((l ← year_day_range_list fuel; tok ← peek;
          if decide (tok = EQUAL_SIGN) then
            eat_token ;; '(dtrl, state) ← times_and_state fuel; mret (Some l, dtrl, state)
          else mret (Some l, None, QI_DO_DISABLE)) sc1)).
      eapply good_bind; [apply year_day_range_list_parses; [done|lia]|]. intros l sc2 Hl L2 S2. repeat pstep.
      * eapply good_bind; [apply times_and_state_parses; [done|lia]|]. intros [dtrl st] sc3 [H1 H2] L3 S3. pstep. done.
      * split; [|done]. split; [done|]. split; [done|apply disabled_state].
    + change (good (left_over sc) (fun x => parts_ok (Forall dates_ok) x /\ (x.1.1 = None -> x.1.2 = None))
        (('(dtrl, state) ← times_and_state fuel; mret (None, dtrl, state)) sc1)).
      eapply good_bind; [by apply (times_and_state_no_number fuel sc1 tok)|].
      intros [dtrl st] sc3 [H1 H2] L3 S3. cbn [fst snd] in *. subst. pstep. done.
  - intros [[ydrl dtrl] st] sc1 [(H1 & H2 & H3) H4] L1 S1. pstep. split; [exact H3|]. split; [done|].
    cbn [fst snd CA_yday_range_list CA_daytime_range_list] in *. destruct ydrl as [yl|].
    + right. exists yl, (default full_daytime_range dtrl). split; [done|]. split; [done|]. split; [done|].
      destruct dtrl; [done|apply full_daytimes_ok].
    + left. by rewrite H4.
Qed.

(** ** Fields *)

Lemma skip_space_parses fuel sc : set_ok (sc_set sc) -> (left_over sc < fuel)%nat ->
  good (left_over sc) (fun _ => True) (skip_space_tokens fuel sc).
Proof.
  revert sc. induction fuel as [|fuel IH]; intros sc Hs Hf; [lia|]. cbn [skip_space_tokens]. repeat pstep; [|done].
  eapply good_mono; [| |apply IH; [done|lia]]; [lia|done].
Qed.

Section Entries.
Context (Q : ca -> Prop) (p : nat -> parser ca).
Context (Hp : forall fuel sc, set_ok (sc_set sc) -> (left_over sc < fuel)%nat -> good (left_over sc) Q (p fuel sc)).

Lemma entry_loop_parses fuel0 fuel l sc :
  Forall Q l -> set_ok (sc_set sc) -> (left_over sc < fuel)%nat -> (fuel <= fuel0)%nat ->
  good (left_over sc) (Forall Q) (entry_loop fuel (p fuel0) l sc).
Proof.
  revert l sc. induction fuel as [|fuel IH]; intros l sc Hl Hs Hf Hf0; [lia|]. cbn [entry_loop]. repeat pstep; [|done].
  eapply good_bind; [apply skip_space_parses; [done|lia]|]. intros _ sc3 _ L3 S3.
  eapply good_bind; [apply (Hp fuel0); [done|lia]|]. intros ce sc4 He L4 S4.
  eapply good_mono; [| |apply IH]; [lia|done| |done|lia|lia]. apply Forall_app. split; [done|]. by apply Forall_singleton.
Qed.

Lemma entry_list_parses fuel m sc :
  set_ok (sc_set sc) -> (left_over sc < fuel)%nat -> good (left_over sc) (Forall Q) (entry_list fuel (p fuel) m sc).
Proof.
  intros Hs Hf. unfold entry_list. eapply good_bind; [by apply Hp|]. intros e sc1 He L1 S1.
  eapply good_bind; [apply entry_loop_parses; [by apply Forall_singleton|done|lia|done]|]. intros l sc2 Hl L2 S2.
  repeat pstep. done.
Qed.

End Entries.

Lemma year_set_ok : set_ok year_set.
Proof. unfold set_ok, year_set. repeat (apply Forall_cons_2; [split; [done|]; split; [done|]; cbn; by auto|]). apply Forall_nil_2. Qed.

Lemma week_set_ok : set_ok week_set.
Proof. unfold set_ok, week_set. repeat (apply Forall_cons_2; [split; [done|]; split; [done|]; cbn; by auto|]). apply Forall_nil_2. Qed.

Lemma scan_init_spec s ts sc :
  set_ok ts -> set_ok (sc_set (scan_init s ts sc)) /\ (left_over (scan_init s ts sc) <= length s)%nat.
Proof.
  intros Hts. unfold scan_init. set (sc0 := Sc s ts _ _ _ _ _ _).
  destruct (scan_spec sc0 Hts) as (_ & _ & H3 & H4). split; [by rewrite H3|].
  assert (left_over sc0 = length s) as <- by (unfold left_over; simpl; lia). done.
Qed.

(** ** What the scanner leaves

    The scanner stays within [store] when the text does, and [NO_TOKEN] is only read at the end
    of the text. *)

Record tidy (sc : scanner) : Prop := {
  td_set : set_ok (sc_set sc);
  td_end : sc_valid sc = true -> sc_token sc = NO_TOKEN -> sc_text sc = [];
  td_short : length (sc_text sc) < store_size;
  td_within : sc_overrun sc = false;
}.

Lemma tidy_store sc s :
  tidy sc -> (length s <= length (sc_text sc))%nat -> sc_overrun (with_store s sc) = false.
Proof.
  intros [_ _ Hl Ho] Hs. cbn [with_store sc_overrun]. rewrite Ho. cbn [orb].
  apply Z.leb_gt. lia.
Qed.

Lemma tidy_token tok len sc :
  set_ok (sc_set sc) -> tok <> NO_TOKEN -> length (sc_text sc) < store_size -> sc_overrun sc = false ->
  tidy (with_token tok len sc).
Proof.
  intros Hs Hne Hl Ho. split; cbn [with_token sc_set sc_valid sc_token sc_text sc_overrun]; try done.
  rewrite length_drop. lia.
Qed.

Lemma scan_digits_prefix t old : (fst (fst (scan_digits t old)) <= length t)%nat.
Proof. apply scan_digits_length. Qed.

Lemma try_tokens_tidy ts sc : set_ok ts -> tidy sc -> tidy (try_tokens ts sc).
Proof.
  intros Hts. revert sc. induction Hts as [|[tok text] ts (H1 & H2 & H3) Hts IH]; intros sc Ht;
    cbn [try_tokens]; pose proof Ht as [Hset Hend Hlen Hov].
  { by apply tidy_token. }
  cbn [fst snd] in *.
  assert (forall s, (length s <= length (sc_text sc))%nat -> tidy (with_store s sc)) as Hstore.
  { intros s Hs. split; [done..|by apply tidy_store]. }
  assert (let len := length text in let sc' := with_store (take len (sc_text sc)) sc in
    tidy (if strncasecmp text (sc_text sc') len =? 0 then with_token tok len sc' else try_tokens ts sc'))
    as Hplain.
  { cbv zeta. pose proof (Hstore (take (length text) (sc_text sc)) ltac:(rewrite length_take; lia)) as Hs.
    destruct (_ =? 0); [|by apply IH]. destruct Hs. by apply tidy_token. }
  destruct tok; try exact Hplain; try done.
  - destruct (starts_digit _); [|by apply IH].
    pose proof (scan_digits_prefix (sc_text sc) 0) as Hj.
    destruct (scan_digits (sc_text sc) 0) as [[j n] [|]]; cbn [fst] in Hj; [by apply tidy_token|].
    apply tidy_token; [done|done|done|]. apply (tidy_store (with_number n sc)); [by split|].
    rewrite length_take. cbn [with_number sc_text]. lia.
  - destruct (sc_text sc) as [|c t] eqn:Et; [by apply IH|]. destruct (isalpha c); [|by apply IH].
    rewrite <- Et in *. destruct (Hstore (alnum_prefix (sc_text sc)) (alnum_length _)).
    by apply tidy_token.
Qed.

Lemma scan_tidy sc : tidy sc -> tidy (snd (scan sc)).
Proof.
  intros Ht. unfold scan. cbn [snd]. destruct (sc_valid sc); [done|].
  destruct (sc_text sc) as [|c t] eqn:Et; [|by apply try_tokens_tidy; [apply Ht|]].
  destruct Ht. split; cbn [with_token sc_set sc_valid sc_token sc_text sc_overrun];
    rewrite ?Et; done.
Qed.

(** Parsers that keep the scanner tidy, whatever the text. *)
Definition tidies {A} (p : parser A) : Prop := forall sc, tidy sc -> tidy (snd (p sc)).

Lemma tidies_bind {A B} (p : parser A) (f : A -> parser B) :
  tidies p -> (forall a, tidies (f a)) -> tidies (p ≫= f).
Proof.
  intros Hp Hf sc Ht. apply Hp in Ht. unfold mbind, parser_bind.
  destruct (p sc) as [[a| |] sc']; [by apply Hf|done..].
Qed.

Lemma tidies_ret {A} (a : A) : tidies (mret a : parser A).
Proof. by intros sc Ht. Qed.
Lemma tidies_peek : tidies peek.
Proof. intros sc Ht. unfold peek. pose proof (scan_tidy sc Ht). by destruct (scan sc). Qed.
Lemma tidies_eat : tidies eat_token.
Proof. by intros sc []. Qed.
Lemma tidies_string : tidies get_string.
Proof. by intros sc Ht. Qed.
Lemma tidies_number : tidies get_number.
Proof. by intros sc Ht. Qed.
Lemma tidies_fail_with {A} m : tidies (fail_with m : parser A).
Proof. by intros sc []. Qed.
Lemma tidies_fail {A} : tidies (fail : parser A).
Proof. by intros sc Ht. Qed.
Lemma tidies_lift {A} (o : option A) : tidies (lift o).
Proof. by intros sc Ht. Qed.

#[local] Hint Resolve tidies_ret tidies_peek tidies_eat tidies_string tidies_number tidies_fail_with
  tidies_fail tidies_lift : tidies.

(** Through the binds and branches of a parser. *)
Ltac tidying :=
  repeat match goal with
  | |- tidies (_ ≫= _) => apply tidies_bind; [|intros ?]
  | |- tidies (if decide ?P then _ else _) => destruct (decide P)
  | |- tidies (if ?b then _ else _) => destruct b
  | |- tidies (let '(_, _) := ?x in _) => destruct x
  | |- tidies (let _ := _ in _) => cbv zeta
  | |- _ => solve [eauto with tidies]
  end.

Lemma tidies_expect t m : tidies (expect t m).
Proof. unfold expect. tidying. Qed.
Lemma tidies_range_number min max f : tidies (range_number min max f).
Proof. unfold range_number. tidying. Qed.
#[local] Hint Resolve tidies_expect tidies_range_number : tidies.

Lemma tidies_month : tidies month.
Proof. unfold month. tidying. Qed.
#[local] Hint Resolve tidies_month : tidies.

Lemma tidies_year_day : tidies year_day.
Proof. unfold year_day, day, year. tidying. Qed.
#[local] Hint Resolve tidies_year_day : tidies.

Lemma tidies_year_day_range : tidies year_day_range.
Proof. unfold year_day_range. tidying. Qed.
#[local] Hint Resolve tidies_year_day_range : tidies.

Lemma tidies_comma_loop {A} fuel (p : parser (list A)) l : tidies p -> tidies (comma_loop fuel p l).
Proof.
  intros Hp. revert l. induction fuel as [|fuel IH]; intros l; cbn [comma_loop]; tidying.
Qed.
#[local] Hint Resolve tidies_comma_loop : tidies.

Lemma tidies_year_day_range_list fuel : tidies (year_day_range_list fuel).
Proof. unfold year_day_range_list. tidying. apply tidies_comma_loop. tidying. Qed.

Lemma tidies_daytime : tidies daytime.
Proof. unfold daytime, hour, minute, seconds. tidying. Qed.
#[local] Hint Resolve tidies_daytime : tidies.

Lemma tidies_daytime_range : tidies daytime_range.
Proof. unfold daytime_range. tidying. Qed.
#[local] Hint Resolve tidies_daytime_range : tidies.

Lemma tidies_daytime_range_list fuel : tidies (daytime_range_list fuel).
Proof. unfold daytime_range_list. tidying. apply tidies_comma_loop. tidying. Qed.
#[local] Hint Resolve tidies_daytime_range_list : tidies.

Lemma tidies_action : tidies action.
Proof. unfold action. tidying. Qed.
Lemma tidies_week_day : tidies week_day.
Proof. unfold week_day. tidying. Qed.
#[local] Hint Resolve tidies_action tidies_week_day : tidies.

Lemma tidies_week_day_range : tidies week_day_range.
Proof. unfold week_day_range. tidying. Qed.
#[local] Hint Resolve tidies_week_day_range : tidies.

Lemma tidies_week_day_range_list fuel : tidies (week_day_range_list fuel).
Proof. unfold week_day_range_list. tidying. apply tidies_comma_loop. tidying. Qed.

Lemma tidies_times_and_state fuel : tidies (times_and_state fuel).
Proof. unfold times_and_state. tidying. Qed.
#[local] Hint Resolve tidies_times_and_state tidies_week_day_range_list tidies_year_day_range_list : tidies.

Lemma tidies_entry fuel has_days days : tidies has_days -> tidies days -> tidies (entry fuel has_days days).
Proof. intros Hh Hd. unfold entry. tidying. Qed.

Lemma tidies_year_entry fuel : tidies (disabled_year_entry fuel).
Proof.
  unfold disabled_year_entry. apply tidies_bind; [|intros [[? ?] ?]; tidying].
  apply tidies_entry; tidying.
Qed.

Lemma tidies_week_entry fuel : tidies (disabled_week_entry fuel).
Proof.
  unfold disabled_week_entry. apply tidies_bind; [|intros [[? ?] ?]; tidying].
  apply tidies_entry; tidying.
Qed.

Lemma tidies_skip_space fuel : tidies (skip_space_tokens fuel).
Proof. induction fuel as [|fuel IH]; cbn [skip_space_tokens]; tidying. Qed.
#[local] Hint Resolve tidies_skip_space : tidies.

Lemma tidies_entry_loop fuel p l : tidies p -> tidies (entry_loop fuel p l).
Proof.
  intros Hp. revert l. induction fuel as [|fuel IH]; intros l; cbn [entry_loop]; tidying.
Qed.

Lemma tidies_entry_list fuel p m : tidies p -> tidies (entry_list fuel p m).
Proof. intros Hp. unfold entry_list. tidying. by apply tidies_entry_loop. Qed.

Lemma bind_done {A B} (p : parser A) (f : A -> parser B) sc b sc' :
  (p ≫= f) sc = (Done b, sc') -> exists a sc1, p sc = (Done a, sc1) /\ f a sc1 = (Done b, sc').
Proof.
  unfold mbind, parser_bind. destruct (p sc) as [[a| |] sc1]; [|done..]. intros E. by exists a, sc1.
Qed.

Lemma tidies_done {A} (p : parser A) sc a sc' : tidies p -> tidy sc -> p sc = (Done a, sc') -> tidy sc'.
Proof. intros Hp Ht E. specialize (Hp sc Ht). by rewrite E in Hp. Qed.

(** A list of entries is only made at the end of the text. *)
Lemma entry_list_at_end fuel p m sc l sc' :
  tidies p -> tidy sc -> entry_list fuel p m sc = (Done l, sc') ->
  sc_token sc' = NO_TOKEN /\ sc_text sc' = [].
Proof.
  intros Hp Ht (e & sc1 & E1 & (l1 & sc2 & E2 & (tok & sc3 & E3 & E)%bind_done)%bind_done)%bind_done.
  apply (tidies_done _ _ _ _ Hp Ht) in E1.
  apply (tidies_done _ _ _ _ (tidies_entry_loop fuel p [e] Hp) E1) in E2.
  pose proof (scan_spec sc2 (td_set _ E2)) as (Hv & Htok & _).
  pose proof (scan_tidy sc2 E2) as Ht3. unfold peek in E3.
  destruct (scan sc2) as [tok' sc3']. injection E3 as -> ->. cbn [fst snd] in *.
  destruct (decide (tok = NO_TOKEN)) as [->|]; [|done]. injection E as _ <-. split; [done|].
  by apply (td_end _ Ht3).
Qed.

Lemma scan_init_tidy s ts sc :
  set_ok ts -> length s < store_size -> sc_overrun sc = false -> tidy (scan_init s ts sc).
Proof. intros Hts Hl Ho. unfold scan_init. apply scan_tidy. by split. Qed.

End CalParseFacts.
