(* ===== verification/CalProps.v ===== *)
(** CalProps: properties of calendars, from the text of their fields to the question whether
    a queue is open. *)

From S2P Require Import Prelude Answer CalTime Host Text QState Calendar CalFacts CalState CalDays.
From S2P Require Import CalEntry CalStateProps CalWeek CalParse CalParseFacts.
Import Answer CalTime Host Text QState Calendar CalFacts CalMoments CalState CalDays CalEntry CalStateProps CalWeek
  CalParse CalParseFacts.

Module CalProps.

(** ** Parsing *)



Section Fields.
Context (text : field_kind -> option parse_message -> option bytes -> string).

Lemma disabled_list_spec k set p m (Q : ca -> Prop) al s cal_name sc :
  set_ok set ->
  (forall fuel sc, set_ok (sc_set sc) -> (left_over sc < fuel)%nat -> good (left_over sc) Q (p fuel sc)) ->
  let '(r, al', sc') := disabled_list text k set p m al s cal_name sc in
  match r with
  | Done l => Forall Q (default [] l) /\ al' = al
  | Fail => al' = snd (answer_list_add al (text k (sc_error sc') cal_name) STATUS_EEXIST ANSWER_QUALITY_ERROR)
  | Stuck => False
  end.
Proof.
  intros Hs Hp. unfold disabled_list. destruct s as [s|]; [|by split; [apply Forall_nil_2|]].
  destruct (_ =? 0); [by split; [apply Forall_nil_2|]|].
  destruct (scan_init_spec s set sc Hs) as [H1 H2].
  pose proof (entry_list_parses Q p Hp (S (length s)) m (scan_init s set sc) H1 ltac:(lia)) as Hg.
  unfold good in Hg. destruct (entry_list _ _ _ _) as [[l| |] sc']; [|done|done]. by destruct Hg as [Hg _].
Qed.

(** There is a text to scan. *)
Definition scanned (s : option bytes) : bool :=
  match s with Some s => negb (strcasecmp s (str "none") =? 0) | None => false end.

Lemma disabled_list_scan k set p m al s cal_name sc :
  set_ok set -> (forall fuel, tidies (p fuel)) ->
  length (default [] s) < store_size -> sc_overrun sc = false ->
  let '(r, _, sc') := disabled_list text k set p m al s cal_name sc in
  sc_overrun sc' = false /\
  match r with
  | Done _ => if scanned s then sc_token sc' = NO_TOKEN /\ sc_text sc' = [] else sc' = sc
  | _ => True
  end.
Proof.
  intros Hset Hp Hlen Ho. unfold disabled_list, scanned. destruct s as [s|]; [|done].
  cbn [default from_option id] in Hlen. destruct (_ =? 0); [done|]. cbn [negb].
  pose proof (scan_init_tidy s set sc Hset Hlen Ho) as Ht.
  pose proof (tidies_entry_list (S (length s)) (p (S (length s))) m (Hp _) _ Ht) as He.
  destruct (entry_list _ _ _ _) as [[l| |] sc'] eqn:E; cbn [snd] in He; (split; [apply He|]); [|done..].
  by apply (entry_list_at_end _ _ _ _ _ _ (Hp _) Ht E).
Qed.

(** What a parser of a field promises for the text [s]. *)
Definition field_read (k : field_kind) (Q : ca -> Prop) (al : answer_arg) (s cal_name : option bytes)
    (sc : scanner) (x : res (option (list ca)) * answer_arg * scanner) : Prop :=
  let '(r, al', sc') := x in
  sc_overrun sc' = false /\
  match r with
  | Done l =>
      Forall Q (default [] l) /\ al' = al /\
      if scanned s then sc_token sc' = NO_TOKEN /\ sc_text sc' = [] else l = None /\ sc' = sc
  | Fail => al' = snd (answer_list_add al (text k (sc_error sc') cal_name) STATUS_EEXIST ANSWER_QUALITY_ERROR)
  | Stuck => False
  end.

Lemma disabled_list_read k set p m (Q : ca -> Prop) al s cal_name sc :
  set_ok set -> (forall fuel, tidies (p fuel)) ->
  (forall fuel sc, set_ok (sc_set sc) -> (left_over sc < fuel)%nat -> good (left_over sc) Q (p fuel sc)) ->
  length (default [] s) < store_size -> sc_overrun sc = false ->
  field_read k Q al s cal_name sc (disabled_list text k set p m al s cal_name sc).
Proof.
  intros Hset Ht Hp Hlen Ho. unfold field_read.
  pose proof (disabled_list_spec k set p m Q al s cal_name sc Hset Hp) as H1.
  pose proof (disabled_list_scan k set p m al s cal_name sc Hset Ht Hlen Ho) as H2.
  assert (scanned s = false -> disabled_list text k set p m al s cal_name sc = (Done None, al, sc)) as H3.
  { unfold scanned, disabled_list. destruct s as [s|]; [|done]. by destruct (_ =? 0). }
  destruct (disabled_list _ _ _ _ _ _ _ _ _) as [[[l| |] al'] sc']; destruct H2 as [H2 H4];
    (split; [done|]); [|done..]. destruct H1 as [H1 H5]. split; [done|]. split; [done|].
  destruct (scanned s); [done|]. by injection (H3 eq_refl) as -> -> ->.
Qed.

(** C33: Any text of a week or year field that has less than 1000 bytes (the size of the scanner's
    buffer, which is then never overrun) is read to its end or refused with one error: a result
    is only returned when the scanner has no text left and says so with NO_TOKEN; no loop of the
    parser runs for ever and no null pointer is read.  What is read is well formed:
    times of day are ranges that are closed and not empty, weekdays are ranges within the
    week whose continuation over its end is covered, dates are in order. *)
Theorem fields_parsed (al : answer_arg) (s cal_name : option bytes) (sc : scanner) :
  length (default [] s) < store_size -> sc_overrun sc = false ->
  field_read WeekField week_entry_ok al s cal_name sc (disabled_week_list text al s cal_name sc) /\
  field_read YearField year_entry_parsed al s cal_name sc (disabled_year_list text al s cal_name sc).
Proof.
  intros Hlen Ho. split.
  - apply disabled_list_read; [apply week_set_ok|apply tidies_week_entry| |done|done].
    intros. by apply disabled_week_entry_parses.
  - apply disabled_list_read; [apply year_set_ok|apply tidies_year_entry| |done|done].
    intros. by apply disabled_year_entry_parses.
Qed.

End Fields.

(** ** States *)

Definition no_text (k : field_kind) (m : option parse_message) (n : option bytes) : string := "".

(** The entries of the text of a field. *)
Definition week_of (s : string) : list ca :=
  match disabled_week_list no_text None (Some (str s)) None scanner_start with (Done l, _, _) => default [] l | _ => [] end.
Definition year_of (s : string) : list ca :=
  match disabled_year_list no_text None (Some (str s)) None scanner_start with (Done l, _, _) => default [] l | _ => [] end.




Lemma fields_parsed_witness :
  field_read no_text WeekField week_entry_ok None (Some (str "mon-fri=20-6=suspended sat-sun=off")) None
    scanner_start
    (disabled_week_list no_text None (Some (str "mon-fri=20-6=suspended sat-sun=off")) None scanner_start).
Proof.
  refine (proj1 (fields_parsed no_text None (Some (str "mon-fri=20-6=suspended sat-sun=off")) None
    scanner_start _ _)); vm_compute; reflexivity.
Defined.




(** Monday, the first of January 2024, at nine in the evening. *)
Definition sample_time : Z := 1704142800.







(** ** Times of day *)

(** C34: Joining the times of day of an entry keeps exactly the seconds they had, whatever
    order they are written in and however they overlap, and leaves ranges that have no second
    in common; the loop, which starts again after every change, ends. *)
Theorem times_normalised (l : list tmr) :
  Forall (closed daytime_dom daytime_key) l ->
  exists l', normalize_range_list l tm_daytime_cmp = Some l' /\
    (forall t, daytime_dom t -> in_range_list tm_daytime_cmp t (Some l') = in_range_list tm_daytime_cmp t (Some l)) /\
    ForallOrdPairs (fun r q => forall t, daytime_dom t -> in_range tm_daytime_cmp t r && in_range tm_daytime_cmp t q = false) l'.
Proof.
  intros Hl. destruct (normalize_spec tm_daytime_cmp daytime_dom daytime_key l Hl) as (l' & E & H1 & H2 & H3).
  assert (forall k, Forall (closed daytime_dom daytime_key) k -> Forall (range_ok daytime_dom daytime_key) k) as Hr
    by (intros k Hk; eapply Forall_impl; [exact Hk|by intros r []]).
  exists l'. split; [done|]. split.
  - intros t Ht. apply eq_true_iff_eq. rewrite !(in_list_key tm_daytime_cmp daytime_dom daytime_key) by auto. apply H2.
  - clear E H2. induction H3 as [|r k Hrk Hk IH]; [constructor|]. apply Forall_cons in H1 as [[Hro _] H1].
    constructor; [|by apply IH]. rewrite Forall_forall in *. intros q Hq t Ht. destruct (H1 q Hq) as [Hqo _].
    rewrite !(in_range_key tm_daytime_cmp daytime_dom daytime_key) by done. destruct (Hrk q Hq); lia.
Qed.

Definition clock (h1 h2 : Z) : tmr := Tmr (with_hour h1 tm_zero) (Some (with_hour h2 tm_zero)).

Lemma times_normalised_witness :
  exists l', normalize_range_list [clock 8 10; clock 20 22; clock 9 21] tm_daytime_cmp = Some l' /\
    (forall t, daytime_dom t -> in_range_list tm_daytime_cmp t (Some l') =
       in_range_list tm_daytime_cmp t (Some [clock 8 10; clock 20 22; clock 9 21])) /\
    ForallOrdPairs (fun r q => forall t, daytime_dom t -> in_range tm_daytime_cmp t r && in_range tm_daytime_cmp t q = false) l'.
Proof.
  apply (times_normalised [clock 8 10; clock 20 22; clock 9 21]).
  repeat (apply Forall_cons_2;
    [split; [split|by eexists]; unfold daytime_dom, lo, hi, daytime_key, last_of; simpl; lia|]).
  apply Forall_nil_2.
Defined.

(** ** What some calendars do *)

Section Samples.
#[local] Hint Extern 0 Zone => exact (fixed_zone 0) : typeclass_instances.

Let shown (l : list ca) := map (fun e => option_map (map (fun r => (begin_wday r, end_wday r))) (CA_wday_range_list e)) l.

(** Tuesday is lost: it is joined to a day that has no end, and the end of a single day,
    which there is none of, is copied. *)
Example joined_day_lost : shown (week_of "mon,tue") = [Some [(1, 1)]].
Proof. reflexivity. Qed.

(** Friday is lost: the end of the first range is compared with what it was in the beginning. *)
Example joined_range_shrinks : shown (week_of "mon-tue,tue-fri,wed-thu") = [Some [(1, 4)]].
Proof. reflexivity. Qed.

(** Off from midnight to eight: at nine in the evening the queue is off, because the state of
    the next day is reported as that of today. *)
Example next_day_reported_today :
  state_at sample_time None (Some (week_of "mon-fri=0-8")) = Some (QI_DO_DISABLE, 1704182400) /\
  calendar_state [] (week_of "mon-fri=0-8") sample_time = QI_DO_ENABLE.
Proof. split; vm_compute; reflexivity. Qed.

(** Suspended on Monday: a range of Saturday opens the queue, because the search for the next
    change adds the states of later moments to the state of now. *)
Example later_state_reported_now :
  option_map fst (state_at sample_time None (Some (week_of "mon-fri=suspended mon-wed=9-18=suspended sat=on"))) =
    Some QI_DO_ENABLE /\
  calendar_state [] (week_of "mon-fri=suspended mon-wed=9-18=suspended sat=on") sample_time = QI_DO_SUSPEND.
Proof. split; vm_compute; reflexivity. Qed.

(** The end of a range belongs to it. *)
Example end_belongs_to_range :
  option_map fst (state_at (sample_time - 3 * 3600) None (Some (week_of "mon=9-18"))) = Some QI_DO_DISABLE.
Proof. vm_compute. reflexivity. Qed.

(** A year entry of the day that is not active leaves the day to the week. *)
Example year_day_left_to_week :
  option_map fst (state_at sample_time (Some (year_of "1.1.2024=0-8")) (Some (week_of "mon=12-22=off"))) =
    Some QI_DO_DISABLE.
Proof. vm_compute. reflexivity. Qed.

(** Dates that do not exist are accepted. *)
Example impossible_date : map CA_state (year_of "31.2.2024") = [QI_DO_DISABLE].
Proof. reflexivity. Qed.

(** The question whether a queue is open never returns when the time frame reaches the end
    of a range in which the calendar opens the queue on purpose: the next change at the end
    of the range is the end itself. *)
Theorem open_in_time_frame_hangs (fuel : nat) :
  let c := Cal None None None None (Some (week_of "mon=9-18=on")) in
  calendar_open_in_time_frame fuel (Some c) ((sample_time - 11 * 3600) * 1000000) (10 * 3600 * 1000000) = None.
Proof.
  intros c. unfold calendar_open_in_time_frame. cbn [mbind option_bind CAL_parsed_year_calendar CAL_parsed_week_calendar c].
  set (w := week_of "mon=9-18=on").
  set (start := sge_gmt64_to_time_t _). set (end_ := sge_gmt64_to_time_t _).
  assert (forall f, open_loop f None (Some w) (sample_time - 3 * 3600) end_ = None) as Hloop.
  { induction f as [|f IH]; [done|]. cbn [open_loop].
    assert (state_at (sample_time - 3 * 3600) None (Some w) = Some (QI_DO_ENABLE, sample_time - 3 * 3600)) as ->
      by (vm_compute; reflexivity).
    cbn [mbind option_bind]. rewrite IH. vm_compute. reflexivity. }
  destruct fuel as [|fuel]; [done|]. cbn [open_loop].
  assert (state_at start None (Some w) = Some (QI_DO_ENABLE, sample_time - 3 * 3600)) as ->
    by (vm_compute; reflexivity).
  cbn [mbind option_bind]. rewrite Hloop. vm_compute. reflexivity.
Qed.

End Samples.

End CalProps.
