(* ===== verification/Qeti.v ===== *)
(** The queue end time iterator ([libs/sched/sge_qeti.cc]): the moments a reservation may
    begin at, from the last one backwards, and the loop of the scheduler over them
    ([parallel_reservation_max_time_slots] of [libs/sched/sge_select_queue.cc]).

    An iterator keeps references into the diagrams of [Utilization]; a reference to an
    entry is its position. *)

From S2P Require Import Prelude Host Utilization.
Import Host Utilization.

Module Qeti.

Section qeti.
Context {A : Type} {HA : Amount A}.

(** [QETI_Type] *)
Record qeti_elem := Qe {
  QETI_total : A;
  QETI_resource_instance : rue A;
  QETI_queue_end_next : option nat;
}.

(** [sge_qeti_t]; a null list is an empty one. *)
Record sge_qeti_t := Qeti {
  cr_refs_pe : list qeti_elem;
  cr_refs_global : list qeti_elem;
  cr_refs_host : list qeti_elem;
  cr_refs_queue : list qeti_elem;
}.

(** ** Creation *)

(** [CE_Type], as far as the iterator goes. *)
Record centry := Ce { CE_name : string; CE_doubleval : A; CE_consumable : Z }.

Definition CONSUMABLE_NO : Z := 0.

Definition lGetElemStr {B} (key : B -> string) (l : list B) (name : string) : option B :=
  find (fun e => bool_decide (key e = name)) l.

(** The list and whether the function succeeded; memory does not run out. *)
Definition sge_qeti_list_add (lpp : list qeti_elem) (name : string) (rue_lp : list (rue A)) (total : A)
    (must_exist : bool) : bool * list qeti_elem :=
  match lGetElemStr RUE_name rue_lp name with
  | None => (negb must_exist, lpp)
  | Some tmp_cr_ref => (true, lpp ++ [Qe total tmp_cr_ref None])
  end.

(** One requested resource. *)
Definition add_request (rue_list : list (rue A)) (total_list centry_list : list centry)
    (acc : bool * list qeti_elem) (name : string) : bool * list qeti_elem :=
  let '(ok, l) := acc in
  if negb ok then (ok, l)
  else match lGetElemStr CE_name centry_list name with
       | Some c =>
           if CE_consumable c =? CONSUMABLE_NO then (ok, l)
           else match lGetElemStr CE_name total_list name with
                | Some tep => sge_qeti_list_add l name rue_list (CE_doubleval tep) false
                | None => (ok, l)
                end
       | None => (ok, l)
       end.

(** [requests]: the names in the hard requests of the request sets of the job. *)
Definition sge_add_qeti_resource_container (qeti_to_add : list qeti_elem) (rue_list : list (rue A))
    (total_list centry_list : list centry) (requests : list (list string)) : bool * list qeti_elem :=
  let '(ok, l) :=
    match lGetElemStr CE_name total_list SGE_ATTR_SLOTS with
    | Some tep => sge_qeti_list_add qeti_to_add SGE_ATTR_SLOTS rue_list (CE_doubleval tep) true
    | None => (true, qeti_to_add)
    end in
  if ok then fold_left (add_request rue_list total_list centry_list) (concat requests) (true, l)
  else (false, l).

(** [PE_Type], [EH_Type] and [QU_Type], as far as the iterator goes. *)
Record pe := Pe { PE_name : string; PE_resource_utilization : list (rue A); PE_slots : A }.
Record host := Eh { EH_name : bytes; EH_resource_utilization : list (rue A); EH_consumable_config_list : list centry }.
Record queue := Qu {
  QU_qhostname : bytes; QU_resource_utilization : list (rue A); QU_consumable_config_list : list centry;
  QU_pe_list : list string;
}.

(** [sge_assignment_t]; [a_gep] is the position of the global host in the list of hosts. *)
Record assignment := Assignment {
  a_ar_id : Z;
  a_pe : pe;
  a_gep : option nat;
  a_host_list : list host;
  a_queue_list : list queue;
  a_centry_list : list centry;
  a_requests : list (list string);
}.

Definition qinstance_is_pe_referenced (q : queue) (p : pe) : bool :=
  existsb (fun n => bool_decide (PE_name p = n)) (QU_pe_list q).

(** The static matching of [libs/sched/sge_select_queue.cc]: whether a host is not excluded for
    the whole category, whether a queue matches. *)
Context (sge_host_match_static : assignment -> host -> bool)
        (sge_queue_match_static : assignment -> queue -> bool).
Context (cfg : bootstrap).

(** A queue instance of the host: whether all went well, the iterator, [is_relevant]. *)
Definition add_queue (a : assignment) (acc : bool * sge_qeti_t * bool) (qep : queue) : bool * sge_qeti_t * bool :=
  let '(ok, iter, is_relevant) := acc in
  if negb ok then (ok, iter, is_relevant)
  else if negb (qinstance_is_pe_referenced qep (a_pe a)) then (ok, iter, is_relevant)
  else if negb (sge_queue_match_static a qep) then (ok, iter, is_relevant)
  else
    let '(ok, l) := sge_add_qeti_resource_container (cr_refs_queue iter) (QU_resource_utilization qep)
                      (QU_consumable_config_list qep) (a_centry_list a) (a_requests a) in
    (ok, Qeti (cr_refs_pe iter) (cr_refs_global iter) (cr_refs_host iter) l, true).

Definition add_host (a : assignment) (acc : bool * sge_qeti_t) (ih : nat * host) : bool * sge_qeti_t :=
  let '(ok, iter) := acc in
  let '(i, hep) := ih in
  if negb ok then (ok, iter)
  else if bool_decide (Some i = a_gep a) then (ok, iter)
  else if negb (sge_host_match_static a hep) then (ok, iter)
  else
    let '(ok, iter, is_relevant) :=
      fold_left (add_queue a) (filter (fun q => same_host cfg (EH_name hep) (QU_qhostname q) = true) (a_queue_list a))
        (true, iter, false) in
    if (ok : bool) && (is_relevant : bool) then
      let '(ok, l) := sge_add_qeti_resource_container (cr_refs_host iter) (EH_resource_utilization hep)
                        (EH_consumable_config_list hep) (a_centry_list a) (a_requests a) in
      (ok, Qeti (cr_refs_pe iter) (cr_refs_global iter) l (cr_refs_queue iter))
    else (ok, iter).

Definition sge_qeti_allocate (a : assignment) : option sge_qeti_t :=
  let '(ok, l) :=
    if a_ar_id a =? 0 then
      sge_qeti_list_add [] SGE_ATTR_SLOTS (PE_resource_utilization (a_pe a)) (PE_slots (a_pe a)) true
    else (true, []) in
  if negb ok then None
  else
    let '(ok, g) :=
      match a_gep a ≫= fun i => a_host_list a !! i with
      | Some gep =>
          sge_add_qeti_resource_container [] (EH_resource_utilization gep) (EH_consumable_config_list gep)
            (a_centry_list a) (a_requests a)
      | None => (true, [])
      end in
    if negb ok then None
    else
      let '(ok, iter) := fold_left (add_host a) (imap pair (a_host_list a)) (true, Qeti l g [] []) in
      if (ok : bool) then Some iter else None.

(** ** Walking *)

Definition utilization_diagram (e : qeti_elem) : list (rde A) := default [] (RUE_utilized (QETI_resource_instance e)).

Definition set_next (e : qeti_elem) (r : option nat) : qeti_elem := Qe (QETI_total e) (QETI_resource_instance e) r.

(** The positions of the last entry and of the one before an entry. *)
Definition lLast {B} (l : list B) : option nat := match length l with O => None | S n => Some n end.
Definition lPrev (i : nat) : option nat := match i with O => None | S i => Some i end.

Definition sge_qeti_init_refs (cref_lp : list qeti_elem) : list qeti_elem :=
  map (fun e => set_next e (lLast (utilization_diagram e))) cref_lp.

Definition ref_time (e : qeti_elem) : option Z :=
  i ← QETI_queue_end_next e; r ← utilization_diagram e !! i; Some (RDE_time r).

Definition sge_qeti_max_end_time (max_time : Z) (cref_lp : list qeti_elem) : Z :=
  fold_left (fun tmp_time e => match ref_time e with Some t => Z.max tmp_time t | None => tmp_time end) cref_lp max_time.

(** The loop [while (ref && time < RDE_time)]. *)
Fixpoint step_back (d : list (rde A)) (time : Z) (i : nat) : option nat :=
  match d !! i with
  | Some r =>
      if time <? RDE_time r then match i with O => None | S i => step_back d time i end
      else Some i
  | None => None
  end.

Definition sge_qeti_switch_to_next (time : Z) (cref_lp : list qeti_elem) : list qeti_elem :=
  let time := u64 (time - 1) in
  map (fun e =>
    match QETI_queue_end_next e with
    | None => e
    | Some i => set_next e (step_back (utilization_diagram e) time i)
    end) cref_lp.

(** The four lists. *)
Definition on_refs (f : list qeti_elem -> list qeti_elem) (q : sge_qeti_t) : sge_qeti_t :=
  Qeti (f (cr_refs_pe q)) (f (cr_refs_global q)) (f (cr_refs_host q)) (f (cr_refs_queue q)).

Definition max_of_refs (from : Z) (q : sge_qeti_t) : Z :=
  let t := sge_qeti_max_end_time from (cr_refs_pe q) in
  let t := sge_qeti_max_end_time t (cr_refs_global q) in
  let t := sge_qeti_max_end_time t (cr_refs_host q) in
  sge_qeti_max_end_time t (cr_refs_queue q).

Definition sge_qeti_next_before (q : sge_qeti_t) (start : Z) : sge_qeti_t := on_refs (sge_qeti_switch_to_next start) q.

Definition sge_qeti_first (q : sge_qeti_t) : Z * sge_qeti_t :=
  let q := on_refs sge_qeti_init_refs q in
  let all_resources_queue_end_time := max_of_refs 0 q in
  (all_resources_queue_end_time, on_refs (sge_qeti_switch_to_next all_resources_queue_end_time) q).

Definition sge_qeti_next (q : sge_qeti_t) : Z * sge_qeti_t :=
  let all_resources_queue_end_time := max_of_refs DISPATCH_TIME_NOW q in
  (all_resources_queue_end_time, on_refs (sge_qeti_switch_to_next all_resources_queue_end_time) q).

(** ** The search for a reservation *)

(** The loop [for (pe_time = first_time; pe_time; pe_time = sge_qeti_next(qeti))]: [assign]
    is [parallel_assignment] at a moment, [best] the assignment found so far. *)
Fixpoint reservation_loop {B} (assign : Z -> option B) (fuel : nat) (pe_time : Z) (q : sge_qeti_t)
    (best : option B) : option (option B) :=
  if pe_time =? 0 then Some best
  else
    match fuel with
    | O => None
    | S fuel =>
        let best := match assign pe_time with Some b => Some b | None => best end in
        let '(pe_time, q) := sge_qeti_next q in
        reservation_loop assign fuel pe_time q best
    end.

(** [start] is [best->start], [now] is [best->now]. *)
Definition parallel_reservation {B} (assign : Z -> option B) (fuel : nat) (start now : Z) (q : sge_qeti_t) :
    option (option B) :=
  let '(first_time, q) :=
    if start =? DISPATCH_TIME_QUEUE_END then
      let '(t, q) := sge_qeti_first q in (if t =? 0 then now else t, q)
    else (start, sge_qeti_next_before q start) in
  reservation_loop assign fuel first_time q None.

End qeti.

#[global] Arguments qeti_elem : clear implicits.
#[global] Arguments sge_qeti_t : clear implicits.

End Qeti.
