(* ===== verification/QetiProps.v ===== *)
(** QetiProps: the iterator visits every moment at which a diagram changes, and the search
    for a reservation finds the earliest of them. *)

From S2P Require Import Prelude Host Utilization UtilizationFacts Qeti.
Import Host Utilization UtilizationFacts Qeti.

Module QetiProps.

Section lemmas.
Context {A : Type} {HA : Amount A}.

Implicit Types (d : list (rde A)) (e : qeti_elem A) (q : sge_qeti_t A).

(** The elements of the four lists. *)
Definition elems q : list (qeti_elem A) := cr_refs_pe q ++ cr_refs_global q ++ cr_refs_host q ++ cr_refs_queue q.

Definition times d : list Z := map RDE_time d.
Definition all_times q : list Z := elems q ≫= fun e => times (utilization_diagram e).

(** Diagrams are sorted and their times are 64 bit numbers. *)
Definition diagram_ok d : Prop := times_above (-1) d /\ Forall (fun r => RDE_time r < 2 ^ 64) d.
Definition qeti_ok q : Prop := Forall (fun e => diagram_ok (utilization_diagram e)) (elems q).

(** ** Positions *)

Definition before (b : Z) d : list (rde A) := filter (fun r => RDE_time r < b) d.

(** An element refers to the last entry before [b]. *)
Definition at_bound (b : Z) e : Prop := QETI_queue_end_next e = lLast (before b (utilization_diagram e)).

Lemma times_above_all lo d : times_above lo d -> Forall (fun r => lo < RDE_time r) d.
Proof.
  revert lo. induction d as [|r d IH]; intros lo H; [constructor|]. destruct H as [H1 H2].
  constructor; [done|]. eapply Forall_impl; [by apply IH|]. simpl. intros. lia.
Qed.

Lemma before_none b d lo : times_above lo d -> b <= lo + 1 -> before b d = [].
Proof.
  intros H Hb. apply times_above_all in H. unfold before. induction H as [|r d Hr _ IH]; [done|].
  rewrite filter_cons_False by lia. done.
Qed.

(** What is before a moment is a prefix. *)
Lemma before_take b d lo : times_above lo d -> before b d = take (length (before b d)) d.
Proof.
  revert lo. induction d as [|r d IH]; intros lo H; [done|]. destruct H as [H1 H2]. unfold before.
  destruct (decide (RDE_time r < b)).
  - rewrite filter_cons_True by done. simpl. f_equal. fold (before b d). by apply (IH (RDE_time r)).
  - rewrite filter_cons_False by done. fold (before b d). by rewrite (before_none b d (RDE_time r)) by (done || lia).
Qed.

Lemma before_min b b' d : before b (before b' d) = before (Z.min b b') d.
Proof.
  unfold before. rewrite list_filter_filter. apply list_filter_iff. intros r. lia.
Qed.

Lemma lLast_snoc {B} (l : list B) x : lLast (l ++ [x]) = Some (length l).
Proof. unfold lLast. rewrite length_app. simpl. by rewrite Nat.add_1_r. Qed.

Lemma lLast_some {B} (l : list B) i : lLast l = Some i -> length l = S i.
Proof. unfold lLast. destruct (length l); congruence. Qed.

Lemma lLast_none {B} (l : list B) : lLast l = None -> l = [].
Proof. destruct l; [done|discriminate]. Qed.

Lemma times_above_take lo d n : times_above lo d -> times_above lo (take n d).
Proof.
  revert lo d. induction n as [|n IH]; intros lo d H; [done|]. destruct d as [|r d]; [done|].
  destruct H. split; [done|]. by apply IH.
Qed.

Lemma times_above_snoc lo d r : times_above lo (d ++ [r]) -> Forall (fun r' => RDE_time r' < RDE_time r) d.
Proof.
  revert lo. induction d as [|x d IH]; intros lo H; [constructor|]. destruct H as [_ H].
  constructor; [|by apply (IH (RDE_time x))]. apply times_above_all in H. rewrite Forall_app in H.
  destruct H as [_ H]. rewrite Forall_singleton in H. exact H.
Qed.

Lemma before_full b d : Forall (fun r => RDE_time r < b) d -> before b d = d.
Proof.
  unfold before. induction 1 as [|r d Hr _ IH]; [done|]. by rewrite filter_cons_True, IH by done.
Qed.


Lemma step_back_spec d time i lo :
  times_above lo d -> (i < length d)%nat ->
  step_back d time i = lLast (before (time + 1) (take (S i) d)).
Proof.
  intros Hs. revert time. induction i as [|i IH]; intros time Hi;
    destruct (lookup_lt_is_Some_2 d _ Hi) as [r Hr]; cbn [step_back]; rewrite Hr.
  - rewrite (take_S_r d 0 r Hr). simpl. unfold before.
    destruct (time <? RDE_time r) eqn:E; [rewrite filter_cons_False by lia|rewrite filter_cons_True by lia]; done.
  - rewrite (take_S_r d (S i) r Hr).
    assert (Forall (fun r' => RDE_time r' < RDE_time r) (take (S i) d)) as Hb.
    { apply (times_above_snoc lo). rewrite <- (take_S_r d (S i) r Hr). by apply times_above_take. }
    unfold before. rewrite filter_app. destruct (time <? RDE_time r) eqn:E.
    + rewrite (filter_cons_False _ r) by lia. rewrite filter_nil, app_nil_r. apply IH. lia.
    + rewrite (filter_cons_True _ r) by lia. rewrite filter_nil. fold (before (time + 1) (take (S i) d)).
      rewrite before_full; [rewrite lLast_snoc, length_take; f_equal; lia|].
      eapply Forall_impl; [exact Hb|]. simpl. lia.
Qed.

Lemma u64_pred t : 0 < t <= 2 ^ 64 -> u64 (t - 1) = t - 1.
Proof. intros H. unfold u64. apply Z.mod_small. lia. Qed.

(** ** One element *)

Lemma init_at_bound e : diagram_ok (utilization_diagram e) ->
  at_bound (2 ^ 64) (set_next e (lLast (utilization_diagram e))).
Proof. intros [_ H]. unfold at_bound. cbn [set_next QETI_queue_end_next]. by rewrite before_full by done. Qed.

Lemma switch_at_bound b t e : diagram_ok (utilization_diagram e) -> 0 < t <= 2 ^ 64 -> at_bound b e ->
  at_bound (Z.min b t)
    (match QETI_queue_end_next e with
     | None => e
     | Some i => set_next e (step_back (utilization_diagram e) (u64 (t - 1)) i)
     end).
Proof.
  intros [Hs _] Ht Hb. unfold at_bound in *. rewrite u64_pred by done.
  rewrite Z.min_comm, <- before_min. set (d := utilization_diagram e) in *.
  destruct (QETI_queue_end_next e) as [i|] eqn:E.
  - cbn [set_next QETI_queue_end_next]. symmetry in Hb. apply lLast_some in Hb.
    pose proof (before_take b d _ Hs) as Hp. rewrite Hb in Hp. unfold utilization_diagram at 1. simpl.
    fold (utilization_diagram e). fold d.
    assert (i < length d)%nat. { apply (f_equal length) in Hp. rewrite length_take in Hp. lia. }
    rewrite (step_back_spec d (t - 1) i _ Hs) by done. rewrite <- Hp. by replace (t - 1 + 1) with t by lia.
  - rewrite E. symmetry in Hb. apply lLast_none in Hb. fold d. by rewrite Hb.
Qed.

Lemma ref_time_spec b e : diagram_ok (utilization_diagram e) -> at_bound b e ->
  ref_time e = RDE_time <$> last (before b (utilization_diagram e)).
Proof.
  intros [Hs _] Hb. unfold ref_time. rewrite Hb. set (d := utilization_diagram e) in *.
  rewrite last_lookup. unfold lLast. destruct (length (before b d)) as [|n] eqn:E.
  - apply length_zero_iff_nil in E. by rewrite E.
  - cbn [mbind option_bind]. simpl. pose proof (before_take b d _ Hs) as Hp. rewrite E in Hp.
    rewrite Hp, lookup_take_lt by lia. by destruct (d !! n).
Qed.

Lemma last_max b lo d : times_above lo d -> 
  match last (before b d) with
  | Some r => RDE_time r < b /\ RDE_time r ∈ times d /\ Forall (fun r' => RDE_time r' < b -> RDE_time r' <= RDE_time r) d
  | None => Forall (fun r => b <= RDE_time r) d
  end.
Proof.
  intros Hs. pose proof (times_above_take lo d (length (before b d)) Hs) as Hp. rewrite <- (before_take b d lo Hs) in Hp.
  destruct (last (before b d)) as [r|] eqn:E.
  - apply last_Some in E as [l E]. rewrite E in Hp. apply times_above_snoc in Hp.
    assert (r ∈ before b d) as Hr by (rewrite E; set_solver). apply list_elem_of_filter in Hr as [H1 H2].
    split; [done|]. split; [by apply list_elem_of_fmap_2|]. rewrite Forall_forall. intros x Hx Hlt.
    assert (x ∈ before b d) as Hin by (by apply list_elem_of_filter). rewrite E in Hin.
    apply elem_of_app in Hin as [Hin|Hin]; [|apply list_elem_of_singleton in Hin; subst; lia].
    rewrite Forall_forall in Hp. specialize (Hp x Hin). lia.
  - apply last_None in E. rewrite Forall_forall. intros x Hx. apply Z.nlt_ge. intros Hlt.
    assert (x ∈ before b d) as Hin by (by apply list_elem_of_filter). rewrite E in Hin. set_solver.
Qed.

(** ** The whole iterator *)

(** [m] is the greatest of [ts] before [b], 0 when there is none. *)
Definition is_max (b : Z) (ts : list Z) (m : Z) : Prop :=
  0 <= m /\ (forall t, t ∈ ts -> t < b -> t <= m) /\ (m = 0 \/ m ∈ ts /\ m < b).

Lemma elems_on_refs g q : elems (on_refs (map g) q) = map g (elems q).
Proof. unfold elems, on_refs. cbn. by rewrite !map_app. Qed.

Lemma max_of_refs_app from q : max_of_refs from q = sge_qeti_max_end_time from (elems q).
Proof. unfold max_of_refs, elems, sge_qeti_max_end_time. by rewrite !fold_left_app. Qed.

(** All references are at [b]; the diagrams are those of [q0]. *)
Definition positioned q0 b q : Prop :=
  Forall (at_bound b) (elems q) /\ map utilization_diagram (elems q) = map utilization_diagram (elems q0).

Lemma same_times q q0 : map utilization_diagram (elems q) = map utilization_diagram (elems q0) ->
  all_times q = all_times q0.
Proof.
  intros H. unfold all_times.
  assert (forall l : list (qeti_elem A), (l ≫= fun e => times (utilization_diagram e)) =
    (map utilization_diagram l ≫= times)) as Hm.
  { induction l as [|e l IH]; [done|]. cbn [map]. rewrite bind_cons, IH. by rewrite (bind_cons times). }
  by rewrite !Hm, H.
Qed.

Lemma same_ok q q0 : map utilization_diagram (elems q) = map utilization_diagram (elems q0) -> qeti_ok q0 -> qeti_ok q.
Proof.
  unfold qeti_ok. intros H. rewrite <- !(Forall_map utilization_diagram diagram_ok). by rewrite H.
Qed.

Lemma max_end_time_spec b (l : list (qeti_elem A)) from :
  Forall (fun e => diagram_ok (utilization_diagram e)) l -> Forall (at_bound b) l ->
  let m := sge_qeti_max_end_time from l in
  let ts := l ≫= fun e => times (utilization_diagram e) in
  from <= m /\ (forall t, t ∈ ts -> t < b -> t <= m) /\ (m = from \/ m ∈ ts /\ m < b).
Proof.
  intros Hok Hb. revert from. induction Hb as [|e l He _ IH]; intros from; cbn zeta.
  - split; [apply Z.le_refl|]. split; [set_solver|by left].
  - apply Forall_cons in Hok as [Hd Hok]. specialize (IH Hok). rewrite bind_cons.
    change (sge_qeti_max_end_time from (e :: l)) with
      (sge_qeti_max_end_time (match ref_time e with Some t => Z.max from t | None => from end) l).
    rewrite (ref_time_spec b e Hd He). destruct Hd as [Hs _]. pose proof (last_max b _ _ Hs) as Hl.
    destruct (last (before b (utilization_diagram e))) as [r|]; cbn [fmap option_fmap option_map].
    + destruct Hl as (H1 & H2 & H3). destruct (IH (Z.max from (RDE_time r))) as (I1 & I2 & I3).
      split; [lia|]. split.
      * intros t Ht Htb. apply elem_of_app in Ht as [Ht|Ht]; [|by apply I2].
        apply list_elem_of_fmap in Ht as (x & -> & Hx). rewrite Forall_forall in H3. specialize (H3 x Hx Htb). lia.
      * destruct I3 as [->|[I3 I4]]; [|right; split; [set_solver|done]].
        destruct (Z.max_spec from (RDE_time r)) as [[_ ->]|[_ ->]]; [right; split; [set_solver|done]|by left].
    + destruct (IH from) as (I1 & I2 & I3). split; [done|]. split.
      * intros t Ht Htb. apply elem_of_app in Ht as [Ht|Ht]; [|by apply I2].
        apply list_elem_of_fmap in Ht as (x & -> & Hx). rewrite Forall_forall in Hl. specialize (Hl x Hx). lia.
      * destruct I3 as [->|[I3 I4]]; [by left|right; split; [set_solver|done]].
Qed.

Lemma positioned_max q0 b q : qeti_ok q0 -> positioned q0 b q -> is_max b (all_times q0) (max_of_refs 0 q).
Proof.
  intros Hok [Hb Hd]. rewrite <- (same_times q q0 Hd). rewrite max_of_refs_app.
  apply (max_end_time_spec b (elems q) 0); [by apply (same_ok q q0)|done].
Qed.

Lemma positioned_switch q0 b t q : qeti_ok q0 -> positioned q0 b q -> 0 < t <= 2 ^ 64 ->
  positioned q0 (Z.min b t) (on_refs (sge_qeti_switch_to_next t) q).
Proof.
  intros Hok [Hb Hd] Ht. pose proof (same_ok q q0 Hd Hok) as Hq. unfold positioned. unfold sge_qeti_switch_to_next.
  rewrite elems_on_refs. split.
  - rewrite Forall_map. unfold qeti_ok in Hq. rewrite Forall_forall in *. intros e He.
    apply switch_at_bound; auto.
  - rewrite <- Hd, map_map. apply map_ext. intros e. by destruct (QETI_queue_end_next e).
Qed.

Lemma positioned_init q0 : qeti_ok q0 -> positioned q0 (2 ^ 64) (on_refs sge_qeti_init_refs q0).
Proof.
  intros Hok. unfold positioned, sge_qeti_init_refs. rewrite elems_on_refs. split.
  - rewrite Forall_map. eapply Forall_impl; [exact Hok|]. intros e He. by apply init_at_bound.
  - rewrite map_map. by apply map_ext.
Qed.

Lemma time_bound q0 t : qeti_ok q0 -> t ∈ all_times q0 -> 0 <= t < 2 ^ 64.
Proof.
  intros Hok Ht. unfold all_times in Ht. apply list_elem_of_bind in Ht as (e & Ht & He).
  apply list_elem_of_fmap in Ht as (r & -> & Hr). unfold qeti_ok in Hok. rewrite Forall_forall in Hok.
  destruct (Hok e He) as [Hs Hm]. apply times_above_all in Hs. rewrite Forall_forall in Hs, Hm.
  specialize (Hs r Hr). specialize (Hm r Hr). lia.
Qed.

(** One call: the greatest time before [b], behind which the iterator then is. *)
Lemma next_spec q0 b q : qeti_ok q0 -> positioned q0 b q ->
  let '(t, q') := sge_qeti_next q in
  is_max b (all_times q0) t /\ (t <> 0 -> t < b /\ positioned q0 t q').
Proof.
  intros Hok Hp. cbn [sge_qeti_next]. change DISPATCH_TIME_NOW with 0. set (t := max_of_refs 0 q).
  pose proof (positioned_max q0 b q Hok Hp) as Hm. fold t in Hm. split; [done|]. intros Ht.
  destruct Hm as (H1 & _ & [->|[H2 H3]]); [done|]. split; [done|]. pose proof (time_bound q0 t Hok H2).
  replace t with (Z.min b t) at 1 by lia. apply positioned_switch; (done || lia).
Qed.

(** Switching to 0 moves nothing: the moment before it wraps around. *)
Lemma switch_zero (l : list (qeti_elem A)) : sge_qeti_switch_to_next 0 l = sge_qeti_switch_to_next (2 ^ 64) l.
Proof. reflexivity. Qed.

Lemma first_spec q : qeti_ok q ->
  let '(t, q') := sge_qeti_first q in
  is_max (2 ^ 64) (all_times q) t /\ positioned q (if t =? 0 then 2 ^ 64 else t) q'.
Proof.
  intros Hok. cbn [sge_qeti_first]. set (t := max_of_refs 0 _).
  pose proof (positioned_init q Hok) as Hp. pose proof (positioned_max q _ _ Hok Hp) as Hm. fold t in Hm.
  split; [done|]. destruct (t =? 0) eqn:E.
  - assert (t = 0) as -> by lia.
    change (on_refs (sge_qeti_switch_to_next 0)) with (on_refs (A:=A) (sge_qeti_switch_to_next (2 ^ 64))).
    replace (2 ^ 64) with (Z.min (2 ^ 64) (2 ^ 64)) at 1 by lia. by apply positioned_switch.
  - destruct Hm as (H1 & _ & [?|[H2 H3]]); [lia|]. replace t with (Z.min (2 ^ 64) t) at 1 by lia.
    apply positioned_switch; (done || lia).
Qed.

(** ** The loop *)

(** The moments the loop visits. *)
Fixpoint visited (fuel : nat) (pe_time : Z) q : option (list Z) :=
  if pe_time =? 0 then Some []
  else
    match fuel with
    | O => None
    | S fuel => let '(t, q) := sge_qeti_next q in cons pe_time <$> visited fuel t q
    end.

Lemma visited_spec q0 fuel t q : qeti_ok q0 -> t <> 0 -> positioned q0 t q ->
  (length (filter (fun x => (x < t)%Z) (all_times q0)) < fuel)%nat ->
  exists l, visited fuel t q = Some (t :: l) /\ StronglySorted Z.gt (t :: l) /\
    forall x, x ∈ l <-> x ∈ all_times q0 /\ 0 < x < t.
Proof.
  intros Hok. revert t q. induction fuel as [|fuel IH]; intros t q Ht Hp Hf; [lia|].
  cbn [visited]. rewrite (proj2 (Z.eqb_neq t 0) Ht). pose proof (next_spec q0 t q Hok Hp) as Hn.
  destruct (sge_qeti_next q) as [t' q']. destruct Hn as [(M1 & M2 & M3) Hn].
  destruct (decide (t' = 0)) as [->|Hz].
  - exists []. split; [by destruct fuel|]. split; [repeat constructor|].
    intros x. split; [set_solver|]. intros [Hx Hlt]. specialize (M2 x Hx). lia.
  - destruct (Hn Hz) as [Hlt Hp']. destruct M3 as [?|[Hin _]]; [done|].
    destruct (IH t' q' Hz Hp') as (l & E & Hs & Hl).
    { rewrite <- (list_filter_filter_l (fun x => x < t') (fun x => x < t)) by (simpl; lia).
      assert (t' ∈ filter (fun x => (x < t)%Z) (all_times q0)) as Hx by (by apply list_elem_of_filter).
      pose proof (length_filter_lt (fun x => (x < t')%Z) _ t' Hx (Z.lt_irrefl t')). lia. }
    exists (t' :: l). rewrite E. split; [done|]. split.
    + constructor; [done|]. constructor; [lia|]. rewrite Forall_forall. intros x Hx. apply Hl in Hx. lia.
    + intros x. rewrite elem_of_cons, Hl. split; [intros [->|[? ?]]; split; (done || lia)|].
      intros [Hx Hb]. specialize (M2 x Hx). destruct (decide (x = t')); [by left|right; split; [done|lia]].
Qed.

Lemma first_visits q : qeti_ok q ->
  let '(t, q') := sge_qeti_first q in
  exists l, visited (S (length (all_times q))) t q' = Some l /\ StronglySorted Z.gt l /\
    forall x, x ∈ l <-> x ∈ all_times q /\ x <> 0.
Proof.
  intros Hok. pose proof (first_spec q Hok) as Hf. destruct (sge_qeti_first q) as [t q'].
  destruct Hf as [(M1 & M2 & M3) Hp]. destruct (t =? 0) eqn:E.
  - exists []. cbn [visited]. rewrite E. split; [done|]. split; [constructor|]. intros x.
    split; [set_solver|]. intros [Hx Hz]. pose proof (time_bound q x Hok Hx). specialize (M2 x Hx). lia.
  - destruct (visited_spec q (S (length (all_times q))) t q' Hok) as (l & El & Hs & Hl); [lia|done| |].
    { pose proof (length_filter (fun x => (x < t)%Z) (all_times q)). lia. }
    exists (t :: l). split; [done|]. split; [done|]. intros x. rewrite elem_of_cons, Hl.
    destruct M3 as [?|[Hin _]]; [lia|]. split.
    + intros [->|[? ?]]; split; (done || lia).
    + intros [Hx Hz]. pose proof (time_bound q x Hok Hx). specialize (M2 x Hx).
      destruct (decide (x = t)); [by left|right; split; [done|lia]].
Qed.

(** Between two moments without an entry nothing changes. *)
Lemma level_between lo x d y z : times_above lo d -> y <= z ->
  Forall (fun r => ~ y < RDE_time r <= z) d -> level_from x d y = level_from x d z.
Proof.
  intros Hs Hyz. revert lo x Hs. induction d as [|r d IH]; intros lo x Hs Hf; [done|].
  apply Forall_cons in Hf as [Hr Hf]. destruct Hs as [_ Hs]. cbn [level_from].
  destruct (RDE_time r <=? y) eqn:E1, (RDE_time r <=? z) eqn:E2; try lia; [|done]. by apply (IH (RDE_time r)).
Qed.

Lemma loop_visits {B} (assign : Z -> option B) fuel t q best :
  reservation_loop assign fuel t q best =
    (fun l => fold_left (fun best t => match assign t with Some b => Some b | None => best end) l best)
      <$> visited fuel t q.
Proof.
  revert t q best. induction fuel as [|fuel IH]; intros t q best; cbn [reservation_loop visited];
    (destruct (t =? 0); [done|]); [done|].
  destruct (sge_qeti_next q) as [t' q']. rewrite IH. by destruct (visited fuel t' q').
Qed.
(** The last attempt that succeeds is the one at the earliest moment. *)
Lemma last_success {B} (assign : Z -> option B) l best : StronglySorted Z.gt l ->
  match fold_left (fun best t => match assign t with Some b => Some b | None => best end) l best with
  | Some b => (exists t, t ∈ l /\ assign t = Some b /\ forall t', t' ∈ l -> t' < t -> assign t' = None) \/
              (best = Some b /\ forall t, t ∈ l -> assign t = None)
  | None => best = None /\ forall t, t ∈ l -> assign t = None
  end.
Proof.
  intros Hs. revert best. induction Hs as [|t l Hs IH Ht]; intros best; cbn [fold_left].
  - destruct best; [right|]; (split; [done|set_solver]).
  - specialize (IH (match assign t with Some b => Some b | None => best end)). rewrite Forall_forall in Ht.
    destruct (fold_left _ l _) as [b|].
    + destruct IH as [(x & Hx & Ex & Hmin)|[E Hn]].
      * left. exists x. split; [set_solver|]. split; [done|]. intros y Hy Hlt.
        apply elem_of_cons in Hy as [->|Hy]; [|by apply Hmin]. specialize (Ht x Hx). lia.
      * destruct (assign t) as [b'|] eqn:Et.
        -- left. exists t. split; [set_solver|]. split; [congruence|]. intros y Hy Hlt.
           apply elem_of_cons in Hy as [->|Hy]; [lia|]. by apply Hn.
        -- right. split; [done|]. intros y Hy. apply elem_of_cons in Hy as [->|Hy]; [done|by apply Hn].
    + destruct IH as [E Hn]. destruct (assign t) as [b'|] eqn:Et; [done|]. split; [done|].
      intros y Hy. apply elem_of_cons in Hy as [->|Hy]; [done|by apply Hn].
Qed.

(** ** A new iterator *)

Definition fresh (l : list (qeti_elem A)) : Prop := Forall (fun e => QETI_queue_end_next e = None) l.

Definition fresh_qeti q : Prop := fresh (elems q).

Lemma fresh_parts q : fresh_qeti q <->
  fresh (cr_refs_pe q) /\ fresh (cr_refs_global q) /\ fresh (cr_refs_host q) /\ fresh (cr_refs_queue q).
Proof. unfold fresh_qeti, elems, fresh. by rewrite !Forall_app. Qed.

Lemma fold_keeps {B C} (P : B -> Prop) (f : B -> C -> B) l b :
  (forall b c, P b -> P (f b c)) -> P b -> P (fold_left f l b).
Proof. intros Hf. revert b. induction l as [|c l IH]; intros b Hb; [done|]. apply IH. by apply Hf. Qed.

Lemma list_add_fresh l name rl total me : fresh l -> fresh (snd (sge_qeti_list_add l name rl total me)).
Proof.
  intros H. unfold sge_qeti_list_add. destruct (lGetElemStr _ _ _); [|done].
  apply Forall_app. split; [done|]. by apply Forall_singleton.
Qed.

Lemma add_request_fresh rl tl cl acc name : fresh (snd acc) -> fresh (snd (add_request rl tl cl acc name)).
Proof.
  destruct acc as [[] l]; intros H; [|done]. unfold add_request. cbn [negb].
  destruct (lGetElemStr _ cl _) as [c|]; [|done]. destruct (_ =? _); [done|].
  destruct (lGetElemStr _ tl _); [by apply list_add_fresh|done].
Qed.

Lemma container_fresh l rl tl cl reqs : fresh l -> fresh (snd (sge_add_qeti_resource_container l rl tl cl reqs)).
Proof.
  intros H. unfold sge_add_qeti_resource_container.
  assert (fresh (snd (match lGetElemStr CE_name tl SGE_ATTR_SLOTS with
    | Some tep => sge_qeti_list_add l SGE_ATTR_SLOTS rl (CE_doubleval tep) true | None => (true, l) end))) as H1.
  { destruct (lGetElemStr _ _ _); [by apply list_add_fresh|done]. }
  destruct (match lGetElemStr _ _ _ with Some _ => _ | None => _ end) as [[] l']; [|done].
  apply (fold_keeps (fun acc => fresh (snd acc))); [intros; by apply add_request_fresh|done].
Qed.

Lemma add_queue_fresh qm (a : assignment) acc qep :
  fresh_qeti (snd (fst acc)) -> fresh_qeti (snd (fst (add_queue qm a acc qep))).
Proof.
  destruct acc as [[[] q] rel]; intros H; [|done]. unfold add_queue. cbn [negb].
  destruct (qinstance_is_pe_referenced _ _); [|done]. cbn [negb]. destruct (qm a qep); [|done]. cbn [negb].
  apply fresh_parts in H as (H1 & H2 & H3 & H4).
  pose proof (container_fresh _ (QU_resource_utilization qep) (QU_consumable_config_list qep) (a_centry_list a)
    (a_requests a) H4) as H5.
  destruct (sge_add_qeti_resource_container _ _ _ _ _) as [ok l]. by apply fresh_parts.
Qed.

Lemma add_host_fresh hm qm cfg (a : assignment) acc ih :
  fresh_qeti (snd acc) -> fresh_qeti (snd (add_host hm qm cfg a acc ih)).
Proof.
  destruct acc as [[] q], ih as [i hep]; intros H; [|done]. unfold add_host. cbn [negb].
  destruct (bool_decide _); [done|]. destruct (hm a hep); [|done]. cbn [negb].
  set (qs := filter _ _).
  pose proof (fold_keeps (fun acc => fresh_qeti (snd (fst acc))) (add_queue qm a) qs (true, q, false)
    (fun acc qep => add_queue_fresh qm a acc qep) H) as Hq.
  destruct (fold_left (add_queue qm a) qs _) as [[ok q'] rel]. cbn [fst snd] in Hq. destruct (ok && rel); [|done].
  apply fresh_parts in Hq as (H1 & H2 & H3 & H4).
  pose proof (container_fresh _ (EH_resource_utilization hep) (EH_consumable_config_list hep) (a_centry_list a)
    (a_requests a) H3) as H5.
  destruct (sge_add_qeti_resource_container _ _ _ _ _) as [ok' l]. by apply fresh_parts.
Qed.

Lemma allocate_fresh hm qm cfg (a : assignment) q : sge_qeti_allocate hm qm cfg a = Some q -> fresh_qeti q.
Proof.
  unfold sge_qeti_allocate. intros E.
  assert (fresh (snd (if a_ar_id a =? 0 then
    sge_qeti_list_add [] SGE_ATTR_SLOTS (PE_resource_utilization (a_pe a)) (PE_slots (a_pe a)) true
    else (true, [])))) as Hl.
  { destruct (_ =? _); [apply list_add_fresh|]; constructor. }
  destruct (if a_ar_id a =? 0 then _ else _) as [[] l]; [|done]. cbn [negb snd] in E, Hl.
  assert (fresh (snd (match a_gep a ≫= fun i => a_host_list a !! i with
      | Some gep => sge_add_qeti_resource_container [] (EH_resource_utilization gep) (EH_consumable_config_list gep)
            (a_centry_list a) (a_requests a)
      | None => (true, []) end))) as Hg.
  { destruct (a_gep a ≫= _); [apply container_fresh|]; constructor. }
  destruct (match _ with Some gep => _ | None => _ end) as [[] g]; [|done]. cbn [negb snd] in E, Hg.
  pose proof (fold_keeps (fun acc => fresh_qeti (snd acc)) (add_host hm qm cfg a) (imap pair (a_host_list a))
    (true, Qeti l g [] []) (fun acc ih => add_host_fresh hm qm cfg a acc ih)) as Hq.
  destruct (fold_left _ _ _) as [[] q']; [|done]. injection E as <-. apply Hq, fresh_parts.
  repeat split; (done || constructor).
Qed.

Lemma fresh_stays q t : fresh_qeti q -> on_refs (sge_qeti_switch_to_next t) q = q.
Proof.
  intros H. apply fresh_parts in H as (H1 & H2 & H3 & H4).
  assert (forall l : list (qeti_elem A), fresh l -> sge_qeti_switch_to_next t l = l) as Hl.
  { unfold sge_qeti_switch_to_next. induction 1 as [|e l He _ IH]; [done|]. cbn [map]. by rewrite He, IH. }
  unfold on_refs. rewrite !Hl by done. by destruct q.
Qed.

Lemma fresh_max q : fresh_qeti q -> max_of_refs 0 q = 0.
Proof.
  rewrite max_of_refs_app. unfold sge_qeti_max_end_time, fresh_qeti. induction 1 as [|e l He _ IH]; [done|].
  cbn [fold_left]. unfold ref_time at 2. by rewrite He.
Qed.

(** ** Properties *)

(** C27: The iterator visits exactly the moments at which an entry of one of its diagrams begins,
    each once and from the last one backwards, and then ends.  Between two of them, and
    before the first, no diagram changes. *)
Theorem end_times_visited q : qeti_ok q ->
  let '(t, q') := sge_qeti_first q in
  exists l, visited (S (length (all_times q))) t q' = Some l /\ StronglySorted Z.gt l /\
    (forall x, x ∈ l <-> x ∈ all_times q /\ x <> 0) /\
    (forall e y z, e ∈ elems q -> 0 <= y <= z -> (forall x, x ∈ l -> ~ y < x <= z) ->
       level (utilization_diagram e) y = level (utilization_diagram e) z).
Proof.
  intros Hok. pose proof (first_visits q Hok) as Hf. destruct (sge_qeti_first q) as [t q'].
  destruct Hf as (l & E & Hs & Hl). exists l. split; [done|]. split; [done|]. split; [done|].
  intros e y z He Hyz Hn. unfold qeti_ok in Hok. rewrite Forall_forall in Hok. destruct (Hok e He) as [Hs' Hm].
  apply (level_between _ _ _ _ _ Hs'); [lia|]. rewrite Forall_forall. intros r Hr Hb.
  apply (Hn (RDE_time r)); [|done]. apply Hl. split; [|lia]. unfold all_times.
  apply list_elem_of_bind. exists e. split; [by apply list_elem_of_fmap_2|done].
Qed.

(** C9: Without a given start the loop ends, and the assignment it keeps is the one at the
    earliest moment at which there is one, among the moments the utilization changes, or now
    when it never does.  A moment without an assignment does not hide an earlier one. *)
Theorem reservation_is_earliest {B} (assign : Z -> option B) q now : qeti_ok q -> 0 < now ->
  let candidate t := t ∈ all_times q /\ t <> 0 \/ t = now /\ forall x, x ∈ all_times q -> x = 0 in
  exists r, parallel_reservation assign (S (length (all_times q))) DISPATCH_TIME_QUEUE_END now q = Some r /\
    match r with
    | Some b => exists t, candidate t /\ assign t = Some b /\ forall t', candidate t' -> t' < t -> assign t' = None
    | None => forall t, candidate t -> assign t = None
    end.
Proof.
  intros Hok Hnow candidate. unfold parallel_reservation. rewrite Z.eqb_refl.
  pose proof (first_visits q Hok) as Hf. pose proof (first_spec q Hok) as Hp. destruct (sge_qeti_first q) as [t q'].
  destruct Hf as (l & E & Hs & Hl). destruct Hp as [(M1 & M2 & M3) Hp].
  assert (exists l', visited (S (length (all_times q))) (if t =? 0 then now else t) q' = Some l' /\
    StronglySorted Z.gt l' /\ forall x, x ∈ l' <-> candidate x) as (l' & E' & Hs' & Hl').
  { destruct (t =? 0) eqn:Et.
    - assert (t = 0) as -> by lia. exists [now]. cbn [visited]. rewrite (proj2 (Z.eqb_neq now 0)) by lia.
      pose proof (next_spec q _ q' Hok Hp) as Hn. destruct (sge_qeti_next q') as [t' q''].
      destruct Hn as [(N1 & N2 & N3) _].
      assert (forall x, x ∈ all_times q -> x = 0) as Hz.
      { intros x Hx. pose proof (time_bound q x Hok Hx). specialize (M2 x Hx). lia. }
      assert (t' = 0) as -> by (destruct N3 as [?|[N3 _]]; [done|by apply Hz]).
      split; [by destruct (length (all_times q))|]. split; [repeat constructor|]. intros x.
      rewrite list_elem_of_singleton. unfold candidate. split; [intros ->; by right|].
      intros [[Hx ?]|[? _]]; [|done]. by specialize (Hz x Hx).
    - exists l. split; [done|]. split; [done|]. intros x. rewrite Hl. unfold candidate. split; [by left|].
      intros [?|[_ Hz]]; [done|]. destruct M3 as [?|[M3 _]]; [lia|]. specialize (Hz t M3). lia. }
  rewrite loop_visits, E'. eexists. split; [reflexivity|]. pose proof (last_success assign l' None Hs') as Hr.
  destruct (fold_left _ l' None) as [b|].
  - destruct Hr as [(x & Hx & Ex & Hmin)|[? _]]; [|done]. exists x. rewrite <- Hl'. split; [done|]. split; [done|].
    intros y Hy. apply Hmin. by apply Hl'.
  - destruct Hr as [_ Hr]. intros x Hx. apply Hr. by apply Hl'.
Qed.

(** With a given start only this moment is tried, however many earlier ones there are:
    the references of a new iterator are null, and moving null references back does nothing. *)
Theorem given_start_tried_alone {B} hm qm cfg (a : assignment) q (assign : Z -> option B) fuel start now :
  sge_qeti_allocate hm qm cfg a = Some q -> start <> 0 -> start <> DISPATCH_TIME_QUEUE_END ->
  parallel_reservation assign (S fuel) start now q = Some (assign start).
Proof.
  intros E Hz Hq. apply allocate_fresh in E. unfold parallel_reservation. rewrite (proj2 (Z.eqb_neq _ _) Hq).
  unfold sge_qeti_next_before. rewrite fresh_stays by done. cbn [reservation_loop].
  rewrite (proj2 (Z.eqb_neq _ _) Hz). unfold sge_qeti_next. change DISPATCH_TIME_NOW with 0.
  rewrite fresh_max by done. destruct fuel; cbn; by destruct (assign start).
Qed.

End lemmas.

(** ** Samples *)

Definition entry_at (t amount : Z) : rde Z := RDE t amount [] None.
Definition diagram_named (name : string) (d : list (rde Z)) : rue Z := RUE name 0 [] None (Some d) 0 None.

Definition sample_pe : pe (A:=Z) :=
  Pe "mpi" [diagram_named "slots" [entry_at 10 2; entry_at 30 0]] 10.
Definition sample_host : host (A:=Z) :=
  Eh [104; 49] [diagram_named "slots" [entry_at 10 2; entry_at 20 4; entry_at 30 0]] [Ce "slots" 8 1].
Definition sample_queue : queue (A:=Z) :=
  Qu [104; 49] [diagram_named "slots" [entry_at 5 1; entry_at 20 0]; diagram_named "mem" [entry_at 40 0]]
     [Ce "slots" 8 1; Ce "mem" 64 1] ["make"; "mpi"].
Definition sample_assignment : assignment (A:=Z) :=
  Assignment 0 sample_pe None [sample_host] [sample_queue] [Ce "mem" 0 1] [["mem"; "arch"]].
Definition sample_qeti : option (sge_qeti_t Z) :=
  sge_qeti_allocate (fun _ _ => true) (fun _ _ => true) (Bootstrap false None) sample_assignment.

(** The slots of the environment, the host and the queue and the memory of the queue. *)
Example sample_lengths :
  option_map (fun q => (length (cr_refs_pe q), length (cr_refs_global q), length (cr_refs_host q), length (cr_refs_queue q)))
    sample_qeti = Some (1, 0, 1, 2)%nat.
Proof. reflexivity. Qed.

(** An environment without a slots diagram has no iterator. *)
Example missing_slots :
  sge_qeti_allocate (fun _ _ => true) (fun _ _ => true) (Bootstrap false None)
    (Assignment 0 (Pe "mpi" [] 10) None [sample_host] [sample_queue] [] []) = None.
Proof. reflexivity. Qed.

Definition sample_iterator : sge_qeti_t Z := default (Qeti [] [] [] []) sample_qeti.

Lemma sample_iterator_ok : qeti_ok sample_iterator.
Proof.
  unfold qeti_ok. change (elems sample_iterator) with (ltac:(let x := eval vm_compute in (elems sample_iterator) in exact x)).
  repeat match goal with
    | |- Forall _ (_ :: _) => apply Forall_cons_2
    | |- Forall _ (utilization_diagram _) => unfold utilization_diagram; simpl
    | |- Forall _ [] => apply Forall_nil_2
    | |- diagram_ok _ => split; cbn [times_above utilization_diagram QETI_resource_instance RUE_utilized default from_option id]
    | |- _ /\ _ => split
    | |- _ < _ => reflexivity
    | |- True => exact I
    | |- _ => progress cbv beta
    end.
Qed.

Lemma end_times_visited_witness :
  let '(t, q') := sge_qeti_first sample_iterator in
  exists l, visited (S (length (all_times sample_iterator))) t q' = Some l /\ StronglySorted Z.gt l /\
    (forall x, x ∈ l <-> x ∈ all_times sample_iterator /\ x <> 0) /\
    (forall e y z, e ∈ elems sample_iterator -> 0 <= y <= z -> (forall x, x ∈ l -> ~ y < x <= z) ->
       level (utilization_diagram e) y = level (utilization_diagram e) z).
Proof. apply (end_times_visited sample_iterator). apply sample_iterator_ok. Defined.

Example sample_visited :
  (let '(t, q) := sge_qeti_first sample_iterator in visited 10 t q) = Some [40; 30; 20; 10; 5].
Proof. reflexivity. Qed.

(** Free from 30 on and from 10 to 20: the reservation is at 10. *)
Definition sample_assign (t : Z) : option Z := if (30 <=? t) || ((10 <=? t) && (t <? 20)) then Some t else None.

Lemma reservation_is_earliest_witness :
  (exists r, parallel_reservation sample_assign (S (length (all_times sample_iterator))) DISPATCH_TIME_QUEUE_END 7
      sample_iterator = Some r /\
    match r with
    | Some b => exists t, (t ∈ all_times sample_iterator /\ t <> 0 \/ t = 7 /\ forall x, x ∈ all_times sample_iterator -> x = 0) /\
        sample_assign t = Some b /\
        forall t', (t' ∈ all_times sample_iterator /\ t' <> 0 \/ t' = 7 /\ forall x, x ∈ all_times sample_iterator -> x = 0) ->
          t' < t -> sample_assign t' = None
    | None => forall t, (t ∈ all_times sample_iterator /\ t <> 0 \/ t = 7 /\ forall x, x ∈ all_times sample_iterator -> x = 0) ->
        sample_assign t = None
    end) /\
  parallel_reservation sample_assign 10 DISPATCH_TIME_QUEUE_END 7 sample_iterator = Some (Some 10).
Proof.
  split; [|reflexivity]. apply (reservation_is_earliest sample_assign sample_iterator 7); [apply sample_iterator_ok|lia].
Defined.

(** The same search from 30 on keeps 30, although 10 is free as well. *)
Lemma given_start_tried_alone_witness :
  parallel_reservation sample_assign 10 30 7 sample_iterator = Some (Some 30).
Proof.
  apply (given_start_tried_alone (fun _ _ => true) (fun _ _ => true) (Bootstrap false None) sample_assignment
    sample_iterator sample_assign 9 30 7); [reflexivity|lia|vm_compute; congruence].
Defined.

(** Behind a call of [sge_qeti_first] the search does go back from a given start. *)
Example next_before_goes_back :
  (let '(_, q) := sge_qeti_first sample_iterator in fst (sge_qeti_next (sge_qeti_next_before q 30))) = 20.
Proof. reflexivity. Qed.

End QetiProps.
