(* ===== verification/HGroup.v ===== *)
(** Host groups: lists of hosts and groups ([libs/sgeobj/sge_href.cc],
    [libs/sgeobj/sge_hgroup.cc], [libs/sgeobj/ocs_Matcher.cc] and the change of a group in
    [daemons/qmaster/sge_hgroup_qmaster.cc]).

    A list of references is a list of names.  An argument [lList **] that may be a null
    pointer is an [option]; a null list is an empty one.  Memory does not run out. *)

From S2P Require Import Prelude Answer Host Expr.
Import Answer Host Expr.

Module HGroup.

(** [HGRP_Type] *)
Record hgroup := Hgroup {
  HGRP_name : bytes;
  HGRP_host_list : list bytes;
  HGRP_cached_hosts : list bytes;
  HGRP_cache_version : Z;
}.

Definition set_host_list (l : list bytes) (g : hgroup) : hgroup :=
  Hgroup (HGRP_name g) l (HGRP_cached_hosts g) (HGRP_cache_version g).
Definition set_cache (l : list bytes) (version : Z) (g : hgroup) : hgroup :=
  Hgroup (HGRP_name g) (HGRP_host_list g) l version.

(** What a search collects: hosts, groups and matchers, each when it is asked for. *)
Record refs := Refs {
  used_hosts : option (list bytes);
  used_groups : option (list bytes);
  used_matchers : option (list bytes);
}.

(** [ocs::Matcher::expand] of this edition. *)
Definition expand (member_list candidates : list bytes) (hosts : option (list bytes)) : bool * option (list bytes) :=
  (true, hosts).

Definition classify (name : bytes) : MemberClass := classify_member (Some name).

#[export] Instance MemberClass_eq_dec : EqDecision MemberClass.
Proof. solve_decision. Defined.

(** ["@exec_hosts"] *)
Definition EXEC_HOSTGROUP : bytes := [64; 101; 120; 101; 99; 95; 104; 111; 115; 116; 115].

Section WithBootstrap.
Context (cfg : bootstrap).

(** ** Lists of references *)

Definition href_list_locate (l : list bytes) (name : bytes) : option bytes := find (same_host cfg name) l.
Definition href_list_has_member (l : list bytes) (name : bytes) : bool := existsb (same_host cfg name) l.

Definition href_list_add (l : list bytes) (name : bytes) : list bytes :=
  if href_list_has_member l name then l else l ++ [name].

Definition href_list_merge (l : option (list bytes)) (other : list bytes) : option (list bytes) :=
  match l with Some l => Some (fold_left href_list_add other l) | None => None end.

Definition add_to (l : option (list bytes)) (name : bytes) : option (list bytes) :=
  match l with Some l => Some (href_list_add l name) | None => None end.

(** The four lists of [href_list_compare]. *)
Record diff := Diff {
  add_hosts : option (list bytes);
  add_groups : option (list bytes);
  equity_hosts : option (list bytes);
  equity_groups : option (list bytes);
}.

Definition compare_step (l : list bytes) (d : diff) (name : bytes) : diff :=
  match classify name with
  | MATCHER => d
  | c =>
      let is_group := bool_decide (c = GROUP_REFERENCE) in
      if negb (href_list_has_member l name) then
        if is_group then Diff (add_hosts d) (add_to (add_groups d) name) (equity_hosts d) (equity_groups d)
        else Diff (add_to (add_hosts d) name) (add_groups d) (equity_hosts d) (equity_groups d)
      else
        if is_group then Diff (add_hosts d) (add_groups d) (equity_hosts d) (add_to (equity_groups d) name)
        else Diff (add_hosts d) (add_groups d) (add_to (equity_hosts d) name) (equity_groups d)
  end.

Definition href_list_compare (this_list l : list bytes) (d : diff) : diff := fold_left (compare_step l) this_list d.

(** Added hosts and groups, removed hosts and groups. *)
Definition href_list_find_diff (this_list l : list bytes) (ah rh ag rg : option (list bytes)) :
    option (list bytes) * option (list bytes) * option (list bytes) * option (list bytes) :=
  let a := href_list_compare this_list l (Diff ah ag None None) in
  let r := href_list_compare l this_list (Diff rh rg None None) in
  (add_hosts a, add_hosts r, add_groups a, add_groups r).

Fixpoint remove_first (name : bytes) (l : list bytes) : list bytes :=
  match l with
  | [] => []
  | x :: l => if same_host cfg name x then l else x :: remove_first name l
  end.

Definition href_list_remove_existing (this_list : list bytes) (l : list bytes) : list bytes :=
  fold_left (fun t name => remove_first name t) l this_list.

(** Every element but the first one with its name goes; [bf] is what stays in front. *)
Fixpoint make_uniq_loop (text : bytes -> string) (bf l : list bytes) (al : answer_arg) : list bytes * answer_arg :=
  match l with
  | [] => (bf, al)
  | x :: l =>
      if href_list_has_member bf x then
        make_uniq_loop text bf l (snd (answer_list_add al (text x) STATUS_OK ANSWER_QUALITY_INFO))
      else make_uniq_loop text (bf ++ [x]) l al
  end.

Definition href_list_make_uniq (text : bytes -> string) (this_list : list bytes) (al : answer_arg) :
    list bytes * answer_arg := make_uniq_loop text [] this_list al.

Fixpoint href_list_append_to_dstring (this_list : list bytes) (is_first : bool) (s : bytes) : bytes :=
  match this_list with
  | [] => s
  | name :: l => href_list_append_to_dstring l false ((if is_first then s else s ++ [32]) ++ name)
  end.

(** ** Resolving references *)

Definition hgroup_list_locate (master_list : list hgroup) (group : bytes) : option hgroup :=
  find (fun g => same_host cfg group (HGRP_name g)) master_list.

Definition add_ref (r : refs) (name : bytes) : refs :=
  match classify name with
  | GROUP_REFERENCE => Refs (used_hosts r) (add_to (used_groups r) name) (used_matchers r)
  | MATCHER => Refs (used_hosts r) (used_groups r) (add_to (used_matchers r) name)
  | LITERAL_HOST => Refs (add_to (used_hosts r) name) (used_groups r) (used_matchers r)
  end.

Definition expand_refs (expand_matchers : bool) (l candidates : list bytes) (acc : bool * refs) : bool * refs :=
  let '(ret, r) := acc in
  match used_hosts r with
  | Some _ =>
      if expand_matchers then
        let '(ok, h) := expand l candidates (used_hosts r) in
        (ret && ok, Refs h (used_groups r) (used_matchers r))
      else (ret, r)
  | None => (ret, r)
  end.

(** One reference: a host or a matcher, or what the group contains. *)
Definition find_reference (master_list : list hgroup) (candidates : list bytes) (expand_matchers : bool)
    (acc : bool * refs) (name : bytes) : bool * refs :=
  let '(ret, r) := acc in
  match classify name with
  | GROUP_REFERENCE =>
      match hgroup_list_locate master_list name with
      | Some g =>
          expand_refs expand_matchers (HGRP_host_list g) candidates (ret, fold_left add_ref (HGRP_host_list g) r)
      | None => (ret, r)
      end
  | _ => (ret, add_ref r name)
  end.

Definition href_list_find_references (this_list : list bytes) (master_list : option (list hgroup)) (r : refs)
    (expand_matchers : bool) : bool * refs :=
  match master_list with
  | None => (true, r)
  | Some master_list =>
      let candidates :=
        match hgroup_list_locate master_list EXEC_HOSTGROUP with Some g => HGRP_host_list g | None => [] end in
      expand_refs expand_matchers this_list candidates
        (fold_left (find_reference master_list candidates expand_matchers) this_list (true, r))
  end.

Definition asked (l : option (list bytes)) : option (list bytes) :=
  match l with Some _ => Some [] | None => None end.

(** [None] is a recursion deeper than the fuel. *)
Fixpoint href_list_find_all_references (fuel : nat) (this_list : list bytes) (master_list : option (list hgroup))
    (r : refs) (expand_matchers : bool) : option (bool * refs) :=
  match fuel with
  | O => None
  | S fuel =>
      match master_list with
      | None => Some (true, r)
      | Some _ =>
          let r0 := match used_groups r with
                    | Some _ => r
                    | None => Refs (used_hosts r) (Some []) (used_matchers r)
                    end in
          let '(ret, r1) := href_list_find_references this_list master_list r0 expand_matchers in
          '(ret, r2) ←
            (if ret && (0 <? length (default [] (used_groups r1))) then
               '(ret, sub) ← href_list_find_all_references fuel (default [] (used_groups r1)) master_list
                 (Refs (Some []) (Some []) (asked (used_matchers r))) expand_matchers;
               Some (if (ret : bool) then
                       (ret, Refs (href_list_merge (used_hosts r1) (default [] (used_hosts sub)))
                                  (href_list_merge (used_groups r1) (default [] (used_groups sub)))
                                  (href_list_merge (used_matchers r1) (default [] (used_matchers sub))))
                     else (ret, r1))
             else Some (ret, r1));
          Some (ret, match used_groups r with
                     | Some _ => r2
                     | None => Refs (used_hosts r2) None (used_matchers r2)
                     end)
      end
  end.

(** The groups that contain one of the groups of the list. *)
Definition href_list_find_referencees (this_list : list bytes) (master_list : list hgroup) (occupants : list bytes) :
    list bytes :=
  fold_left (fun occupants name =>
    if is_hgroup_name (Some name) then
      fold_left (fun occupants g =>
        if href_list_has_member (HGRP_host_list g) name then href_list_add occupants (HGRP_name g) else occupants)
        master_list occupants
    else occupants) this_list occupants.

Fixpoint href_list_find_all_referencees (fuel : nat) (this_list : list bytes) (master_list : list hgroup)
    (occupants : list bytes) : option (list bytes) :=
  match fuel with
  | O => None
  | S fuel =>
      let occupants := href_list_find_referencees this_list master_list occupants in
      if 0 <? length occupants then
        sub ← href_list_find_all_referencees fuel occupants master_list [];
        Some (fold_left href_list_add sub occupants)
      else Some occupants
  end.

(** The hosts that come and go with groups. *)
Definition href_list_find_effective_diff (fuel : nat) (ag rg : list bytes) (master_list : option (list hgroup))
    (ah rh : list bytes) : option (bool * list bytes * list bytes) :=
  '(ret, a) ← href_list_find_all_references fuel ag master_list (Refs (Some ah) None None) true;
  let ah := default [] (used_hosts a) in
  '(ret, r) ←
    (if (ret : bool) then href_list_find_all_references fuel rg master_list (Refs (Some rh) None None) true
     else Some (ret, Refs (Some rh) None None));
  let rh := default [] (used_hosts r) in
  Some (if ret && (0 <? length ah) && (0 <? length rh) then
          let '(a, r, _, _) := href_list_find_diff ah rh (Some []) (Some []) None None in
          (ret, default [] a, default [] r)
        else (ret, ah, rh)).

(** [resolve] is [getuniquehostname], [prepare] is [ocs::Matcher::prepare] of this edition,
    which refuses. *)
Definition href_list_resolve_hostnames (resolve : bytes -> option bytes) (text : bytes -> string)
    (matcher_texts : list string) (this_list : list bytes) (al : answer_arg) (ignore_errors : bool) :
    bool * list bytes * answer_arg :=
  fold_left (fun '(ret, l, al) name =>
    match classify name with
    | GROUP_REFERENCE => (ret, l ++ [name], al)
    | MATCHER =>
        (false, l ++ [name],
         fold_left (fun al t => snd (answer_list_add al t STATUS_ESYNTAX ANSWER_QUALITY_ERROR)) matcher_texts al)
    | LITERAL_HOST =>
        match resolve name with
        | Some n => (ret, l ++ [n], al)
        | None =>
            if ignore_errors then (ret, l ++ [name], al)
            else (false, l ++ [name], snd (answer_list_add al (text name) STATUS_ESYNTAX ANSWER_QUALITY_ERROR))
        end
    end) this_list (true, [], al).

(** ** Groups *)

Definition hgroup_find_all_references (fuel : nat) (this_elem : option hgroup) (master_list : option (list hgroup))
    (r : refs) (expand_matchers : bool) : option (bool * refs) :=
  match this_elem, master_list with
  | Some g, Some _ => href_list_find_all_references fuel [HGRP_name g] master_list r expand_matchers
  | _, _ => Some (true, r)
  end.

Definition hgroup_find_references (this_elem : option hgroup) (master_list : option (list hgroup)) (r : refs) :
    bool * refs :=
  match this_elem, master_list with
  | Some g, Some _ => href_list_find_references [HGRP_name g] master_list r true
  | _, _ => (true, r)
  end.

Definition hgroup_find_all_referencees (fuel : nat) (this_elem : option hgroup) (master_list : list hgroup)
    (occupants_groups : list bytes) : option (list bytes) :=
  match this_elem with
  | Some g => href_list_find_all_referencees fuel [HGRP_name g] master_list occupants_groups
  | None => Some occupants_groups
  end.

(** The group with its cache and the static variable [next_version]. *)
Definition hgroup_update_cache (fuel : nat) (g : hgroup) (master_hgroup_list : option (list hgroup)) (next_version : Z) :
    option (bool * hgroup * Z) :=
  match master_hgroup_list with
  | None => Some (false, g, next_version)
  | Some _ =>
      '(ret, r) ← hgroup_find_all_references fuel (Some g) master_hgroup_list (Refs (Some []) None None) true;
      Some (if (ret : bool) then
              let next_version := if u32 (next_version + 1) =? 0 then 1 else u32 (next_version + 1) in
              (ret, set_cache (default [] (used_hosts r)) next_version g, next_version)
            else (ret, set_cache [] 0 g, next_version))
  end.

(** The loop from the group with number [i] on. *)
Fixpoint update_caches_loop (fuel n i : nat) (ret : bool) (master_hgroup_list : list hgroup) (next_version : Z) :
    option (bool * list hgroup * Z) :=
  match n with
  | O => Some (ret, master_hgroup_list, next_version)
  | S n =>
      g ← master_hgroup_list !! i;
      '(ok, g, next_version) ← hgroup_update_cache fuel g (Some master_hgroup_list) next_version;
      update_caches_loop fuel n (S i) (ret && ok) (<[i := g]> master_hgroup_list) next_version
  end.

Definition hgroup_list_update_caches (fuel : nat) (master_hgroup_list : list hgroup) (next_version : Z) :
    option (bool * list hgroup * Z) :=
  update_caches_loop fuel (length master_hgroup_list) 0 true master_hgroup_list next_version.

Definition hgroup_has_host_cache (g : option hgroup) : bool :=
  match g with Some g => negb (HGRP_cache_version g =? 0) | None => false end.

Definition hgroup_cache_contains_host (g : option hgroup) (hostname : option bytes) : bool :=
  match g, hostname with
  | Some g, Some hostname => href_list_has_member (HGRP_cached_hosts g) hostname
  | _, _ => false
  end.

Definition hgroup_contains_host (fuel : nat) (g : option hgroup) (hostname : option bytes)
    (master_hgroup_list : option (list hgroup)) : option bool :=
  match g, hostname with
  | Some _, Some hostname =>
      if hgroup_has_host_cache g then Some (hgroup_cache_contains_host g (Some hostname))
      else
        '(ret, r) ← hgroup_find_all_references fuel g master_hgroup_list (Refs (Some []) None None) true;
        Some (ret && href_list_has_member (default [] (used_hosts r)) hostname)
  | _, _ => Some false
  end.

(** ** Why a host is a member *)

Definition HGROUP_WHY_MAX_NESTING : nat := 32.

Fixpoint first_some {A B} (f : A -> option B) (l : list A) : option B :=
  match l with
  | [] => None
  | x :: l => match f x with Some y => Some y | None => first_some f l end
  end.

(** The group that names the host.  [levels] is 33 minus [depth] of the code. *)
Fixpoint hgroup_why_named (levels : nat) (g : option hgroup) (hostname : bytes) (master_hgroup_list : list hgroup) :
    option bytes :=
  match levels, g with
  | S levels, Some g =>
      if existsb (fun name => bool_decide (classify name = LITERAL_HOST) &&
                              (sge_hostcmp cfg (Some name) (Some hostname) =? 0)) (HGRP_host_list g)
      then Some (HGRP_name g)
      else
        first_some (fun name =>
          if bool_decide (classify name = GROUP_REFERENCE) then
            hgroup_why_named levels (hgroup_list_locate master_hgroup_list name) hostname master_hgroup_list
          else None) (HGRP_host_list g)
  | _, _ => None
  end.

Inductive Route := NOT_A_MEMBER | ROUTE_LITERAL | ROUTE_GROUP_REFERENCE | ROUTE_MATCHER.

(** The route and the group, when it is not the one that was asked.  [ocs::Matcher::why] of
    this edition finds nothing. *)
Definition hgroup_why (g : option hgroup) (hostname : option bytes) (master_hgroup_list : list hgroup) :
    Route * option bytes :=
  match g, hostname with
  | Some g, Some hostname =>
      match hgroup_why_named (S HGROUP_WHY_MAX_NESTING) (Some g) hostname master_hgroup_list with
      | Some found_in =>
          if strcmp found_in (HGRP_name g) =? 0 then (ROUTE_LITERAL, None)
          else (ROUTE_GROUP_REFERENCE, Some found_in)
      | None => (NOT_A_MEMBER, None)
      end
  | _, _ => (NOT_A_MEMBER, None)
  end.

(** Hosts, groups and matchers behind what the lists hold; whether there is a matcher. *)
Definition hgroup_split_members (g : hgroup) (hosts groups matchers : list bytes) :
    bool * list bytes * list bytes * list bytes :=
  fold_left (fun '(has_matcher, hosts, groups, matchers) name =>
    match classify name with
    | LITERAL_HOST => (has_matcher, hosts ++ [name], groups, matchers)
    | GROUP_REFERENCE => (has_matcher, hosts, groups ++ [name], matchers)
    | MATCHER => (true, hosts, groups, matchers ++ [name])
    end) (HGRP_host_list g) (false, hosts, groups, matchers).

(** ** Names *)

Definition ADMIN_HOSTGROUP : bytes := [64; 97; 100; 109; 105; 110; 95; 104; 111; 115; 116; 115].
Definition SUBMIT_HOSTGROUP : bytes := [64; 115; 117; 98; 109; 105; 116; 95; 104; 111; 115; 116; 115].
Definition QUEUE_HOSTGROUP_PREFIX : bytes := [64; 64].

Definition hgroup_is_reserved (name : option bytes) : bool :=
  (sge_hostcmp cfg name (Some ADMIN_HOSTGROUP) =? 0) || (sge_hostcmp cfg name (Some SUBMIT_HOSTGROUP) =? 0) ||
  (sge_hostcmp cfg name (Some EXEC_HOSTGROUP) =? 0).

Definition hgroup_is_system_maintained (name : option bytes) : bool :=
  sge_hostcmp cfg name (Some EXEC_HOSTGROUP) =? 0.

Definition hgroup_is_queue_group (name : option bytes) : bool :=
  match name with Some name => bool_decide (take 2 name = QUEUE_HOSTGROUP_PREFIX) | None => false end.

Definition hgroup_queue_group_name (cqueue_name : option bytes) : option bytes :=
  match cqueue_name with Some name => Some (QUEUE_HOSTGROUP_PREFIX ++ name) | None => None end.

Definition hgroup_queue_of_group_name (name : option bytes) : option bytes :=
  if hgroup_is_queue_group name then
    match name with Some name => match drop 2 name with [] => None | q => Some q end | None => None end
  else None.

(** [verify_obj_name]: the status and the answers it leaves. *)
Definition hgroup_check_name (verify_obj_name : answer_arg -> bytes -> bool * answer_arg) (text : option bytes -> string)
    (al : answer_arg) (name : option bytes) : bool * answer_arg :=
  if negb (is_hgroup_name name) then
    (false, snd (answer_list_add al (text name) STATUS_EUNKNOWN ANSWER_QUALITY_ERROR))
  else verify_obj_name al (drop 1 (default [] name)).

Definition hgroup_create (check_name : answer_arg -> option bytes -> bool * answer_arg) (text : string)
    (al : answer_arg) (name : option bytes) (href_or_groupref : list bytes) (is_name_validate : bool) :
    option hgroup * answer_arg :=
  match name with
  | None => (None, snd (answer_list_add al text STATUS_ERROR1 ANSWER_QUALITY_ERROR))
  | Some n =>
      let '(ok, al) := if is_name_validate then check_name al name else (true, al) in
      (if (ok : bool) then Some (Hgroup n href_or_groupref [] 0) else None, al)
  end.

Definition hgroup_add_references (g : hgroup) (href_or_groupref : list bytes) : hgroup :=
  set_host_list (fold_left (href_list_add) href_or_groupref (HGRP_host_list g)) g.

(** Whether all groups of a list exist; the first one that does not is reported. *)
Definition hgroup_list_exists (text : bytes -> string) (this_list : list hgroup) (al : answer_arg)
    (href_list : list bytes) : bool * answer_arg :=
  match find (fun name => is_hgroup_name (Some name) &&
                match hgroup_list_locate this_list name with None => true | Some _ => false end) href_list with
  | Some name => (false, snd (answer_list_add al (text name) STATUS_EEXIST ANSWER_QUALITY_ERROR))
  | None => (true, al)
  end.

(** ** Groups that match an expression *)

Section Expressions.
Context (fnmatch : bytes -> bytes -> Z) (parse_error_text : Z -> bytes -> string).
Context (long_value_text long_expression_text : string).

(** Whether the name of a group matches; [None] is a recursion deeper than the fuel. *)
Definition matches (hgroup_pattern : bytes) (g : hgroup) : option bool :=
  '(r, _) ← sge_eval_expression cfg fnmatch parse_error_text long_value_text long_expression_text HOST
    (Some hgroup_pattern) (Some (HGRP_name g)) None true (is_expression (Some hgroup_pattern));
  Some (r =? 0).

Definition hgroup_list_find_matching (this_list : list hgroup) (hgroup_pattern : option bytes) (href_list : list bytes) :
    option (list bytes) :=
  match hgroup_pattern with
  | None => Some href_list
  | Some p =>
      fold_left (fun acc g => l ← acc; ok ← matches p g; Some (if (ok : bool) then l ++ [HGRP_name g] else l))
        this_list (Some href_list)
  end.

(** The result is that of the last group that matches. *)
Definition hgroup_list_find_matching_and_resolve (fuel : nat) (this_list : list hgroup) (hgroup_pattern : option bytes)
    (hosts : option (list bytes)) : option (bool * option (list bytes)) :=
  match hgroup_pattern with
  | None => Some (true, hosts)
  | Some p =>
      fold_left (fun (acc : option (bool * option (list bytes))) g =>
        '(ret, hosts) ← acc; ok ← matches p g;
        if (ok : bool) then
          '(ret, r) ← hgroup_find_all_references fuel (Some g) (Some this_list) (Refs (Some []) None None) true;
          Some (ret, match hosts with Some h => Some (h ++ default [] (used_hosts r)) | None => None end)
        else Some (ret, hosts))
        this_list (Some (true, hosts))
  end.

End Expressions.

(** ** Changing a group *)

Section Change.
Context (resolve : bytes -> option bytes) (unknown_host_text : bytes -> string) (matcher_texts : list string).
Context (queue_group_text missing_group_text : bytes -> string) (cycle_text : bytes -> bytes -> string).

(** The result of a change: the hosts that come, those that go and the groups that contain
    this one. *)
Record change := Change { ch_add_hosts : list bytes; ch_rem_hosts : list bytes; ch_occupant_groups : list bytes }.

Definition refuse (al : answer_arg) (text : string) (status : Z) : option change * answer_arg :=
  (None, snd (answer_list_add al text status ANSWER_QUALITY_ERROR)).

(** [hgroup_mod_hostlist] from the place on where the new list of members, [href_list], is
    known ([attr_mod_sub_list] and the checks on reserved groups are not modelled).  The outer
    [None] is a recursion deeper than the fuel, the inner one a refusal. *)
Definition hgroup_mod_hostlist (fuel : nat) (this_elem : hgroup) (href_list : list bytes)
    (master_hgroup_list : list hgroup) (al : answer_arg) : option (option change * answer_arg) :=
  let old_href_list := HGRP_host_list this_elem in
  match find (fun n => hgroup_is_queue_group (Some n)) href_list with
  | Some member_name => Some (refuse al (queue_group_text member_name) STATUS_ESYNTAX)
  | None =>
      let '(ah, rh, ag, rg) := href_list_find_diff href_list old_href_list (Some []) (Some []) (Some []) (Some []) in
      let ag := default [] ag in
      let '(ret, al) := hgroup_list_exists missing_group_text master_hgroup_list al ag in
      if negb ret then Some (None, al)
      else
        '(ret, ah, rh) ← href_list_find_effective_diff fuel ag (default [] rg) (Some master_hgroup_list)
          (default [] ah) (default [] rh);
        let '(ret', ah, al) := href_list_resolve_hostnames resolve unknown_host_text matcher_texts ah al false in
        if negb (ret && ret') then Some (None, al)
        else
          occupants ← hgroup_find_all_referencees fuel (Some this_elem) master_hgroup_list [];
          let occupants := href_list_add occupants (HGRP_name this_elem) in
          match find (href_list_has_member occupants) ag with
          | Some add_group => Some (refuse al (cycle_text add_group (HGRP_name this_elem)) STATUS_ESYNTAX)
          | None =>
              '(_, o) ← href_list_find_all_references fuel old_href_list (Some master_hgroup_list)
                (Refs (Some []) None None) true;
              let ah := href_list_remove_existing ah (default [] (used_hosts o)) in
              '(_, n) ← href_list_find_all_references fuel href_list (Some master_hgroup_list)
                (Refs (Some []) None None) true;
              let rh := href_list_remove_existing rh (default [] (used_hosts n)) in
              Some (Some (Change ah rh occupants), al)
          end
  end.

End Change.

End WithBootstrap.

End HGroup.
