(* ===== verification/HGroupFacts.v ===== *)
(** HGroupFacts: lists of references as sets of names, and what the searches through the groups
    collect. *)

From S2P Require Import Prelude Answer Host HostProps HGroup.
Import Answer Host HostProps HGroup.

Module HGroupFacts.

Section facts.
Context (cfg : bootstrap).
Context (Hdomain : match default_domain cfg with Some d => c_string d | None => True end).

Implicit Types (l this : list bytes) (master : list hgroup) (r : refs) (c : MemberClass).

(** ** Names up to what [lGetElemHost] distinguishes *)

Definition hkey (s : bytes) : bytes := lower (sge_hostcpy cfg s).
Definition keys l : list bytes := map hkey l.
Definition names l : Prop := Forall c_string l.

Lemma hostcpy_c_string s : c_string s -> c_string (sge_hostcpy cfg s).
Proof.
  intros Hs. unfold sge_hostcpy, sge_strlcpy. destruct (special s); [by apply c_string_take|].
  destruct (ignore_fqdn cfg); [by apply c_string_take|].
  destruct (has_default_domain cfg && negb (has_dot s)); [|by apply c_string_take].
  destruct (_ <? _); [|by apply c_string_take]. apply Forall_app. split; [by apply c_string_take|].
  apply Forall_cons_2; [unfold dot; lia|]. apply c_string_take. destruct (default_domain cfg); [done|constructor].
Qed.

Lemma same_host_key a b : c_string a -> c_string b -> same_host cfg a b = true <-> hkey a = hkey b.
Proof.
  intros Ha Hb. unfold same_host. rewrite Z.eqb_eq, strcasecmp_zero by by apply hostcpy_c_string. done.
Qed.

Lemma has_member_keys l n : names l -> c_string n -> href_list_has_member cfg l n = true <-> hkey n ∈ keys l.
Proof.
  intros Hl Hn. unfold href_list_has_member, keys. rewrite existsb_exists, list_elem_of_fmap.
  unfold names in Hl. rewrite Forall_forall in Hl. split.
  - intros (x & Hx & E). apply list_elem_of_In in Hx. apply same_host_key in E; eauto.
  - intros (x & E & Hx). exists x. split; [by apply list_elem_of_In|]. apply same_host_key; eauto.
Qed.

(** Whether a name is a group can be read off its key. *)
Lemma group_by_key a b : hkey a = hkey b -> classify a = GROUP_REFERENCE -> classify b = GROUP_REFERENCE.
Proof.
  assert (forall s, classify s = GROUP_REFERENCE <-> head (hkey s) = Some at_sign) as Hk.
  { intros s. unfold classify, classify_member. transitivity (is_hgroup_name (Some s) = true).
    { destruct (is_hgroup_name (Some s)); [done|]. by destruct (is_matcher (Some s)). }
    destruct s as [|c s].
    - split; [done|]. unfold hkey, sge_hostcpy. cbn. destruct (ignore_fqdn cfg); [done|].
      destruct (has_default_domain cfg && true); [|done]. cbn. by destruct (default_domain cfg) as [[]|].
    - unfold hkey, sge_hostcpy, sge_strlcpy. cbn [is_hgroup_name].
      assert (forall t, head (lower (c :: t)) = Some at_sign <-> (c =? at_sign) = true) as Hh.
      { intros t. cbn. unfold tolower, at_sign. rewrite Z.eqb_eq. split; [|by intros ->].
        destruct ((65 <=? c) && (c <=? 90)) eqn:E; [|congruence]. intros [= E']. lia. }
      destruct (special (c :: s)); [by rewrite (Hh (take 254 s))|]. destruct (ignore_fqdn cfg).
      + cbn [before_dot]. destruct (c =? dot) eqn:E.
        * split; [|done]. intros E'. unfold dot, at_sign in *. lia.
        * destruct (CL_MAXHOSTNAMELEN <=? _) eqn:E2; [by rewrite (Hh (take 254 (before_dot s)))|].
          rewrite Nat2Z.id. cbn [length take]. by rewrite Hh.
      + destruct (has_default_domain cfg && negb (has_dot (c :: s))); [|by rewrite (Hh (take 254 s))].
        cbn [length]. rewrite Nat2Z.inj_succ. unfold CL_MAXHOSTNAMELEN.
        set (n := if 256 <=? _ then _ else _). assert (exists k, Z.to_nat n = S k) as [k ->].
        { exists (Z.to_nat (n - 1)). unfold n. destruct (256 <=? _) eqn:E; lia. }
        destruct (_ <? _); cbn [take app]; by rewrite Hh. }
  intros E. rewrite !Hk. by rewrite E.
Qed.

(** So can whether it is special, and hence its class. *)
Lemma special_hostcpy s : c_string s -> special (sge_hostcpy cfg s) = special s.
Proof.
  intros Hs. destruct (special s) eqn:E.
  - unfold sge_hostcpy, sge_strlcpy. rewrite E. change (Z.to_nat (CL_MAXHOSTNAMELEN - 1)) with 255%nat.
    apply special_iff in E; [|done]. apply special_iff; [by apply c_string_take|]. rewrite lower_take.
    destruct E as [E|(p & Hp & E)]; [left; by destruct (lower s)|]. right. exists p. split; [done|].
    rewrite take_take, Nat.min_l; [done|]. rewrite !elem_of_cons in Hp.
    destruct Hp as [->|[->|[->|Hp]]]; [..|by apply not_elem_of_nil in Hp]; vm_compute; lia.
  - apply not_true_iff_false. intros H. assert (special s = true) as E'; [|congruence].
    unfold sge_hostcpy, sge_strlcpy in H. rewrite E in H. destruct (ignore_fqdn cfg); [by apply special_take in H|].
    destruct (has_default_domain cfg && negb (has_dot s)); [|by apply special_take in H].
    destruct (_ <? _); [|by apply special_take in H]. apply special_domain in H.
    + by apply special_take in H.
    + by apply c_string_take.
    + apply c_string_take. destruct (default_domain cfg); [done|constructor].
Qed.

Lemma class_by_key a b : c_string a -> c_string b -> hkey a = hkey b -> classify a = classify b.
Proof.
  intros Ha Hb E. assert (special a = special b) as Hs.
  { rewrite <- (special_hostcpy a), <- (special_hostcpy b) by done. by apply special_lower; [apply hostcpy_c_string..|]. }
  pose proof (group_by_key a b E) as H1. pose proof (group_by_key b a (eq_sym E)) as H2. revert Hs H1 H2.
  unfold special, classify, classify_member.
  destruct (is_hgroup_name (Some a)), (is_hgroup_name (Some b)), (is_matcher (Some a)), (is_matcher (Some b)); cbn; naive_solver.
Qed.

(** ** Adding *)

Definition uniq l : Prop := names l /\ NoDup (keys l).

Lemma add_keys l n k : names l -> c_string n -> k ∈ keys (href_list_add cfg l n) <-> k ∈ keys l \/ k = hkey n.
Proof.
  intros Hl Hn. unfold href_list_add. destruct (href_list_has_member cfg l n) eqn:E.
  - apply has_member_keys in E; [|done|done]. split; [by left|]. by intros [?| ->].
  - unfold keys. rewrite map_app, elem_of_app. cbn [map]. by rewrite list_elem_of_singleton.
Qed.

Lemma add_uniq l n : uniq l -> c_string n -> uniq (href_list_add cfg l n).
Proof.
  intros [Hl Hd] Hn. unfold href_list_add. destruct (href_list_has_member cfg l n) eqn:E; [done|].
  split; [by apply Forall_app; split; [|apply Forall_singleton]|]. unfold keys. rewrite map_app. cbn [map].
  apply NoDup_app. split; [done|]. split; [|apply NoDup_singleton]. intros k Hk. rewrite list_elem_of_singleton.
  intros ->. assert (href_list_has_member cfg l n = true) by (by apply has_member_keys). congruence.
Qed.

Lemma add_elem l n x : x ∈ href_list_add cfg l n -> x ∈ l \/ x = n.
Proof.
  unfold href_list_add. destruct (href_list_has_member cfg l n); [by left|].
  rewrite elem_of_app, list_elem_of_singleton. done.
Qed.

Lemma merge_spec (other l : list bytes) : uniq l -> names other ->
  let l' := fold_left (href_list_add cfg) other l in
  uniq l' /\ (forall k, k ∈ keys l' <-> k ∈ keys l \/ k ∈ keys other) /\ (forall x, x ∈ l' -> x ∈ l \/ x ∈ other).
Proof.
  intros Hu Ho. revert l Hu. induction Ho as [|n other Hn _ IH]; intros l Hu; cbn [fold_left].
  - split; [done|]. split; [|by left]. intros k. cbn. set_solver.
  - destruct (IH (href_list_add cfg l n)) as (H1 & H2 & H3); [by apply add_uniq|].
    split; [done|]. split.
    + intros k. rewrite H2, add_keys by (done || by destruct Hu). cbn [keys map]. fold (keys other). set_solver.
    + intros x Hx. apply H3 in Hx as [Hx|Hx]; [|set_solver]. apply add_elem in Hx. set_solver.
Qed.

(** ** Collecting *)

Definition get c r : option (list bytes) :=
  match c with GROUP_REFERENCE => used_groups r | MATCHER => used_matchers r | LITERAL_HOST => used_hosts r end.

(** A list holds different names of its own class. *)
Definition refs_ok r : Prop := forall c l, get c r = Some l -> uniq l /\ Forall (fun m => classify m = c) l.

(** What was asked for has grown by [A]. *)
Definition extends r r' (A : MemberClass -> bytes -> Prop) : Prop :=
  forall c, match get c r, get c r' with
    | Some l, Some l' => forall k, k ∈ keys l' <-> k ∈ keys l \/ A c k
    | None, None => True
    | _, _ => False
    end.

Lemma extends_refl r A : (forall c k, ~ A c k) -> extends r r A.
Proof. intros HA c. destruct (get c r); [|done]. intros k. specialize (HA c k). tauto. Qed.

Lemma extends_trans r1 r2 r3 A B C : extends r1 r2 A -> extends r2 r3 B -> (forall c k, C c k <-> A c k \/ B c k) ->
  extends r1 r3 C.
Proof.
  intros H1 H2 HC c. specialize (H1 c). specialize (H2 c).
  destruct (get c r1), (get c r2), (get c r3); try done. intros k. rewrite H2, H1, HC. tauto.
Qed.

Lemma extends_iff r1 r2 A B : extends r1 r2 A -> (forall c k, A c k <-> B c k) -> extends r1 r2 B.
Proof.
  intros H HAB c. specialize (H c). destruct (get c r1), (get c r2); try done. intros k. by rewrite H, HAB.
Qed.

Definition adds c m c' k : Prop := classify m = c' /\ c = c' /\ hkey m = k.

Lemma add_ref_spec r m : refs_ok r -> c_string m ->
  refs_ok (add_ref cfg r m) /\ extends r (add_ref cfg r m) (fun c k => classify m = c /\ hkey m = k).
Proof.
  intros Hr Hm.
  assert (forall c, get c (add_ref cfg r m) = if decide (classify m = c) then add_to cfg (get c r) m else get c r) as Hg.
  { intros c. unfold add_ref. destruct (classify m), c; reflexivity. }
  split.
  - intros c l. rewrite Hg. destruct (decide (classify m = c)) as [E|]; [|apply Hr]. unfold add_to.
    destruct (get c r) as [l0|] eqn:E0; [|done]. intros [= <-]. destruct (Hr c l0 E0) as [Hu Hc].
    split; [by apply add_uniq|]. rewrite Forall_forall in *. intros x Hx. apply add_elem in Hx as [Hx| ->]; eauto.
  - intros c. rewrite Hg. destruct (decide (classify m = c)) as [E|E].
    + unfold add_to. destruct (get c r) as [l0|] eqn:E0; [|done]. intros k. destruct (Hr c l0 E0) as [[Hn _] _].
      rewrite add_keys by done. naive_solver.
    + destruct (get c r); [|done]. naive_solver.
Qed.

Lemma add_refs_spec l r : refs_ok r -> names l ->
  let r' := fold_left (add_ref cfg) l r in
  refs_ok r' /\ extends r r' (fun c k => exists m, m ∈ l /\ classify m = c /\ hkey m = k).
Proof.
  intros Hr Hl. revert r Hr. induction Hl as [|m l Hm _ IH]; intros r Hr; cbn [fold_left].
  - split; [done|]. apply extends_refl. set_solver.
  - destruct (add_ref_spec r m Hr Hm) as [H1 H2]. destruct (IH _ H1) as [H3 H4]. split; [done|].
    eapply extends_trans; [exact H2|exact H4|]. intros c k. set_solver.
Qed.

Lemma expand_refs_id e l candidates acc : expand_refs e l candidates acc = acc.
Proof.
  destruct acc as [ret r]. unfold expand_refs. destruct (used_hosts r) eqn:E; [|done]. destruct e; [|done].
  unfold expand. rewrite andb_true_r. rewrite <- E. by destruct r.
Qed.

(** ** Groups *)

Definition group_ok (g : hgroup) : Prop :=
  c_string (HGRP_name g) /\ classify (HGRP_name g) = GROUP_REFERENCE /\ names (HGRP_host_list g).
Definition groups_ok master : Prop := Forall group_ok master.

(** The group [n] has the member [m]. *)
Definition contains master (n m : bytes) : Prop :=
  classify n = GROUP_REFERENCE /\ exists g, hgroup_list_locate cfg master n = Some g /\ m ∈ HGRP_host_list g.

(** ... through any number of groups. *)
Definition under master : bytes -> bytes -> Prop := tc (contains master).

Lemma locate_spec master n g : groups_ok master -> c_string n -> hgroup_list_locate cfg master n = Some g ->
  g ∈ master /\ hkey (HGRP_name g) = hkey n.
Proof.
  intros Hm Hn E. apply find_some in E as [E1 E2]. apply list_elem_of_In in E1. split; [done|].
  unfold groups_ok in Hm. rewrite Forall_forall in Hm. destruct (Hm g E1) as [Hg _]. by apply same_host_key in E2.
Qed.

Lemma locate_by_key master n n' : groups_ok master -> c_string n -> c_string n' -> hkey n = hkey n' ->
  hgroup_list_locate cfg master n = hgroup_list_locate cfg master n'.
Proof.
  intros Hm Hn Hn' E. unfold hgroup_list_locate. induction Hm as [|g master (Hg & _ & _) _ IH]; [done|]. cbn [find].
  assert (same_host cfg n (HGRP_name g) = same_host cfg n' (HGRP_name g)) as ->; [|by rewrite IH].
  apply eq_true_iff_eq. rewrite !same_host_key by done. by rewrite E.
Qed.

Lemma contains_by_key master n n' m : groups_ok master -> c_string n -> c_string n' -> hkey n = hkey n' ->
  contains master n m -> contains master n' m.
Proof.
  intros Hm Hn Hn' E (H1 & g & H2 & H3). split; [by apply (group_by_key n)|].
  exists g. by rewrite <- (locate_by_key master n n').
Qed.

Lemma under_by_key master n n' m : groups_ok master -> c_string n -> c_string n' -> hkey n = hkey n' ->
  under master n m -> under master n' m.
Proof.
  intros Hm Hn Hn' E H. inversion H as [? ? Hc|? x ? Hc Hu]; subst.
  - apply tc_once. by apply (contains_by_key master n).
  - eapply tc_l; [by apply (contains_by_key master n)|done].
Qed.

Lemma contains_c_string master n m : groups_ok master -> contains master n m -> c_string m.
Proof.
  intros Hm (_ & g & H2 & H3). apply find_some in H2 as [H2 _]. apply list_elem_of_In in H2.
  unfold groups_ok in Hm. rewrite Forall_forall in Hm. destruct (Hm g H2) as (_ & _ & Hl).
  unfold names in Hl. rewrite Forall_forall in Hl. by apply Hl.
Qed.

(** What one level of references yields. *)
Definition direct master this c k : Prop :=
  exists m, classify m = c /\ hkey m = k /\
    ((m ∈ this /\ c <> GROUP_REFERENCE) \/ exists n, n ∈ this /\ contains master n m).

Lemma find_reference_spec master cand e r n : groups_ok master -> c_string n -> refs_ok r ->
  exists r', find_reference cfg master cand e (true, r) n = (true, r') /\ refs_ok r' /\
    extends r r' (direct master [n]).
Proof.
  intros Hm Hn Hr. destruct (decide (classify n = GROUP_REFERENCE)) as [Ec|Ec].
  - unfold find_reference. rewrite Ec. destruct (hgroup_list_locate cfg master n) as [g|] eqn:El.
    + rewrite expand_refs_id. destruct (locate_spec master n g Hm Hn El) as [Hg _].
      pose proof Hm as Hm'. unfold groups_ok in Hm'. rewrite Forall_forall in Hm'.
      destruct (Hm' g Hg) as (_ & _ & Hl). destruct (add_refs_spec (HGRP_host_list g) r Hr Hl) as [H1 H2].
      eexists. split; [reflexivity|]. split; [done|]. eapply extends_iff; [exact H2|]. intros c k. unfold direct, contains.
      split.
      * intros (m & Hin & Hc & Hk). exists m. split; [done|]. split; [done|]. right. exists n. split; [set_solver|]. eauto.
      * intros (m & Hc & Hk & [[Hin Hne]|(n' & Hin & _ & g' & Hl' & Hin')]);
          apply list_elem_of_singleton in Hin as ->; [congruence|]. exists m. split; [congruence|done].
    + exists r. split; [done|]. split; [done|]. apply extends_refl.
      intros c k (m & Hc & Hk & [[Hin Hne]|(n' & Hin & _ & g' & Hl' & _)]); apply list_elem_of_singleton in Hin as ->; congruence.
  - exists (add_ref cfg r n). split; [unfold find_reference; by destruct (classify n)|].
    destruct (add_ref_spec r n Hr Hn) as [H1 H2]. split; [done|]. eapply extends_iff; [exact H2|]. intros c k.
    unfold direct, contains. split.
    + intros [Hc Hk]. exists n. split; [done|]. split; [done|]. left. split; [set_solver|congruence].
    + intros (m & Hc & Hk & [[Hin _]|(n' & Hin & Hg & _)]); apply list_elem_of_singleton in Hin as ->; [done|congruence].
Qed.

Lemma find_references_spec master this r e : groups_ok master -> names this -> refs_ok r ->
  exists r', href_list_find_references cfg this (Some master) r e = (true, r') /\ refs_ok r' /\
    extends r r' (direct master this).
Proof.
  intros Hm Ht Hr. cbn [href_list_find_references]. rewrite expand_refs_id. set (cand := match _ with Some g => _ | None => _ end).
  clearbody cand. revert r Hr. induction Ht as [|n this Hn Ht IH]; intros r Hr; cbn [fold_left].
  - exists r. split; [done|]. split; [done|]. apply extends_refl. unfold direct. set_solver.
  - destruct (find_reference_spec master cand e r n Hm Hn Hr) as (r1 & -> & Hr1 & He1).
    destruct (IH r1 Hr1) as (r2 & -> & Hr2 & He2). exists r2. split; [done|]. split; [done|].
    eapply extends_trans; [exact He1|exact He2|]. intros c k. unfold direct. set_solver.
Qed.

(** ** All references *)

(** The groups can be numbered so that a group only refers to smaller ones. *)
Definition ranked (rank : bytes -> nat) master : Prop :=
  forall g m, g ∈ master -> m ∈ HGRP_host_list g -> classify m = GROUP_REFERENCE ->
    (rank (hkey m) < rank (hkey (HGRP_name g)))%nat.

Definition acyclic master : Prop := exists rank, ranked rank master.

Lemma contains_rank rank master n m : groups_ok master -> c_string n -> ranked rank master -> contains master n m ->
  classify m = GROUP_REFERENCE -> (rank (hkey m) < rank (hkey n))%nat.
Proof.
  intros Hm Hn Hr (_ & g & El & Hin) Hc. destruct (locate_spec master n g Hm Hn El) as [Hg <-]. by apply Hr.
Qed.

(** Everything the references lead to. *)
Definition reached master this c k : Prop :=
  exists m, classify m = c /\ hkey m = k /\
    ((m ∈ this /\ c <> GROUP_REFERENCE) \/ exists n, n ∈ this /\ under master n m).

(** One level and what its groups lead to. *)
Lemma reached_step master this gs c k : groups_ok master -> names this -> names gs ->
  Forall (fun m => classify m = GROUP_REFERENCE) gs ->
  (forall k, k ∈ keys gs <-> direct master this GROUP_REFERENCE k) ->
  reached master this c k <-> direct master this c k \/ reached master gs c k.
Proof.
  intros Hm Ht Hgs Hc Hk. rewrite Forall_forall in Hc. split.
  - intros (m & Ec & Ek & [H|(n & Hn & Hu)]); [by left; exists m; auto|].
    inversion Hu as [? ? Hco|? x ? Hco Hu']; subst; [left; exists m; eauto 6|]. right. exists m. split; [done|].
    split; [done|]. right.
    assert (hkey x ∈ keys gs) as Hx.
    { apply Hk. exists x. split; [by inversion Hu' as [? ? [? _]|? ? ? [? _]]|]. split; [done|]. right. eauto. }
    apply list_elem_of_fmap in Hx as (x' & E & Hx'). exists x'. split; [done|].
    unfold names in Hgs. rewrite Forall_forall in Hgs. apply (under_by_key master x); auto.
    by apply (contains_c_string master n).
  - intros [(m & Ec & Ek & [H|(n & Hn & Hco)])|(m & Ec & Ek & [[H Hne]|(n & Hn & Hu)])].
    + exists m. auto.
    + exists m. split; [done|]. split; [done|]. right. exists n. split; [done|]. by apply tc_once.
    + specialize (Hc m H). congruence.
    + exists m. split; [done|]. split; [done|]. right.
      assert (hkey n ∈ keys gs) as Hx by (by apply list_elem_of_fmap_2).
      apply Hk in Hx as (x & Ex & Ekx & [[_ ?]|(n' & Hn' & Hco)]); [done|]. exists n'. split; [done|].
      eapply tc_l; [exact Hco|]. unfold names in Hgs. rewrite Forall_forall in Hgs.
      apply (under_by_key master n); auto. by apply (contains_c_string master n').
Qed.

Definition merged r sub : refs :=
  Refs (href_list_merge cfg (used_hosts r) (default [] (used_hosts sub)))
       (href_list_merge cfg (used_groups r) (default [] (used_groups sub)))
       (href_list_merge cfg (used_matchers r) (default [] (used_matchers sub))).

(** What a search adds to empty lists is added to [r] by merging. *)
Lemma merged_spec r r0 sub A : refs_ok r -> refs_ok sub -> extends r0 sub A ->
  (forall c l, get c r = Some l -> get c r0 = Some []) ->
  refs_ok (merged r sub) /\ extends r (merged r sub) A.
Proof.
  intros Hr Hs He H0.
  assert (forall c, get c (merged r sub) = href_list_merge cfg (get c r) (default [] (get c sub))) as Hg by by intros [].
  assert (forall c l, get c r = Some l -> exists l', get c sub = Some l' /\
    uniq (fold_left (href_list_add cfg) l' l) /\
    (forall k, k ∈ keys (fold_left (href_list_add cfg) l' l) <-> k ∈ keys l \/ A c k) /\
    Forall (fun m => classify m = c) (fold_left (href_list_add cfg) l' l)) as Hm.
  { intros c l E. specialize (He c). rewrite (H0 c l E) in He. destruct (get c sub) as [l'|] eqn:E'; [|done].
    exists l'. split; [done|]. destruct (Hr c l E) as [Hu Hc], (Hs c l' E') as [[Hn _] Hc'].
    destruct (merge_spec l' l Hu Hn) as (M1 & M2 & M3). split; [done|]. split.
    - intros k. rewrite M2, He. cbn. set_solver.
    - rewrite Forall_forall in *. intros x Hx. apply M3 in Hx as [Hx|Hx]; auto. }
  split.
  - intros c l. rewrite Hg. destruct (get c r) as [l0|] eqn:E; [|done]. intros [= <-].
    destruct (Hm c l0 E) as (l' & -> & M1 & _ & M3). done.
  - intros c. rewrite Hg. destruct (get c r) as [l0|] eqn:E; [|done]. cbn [href_list_merge].
    destruct (Hm c l0 E) as (l' & -> & _ & M2 & _). exact M2.
Qed.

Lemma empty_refs_ok m : refs_ok (Refs (Some []) (Some []) (asked m)).
Proof.
  intros c l E. assert (l = []) as -> by (destruct c, m; cbn in E; congruence).
  split; [split; constructor|constructor].
Qed.

(** Groups are collected, wherever they were asked for. *)
Definition with_groups r : refs :=
  match used_groups r with Some _ => r | None => Refs (used_hosts r) (Some []) (used_matchers r) end.
Definition same_asked r r' : refs :=
  match used_groups r with Some _ => r' | None => Refs (used_hosts r') None (used_matchers r') end.

Lemma with_groups_ok r : refs_ok r -> refs_ok (with_groups r).
Proof.
  intros Hr. unfold with_groups. destruct (used_groups r) eqn:E; [done|]. intros [] l El; try by apply Hr.
  cbn in El. injection El as <-. split; [split; constructor|constructor].
Qed.

Lemma same_asked_spec r r' A : refs_ok r' -> extends (with_groups r) r' A ->
  refs_ok (same_asked r r') /\ extends r (same_asked r r') A.
Proof.
  unfold with_groups, same_asked. intros Hr He. destruct (used_groups r) eqn:E; [done|]. split.
  - intros [] l El; try by apply Hr.
  - intros c. specialize (He c). destruct c; try done. cbn in *. by rewrite E.
Qed.

(** The groups of the next level are smaller than one of this level. *)
Lemma next_level rank master this gs n : groups_ok master -> ranked rank master -> names this ->
  (forall k, k ∈ keys gs <-> direct master this GROUP_REFERENCE k) -> n ∈ gs ->
  exists n', n' ∈ this /\ classify n' = GROUP_REFERENCE /\ (rank (hkey n) < rank (hkey n'))%nat.
Proof.
  intros Hm Hrank Ht Hgs Hn. assert (hkey n ∈ keys gs) as Hk by by apply list_elem_of_fmap_2.
  apply Hgs in Hk as (m & Ec & Ek & [[_ ?]|(n' & Hn' & Hco)]); [done|]. exists n'. split; [done|].
  split; [by destruct Hco|]. rewrite <- Ek. unfold names in Ht. rewrite Forall_forall in Ht.
  apply (contains_rank rank master n' m); auto.
Qed.

Lemma find_all_references_spec rank master e : groups_ok master -> ranked rank master ->
  forall fuel this r, names this -> refs_ok r -> used_groups r = None \/ used_groups r = Some [] ->
  (forall n, n ∈ this -> classify n = GROUP_REFERENCE -> (rank (hkey n) < fuel)%nat) -> (0 < fuel)%nat ->
  exists r', href_list_find_all_references cfg fuel this (Some master) r e = Some (true, r') /\ refs_ok r' /\
    extends r r' (reached master this).
Proof.
  intros Hm Hrank. induction fuel as [|fuel IH]; intros this r Ht Hr Hg Hf H0; [lia|]. clear H0.
  cbn [href_list_find_all_references]. fold (with_groups r).
  destruct (find_references_spec master this (with_groups r) e Hm Ht (with_groups_ok r Hr)) as (r1 & -> & Hr1 & He1).
  assert (exists gs, used_groups r1 = Some gs /\ forall k, k ∈ keys gs <-> direct master this GROUP_REFERENCE k)
    as (gs & Egs & Hgs).
  { pose proof (He1 GROUP_REFERENCE) as H1. cbn [get] in H1.
    assert (used_groups (with_groups r) = Some []) as E by (unfold with_groups; destruct Hg as [E|E]; by rewrite E).
    rewrite E in H1. destruct (used_groups r1) as [gs|]; [|done]. exists gs. split; [done|]. intros k. rewrite H1. set_solver. }
  destruct (Hr1 GROUP_REFERENCE gs Egs) as [[Hngs _] Hcgs]. rewrite Egs. cbn [default from_option id andb].
  assert (forall c k, reached master this c k <-> direct master this c k \/ reached master gs c k) as Hstep
    by (intros; by apply reached_step).
  destruct (0 <? length gs) eqn:El.
  - destruct (IH gs (Refs (Some []) (Some []) (asked (used_matchers r))) Hngs (empty_refs_ok _)) as (sub & -> & Hsub & Hesub).
    + by right.
    + intros n Hn _. destruct (next_level rank master this gs n) as (n' & Hn' & Hc' & Hlt); auto.
      specialize (Hf n' Hn' Hc'). lia.
    + destruct gs as [|n gs']; [done|]. destruct (next_level rank master this (n :: gs') n) as (n' & Hn' & Hc' & Hlt);
        auto; [set_solver|]. specialize (Hf n' Hn' Hc'). lia.
    + cbn [mbind option_bind].
      destruct (merged_spec r1 (Refs (Some []) (Some []) (asked (used_matchers r))) sub _ Hr1 Hsub Hesub) as [Hr2 He2].
      { intros c l E. specialize (He1 c). rewrite E in He1. destruct c; try done. cbn in *.
        unfold with_groups in He1. destruct (used_groups r), (used_matchers r); done. }
      fold (merged r1 sub). fold (same_asked r (merged r1 sub)).
      destruct (same_asked_spec r (merged r1 sub) (reached master this) Hr2) as [Hr3 He3].
      { eapply extends_trans; [exact He1|exact He2|exact Hstep]. }
      eexists. split; [|by split].
      unfold merged at 1. rewrite Egs. cbn [default from_option id]. done.
  - cbn [mbind option_bind]. fold (same_asked r r1).
    destruct (same_asked_spec r r1 (reached master this) Hr1) as [Hr3 He3].
    { eapply extends_iff; [exact He1|]. intros c k. rewrite Hstep. assert (gs = []) as -> by (destruct gs; [done|cbn in El; lia]).
      unfold reached. set_solver. }
    eexists. split; [reflexivity|]. by split.
Qed.

(** ** The depth of the recursion *)

Definition group_keys master : list bytes := map (fun g => hkey (HGRP_name g)) master.

(** A numbering that needs no more numbers than there are groups. *)
Definition compressed (rank : bytes -> nat) master (k : bytes) : nat :=
  if decide (k ∈ group_keys master) then
    S (length (filter (fun g => (rank (hkey (HGRP_name g)) < rank k)%nat) master))
  else O.

Lemma compressed_ranked rank master : ranked rank master -> ranked (compressed rank master) master.
Proof.
  intros Hr g m Hg Hin Hc. specialize (Hr g m Hg Hin Hc). unfold compressed.
  assert (hkey (HGRP_name g) ∈ group_keys master) as Hk by by apply (list_elem_of_fmap_2 (fun g => hkey (HGRP_name g))).
  rewrite (decide_True _ _ Hk). destruct (decide (hkey m ∈ group_keys master)) as [H|]; [|lia].
  apply list_elem_of_fmap in H as (g' & Eg & Hg'). rewrite Eg in *. apply -> Nat.succ_lt_mono.
  rewrite <- (list_filter_filter_l (fun x => rank (hkey (HGRP_name x)) < rank (hkey (HGRP_name g')))%nat
    (fun x => rank (hkey (HGRP_name x)) < rank (hkey (HGRP_name g)))%nat) by (intros; lia).
  apply (length_filter_lt _ _ g'); [by apply list_elem_of_filter|lia].
Qed.

Lemma compressed_bound rank master k : (compressed rank master k <= length master)%nat.
Proof.
  unfold compressed. destruct (decide (k ∈ group_keys master)) as [H|]; [|lia].
  apply list_elem_of_fmap in H as (g & -> & Hg). apply (length_filter_lt _ _ g Hg). lia.
Qed.

Lemma acyclic_bounded master : acyclic master ->
  exists rank, ranked rank master /\ forall k, (rank k <= length master)%nat.
Proof.
  intros [rank Hr]. exists (compressed rank master). split; [by apply compressed_ranked|apply compressed_bound].
Qed.

(** The search ends, no deeper than there are groups. *)
Lemma find_all_references_ok master this r e fuel : groups_ok master -> acyclic master -> names this -> refs_ok r ->
  used_groups r = None \/ used_groups r = Some [] -> (length master < fuel)%nat ->
  exists r', href_list_find_all_references cfg fuel this (Some master) r e = Some (true, r') /\ refs_ok r' /\
    extends r r' (reached master this).
Proof.
  intros Hm Ha Ht Hr Hg Hf. destruct (acyclic_bounded master Ha) as (rank & Hrank & Hb).
  apply (find_all_references_spec rank); auto; [|lia]. intros n _ _. specialize (Hb (hkey n)). lia.
Qed.

(** ** Groups that contain a group *)

(** The group with the key [a] has a member with the key [b], a group. *)
Definition edge master (a b : bytes) : Prop :=
  exists g m, g ∈ master /\ hkey (HGRP_name g) = a /\ m ∈ HGRP_host_list g /\ classify m = GROUP_REFERENCE /\ hkey m = b.

Lemma edge_rank rank master a b : ranked rank master -> edge master a b -> (rank b < rank a)%nat.
Proof. intros Hr (g & m & Hg & <- & Hm & Hc & <-). by apply Hr. Qed.

Lemma tc_edge_rank rank master a b : ranked rank master -> tc (edge master) a b -> (rank b < rank a)%nat.
Proof.
  intros Hr. induction 1 as [a b H|a b c H _ IH]; [by apply (edge_rank rank master)|].
  pose proof (edge_rank rank master a b Hr H). lia.
Qed.

(** The last step of a path. *)
Lemma tc_last {B} (R : relation B) x y : tc R x y -> R x y \/ exists z, tc R x z /\ R z y.
Proof.
  induction 1 as [x y H|x y z H1 _ [H2|(w & H2 & H3)]]; [by left|right..].
  - exists y. split; [by apply tc_once|done].
  - exists w. split; [by eapply tc_l|done].
Qed.

Definition group_names l : Prop := Forall (fun n => classify n = GROUP_REFERENCE) l.

Lemma parents_of_one n master occ : c_string n -> classify n = GROUP_REFERENCE -> groups_ok master ->
  uniq occ -> group_names occ ->
  let occ' := fold_left (fun occupants g =>
        if href_list_has_member cfg (HGRP_host_list g) n then href_list_add cfg occupants (HGRP_name g) else occupants)
        master occ in
  uniq occ' /\ group_names occ' /\ forall k, k ∈ keys occ' <-> k ∈ keys occ \/ edge master k (hkey n).
Proof.
  intros Hn Hc Hm. revert occ. induction Hm as [|g master (Hgn & Hgc & Hgl) _ IH]; intros occ Hu Hg; cbn [fold_left].
  - split; [done|]. split; [done|]. intros k. unfold edge. set_solver.
  - assert (forall k, edge (g :: master) k (hkey n) <->
      (hkey (HGRP_name g) = k /\ href_list_has_member cfg (HGRP_host_list g) n = true) \/ edge master k (hkey n)) as He.
    { intros k. rewrite has_member_keys by done. unfold edge, keys. rewrite list_elem_of_fmap. split.
      - intros (g' & m & Hg' & E1 & Hin & Hcm & E2). apply elem_of_cons in Hg' as [->|Hg']; [left; eauto|right; eauto 8].
      - intros [(E1 & m & E2 & Hin)|(g' & m & Hg' & H)]; [|exists g', m; set_solver].
        exists g, m. split; [set_solver|]. split; [done|]. split; [done|]. split; [|done].
        by apply (group_by_key n). }
    destruct (href_list_has_member cfg (HGRP_host_list g) n) eqn:E.
    + destruct (IH (href_list_add cfg occ (HGRP_name g))) as (H1 & H2 & H3).
      * by apply add_uniq.
      * unfold group_names in *. rewrite Forall_forall in *. intros x Hx. apply add_elem in Hx as [Hx| ->]; auto.
      * split; [done|]. split; [done|]. intros k. rewrite H3, He, add_keys by (done || by destruct Hu). naive_solver.
    + destruct (IH occ Hu Hg) as (H1 & H2 & H3). split; [done|]. split; [done|].
      intros k. rewrite H3, He. naive_solver.
Qed.

Lemma is_group n : is_hgroup_name (Some n) = true <-> classify n = GROUP_REFERENCE.
Proof.
  unfold classify, classify_member. destruct (is_hgroup_name (Some n)); [done|]. by destruct (is_matcher (Some n)).
Qed.

Lemma find_referencees_spec this master occ : names this -> groups_ok master -> uniq occ -> group_names occ ->
  let occ' := href_list_find_referencees cfg this master occ in
  uniq occ' /\ group_names occ' /\
  forall k, k ∈ keys occ' <-> k ∈ keys occ \/ exists n, n ∈ this /\ classify n = GROUP_REFERENCE /\ edge master k (hkey n).
Proof.
  intros Ht Hm. unfold href_list_find_referencees. revert occ.
  induction Ht as [|n this Hn _ IH]; intros occ Hu Hg; cbn [fold_left].
  - split; [done|]. split; [done|]. set_solver.
  - destruct (is_hgroup_name (Some n)) eqn:E.
    + apply is_group in E. destruct (parents_of_one n master occ Hn E Hm Hu Hg) as (P1 & P2 & P3).
      destruct (IH _ P1 P2) as (H1 & H2 & H3). split; [done|]. split; [done|]. intros k. rewrite H3, P3. set_solver.
    + destruct (IH occ Hu Hg) as (H1 & H2 & H3). split; [done|]. split; [done|]. intros k. rewrite H3.
      assert (classify n <> GROUP_REFERENCE) by (rewrite <- is_group; congruence). set_solver.
Qed.

Lemma find_all_referencees_spec rank master : groups_ok master -> ranked rank master ->
  (forall k, (rank k <= length master)%nat) ->
  forall fuel this, names this ->
  (forall n, n ∈ this -> classify n = GROUP_REFERENCE -> (length master - rank (hkey n) < fuel)%nat) -> (0 < fuel)%nat ->
  exists occ, href_list_find_all_referencees cfg fuel this master [] = Some occ /\ uniq occ /\ group_names occ /\
    forall k, k ∈ keys occ <-> exists n, n ∈ this /\ classify n = GROUP_REFERENCE /\ tc (edge master) k (hkey n).
Proof.
  intros Hm Hrank Hb. induction fuel as [|fuel IH]; intros this Ht Hf H0; [lia|]. clear H0.
  cbn [href_list_find_all_referencees].
  destruct (find_referencees_spec this master [] Ht Hm) as (P1 & P2 & P3); [split; constructor|constructor|].
  set (occ := href_list_find_referencees cfg this master []) in *.
  assert (forall k, k ∈ keys occ <-> exists n, n ∈ this /\ classify n = GROUP_REFERENCE /\ edge master k (hkey n)) as Hocc
    by (intros k; rewrite P3; set_solver). clear P3.
  assert (forall n, n ∈ occ -> (length master - rank (hkey n) < fuel)%nat) as Hlow.
  { intros n Hn. assert (hkey n ∈ keys occ) as Hk by by apply list_elem_of_fmap_2.
    apply Hocc in Hk as (n' & Hn' & Hc' & He). pose proof (edge_rank rank master _ _ Hrank He).
    specialize (Hf n' Hn' Hc'). specialize (Hb (hkey n)). lia. }
  destruct (0 <? length occ) eqn:El.
  - destruct (IH occ (proj1 P1)) as (sub & -> & [S1 S1'] & S2 & S3); [auto| |].
    { destruct occ as [|n occ']; [done|]. specialize (Hlow n ltac:(set_solver)). lia. }
    cbn [mbind option_bind]. destruct (merge_spec sub occ P1 S1) as (M1 & M2 & M3). eexists. split; [reflexivity|].
    split; [done|]. split.
    { unfold group_names in *. rewrite Forall_forall in *. intros x Hx. apply M3 in Hx as [Hx|Hx]; auto. }
    intros k. rewrite M2, S3, Hocc. unfold group_names in P2. rewrite Forall_forall in P2. split.
    + intros [(n & Hn & Hc & He)|(n & Hn & Hc & Htc)]; [exists n; split; [done|]; split; [done|by apply tc_once]|].
      assert (hkey n ∈ keys occ) as Hk by by apply list_elem_of_fmap_2.
      apply Hocc in Hk as (n' & Hn' & Hc' & He). exists n'. split; [done|]. split; [done|]. by eapply tc_r.
    + intros (n & Hn & Hc & Htc). apply tc_last in Htc as [He|(k' & Htc & He)]; [left; eauto|]. right.
      assert (k' ∈ keys occ) as Hk by (apply Hocc; eauto). apply list_elem_of_fmap in Hk as (n' & -> & Hn'). eauto.
  - assert (occ = []) as E by (destruct occ; [done|cbn in El; lia]). exists []. rewrite E in *. split; [done|].
    split; [done|]. split; [constructor|]. intros k. split; [set_solver|]. intros (n & Hn & Hc & Htc).
    apply tc_last in Htc as [He|(k' & _ & He)]; [specialize (proj2 (Hocc k)); set_solver|].
    specialize (proj2 (Hocc k')). set_solver.
Qed.

(** ** Differences *)

(** What was asked for has grown by the names with [P]. *)
Definition grows (o o' : option (list bytes)) (P : bytes -> Prop) : Prop :=
  match o, o' with
  | Some l, Some l' =>
      uniq l -> uniq l' /\ (forall k, k ∈ keys l' <-> k ∈ keys l \/ exists m, P m /\ hkey m = k) /\
        (forall x, x ∈ l' -> x ∈ l \/ P x)
  | None, None => True
  | _, _ => False
  end.

Lemma grows_refl o P : (forall m, ~ P m) -> grows o o P.
Proof. intros HP. destruct o; [|done]. intros Hu. split; [done|]. set_solver. Qed.

(** One name, when it is of the class and not in the other list. *)
Definition is_new c l (m : bytes) : Prop := classify m = c /\ hkey m ∉ keys l.

#[local] Instance is_new_dec c l m : Decision (is_new c l m).
Proof. unfold is_new. apply _. Defined.

Lemma grows_one o n c l : c_string n ->
  grows o (if decide (is_new c l n) then add_to cfg o n else o) (fun m => m = n /\ is_new c l m).
Proof.
  intros Hn. destruct (decide (is_new c l n)) as [H|H]; [|apply grows_refl; by intros m [-> ?]].
  destruct o as [l0|]; [|done]. intros Hu. split; [by apply add_uniq|]. split.
  - intros k. rewrite add_keys by (done || by destruct Hu). split; [intros [?| ->]; [by left|right; by exists n]|].
    intros [?|(m & [-> _] & <-)]; [by left|by right].
  - intros x Hx. apply add_elem in Hx as [?| ->]; [by left|by right].
Qed.

Lemma grows_trans o1 o2 o3 (P Q R : bytes -> Prop) : grows o1 o2 P -> grows o2 o3 Q ->
  (forall x, R x <-> P x \/ Q x) -> grows o1 o3 R.
Proof.
  destruct o1, o2, o3; try done. intros H1 H2 HR Hu. destruct (H1 Hu) as (A1 & A2 & A3).
  destruct (H2 A1) as (B1 & B2 & B3). split; [done|]. split.
  - intros k. rewrite B2, A2. set_solver.
  - intros x Hx. apply B3 in Hx as [Hx|Hx]; [apply A3 in Hx|]; set_solver.
Qed.

Lemma compare_spec this l ah ag : names this -> names l ->
  let d := href_list_compare cfg this l (Diff ah ag None None) in
  grows ah (add_hosts d) (fun m => m ∈ this /\ is_new LITERAL_HOST l m) /\
  grows ag (add_groups d) (fun m => m ∈ this /\ is_new GROUP_REFERENCE l m).
Proof.
  intros Ht Hl. unfold href_list_compare. revert ah ag. induction Ht as [|n this Hn _ IH]; intros ah ag; cbn [fold_left].
  - split; apply grows_refl; intros m [H _]; by apply not_elem_of_nil in H.
  - assert (compare_step cfg l (Diff ah ag None None) n =
      Diff (if decide (is_new LITERAL_HOST l n) then add_to cfg ah n else ah)
           (if decide (is_new GROUP_REFERENCE l n) then add_to cfg ag n else ag) None None) as ->.
    { pose proof (has_member_keys l n Hl Hn) as Hmem. unfold compare_step.
      destruct (decide (is_new LITERAL_HOST l n)) as [D1|D1], (decide (is_new GROUP_REFERENCE l n)) as [D2|D2];
        unfold is_new in D1, D2; destruct (classify n), (href_list_has_member cfg l n); cbn; try done; exfalso;
        intuition congruence. }
    destruct (IH (if decide (is_new LITERAL_HOST l n) then add_to cfg ah n else ah)
                 (if decide (is_new GROUP_REFERENCE l n) then add_to cfg ag n else ag)) as [I1 I2].
    split; (eapply grows_trans; [by apply grows_one|eassumption|]); intros x; rewrite elem_of_cons; tauto.
Qed.

Lemma remove_first_spec n l : uniq l -> c_string n ->
  uniq (remove_first cfg n l) /\ (forall k, k ∈ keys (remove_first cfg n l) <-> k ∈ keys l /\ k <> hkey n).
Proof.
  intros [Hl Hd] Hn. revert Hd. induction Hl as [|x l Hx Hl IH]; intros Hd; cbn [remove_first].
  - split; [split; [constructor|done]|]. cbn. set_solver.
  - apply NoDup_cons in Hd as [Hnot Hd]. destruct (same_host cfg n x) eqn:E.
    + apply same_host_key in E; [|done|done]. split; [by split|]. intros k. unfold keys. cbn [map]. fold (keys l).
      rewrite elem_of_cons, E. split; [|naive_solver]. intros Hk. split; [by right|]. by intros ->.
    + assert (hkey n <> hkey x) by (intros H; apply same_host_key in H; congruence).
      destruct (IH Hd) as [[I1 I2] I3]. split; [split; [by apply Forall_cons_2|]|].
      * unfold keys. cbn [map]. apply NoDup_cons. split; [|done]. fold (keys (remove_first cfg n l)). rewrite I3. tauto.
      * intros k. unfold keys. cbn [map]. rewrite !elem_of_cons. fold (keys l) (keys (remove_first cfg n l)). rewrite I3.
        naive_solver.
Qed.

Lemma remove_existing_spec other l : uniq l -> names other ->
  uniq (href_list_remove_existing cfg l other) /\
  (forall k, k ∈ keys (href_list_remove_existing cfg l other) <-> k ∈ keys l /\ k ∉ keys other).
Proof.
  intros Hu Ho. revert l Hu. unfold href_list_remove_existing. induction Ho as [|n other Hn _ IH]; intros l Hu; cbn [fold_left].
  - split; [done|]. set_solver.
  - destruct (remove_first_spec n l Hu Hn) as [R1 R2]. destruct (IH _ R1) as [I1 I2]. split; [done|].
    intros k. rewrite I2, R2. unfold keys. cbn [map]. set_solver.
Qed.

End facts.

End HGroupFacts.
