(* ===== verification/HGroupProps.v ===== *)
(** HGroupProps: the hosts of a group, the cache, and the check that keeps the groups free of
    cycles. *)

From S2P Require Import Prelude Answer Host HostProps Text HGroup HGroupFacts.
Import Answer Host HostProps Text HGroup HGroupFacts.

Module HGroupProps.

Section props.
Context (cfg : bootstrap).
Context (Hdomain : match default_domain cfg with Some d => c_string d | None => True end).

Implicit Types (l this old new : list bytes) (master : list hgroup) (grp : hgroup).

Notation hkey := (hkey cfg).
Notation keys := (keys cfg).
Notation uniq := (uniq cfg).

(** The hosts a list of references stands for. *)
Definition members master this (k : bytes) : Prop := reached cfg master this LITERAL_HOST k.

Lemma hosts_only_ok l : uniq l -> Forall (fun m => classify m = LITERAL_HOST) l -> refs_ok cfg (Refs (Some l) None None).
Proof. intros Hu Hc [] l' E; try done. injection E as <-. by split. Qed.

(** A search for hosts alone. *)
Lemma find_hosts master this l fuel : groups_ok master -> acyclic cfg master -> names this -> uniq l ->
  Forall (fun m => classify m = LITERAL_HOST) l -> (length master < fuel)%nat ->
  exists l', href_list_find_all_references cfg fuel this (Some master) (Refs (Some l) None None) true =
      Some (true, Refs (Some l') None None) /\ uniq l' /\ Forall (fun m => classify m = LITERAL_HOST) l' /\
    forall k, k ∈ keys l' <-> k ∈ keys l \/ members master this k.
Proof.
  intros Hm Ha Ht Hu Hc Hf.
  destruct (find_all_references_ok cfg Hdomain master this (Refs (Some l) None None) true fuel Hm Ha Ht) as (r & E & Hr & He);
    [by apply hosts_only_ok|by left|done|].
  pose proof (He LITERAL_HOST) as H1. pose proof (He GROUP_REFERENCE) as H2. pose proof (He MATCHER) as H3.
  destruct r as [h g m]. cbn in H1, H2, H3. destruct g, m, h as [l'|]; try done. exists l'. split; [done|].
  destruct (Hr LITERAL_HOST l' eq_refl) as [Hu' Hc']. split; [done|]. by split.
Qed.

Lemma uniq_nil : uniq [].
Proof. split; constructor. Qed.

(** ** Differences *)

Lemma find_diff_spec new old : names new -> names old ->
  exists a r ga gr, href_list_find_diff cfg new old (Some []) (Some []) (Some []) (Some []) = (Some a, Some r, Some ga, Some gr) /\
    let side l (P : bytes -> Prop) := uniq l /\ (forall k, k ∈ keys l <-> exists m, P m /\ hkey m = k) /\ forall x, x ∈ l -> P x in
    side a (fun m => m ∈ new /\ is_new cfg LITERAL_HOST old m) /\
    side r (fun m => m ∈ old /\ is_new cfg LITERAL_HOST new m) /\
    side ga (fun m => m ∈ new /\ is_new cfg GROUP_REFERENCE old m) /\
    side gr (fun m => m ∈ old /\ is_new cfg GROUP_REFERENCE new m).
Proof.
  intros Hn Ho. unfold href_list_find_diff.
  destruct (compare_spec cfg Hdomain new old (Some []) (Some []) Hn Ho) as [A1 A2].
  destruct (compare_spec cfg Hdomain old new (Some []) (Some []) Ho Hn) as [R1 R2].
  destruct (href_list_compare cfg new old _) as [[a|] [ga|] ? ?]; try done.
  destruct (href_list_compare cfg old new _) as [[r|] [gr|] ? ?]; try done.
  exists a, r, ga, gr. split; [done|].
  assert (forall l P, grows cfg (Some []) (Some l) P ->
    uniq l /\ (forall k, k ∈ keys l <-> exists m, P m /\ hkey m = k) /\ forall x, x ∈ l -> P x) as Hg.
  { intros l P H. destruct (H uniq_nil) as (H1 & H2 & H3). split; [done|]. split.
    - intros k. rewrite H2. split; [intros [H4|?]; [by apply not_elem_of_nil in H4|done]|by right].
    - intros x Hx. apply H3 in Hx as [H4|?]; [by apply not_elem_of_nil in H4|done]. }
  split; [by apply Hg|]. split; [by apply Hg|]. split; by apply Hg.
Qed.

(** What is in the new members and not in the old ones comes from a new reference. *)
Lemma new_members master new old ga k : groups_ok master -> names new -> names old -> names ga ->
  (forall k, k ∈ keys ga <-> exists m, (m ∈ new /\ is_new cfg GROUP_REFERENCE old m) /\ hkey m = k) ->
  members master new k -> ~ members master old k ->
  (exists m, (m ∈ new /\ is_new cfg LITERAL_HOST old m) /\ hkey m = k) \/ members master ga k.
Proof.
  intros Hm Hn Ho Hg Hga (m & Ec & <- & H) Hnot. unfold names in *. rewrite Forall_forall in Hn, Ho, Hg.
  destruct H as [[Hin _]|(n & Hin & Hu)].
  - left. exists m. split; [|done]. split; [done|]. split; [done|]. intros Hk. apply list_elem_of_fmap in Hk as (m' & E & Hm').
    apply Hnot. exists m'. split; [|by split; [|left]].
    rewrite <- Ec. symmetry. by apply (class_by_key cfg Hdomain); auto.
  - right. assert (classify n = GROUP_REFERENCE) as Hc by (by inversion Hu as [? ? [? _]|? ? ? [? _]]).
    assert (hkey n ∈ keys ga) as Hk.
    { apply Hga. exists n. split; [|done]. split; [done|]. split; [done|]. intros Hk.
      apply list_elem_of_fmap in Hk as (n' & E & Hn'). apply Hnot. exists m. split; [done|]. split; [done|]. right.
      exists n'. split; [done|]. apply (under_by_key cfg Hdomain master n); auto. }
    apply list_elem_of_fmap in Hk as (n' & E & Hn'). exists m. split; [done|]. split; [done|]. right. exists n'.
    split; [done|]. apply (under_by_key cfg Hdomain master n); auto.
Qed.

Lemma members_sub master l l' k : (forall x, x ∈ l -> x ∈ l') -> members master l k -> members master l' k.
Proof.
  intros Hs (m & Ec & Ek & [[Hin ?]|(n & Hin & Hu)]); exists m; (split; [done|]); (split; [done|]); [left|right]; eauto.
Qed.

(** The hosts of the groups that come are added to [ah] and those of the groups that go to
    [rh]; what is in both is in neither. *)
Lemma effective_diff_spec master ga gr ah rh fuel : groups_ok master -> acyclic cfg master -> names ga -> names gr ->
  uniq ah -> uniq rh -> Forall (fun m => classify m = LITERAL_HOST) ah -> Forall (fun m => classify m = LITERAL_HOST) rh ->
  (length master < fuel)%nat ->
  exists ah' rh', href_list_find_effective_diff cfg fuel ga gr (Some master) ah rh = Some (true, ah', rh') /\
    uniq ah' /\ uniq rh' /\ Forall (fun m => classify m = LITERAL_HOST) ah' /\
    let a k := k ∈ keys ah \/ members master ga k in
    let r k := k ∈ keys rh \/ members master gr k in
    (forall k, k ∈ keys ah' <-> a k /\ ~ r k) /\ (forall k, k ∈ keys rh' <-> r k /\ ~ a k).
Proof.
  intros Hm Hac Hga Hgr Hua Hur Hca Hcr Hf. unfold href_list_find_effective_diff.
  destruct (find_hosts master ga ah fuel Hm Hac Hga Hua Hca Hf) as (ah1 & -> & Hu1 & Hc1 & Hk1).
  destruct (find_hosts master gr rh fuel Hm Hac Hgr Hur Hcr Hf) as (rh1 & E2 & Hu2 & Hc2 & Hk2).
  cbn [mbind option_bind]. rewrite E2. cbn [mbind option_bind used_hosts default from_option id andb].
  destruct ((0 <? length ah1) && (0 <? length rh1)) eqn:El.
  - destruct (compare_spec cfg Hdomain ah1 rh1 (Some []) None (proj1 Hu1) (proj1 Hu2)) as [A1 _].
    destruct (compare_spec cfg Hdomain rh1 ah1 (Some []) None (proj1 Hu2) (proj1 Hu1)) as [R1 _].
    unfold href_list_find_diff. destruct (add_hosts (href_list_compare cfg ah1 rh1 _)) as [a|]; [|done].
    destruct (add_hosts (href_list_compare cfg rh1 ah1 _)) as [r|]; [|done]. exists a, r. split; [done|].
    destruct (A1 uniq_nil) as (A2 & A3 & A4), (R1 uniq_nil) as (R2 & R3 & R4). split; [done|]. split; [done|].
    assert (forall l l' : list bytes, Forall (fun m => classify m = LITERAL_HOST) l -> forall k,
      (k ∈ keys [] \/ exists m, (m ∈ l /\ is_new cfg LITERAL_HOST l' m) /\ hkey m = k) <-> k ∈ keys l /\ k ∉ keys l') as Hx.
    { intros l l' Hc k. rewrite Forall_forall in Hc. split.
      - intros [H|(m & [Hin [_ Hnot]] & <-)]; [by apply not_elem_of_nil in H|]. split; [by apply list_elem_of_fmap_2|done].
      - intros [Hk Hnot]. apply list_elem_of_fmap in Hk as (m & -> & Hin). right. exists m. split; [|done].
        split; [done|]. split; auto. }
    split; [|split].
    + rewrite Forall_forall. intros x Hx'. apply A4 in Hx' as [H|[_ [H _]]]; [by apply not_elem_of_nil in H|done].
    + intros k. rewrite A3, Hx by done. by rewrite Hk1, Hk2.
    + intros k. rewrite R3, Hx by done. by rewrite Hk1, Hk2.
  - exists ah1, rh1. split; [done|]. split; [done|]. split; [done|]. split; [done|].
    assert (ah1 = [] \/ rh1 = []) as Hnil by (destruct ah1, rh1; (by left) || (by right) || done).
    split; intros k; rewrite <- Hk1, <- Hk2; destruct Hnil as [-> | ->]; unfold HGroupFacts.keys; cbn; set_solver.
Qed.

(** ** Cycles *)

(** The groups after a change. *)
Definition with_group master (g : hgroup) : list hgroup :=
  filter (fun x => hkey (HGRP_name x) <> hkey (HGRP_name g)) master ++ [g].

(** [grp] and the groups that contain it. *)
Definition occupants_of master (grp : hgroup) (k : bytes) : Prop :=
  k = hkey (HGRP_name grp) \/ tc (edge cfg master) k (hkey (HGRP_name grp)).

Lemma occupants_spec master grp fuel : groups_ok master -> acyclic cfg master -> group_ok grp ->
  (length master < fuel)%nat ->
  exists occ, hgroup_find_all_referencees cfg fuel (Some grp) master [] = Some occ /\
    let occ' := href_list_add cfg occ (HGRP_name grp) in
    names occ' /\ forall k, k ∈ keys occ' <-> occupants_of master grp k.
Proof.
  intros Hm Ha (Hn & Hc & _) Hf. destruct (acyclic_bounded cfg master Ha) as (rank & Hr & Hb).
  destruct (find_all_referencees_spec cfg Hdomain rank master Hm Hr Hb fuel [HGRP_name grp]) as (occ & E & Hu & _ & Hk).
  - by apply Forall_singleton.
  - intros n _ _. lia.
  - lia.
  - exists occ. split; [done|]. split; [by apply (add_uniq cfg Hdomain)|]. intros k.
    rewrite (add_keys cfg Hdomain) by (done || by destruct Hu). rewrite Hk. unfold occupants_of. split.
    + intros [(n & Hin & _ & Htc)|?]; [|by left]. apply list_elem_of_singleton in Hin as ->. by right.
    + intros [?|Htc]; [by right|]. left. exists (HGRP_name grp). split; [by apply list_elem_of_singleton|]. by split.
Qed.

Lemma in_with_group master g x : x ∈ with_group master g <->
  (x ∈ master /\ hkey (HGRP_name x) <> hkey (HGRP_name g)) \/ x = g.
Proof. unfold with_group. rewrite elem_of_app, list_elem_of_filter, list_elem_of_singleton. tauto. Qed.

(** References to groups that do not contain this one keep the groups free of cycles: the
    groups that contain it get numbers above all others. *)
Lemma new_references_acyclic master grp new occ : groups_ok master -> acyclic cfg master -> names new ->
  grp ∈ master \/ HGRP_host_list grp = [] -> names (HGRP_host_list grp) ->
  (forall k, k ∈ keys occ <-> occupants_of master grp k) ->
  (forall m, m ∈ new -> is_new cfg GROUP_REFERENCE (HGRP_host_list grp) m -> hkey m ∉ keys occ) ->
  acyclic cfg (with_group master (set_host_list new grp)).
Proof.
  intros Hm Ha Hn Hgrp Hold Hocc Hnew. destruct (acyclic_bounded cfg master Ha) as (rank & Hr & Hb).
  exists (fun k => if decide (k ∈ keys occ) then rank k + S (length master) else rank k)%nat.
  intros g m Hg Hin Hc. apply in_with_group in Hg as [[Hg _]| ->].
  - specialize (Hr g m Hg Hin Hc).
    assert (hkey m ∈ keys occ -> hkey (HGRP_name g) ∈ keys occ) as Hup.
    { rewrite !Hocc. assert (edge cfg master (hkey (HGRP_name g)) (hkey m)) as He by (exists g, m; auto).
      intros [Em|Htc]; right; [rewrite Em in He; by apply tc_once|by eapply tc_l]. }
    repeat case_decide; (lia || tauto).
  - cbn [HGRP_name HGRP_host_list set_host_list] in *. rewrite (decide_True _ _ (proj2 (Hocc _) (or_introl eq_refl))).
    destruct (decide (hkey m ∈ keys (HGRP_host_list grp))) as [Hk|Hk].
    + apply list_elem_of_fmap in Hk as (m' & E & Hm'). destruct Hgrp as [Hgrp|E']; [|rewrite E' in Hm'; by apply not_elem_of_nil in Hm'].
      assert (classify m' = GROUP_REFERENCE) as Hc' by (by apply (group_by_key cfg Hdomain m)).
      specialize (Hr grp m' Hgrp Hm' Hc'). rewrite E. case_decide; lia.
    + rewrite decide_False by (apply Hnew; done). specialize (Hb (hkey m)). lia.
Qed.

(** Along a path that ends in [h] a second numbering goes down as well, when it does outside
    of [h]: the path cannot come through [h] before its end. *)
Lemma path_above (R : relation bytes) (rank rank' : bytes -> nat) h :
  (forall a b, R a b -> (rank b < rank a)%nat) -> (forall a b, R a b -> a <> h -> (rank' b < rank' a)%nat) ->
  forall a b, tc R a b -> b = h -> (rank' h < rank' a)%nat.
Proof.
  intros Hr Hr'. assert (forall a b, tc R a b -> (rank b < rank a)%nat) as Htc.
  { induction 1 as [a b H|a b c H _ IH]; [by apply Hr|]. specialize (Hr a b H). lia. }
  induction 1 as [a b He|a b c He Hbc IH]; intros E.
  - rewrite <- E at 1. apply Hr'; [done|]. intros ->. specialize (Hr h b He). subst b. lia.
  - specialize (IH E). assert (a <> h) as Hne; [|specialize (Hr' a b He Hne); lia].
    intros ->. specialize (Hr h b He). specialize (Htc b c Hbc). subst c. lia.
Qed.

(** A reference to a group that contains this one closes a cycle. *)
Lemma reference_up_cyclic master grp new m : acyclic cfg master -> m ∈ new -> classify m = GROUP_REFERENCE ->
  occupants_of master grp (hkey m) -> ~ acyclic cfg (with_group master (set_host_list new grp)).
Proof.
  intros [rank Hr] Hin Hc Hocc [rank' Hr']. set (h := hkey (HGRP_name grp)) in *.
  assert (rank' (hkey m) < rank' h)%nat as Hlt.
  { apply (Hr' (set_host_list new grp) m); [apply in_with_group; by right|done|done]. }
  assert (forall a b, edge cfg master a b -> a <> h -> (rank' b < rank' a)%nat) as Hedge.
  { intros x y (g & z & Hg & <- & Hz & Hcz & <-) Hne. apply Hr'; [|done|done]. apply in_with_group. by left. }
  destruct Hocc as [E|Htc]; [fold h in E; rewrite E in Hlt; lia|].
  pose proof (path_above (edge cfg master) rank rank' h (fun a b => edge_rank cfg rank master a b Hr) Hedge _ _ Htc eq_refl). lia.
Qed.

(** ** Changing a group *)

(** The names of hosts resolve to themselves up to what is compared. *)
Definition resolves (resolve : bytes -> option bytes) : Prop :=
  forall n, c_string n -> classify n = LITERAL_HOST -> exists n', resolve n = Some n' /\ c_string n' /\ hkey n' = hkey n.

Lemma resolve_spec resolve text matcher_texts l al : resolves resolve -> uniq l ->
  Forall (fun m => classify m = LITERAL_HOST) l ->
  exists l', href_list_resolve_hostnames resolve text matcher_texts l al false = (true, l', al) /\ uniq l' /\ keys l' = keys l.
Proof.
  intros Hres [Hl Hd] Hc. unfold href_list_resolve_hostnames.
  assert (forall l0, exists l', fold_left (fun '(ret, l, al) name =>
    match classify name with
    | GROUP_REFERENCE => (ret, l ++ [name], al)
    | MATCHER =>
        (false, l ++ [name],
         fold_left (fun al t => snd (answer_list_add al t STATUS_ESYNTAX ANSWER_QUALITY_ERROR)) matcher_texts al)
    | LITERAL_HOST =>
        match resolve name with
        | Some n => (ret, l ++ [n], al)
        | None => (false, l ++ [name], snd (answer_list_add al (text name) STATUS_ESYNTAX ANSWER_QUALITY_ERROR))
        end
    end) l (true, l0, al) = (true, l0 ++ l', al) /\ names l' /\ keys l' = keys l) as H.
  { clear Hd. induction Hl as [|n l Hn Hl IH]; intros l0; cbn [fold_left].
    - exists []. rewrite app_nil_r. split; [done|]. split; [constructor|done].
    - apply Forall_cons in Hc as [Hcn Hc]. rewrite Hcn. destruct (Hres n Hn Hcn) as (n' & -> & Hn' & Ek).
      destruct (IH Hc (l0 ++ [n'])) as (l' & -> & H1 & H2). exists (n' :: l'). rewrite <- app_assoc. split; [done|].
      split; [by apply Forall_cons_2|]. unfold HGroupFacts.keys in *. cbn [map]. by rewrite Ek, H2. }
  destruct (H []) as (l' & E & H1 & H2). exists l'. split; [exact E|]. split; [|done]. split; [done|]. by rewrite H2.
Qed.

Lemma find_none {B} (f : B -> bool) (l : list B) : (forall x, x ∈ l -> f x = false) -> find f l = None.
Proof.
  induction l as [|x l IH]; intros H; [done|]. cbn [find]. rewrite H by (apply elem_of_cons; by left).
  apply IH. intros y Hy. apply H. apply elem_of_cons. by right.
Qed.

Lemma find_none_inv {B} (f : B -> bool) (l : list B) : find f l = None -> forall x, x ∈ l -> f x = false.
Proof. intros E x Hx. apply list_elem_of_In in Hx. by apply (List.find_none f l E). Qed.

Lemma side_literal l old new : (forall x, x ∈ l -> x ∈ old /\ is_new cfg LITERAL_HOST new x) ->
  Forall (fun m => classify m = LITERAL_HOST) l.
Proof. intros H. rewrite Forall_forall. intros x Hx. by destruct (H x Hx) as (_ & ? & _). Qed.

(** What only one of two lists stands for is what its references that the other does not have
    stand for. *)
Lemma only_new master new old a ga r gr k : groups_ok master -> names new -> names old -> names ga ->
  (forall k, k ∈ keys ga <-> exists m, (m ∈ new /\ is_new cfg GROUP_REFERENCE old m) /\ hkey m = k) ->
  (forall k, k ∈ keys a <-> exists m, (m ∈ new /\ is_new cfg LITERAL_HOST old m) /\ hkey m = k) ->
  (forall k, k ∈ keys r <-> exists m, (m ∈ old /\ is_new cfg LITERAL_HOST new m) /\ hkey m = k) ->
  (forall x, x ∈ ga -> x ∈ new) -> (forall x, x ∈ gr -> x ∈ old) ->
  ((k ∈ keys a \/ members master ga k) /\ ~ (k ∈ keys r \/ members master gr k)) /\ ~ members master old k <->
  members master new k /\ ~ members master old k.
Proof.
  intros Hm Hn Ho Hnga Hga Ha Hr Hsub Hsub'. split.
  - intros [[[Hk|Hk] _] Hnot]; (split; [|done]); [|by apply (members_sub master ga)].
    apply Ha in Hk as (m & [Hin [Hc _]] & Ek). exists m. split; [done|]. split; [done|]. by left.
  - intros [Hk Hnot]. split; [|done]. split.
    + rewrite Ha. by apply (new_members master new old ga k).
    + intros [Hk'|Hk']; apply Hnot; [|by apply (members_sub master gr)].
      apply Hr in Hk' as (m & [Hin [Hc _]] & Ek). exists m. split; [done|]. split; [done|]. by left.
Qed.

Lemma without_members master l lo this : uniq l -> uniq lo ->
  (forall k, k ∈ keys lo <-> k ∈ keys [] \/ members master this k) ->
  forall k, k ∈ keys (href_list_remove_existing cfg l lo) <-> k ∈ keys l /\ ~ members master this k.
Proof.
  intros Hl Hlo Hk k. destruct (remove_existing_spec cfg Hdomain lo l Hl (proj1 Hlo)) as [_ ->]. rewrite Hk.
  split; [tauto|]. intros [H1 H2]. split; [done|]. intros [H3|H3]; [by apply not_elem_of_nil in H3|done].
Qed.

(** The loop over the new groups finds none that contains this one. *)
Lemma check_passes new old ga occ : names new -> uniq ga -> names occ ->
  (forall k, k ∈ keys ga <-> exists m, (m ∈ new /\ is_new cfg GROUP_REFERENCE old m) /\ hkey m = k) ->
  find (href_list_has_member cfg occ) ga = None ->
  forall m, m ∈ new -> is_new cfg GROUP_REFERENCE old m -> hkey m ∉ keys occ.
Proof.
  intros Hn [Hga _] Hocc Hk Ef m Hin Hnew Hko. assert (hkey m ∈ keys ga) as Hkg by (apply Hk; eauto).
  apply list_elem_of_fmap in Hkg as (m' & E & Hm'). pose proof (find_none_inv _ _ Ef m' Hm') as Hmem. rewrite E in Hko.
  unfold names in Hga. rewrite Forall_forall in Hga.
  apply (has_member_keys cfg Hdomain) in Hko; [congruence|done|by apply Hga].
Qed.

Section Change.
Context (resolve : bytes -> option bytes) (unknown_host_text : bytes -> string) (matcher_texts : list string).
Context (queue_group_text missing_group_text : bytes -> string) (cycle_text : bytes -> bytes -> string).

(** C6: A change of the members of a group is refused exactly when it would close a cycle of
    references; otherwise the hosts that come are those the new members stand for and the old
    ones do not, and the hosts that go the other way round.  So the groups stay free of
    cycles.  (The new list names no queue group and no missing group, and all hosts are
    known.) *)
Theorem change_checked_exactly (fuel : nat) master grp new (al : answer_arg) :
  groups_ok master -> acyclic cfg master -> group_ok grp -> grp ∈ master \/ HGRP_host_list grp = [] ->
  names new -> (forall n, n ∈ new -> hgroup_is_queue_group (Some n) = false) ->
  (forall n, n ∈ new -> classify n = GROUP_REFERENCE -> hgroup_list_locate cfg master n <> None) ->
  resolves resolve -> (length master < fuel)%nat ->
  exists r al', hgroup_mod_hostlist cfg resolve unknown_host_text matcher_texts queue_group_text missing_group_text
      cycle_text fuel grp new master al = Some (r, al') /\
    match r with
    | Some ch =>
        acyclic cfg (with_group master (set_host_list new grp)) /\ al' = al /\
        (forall k, k ∈ keys (ch_add_hosts ch) <-> members master new k /\ ~ members master (HGRP_host_list grp) k) /\
        (forall k, k ∈ keys (ch_rem_hosts ch) <-> members master (HGRP_host_list grp) k /\ ~ members master new k) /\
        (forall k, k ∈ keys (ch_occupant_groups ch) <-> occupants_of master grp k)
    | None => ~ acyclic cfg (with_group master (set_host_list new grp))
    end.
Proof.
  intros Hm Hac Hg Hgrp Hn Hq Hex Hres Hf. pose proof Hg as (Hgn & Hgc & Ho). unfold hgroup_mod_hostlist.
  rewrite (find_none _ new Hq).
  destruct (find_diff_spec new (HGRP_host_list grp) Hn Ho) as
    (a & r & ga & gr & -> & (A1 & A2 & A3) & (R1 & R2 & R3) & (GA1 & GA2 & GA3) & (GR1 & GR2 & GR3)).
  cbn [default from_option id]. unfold hgroup_list_exists. rewrite find_none.
  2:{ intros x Hx. destruct (GA3 x Hx) as [Hx' [Hc _]]. specialize (Hex x Hx' Hc).
      destruct (hgroup_list_locate cfg master x); [by rewrite andb_false_r|done]. }
  cbn [negb].
  destruct (effective_diff_spec master ga gr a r fuel Hm Hac (proj1 GA1) (proj1 GR1) A1 R1
    (side_literal _ _ _ A3) (side_literal _ _ _ R3) Hf) as (ah & rh & -> & Hah & Hrh & Hcah & Kah & Krh).
  cbn [mbind option_bind].
  destruct (resolve_spec resolve unknown_host_text matcher_texts ah al Hres Hah Hcah) as (ah' & -> & Hah' & Eah).
  cbn [negb andb].
  destruct (occupants_spec master grp fuel Hm Hac Hg Hf) as (occ & -> & Hocc & Kocc). cbn [mbind option_bind].
  set (occ' := href_list_add cfg occ (HGRP_name grp)) in *.
  destruct (find (href_list_has_member cfg occ') ga) as [x|] eqn:Ef.
  - eexists _, _. split; [reflexivity|]. cbn [refuse fst]. apply find_some in Ef as [Hx Hmem].
    apply list_elem_of_In in Hx. destruct (GA3 x Hx) as [Hin [Hc _]].
    apply (has_member_keys cfg Hdomain) in Hmem; [|done|unfold names in Hn; rewrite Forall_forall in Hn; by apply Hn].
    apply (reference_up_cyclic master grp new x); auto. by apply Kocc.
  - destruct (find_hosts master (HGRP_host_list grp) [] fuel Hm Hac Ho uniq_nil (Forall_nil_2 _) Hf) as (lo & -> & Ulo & _ & Klo).
    cbn [mbind option_bind].
    destruct (find_hosts master new [] fuel Hm Hac Hn uniq_nil (Forall_nil_2 _) Hf) as (ln & -> & Uln & _ & Kln).
    cbn [mbind option_bind used_hosts default from_option id].
    eexists _, _. split; [reflexivity|]. cbn [ch_add_hosts ch_rem_hosts ch_occupant_groups].
    split; [|split; [done|split; [|split; [|done]]]].
    + apply (new_references_acyclic master grp new occ'); auto. by apply (check_passes new (HGRP_host_list grp) ga).
    + intros k. rewrite (without_members master ah' lo (HGRP_host_list grp) Hah' Ulo Klo), Eah, Kah.
      apply (only_new master new (HGRP_host_list grp) a ga r gr k); auto;
        [by destruct GA1|intros x Hx; by destruct (GA3 x Hx)|intros x Hx; by destruct (GR3 x Hx)].
    + intros k. rewrite (without_members master rh ln new Hrh Uln Kln), Krh.
      apply (only_new master (HGRP_host_list grp) new r gr a ga k); auto;
        [by destruct GR1|intros x Hx; by destruct (GR3 x Hx)|intros x Hx; by destruct (GA3 x Hx)].
Qed.

End Change.

(** ** The hosts of a group *)

(** The host with the key [k] is in the group with the name [n], through any number of groups. *)
Definition host_in master (n : bytes) (k : bytes) : Prop :=
  exists m, classify m = LITERAL_HOST /\ hkey m = k /\ under cfg master n m.

Lemma members_of_group master n k : classify n = GROUP_REFERENCE -> members master [n] k <-> host_in master n k.
Proof.
  intros Hc. unfold members, reached, host_in. split.
  - intros (m & Ec & Ek & [[Hin _]|(n' & Hin & Hu)]); apply list_elem_of_singleton in Hin as ->; [congruence|eauto].
  - intros (m & Ec & Ek & Hu). exists m. split; [done|]. split; [done|]. right. exists n.
    split; [by apply list_elem_of_singleton|done].
Qed.

Lemma group_hosts master grp fuel : groups_ok master -> acyclic cfg master -> group_ok grp -> (length master < fuel)%nat ->
  exists l, hgroup_find_all_references cfg fuel (Some grp) (Some master) (Refs (Some []) None None) true =
      Some (true, Refs (Some l) None None) /\ uniq l /\ forall k, k ∈ keys l <-> host_in master (HGRP_name grp) k.
Proof.
  intros Hm Ha (Hn & Hc & _) Hf.
  destruct (find_hosts master [HGRP_name grp] [] fuel Hm Ha) as (l & E & Hu & _ & Hk);
    [by apply Forall_singleton|apply uniq_nil|constructor|done|].
  exists l. split; [done|]. split; [done|]. intros k. rewrite Hk, members_of_group by done.
  split; [intros [H|H]; [by apply not_elem_of_nil in H|done]|by right].
Qed.

(** C20: Resolving a group ends, however the groups are nested, as long as no group contains
    itself, and yields each host that is named in it or in a group it leads to, once. *)
Theorem hosts_of_group (fuel : nat) master grp :
  groups_ok master -> acyclic cfg master -> group_ok grp -> (length master < fuel)%nat ->
  exists l, hgroup_find_all_references cfg fuel (Some grp) (Some master) (Refs (Some []) None None) true =
      Some (true, Refs (Some l) None None) /\ NoDup (keys l) /\
    forall h, c_string h -> href_list_has_member cfg l h = true <-> host_in master (HGRP_name grp) (hkey h).
Proof.
  intros Hm Ha Hg Hf. destruct (group_hosts master grp fuel Hm Ha Hg Hf) as (l & E & [Hl Hd] & Hk).
  exists l. split; [done|]. split; [done|]. intros h Hh. by rewrite (has_member_keys cfg Hdomain), Hk.
Qed.

(** ** Cycles without the check *)

(** Groups follow each other from [n] on for [k] steps. *)
Fixpoint deep master (k : nat) (n : bytes) : Prop :=
  match k with
  | O => classify n = GROUP_REFERENCE
  | S k => exists m, contains cfg master n m /\ deep master k m
  end.

Lemma deep_group master k n : deep master k n -> classify n = GROUP_REFERENCE.
Proof. destruct k; [done|]. by intros (m & [? _] & _). Qed.

Lemma cycle_deep master n : under cfg master n n -> forall k, deep master k n.
Proof.
  intros Hcyc k. assert (forall x, under cfg master x n -> deep master k x) as H; [|by apply H].
  induction k as [|k IH]; intros x Hx.
  - by inversion Hx as [? ? [? _]|? ? ? [? _]].
  - inversion Hx as [? ? Hc|? z ? Hc Hz]; subst; [exists n|exists z]; (split; [done|]); by apply IH.
Qed.

Lemma deep_never_ends master fuel this r e n : groups_ok master -> names this -> refs_ok cfg r ->
  used_groups r = None \/ used_groups r = Some [] -> n ∈ this -> deep master fuel n ->
  href_list_find_all_references cfg fuel this (Some master) r e = None.
Proof.
  intros Hm. revert this r n. induction fuel as [|fuel IH]; intros this r n Ht Hr Hg Hin Hd; [done|].
  cbn [href_list_find_all_references]. fold (with_groups r).
  destruct (find_references_spec cfg Hdomain master this (with_groups r) e Hm Ht (with_groups_ok cfg r Hr)) as (r1 & -> & Hr1 & He1).
  pose proof (He1 GROUP_REFERENCE) as H1. cbn [get] in H1.
  assert (used_groups (with_groups r) = Some []) as E by (unfold with_groups; destruct Hg as [E|E]; by rewrite E).
  rewrite E in H1. destruct (used_groups r1) as [gs|] eqn:Egs; [|done].
  destruct Hd as (m & Hc & Hd). assert (hkey m ∈ keys gs) as Hk.
  { apply H1. right. exists m. split; [by apply (deep_group master fuel)|]. split; [done|]. right. eauto. }
  apply list_elem_of_fmap in Hk as (m' & Ek & Hm'). cbn [default from_option id andb].
  assert ((0 <? length gs) = true) as -> by (destruct gs; [by apply not_elem_of_nil in Hm'|done]).
  destruct (Hr1 GROUP_REFERENCE gs Egs) as [[Hngs _] Hcgs].
  rewrite (IH gs _ m' Hngs (empty_refs_ok cfg _) (or_intror eq_refl) Hm'); [done|].
  unfold names in Ht, Hngs. rewrite Forall_forall in Ht, Hngs, Hcgs.
  destruct fuel as [|fuel]; [by apply Hcgs|]. destruct Hd as (z & Hz & Hd). exists z. split; [|done].
  apply (contains_by_key cfg Hdomain master m); auto. by apply (contains_c_string cfg master n).
Qed.

(** Resolving references that lead to a group that contains itself never ends: the
    function relies on the check of [hgroup_mod_hostlist]. *)
Theorem cycle_never_ends (fuel : nat) master grp :
  groups_ok master -> group_ok grp -> under cfg master (HGRP_name grp) (HGRP_name grp) ->
  hgroup_find_all_references cfg fuel (Some grp) (Some master) (Refs (Some []) None None) true = None.
Proof.
  intros Hm (Hn & _ & _) Hu. cbn [hgroup_find_all_references].
  apply (deep_never_ends master fuel _ _ true (HGRP_name grp)); auto.
  - by apply Forall_singleton.
  - apply hosts_only_ok; [apply uniq_nil|constructor].
  - by apply list_elem_of_singleton.
  - by apply cycle_deep.
Qed.

(** ** The cache *)

(** Everything but the caches. *)
Definition skeleton master : list (bytes * list bytes) := map (fun g => (HGRP_name g, HGRP_host_list g)) master.

Lemma skeleton_contains master master' n m : skeleton master = skeleton master' ->
  contains cfg master n m -> contains cfg master' n m.
Proof.
  intros E (Hc & g & El & Hin). split; [done|]. revert master' E El.
  induction master as [|x master IH]; intros [|x' master'] E El; try done. injection E as En Eh E.
  unfold hgroup_list_locate in *. cbn [find] in *. rewrite <- En.
  destruct (same_host cfg n (HGRP_name x)); [|by apply IH]. injection El as ->. exists x'. by rewrite <- Eh.
Qed.

Lemma skeleton_host_in master master' n k : skeleton master = skeleton master' ->
  host_in master n k <-> host_in master' n k.
Proof.
  assert (forall a b, skeleton a = skeleton b -> host_in a n k -> host_in b n k) as H; [|split; by apply H].
  intros a b E (m & Ec & Ek & Hu). exists m. split; [done|]. split; [done|].
  apply (tc_congruence (R:=contains cfg a) id); [|done]. intros x y. by apply skeleton_contains.
Qed.

Lemma skeleton_elem master master' g : skeleton master = skeleton master' -> g ∈ master ->
  exists g', g' ∈ master' /\ HGRP_name g' = HGRP_name g /\ HGRP_host_list g' = HGRP_host_list g.
Proof.
  intros E Hg. assert ((HGRP_name g, HGRP_host_list g) ∈ skeleton master) as H
    by by apply (list_elem_of_fmap_2 (fun g => (HGRP_name g, HGRP_host_list g))).
  rewrite E in H. apply list_elem_of_fmap in H as (g' & [= E1 E2] & Hg'). by exists g'.
Qed.

Lemma skeleton_ok master master' : skeleton master = skeleton master' ->
  groups_ok master -> acyclic cfg master -> groups_ok master' /\ acyclic cfg master'.
Proof.
  intros E Hm [rank Hr]. unfold groups_ok in *. rewrite Forall_forall in *. split.
  - intros g Hg. destruct (skeleton_elem master' master g) as (g' & Hg' & E1 & E2); [done|done|].
    unfold group_ok. rewrite <- E1, <- E2. by apply Hm.
  - exists rank. intros g m Hg Hin Hc. destruct (skeleton_elem master' master g) as (g' & Hg' & E1 & E2); [done|done|].
    rewrite <- E1. rewrite <- E2 in Hin. by apply Hr.
Qed.

Definition cache_valid master (g : hgroup) : Prop :=
  HGRP_cache_version g <> 0 /\ uniq (HGRP_cached_hosts g) /\
  forall k, k ∈ keys (HGRP_cached_hosts g) <-> host_in master (HGRP_name g) k.

Lemma update_cache_spec fuel master g v : groups_ok master -> acyclic cfg master -> group_ok g -> (length master < fuel)%nat ->
  exists g' v', hgroup_update_cache cfg fuel g (Some master) v = Some (true, g', v') /\
    HGRP_name g' = HGRP_name g /\ HGRP_host_list g' = HGRP_host_list g /\ cache_valid master g'.
Proof.
  intros Hm Ha Hg Hf. unfold hgroup_update_cache. destruct (group_hosts master g fuel Hm Ha Hg Hf) as (l & -> & Hu & Hk).
  cbn [mbind option_bind]. eexists _, _. split; [reflexivity|]. split; [done|]. split; [done|].
  split; [|by split]. cbn. destruct (u32 (v + 1) =? 0) eqn:E; [done|]. by apply Z.eqb_neq.
Qed.

Lemma update_caches_spec master0 fuel : groups_ok master0 -> acyclic cfg master0 -> (length master0 < fuel)%nat ->
  forall n i master v, skeleton master = skeleton master0 -> (i + n = length master)%nat ->
  (forall j g, (j < i)%nat -> master !! j = Some g -> cache_valid master0 g) ->
  exists master' v', update_caches_loop cfg fuel n i true master v = Some (true, master', v') /\
    skeleton master' = skeleton master0 /\ Forall (cache_valid master0) master'.
Proof.
  intros Hm0 Ha0 Hf. induction n as [|n IH]; intros i master v E Hlen Hv; cbn [update_caches_loop].
  - exists master, v. split; [done|]. split; [done|]. apply Forall_lookup. intros j g Hg. apply (Hv j); [|done].
    apply lookup_lt_Some in Hg. lia.
  - destruct (lookup_lt_is_Some_2 master i) as [g Hg]; [lia|]. rewrite Hg. cbn [mbind option_bind].
    destruct (skeleton_ok master0 master (eq_sym E) Hm0 Ha0) as [Hm Ha].
    assert (length master = length master0) as Hl by (apply (f_equal length) in E; unfold skeleton in E; by rewrite !length_map in E).
    destruct (update_cache_spec fuel master g v Hm Ha) as (g' & v' & -> & En & Eh & Hval); [|lia|].
    { unfold groups_ok in Hm. rewrite Forall_lookup in Hm. by apply (Hm i). }
    cbn [mbind option_bind andb]. apply IH.
    + rewrite <- E. apply list_eq. intros j. unfold skeleton. rewrite !(list_lookup_fmap (fun g => (HGRP_name g, HGRP_host_list g))).
      destruct (decide (j = i)) as [->|Hne]; [|by rewrite list_lookup_insert_ne].
      rewrite list_lookup_insert_eq by lia. rewrite Hg. cbn. by rewrite En, Eh.
    + rewrite length_insert. lia.
    + intros j x Hj Hx. destruct (decide (j = i)) as [->|Hne].
      * rewrite list_lookup_insert_eq in Hx by lia. injection Hx as <-. destruct Hval as (V1 & V2 & V3).
        split; [done|]. split; [done|]. intros k. rewrite V3. by apply skeleton_host_in.
      * rewrite list_lookup_insert_ne in Hx by done. apply (Hv j); [lia|done].
Qed.

Definition answers (o : option bool) (P : Prop) : Prop := exists b, o = Some b /\ (b = true <-> P).

(** Whether a group contains a host is answered in the same way from the cache and
    without it: after the caches of all groups were computed, and for a group that has none,
    the answer is whether the host is named in the group or in a group it leads to. *)
Theorem contains_host_correct (fuel : nat) master (next_version : Z) :
  groups_ok master -> acyclic cfg master -> (length master < fuel)%nat ->
  (exists master' v, hgroup_list_update_caches cfg fuel master next_version = Some (true, master', v) /\
     skeleton master' = skeleton master /\
     forall g h, g ∈ master' -> c_string h ->
       hgroup_has_host_cache (Some g) = true /\
       answers (hgroup_contains_host cfg fuel (Some g) (Some h) (Some master')) (host_in master (HGRP_name g) (hkey h))) /\
  (forall g h, g ∈ master -> c_string h -> HGRP_cache_version g = 0 ->
     answers (hgroup_contains_host cfg fuel (Some g) (Some h) (Some master)) (host_in master (HGRP_name g) (hkey h))).
Proof.
  intros Hm Ha Hf. split.
  - destruct (update_caches_spec master fuel Hm Ha Hf (length master) 0 master next_version) as (master' & v & E & Es & Hv);
      [done|done|lia|].
    exists master', v. split; [done|]. split; [done|]. intros g h Hg Hh. rewrite Forall_forall in Hv.
    destruct (Hv g Hg) as (V1 & [V2 _] & V3).
    assert (hgroup_has_host_cache (Some g) = true) as Hc by (cbn; by rewrite (proj2 (Z.eqb_neq _ _) V1)). split; [done|].
    eexists. unfold hgroup_contains_host. rewrite Hc. split; [reflexivity|]. cbn [hgroup_cache_contains_host].
    by rewrite (has_member_keys cfg Hdomain), V3.
  - intros g h Hg Hh Hz. unfold hgroup_contains_host, hgroup_has_host_cache. rewrite Hz. cbn [Z.eqb negb].
    unfold groups_ok in Hm. pose proof Hm as Hm'. rewrite Forall_forall in Hm'.
    destruct (group_hosts master g fuel Hm Ha (Hm' g Hg) Hf) as (l & -> & [Hl _] & Hk). cbn [mbind option_bind].
    eexists. split; [reflexivity|]. cbn [used_hosts default from_option id andb].
    by rewrite (has_member_keys cfg Hdomain), Hk.
Qed.

(** ** Why *)

Lemma first_some_in {A B} (f : A -> option B) (l : list A) :
  match first_some f l with
  | Some y => exists x, x ∈ l /\ f x = Some y
  | None => forall x, x ∈ l -> f x = None
  end.
Proof.
  induction l as [|x l IH]; cbn [first_some]; [intros x Hx; by apply not_elem_of_nil in Hx|].
  destruct (f x) as [y|] eqn:E; [exists x; split; [apply elem_of_cons; by left|done]|].
  destruct (first_some f l) as [y|].
  - destruct IH as (z & Hz & Ez). exists z. split; [apply elem_of_cons; by right|done].
  - intros z Hz. apply elem_of_cons in Hz as [->|Hz]; [done|by apply IH].
Qed.

Lemma hostcmp_literal a b : fits a -> fits b -> classify a = LITERAL_HOST -> classify b = LITERAL_HOST ->
  sge_hostcmp cfg (Some a) (Some b) = 0 <-> hkey a = hkey b.
Proof.
  assert (forall s, classify s = LITERAL_HOST -> special s = false) as Hs.
  { intros s. unfold classify, classify_member, special. destruct (is_hgroup_name (Some s)), (is_matcher (Some s)); done. }
  intros Fa Fb Ha Hb. rewrite (hostcmp_plain cfg) by auto. apply strcasecmp_zero; apply (hostcpy_c_string cfg Hdomain); [apply Fa|apply Fb].
Qed.

(** The hosts of a reference are those of the group it finds. *)
Lemma host_in_located master n k : classify n = GROUP_REFERENCE ->
  match hgroup_list_locate cfg master n with
  | Some g => host_in master n k <-> members master (HGRP_host_list g) k
  | None => ~ host_in master n k
  end.
Proof.
  intros Hc. destruct (hgroup_list_locate cfg master n) as [g|] eqn:El.
  - split.
    + intros (m & Ec & Em & Hu). exists m. split; [done|]. split; [done|].
      inversion Hu as [? ? [_ (g' & El' & Hin)]|? z ? [_ (g' & El' & Hin)] Hu']; subst;
        rewrite El in El'; injection El' as <-; [left; by split|right; by exists z].
    + intros (m & Ec & Em & [[Hin _]|(z & Hin & Hu)]); exists m; (split; [done|]); (split; [done|]).
      * apply tc_once. split; [done|]. by exists g.
      * eapply tc_l; [|exact Hu]. split; [done|]. by exists g.
  - intros (m & _ & _ & Hu). inversion Hu as [? ? [_ (? & ? & _)]|? ? ? [_ (? & ? & _)] _]; congruence.
Qed.

(** The host is found within as many levels as the groups need. *)
Lemma why_named_spec rank master h : groups_ok master -> ranked cfg rank master ->
  Forall (fun g => Forall fits (HGRP_host_list g)) master -> fits h -> classify h = LITERAL_HOST ->
  forall levels g, g ∈ master -> (rank (hkey (HGRP_name g)) < levels)%nat ->
  match hgroup_why_named cfg levels (Some g) h master with
  | Some f => members master (HGRP_host_list g) (hkey h)
  | None => ~ members master (HGRP_host_list g) (hkey h)
  end.
Proof.
  intros Hm Hr Hfits Hh Hch. pose proof Hm as Hm'. unfold groups_ok in Hm'. rewrite Forall_forall in Hm', Hfits.
  induction levels as [|levels IH]; intros g Hg Hl; [lia|]. cbn [hgroup_why_named].
  destruct (Hm' g Hg) as (_ & _ & Hnames). unfold names in Hnames. rewrite Forall_forall in Hnames.
  pose proof (Hfits g Hg) as Hfg. rewrite Forall_forall in Hfg.
  destruct (existsb _ (HGRP_host_list g)) eqn:Ee.
  - apply existsb_exists in Ee as (m & Hin & Em). apply list_elem_of_In in Hin. apply andb_true_iff in Em as [Ec Em].
    apply bool_decide_eq_true in Ec. apply Z.eqb_eq, hostcmp_literal in Em; auto. exists m. split; [done|]. split; [done|]. by left.
  - assert (forall m, m ∈ HGRP_host_list g -> classify m = LITERAL_HOST -> hkey m <> hkey h) as Hno.
    { intros m Hin Ec E. apply not_true_iff_false in Ee. apply Ee. apply existsb_exists. exists m.
      split; [by apply list_elem_of_In|]. rewrite bool_decide_eq_true_2 by done. apply Z.eqb_eq. apply hostcmp_literal; auto. }
    assert (forall n, n ∈ HGRP_host_list g -> classify n = GROUP_REFERENCE ->
      match hgroup_why_named cfg levels (hgroup_list_locate cfg master n) h master with
      | Some f => host_in master n (hkey h) | None => ~ host_in master n (hkey h) end) as Hsub.
    { intros n Hin Hc. pose proof (host_in_located master n (hkey h) Hc) as Hloc.
      destruct (hgroup_list_locate cfg master n) as [g'|] eqn:El; [|by destruct levels].
      destruct (locate_spec cfg Hdomain master n g' Hm (Hnames n Hin) El) as [Hg' Ek].
      specialize (Hr g n Hg Hin Hc). specialize (IH g' Hg' ltac:(rewrite Ek; lia)).
      destruct (hgroup_why_named _ _ _ _ _); by rewrite Hloc. }
    pose proof (first_some_in (fun name => if bool_decide (classify name = GROUP_REFERENCE) then
      hgroup_why_named cfg levels (hgroup_list_locate cfg master name) h master else None) (HGRP_host_list g)) as Hfs.
    destruct (first_some _ (HGRP_host_list g)) as [f|].
    + destruct Hfs as (n & Hin & En). destruct (bool_decide (classify n = GROUP_REFERENCE)) eqn:Ec; [|done].
      apply bool_decide_eq_true in Ec. specialize (Hsub n Hin Ec). rewrite En in Hsub.
      destruct Hsub as (m & Ecm & Em & Hu). exists m. split; [done|]. split; [done|]. right. by exists n.
    + intros (m & Ecm & Em & [[Hin _]|(n & Hin & Hu)]); [by apply (Hno m)|].
      assert (classify n = GROUP_REFERENCE) as Hc by (by inversion Hu as [? ? [? _]|? ? ? [? _]]).
      specialize (Hfs n Hin). rewrite bool_decide_eq_true_2 in Hfs by done. specialize (Hsub n Hin Hc). rewrite Hfs in Hsub.
      apply Hsub. by exists m.
Qed.

(** The reason [hgroup_why] gives agrees with the membership: it finds a route to a host
    exactly when the host is named in the group or in a group it leads to.  (Up to 32 groups,
    which is how deep it looks, and for names that fit into a host name.) *)
Theorem why_agrees master g h :
  groups_ok master -> acyclic cfg master -> (length master <= HGROUP_WHY_MAX_NESTING)%nat ->
  Forall (fun g => Forall fits (HGRP_host_list g)) master -> fits h -> classify h = LITERAL_HOST -> g ∈ master ->
  fst (hgroup_why cfg (Some g) (Some h) master) <> NOT_A_MEMBER <-> members master (HGRP_host_list g) (hkey h).
Proof.
  intros Hm Ha Hlen Hf Hh Hc Hg. destruct (acyclic_bounded cfg master Ha) as (rank & Hr & Hb).
  pose proof (why_named_spec rank master h Hm Hr Hf Hh Hc (S HGROUP_WHY_MAX_NESTING) g Hg) as Hw.
  unfold hgroup_why. destruct (hgroup_why_named _ _ _ _ _) as [f|].
  - specialize (Hw ltac:(specialize (Hb (hkey (HGRP_name g))); lia)). by destruct (strcmp _ _ =? 0).
  - specialize (Hw ltac:(specialize (Hb (hkey (HGRP_name g))); lia)). by split; [|intros H].
Qed.

End props.

(** ** The network of the documentation ([sge_hgroup_HGRP_L.h]) *)

Definition plain : bootstrap := Bootstrap false None.

Definition group (name : string) (members : list string) : hgroup := Hgroup (str name) (map str members) [] 0.

Definition network : list hgroup :=
  [group "@A" ["@C"; "a"]; group "@B" ["@C"; "b"]; group "@C" ["c"; "@E"]; group "@D" ["@E"; "d"];
   group "@E" ["@F"; "e"; "@G"]; group "@F" ["@H"; "f"; "@I"]; group "@G" ["g"]; group "@H" ["h"]; group "@I" ["i"]].

Definition group_e : hgroup := group "@E" ["@F"; "e"; "@G"].

(** The second letter of the key decides. *)
Definition small (k : bytes) : nat :=
  match k with
  | [_; c] => (if (c <? 99)%Z then 4 else if (c =? 99)%Z then 3 else if (c =? 100)%Z then 4 else if (c =? 101)%Z then 2
      else if (c =? 102)%Z then 1 else 0)
  | _ => 0
  end%nat.

Lemma network_ok : groups_ok network.
Proof.
  unfold groups_ok, group_ok, names, network. cbn [map group HGRP_name HGRP_host_list].
  repeat (apply Forall_cons_2; [split; [by repeat constructor|split; [reflexivity|by repeat constructor]]|]). apply Forall_nil_2.
Qed.

Lemma network_acyclic : acyclic plain network.
Proof.
  exists small. intros g m Hg Hin Hc. unfold network in Hg.
  repeat (apply elem_of_cons in Hg as [->|Hg];
    [cbn [group HGRP_host_list map] in Hin; repeat (apply elem_of_cons in Hin as [->|Hin]; [try discriminate Hc; vm_compute; lia|]);
     by apply not_elem_of_nil in Hin|]).
  by apply not_elem_of_nil in Hg.
Qed.

Example documented_references :
  hgroup_find_references plain (Some group_e) (Some network) (Refs (Some []) (Some []) None) =
    (true, Refs (Some (map str ["e"])) (Some (map str ["@F"; "@G"])) None) /\
  hgroup_find_all_references plain 10 (Some group_e) (Some network) (Refs (Some []) (Some []) None) true =
    Some (true, Refs (Some (map str ["e"; "f"; "g"; "h"; "i"])) (Some (map str ["@F"; "@G"; "@H"; "@I"])) None) /\
  hgroup_find_all_referencees plain 10 (Some group_e) network [] = Some (map str ["@C"; "@D"; "@A"; "@B"]).
Proof. repeat split; vm_compute; reflexivity. Qed.

Lemma hosts_of_group_witness :
  exists l, hgroup_find_all_references plain 10 (Some group_e) (Some network) (Refs (Some []) None None) true =
      Some (true, Refs (Some l) None None) /\ NoDup (keys plain l) /\
    forall h, c_string h -> href_list_has_member plain l h = true <-> host_in plain network (HGRP_name group_e) (hkey plain h).
Proof.
  apply (hosts_of_group plain I 10 network group_e); [apply network_ok|apply network_acyclic| |vm_compute; lia].
  pose proof network_ok as H. unfold groups_ok in H. rewrite Forall_forall in H. apply H. unfold network. set_solver.
Defined.

Lemma contains_host_correct_witness :
  (exists master' v, hgroup_list_update_caches plain 10 network 1 = Some (true, master', v) /\
     skeleton master' = skeleton network /\
     forall g h, g ∈ master' -> c_string h ->
       hgroup_has_host_cache (Some g) = true /\
       answers (hgroup_contains_host plain 10 (Some g) (Some h) (Some master')) (host_in plain network (HGRP_name g) (hkey plain h))) /\
  (forall g h, g ∈ network -> c_string h -> HGRP_cache_version g = 0 ->
     answers (hgroup_contains_host plain 10 (Some g) (Some h) (Some network)) (host_in plain network (HGRP_name g) (hkey plain h))).
Proof. apply (contains_host_correct plain I 10 network 1); [apply network_ok|apply network_acyclic|vm_compute; lia]. Defined.

(** A reference from a group to one that leads to it is refused, another one is not. *)
Definition no_name (n : bytes) : string := "".
Definition try_change (new : list string) : option (option change) :=
  fst <$> hgroup_mod_hostlist plain Some no_name [] no_name no_name (fun _ _ => "") 10 group_e (map str new) network None.

Example change_up_refused : try_change ["@F"; "@A"] = Some None.
Proof. vm_compute. reflexivity. Qed.

Example change_sideways : try_change ["@H"; "e"; "x"] =
  Some (Some (Change (map str ["x"]) (map str ["f"; "g"; "i"]) (map str ["@C"; "@D"; "@A"; "@B"; "@E"]))).
Proof. vm_compute. reflexivity. Qed.

Lemma change_checked_exactly_witness :
  exists r al', hgroup_mod_hostlist plain Some no_name [] no_name no_name (fun _ _ => "") 10 group_e
      (map str ["@H"; "e"; "x"]) network None = Some (r, al') /\
    match r with
    | Some ch =>
        acyclic plain (with_group plain network (set_host_list (map str ["@H"; "e"; "x"]) group_e)) /\ al' = None /\
        (forall k, k ∈ keys plain (ch_add_hosts ch) <->
           members plain network (map str ["@H"; "e"; "x"]) k /\ ~ members plain network (HGRP_host_list group_e) k) /\
        (forall k, k ∈ keys plain (ch_rem_hosts ch) <->
           members plain network (HGRP_host_list group_e) k /\ ~ members plain network (map str ["@H"; "e"; "x"]) k) /\
        (forall k, k ∈ keys plain (ch_occupant_groups ch) <-> occupants_of plain network group_e k)
    | None => ~ acyclic plain (with_group plain network (set_host_list (map str ["@H"; "e"; "x"]) group_e))
    end.
Proof.
  assert (group_e ∈ network) as Hg by (unfold network; set_solver).
  apply (change_checked_exactly plain I Some no_name [] no_name no_name (fun _ _ => "") 10 network group_e
    (map str ["@H"; "e"; "x"]) None).
  - apply network_ok.
  - apply network_acyclic.
  - pose proof network_ok as H. unfold groups_ok in H. rewrite Forall_forall in H. by apply H.
  - by left.
  - by repeat constructor.
  - intros n Hn. repeat (apply elem_of_cons in Hn as [->|Hn]; [reflexivity|]). by apply not_elem_of_nil in Hn.
  - intros n Hn Hc. repeat (apply elem_of_cons in Hn as [->|Hn]; [by vm_compute|]). by apply not_elem_of_nil in Hn.
  - intros n Hn _. by exists n.
  - vm_compute. lia.
Defined.

Definition loop : list hgroup := [group "@A" ["@B"; "a"]; group "@B" ["@A"]].

Lemma cycle_never_ends_witness :
  hgroup_find_all_references plain 1000 (Some (group "@A" ["@B"; "a"])) (Some loop) (Refs (Some []) None None) true = None.
Proof.
  apply (cycle_never_ends plain I 1000 loop (group "@A" ["@B"; "a"])).
  - unfold groups_ok, group_ok, names, loop. cbn [map group HGRP_name HGRP_host_list].
    repeat (apply Forall_cons_2; [split; [by repeat constructor|split; [reflexivity|by repeat constructor]]|]). apply Forall_nil_2.
  - split; [by repeat constructor|]. split; [reflexivity|by repeat constructor].
  - apply (tc_l _ _ (str "@B")); [|apply tc_once]; (split; [reflexivity|]; eexists; split; [reflexivity|]); unfold str; simpl; set_solver.
Defined.

Lemma why_agrees_witness :
  fst (hgroup_why plain (Some group_e) (Some (str "I")) network) <> NOT_A_MEMBER <->
  members plain network (HGRP_host_list group_e) (hkey plain (str "I")).
Proof.
  apply (why_agrees plain I network group_e (str "I")); [apply network_ok|apply network_acyclic|vm_compute; lia| | |reflexivity|].
  - unfold network. cbn [map group HGRP_host_list].
    repeat (apply Forall_cons_2; [repeat (apply Forall_cons_2; [split; [by repeat constructor|vm_compute; reflexivity]|]); apply Forall_nil_2|]).
    apply Forall_nil_2.
  - split; [by repeat constructor|vm_compute; reflexivity].
  - unfold network. set_solver.
Defined.

End HGroupProps.
