(* ===== verification/SList.v ===== *)
(** Simple lists: doubly linked lists with nodes of their own ([libs/uti/sge_sl.cc]).

    The nodes lie in a heap; an access to a node that is not there, through a dangling
    pointer, is the result [None].  The functions lock the list's recursive mutex from
    beginning to end, so each is one step.  List pointers and compare functions are never
    null; element pointers may be. *)

From S2P Require Import Prelude.

Module SList.

Inductive sge_sl_direction_t := SGE_SL_FORWARD | SGE_SL_BACKWARD.

(** [sge_malloc] for a size that is not 0: it does not return when there is no memory. *)
Class Malloc := {
  malloc_at : gset positive -> positive;
  malloc_fresh X : malloc_at X ∉ X;
}.

(** What the C library's [qsort] asks of a comparison. *)
Definition consistent {D} (compare : D -> D -> Z) : Prop :=
  (forall a b, compare a b <= 0 \/ compare b a <= 0) /\
  (forall a b c, compare a b <= 0 -> compare b c <= 0 -> compare a c <= 0).

Class Qsort (D : Type) := {
  qsort : (D -> D -> Z) -> list D -> list D;
  qsort_perm compare l : consistent compare -> qsort compare l ≡ₚ l;
  qsort_sorted compare l : consistent compare -> StronglySorted (fun a b => compare a b <= 0) (qsort compare l);
}.

Section WithData.
Context {D : Type}.

Record sge_sl_elem_t := Elem { prev : option positive; next : option positive; data : D }.
Abbreviation heap := (gmap positive sge_sl_elem_t).

Record sge_sl_list_t := SL { first : option positive; last : option positive; elements : Z }.

Definition set_prev (h : heap) (p : positive) (v : option positive) : option heap :=
  e ← h !! p; Some (<[p := Elem v (next e) (data e)]> h).
Definition set_next (h : heap) (p : positive) (v : option positive) : option heap :=
  e ← h !! p; Some (<[p := Elem (prev e) v (data e)]> h).
Definition set_data (h : heap) (p : positive) (d : D) : option heap :=
  e ← h !! p; Some (<[p := Elem (prev e) (next e) d]> h).

Definition set_first (l : sge_sl_list_t) (v : option positive) := SL v (last l) (elements l).
Definition set_last (l : sge_sl_list_t) (v : option positive) := SL (first l) v (elements l).
Definition add_elements (l : sge_sl_list_t) (n : Z) := SL (first l) (last l) (u32 (elements l + n)).

Definition sge_sl_create : sge_sl_list_t := SL None None 0.

(** ** Elements *)

Definition sge_sl_elem_create `{Malloc} (h : heap) (d : D) : heap * positive :=
  let p := malloc_at (dom h) in (<[p := Elem None None d]> h, p).

(** The payloads that were passed to the destroy function, if there is one, come along. *)
Definition sge_sl_elem_destroy (h : heap) (elem : option positive) (destroy : bool) : option (heap * list D) :=
  match elem with
  | None => Some (h, [])
  | Some p => e ← h !! p; Some (delete p h, if destroy then [data e] else [])
  end.

Definition sge_sl_elem_data (h : heap) (elem : option positive) : option (option D) :=
  match elem with
  | None => Some None
  | Some p => e ← h !! p; Some (Some (data e))
  end.

Definition sge_sl_dechain (h : heap) (l : sge_sl_list_t) (elem : option positive) : option (heap * sge_sl_list_t) :=
  match elem with
  | None => Some (h, l)
  | Some p =>
      e ← h !! p;
      '(h, l) ← match prev e with
                | Some q => h ← set_next h q (next e); Some (h, l)
                | None => Some (h, set_first l (next e))
                end;
      e ← h !! p;
      '(h, l) ← match next e with
                | Some q => h ← set_prev h q (prev e); Some (h, l)
                | None => Some (h, set_last l (prev e))
                end;
      h ← set_next h p None;
      h ← set_prev h p None;
      Some (h, add_elements l (-1))
  end.

Definition sge_sl_insert_before (h : heap) (l : sge_sl_list_t) (new_elem elem : positive) :
    option (heap * sge_sl_list_t) :=
  e ← h !! elem;
  '(h, l) ←
    match prev e with
    | None =>
        h ← set_prev h elem (Some new_elem);
        h ← set_next h new_elem (Some elem);
        Some (h, set_first l (Some new_elem))
    | Some last =>
        h ← set_next h last (Some new_elem);
        h ← set_prev h elem (Some new_elem);
        h ← set_prev h new_elem (Some last);
        h ← set_next h new_elem (Some elem);
        Some (h, l)
    end;
  Some (h, add_elements l 1).

Definition sge_sl_append_after (h : heap) (l : sge_sl_list_t) (new_elem elem : positive) :
    option (heap * sge_sl_list_t) :=
  e ← h !! elem;
  '(h, l) ←
    match next e with
    | None =>
        h ← set_next h elem (Some new_elem);
        h ← set_prev h new_elem (Some elem);
        Some (h, set_last l (Some new_elem))
    | Some current =>
        h ← set_next h elem (Some new_elem);
        h ← set_prev h current (Some new_elem);
        h ← set_prev h new_elem (Some elem);
        h ← set_next h new_elem (Some current);
        Some (h, l)
    end;
  Some (h, add_elements l 1).

(** One step of a walk. *)
Definition step_of (direction : sge_sl_direction_t) (e : sge_sl_elem_t) : option positive :=
  match direction with SGE_SL_FORWARD => next e | SGE_SL_BACKWARD => prev e end.
Definition end_of (direction : sge_sl_direction_t) (l : sge_sl_list_t) : option positive :=
  match direction with SGE_SL_FORWARD => first l | SGE_SL_BACKWARD => last l end.

Definition sge_sl_elem_next (h : heap) (l : sge_sl_list_t) (elem : option positive) (direction : sge_sl_direction_t) :
    option (option positive) :=
  match elem with
  | Some p => e ← h !! p; Some (step_of direction e)
  | None => Some (end_of direction l)
  end.

(** [compare] is the compare function with the key; [None] also when the fuel is gone. *)
Fixpoint search_loop (fuel : nat) (h : heap) (current : option positive) (compare : D -> Z)
    (direction : sge_sl_direction_t) : option (option positive) :=
  match current with
  | None => Some None
  | Some p =>
      match fuel with
      | O => None
      | S fuel =>
          e ← h !! p;
          if negb (compare (data e) =? 0) then search_loop fuel h (step_of direction e) compare direction
          else Some (Some p)
      end
  end.

Definition sge_sl_elem_search (h : heap) (l : sge_sl_list_t) (elem : option positive) (compare : D -> Z)
    (direction : sge_sl_direction_t) : option (option positive) :=
  next ← sge_sl_elem_next h l elem direction;
  search_loop (size h) h next compare direction.

(** The payloads a walk with [sge_sl_elem_next] comes by. *)
Fixpoint walk_loop (fuel : nat) (h : heap) (l : sge_sl_list_t) (elem : option positive)
    (direction : sge_sl_direction_t) : option (list D) :=
  match elem with
  | None => Some []
  | Some p =>
      match fuel with
      | O => None
      | S fuel =>
          e ← h !! p;
          next ← sge_sl_elem_next h l elem direction;
          ds ← walk_loop fuel h l next direction;
          Some (data e :: ds)
      end
  end.

Definition for_each_sl (h : heap) (l : sge_sl_list_t) (direction : sge_sl_direction_t) : option (list D) :=
  elem ← sge_sl_elem_next h l None direction;
  walk_loop (size h) h l elem direction.

(** ** Lists *)

Fixpoint destroy_loop (fuel : nat) (h : heap) (current : option positive) (destroy : bool) : option (heap * list D) :=
  match current with
  | None => Some (h, [])
  | Some p =>
      match fuel with
      | O => None
      | S fuel =>
          e ← h !! p;
          '(h, ds) ← sge_sl_elem_destroy h (Some p) destroy;
          '(h, ds') ← destroy_loop fuel h (next e) destroy;
          Some (h, ds ++ ds')
      end
  end.

Definition sge_sl_destroy (h : heap) (l : sge_sl_list_t) (destroy : bool) : option (heap * list D) :=
  destroy_loop (size h) h (first l) destroy.

Definition sge_sl_elem_insert (h : heap) (l : sge_sl_list_t) (new_elem : positive) (direction : sge_sl_direction_t) :
    option (heap * sge_sl_list_t) :=
  match direction with
  | SGE_SL_FORWARD =>
      h ← match first l with Some f => set_prev h f (Some new_elem) | None => Some h end;
      h ← set_next h new_elem (first l);
      let l := set_first l (Some new_elem) in
      Some (h, add_elements (match last l with None => set_last l (Some new_elem) | Some _ => l end) 1)
  | SGE_SL_BACKWARD =>
      h ← match last l with Some f => set_next h f (Some new_elem) | None => Some h end;
      h ← set_prev h new_elem (last l);
      let l := set_last l (Some new_elem) in
      Some (h, add_elements (match first l with None => set_first l (Some new_elem) | Some _ => l end) 1)
  end.

Definition sge_sl_insert `{Malloc} (h : heap) (l : sge_sl_list_t) (d : D) (direction : sge_sl_direction_t) :
    option (heap * sge_sl_list_t) :=
  let '(h, new_elem) := sge_sl_elem_create h d in
  sge_sl_elem_insert h l new_elem direction.

(** The element before the place and the one behind it. *)
Fixpoint place_loop (fuel : nat) (h : heap) (last current : option positive) (greater : D -> bool) :
    option (option positive * option positive) :=
  match current with
  | None => Some (last, None)
  | Some p =>
      match fuel with
      | O => None
      | S fuel =>
          e ← h !! p;
          if greater (data e) then place_loop fuel h (Some p) (next e) greater else Some (last, Some p)
      end
  end.

Definition sge_sl_insert_search `{Malloc} (h : heap) (l : sge_sl_list_t) (d : D) (compare : D -> D -> Z) :
    option (heap * sge_sl_list_t) :=
  let '(h, new_elem) := sge_sl_elem_create h d in
  '(last, current) ← place_loop (size h) h None (first l) (fun x => 0 <? compare d x);
  '(h, l) ←
    match last, current with
    | None, None => Some (h, SL (Some new_elem) (Some new_elem) (elements l))
    | None, Some c =>
        h ← set_prev h c (Some new_elem);
        h ← set_next h new_elem (Some c);
        Some (h, set_first l (Some new_elem))
    | Some a, None =>
        h ← set_next h a (Some new_elem);
        h ← set_prev h new_elem (Some a);
        Some (h, set_last l (Some new_elem))
    | Some a, Some c =>
        h ← set_next h a (Some new_elem);
        h ← set_prev h c (Some new_elem);
        h ← set_prev h new_elem (Some a);
        h ← set_next h new_elem (Some c);
        Some (h, l)
    end;
  Some (h, add_elements l 1).

Definition sge_sl_data (h : heap) (l : sge_sl_list_t) (direction : sge_sl_direction_t) : option (option D) :=
  match end_of direction l with
  | Some p => e ← h !! p; Some (Some (data e))
  | None => Some None
  end.

Definition sge_sl_data_search (h : heap) (l : sge_sl_list_t) (compare : D -> Z) (direction : sge_sl_direction_t) :
    option (option D) :=
  elem ← sge_sl_elem_search h l None compare direction;
  sge_sl_elem_data h elem.

Definition sge_sl_delete (h : heap) (l : sge_sl_list_t) (destroy : bool) (direction : sge_sl_direction_t) :
    option (heap * sge_sl_list_t * list D) :=
  let elem := end_of direction l in
  '(h, l) ← sge_sl_dechain h l elem;
  '(h, ds) ← sge_sl_elem_destroy h elem destroy;
  Some (h, l, ds).

(** The compare function with the key, or no key. *)
Definition sge_sl_delete_search (h : heap) (l : sge_sl_list_t) (compare : option (D -> Z)) (destroy : bool)
    (direction : sge_sl_direction_t) : option (heap * sge_sl_list_t * list D) :=
  match compare with
  | None => Some (h, l, [])
  | Some compare =>
      elem ← sge_sl_elem_search h l None compare direction;
      '(h, l) ← sge_sl_dechain h l elem;
      '(h, ds) ← sge_sl_elem_destroy h elem destroy;
      Some (h, l, ds)
  end.

Definition sge_sl_get_elem_count (l : sge_sl_list_t) : Z := elements l.

(** The array has [room] for more pointers; writing behind it is [None]. *)
Fixpoint fill (room : nat) (h : heap) (elem : option positive) : option (list D) :=
  match elem with
  | None => Some []
  | Some p =>
      match room with
      | O => None
      | S room => e ← h !! p; a ← fill room h (next e); Some (data e :: a)
      end
  end.

Fixpoint write_back (pointer_array : list D) (h : heap) (elem : option positive) : option heap :=
  match elem with
  | None => Some h
  | Some p =>
      match pointer_array with
      | [] => None
      | d :: a => h ← set_data h p d; e ← h !! p; write_back a h (next e)
      end
  end.

(** [sge_malloc] of 0 bytes returns null.  [None] also when the array is not filled up. *)
Definition sge_sl_sort `{Qsort D} (h : heap) (l : sge_sl_list_t) (compare : D -> D -> Z) : option (bool * heap) :=
  if elements l =? 0 then Some (false, h)
  else
    a ← fill (Z.to_nat (elements l)) h (first l);
    if Z.of_nat (length a) =? elements l then
      h ← write_back (qsort compare a) h (first l);
      Some (true, h)
    else None.

End WithData.

Arguments sge_sl_elem_t : clear implicits.

End SList.
