(* ===== verification/SListFacts.v ===== *)
(** SListFacts: what the pointers of a simple list mean, and what each operation makes of
    them. *)

From S2P Require Import Prelude SList.
Import SList.

Module SListFacts.

Section Segments.
Context {D : Type}.
Abbreviation heap := (gmap positive (sge_sl_elem_t D)).
Implicit Types (h : heap) (xs : list (positive * D)).

(** ** Segments of a list *)

Definition hd_ptr xs (qn : option positive) : option positive :=
  match xs with [] => qn | (p, _) :: _ => Some p end.
Fixpoint last_ptr (pp : option positive) xs : option positive :=
  match xs with [] => pp | (p, _) :: xs => last_ptr (Some p) xs end.

(** The nodes [xs] with their payloads, between [pp] and [qn]. *)
Fixpoint dseg h (pp : option positive) xs (qn : option positive) : Prop :=
  match xs with
  | [] => True
  | (p, d) :: xs => h !! p = Some (Elem pp (hd_ptr xs qn) d) /\ dseg h (Some p) xs qn
  end.

Abbreviation nodes xs := (xs.*1).

Definition same_but h h' (ps : list positive) : Prop := forall q, q ∉ ps -> h' !! q = h !! q.

Record dlist h (l : sge_sl_list_t) xs : Prop := {
  dl_nodup : NoDup (nodes xs);
  dl_first : first l = hd_ptr xs None;
  dl_last : last l = last_ptr None xs;
  dl_elements : elements l = u32 (length xs);
  dl_seg : dseg h None xs None;
}.

Lemma hd_ptr_app xs ys qn : hd_ptr (xs ++ ys) qn = hd_ptr xs (hd_ptr ys qn).
Proof. by destruct xs as [|[]]. Qed.

Lemma last_ptr_app pp xs ys : last_ptr pp (xs ++ ys) = last_ptr (last_ptr pp xs) ys.
Proof. revert pp. by induction xs as [|[p d] xs IH]; intros; simpl. Qed.

Lemma dseg_app h pp xs ys qn :
  dseg h pp (xs ++ ys) qn <-> dseg h pp xs (hd_ptr ys qn) /\ dseg h (last_ptr pp xs) ys qn.
Proof. revert pp. induction xs as [|[p d] xs IH]; intros; simpl; [tauto|]. rewrite hd_ptr_app, IH. tauto. Qed.

Lemma dseg_frame h h' pp xs qn : (forall q, q ∈ nodes xs -> h' !! q = h !! q) -> dseg h pp xs qn -> dseg h' pp xs qn.
Proof.
  revert pp. induction xs as [|[p d] xs IH]; intros pp Hf; simpl; [done|]. intros [H1 H2]. split.
  - rewrite Hf; [done|]. left.
  - apply IH; [|done]. intros q Hq. apply Hf. by right.
Qed.

Lemma dseg_node h pp xs p d ys qn :
  dseg h pp (xs ++ (p, d) :: ys) qn -> h !! p = Some (Elem (last_ptr pp xs) (hd_ptr ys qn) d).
Proof. rewrite dseg_app. simpl. tauto. Qed.

Lemma dseg_in_dom h pp xs qn q : dseg h pp xs qn -> q ∈ nodes xs -> q ∈ dom h.
Proof.
  revert pp. induction xs as [|[p d] xs IH]; intros pp; simpl; [by intros _ ?%elem_of_nil|].
  intros [H1 H2] [->|Hq]%elem_of_cons; [by apply elem_of_dom_2 in H1|]. by eapply IH.
Qed.

Lemma dseg_size h pp xs qn : NoDup (nodes xs) -> dseg h pp xs qn -> (length xs <= size h)%nat.
Proof.
  intros Hn Hs. rewrite <- (length_fmap fst), <- (size_list_to_set (C:=gset positive)) by done. rewrite <- size_dom.
  apply subseteq_size. intros q. rewrite elem_of_list_to_set. by eapply dseg_in_dom.
Qed.

(** Changing the end of a segment, on either side. *)
Lemma last_snoc xs : xs = [] \/ exists ys p d, xs = ys ++ [(p, d)].
Proof. destruct xs as [|[p d] xs] using rev_ind; [by left | right; eauto]. Qed.

Lemma dseg_set_next h pp xs a d qn v :
  NoDup (nodes (xs ++ [(a, d)])) -> dseg h pp (xs ++ [(a, d)]) qn ->
  exists h', set_next h a v = Some h' /\ dseg h' pp (xs ++ [(a, d)]) v /\ same_but h h' [a].
Proof.
  rewrite fmap_app. simpl. intros (_ & Hn & _)%NoDup_app [H1 [H2 _]]%dseg_app. unfold set_next. rewrite H2. simpl.
  eexists. split; [done|]. split.
  - apply dseg_app. split; [|split; [|done]].
    + eapply dseg_frame; [|exact H1]. intros q Hq. rewrite lookup_insert_ne; [done|]. intros ->. eapply Hn; [done|]. left.
    + by rewrite lookup_insert_eq.
  - intros q Hq. rewrite lookup_insert_ne; [done|]. intros ->. apply Hq. left.
Qed.

Lemma dseg_set_prev h pp xs b d qn v :
  NoDup (nodes ((b, d) :: xs)) -> dseg h pp ((b, d) :: xs) qn ->
  exists h', set_prev h b v = Some h' /\ dseg h' v ((b, d) :: xs) qn /\ same_but h h' [b].
Proof.
  intros Hn [H1 H2]. apply NoDup_cons in Hn as [Hn _]. unfold set_prev. rewrite H1. simpl. eexists. split; [done|]. split.
  - split; [by rewrite lookup_insert_eq|]. eapply dseg_frame; [|exact H2]. intros q Hq. rewrite lookup_insert_ne; [done|].
    by intros ->.
  - intros q Hq. rewrite lookup_insert_ne; [done|]. intros ->. apply Hq. left.
Qed.

Lemma same_but_trans h1 h2 h3 ps qs : same_but h1 h2 ps -> same_but h2 h3 qs -> same_but h1 h3 (ps ++ qs).
Proof. intros H1 H2 q Hq. rewrite elem_of_app in Hq. rewrite H2, H1; tauto. Qed.

Lemma same_but_mono h h' ps qs : same_but h h' ps -> ps ⊆ qs -> same_but h h' qs.
Proof. intros H Hs q Hq. apply H. by intros ?%Hs. Qed.

(** A segment another one does not touch. *)
Lemma dseg_outside h h' ps pp xs qn : same_but h h' ps -> nodes xs ## ps -> dseg h pp xs qn -> dseg h' pp xs qn.
Proof. intros H Hd. apply dseg_frame. intros q Hq. apply H. by intros ?%(Hd q). Qed.

(** ** Linking *)

Lemma last_ptr_snoc pp xs a d : last_ptr pp (xs ++ [(a, d)]) = Some a.
Proof. by rewrite last_ptr_app. Qed.

Lemma last_ptr_some xs : xs <> [] -> exists z, forall pp, last_ptr pp xs = Some z.
Proof.
  intros Hx. destruct (last_snoc xs) as [->|(ys & a & d & ->)]; [done|]. exists a. intros. apply last_ptr_snoc.
Qed.

Lemma link_next h pp xs qn v : NoDup (nodes xs) -> dseg h pp xs qn -> xs <> [] ->
  exists q h', last_ptr pp xs = Some q /\ q ∈ nodes xs /\ set_next h q v = Some h' /\ dseg h' pp xs v /\ same_but h h' [q].
Proof.
  intros Hn Hs Hx. destruct (last_snoc xs) as [->|(ys & a & d & ->)]; [done|].
  destruct (dseg_set_next h pp ys a d qn v Hn Hs) as (h' & H1 & H2 & H3).
  exists a, h'. rewrite last_ptr_snoc, fmap_app. split; [done|]. split; [set_solver|]. done.
Qed.

Lemma link_prev h pp xs qn v : NoDup (nodes xs) -> dseg h pp xs qn -> xs <> [] ->
  exists q h', hd_ptr xs qn = Some q /\ q ∈ nodes xs /\ set_prev h q v = Some h' /\ dseg h' v xs qn /\ same_but h h' [q].
Proof.
  intros Hn Hs Hx. destruct xs as [|[b d] xs]; [done|].
  destruct (dseg_set_prev h pp xs b d qn v Hn Hs) as (h' & H1 & H2 & H3). exists b, h'. split; [done|]. split; [set_solver|]. done.
Qed.

Lemma set_next_node h p e v : h !! p = Some e ->
  exists h', set_next h p v = Some h' /\ h' !! p = Some (Elem (prev e) v (data e)) /\ same_but h h' [p].
Proof.
  intros H. unfold set_next. rewrite H. simpl. eexists. split; [done|]. split; [by rewrite lookup_insert_eq|].
  intros q Hq. apply lookup_insert_ne. set_solver.
Qed.

Lemma set_prev_node h p e v : h !! p = Some e ->
  exists h', set_prev h p v = Some h' /\ h' !! p = Some (Elem v (next e) (data e)) /\ same_but h h' [p].
Proof.
  intros H. unfold set_prev. rewrite H. simpl. eexists. split; [done|]. split; [by rewrite lookup_insert_eq|].
  intros q Hq. apply lookup_insert_ne. set_solver.
Qed.

Lemma nodup_parts (l1 l2 : list (positive * D)) p d : NoDup (nodes (l1 ++ (p, d) :: l2)) ->
  NoDup (nodes l1) /\ NoDup (nodes l2) /\ p ∉ nodes l1 /\ p ∉ nodes l2 /\ nodes l1 ## nodes l2.
Proof.
  rewrite fmap_app. simpl. intros (H1 & H2 & [H3 H4]%NoDup_cons)%NoDup_app. repeat split; try done; set_solver.
Qed.

(** Taking a node out of the chain: both neighbours are linked over it. *)
Lemma dechain_spec h (l : sge_sl_list_t) l1 p d l2 : dlist h l (l1 ++ (p, d) :: l2) ->
  exists h' l', sge_sl_dechain h l (Some p) = Some (h', l') /\ dlist h' l' (l1 ++ l2) /\
    h' !! p = Some (Elem None None d) /\ same_but h h' (nodes (l1 ++ (p, d) :: l2)).
Proof.
  intros [Hn Hf Hl He Hs]. pose proof (dseg_node _ _ _ _ _ _ _ Hs) as Hp.
  apply dseg_app in Hs as [Hs1 [_ Hs2]]. destruct (nodup_parts _ _ _ _ Hn) as (Hn1 & Hn2 & Hp1 & Hp2 & Hd).
  unfold sge_sl_dechain. rewrite Hp. simpl.
  assert (exists h1 l', (match last_ptr None l1 with
      | Some q => h ← set_next h q (hd_ptr l2 None); Some (h, l)
      | None => Some (h, set_first l (hd_ptr l2 None)) end) = Some (h1, l') /\
      dseg h1 None l1 (hd_ptr l2 None) /\ same_but h h1 (nodes l1) /\
      first l' = hd_ptr l1 (hd_ptr l2 None) /\ last l' = last l /\ elements l' = elements l) as (h1 & l1' & E1 & S1 & B1 & F1 & L1 & N1).
  { destruct (decide (l1 = [])) as [->|Hne]; [by eexists _, _|].
    destruct (link_next h None l1 _ (hd_ptr l2 None) Hn1 Hs1 Hne) as (q & h1 & -> & Hq & -> & H1 & H2).
    exists h1, l. split; [done|]. split; [done|]. split; [eapply same_but_mono; [done|]; set_solver|].
    split; [|done]. rewrite Hf. by destruct l1 as [|[]]. }
  rewrite E1. simpl. rewrite B1, Hp by done. simpl.
  assert (exists h2 l', (match hd_ptr l2 None with
      | Some q => h ← set_prev h1 q (last_ptr None l1); Some (h, l1')
      | None => Some (h1, set_last l1' (last_ptr None l1)) end) = Some (h2, l') /\
      dseg h2 (last_ptr None l1) l2 None /\ same_but h1 h2 (nodes l2) /\
      last l' = last_ptr (last_ptr None l1) l2 /\ first l' = first l1' /\ elements l' = elements l) as (h2 & l2' & E2 & S2 & B2 & F2 & L2 & N2).
  { assert (dseg h1 (Some p) l2 None) as S2 by (eapply dseg_outside; [exact B1 | set_solver | done]).
    destruct (decide (l2 = [])) as [->|Hne]; [by eexists _, _|].
    destruct (link_prev h1 _ l2 _ (last_ptr None l1) Hn2 S2 Hne) as (q & h2 & -> & Hq & -> & H1 & H2).
    exists h2, l1'. split; [done|]. split; [done|]. split; [eapply same_but_mono; [done|]; set_solver|].
    split; [|done]. rewrite L1, Hl, last_ptr_app. by destruct l2 as [|[]]. }
  rewrite E2. simpl. assert (h2 !! p = h !! p) as Hp' by (rewrite B2, B1; done). rewrite Hp in Hp'.
  destruct (set_next_node _ _ _ None Hp') as (h3 & -> & Hp3 & B3). simpl.
  destruct (set_prev_node _ _ _ None Hp3) as (h4 & -> & Hp4 & B4). simpl.
  exists h4, (add_elements l2' (-1)). split; [done|]. split; [|split; [done|]].
  - split; simpl.
    + rewrite fmap_app. apply NoDup_app. done.
    + by rewrite L2, F1, hd_ptr_app.
    + by rewrite F2, last_ptr_app.
    + rewrite N2, He, !length_app. simpl. unfold u32. rewrite Zplus_mod_idemp_l. f_equal. lia.
    + apply dseg_app. split.
      * eapply (dseg_outside h3); [exact B4|set_solver|]. eapply (dseg_outside h2); [exact B3|set_solver|].
        eapply (dseg_outside h1); [exact B2|done|done].
      * eapply (dseg_outside h3); [exact B4|set_solver|]. eapply (dseg_outside h2); [exact B3|set_solver|]. done.
  - eapply same_but_mono; [eapply same_but_trans; [eapply same_but_trans; [eapply same_but_trans|]|]; eassumption|].
    rewrite fmap_app. set_solver.
Qed.

(** A node on its way into the chain between [l1] and [l2]: its own pointers [a] and [b], and
    the pointers [q1] and [q2] of its neighbours to be. *)
Record half_linked h0 h l1 p l2 (a b q1 q2 : option positive) (d : D) : Prop := {
  hl_nodup : NoDup (nodes (l1 ++ (p, d) :: l2));
  hl_node : h !! p = Some (Elem a b d);
  hl_left : dseg h None l1 q1;
  hl_right : dseg h q2 l2 None;
  hl_same : same_but h0 h (p :: nodes (l1 ++ l2));
}.

Lemma half_linked_step h0 h h' q l1 p l2 a b q1 q2 d a' b' q1' q2' :
  half_linked h0 h l1 p l2 a b q1 q2 d -> same_but h h' [q] -> q ∈ p :: nodes (l1 ++ l2) ->
  h' !! p = Some (Elem a' b' d) -> dseg h' None l1 q1' -> dseg h' q2' l2 None ->
  half_linked h0 h' l1 p l2 a' b' q1' q2' d.
Proof.
  intros [Hn _ _ _ Hs] Hq Hin Hp H1 H2. split; try done.
  eapply same_but_mono; [eapply same_but_trans; eassumption|]. set_solver.
Qed.

Lemma link_last h0 h l1 p l2 a b q1 q2 d v : half_linked h0 h l1 p l2 a b q1 q2 d -> l1 <> [] ->
  exists q h', last_ptr None l1 = Some q /\ set_next h q v = Some h' /\ half_linked h0 h' l1 p l2 a b v q2 d.
Proof.
  intros H Hne. destruct (nodup_parts _ _ _ _ (hl_nodup _ _ _ _ _ _ _ _ _ _ H)) as (Hn1 & _ & Hp1 & _ & Hd).
  destruct (link_next h None l1 q1 v Hn1 (hl_left _ _ _ _ _ _ _ _ _ _ H) Hne) as (q & h' & Hl & Hq & Hs & H1 & H2).
  exists q, h'. split; [done|]. split; [done|]. eapply half_linked_step; [done|done| | |done|].
  - rewrite fmap_app. set_solver.
  - rewrite H2 by set_solver. apply H.
  - eapply dseg_outside; [done|set_solver|]. apply H.
Qed.

Lemma link_head h0 h l1 p l2 a b q1 q2 d v : half_linked h0 h l1 p l2 a b q1 q2 d -> l2 <> [] ->
  exists q h', hd_ptr l2 None = Some q /\ set_prev h q v = Some h' /\ half_linked h0 h' l1 p l2 a b q1 v d.
Proof.
  intros H Hne. destruct (nodup_parts _ _ _ _ (hl_nodup _ _ _ _ _ _ _ _ _ _ H)) as (_ & Hn2 & _ & Hp2 & Hd).
  destruct (link_prev h q2 l2 None v Hn2 (hl_right _ _ _ _ _ _ _ _ _ _ H) Hne) as (q & h' & Hl & Hq & Hs & H1 & H2).
  exists q, h'. split; [done|]. split; [done|]. eapply half_linked_step; [done|done| | | |done].
  - rewrite fmap_app. set_solver.
  - rewrite H2 by set_solver. apply H.
  - eapply dseg_outside; [done|set_solver|]. apply H.
Qed.

Lemma link_node h0 h l1 p l2 a b q1 q2 d : half_linked h0 h l1 p l2 a b q1 q2 d ->
  (forall v, exists h', set_next h p v = Some h' /\ half_linked h0 h' l1 p l2 a v q1 q2 d) /\
  (forall v, exists h', set_prev h p v = Some h' /\ half_linked h0 h' l1 p l2 v b q1 q2 d).
Proof.
  intros H. destruct (nodup_parts _ _ _ _ (hl_nodup _ _ _ _ _ _ _ _ _ _ H)) as (_ & _ & Hp1 & Hp2 & _).
  pose proof (hl_node _ _ _ _ _ _ _ _ _ _ H) as Hp.
  split; intros v.
  - destruct (set_next_node _ _ _ v Hp) as (h' & E & Hp' & B). exists h'. split; [done|].
    eapply half_linked_step; [done|done|by left|done| |]; (eapply dseg_outside; [done|set_solver|apply H]).
  - destruct (set_prev_node _ _ _ v Hp) as (h' & E & Hp' & B). exists h'. split; [done|].
    eapply half_linked_step; [done|done|by left|done| |]; (eapply dseg_outside; [done|set_solver|apply H]).
Qed.

Lemma half_linked_start h (l : sge_sl_list_t) l1 p l2 d :
  dlist h l (l1 ++ l2) -> h !! p = Some (Elem None None d) -> p ∉ nodes (l1 ++ l2) ->
  half_linked h h l1 p l2 None None (hd_ptr l2 None) (last_ptr None l1) d.
Proof.
  intros [Hn _ _ _ [H1 H2]%dseg_app] Hp Hnew. split; try done. rewrite fmap_app in *. simpl.
  apply NoDup_app in Hn as (? & ? & ?). apply NoDup_app. split; [done|]. split; [set_solver|].
  apply NoDup_cons. set_solver.
Qed.

(** What the operations that insert a node have in common. *)
Definition inserted h (h' : heap) (l l' : sge_sl_list_t) l1 p (d : D) l2 : Prop :=
  dlist h' l' (l1 ++ (p, d) :: l2) /\ same_but h h' (p :: nodes (l1 ++ l2)).

Lemma half_linked_end h0 h (l l' : sge_sl_list_t) l1 p l2 d : dlist h0 l (l1 ++ l2) ->
  half_linked h0 h l1 p l2 (last_ptr None l1) (hd_ptr l2 None) (Some p) (Some p) d ->
  first l' = hd_ptr l1 (Some p) -> last l' = last_ptr (Some p) l2 -> elements l' = u32 (elements l + 1) ->
  inserted h0 h l l' l1 p d l2.
Proof.
  intros Hd [Hn Hp H1 H2 Hs] Ef El En. split; [|done]. split; try done.
  - by rewrite Ef, hd_ptr_app.
  - by rewrite El, last_ptr_app.
  - rewrite En, (dl_elements _ _ _ Hd), !length_app. simpl. unfold u32. rewrite Zplus_mod_idemp_l. f_equal. lia.
  - apply dseg_app. done.
Qed.

(** Inserting a new node at one end, before and behind a node. *)
Lemma elem_insert_spec h (l : sge_sl_list_t) xs p d direction :
  dlist h l xs -> h !! p = Some (Elem None None d) -> p ∉ nodes xs ->
  exists h' l', sge_sl_elem_insert h l p direction = Some (h', l') /\
    match direction with
    | SGE_SL_FORWARD => inserted h h' l l' [] p d xs
    | SGE_SL_BACKWARD => inserted h h' l l' xs p d []
    end.
Proof.
  intros Hd Hp Hnew. destruct direction; simpl.
  - pose proof (half_linked_start h l [] p xs d Hd Hp Hnew) as H. rewrite (dl_first _ _ _ Hd).
    destruct (decide (xs = [])) as [->|Hne].
    + simpl. destruct (proj1 (link_node _ _ _ _ _ _ _ _ _ _ H) None) as (h1 & -> & H1). simpl.
      rewrite (dl_last _ _ _ Hd). eexists _, _. split; [done|]. eapply half_linked_end; try done. destruct H1. by split.
    + destruct (link_head _ _ _ _ _ _ _ _ _ _ (Some p) H Hne) as (q & h1 & E & S1 & H1). rewrite E. simpl. rewrite S1. simpl.
      destruct (proj1 (link_node _ _ _ _ _ _ _ _ _ _ H1) (Some q)) as (h2 & -> & H2). simpl.
      destruct (last_ptr_some xs Hne) as [z Hz]. pose proof (dl_last _ _ _ Hd) as Hl. rewrite Hz in Hl. rewrite Hl.
      eexists _, _. split; [done|]. eapply half_linked_end; [done| |done|simpl|done].
      * rewrite E. destruct H2. by split.
      * by rewrite Hz.
  - rewrite <- (app_nil_r xs) in Hd, Hnew.
    pose proof (half_linked_start h l xs p [] d Hd Hp Hnew) as H. rewrite app_nil_r in Hd. rewrite (dl_last _ _ _ Hd).
    destruct (decide (xs = [])) as [->|Hne].
    + simpl. destruct (proj2 (link_node _ _ _ _ _ _ _ _ _ _ H) None) as (h1 & -> & H1). simpl.
      rewrite (dl_first _ _ _ Hd). eexists _, _. split; [done|]. eapply half_linked_end; try done. destruct H1. by split.
    + destruct (link_last _ _ _ _ _ _ _ _ _ _ (Some p) H Hne) as (q & h1 & E & S1 & H1). rewrite E. simpl. rewrite S1. simpl.
      destruct (proj2 (link_node _ _ _ _ _ _ _ _ _ _ H1) (Some q)) as (h2 & -> & H2). simpl.
      assert (exists z, forall qn, hd_ptr xs qn = Some z) as [z Hz] by (destruct xs as [|[z ?]]; [done|by exists z]).
      pose proof (dl_first _ _ _ Hd) as Hf. rewrite Hz in Hf. rewrite Hf.
      eexists _, _. split; [done|]. eapply half_linked_end; [by rewrite app_nil_r| |simpl|done|done].
      * rewrite E. destruct H2. by split.
      * by rewrite Hz.
Qed.

(** The four pointers around a new node may be set in any order. *)
Lemma insert_before_spec h (l : sge_sl_list_t) l1 e de l2 p d :
  dlist h l (l1 ++ (e, de) :: l2) -> h !! p = Some (Elem None None d) -> p ∉ nodes (l1 ++ (e, de) :: l2) ->
  exists h' l', sge_sl_insert_before h l p e = Some (h', l') /\ inserted h h' l l' l1 p d ((e, de) :: l2).
Proof.
  intros Hd Hp Hnew. pose proof (half_linked_start h l _ p _ d Hd Hp Hnew) as H.
  unfold sge_sl_insert_before. rewrite (dseg_node _ _ _ _ _ _ _ (dl_seg _ _ _ Hd)). simpl.
  destruct (decide (l1 = [])) as [->|Hne].
  - simpl. destruct (link_head _ _ _ _ _ _ _ _ _ _ (Some p) H) as (q & h1 & [= <-] & -> & H1); [done|]. simpl.
    destruct (proj1 (link_node _ _ _ _ _ _ _ _ _ _ H1) (Some e)) as (h2 & -> & H2). simpl.
    eexists _, _. split; [done|]. eapply half_linked_end; [done|destruct H2; by split|done| |done].
    simpl. by rewrite (dl_last _ _ _ Hd).
  - destruct (link_last _ _ _ _ _ _ _ _ _ _ (Some p) H Hne) as (a & h1 & E & S1 & H1). rewrite E. simpl. rewrite S1. simpl.
    destruct (link_head _ _ _ _ _ _ _ _ _ _ (Some p) H1) as (q & h2 & [= <-] & -> & H2); [done|]. simpl.
    destruct (proj2 (link_node _ _ _ _ _ _ _ _ _ _ H2) (Some a)) as (h3 & -> & H3). simpl.
    destruct (proj1 (link_node _ _ _ _ _ _ _ _ _ _ H3) (Some e)) as (h4 & -> & H4). simpl.
    eexists _, _. split; [done|]. eapply half_linked_end; [done| | | |done].
    + rewrite E. exact H4.
    + simpl. rewrite (dl_first _ _ _ Hd). by destruct l1 as [|[]].
    + simpl. by rewrite (dl_last _ _ _ Hd), last_ptr_app.
Qed.

Lemma append_after_spec h (l : sge_sl_list_t) l1 e de l2 p d :
  dlist h l ((l1 ++ [(e, de)]) ++ l2) -> h !! p = Some (Elem None None d) -> p ∉ nodes ((l1 ++ [(e, de)]) ++ l2) ->
  exists h' l', sge_sl_append_after h l p e = Some (h', l') /\ inserted h h' l l' (l1 ++ [(e, de)]) p d l2.
Proof.
  intros Hd Hp Hnew. pose proof (half_linked_start h l _ p _ d Hd Hp Hnew) as H.
  assert (l1 ++ [(e, de)] <> []) as Hne by (by destruct l1). pose proof (dl_seg _ _ _ Hd) as Hs.
  unfold sge_sl_append_after. rewrite <- app_assoc in Hs. simpl in Hs. rewrite (dseg_node _ _ _ _ _ _ _ Hs). simpl.
  destruct (link_last _ _ _ _ _ _ _ _ _ _ (Some p) H Hne) as (a & h1 & E & S1 & H1).
  rewrite last_ptr_snoc in E. injection E as <-.
  destruct (decide (l2 = [])) as [->|Hne2].
  - simpl. rewrite S1. simpl.
    destruct (proj2 (link_node _ _ _ _ _ _ _ _ _ _ H1) (Some e)) as (h2 & -> & H2). simpl.
    eexists _, _. split; [done|]. eapply half_linked_end; [done| | |done|done].
    + rewrite last_ptr_snoc. destruct H2. by split.
    + simpl. rewrite (dl_first _ _ _ Hd), app_nil_r. by destruct l1 as [|[]].
  - destruct (link_head _ _ _ _ _ _ _ _ _ _ (Some p) H1 Hne2) as (q & h2 & E & S2 & H2). rewrite E. simpl. rewrite S1. simpl.
    rewrite S2. simpl.
    destruct (proj2 (link_node _ _ _ _ _ _ _ _ _ _ H2) (Some e)) as (h3 & -> & H3). simpl.
    destruct (proj1 (link_node _ _ _ _ _ _ _ _ _ _ H3) (Some q)) as (h4 & -> & H4). simpl.
    eexists _, _. split; [done|]. destruct (last_ptr_some l2 Hne2) as [z Hz]. eapply half_linked_end; [done| | | |done].
    + rewrite last_ptr_snoc, E. exact H4.
    + simpl. rewrite (dl_first _ _ _ Hd). by destruct l1 as [|[]].
    + simpl. by rewrite (dl_last _ _ _ Hd), last_ptr_app, !Hz.
Qed.

(** ** Searching *)

(** The first of [xs] that compares as equal. *)
Definition first_match (compare : D -> Z) xs : option (positive * D) := find (fun x => compare x.2 =? 0) xs.

Lemma search_forward fuel h pp xs compare : dseg h pp xs None -> (length xs <= fuel)%nat ->
  search_loop fuel h (hd_ptr xs None) compare SGE_SL_FORWARD = Some (fst <$> first_match compare xs).
Proof.
  revert pp fuel. induction xs as [|[p d] xs IH]; intros pp fuel Hs Hf; [by destruct fuel|].
  destruct fuel as [|fuel]; simpl in *; [lia|]. destruct Hs as [-> Hs]. simpl.
  destruct (compare d =? 0); simpl; [done|]. apply (IH (Some p)); [done|lia].
Qed.

Lemma search_backward fuel h xs qn compare : dseg h None xs qn -> (length xs <= fuel)%nat ->
  search_loop fuel h (last_ptr None xs) compare SGE_SL_BACKWARD = Some (fst <$> first_match compare (rev xs)).
Proof.
  revert qn fuel. induction xs as [|[p d] xs IH] using rev_ind; intros qn fuel Hs Hf; [by destruct fuel|].
  rewrite length_app in Hf. simpl in Hf. destruct fuel as [|fuel]; [lia|]. rewrite last_ptr_snoc, rev_unit.
  apply dseg_app in Hs as (H1 & H2 & _). simpl. rewrite H2. simpl.
  destruct (compare d =? 0); simpl; [done|]. eapply IH; [done|lia].
Qed.

(** What is left of the list in a direction, from the element [elem] on. *)
Definition in_direction (direction : sge_sl_direction_t) xs : list (positive * D) :=
  match direction with SGE_SL_FORWARD => xs | SGE_SL_BACKWARD => rev xs end.

Lemma search_spec h (l : sge_sl_list_t) xs compare direction : dlist h l xs ->
  sge_sl_elem_search h l None compare direction = Some (fst <$> first_match compare (in_direction direction xs)).
Proof.
  intros [Hn Hf Hl _ Hs]. pose proof (dseg_size _ _ _ _ Hn Hs). unfold sge_sl_elem_search. simpl.
  destruct direction; simpl; [rewrite Hf; by eapply search_forward|rewrite Hl; by eapply search_backward].
Qed.

Lemma search_from_spec h (l : sge_sl_list_t) l1 p d l2 compare direction : dlist h l (l1 ++ (p, d) :: l2) ->
  sge_sl_elem_search h l (Some p) compare direction =
    Some (fst <$> first_match compare (match direction with SGE_SL_FORWARD => l2 | SGE_SL_BACKWARD => rev l1 end)).
Proof.
  intros [Hn _ _ _ Hs]. pose proof (dseg_size _ _ _ _ Hn Hs) as Hz. rewrite length_app in Hz. simpl in Hz.
  unfold sge_sl_elem_search. simpl. rewrite (dseg_node _ _ _ _ _ _ _ Hs). simpl.
  apply dseg_app in Hs as (H1 & _ & H2). destruct direction; simpl; [eapply search_forward|eapply search_backward]; eauto; lia.
Qed.

Lemma first_match_split compare xs :
  match first_match compare xs with
  | Some (p, d) => exists l1 l2, xs = l1 ++ (p, d) :: l2 /\ compare d = 0 /\ Forall (fun x => compare x.2 <> 0) l1
  | None => Forall (fun x => compare x.2 <> 0) xs
  end.
Proof.
  induction xs as [|[p d] xs IH]; simpl; [done|]. destruct (Z.eqb_spec (compare d) 0); [by exists [], xs|].
  fold (first_match compare xs). destruct (first_match compare xs) as [[q e]|]; [|by constructor].
  destruct IH as (l1 & l2 & -> & He & Hl). exists ((p, d) :: l1), l2. split; [done|]. split; [done|]. by constructor.
Qed.

(** ** Sorted insertion, destroying and sorting *)

(** The elements that sort before a new one, and the others. *)
Fixpoint split_at (greater : D -> bool) xs : list (positive * D) * list (positive * D) :=
  match xs with
  | [] => ([], [])
  | x :: xs' => if greater x.2 then let '(l1, l2) := split_at greater xs' in (x :: l1, l2) else ([], xs)
  end.

Lemma split_at_app greater xs : fst (split_at greater xs) ++ snd (split_at greater xs) = xs.
Proof. induction xs as [|x xs IH]; simpl; [done|]. destruct (greater _); [|done]. destruct (split_at greater xs). simpl in *. by rewrite IH. Qed.

Lemma place_spec fuel h pp xs greater : dseg h pp xs None -> (length xs <= fuel)%nat ->
  place_loop fuel h pp (hd_ptr xs None) greater =
    Some (last_ptr pp (fst (split_at greater xs)), hd_ptr (snd (split_at greater xs)) None).
Proof.
  revert pp fuel. induction xs as [|[p d] xs IH]; intros pp fuel Hs Hf; [by destruct fuel|].
  destruct fuel as [|fuel]; simpl in *; [lia|]. destruct Hs as [-> Hs]. simpl.
  destruct (greater d); [|done]. rewrite (IH (Some p)) by (done || lia). by destruct (split_at greater xs).
Qed.

Lemma insert_place_spec h (l : sge_sl_list_t) l1 l2 p d :
  dlist h l (l1 ++ l2) -> h !! p = Some (Elem None None d) -> p ∉ nodes (l1 ++ l2) ->
  exists h' l',
    match last_ptr None l1, hd_ptr l2 None with
    | None, None => Some (h, SL (Some p) (Some p) (elements l))
    | None, Some c =>
        h ← set_prev h c (Some p); h ← set_next h p (Some c); Some (h, set_first l (Some p))
    | Some a, None =>
        h ← set_next h a (Some p); h ← set_prev h p (Some a); Some (h, set_last l (Some p))
    | Some a, Some c =>
        h ← set_next h a (Some p); h ← set_prev h c (Some p);
        h ← set_prev h p (Some a); h ← set_next h p (Some c); Some (h, l)
    end = Some (h', l') /\ inserted h h' l (add_elements l' 1) l1 p d l2.
Proof.
  intros Hd Hp Hnew. pose proof (half_linked_start h l _ p _ d Hd Hp Hnew) as H.
  destruct (decide (l1 = [])) as [->|N1]; destruct (decide (l2 = [])) as [->|N2].
  - simpl. eexists _, _. split; [done|]. eapply half_linked_end; try done. destruct H. by split.
  - destruct (link_head _ _ _ _ _ _ _ _ _ _ (Some p) H N2) as (c & h1 & E & S1 & H1). rewrite E. simpl. rewrite S1. simpl.
    destruct (proj1 (link_node _ _ _ _ _ _ _ _ _ _ H1) (Some c)) as (h2 & -> & H2). simpl.
    destruct (last_ptr_some l2 N2) as [z Hz].
    eexists _, _. split; [done|]. eapply half_linked_end; [done|rewrite E; destruct H2; by split|done| |done].
    simpl. by rewrite (dl_last _ _ _ Hd), !Hz.
  - destruct (link_last _ _ _ _ _ _ _ _ _ _ (Some p) H N1) as (a & h1 & E & S1 & H1). rewrite E. simpl. rewrite S1. simpl.
    destruct (proj2 (link_node _ _ _ _ _ _ _ _ _ _ H1) (Some a)) as (h2 & -> & H2). simpl.
    eexists _, _. split; [done|]. eapply half_linked_end; [done|rewrite E; destruct H2; by split| |done|done].
    simpl. rewrite (dl_first _ _ _ Hd), app_nil_r. by destruct l1 as [|[]].
  - destruct (link_last _ _ _ _ _ _ _ _ _ _ (Some p) H N1) as (a & h1 & E & S1 & H1). rewrite E.
    destruct (link_head _ _ _ _ _ _ _ _ _ _ (Some p) H1 N2) as (c & h2 & E' & S2 & H2). rewrite E'.
    rewrite S1. simpl. rewrite S2. simpl.
    destruct (proj2 (link_node _ _ _ _ _ _ _ _ _ _ H2) (Some a)) as (h3 & -> & H3). simpl.
    destruct (proj1 (link_node _ _ _ _ _ _ _ _ _ _ H3) (Some c)) as (h4 & -> & H4). simpl.
    destruct (last_ptr_some l2 N2) as [z Hz].
    eexists _, _. split; [done|]. eapply half_linked_end; [done|by rewrite E, E'| | |done].
    + simpl. rewrite (dl_first _ _ _ Hd). by destruct l1 as [|[]].
    + simpl. by rewrite (dl_last _ _ _ Hd), last_ptr_app, !Hz.
Qed.

Lemma destroy_spec fuel h pp xs destroy : NoDup (nodes xs) -> dseg h pp xs None -> (length xs <= fuel)%nat ->
  exists h', destroy_loop fuel h (hd_ptr xs None) destroy = Some (h', if destroy then xs.*2 else []) /\
    (forall q, h' !! q = if decide (q ∈ nodes xs) then None else h !! q).
Proof.
  revert pp h fuel. induction xs as [|[p d] xs IH]; intros pp h fuel Hn Hs Hf.
  { exists h. destruct fuel, destroy; simpl; (split; [done|]); intros q; repeat case_decide; set_solver. }
  destruct fuel as [|fuel]; simpl in *; [lia|]. destruct Hs as [E Hs]. apply NoDup_cons in Hn as [Hp Hn].
  rewrite E. simpl. destruct (IH (Some p) (delete p h) fuel) as (h' & -> & Hh); [done| |lia|].
  { eapply dseg_frame; [|done]. intros q Hq. apply lookup_delete_ne. by intros ->. }
  simpl. exists h'. split; [by destruct destroy|]. intros q. rewrite Hh.
  destruct (decide (q = p)) as [->|].
  - rewrite lookup_delete_eq. repeat case_decide; set_solver.
  - rewrite lookup_delete_ne by done. by repeat case_decide; set_solver.
Qed.

Lemma fill_spec room h pp xs : dseg h pp xs None -> (length xs <= room)%nat -> fill room h (hd_ptr xs None) = Some xs.*2.
Proof.
  revert pp room. induction xs as [|[p d] xs IH]; intros pp room Hs Hf; [by destruct room|].
  destruct room as [|room]; simpl in *; [lia|]. destruct Hs as [-> Hs]. simpl. by rewrite (IH (Some p)) by (done || lia).
Qed.

Lemma write_back_spec h pp xs a : NoDup (nodes xs) -> dseg h pp xs None -> length a = length xs ->
  exists h', write_back a h (hd_ptr xs None) = Some h' /\ dseg h' pp (zip (nodes xs) a) None /\ same_but h h' (nodes xs).
Proof.
  revert pp h a. induction xs as [|[p d] xs IH]; intros pp h [|x a] Hn Hs Hl; try done; [by exists h|].
  simpl in *. destruct Hs as [E Hs]. apply NoDup_cons in Hn as [Hp Hn]. unfold set_data. rewrite E. simpl.
  rewrite lookup_insert_eq. simpl.
  destruct (IH (Some p) (<[p:=Elem pp (hd_ptr xs None) x]> h) a) as (h' & -> & H1 & H2); [done| |lia|].
  { eapply dseg_frame; [|done]. intros q Hq. apply lookup_insert_ne. by intros ->. }
  exists h'. split; [done|]. split; [split|].
  - rewrite H2, lookup_insert_eq by done. do 2 f_equal. destruct xs as [|[]], a; done.
  - done.
  - intros q Hq. rewrite H2 by set_solver. apply lookup_insert_ne. set_solver.
Qed.

End Segments.

End SListFacts.
