(* ===== verification/SListProps.v ===== *)
(** SListProps: a simple list is a sequence. *)

From S2P Require Import Prelude SList SListFacts.
Import SList SListFacts.

Module SListProps.

Section Calls.
Context {D : Type} `{Malloc} `{Qsort D}.
Abbreviation heap := (gmap positive (sge_sl_elem_t D)).

(** ** Calls on a list, and what they mean on a sequence *)

Inductive call :=
  | Insert (d : D) (direction : sge_sl_direction_t)
  | InsertSearch (d : D)
  | Data (direction : sge_sl_direction_t)
  | DataSearch (key : D -> Z) (direction : sge_sl_direction_t)
  | Delete (destroy : bool) (direction : sge_sl_direction_t)
  | DeleteSearch (key : option (D -> Z)) (destroy : bool) (direction : sge_sl_direction_t)
  | Walk (direction : sge_sl_direction_t)
  | Count
  | Sort.

Inductive answer := Nothing | Datum (d : option D) | Sequence (ds : list D) | Number (n : Z) | Success (b : bool).

Context (compare : D -> D -> Z).

Definition run_call (h : heap) (l : sge_sl_list_t) (c : call) : option (heap * sge_sl_list_t * answer) :=
  match c with
  | Insert d dir => '(h, l) ← sge_sl_insert h l d dir; Some (h, l, Nothing)
  | InsertSearch d => '(h, l) ← sge_sl_insert_search h l d compare; Some (h, l, Nothing)
  | Data dir => d ← sge_sl_data h l dir; Some (h, l, Datum d)
  | DataSearch key dir => d ← sge_sl_data_search h l key dir; Some (h, l, Datum d)
  | Delete destroy dir => '(h, l, ds) ← sge_sl_delete h l destroy dir; Some (h, l, Sequence ds)
  | DeleteSearch key destroy dir => '(h, l, ds) ← sge_sl_delete_search h l key destroy dir; Some (h, l, Sequence ds)
  | Walk dir => ds ← for_each_sl h l dir; Some (h, l, Sequence ds)
  | Count => Some (h, l, Number (sge_sl_get_elem_count l))
  | Sort => '(b, h) ← sge_sl_sort h l compare; Some (h, l, Success b)
  end.

Fixpoint run_calls (h : heap) (l : sge_sl_list_t) (cs : list call) : option (heap * sge_sl_list_t * list answer) :=
  match cs with
  | [] => Some (h, l, [])
  | c :: cs =>
      '(h, l, a) ← run_call h l c;
      '(h, l, answers) ← run_calls h l cs;
      Some (h, l, a :: answers)
  end.

(** The sequence as it is seen from one end. *)
Definition from_end (direction : sge_sl_direction_t) {A} (ds : list A) : list A :=
  match direction with SGE_SL_FORWARD => ds | SGE_SL_BACKWARD => rev ds end.

Fixpoint insert_sorted (d : D) (ds : list D) : list D :=
  match ds with
  | [] => [d]
  | x :: ds' => if 0 <? compare d x then x :: insert_sorted d ds' else d :: ds
  end.

(** Without the first payload that matches, and this payload. *)
Fixpoint take_match (key : D -> bool) (ds : list D) : list D * list D :=
  match ds with
  | [] => ([], [])
  | x :: ds => if key x then (ds, [x]) else let '(rest, m) := take_match key ds in (x :: rest, m)
  end.

Definition seq_delete (key : D -> bool) (destroy : bool) (direction : sge_sl_direction_t) (ds : list D) :
    list D * answer :=
  let '(rest, m) := take_match key (from_end direction ds) in
  (from_end direction rest, Sequence (if destroy then m else [])).

Definition seq_call (ds : list D) (c : call) : list D * answer :=
  match c with
  | Insert d dir => (from_end dir (d :: from_end dir ds), Nothing)
  | InsertSearch d => (insert_sorted d ds, Nothing)
  | Data dir => (ds, Datum (head (from_end dir ds)))
  | DataSearch key dir => (ds, Datum (find (fun x => key x =? 0) (from_end dir ds)))
  | Delete destroy dir => seq_delete (fun _ => true) destroy dir ds
  | DeleteSearch None destroy dir => (ds, Sequence [])
  | DeleteSearch (Some key) destroy dir => seq_delete (fun x => key x =? 0) destroy dir ds
  | Walk dir => (ds, Sequence (from_end dir ds))
  | Count => (ds, Number (length ds))
  | Sort => match ds with [] => (ds, Success false) | _ => (qsort compare ds, Success true) end
  end.

Fixpoint seq_calls (ds : list D) (cs : list call) : list D * list answer :=
  match cs with
  | [] => (ds, [])
  | c :: cs =>
      let '(ds, a) := seq_call ds c in
      let '(ds, answers) := seq_calls ds cs in (ds, a :: answers)
  end.

(** ** Owning the nodes *)

(** The list owns the nodes that were not there in [h0]. *)
Record own (h0 h : heap) (l : sge_sl_list_t) (xs : list (positive * D)) : Prop := {
  own_list : dlist h l xs;
  own_rest : same_but h0 h (xs.*1);
  own_new p : p ∈ xs.*1 -> h0 !! p = None;
}.

Lemma own_create h0 : own h0 h0 sge_sl_create [].
Proof. split; [|done|by intros p ?%elem_of_nil]. split; try done. constructor. Qed.

Lemma own_destroy h0 h l xs destroy : own h0 h l xs ->
  sge_sl_destroy h l destroy = Some (h0, if destroy then xs.*2 else []).
Proof.
  intros [[Hn Hf _ _ Hs] Hr Hw]. unfold sge_sl_destroy. rewrite Hf.
  destruct (destroy_spec (size h) h None xs destroy Hn Hs) as (h' & -> & Hh); [by eapply dseg_size|].
  do 2 f_equal. apply map_eq. intros q. rewrite Hh. destruct (decide _) as [Hq|Hq]; [by rewrite (Hw q)|by apply Hr].
Qed.

(** A new node, before it is linked. *)
Lemma own_insert h0 h l l1 l2 d (ok : heap -> positive -> option (heap * sge_sl_list_t)) :
  own h0 h l (l1 ++ l2) ->
  (forall h1 p, dlist h1 l (l1 ++ l2) -> h1 !! p = Some (Elem None None d) -> p ∉ (l1 ++ l2).*1 ->
     exists h2 l2', ok h1 p = Some (h2, l2') /\ inserted h1 h2 l l2' l1 p d l2) ->
  exists h' l' p, (let '(h1, p) := sge_sl_elem_create h d in ok h1 p) = Some (h', l') /\ own h0 h' l' (l1 ++ (p, d) :: l2).
Proof.
  intros [Hl Hr Hw] Hok. unfold sge_sl_elem_create. set (p := malloc_at (dom h)).
  assert (h !! p = None) as Hp by apply not_elem_of_dom, malloc_fresh.
  assert (p ∉ (l1 ++ l2).*1) as Hnew.
  { intros Hin. eapply dseg_in_dom in Hin; [|apply Hl]. by apply elem_of_dom in Hin as [? ?]; simplify_eq. }
  destruct (Hok (<[p:=Elem None None d]> h) p) as (h' & l' & E & [Hi Hs]); [|by rewrite lookup_insert_eq|done|].
  { destruct Hl. split; try done. eapply dseg_frame; [|done]. intros q Hq. apply lookup_insert_ne. by intros ->. }
  exists h', l', p. split; [done|]. split; [done| |].
  - intros q. rewrite !fmap_app in *. simpl. intros Hq. rewrite Hs, lookup_insert_ne by set_solver. apply Hr. set_solver.
  - intros q Hq. rewrite fmap_app in Hq. simpl in Hq. destruct (decide (q = p)) as [->|].
    + rewrite <- Hr; [done|]. by rewrite fmap_app in Hnew |- *.
    + apply Hw. rewrite fmap_app. set_solver.
Qed.

Lemma own_delete h0 h l l1 p d l2 destroy : own h0 h l (l1 ++ (p, d) :: l2) ->
  exists h' l',
    ('(h, l) ← sge_sl_dechain h l (Some p); '(h, ds) ← sge_sl_elem_destroy h (Some p) destroy; Some (h, l, ds)) =
      Some (h', l', if destroy then [d] else []) /\ own h0 h' l' (l1 ++ l2).
Proof.
  intros [Hl Hr Hw]. destruct (dechain_spec _ _ _ _ _ _ Hl) as (h' & l' & -> & Hd & Hp & Hs). simpl. rewrite Hp. simpl.
  destruct (nodup_parts _ _ _ _ (dl_nodup _ _ _ Hl)) as (_ & _ & Hp1 & Hp2 & _).
  eexists _, _. split; [done|]. rewrite fmap_app in Hr, Hw, Hs. simpl in *. split.
  - destruct Hd. split; try done. eapply dseg_frame; [|done]. intros q Hq. apply lookup_delete_ne. intros ->.
    rewrite fmap_app in Hq. set_solver.
  - intros q Hq. rewrite fmap_app in Hq. destruct (decide (q = p)) as [->|].
    + rewrite lookup_delete_eq. symmetry. apply Hw. set_solver.
    + rewrite lookup_delete_ne, Hs by set_solver. apply Hr. set_solver.
  - intros q Hq. apply Hw. rewrite fmap_app in Hq. set_solver.
Qed.

(** ** Every call *)

Lemma from_end_fmap {A B} (f : A -> B) dir l : f <$> from_end dir l = from_end dir (f <$> l).
Proof. destruct dir; [done|]. apply map_rev. Qed.

Lemma from_end_length {A} dir (l : list A) : length (from_end dir l) = length l.
Proof. destruct dir; [done|]. apply length_rev. Qed.

Lemma from_end_twice {A} dir (l : list A) : from_end dir (from_end dir l) = l.
Proof. destruct dir; [done|]. apply rev_involutive. Qed.

Lemma in_direction_from_end (xs : list (positive * D)) dir : in_direction dir xs = from_end dir xs.
Proof. by destruct dir. Qed.

(** Cutting a list at an element seen from one end. *)
Lemma from_end_split {A} dir (xs l1 l2 : list A) x : from_end dir xs = l1 ++ x :: l2 ->
  exists l1' l2', xs = l1' ++ x :: l2' /\ l1' ++ l2' = from_end dir (l1 ++ l2).
Proof.
  intros E. destruct dir; simpl in *; [by exists l1, l2|]. exists (rev l2), (rev l1). split; [|by rewrite rev_app_distr].
  apply (f_equal (@rev A)) in E. rewrite rev_involutive in E. rewrite E, rev_app_distr. simpl. by rewrite <- app_assoc.
Qed.

Lemma take_match_split (key : D -> bool) l1 d l2 : Forall (fun x => key x = false) l1 -> key d = true ->
  take_match key (l1 ++ d :: l2) = (l1 ++ l2, [d]).
Proof. intros H1 Hd. induction H1 as [|x l1 Hx _ IH]; simpl; [by rewrite Hd|]. by rewrite Hx, IH. Qed.

Lemma take_match_none (key : D -> bool) l : Forall (fun x => key x = false) l -> take_match key l = (l, []).
Proof. induction 1 as [|x l Hx _ IH]; simpl; [done|]. by rewrite Hx, IH. Qed.

(** Deleting the node a search has found. *)
Lemma delete_found h0 h l xs (key : D -> bool) (elem : option positive) destroy dir :
  own h0 h l xs -> elem = fst <$> find (fun x => key x.2) (from_end dir xs) ->
  exists h' l' xs' ds,
    ('(h, l) ← sge_sl_dechain h l elem; '(h, ds) ← sge_sl_elem_destroy h elem destroy; Some (h, l, ds)) =
      Some (h', l', ds) /\ own h0 h' l' xs' /\ seq_delete key destroy dir xs.*2 = (xs'.*2, Sequence ds).
Proof.
  intros Ho ->. unfold seq_delete.
  assert (match find (fun x => key x.2) (from_end dir xs) with
    | Some (p, d) => exists l1 l2, from_end dir xs = l1 ++ (p, d) :: l2 /\ key d = true /\ Forall (fun x => key x = false) l1.*2
    | None => Forall (fun x => key x = false) (from_end dir xs).*2 end) as Hf.
  { clear. induction (from_end dir xs) as [|[p d] l IH]; simpl; [done|]. destruct (key d) eqn:E; [by exists [], l|].
    destruct (find _ l) as [[q e]|]; [|by constructor]. destruct IH as (l1 & l2 & -> & He & Hl).
    exists ((p, d) :: l1), l2. split; [done|]. split; [done|]. simpl. by constructor. }
  destruct (find _ _) as [[p d]|]; simpl.
  - destruct Hf as (l1 & l2 & E & Hd & H1). destruct (from_end_split _ _ _ _ _ E) as (l1' & l2' & -> & E').
    destruct (own_delete h0 h l l1' p d l2' destroy Ho) as (h' & l' & R & Ho'). simpl in R. rewrite R.
    eexists _, _, _, _. split; [done|]. split; [done|].
    rewrite <- from_end_fmap, E, fmap_app. simpl. rewrite take_match_split by done.
    by rewrite <- fmap_app, <- from_end_fmap, <- E'.
  - eexists _, _, _, _. split; [done|]. split; [done|].
    rewrite <- from_end_fmap, take_match_none by done. rewrite from_end_fmap, from_end_twice. by destruct destroy.
Qed.

Lemma walk_spec fuel (h : heap) (l : sge_sl_list_t) pp (xs : list (positive * D)) qn :
  dseg h pp xs qn -> (length xs <= fuel)%nat ->
  (qn = None -> walk_loop fuel h l (hd_ptr xs None) SGE_SL_FORWARD = Some xs.*2) /\
  (pp = None -> walk_loop fuel h l (last_ptr None xs) SGE_SL_BACKWARD = Some (rev xs.*2)).
Proof.
  intros Hs Hf. split; intros ->.
  - revert pp fuel Hs Hf. induction xs as [|[p d] xs IH]; intros pp fuel Hs Hf; [by destruct fuel|].
    destruct fuel as [|fuel]; simpl in *; [lia|]. destruct Hs as [E Hs]. rewrite E. simpl.
    by rewrite (IH (Some p)) by (done || lia).
  - revert qn fuel Hs Hf. induction xs as [|[p d] xs IH] using rev_ind; intros qn fuel Hs Hf; [by destruct fuel|].
    rewrite length_app in Hf. simpl in Hf. destruct fuel as [|fuel]; [lia|]. rewrite last_ptr_snoc.
    apply dseg_app in Hs as (H1 & H2 & _). simpl. rewrite H2. simpl.
    rewrite (IH _ _ H1) by lia. simpl. by rewrite fmap_app, rev_app_distr.
Qed.

Lemma split_at_sorted d (xs : list (positive * D)) :
  insert_sorted d xs.*2 =
    (fst (split_at (fun x => 0 <? compare d x) xs)).*2 ++ d :: (snd (split_at (fun x => 0 <? compare d x) xs)).*2.
Proof.
  induction xs as [|[p x] xs IH]; [done|]. rewrite fmap_cons. cbn [insert_sorted split_at snd].
  destruct (0 <? compare d x); [|done]. rewrite IH. by destruct (split_at _ xs).
Qed.

Lemma end_of_head (l : sge_sl_list_t) (h : heap) xs dir : dlist h l xs -> end_of dir l = fst <$> head (from_end dir xs).
Proof.
  intros [_ Hf Hl _ _]. destruct dir; simpl; [rewrite Hf; by destruct xs as [|[]]|]. rewrite Hl.
  destruct (last_snoc xs) as [->|(ys & a & d & ->)]; [done|]. by rewrite last_ptr_snoc, rev_unit.
Qed.

Lemma find_head {A} (l : list A) : find (fun _ => true) l = head l.
Proof. by destruct l. Qed.

Lemma find_fmap {A B} (f : A -> B) (q : B -> bool) l : find q (f <$> l) = f <$> find (fun x => q (f x)) l.
Proof. induction l as [|x l IH]; simpl; [done|]. by destruct (q (f x)). Qed.

Lemma lookup_found h l xs dir (key : D -> bool) : dlist h l xs ->
  sge_sl_elem_data h (fst <$> find (fun x => key x.2) (from_end dir xs)) = Some (find key (from_end dir xs.*2)).
Proof.
  intros Hl. rewrite <- from_end_fmap, find_fmap. destruct (find _ (from_end dir xs)) as [[p d]|] eqn:E; simpl; [|done].
  apply find_some in E as [Hin _]. assert (In (p, d) xs) as Hx.
  { destruct dir; [done|]. by apply in_rev. }
  apply in_split in Hx as (l1 & l2 & ->). by rewrite (dseg_node _ _ _ _ _ _ _ (dl_seg _ _ _ Hl)).
Qed.

Lemma take_match_length (key : D -> bool) l : (length (fst (take_match key l)) <= length l)%nat.
Proof. induction l as [|x l IH]; simpl; [done|]. destruct (key x); simpl; [lia|]. destruct (take_match key l). simpl in *. lia. Qed.

Lemma seq_delete_length (key : D -> bool) destroy dir (xs xs' : list (positive * D)) a :
  seq_delete key destroy dir xs.*2 = (xs'.*2, a) -> (length xs' <= S (length xs))%nat.
Proof.
  unfold seq_delete. pose proof (take_match_length key (from_end dir xs.*2)) as Hl.
  destruct (take_match _ _) as [rest m]. simpl in Hl. intros [= E _]. apply (f_equal length) in E.
  rewrite from_end_length, length_fmap in *. lia.
Qed.

Lemma run_insert h0 h l xs d dir : own h0 h l xs ->
  exists h' l' xs', sge_sl_insert h l d dir = Some (h', l') /\ own h0 h' l' xs' /\
    xs'.*2 = from_end dir (d :: from_end dir xs.*2).
Proof.
  intros Ho. destruct dir; simpl.
  - destruct (own_insert h0 h l [] xs d (fun h p => sge_sl_elem_insert h l p SGE_SL_FORWARD) Ho) as (h' & l' & p & E & Ho').
    { intros h1 p. by apply (elem_insert_spec h1 l xs p d SGE_SL_FORWARD). }
    by exists h', l', ((p, d) :: xs).
  - rewrite <- (app_nil_r xs) in Ho.
    destruct (own_insert h0 h l xs [] d (fun h p => sge_sl_elem_insert h l p SGE_SL_BACKWARD) Ho) as (h' & l' & p & E & Ho').
    { rewrite app_nil_r. intros h1 p. by apply (elem_insert_spec h1 l xs p d SGE_SL_BACKWARD). }
    exists h', l', (xs ++ [(p, d)]). split; [done|]. split; [done|]. by rewrite fmap_app, rev_involutive.
Qed.

Lemma run_insert_search h0 h l xs d : own h0 h l xs ->
  exists h' l' xs', sge_sl_insert_search h l d compare = Some (h', l') /\ own h0 h' l' xs' /\
    xs'.*2 = insert_sorted d xs.*2.
Proof.
  intros Ho. set (g := fun x => 0 <? compare d x). rewrite <- (split_at_app g xs) in Ho.
  unfold sge_sl_insert_search.
  destruct (own_insert h0 h l _ _ d (fun h p =>
    '(last, current) ← place_loop (size h) h None (first l) g;
    '(h, l) ← match last, current with
      | None, None => Some (h, SL (Some p) (Some p) (elements l))
      | None, Some c => h ← set_prev h c (Some p); h ← set_next h p (Some c); Some (h, set_first l (Some p))
      | Some a, None => h ← set_next h a (Some p); h ← set_prev h p (Some a); Some (h, set_last l (Some p))
      | Some a, Some c =>
          h ← set_next h a (Some p); h ← set_prev h c (Some p);
          h ← set_prev h p (Some a); h ← set_next h p (Some c); Some (h, l)
      end;
    Some (h, add_elements l 1)) Ho) as (h' & l' & p & E & Ho').
  { intros h1 p Hd Hp Hnew. destruct (insert_place_spec _ _ _ _ _ _ Hd Hp Hnew) as (h2 & l2 & E & Hi).
    pose proof Hd as [Hn Hf _ _ Hs]. rewrite split_at_app in Hn, Hf, Hs.
    rewrite Hf, (place_spec _ _ None) by (done || by eapply dseg_size). simpl. rewrite E. simpl. by eexists _, _. }
  eexists _, _, _. split; [exact E|]. split; [exact Ho'|]. by rewrite fmap_app, split_at_sorted.
Qed.

Lemma last_ptr_zip pp (xs : list (positive * D)) (a : list D) : length a = length xs -> last_ptr pp (zip xs.*1 a) = last_ptr pp xs.
Proof.
  revert pp a. induction xs as [|[p d] xs IH]; intros pp [|x a] Hl; try done. simpl in *. apply IH. lia.
Qed.

Lemma run_sort h0 h l xs : consistent compare -> length xs < 4294967296 -> own h0 h l xs ->
  exists h' xs', sge_sl_sort h l compare = Some (negb (length xs =? 0), h') /\
    own h0 h' l xs' /\ xs'.*2 = qsort compare xs.*2.
Proof.
  intros Hc Hb Ho. pose proof Ho as [[Hn Hf Hl He Hs] Hr Hw]. unfold sge_sl_sort. rewrite He, u32_small by lia.
  pose proof (Permutation_length (qsort_perm compare xs.*2 Hc)) as Hlen. rewrite length_fmap in Hlen.
  destruct (Z.eqb_spec (length xs) 0) as [Hz|Hz].
  - destruct xs; [|simpl in Hz; lia]. exists h, []. split; [done|]. split; [done|].
    symmetry. by apply length_zero_iff_nil.
  - rewrite Hf, (fill_spec _ _ None) by (done || lia). simpl. rewrite length_fmap, Z.eqb_refl.
    destruct (write_back_spec h None xs (qsort compare xs.*2) Hn Hs Hlen) as (h' & -> & Hs' & Hb'). simpl.
    assert ((zip xs.*1 (qsort compare xs.*2)).*1 = xs.*1) as H1 by (apply fst_zip; rewrite length_fmap; lia).
    assert ((zip xs.*1 (qsort compare xs.*2)).*2 = qsort compare xs.*2) as H2 by (apply snd_zip; rewrite length_fmap; lia).
    exists h', (zip xs.*1 (qsort compare xs.*2)). split; [done|]. split; [|done]. split.
    + split; rewrite ?H1; try done.
      * rewrite Hf. destruct xs as [|[]], (qsort compare _); done.
      * rewrite Hl. symmetry. by apply last_ptr_zip.
      * apply (f_equal length) in H1. rewrite !length_fmap in H1. by rewrite H1.
    + rewrite H1. intros q Hq. rewrite Hb' by done. by apply Hr.
    + by rewrite H1.
Qed.

Lemma call_correct h0 h l xs c : consistent compare -> length xs < 4294967296 -> own h0 h l xs ->
  exists h' l' xs' a, run_call h l c = Some (h', l', a) /\ own h0 h' l' xs' /\ seq_call xs.*2 c = (xs'.*2, a) /\
    (length xs' <= S (length xs))%nat.
Proof.
  intros Hc Hb Ho. pose proof (own_list _ _ _ _ Ho) as Hl. destruct c as [d dir|d|dir|key dir|b dir|key b dir|dir| |]; simpl.
  - destruct (run_insert h0 h l xs d dir Ho) as (h' & l' & xs' & -> & Ho' & E). simpl.
    eexists _, _, _, _. split; [done|]. split; [done|]. split; [by rewrite E|].
    apply (f_equal length) in E. rewrite from_end_length in E. cbn [length] in E. rewrite from_end_length, !length_fmap in E. lia.
  - destruct (run_insert_search h0 h l xs d Ho) as (h' & l' & xs' & -> & Ho' & E). simpl.
    eexists _, _, _, _. split; [done|]. split; [done|]. split; [by rewrite E|].
    pose proof (f_equal length (split_at_app (fun x => 0 <? compare d x) xs)) as El.
    apply (f_equal length) in E. rewrite split_at_sorted, length_app in E. cbn [length] in E. rewrite length_app in El.
    rewrite !length_fmap in E. lia.
  - unfold sge_sl_data. rewrite (end_of_head _ _ _ _ Hl). pose proof (lookup_found h l xs dir (fun _ => true) Hl) as E.
    rewrite !find_head in E. destruct (head (from_end dir xs)) as [[p d]|] eqn:Eh; simpl in *.
    + rewrite E. by exists h, l, xs, (Datum (head (from_end dir xs.*2))); auto.
    + exists h, l, xs, (Datum None). injection E as <-. auto.
  - unfold sge_sl_data_search. rewrite (search_spec _ _ _ _ _ Hl). simpl. unfold first_match. rewrite in_direction_from_end.
    rewrite (lookup_found h l xs dir (fun x => key x =? 0) Hl). simpl. eexists h, l, xs, _. auto.
  - unfold sge_sl_delete. rewrite (end_of_head _ _ _ _ Hl).
    destruct (delete_found h0 h l xs (fun _ => true) (fst <$> head (from_end dir xs)) b dir Ho) as (h' & l' & xs' & ds & -> & Ho' & E).
    { by rewrite find_head. }
    simpl. rewrite E. exists h', l', xs', (Sequence ds). split; [done|]. split; [done|]. split; [done|]. by eapply seq_delete_length.
  - destruct key as [key|]; simpl; [|exists h, l, xs, (Sequence []); auto].
    rewrite (search_spec _ _ _ _ _ Hl). simpl. unfold first_match. rewrite in_direction_from_end.
    destruct (delete_found h0 h l xs (fun x => key x =? 0) _ b dir Ho eq_refl) as (h' & l' & xs' & ds & -> & Ho' & E).
    simpl. rewrite E. exists h', l', xs', (Sequence ds). split; [done|]. split; [done|]. split; [done|]. by eapply seq_delete_length.
  - pose proof Hl as [Hn Hf Hlast _ Hs].
    assert (for_each_sl h l dir = Some (from_end dir xs.*2)) as ->.
    { unfold for_each_sl. destruct (walk_spec (size h) h l None xs None Hs) as [H1 H2]; [by eapply dseg_size|].
      destruct dir; simpl; [rewrite Hf, H1|rewrite Hlast, H2]; done. }
    simpl. eexists h, l, xs, _. auto.
  - eexists _, _, _, _. split; [done|]. split; [done|]. split; [|lia]. unfold sge_sl_get_elem_count.
    rewrite (dl_elements _ _ _ Hl), u32_small, length_fmap by lia. done.
  - destruct (run_sort h0 h l xs Hc Hb Ho) as (h' & xs' & -> & Ho' & E). simpl. eexists _, _, _, _. split; [done|]. split; [done|].
    pose proof (Permutation_length (qsort_perm compare xs.*2 Hc)) as Hlen. apply (f_equal length) in E as E'.
    rewrite Hlen, !length_fmap in E'. split; [|lia]. rewrite E.
    destruct xs as [|[p d] xs]; simpl in *; [|done]. apply length_zero_iff_nil in E'. subst xs'. by rewrite <- E.
Qed.

Lemma calls_correct h0 h l xs cs : consistent compare -> length xs + length cs < 4294967296 -> own h0 h l xs ->
  exists h' l' xs' answers, run_calls h l cs = Some (h', l', answers) /\ own h0 h' l' xs' /\
    seq_calls xs.*2 cs = (xs'.*2, answers).
Proof.
  intros Hc. revert h l xs. induction cs as [|c cs IH]; intros h l xs Hb Ho; simpl; [by exists h, l, xs, []|].
  simpl in Hb. destruct (call_correct h0 h l xs c Hc ltac:(lia) Ho) as (h1 & l1 & xs1 & a & -> & Ho1 & -> & Hlen). simpl.
  destruct (IH h1 l1 xs1 ltac:(lia) Ho1) as (h2 & l2 & xs2 & answers & -> & Ho2 & ->). simpl.
  by exists h2, l2, xs2, (a :: answers).
Qed.

(** C24: A simple list is a sequence: after any calls, in any order, every answer is the one the
    sequence gives, whichever end it is looked at from; no other memory is touched, and
    destroying the list gives all of its memory back and hands out every payload once. *)
Theorem list_refines_sequence (h0 : heap) (cs : list call) :
  consistent compare -> length cs < 4294967296 ->
  exists h l ds answers,
    run_calls h0 sge_sl_create cs = Some (h, l, answers) /\ seq_calls [] cs = (ds, answers) /\
    (forall p e, h0 !! p = Some e -> h !! p = Some e) /\ sge_sl_destroy h l true = Some (h0, ds).
Proof.
  intros Hc Hb. destruct (calls_correct h0 h0 sge_sl_create [] cs Hc Hb (own_create h0))
    as (h & l & xs & answers & Hr & Ho & Hs).
  exists h, l, xs.*2, answers. split; [done|]. split; [done|]. split; [|by apply (own_destroy h0 h l xs true)].
  intros p e He. rewrite (own_rest _ _ _ _ Ho); [done|]. intros Hp. apply (own_new _ _ _ _ Ho) in Hp. congruence.
Qed.

(** ** Sorted lists *)

Abbreviation le_data := (fun a b => compare a b <= 0).
Definition in_order (c : call) : bool := match c with Insert _ _ => false | _ => true end.

Lemma insert_sorted_sorted d ds : consistent compare -> StronglySorted le_data ds -> StronglySorted le_data (insert_sorted d ds).
Proof.
  intros [Ht Hr]. induction ds as [|x ds IH]; simpl; intros Hs; [by repeat constructor|].
  apply StronglySorted_inv in Hs as [Hs Hx]. destruct (Z.ltb_spec 0 (compare d x)).
  - constructor; [by apply IH|]. assert (forall y, y ∈ insert_sorted d ds -> y = d \/ y ∈ ds) as Hi.
    { clear. induction ds as [|z ds IH]; simpl; intros y; [set_solver|]. destruct (0 <? compare d z); set_solver. }
    apply Forall_forall. intros y [->|Hy]%Hi; [destruct (Ht d x); [lia|done]|]. rewrite Forall_forall in Hx. by apply Hx.
  - constructor; [by constructor|]. constructor; [done|]. eapply Forall_impl; [exact Hx|]. intros y Hy. by eapply Hr.
Qed.

Lemma sublist_sorted ds ds' : sublist ds ds' -> StronglySorted le_data ds' -> StronglySorted le_data ds.
Proof.
  induction 1 as [|x l1 l2 Hl IH|x l1 l2 Hl IH]; intros Hs; [done| |].
  - apply StronglySorted_inv in Hs as [Hs Hx]. constructor; [by apply IH|].
    eapply Forall_forall. intros y Hy. rewrite Forall_forall in Hx. apply Hx. by eapply elem_of_sublist.
  - apply StronglySorted_inv in Hs as [Hs _]. by apply IH.
Qed.

Lemma sublist_rev {A} (l1 l2 : list A) : sublist l1 l2 -> sublist (rev l1) (rev l2).
Proof.
  induction 1 as [|x l1 l2 _ IH|x l1 l2 _ IH]; simpl; [done|by apply sublist_app|].
  by apply sublist_inserts_r.
Qed.

Lemma take_match_sublist (key : D -> bool) ds : sublist (fst (take_match key ds)) ds.
Proof.
  induction ds as [|x ds IH]; simpl; [done|]. destruct (key x); simpl; [by apply sublist_cons|].
  destruct (take_match key ds). simpl in *. by apply sublist_skip.
Qed.

Lemma seq_delete_sublist (key : D -> bool) destroy dir ds : sublist (fst (seq_delete key destroy dir ds)) ds.
Proof.
  unfold seq_delete. pose proof (take_match_sublist key (from_end dir ds)) as Hs.
  destruct (take_match _ _) as [rest m]. simpl in *. destruct dir; simpl in *; [done|].
  apply sublist_rev in Hs. by rewrite rev_involutive in Hs.
Qed.

Lemma seq_call_sorted ds c : consistent compare -> in_order c = true -> StronglySorted le_data ds ->
  StronglySorted le_data (fst (seq_call ds c)).
Proof.
  intros Hc Ho Hs. destruct c as [| | | |b dir|[key|] b dir| | |]; simpl; try done.
  - by apply insert_sorted_sorted.
  - by eapply sublist_sorted; [apply seq_delete_sublist|].
  - by eapply sublist_sorted; [apply seq_delete_sublist|].
  - destruct ds; [done|]. by apply qsort_sorted.
Qed.

(** C35: A list that is filled by sorted insertion only is in order at any time, whatever is
    removed from it in between: a walk over it comes by the payloads in ascending order. *)
Theorem sorted_insertion_keeps_order (h0 : heap) (cs : list call) :
  consistent compare -> length cs < 4294967296 -> forallb in_order cs = true ->
  exists h l answers ds, run_calls h0 sge_sl_create cs = Some (h, l, answers) /\
    for_each_sl h l SGE_SL_FORWARD = Some ds /\ StronglySorted le_data ds.
Proof.
  intros Hc Hb Ho. destruct (calls_correct h0 h0 sge_sl_create [] cs Hc Hb (own_create h0))
    as (h & l & xs & answers & Hr & Hw & Hs).
  exists h, l, answers, xs.*2. split; [done|]. split.
  - pose proof (own_list _ _ _ _ Hw) as [Hn Hf _ _ Hd]. unfold for_each_sl. simpl. rewrite Hf.
    apply (walk_spec (size h) h l None xs None Hd); [by eapply dseg_size|done].
  - change xs.*2 with (fst (xs.*2, answers)). rewrite <- Hs. clear -Ho Hc.
    assert (StronglySorted le_data []) as Hsort by constructor. revert Ho Hsort. change ([] : list (positive * D)).*2 with (@nil D).
    generalize (@nil D). induction cs as [|c cs IH]; intros ds Ho Hsort; simpl; [done|].
    simpl in Ho. apply andb_true_iff in Ho as [Ho1 Ho2]. pose proof (seq_call_sorted ds c Hc Ho1 Hsort) as H1.
    destruct (seq_call ds c) as [ds1 a]. simpl in H1. specialize (IH ds1 Ho2 H1). by destruct (seq_calls ds1 cs).
Qed.

End Calls.

(** ** Examples *)

(** Any free address will do, and any sorting algorithm. *)
Definition some_malloc : Malloc := {| malloc_at X := fresh X; malloc_fresh := is_fresh |}.

Definition order_sort {D} (compare : D -> D -> Z) (l : list D) : list D :=
  @merge_sort D (fun a b => compare a b <= 0) (fun a b => Z.le_dec (compare a b) 0) l.

Definition some_qsort D : Qsort D.
Proof.
  refine {| qsort := order_sort |}.
  - intros. apply merge_sort_Permutation.
  - intros compare l [H1 H2]. apply StronglySorted_merge_sort; [exact H2|exact H1].
Defined.

Definition no_memory : gmap positive (sge_sl_elem_t Z) := ∅.

Definition sample : list call :=
  [InsertSearch 5; InsertSearch 2; InsertSearch 9; Delete true SGE_SL_BACKWARD; InsertSearch 4;
   Walk SGE_SL_FORWARD; Walk SGE_SL_BACKWARD; DeleteSearch (Some (Z.sub 4)) true SGE_SL_FORWARD; Count; Sort].

(** [sge_sl_sort] fails on an empty list: it asks for an array of no bytes. *)
Example sort_empty_fails :
  sge_sl_sort (D := Z) (H := some_qsort Z) ∅ sge_sl_create Z.sub = Some (false, ∅).
Proof. reflexivity. Qed.

Lemma list_refines_sequence_witness :
  seq_calls (H0 := some_qsort Z) Z.sub [] sample =
    ([2; 5], [Nothing; Nothing; Nothing; Sequence [9]; Nothing; Sequence [2; 4; 5]; Sequence [5; 4; 2]; Sequence [4];
              Number 2; Success true]) /\
  exists h l ds answers,
    run_calls (H := some_malloc) (H0 := some_qsort Z) Z.sub no_memory sge_sl_create sample = Some (h, l, answers) /\
    seq_calls (H0 := some_qsort Z) Z.sub [] sample = (ds, answers) /\
    (forall p e, no_memory !! p = Some e -> h !! p = Some e) /\ sge_sl_destroy h l true = Some (no_memory, ds).
Proof.
  split; [by vm_compute|].
  apply (list_refines_sequence (H := some_malloc) (H0 := some_qsort Z) Z.sub no_memory sample); [split; intros; lia|by vm_compute].
Defined.

Lemma sorted_insertion_keeps_order_witness :
  exists h l answers ds, run_calls (H := some_malloc) (H0 := some_qsort Z) Z.sub no_memory sge_sl_create sample = Some (h, l, answers) /\
    for_each_sl h l SGE_SL_FORWARD = Some ds /\ StronglySorted (fun a b => a - b <= 0) ds.
Proof.
  apply (sorted_insertion_keeps_order (H := some_malloc) (H0 := some_qsort Z) Z.sub no_memory sample); [split; intros; lia|by vm_compute|done].
Defined.

End SListProps.
