(* ===== verification/TaskQueue.v ===== *)
(** Task queues between threads ([libs/uti/sge_tq.cc]) and the requests of readers that wait
    for their session ([daemons/qmaster/ocs_MirrorReaderDataStore.cc]).

    A queue is a simple list of tasks; the mutex of the list protects the queue as well, so
    what a thread does from one [condition_timedwait] to the next is one step.  All nodes lie
    in one heap.  [sge_tq_wait_for_task] consists of two such steps: the one that begins and
    the one that follows a wait.  A waiting thread may go on at any time, since the wait ends
    after some seconds; a broadcast says that it will. *)

From S2P Require Import Prelude SList.
Import SList.

Module TaskQueue.

Inductive sge_tq_type_t := SGE_TQ_UNKNOWN | SGE_TQ_GDI_PACKET | SGE_TQ_TYPE1 | SGE_TQ_TYPE2.

(** The value of the enumerator. *)
Definition type_value (t : sge_tq_type_t) : Z :=
  match t with SGE_TQ_UNKNOWN => 0 | SGE_TQ_GDI_PACKET => 1 | SGE_TQ_TYPE1 => 2 | SGE_TQ_TYPE2 => 3 end.

#[export] Instance sge_tq_type_eq_dec : EqDecision sge_tq_type_t.
Proof. solve_decision. Defined.

Section WithData.
Context {D : Type} `{Malloc}.

Record sge_tq_task_t := Task { type : sge_tq_type_t; task_data : D }.
Abbreviation heap := (gmap positive (sge_sl_elem_t sge_tq_task_t)).

Record sge_tq_queue_t := TQ { tasks : sge_sl_list_t; waiting : Z }.

(** ** Operations on one queue *)

Definition sge_tq_task_compare_type (task1 : sge_tq_type_t) (task2 : sge_tq_task_t) : Z :=
  if bool_decide (task1 = SGE_TQ_UNKNOWN) then 0
  else if type_value task1 <? type_value (type task2) then -1
  else if type_value (type task2) <? type_value task1 then 1
  else 0.

Definition sge_tq_create : sge_tq_queue_t := TQ sge_sl_create 0.

(** The memory behind the queue and the tasks that were passed to the destroy function. *)
Definition sge_tq_destroy (h : heap) (queue : sge_tq_queue_t) : option (heap * list sge_tq_task_t) :=
  sge_sl_destroy h (tasks queue) true.

Definition sge_tq_get_task_count (queue : sge_tq_queue_t) : Z := sge_sl_get_elem_count (tasks queue).
Definition sge_tq_get_waiting_count (queue : sge_tq_queue_t) : Z := waiting queue.

(** The new queue, and whether the condition is signalled.  Without a type or data nothing
    happens. *)
Definition sge_tq_store_notify (h : heap) (queue : sge_tq_queue_t) (t : sge_tq_type_t) (d : option D) :
    option (heap * sge_tq_queue_t * bool) :=
  match d with
  | Some d =>
      if bool_decide (t = SGE_TQ_UNKNOWN) then Some (h, queue, false)
      else
        '(h, l) ← sge_sl_insert h (tasks queue) (Task t d) SGE_SL_BACKWARD;
        Some (h, TQ l (waiting queue), 0 <? waiting queue)
  | None => Some (h, queue, false)
  end.

Definition search_task (h : heap) (queue : sge_tq_queue_t) (t : sge_tq_type_t) : option (option positive) :=
  sge_sl_elem_search h (tasks queue) None (sge_tq_task_compare_type t) SGE_SL_FORWARD.

(** The end of [sge_tq_wait_for_task]: the task that was found leaves the queue. *)
Definition take_task (h : heap) (queue : sge_tq_queue_t) (elem : option positive) :
    option (heap * sge_tq_queue_t * option sge_tq_task_t) :=
  match elem with
  | None => Some (h, queue, None)
  | Some _ =>
      '(h, l) ← sge_sl_dechain h (tasks queue) elem;
      task ← sge_sl_elem_data h elem;
      '(h, _) ← sge_sl_elem_destroy h elem true;
      Some (h, TQ l (waiting queue), task)
  end.

(** A thread goes to sleep or returns, with the task or null. *)
Inductive outcome := Sleep | Return (task : option sge_tq_task_t).

Definition add_waiting (queue : sge_tq_queue_t) (n : Z) : sge_tq_queue_t :=
  TQ (tasks queue) (u32 (waiting queue + n)).

Definition sge_tq_wait_for_task (h : heap) (queue : sge_tq_queue_t) (t : sge_tq_type_t) (shutdown : bool) :
    option (heap * sge_tq_queue_t * outcome) :=
  elem ← search_task h queue t;
  if bool_decide (elem = None) && negb shutdown then Some (h, add_waiting queue 1, Sleep)
  else '(h, queue, task) ← take_task h queue elem; Some (h, queue, Return task).

(** The body of the loop from the end of the wait on. *)
Definition wait_goes_on (h : heap) (queue : sge_tq_queue_t) (t : sge_tq_type_t) (shutdown : bool) :
    option (heap * sge_tq_queue_t * outcome) :=
  elem ← search_task h queue t;
  if bool_decide (elem = None) && negb shutdown then Some (h, queue, Sleep)
  else '(h, queue, task) ← take_task h (add_waiting queue (-1)) elem; Some (h, queue, Return task).

(** The loop that moves, with the number of moved tasks. *)
Fixpoint move_loop (fuel : nat) (h : heap) (src dst : sge_sl_list_t) (next : option positive)
    (cmp_func : sge_tq_task_t -> Z) (count : nat) : option (heap * sge_sl_list_t * sge_sl_list_t * nat) :=
  match next with
  | None => Some (h, src, dst, count)
  | Some thiz =>
      match fuel with
      | O => None
      | S fuel =>
          next ← sge_sl_elem_search h src (Some thiz) cmp_func SGE_SL_FORWARD;
          '(h, src) ← sge_sl_dechain h src (Some thiz);
          '(h, dst) ← sge_sl_elem_insert h dst thiz SGE_SL_BACKWARD;
          move_loop fuel h src dst next cmp_func (S count)
      end
  end.

Definition sge_tq_move_from_to_if (h : heap) (src dst : sge_tq_queue_t) (cmp_func : sge_tq_task_t -> Z) :
    option (heap * sge_tq_queue_t * sge_tq_queue_t * nat) :=
  next ← sge_sl_elem_search h (tasks src) None cmp_func SGE_SL_FORWARD;
  '(h, l, l', count) ← move_loop (size h) h (tasks src) (tasks dst) next cmp_func 0;
  Some (h, TQ l (waiting src), TQ l' (waiting dst), count).

(** ** Threads *)

(** A thread waits for a task, maybe with a broadcast behind it, or is about to wake up the
    threads that wait at a queue it moved tasks to. *)
Inductive phase := Idle | Waiting (q : nat) (t : sge_tq_type_t) (notified : bool) | MustWake (q : nat).

Record state := State {
  memory : heap;
  queues : list sge_tq_queue_t;
  threads : list phase;
  shutdown : bool;
}.

Inductive call :=
  | Store (q : nat) (t : sge_tq_type_t) (d : option D)
  | Wait (q : nat) (t : sge_tq_type_t)
  | GoOn
  | Move (src dst : nat) (cmp_func : sge_tq_task_t -> Z)
  | Wakeup (q : nat)
  | WakeupMoved
  | Shutdown.

(** What a step did: the task that was stored, the task of a type that was returned from a
    queue, the tasks that were moved and their number as it is returned. *)
Inductive event :=
  | Other
  | Stored (q : nat) (task : sge_tq_task_t)
  | Returned (q : nat) (t : sge_tq_type_t) (task : option sge_tq_task_t)
  | Moved (src dst : nat) (ts : list sge_tq_task_t) (count : nat).

(** [sge_tq_wakeup_waiting] *)
Definition notify (q : nat) (p : phase) : phase :=
  match p with Waiting q' t n => Waiting q' t (n || bool_decide (q' = q)) | p => p end.

Definition sge_tq_wakeup_waiting (q : nat) (ts : list phase) : list phase := notify q <$> ts.

(** The state after a wait has begun or goes on. *)
Definition after_wait (s : state) (i q : nat) (t : sge_tq_type_t) (r : heap * sge_tq_queue_t * outcome) :
    state * event :=
  let '(h, queue, o) := r in
  let s' p := State h (<[q := queue]> (queues s)) (<[i := p]> (threads s)) (shutdown s) in
  match o with
  | Sleep => (s' (Waiting q t false), Other)
  | Return task => (s' Idle, Returned q t task)
  end.

(** The step of thread [i].  [update_sessions_and_move_requests] is [Move] followed by
    [WakeupMoved].  [None] is a call the thread cannot make now, or a bad access. *)
Definition perform (s : state) (i : nat) (c : call) : option (state * event) :=
  p ← threads s !! i;
  match c, p with
  | Store q t d, Idle =>
      queue ← queues s !! q;
      '(h, queue, signal) ← sge_tq_store_notify (memory s) queue t d;
      Some (State h (<[q := queue]> (queues s))
              (if (signal : bool) then sge_tq_wakeup_waiting q (threads s) else threads s) (shutdown s),
            match d with
            | Some d => if bool_decide (t = SGE_TQ_UNKNOWN) then Other else Stored q (Task t d)
            | None => Other
            end)
  | Wait q t, Idle =>
      queue ← queues s !! q;
      r ← sge_tq_wait_for_task (memory s) queue t (shutdown s);
      Some (after_wait s i q t r)
  | GoOn, Waiting q t _ =>
      queue ← queues s !! q;
      r ← wait_goes_on (memory s) queue t (shutdown s);
      Some (after_wait s i q t r)
  | Move src dst cmp_func, Idle =>
      if bool_decide (src = dst) then None
      else
        a ← queues s !! src;
        b ← queues s !! dst;
        ts ← for_each_sl (memory s) (tasks a) SGE_SL_FORWARD;
        '(h, a, b, count) ← sge_tq_move_from_to_if (memory s) a b cmp_func;
        Some (State h (<[src := a]> (<[dst := b]> (queues s)))
                (<[i := if (0 <? count)%nat then MustWake dst else Idle]> (threads s)) (shutdown s),
              Moved src dst (filter (fun task => cmp_func task = 0) ts) count)
  | WakeupMoved, MustWake q =>
      Some (State (memory s) (queues s) (<[i := Idle]> (sge_tq_wakeup_waiting q (threads s))) (shutdown s), Other)
  | Wakeup q, Idle =>
      Some (State (memory s) (queues s) (sge_tq_wakeup_waiting q (threads s)) (shutdown s), Other)
  | Shutdown, Idle => Some (State (memory s) (queues s) (threads s) true, Other)
  | _, _ => None
  end.

(** Whether thread [i] can make a call. *)
Definition can (s : state) (i : nat) (c : call) : bool :=
  match threads s !! i, c with
  | Some Idle, Store q _ _ | Some Idle, Wait q _ => bool_decide (is_Some (queues s !! q))
  | Some Idle, Move src dst _ =>
      bool_decide (src <> dst) && bool_decide (is_Some (queues s !! src)) && bool_decide (is_Some (queues s !! dst))
  | Some Idle, Wakeup _ | Some Idle, Shutdown => true
  | Some (Waiting _ _ _), GoOn => true
  | Some (MustWake _), WakeupMoved => true
  | _, _ => false
  end.

(** [nq] queues and [nt] threads, in memory that holds other things. *)
Definition initial (h : heap) (nq nt : nat) : state :=
  State h (replicate nq sge_tq_create) (replicate nt Idle) false.

(** The state behind a sequence of steps and the events on the way. *)
Inductive runs (h : heap) (nq nt : nat) : state -> list event -> Prop :=
  | runs_initial : runs h nq nt (initial h nq nt) []
  | runs_step s events i c s' e :
      runs h nq nt s events -> perform s i c = Some (s', e) -> runs h nq nt s' (events ++ [e]).

End WithData.

Arguments sge_tq_task_t : clear implicits.
Arguments state : clear implicits.
Arguments event : clear implicits.

End TaskQueue.
