(* ===== verification/TaskQueueProps.v ===== *)
(** TaskQueueProps: a task queue hands every task out once and in order, and no thread sleeps
    while there is a task for it. *)

From S2P Require Import Prelude SList SListFacts SListProps TaskQueue.
Import SList SListFacts SListProps TaskQueue.

Module TaskQueueProps.

#[local] Arguments sge_sl_dechain : simpl never.
#[local] Arguments sge_sl_elem_insert : simpl never.
#[local] Arguments take_task : simpl never.

Section Queues.
Context {D : Type} `{Malloc}.
Abbreviation task := (sge_tq_task_t D).
Abbreviation heap := (gmap positive (sge_sl_elem_t task)).
Abbreviation content := (list (positive * task)).

(** ** Queues on sequences *)

Definition matches (t : sge_tq_type_t) (x : task) : Prop := t = SGE_TQ_UNKNOWN \/ t = type x.

#[export] Instance matches_dec t x : Decision (matches t x).
Proof. unfold matches. apply _. Defined.

Lemma compare_type_spec t (x : task) : sge_tq_task_compare_type t x = 0 <-> matches t x.
Proof.
  unfold sge_tq_task_compare_type, matches. case_bool_decide; [tauto|].
  assert (type_value t = type_value (type x) <-> t = type x) as <- by (destruct t, (type x); simpl; split; (done || lia)).
  zcases; intuition (done || lia).
Qed.

(** What a step makes of the contents of the queues. *)
Inductive spec_step : list (list task) -> event D -> list (list task) -> Prop :=
  | spec_other ds : spec_step ds Other ds
  | spec_stored ds q xs x : ds !! q = Some xs -> type x <> SGE_TQ_UNKNOWN -> spec_step ds (Stored q x) (<[q := xs ++ [x]]> ds)
  | spec_returned ds q t l1 x l2 : ds !! q = Some (l1 ++ x :: l2) -> matches t x -> Forall (fun y => ~ matches t y) l1 ->
      spec_step ds (Returned q t (Some x)) (<[q := l1 ++ l2]> ds)
  | spec_nothing ds q t xs : ds !! q = Some xs -> Forall (fun y => ~ matches t y) xs -> spec_step ds (Returned q t None) ds
  | spec_moved ds src dst (P : task -> Prop) `{forall x, Decision (P x)} xs ys : src <> dst ->
      ds !! src = Some xs -> ds !! dst = Some ys ->
      spec_step ds (Moved src dst (filter P xs) (length (filter P xs)))
        (<[src := filter (fun x => ~ P x) xs]> (<[dst := ys ++ filter P xs]> ds)).

(** ** Several lists in one heap *)

Definition lists_ok (h : heap) (qs : list sge_tq_queue_t) (cs : list content) : Prop :=
  length cs = length qs /\
  (forall q queue xs, qs !! q = Some queue -> cs !! q = Some xs -> dlist h (tasks queue) xs) /\
  (forall q q' xs xs', q <> q' -> cs !! q = Some xs -> cs !! q' = Some xs' -> xs.*1 ## xs'.*1).

Lemma dlist_outside (h h' : heap) l xs ns : dlist h l xs -> same_but h h' ns -> xs.*1 ## ns -> dlist h' l xs.
Proof. intros [] Hs Hd. split; try done. by eapply dseg_outside. Qed.

Lemma dlist_in_dom (h : heap) l (xs : content) p : dlist h l xs -> p ∈ xs.*1 -> p ∈ dom h.
Proof. intros [_ _ _ _ Hs]. by apply (dseg_in_dom _ _ _ _ _ Hs). Qed.

Lemma lists_content h qs cs q queue : lists_ok h qs cs -> qs !! q = Some queue -> exists xs, cs !! q = Some xs.
Proof. intros (Hl & _) Hq. apply lookup_lt_Some in Hq. rewrite <- Hl in Hq. apply lookup_lt_is_Some in Hq as [xs ?]. by exists xs. Qed.

Lemma lists_update h qs cs q queue xs h' queue' xs' ns : lists_ok h qs cs ->
  qs !! q = Some queue -> cs !! q = Some xs ->
  dlist h' (tasks queue') xs' -> same_but h h' ns -> xs'.*1 ⊆ ns ->
  (forall q' ys, q' <> q -> cs !! q' = Some ys -> ys.*1 ## ns) ->
  lists_ok h' (<[q := queue']> qs) (<[q := xs']> cs).
Proof.
  intros (Hl & Hd & Hp) Hq Hc Hd' Hs Hin Ho. split; [by rewrite !length_insert|]. split.
  - intros q1 queue1 xs1 [(<- & <- & _)|[Hne H1]]%list_lookup_insert_Some [(E & <- & _)|[Hne2 H2]]%list_lookup_insert_Some;
      try done. eapply dlist_outside; [by eapply Hd|done|by eapply Ho].
  - assert (forall q1 xs1, q <> q1 -> cs !! q1 = Some xs1 -> xs1.*1 ## xs'.*1) as Hx.
    { intros q1 xs1 Hne H1. specialize (Ho q1 xs1 ltac:(done) H1). set_solver. }
    intros q1 q2 xs1 xs2 Hne [(<- & <- & _)|[Hne1 H1]]%list_lookup_insert_Some [(<- & <- & _)|[Hne2 H2]]%list_lookup_insert_Some.
    + done.
    + intros p H1 H3. by eapply (Hx q2 xs2 Hne H2).
    + by eapply Hx.
    + by eapply (Hp q1 q2).
Qed.

Lemma lists_waiting h qs cs q queue n : lists_ok h qs cs -> qs !! q = Some queue ->
  lists_ok h (<[q := TQ (tasks queue) n]> qs) cs.
Proof.
  intros Hok Hq. destruct (lists_content _ _ _ _ _ Hok Hq) as [xs Hc]. rewrite <- (list_insert_id cs q xs) by done.
  pose proof Hok as (_ & Hd & Hp).
  eapply (lists_update _ _ _ _ _ _ h _ xs xs.*1); [done|done|done|exact (Hd q queue xs Hq Hc)|by intros ? _|done|].
  intros q' ys Hne Hy. by apply (Hp q' q).
Qed.

(** ** One queue *)

Lemma append_spec h l (xs : content) (x : task) : dlist h l xs ->
  exists h' l' p, sge_sl_insert h l x SGE_SL_BACKWARD = Some (h', l') /\ dlist h' l' (xs ++ [(p, x)]) /\
    p ∉ dom h /\ same_but h h' (p :: xs.*1).
Proof.
  intros Hd. unfold sge_sl_insert, sge_sl_elem_create. set (p := malloc_at (dom h)).
  assert (p ∉ dom h) as Hp by apply malloc_fresh.
  assert (p ∉ xs.*1) as Hnew by (intros Hin; by eapply Hp, dlist_in_dom).
  assert (same_but h (<[p:=Elem None None x]> h) [p]) as Hs.
  { intros q Hq. apply lookup_insert_ne. set_solver. }
  destruct (elem_insert_spec (<[p:=Elem None None x]> h) l xs p x SGE_SL_BACKWARD) as (h' & l' & -> & [Hi Hb]).
  { eapply dlist_outside; [done|done|set_solver]. }
  { apply lookup_insert_eq. }
  { done. }
  exists h', l', p. split; [done|]. split; [done|]. split; [done|].
  eapply same_but_mono; [by eapply same_but_trans|]. rewrite app_nil_r. set_solver.
Qed.

Lemma find_match t (xs : content) : first_match (sge_tq_task_compare_type t) xs = find (fun x => bool_decide (matches t x.2)) xs.
Proof.
  unfold first_match. induction xs as [|x xs IH]; simpl; [done|]. rewrite IH.
  assert ((sge_tq_task_compare_type t x.2 =? 0) = bool_decide (matches t x.2)) as ->; [|done].
  apply eq_true_iff_eq. rewrite Z.eqb_eq, bool_decide_eq_true. apply compare_type_spec.
Qed.

(** What the search finds, and what is left when it is taken. *)
Lemma take_spec h queue (xs : content) t : dlist h (tasks queue) xs ->
  exists elem, search_task h queue t = Some elem /\
    match elem with
    | None => Forall (fun x => ~ matches t x) xs.*2
    | Some _ =>
        exists l1 p x l2 h' l', xs = l1 ++ (p, x) :: l2 /\ matches t x /\ Forall (fun x => ~ matches t x) l1.*2 /\
          (forall n, take_task h (TQ (tasks queue) n) elem = Some (h', TQ l' n, Some x)) /\
          dlist h' l' (l1 ++ l2) /\ same_but h h' xs.*1
    end.
Proof.
  intros Hd. unfold search_task. rewrite (search_spec _ _ _ _ _ Hd). simpl. eexists. split; [done|].
  pose proof (first_match_split (sge_tq_task_compare_type t) xs) as Hf.
  destruct (first_match _ xs) as [[p x]|]; simpl in *.
  - destruct Hf as (l1 & l2 & -> & Hx & H1). exists l1, p, x, l2.
    destruct (dechain_spec _ _ _ _ _ _ Hd) as (h' & l' & E & Hd' & Hp & Hs).
    exists (delete p h'), l'. split; [done|]. split; [by apply compare_type_spec|]. split.
    { apply Forall_fmap. eapply Forall_impl; [exact H1|]. intros y Hy. simpl in *. by rewrite <- compare_type_spec. }
    split; [|split].
    + intros n. unfold take_task. cbn [tasks]. rewrite E. simpl. rewrite Hp. simpl. done.
    + destruct (nodup_parts _ _ _ _ (dl_nodup _ _ _ Hd)) as (_ & _ & Hp1 & Hp2 & _).
      eapply dlist_outside; [exact Hd'| |].
      * instantiate (1 := [p]). intros q Hq. apply lookup_delete_ne. set_solver.
      * rewrite fmap_app. set_solver.
    + intros q Hq. rewrite lookup_delete_ne, Hs; [done|done|]. intros ->. apply Hq. rewrite fmap_app. set_solver.
  - apply Forall_fmap. eapply Forall_impl; [exact Hf|]. intros y Hy. simpl in *. by rewrite <- compare_type_spec.
Qed.

(** ** Moving between two queues *)

Lemma filter_all {A} (P : A -> Prop) `{forall x, Decision (P x)} l : Forall P l -> filter P l = l.
Proof. induction 1 as [|x l Hx _ IH]; [done|]. by rewrite filter_cons, decide_True, IH. Qed.

Lemma filter_nothing {A} (P : A -> Prop) `{forall x, Decision (P x)} l : Forall (fun x => ~ P x) l -> filter P l = [].
Proof. induction 1 as [|x l Hx _ IH]; [done|]. by rewrite filter_cons, decide_False. Qed.

Lemma move_disjoint (a c d : list positive) p : p ∉ a -> p ∉ c -> a ++ p :: c ## d ->
  p ∉ d /\ a ++ c ## p :: d /\ a ++ c ## d ++ [p].
Proof. set_solver. Qed.

Section Move.
Context (cmp_func : task -> Z).

Lemma move_spec fuel h src dst (ys zs ds : content) count :
  dlist h src (ys ++ zs) -> dlist h dst ds -> (ys ++ zs).*1 ## ds.*1 -> (length zs <= fuel)%nat ->
  exists h' src' dst', let taken := filter (fun x => cmp_func x.2 = 0) zs in
    move_loop fuel h src dst (fst <$> first_match cmp_func zs) cmp_func count =
      Some (h', src', dst', (count + length taken)%nat) /\
    dlist h' src' (ys ++ filter (fun x => ~ cmp_func x.2 = 0) zs) /\ dlist h' dst' (ds ++ taken) /\
    same_but h h' ((ys ++ zs).*1 ++ ds.*1).
Proof.
  revert h src dst ys zs ds count. induction fuel as [|fuel IH]; intros h src dst ys zs ds count Hs Hd Hdis Hf.
  { destruct zs; simpl in Hf; [|lia]. exists h, src, dst. cbn. rewrite !app_nil_r, Nat.add_0_r in *. done. }
  pose proof (first_match_split cmp_func zs) as Hm. destruct (first_match cmp_func zs) as [[p x]|].
  - destruct Hm as (l1 & l2 & -> & Hx & H1). cbn [move_loop fmap option_fmap option_map].
    rewrite app_assoc in Hs, Hdis. rewrite (search_from_spec _ _ _ _ _ _ _ _ Hs). simpl.
    destruct (dechain_spec _ _ _ _ _ _ Hs) as (h1 & src1 & -> & Hs1 & Hp1 & B1). simpl.
    destruct (nodup_parts _ _ _ _ (dl_nodup _ _ _ Hs)) as (_ & _ & Hq1 & Hq2 & _).
    assert (((ys ++ l1) ++ (p, x) :: l2).*1 ## ds.*1) as Hdis' by done. rewrite fmap_app in Hdis'. simpl in Hdis'.
    destruct (move_disjoint _ _ _ _ Hq1 Hq2 Hdis') as (Hpd & Hp & Hp'). rewrite <- fmap_app in Hp, Hp'.
    assert (dlist h1 dst ds) as Hd1 by (eapply dlist_outside; [exact Hd|exact B1|]; intros q ? ?; by apply (Hdis q)).
    destruct (elem_insert_spec h1 dst ds p x SGE_SL_BACKWARD Hd1 Hp1 Hpd) as (h2 & dst2 & -> & [Hd2 B2]). simpl.
    rewrite app_nil_r in B2.
    destruct (IH h2 src1 dst2 (ys ++ l1) l2 (ds ++ [(p, x)]) (S count)) as (h3 & src3 & dst3 & E & Hs3 & Hd3 & B3).
    + by eapply dlist_outside.
    + done.
    + by rewrite (fmap_app _ ds).
    + rewrite length_app in Hf. simpl in Hf. lia.
    + exists h3, src3, dst3. cbn zeta. rewrite E. rewrite !filter_app.
      rewrite (filter_nothing (fun x : positive * task => cmp_func x.2 = 0) l1), (filter_all (fun x : positive * task => ~ cmp_func x.2 = 0) l1) by done.
      rewrite !filter_cons. rewrite decide_True by done. rewrite decide_False by (intros H2; by apply H2).
      simpl. split; [do 2 f_equal; lia|]. split; [by rewrite app_assoc in *|]. split; [by rewrite <- app_assoc in Hd3|].
      eapply same_but_mono; [eapply same_but_trans; [eapply same_but_trans|]; eassumption|]. rewrite !fmap_app. simpl. clear. set_solver.
  - exists h, src, dst. cbn zeta.
    rewrite (filter_nothing (fun x : positive * task => cmp_func x.2 = 0)), (filter_all (fun x : positive * task => ~ cmp_func x.2 = 0)) by done.
    simpl. rewrite app_nil_r, Nat.add_0_r. by destruct fuel.
Qed.

End Move.

(** ** Threads *)

Definition waits_at (q : nat) (p : phase) : bool :=
  match p with Waiting q' _ _ => bool_decide (q' = q) | _ => false end.

(** The number of threads that wait at a queue. *)
Fixpoint waiters (q : nat) (ts : list phase) : Z :=
  match ts with [] => 0 | p :: ts => Z.b2z (waits_at q p) + waiters q ts end.

Lemma waiters_bound q ts : 0 <= waiters q ts <= length ts.
Proof. induction ts as [|p ts IH]; simpl; [lia|]. destruct (waits_at q p); simpl; lia. Qed.

Lemma waiters_insert q ts i p p' : ts !! i = Some p ->
  waiters q (<[i := p']> ts) = waiters q ts - Z.b2z (waits_at q p) + Z.b2z (waits_at q p').
Proof.
  revert i. induction ts as [|x ts IH]; intros [|i] Hi; simpl in *; simplify_eq; [lia|]. rewrite IH by done. lia.
Qed.

Lemma waiters_notify q q' ts : waiters q (sge_tq_wakeup_waiting q' ts) = waiters q ts.
Proof. induction ts as [|p ts IH]; simpl; [done|]. rewrite IH. by destruct p. Qed.

Lemma waiters_in q ts i t n : ts !! i = Some (Waiting q t n) -> 0 < waiters q ts.
Proof.
  revert i. induction ts as [|x ts IH]; intros [|i] Hi; simpl in *; simplify_eq.
  - simpl. rewrite bool_decide_true by done. pose proof (waiters_bound q ts). simpl. lia.
  - pose proof (IH i Hi). destruct (waits_at q x); simpl; lia.
Qed.

(** A sleeping thread has nothing to do, or is about to be woken. *)
Definition awake (ts : list phase) (ds : list (list task)) : Prop :=
  forall i q t, ts !! i = Some (Waiting q t false) ->
    (exists xs, ds !! q = Some xs /\ Forall (fun x => ~ matches t x) xs) \/ exists j, ts !! j = Some (MustWake q).

Definition values (cs : list content) : list (list task) := (fun xs => xs.*2) <$> cs.

Record inv (s : state D) (cs : list content) : Prop := {
  inv_lists : lists_ok (memory s) (queues s) cs;
  inv_waiting q queue : queues s !! q = Some queue -> waiting queue = waiters q (threads s);
  inv_exists i q t n : threads s !! i = Some (Waiting q t n) -> (q < length (queues s))%nat;
  inv_awake : awake (threads s) (values cs);
  inv_threads : length (threads s) < 4294967296;
}.

Lemma notify_lookup ts q i p : sge_tq_wakeup_waiting q ts !! i = Some p ->
  exists p', ts !! i = Some p' /\ p = notify q p'.
Proof. unfold sge_tq_wakeup_waiting. rewrite list_lookup_fmap, fmap_Some. intros (p' & ? & ->). by exists p'. Qed.

Lemma notify_sleeps q p q' t : notify q p = Waiting q' t false -> p = Waiting q' t false /\ q' <> q.
Proof. destruct p; simpl; try done. intros [= <- <- Hn]. apply orb_false_iff in Hn as [-> Hn]. by case_bool_decide. Qed.

(** Nothing changes for a sleeping thread when only other queues change, or tasks go. *)
Lemma awake_weaken ts ds ds' : awake ts ds ->
  (forall q xs, ds !! q = Some xs -> exists xs', ds' !! q = Some xs' /\ (forall x, x ∈ xs' -> x ∈ xs)) -> awake ts ds'.
Proof.
  intros Ha Hs i q t Hi. destruct (Ha i q t Hi) as [(xs & Hx & Hf)|]; [left|by right].
  destruct (Hs q xs Hx) as (xs' & Hx' & Hin). exists xs'. split; [done|]. rewrite Forall_forall in *. auto.
Qed.

(** A thread that does not wake up others goes to a phase in which it does not sleep. *)
Lemma awake_thread ts ds i p p' : awake ts ds -> ts !! i = Some p -> (forall q, p <> MustWake q) ->
  (forall q t, p' = Waiting q t false -> exists xs, ds !! q = Some xs /\ Forall (fun x => ~ matches t x) xs) ->
  awake (<[i := p']> ts) ds.
Proof.
  intros Ha Hi Hm Hp j q t [(<- & -> & _)|[Hne Hj]]%list_lookup_insert_Some; [left; by apply Hp|].
  destruct (Ha j q t Hj) as [|[k Hk]]; [by left|right]. exists k. rewrite list_lookup_insert_ne; [done|].
  intros <-. rewrite Hi in Hk. by eapply Hm; injection Hk.
Qed.

(** Waking the threads of a queue makes up for anything that came into it. *)
Lemma awake_notify ts ds ds' q : awake ts ds -> (forall q', q' <> q -> ds' !! q' = ds !! q') ->
  awake (sge_tq_wakeup_waiting q ts) ds'.
Proof.
  intros Ha Hs i q' t (p' & Hi & Hp)%notify_lookup. symmetry in Hp. apply notify_sleeps in Hp as [-> Hne].
  destruct (Ha i q' t Hi) as [(xs & Hx & Hf)|[j Hj]]; [left|right].
  - exists xs. by rewrite Hs.
  - exists j. unfold sge_tq_wakeup_waiting. by rewrite list_lookup_fmap, Hj.
Qed.

Lemma values_lookup (cs : list content) q : values cs !! q = (fun xs => xs.*2) <$> cs !! q.
Proof. apply list_lookup_fmap. Qed.

Lemma values_insert (cs : list content) q xs : values (<[q := xs]> cs) = <[q := xs.*2]> (values cs).
Proof. apply list_fmap_insert. Qed.

Lemma filter_disjoint (P : task -> Prop) `{forall x, Decision (P x)} (xs : content) : NoDup xs.*1 ->
  (filter (fun x => P x.2) xs).*1 ## (filter (fun x => ~ P x.2) xs).*1.
Proof.
  intros Hn p ([p1 x1] & -> & [H1 H1']%list_elem_of_filter)%list_elem_of_fmap ([p2 x2] & E & [H2 H2']%list_elem_of_filter)%list_elem_of_fmap.
  simpl in *. subst p2. assert (x1 = x2) as ->; [|done].
  apply list_elem_of_lookup in H1' as [i Hi]. apply list_elem_of_lookup in H2' as [j Hj].
  assert (i = j) as ->; [|by simplify_eq].
  eapply (NoDup_lookup xs.*1); [done| |]; rewrite list_lookup_fmap; [by rewrite Hi|by rewrite Hj].
Qed.

Lemma filter_nodes (P : task -> Prop) `{forall x, Decision (P x)} (xs : content) : (filter (fun x => P x.2) xs).*1 ⊆ xs.*1.
Proof. intros p (x & -> & [_ Hx]%list_elem_of_filter)%list_elem_of_fmap. by apply list_elem_of_fmap_2. Qed.

Lemma filter_values (P : task -> Prop) `{forall x, Decision (P x)} (xs : content) : (filter (fun x => P x.2) xs).*2 = filter P xs.*2.
Proof. induction xs as [|x xs IH]; [done|]. rewrite fmap_cons, !filter_cons. case_decide; [|done]. by rewrite fmap_cons, IH. Qed.

Lemma lists_move h qs cs src dst a b xs ys (P : task -> Prop) `{forall x, Decision (P x)} h' l l' : lists_ok h qs cs ->
  src <> dst -> qs !! src = Some a -> qs !! dst = Some b -> cs !! src = Some xs -> cs !! dst = Some ys ->
  dlist h' l (filter (fun x => ~ P x.2) xs) -> dlist h' l' (ys ++ filter (fun x => P x.2) xs) ->
  same_but h h' (xs.*1 ++ ys.*1) ->
  lists_ok h' (<[src := TQ l (waiting a)]> (<[dst := TQ l' (waiting b)]> qs))
    (<[src := filter (fun x => ~ P x.2) xs]> (<[dst := ys ++ filter (fun x => P x.2) xs]> cs)).
Proof.
  intros (Hl & Hd & Hp) Hne Ha Hb Hx Hy Hd1 Hd2 Hs.
  pose proof (filter_nodes P xs) as Hi1. pose proof (filter_nodes (fun x => ~ P x) xs) as Hi2.
  pose proof (filter_disjoint P xs (dl_nodup _ _ _ (Hd _ _ _ Ha Hx))) as Hi3. pose proof (Hp src dst xs ys Hne Hx Hy) as Hxy.
  split; [by rewrite !length_insert|]. split.
  - intros q queue zs [(<- & <- & _)|[H1 [(<- & <- & _)|[H2 Hq]]%list_lookup_insert_Some]]%list_lookup_insert_Some
      [(E1 & <- & _)|[H3 [(E2 & <- & _)|[H4 Hz]]%list_lookup_insert_Some]]%list_lookup_insert_Some; try done.
    eapply dlist_outside; [by eapply Hd|done|]. intros p Hp1 [Hp2|Hp2]%elem_of_app.
    + by eapply (Hp q src).
    + by eapply (Hp q dst).
  - assert (forall q zs, src <> q -> dst <> q -> cs !! q = Some zs ->
      (filter (fun x => ~ P x.2) xs).*1 ## zs.*1 /\ (ys ++ filter (fun x => P x.2) xs).*1 ## zs.*1) as Ho.
    { intros q zs H1 H2 Hz. pose proof (Hp src q xs zs H1 Hx Hz) as G1. pose proof (Hp dst q ys zs H2 Hy Hz) as G2.
      rewrite fmap_app. split; [intros p Hp1 Hp2; by apply (G1 p); [apply Hi2|]|].
      intros p [Hp1|Hp1]%elem_of_app Hp2; [by apply (G2 p)|]. by apply (G1 p); [apply Hi1|]. }
    assert ((filter (fun x => ~ P x.2) xs).*1 ## (ys ++ filter (fun x => P x.2) xs).*1) as Hi4.
    { rewrite fmap_app. intros p Hp1 [Hp2|Hp2]%elem_of_app; [by apply (Hxy p); [apply Hi2|]|by apply (Hi3 p)]. }
    intros q q' zs zs' Hqq [(<- & <- & _)|[H1 [(<- & <- & _)|[H2 Hq]]%list_lookup_insert_Some]]%list_lookup_insert_Some
      [(E1 & <- & _)|[H3 [(E2 & <- & _)|[H4 Hz]]%list_lookup_insert_Some]]%list_lookup_insert_Some; subst; try done.
    + by apply (Ho q').
    + intros p Hp1 Hp2. by apply (Hi4 p).
    + by apply (Ho q').
    + intros p Hp1 Hp2. by apply (proj1 (Ho q zs H1 H2 Hq) p).
    + intros p Hp1 Hp2. by apply (proj2 (Ho q zs H1 H2 Hq) p).
    + by eapply (Hp q q').
Qed.

(** A step of a thread that waits, or begins to. *)
Lemma inv_set s cs q queue xs i p p' h' l' xs' n sd : inv s cs ->
  queues s !! q = Some queue -> cs !! q = Some xs -> threads s !! i = Some p ->
  dlist h' l' xs' -> same_but (memory s) h' xs.*1 -> xs'.*1 ⊆ xs.*1 -> (forall x, x ∈ xs'.*2 -> x ∈ xs.*2) ->
  (forall q', p <> MustWake q') -> (forall q', q' <> q -> waits_at q' p = false /\ waits_at q' p' = false) ->
  n = waiting queue - Z.b2z (waits_at q p) + Z.b2z (waits_at q p') ->
  (forall q' t, p' = Waiting q' t false -> Forall (fun x => ~ matches t x) xs'.*2) ->
  inv (State h' (<[q := TQ l' n]> (queues s)) (<[i := p']> (threads s)) sd) (<[q := xs']> cs).
Proof.
  intros Hi Hq Hc Ht Hd Hs Hn Hv Hm Hw -> Hp'. pose proof (inv_lists _ _ Hi) as (Hl & _ & Hdis).
  pose proof (lookup_lt_Some _ _ _ Hc) as Hlt. split; simpl.
  - eapply (lists_update _ _ _ q queue xs); [apply Hi|done|done|done|done|done|]. intros q' ys Hne Hy. by apply (Hdis q' q).
  - intros q' queue' [(<- & <- & _)|[Hne Hq']]%list_lookup_insert_Some; rewrite (waiters_insert _ _ _ p) by done; simpl.
    + by rewrite (inv_waiting _ _ Hi q queue Hq).
    + destruct (Hw q' ltac:(done)) as [-> ->]. rewrite (inv_waiting _ _ Hi q' queue' Hq'). simpl. lia.
  - intros j q' t b [(<- & -> & _)|[_ Hj]]%list_lookup_insert_Some; rewrite length_insert; [|by eapply (inv_exists _ _ Hi)].
    destruct (decide (q' = q)) as [->|Hne]; [by eapply lookup_lt_Some|]. destruct (Hw q' Hne) as [_ E]. simpl in E.
    by rewrite bool_decide_true in E.
  - eapply (awake_thread _ _ _ p); [|done|done|].
    + eapply awake_weaken; [apply Hi|]. intros q' ys Hy. rewrite values_lookup in Hy |- *.
      destruct (decide (q' = q)) as [->|Hne].
      * rewrite list_lookup_insert_eq by done. rewrite Hc in Hy. simpl in *. simplify_eq. by eexists.
      * rewrite list_lookup_insert_ne by done. by eexists.
    + intros q' t ->. assert (q' = q) as ->.
      { destruct (decide (q' = q)) as [|Hne]; [done|]. destruct (Hw q' Hne) as [_ E]. simpl in E. by rewrite bool_decide_true in E. }
      exists xs'.*2. rewrite values_lookup, list_lookup_insert_eq by done. split; [done|]. by eapply Hp'.
  - rewrite length_insert. apply Hi.
Qed.

(** ** Every step *)

Definition performed (s : state D) (cs : list content) (i : nat) (c : call) : Prop :=
  exists s' e cs', perform s i c = Some (s', e) /\ inv s' cs' /\ spec_step (values cs) e (values cs') /\
    (forall q t, e = Returned q t None -> shutdown s = true).

Lemma queue_eta (queue : sge_tq_queue_t) : queue = TQ (tasks queue) (waiting queue).
Proof. by destruct queue. Qed.

Lemma waiting_small s cs q queue : inv s cs -> queues s !! q = Some queue -> 0 <= waiting queue < 4294967296.
Proof.
  intros Hi Hq. rewrite (inv_waiting _ _ Hi q queue Hq). pose proof (waiters_bound q (threads s)).
  pose proof (inv_threads _ _ Hi). lia.
Qed.

Lemma perform_store s cs i q t d : inv s cs -> threads s !! i = Some Idle -> is_Some (queues s !! q) ->
  performed s cs i (Store q t d).
Proof.
  intros Hi Ht [queue Hq]. unfold performed, perform. rewrite Ht, Hq. simpl. unfold sge_tq_store_notify.
  assert (<[q:=queue]> (queues s) = queues s) as Eq by (by apply list_insert_id).
  assert (exists s' e' cs', Some (State (memory s) (queues s) (threads s) (shutdown s), Other) = Some (s', e') /\
    inv s' cs' /\ spec_step (values cs) e' (values cs') /\ (forall q t, e' = Returned q t None -> shutdown s = true)) as Hno.
  { exists s, Other, cs. split; [by destruct s|]. split; [done|]. split; [constructor|done]. }
  destruct d as [d|]; simpl; [|by rewrite Eq]. case_bool_decide as Hu; simpl.
  { by rewrite Eq. }
  destruct (lists_content _ _ _ _ _ (inv_lists _ _ Hi) Hq) as [xs Hc]. pose proof (inv_lists _ _ Hi) as (Hl & Hd & Hdis).
  destruct (append_spec _ _ _ (Task t d) (Hd q queue xs Hq Hc)) as (h' & l' & p & -> & Hd' & Hp & Hs). simpl.
  set (x := Task t d). exists (State h' (<[q:=TQ l' (waiting queue)]> (queues s))
    (if 0 <? waiting queue then sge_tq_wakeup_waiting q (threads s) else threads s) (shutdown s)), (Stored q x), (<[q := xs ++ [(p, x)]]> cs).
  split; [done|]. assert (forall q' ys, q' <> q -> cs !! q' = Some ys -> ys.*1 ## p :: xs.*1) as Hout.
  { intros q' ys Hne Hy r Hr [->|Hr']%elem_of_cons; [|by apply (Hdis q' q ys xs Hne Hy Hc r)].
    assert (is_Some (queues s !! q')) as [queue' Hq'] by (apply lookup_lt_is_Some; rewrite <- Hl; by eapply lookup_lt_Some).
    apply Hp. by apply (dlist_in_dom _ _ ys p (Hd q' queue' ys Hq' Hy)). }
  split; [|split; [|done]].
  - split; simpl.
    + eapply (lists_update _ _ _ q queue xs); [apply Hi|done|done|done|done| |done].
      rewrite fmap_app. simpl. intros r. rewrite elem_of_app, list_elem_of_singleton, elem_of_cons. tauto.
    + intros q' queue' H'. assert (queues s !! q' = Some queue' \/ q' = q /\ waiting queue' = waiting queue) as [H1|[-> ->]].
      { apply list_lookup_insert_Some in H' as [(<- & <- & _)|[_ ?]]; [by right|by left]. }
      * rewrite (inv_waiting _ _ Hi q' queue' H1). destruct (0 <? waiting queue); [by rewrite waiters_notify|done].
      * rewrite (inv_waiting _ _ Hi q queue Hq). destruct (0 <? _); [by rewrite waiters_notify|done].
    + intros j q' t' n Hj. rewrite length_insert. destruct (0 <? waiting queue); [|by eapply (inv_exists _ _ Hi)].
      apply notify_lookup in Hj as ([| ? ? ? |] & Hj & E); simpl in E; try done. injection E as -> -> _. by eapply (inv_exists _ _ Hi).
    + assert (forall q', q' <> q -> values (<[q:=xs ++ [(p, x)]]> cs) !! q' = values cs !! q') as Hsame.
      { intros q' Hne. by rewrite !values_lookup, list_lookup_insert_ne. }
      destruct (Z.ltb_spec 0 (waiting queue)) as [Hw|Hw]; [by eapply awake_notify; [apply Hi|]|].
      intros j q' t' Hj. assert (q' <> q) as Hne.
      { intros ->. apply waiters_in in Hj. rewrite (inv_waiting _ _ Hi q queue Hq) in Hw. lia. }
      rewrite Hsame by done. by apply (inv_awake _ _ Hi j q' t').
    + destruct (0 <? waiting queue); [|apply Hi]. unfold sge_tq_wakeup_waiting. rewrite length_fmap. apply Hi.
  - rewrite values_insert, fmap_app. apply spec_stored; [by rewrite values_lookup, Hc|done].
Qed.

(** The two parts of [sge_tq_wait_for_task] differ in whether the thread is counted. *)
Lemma perform_wait s cs i q queue t p (counted : bool) :
  inv s cs -> threads s !! i = Some p -> queues s !! q = Some queue ->
  p = (if counted then Waiting q t true else Idle) \/ counted = true /\ p = Waiting q t false ->
  exists s' e cs',
    (r ← (if counted then wait_goes_on else sge_tq_wait_for_task) (memory s) queue t (shutdown s);
     Some (after_wait s i q t r)) = Some (s', e) /\ inv s' cs' /\ spec_step (values cs) e (values cs') /\
    (forall q t, e = Returned q t None -> shutdown s = true).
Proof.
  intros Hi Ht Hq Hp. destruct (lists_content _ _ _ _ _ (inv_lists _ _ Hi) Hq) as [xs Hc].
  pose proof (inv_lists _ _ Hi) as (Hl & Hd & Hdis). pose proof (waiting_small s cs q queue Hi Hq) as Hsmall.
  destruct (take_spec (memory s) queue xs t (Hd q queue xs Hq Hc)) as (elem & E & Htake).
  assert (forall q', p <> MustWake q') as Hm by (destruct Hp as [->|[_ ->]]; [destruct counted|]; done).
  assert (Z.b2z (waits_at q p) = Z.b2z counted) as Hwq.
  { destruct Hp as [->|[-> ->]]; [destruct counted|]; simpl; try done; by rewrite bool_decide_true. }
  assert (forall q', q' <> q -> waits_at q' p = false) as Hwo.
  { intros q' Hne. destruct Hp as [->|[-> ->]]; [destruct counted|]; simpl; try done; by rewrite bool_decide_false. }
  assert (counted = true -> 0 < waiting queue) as Hpos.
  { intros ->. rewrite (inv_waiting _ _ Hi q queue Hq). destruct Hp as [->|[_ ->]]; by eapply waiters_in. }
  assert (<[q := xs]> cs = cs) as Ecs by (by apply list_insert_id).
  assert (values cs !! q = Some xs.*2) as Hv by (by rewrite values_lookup, Hc).
  destruct elem as [a|].
  - destruct Htake as (l1 & b & x & l2 & h' & l' & -> & Hx & H1 & Htk & Hd' & Hs).
    exists (State h' (<[q := TQ l' (waiting queue - Z.b2z counted)]> (queues s)) (<[i := Idle]> (threads s)) (shutdown s)), (Returned q t (Some x)),
      (<[q := l1 ++ l2]> cs).
    split; [|split; [|split; [|done]]].
    + destruct counted; [unfold wait_goes_on|unfold sge_tq_wait_for_task]; rewrite E; simpl.
      * unfold add_waiting. rewrite Htk. simpl. rewrite u32_small by (pose proof (Hpos eq_refl); lia). by rewrite <- Z.add_opp_r.
      * rewrite (queue_eta queue), Htk. simpl. by rewrite Z.sub_0_r.
    + eapply (inv_set s cs q queue _ i p Idle); try done.
      * rewrite !fmap_app. simpl. intros r. rewrite !elem_of_app, elem_of_cons. tauto.
      * rewrite !fmap_app. simpl. intros r. rewrite !elem_of_app, elem_of_cons. tauto.
      * intros q' Hne. split; [by apply Hwo|done].
      * simpl. rewrite Hwq. lia.
    + rewrite values_insert, fmap_app. rewrite fmap_app in Hv. by apply spec_returned.
  - destruct (shutdown s) eqn:Hsd.
    + exists (State (memory s) (<[q := TQ (tasks queue) (waiting queue - Z.b2z counted)]> (queues s)) (<[i := Idle]> (threads s)) true),
        (Returned q t None), (<[q := xs]> cs).
      split; [|split; [|split]].
      * destruct counted; [unfold wait_goes_on|unfold sge_tq_wait_for_task]; rewrite E; simpl; rewrite Hsd.
        -- unfold add_waiting, take_task. simpl. rewrite u32_small by (pose proof (Hpos eq_refl); lia). by rewrite <- Z.add_opp_r.
        -- by rewrite (queue_eta queue), Z.sub_0_r.
      * eapply (inv_set s cs q queue xs i p Idle); try done; [by eapply Hd| |].
        -- intros q' Hne. split; [by apply Hwo|done].
        -- simpl. rewrite Hwq. lia.
      * rewrite Ecs. by apply (spec_nothing _ q t xs.*2).
      * done.
    + exists (State (memory s) (<[q := TQ (tasks queue) (waiting queue - Z.b2z counted + 1)]> (queues s)) (<[i := Waiting q t false]> (threads s)) false),
        Other, (<[q := xs]> cs).
      split; [|split; [|split]].
      * destruct counted; [unfold wait_goes_on|unfold sge_tq_wait_for_task]; rewrite E; simpl; rewrite Hsd.
        -- by rewrite (queue_eta queue), Z.sub_add.
        -- unfold add_waiting. rewrite u32_small, Z.sub_0_r; [done|].
           pose proof (waiters_bound q (<[i := Waiting q t false]> (threads s))) as Hb.
           rewrite (waiters_insert _ _ _ p) in Hb by done. rewrite length_insert in Hb. simpl in Hb.
           rewrite bool_decide_true, Hwq in Hb by done. rewrite (inv_waiting _ _ Hi q queue Hq) in *. pose proof (inv_threads _ _ Hi).
           simpl in *. lia.
      * eapply (inv_set s cs q queue xs i p); try done; [by eapply Hd| | |].
        -- intros q' Hne. split; [by apply Hwo|]. simpl. by rewrite bool_decide_false.
        -- simpl. rewrite Hwq, bool_decide_true by done. simpl. lia.
        -- intros q' t' [= <- <-]. done.
      * rewrite Ecs. constructor.
      * done.
Qed.

Lemma walk_content h l (xs : content) : dlist h l xs -> for_each_sl h l SGE_SL_FORWARD = Some xs.*2.
Proof.
  intros [Hn Hf _ _ Hs]. unfold for_each_sl. simpl. rewrite Hf.
  apply (walk_spec (size h) h l None xs None Hs); [by eapply dseg_size|done].
Qed.

Lemma perform_move s cs i src dst cmp_func : inv s cs -> threads s !! i = Some Idle -> src <> dst ->
  is_Some (queues s !! src) -> is_Some (queues s !! dst) -> performed s cs i (Move src dst cmp_func).
Proof.
  intros Hi Ht Hne [a Ha] [b Hb]. unfold performed, perform. rewrite Ht. cbn [mbind option_bind].
  rewrite bool_decide_false, Ha by done. cbn [mbind option_bind]. rewrite Hb. cbn [mbind option_bind].
  destruct (lists_content _ _ _ _ _ (inv_lists _ _ Hi) Ha) as [xs Hx].
  destruct (lists_content _ _ _ _ _ (inv_lists _ _ Hi) Hb) as [ys Hy].
  pose proof (inv_lists _ _ Hi) as (Hl & Hd & Hdis). pose proof (Hd _ _ _ Ha Hx) as Hdx.
  rewrite (walk_content _ _ _ Hdx). cbn [mbind option_bind]. unfold sge_tq_move_from_to_if.
  rewrite (search_spec _ _ _ _ _ Hdx). cbn [mbind option_bind in_direction].
  destruct (move_spec cmp_func (size (memory s)) (memory s) (tasks a) (tasks b) [] xs ys 0) as (h' & l & l' & E & H1 & H2 & H3).
  { done. } { by apply (Hd dst). } { by apply (Hdis src dst). } { by eapply dseg_size; [|apply Hdx]; apply Hdx. }
  cbn zeta in *. rewrite E. simpl.
  replace (length (filter (fun x : positive * task => cmp_func x.2 = 0) xs)) with (length (filter (fun x => cmp_func x = 0) xs.*2))
    by exact (eq_trans (f_equal length (eq_sym (filter_values (fun x => cmp_func x = 0) xs))) (length_fmap _ _)).
  set (n := length (filter (fun x => cmp_func x = 0) xs.*2)).
  assert ((filter (fun x : positive * task => ~ cmp_func x.2 = 0) xs).*2 = filter (fun x => ~ cmp_func x = 0) xs.*2) as Hv1
    by exact (filter_values (fun x => ~ cmp_func x = 0) xs).
  assert ((filter (fun x : positive * task => cmp_func x.2 = 0) xs).*2 = filter (fun x => cmp_func x = 0) xs.*2) as Hv2
    by exact (filter_values (fun x => cmp_func x = 0) xs).
  exists (State h' (<[src := TQ l (waiting a)]> (<[dst := TQ l' (waiting b)]> (queues s)))
    (<[i := if (0 <? n)%nat then MustWake dst else Idle]> (threads s)) (shutdown s)),
    (Moved src dst (filter (fun x => cmp_func x = 0) xs.*2) n),
    (<[src := filter (fun x => ~ cmp_func x.2 = 0) xs]> (<[dst := ys ++ filter (fun x => cmp_func x.2 = 0) xs]> cs)).
  split; [done|]. split; [|split; [|done]].
  - assert (forall q, waiters q (<[i := if (0 <? n)%nat then MustWake dst else Idle]> (threads s)) = waiters q (threads s)) as Hw.
    { intros q. rewrite (waiters_insert _ _ _ Idle) by done. destruct (0 <? n)%nat; simpl; lia. }
    split; simpl.
    + rewrite app_nil_l in H3. exact (lists_move (memory s) (queues s) cs src dst a b xs ys (fun x => cmp_func x = 0) h' l l'
        (inv_lists _ _ Hi) Hne Ha Hb Hx Hy H1 H2 H3).
    + intros q queue Hq. rewrite Hw.
      apply list_lookup_insert_Some in Hq as [(<- & <- & _)|[_ [(<- & <- & _)|[_ Hq]]%list_lookup_insert_Some]]; simpl;
        by apply (inv_waiting _ _ Hi).
    + intros j q t m Hj. rewrite !length_insert. apply list_lookup_insert_Some in Hj as [(_ & E' & _)|[_ Hj]].
      * by destruct (0 <? n)%nat.
      * by eapply (inv_exists _ _ Hi).
    + rewrite !values_insert, fmap_app, Hv1, Hv2. destruct (Nat.ltb_spec 0 n) as [Hn|Hn].
      * intros j q t Hj. destruct (decide (q = dst)) as [->|Hq]; [right|].
        { exists i. apply list_lookup_insert_eq. by eapply lookup_lt_Some. }
        apply list_lookup_insert_Some in Hj as [(_ & E' & _)|[Hij Hj]]; [done|].
        destruct (inv_awake _ _ Hi j q t Hj) as [(zs & Hz & Hf)|[k Hk]].
        -- left. destruct (decide (q = src)) as [->|Hq'].
           ++ rewrite list_lookup_insert_eq by (rewrite length_insert; by eapply lookup_lt_Some).
              eexists. split; [done|]. rewrite values_lookup, Hx in Hz. simpl in Hz. simplify_eq.
              rewrite Forall_forall in Hf |- *. intros x [_ Hin]%list_elem_of_filter. by apply Hf.
           ++ rewrite !list_lookup_insert_ne by done. by exists zs.
        -- right. exists k. rewrite list_lookup_insert_ne; [done|]. intros <-. rewrite Ht in Hk. done.
      * assert (filter (fun x => cmp_func x = 0) xs.*2 = []) as -> by (apply length_zero_iff_nil; unfold n in *; lia).
        rewrite app_nil_r. eapply (awake_thread _ _ _ Idle); [|done|done|done].
        eapply awake_weaken; [apply Hi|]. intros q zs Hz. destruct (decide (q = src)) as [->|Hq].
        -- rewrite list_lookup_insert_eq by (rewrite length_insert; by eapply lookup_lt_Some).
           eexists. split; [done|]. rewrite values_lookup, Hx in Hz. simpl in Hz. simplify_eq.
           by intros x [_ Hin]%list_elem_of_filter.
        -- rewrite list_lookup_insert_ne by done. rewrite list_insert_id; [by exists zs|]. by rewrite values_lookup, Hy.
    + rewrite length_insert. apply Hi.
  - rewrite !values_insert, fmap_app, Hv1, Hv2. apply spec_moved; [done| |].
    + by rewrite values_lookup, Hx.
    + by rewrite values_lookup, Hy.
Qed.

Lemma inv_threads_only s cs ts sd : inv s cs -> (forall q, waiters q ts = waiters q (threads s)) ->
  (forall i q t n, ts !! i = Some (Waiting q t n) -> exists n', threads s !! i = Some (Waiting q t n')) ->
  awake ts (values cs) -> length ts = length (threads s) -> inv (State (memory s) (queues s) ts sd) cs.
Proof.
  intros Hi Hw He Ha Hl. split; simpl; [apply Hi| | |done|rewrite Hl; apply Hi].
  - intros q queue Hq. rewrite Hw. by apply (inv_waiting _ _ Hi).
  - intros i q t n Hq. destruct (He _ _ _ _ Hq) as [n' Hn]. by eapply (inv_exists _ _ Hi).
Qed.

Lemma notify_threads (s : state D) q i t q' n : sge_tq_wakeup_waiting q (threads s) !! i = Some (Waiting q' t n) ->
  exists n', threads s !! i = Some (Waiting q' t n').
Proof. intros ([| ? ? n' |] & Hj & E)%notify_lookup; simpl in E; try done. injection E as -> -> _. by exists n'. Qed.

Lemma perform_ok s cs i c : inv s cs -> can s i c = true -> performed s cs i c.
Proof.
  intros Hi Hc. unfold can in Hc. destruct (threads s !! i) as [p|] eqn:Ht; [|done].
  destruct p as [|q t n|q], c as [q' t' d|q' t'| |src dst f|q'| |]; try done.
  - by apply perform_store, (bool_decide_eq_true_1 _ Hc).
  - apply bool_decide_eq_true_1 in Hc as [queue Hq].
    destruct (perform_wait s cs i q' queue t' Idle false Hi Ht Hq) as (s' & e & cs' & E & ?); [by left|].
    exists s', e, cs'. unfold perform. rewrite Ht. simpl. by rewrite Hq.
  - apply andb_true_iff in Hc as [[H1 H2]%andb_true_iff H3]. apply bool_decide_eq_true_1 in H1, H2, H3. by apply perform_move.
  - exists (State (memory s) (queues s) (sge_tq_wakeup_waiting q' (threads s)) (shutdown s)), Other, cs.
    unfold perform. rewrite Ht. split; [done|]. split; [|split; [constructor|done]].
    apply inv_threads_only; [done|intros; apply waiters_notify|intros j ? ? ? ?; by eapply notify_threads| |apply length_fmap].
    by eapply awake_notify; [apply Hi|].
  - exists (State (memory s) (queues s) (threads s) true), Other, cs. unfold perform. rewrite Ht. split; [done|].
    split; [|split; [constructor|done]]. apply inv_threads_only; [done|done|by eauto|apply Hi|done].
  - assert (is_Some (queues s !! q)) as [queue Hq] by (by apply lookup_lt_is_Some, (inv_exists _ _ Hi i q t n)).
    destruct (perform_wait s cs i q queue t _ true Hi Ht Hq) as (s' & e & cs' & E & ?); [destruct n; auto|].
    exists s', e, cs'. unfold perform. rewrite Ht. simpl. by rewrite Hq.
  - exists (State (memory s) (queues s) (<[i := Idle]> (sge_tq_wakeup_waiting q (threads s))) (shutdown s)), Other, cs.
    unfold perform. rewrite Ht. split; [done|]. split; [|split; [constructor|done]].
    assert (sge_tq_wakeup_waiting q (threads s) !! i = Some (MustWake q)) as Hn.
    { unfold sge_tq_wakeup_waiting. by rewrite list_lookup_fmap, Ht. }
    apply inv_threads_only; [done| | | |by rewrite length_insert; apply length_fmap].
    + intros q'. rewrite (waiters_insert _ _ _ (MustWake q)), waiters_notify by done. simpl. lia.
    + intros j q' t m [(_ & ? & _)|[_ Hj]]%list_lookup_insert_Some; [done|]. by eapply notify_threads.
    + intros j q' t [(_ & ? & _)|[_ Hj]]%list_lookup_insert_Some; [done|].
      apply notify_lookup in Hj as (p' & Hj & Hp). symmetry in Hp. apply notify_sleeps in Hp as [-> Hne].
      destruct (inv_awake _ _ Hi j q' t Hj) as [|[k Hk]]; [by left|right]. exists k.
      rewrite list_lookup_insert_ne; [unfold sge_tq_wakeup_waiting; by rewrite list_lookup_fmap, Hk|].
      intros <-. rewrite Ht in Hk. congruence.
Qed.

Lemma queues_initial (h : heap) (nq nt : nat) : nt < 4294967296 -> inv (initial h nq nt) (replicate nq []).
Proof.
  intros Hn. split; simpl.
  - split; [by rewrite !length_replicate|]. split.
    + intros q queue xs [-> _]%lookup_replicate [-> _]%lookup_replicate. apply (own_create (D := task)).
    + intros q q' xs xs' _ [-> _]%lookup_replicate _ p []%elem_of_nil.
  - intros q queue [-> _]%lookup_replicate. simpl. clear. induction nt; done.
  - by intros i q t n [? _]%lookup_replicate.
  - by intros i q t [? _]%lookup_replicate.
  - by rewrite length_replicate.
Qed.

(** ** Properties *)

(** The tasks in all queues. *)
Definition contents (s : state D) : option (list (list task)) :=
  mapM (fun queue => for_each_sl (memory s) (tasks queue) SGE_SL_FORWARD) (queues s).

Lemma inv_contents s cs : inv s cs -> contents s = Some (values cs).
Proof.
  intros Hi. pose proof (inv_lists _ _ Hi) as (Hl & Hd & _). apply mapM_Some_2, Forall2_lookup. intros q.
  rewrite values_lookup. destruct (queues s !! q) as [queue|] eqn:Hq.
  - destruct (lists_content _ _ _ _ _ (inv_lists _ _ Hi) Hq) as [xs Hc]. rewrite Hc. constructor. by apply walk_content, (Hd q).
  - apply lookup_ge_None in Hq. rewrite <- Hl in Hq. apply lookup_ge_None in Hq. rewrite Hq. constructor.
Qed.

Lemma perform_can (s : state D) i c s' e : perform s i c = Some (s', e) -> can s i c = true \/
  exists q t n, threads s !! i = Some (Waiting q t n) /\ c = GoOn.
Proof.
  unfold perform, can. destruct (threads s !! i) as [[|q t n|q]|]; simpl; [|right| |done].
  - left. destruct c as [q t d|q t| |src dst f|q| |]; try done; simpl in *.
    + by destruct (queues s !! q).
    + by destruct (queues s !! q).
    + case_bool_decide; [done|]. rewrite bool_decide_true by done. simpl. by destruct (queues s !! src), (queues s !! dst).
  - destruct c; try done. eauto.
  - destruct c; try done. by left.
Qed.

Lemma perform_spec s cs i c s' e : inv s cs -> perform s i c = Some (s', e) ->
  exists cs', inv s' cs' /\ spec_step (values cs) e (values cs') /\ (forall q t, e = Returned q t None -> shutdown s = true).
Proof.
  intros Hi E. assert (can s i c = true) as Hc.
  { destruct (perform_can _ _ _ _ _ E) as [|(q & t & n & Ht & ->)]; [done|]. unfold can. by rewrite Ht. }
  destruct (perform_ok s cs i c Hi Hc) as (s1 & e1 & cs1 & E1 & ?). rewrite E in E1. simplify_eq. by exists cs1.
Qed.

Lemma runs_inv (h : heap) (nq nt : nat) s events : nt < 4294967296 -> runs h nq nt s events -> exists cs, inv s cs.
Proof.
  intros Hn. induction 1 as [|s events i c s' e Hr [cs Hi] Hs]; [by eexists; apply queues_initial|].
  destruct (perform_spec _ _ _ _ _ _ Hi Hs) as (cs' & ? & _). by exists cs'.
Qed.

(** C8: Whatever any number of threads have done, every call a thread can make goes through
    without a bad access and is the step on plain sequences: storing appends a task, a thread
    that waits gets the first task of its type and removes it, moving takes exactly the tasks
    that match, in order, and counts them.  Null is returned only after the shutdown has
    begun and when there is no task of the type. *)
Theorem task_queue_refines_sequences (h : heap) (nq nt : nat) s events :
  nt < 4294967296 -> runs h nq nt s events ->
  exists ds, contents s = Some ds /\
    forall i c, can s i c = true ->
      exists s' e ds', perform s i c = Some (s', e) /\ contents s' = Some ds' /\ spec_step ds e ds' /\
        (forall q t, e = Returned q t None -> shutdown s = true).
Proof.
  intros Hn Hr. destruct (runs_inv _ _ _ _ _ Hn Hr) as [cs Hi]. exists (values cs). split; [by apply inv_contents|].
  intros i c Hc. destruct (perform_ok s cs i c Hi Hc) as (s' & e & cs' & E & Hi' & Hs & Hnull).
  exists s', e, (values cs'). by rewrite (inv_contents _ _ Hi').
Qed.

(** C14: No wake-up is lost.  A thread that sleeps without a broadcast behind it has no task to
    take, unless another thread has just moved tasks to its queue and is about to wake it.  A
    waiting thread that goes on while there is a task of its type returns with one.  The
    queue counts the threads that wait at it. *)
Theorem waiting_thread_woken (h : heap) (nq nt : nat) s events i q t notified :
  nt < 4294967296 -> runs h nq nt s events -> threads s !! i = Some (Waiting q t notified) ->
  exists ds xs queue, contents s = Some ds /\ ds !! q = Some xs /\ queues s !! q = Some queue /\
    sge_tq_get_waiting_count queue = waiters q (threads s) /\
    (Exists (matches t) xs ->
      (notified = true \/ exists j, threads s !! j = Some (MustWake q)) /\
      exists s' x, perform s i GoOn = Some (s', Returned q t (Some x)) /\ threads s' !! i = Some Idle).
Proof.
  intros Hn Hr Ht. destruct (runs_inv _ _ _ _ _ Hn Hr) as [cs Hi].
  destruct (lookup_lt_is_Some_2 _ _ (inv_exists _ _ Hi i q t notified Ht)) as [queue Hq].
  destruct (lists_content _ _ _ _ _ (inv_lists _ _ Hi) Hq) as [xs Hc].
  exists (values cs), xs.*2, queue. split; [by apply inv_contents|]. split; [by rewrite values_lookup, Hc|]. split; [done|].
  split; [by apply (inv_waiting _ _ Hi)|]. intros Hx. split.
  - destruct notified; [by left|right]. destruct (inv_awake _ _ Hi i q t Ht) as [(zs & Hz & Hf)|]; [|done].
    rewrite values_lookup, Hc in Hz. simpl in Hz. simplify_eq. by apply Forall_not_Exists in Hf.
  - destruct (take_spec (memory s) queue xs t) as (elem & E & Htake); [by apply (proj1 (proj2 (inv_lists _ _ Hi)) q)|].
    destruct elem as [a|].
    + destruct Htake as (l1 & p & x & l2 & h' & l' & -> & _ & _ & Htk & _). unfold perform. rewrite Ht. simpl. rewrite Hq. simpl.
      unfold wait_goes_on. rewrite E. simpl. unfold add_waiting. rewrite Htk. simpl. eexists _, x. split; [done|].
      simpl. apply list_lookup_insert_eq. by eapply lookup_lt_Some.
    + by apply Forall_not_Exists in Htake.
Qed.

(** ** Order *)

Definition arrived_by (q : nat) (e : event D) : list task :=
  match e with
  | Stored q' x => if bool_decide (q' = q) then [x] else []
  | Moved _ dst xs _ => if bool_decide (dst = q) then xs else []
  | _ => []
  end.
Definition served_by (q : nat) (e : event D) : list task :=
  match e with Returned q' _ (Some x) => if bool_decide (q' = q) then [x] else [] | _ => [] end.
Definition moves_from (q : nat) (e : event D) : bool :=
  match e with Moved src _ _ _ => bool_decide (src = q) | _ => false end.

Definition of_type (t : sge_tq_type_t) (xs : list task) : list task := filter (fun x => type x = t) xs.

Lemma of_type_app t xs ys : of_type t (xs ++ ys) = of_type t xs ++ of_type t ys.
Proof. apply filter_app. Qed.

Lemma spec_step_order ds e ds' q xs : spec_step ds e ds' -> moves_from q e = false -> ds !! q = Some xs ->
  exists xs', ds' !! q = Some xs' /\ forall t, of_type t (xs ++ arrived_by q e) = of_type t (served_by q e ++ xs').
Proof.
  intros Hs Hm Hq. destruct Hs as [ds|ds q' ys x Hy Hx|ds q' t l1 x l2 Hy Hx H1|ds q' t ys Hy|ds src dst P ? ys zs Hne Hy Hz]; simpl in *.
  - exists xs. split; [done|]. intros. by rewrite app_nil_r.
  - case_bool_decide as E.
    + subst q'. simplify_eq. eexists. rewrite list_lookup_insert_eq by (by eapply lookup_lt_Some). done.
    + exists xs. rewrite list_lookup_insert_ne by done. split; [done|]. intros. by rewrite app_nil_r.
  - case_bool_decide as E.
    + subst q'. simplify_eq. eexists. rewrite list_lookup_insert_eq by (by eapply lookup_lt_Some). split; [done|].
      intros t'. rewrite app_nil_r. simpl. unfold of_type. rewrite filter_app, !filter_cons, filter_app.
      case_decide as Et; [|done]. destruct Hx as [-> | ->].
      * assert (l1 = []) as ->; [|done]. destruct H1 as [|y l Hy']; [done|]. exfalso. apply Hy'. by left.
      * rewrite (filter_nothing _ l1); [done|]. eapply Forall_impl; [exact H1|]. simpl. intros y Hy' Hty. apply Hy'. right. congruence.
    + exists xs. rewrite list_lookup_insert_ne by done. split; [done|]. intros. by rewrite app_nil_r.
  - exists xs. split; [done|]. intros. by rewrite app_nil_r.
  - apply bool_decide_eq_false_1 in Hm. rewrite list_lookup_insert_ne by done. case_bool_decide as E.
    + subst dst. simplify_eq. eexists. rewrite list_lookup_insert_eq by (by eapply lookup_lt_Some). done.
    + exists xs. rewrite list_lookup_insert_ne by done. split; [done|]. intros. by rewrite app_nil_r.
Qed.

(** C15: Every task that comes into a queue, stored or moved from another one, is handed out at
    most once and none is lost: of every type, the tasks that were handed out followed by
    those still in the queue are the tasks that came, in the order in which they came.  (For
    a queue from which no tasks are moved away.) *)
Theorem tasks_served_in_order (h : heap) (nq nt q : nat) s events :
  nt < 4294967296 -> runs h nq nt s events -> (q < nq)%nat -> existsb (moves_from q) events = false ->
  exists ds xs, contents s = Some ds /\ ds !! q = Some xs /\
    forall t, of_type t (concat (arrived_by q <$> events)) = of_type t (concat (served_by q <$> events)) ++ of_type t xs.
Proof.
  intros Hn Hr Hq Hm.
  assert (exists cs xs, inv s cs /\ values cs !! q = Some xs /\
    forall t, of_type t (concat (arrived_by q <$> events)) = of_type t (concat (served_by q <$> events)) ++ of_type t xs)
    as (cs & xs & Hi & Hx & Ho).
  { induction Hr as [|s events i c s' e Hr IH Hs].
    - exists (replicate nq []), []. split; [by apply queues_initial|]. split; [|done].
      rewrite values_lookup, lookup_replicate_2 by done. done.
    - rewrite existsb_app in Hm. apply orb_false_iff in Hm as [Hm1 Hm2]. simpl in Hm2. rewrite orb_false_r in Hm2.
      destruct (IH Hm1) as (cs & xs & Hi & Hx & Ho). destruct (perform_spec _ _ _ _ _ _ Hi Hs) as (cs' & Hi' & Hstep & _).
      destruct (spec_step_order _ _ _ q xs Hstep Hm2 Hx) as (xs' & Hx' & Hstep'). exists cs', xs'. split; [done|]. split; [done|].
      intros t. specialize (Hstep' t). rewrite !of_type_app in Hstep'.
      rewrite !fmap_app, !concat_app. simpl. rewrite !app_nil_r, !of_type_app, Ho, <- !app_assoc. by f_equal. }
  exists (values cs), xs. split; [by apply inv_contents|]. done.
Qed.

End Queues.

(** ** Examples *)

#[local] Existing Instance some_malloc.

(** Two queues and two threads: the first thread waits for a packet, the second one stores
    two tasks in the other queue and moves the packet over. *)
Definition sample_calls : list (nat * call) :=
  [(0%nat, Wait 0 SGE_TQ_GDI_PACKET); (1%nat, Store 1 SGE_TQ_TYPE1 (Some 7)); (1%nat, Store 1 SGE_TQ_GDI_PACKET (Some 8));
   (1%nat, Move 1 0 (fun x => task_data x - 8)); (1%nat, WakeupMoved); (0%nat, GoOn)].

Fixpoint play {D} (s : state D) (events : list (event D)) (cs : list (nat * call)) : option (state D * list (event D)) :=
  match cs with
  | [] => Some (s, events)
  | (i, c) :: cs => '(s, e) ← perform s i c; play s (events ++ [e]) cs
  end.

Lemma play_runs {D} h nq nt (cs : list (nat * call)) s events s' events' :
  runs (D := D) h nq nt s events -> play s events cs = Some (s', events') -> runs h nq nt s' events'.
Proof.
  revert s events. induction cs as [|[i c] cs IH]; intros s events Hr E; simpl in E; [by simplify_eq|].
  destruct (perform s i c) as [[s1 e]|] eqn:Ep; [|done]. simpl in E. eapply IH; [|done]. by eapply runs_step.
Qed.

Definition sample_start : state Z := initial ∅ 2 2.
Definition sample_run (n : nat) : state Z * list (event Z) :=
  default (sample_start, []) (play sample_start [] (take n sample_calls)).

Lemma sample_runs n : (n <= 6)%nat -> runs ∅ 2 2 (fst (sample_run n)) (snd (sample_run n)).
Proof.
  intros Hn. unfold sample_run. destruct (play sample_start [] (take n sample_calls)) as [[s events]|] eqn:E.
  - eapply play_runs; [constructor|exact E].
  - constructor.
Qed.

Example sample_events :
  snd (sample_run 6) =
    [Other; Stored 1 (Task SGE_TQ_TYPE1 7); Stored 1 (Task SGE_TQ_GDI_PACKET 8);
     Moved 1 0 [Task SGE_TQ_GDI_PACKET 8] 1; Other; Returned 0 SGE_TQ_GDI_PACKET (Some (Task SGE_TQ_GDI_PACKET 8))].
Proof. by vm_compute. Qed.

Lemma task_queue_refines_sequences_witness :
  contents (fst (sample_run 4)) = Some [[Task SGE_TQ_GDI_PACKET 8]; [Task SGE_TQ_TYPE1 7]] /\
  exists ds, contents (fst (sample_run 4)) = Some ds /\
    forall i c, can (fst (sample_run 4)) i c = true ->
      exists s' e ds', perform (fst (sample_run 4)) i c = Some (s', e) /\ contents s' = Some ds' /\ spec_step ds e ds' /\
        (forall q t, e = Returned q t None -> shutdown (fst (sample_run 4)) = true).
Proof.
  split; [by vm_compute|].
  apply (task_queue_refines_sequences ∅ 2 2 _ (snd (sample_run 4))); [lia|]. apply sample_runs. lia.
Defined.

Lemma waiting_thread_woken_witness :
  exists ds xs queue, contents (fst (sample_run 4)) = Some ds /\ ds !! 0%nat = Some xs /\
    queues (fst (sample_run 4)) !! 0%nat = Some queue /\
    sge_tq_get_waiting_count queue = waiters 0 (threads (fst (sample_run 4))) /\
    (Exists (matches SGE_TQ_GDI_PACKET) xs ->
      (false = true \/ exists j, threads (fst (sample_run 4)) !! j = Some (MustWake 0)) /\
      exists s' x, perform (fst (sample_run 4)) 0 GoOn = Some (s', Returned 0 SGE_TQ_GDI_PACKET (Some x)) /\
        threads s' !! 0%nat = Some Idle).
Proof.
  apply (waiting_thread_woken ∅ 2 2 _ (snd (sample_run 4))); [lia|apply sample_runs; lia|by vm_compute].
Defined.

Lemma tasks_served_in_order_witness :
  exists ds xs, contents (fst (sample_run 6)) = Some ds /\ ds !! 0%nat = Some xs /\
    forall t, of_type t (concat (arrived_by 0 <$> snd (sample_run 6))) =
      of_type t (concat (served_by 0 <$> snd (sample_run 6))) ++ of_type t xs.
Proof.
  apply (tasks_served_in_order ∅ 2 2 0); [lia|apply sample_runs; lia|lia|by vm_compute].
Defined.

End TaskQueueProps.
