(* ===== verification/TopologyString.v ===== *)
(** Topology strings ([libs/sgeobj/ocs_TopologyString.cc], [ocs_TopologyString.h]): the
    processors of a host as a tree of letters, an upper case letter for an object that is free
    and a lower case letter for one in use.  Reading, printing, marking, inverting and sorting;
    the functions that know binding units are in [TopologyUnits].

    The characteristics of a node are compiled only under [WITH_BINDING_NODES_CHARACTERISTICS],
    which no build sets; without it they are skipped. *)

From stdpp Require Import sorting.
From Stdlib Require Import Ascii.
From S2P Require Import Prelude Host Text.

Module TopologyString.

(** ** Letters *)

Definition code (ch : ascii) : Z := Z.of_N (N_of_ascii ch).

Definition islower (ch : ascii) : bool := (97 <=? code ch) && (code ch <=? 122).
Definition isupper (ch : ascii) : bool := (65 <=? code ch) && (code ch <=? 90).
Definition isalpha (ch : ascii) : bool := islower ch || isupper ch.

Definition toupper (ch : ascii) : ascii :=
  if islower ch then ascii_of_N (Z.to_N (code ch - 32)) else ch.
Definition tolower (ch : ascii) : ascii :=
  if isupper ch then ascii_of_N (Z.to_N (code ch + 32)) else ch.

Definition chars (s : string) : list ascii := String.list_ascii_of_string s.
Definition text (l : list ascii) : string := String.string_of_list_ascii l.

Definition DATA_NODE_CHARACTERS : list ascii := chars "NABUVWXYZ".
Definition HARDWARE_NODE_CHARACTERS : list ascii := chars "SCEFGHT".

Definition NO_POS : Z := -1.

Definition is_char (a b : ascii) : bool := Ascii.eqb a b.
Definition find (ch : ascii) (l : list ascii) : bool := existsb (is_char ch) l.

(** [arr[c] = idx++] unless the letter has a place. *)
Definition assign_index (acc : list Z * Z) (ch : ascii) : list Z * Z :=
  let '(arr, idx) := acc in
  if nth (Z.to_nat (code ch)) arr NO_POS =? NO_POS
  then (<[Z.to_nat (code ch) := idx]> arr, idx + 1) else (arr, idx).

Definition make_char_to_index : list Z :=
  fst (fold_left (fun acc ch => assign_index (assign_index acc (toupper ch)) (tolower ch))
         (HARDWARE_NODE_CHARACTERS ++ DATA_NODE_CHARACTERS) (replicate 256 NO_POS, 0)).

Definition char_to_index (ch : ascii) : Z := nth (Z.to_nat (code ch)) make_char_to_index NO_POS.

(** The largest index plus one. *)
Definition char_to_index_size : nat := Z.to_nat (fold_right Z.max NO_POS make_char_to_index + 1).

(** ** Trees *)

Inductive Node := MkNode {
  n_c : ascii;
  n_id : Z;
  n_nodes : list Node;
  n_count : list Z;
}.

(** The attribute [nodes] of a [TopologyString]. *)
Definition topology := list Node.

(** How a function ends: it returns, its behaviour is undefined (an access outside
    [char_to_count], a string made from a null pointer), or the fuel was not enough. *)
Inductive outcome (A : Type) :=
  | Done (a : A)
  | Outside
  | Exhausted.
Global Arguments Done {A}.
Global Arguments Outside {A}.
Global Arguments Exhausted {A}.

Definition obind {A B} (r : outcome A) (f : A -> outcome B) : outcome B :=
  match r with Done a => f a | Outside => Outside | Exhausted => Exhausted end.

Declare Scope topology_scope.
Delimit Scope topology_scope with topology.
Notation "'let*' x := r 'in' e" := (obind r (fun x => e))
  (at level 200, x pattern, right associativity) : topology_scope.
Local Open Scope topology_scope.

Definition is_empty (t : topology) : bool := match t with [] => true | _ => false end.

(** ** Parsing *)

Definition add_counts (a b : list Z) : list Z := zip_with Z.add a b.

(** The counters of a node: the node itself and what its children count.  A letter without an
    index is counted in front of the array. *)
Definition count_node (ch : ascii) (children : list Node) : outcome (list Z) :=
  if char_to_index ch <? 0 then Outside
  else Done (fold_left (fun acc child => add_counts acc (n_count child)) children
               (<[Z.to_nat (char_to_index ch) := 1]> (replicate char_to_index_size 0))).

Fixpoint skip_characteristics (s : list ascii) : list ascii :=
  match s with
  | [] => []
  | ch :: s => if is_char ch "]" then s else skip_characteristics s
  end.

(** The position in the string and [id_counter] are shared by all calls; the rest of the string
    stands for the position. *)
Fixpoint parse_nodes (fuel : nat) (s : list ascii) (id_counter : Z) :
    outcome (list Node * list ascii * Z) :=
  match fuel with
  | O => Exhausted
  | S fuel =>
      match s with
      | [] => Done ([], [], id_counter)
      | ch :: s =>
          if is_char ch "(" && negb (bool_decide (s = [])) then
            let letter := hd zero s in
            let s := tl s in
            let s := if is_char (hd zero s) "[" then skip_characteristics (tl s) else s in
            let* (children, s, next) := parse_nodes fuel s (id_counter + 1) in
            let* count := count_node letter children in
            let* (rest, s, next) := parse_nodes fuel s next in
            Done (MkNode letter id_counter children count :: rest, s, next)
          else if is_char ch ")" then Done ([], s, id_counter)
          else parse_nodes fuel s id_counter
      end
  end.

Definition parse_to_tree (str : string) : outcome topology :=
  let s := chars str in
  match s with
  | [] => Done []
  | _ => let* (nodes, _, _) := parse_nodes (S (length s)) s 1 in Done nodes
  end.

Definition reset_topology (s : string) : outcome topology := parse_to_tree s.

(** ** Printing *)

Section Print.
Context (with_data_nodes with_structure with_tree_format show_as_unused show_single_threads
  show_2nd_level_with_one_node : bool).

(** A single thread of its core. *)
Definition level_hidden (current_nodes : list Node) : bool :=
  match current_nodes with
  | [n] => is_char (toupper (n_c n)) "T" && negb show_single_threads
  | _ => false
  end.

Definition show_data_nodes (n : Node) : bool :=
  let upper_c := toupper (n_c n) in
  let show := negb (negb with_data_nodes && find upper_c DATA_NODE_CHARACTERS) in
  show && negb (negb show_2nd_level_with_one_node && is_char upper_c "Y"
                && (length (n_nodes n) =? 1)%nat).

Definition when (b : bool) (s : list ascii) : list ascii := if b then s else [].

Definition newline : ascii := ascii_of_N 10.

Fixpoint node_to_string (indent : nat) (n : Node) : list ascii :=
  match n with
  | MkNode ch _ nodes _ =>
      let show := show_data_nodes n in
      when (with_tree_format && show) (replicate (indent * 3) " "%char) ++
      when (with_structure && show) (chars "(") ++
      when show [if show_as_unused then toupper ch else ch] ++
      when (with_tree_format && show) [newline] ++
      when (negb (level_hidden nodes))
        (concat (map (node_to_string (indent + if show then 1 else 0)%nat) nodes)) ++
      when (with_structure && show) (chars ")")
  end.

Definition nodes_to_string (current_nodes : list Node) (indent : nat) : list ascii :=
  when (negb (level_hidden current_nodes)) (concat (map (node_to_string indent) current_nodes)).

End Print.

Definition to_string (t : topology) (with_data_nodes with_structure with_characteristics
    with_internal_characteristics with_tree_format show_as_unused show_single_threads
    show_2nd_level_with_one_node : bool) : string :=
  let with_structure := if with_tree_format then false else with_structure in
  let show_single_threads :=
    if with_structure || with_characteristics || with_internal_characteristics || with_tree_format
    then true else show_single_threads in
  text (nodes_to_string with_data_nodes with_structure with_tree_format show_as_unused
          show_single_threads show_2nd_level_with_one_node t 0).

(** What the code calls most: [to_string(true, true, true, false, false, unused)]. *)
Definition to_internal (t : topology) (unused : bool) : string :=
  to_string t true true true false false unused false true.

Definition to_unused_internal_topology_string (t : topology) : string :=
  to_string t true true false false false true false true.

(** The binding modes of [sgeobj/sge_conf.h]; only builds with extensions look at them. *)
Inductive binding_mode_t :=
  | BINDING_MODE_DEFAULT
  | BINDING_MODE_OCS
  | BINDING_MODE_GCS.

Definition to_product_topology_string (with_extensions : option binding_mode_t) (t : topology) :
    string :=
  match with_extensions with
  | Some (BINDING_MODE_DEFAULT | BINDING_MODE_GCS) =>
      to_string t true false false false false false false true
  | _ => to_string t false false false false false false false true
  end.

(** ** Changing letters *)

(** Lower case means in use. *)
Definition set_case (used : bool) (ch : ascii) : ascii := if used then tolower ch else toupper ch.

Fixpoint map_letters (f : ascii -> ascii) (n : Node) : Node :=
  match n with
  | MkNode ch id nodes count => MkNode (f ch) id (map (map_letters f) nodes) count
  end.

(** [update_node_case]: the node and whether everything below it is in use. *)
Fixpoint update_node_case (n : Node) : Node * bool :=
  match n with
  | MkNode ch id [] count => (n, islower ch)
  | MkNode ch id nodes count =>
      let children := map update_node_case nodes in
      let all_children_used := forallb snd children in
      (MkNode (set_case all_children_used ch) id (map fst children) count, all_children_used)
  end.

Definition correct_topology_upper_lower (t : topology) : topology :=
  map (fun n => fst (update_node_case n)) t.

(** The end of the functions below: counters and ids are computed anew from the text. *)
Definition normalize (t : topology) : outcome topology :=
  parse_to_tree (to_internal (correct_topology_upper_lower t) false).

(** The first element [f] succeeds on is replaced. *)
Definition change_first {A} (f : A -> A * bool) : list A -> list A * bool :=
  fix go l :=
    match l with
    | [] => ([], false)
    | x :: l =>
        let '(x, found) := f x in
        if found then (x :: l, true) else let '(l, found) := go l in (x :: l, found)
    end.

Fixpoint find_and_mark (id : Z) (do_mark_used : bool) (n : Node) : Node * bool :=
  if n_id n =? id then (map_letters (set_case do_mark_used) n, true)
  else match n with
       | MkNode ch i nodes count =>
           let '(nodes, found) := change_first (find_and_mark id do_mark_used) nodes in
           (MkNode ch i nodes count, found)
       end.

Definition mark_node_as_used_or_unused (t : topology) (id : Z) (mark_used : bool) : outcome topology :=
  if id <=? 0 then Done t
  else
    let '(t', found) := change_first (find_and_mark id mark_used) t in
    if found then normalize t' else Done t.

(** Both lists in step, up to the end of the shorter one. *)
Definition in_step {A B} (f : A -> B -> A) : list A -> list B -> list A :=
  fix go l l' :=
    match l, l' with
    | x :: l, y :: l' => f x y :: go l l'
    | l, _ => l
    end.

Fixpoint walk_pair (mark_used : bool) (tgt m : Node) : Node :=
  if islower (n_c m) then map_letters (set_case mark_used) tgt
  else match tgt, m with
       | MkNode ch id nodes count, MkNode _ _ mask_nodes _ =>
           MkNode ch id (in_step (walk_pair mark_used) nodes mask_nodes) count
       end.

Definition mark_nodes_as_used_or_unused (t topo : topology) (mark_used : bool) : outcome topology :=
  let marked t := normalize (in_step (walk_pair mark_used) t topo) in
  if is_empty t then
    let* t := reset_topology (to_internal topo false) in
    if mark_used then Done t else marked t
  else marked t.

(** The new value of the attribute and of [binding_now]. *)
Definition elem_mark_nodes_as_used_or_unused (attr : option string) (binding_now binding_to_use : topology)
    (mark_used : bool) : outcome (option string * topology) :=
  if is_empty binding_to_use then Done (attr, binding_now)
  else
    let* now :=
      if is_empty binding_now then reset_topology (to_internal binding_to_use (negb mark_used))
      else mark_nodes_as_used_or_unused binding_now binding_to_use mark_used in
    Done (Some (to_internal now false), now).

Definition invert_letter (ch : ascii) : ascii := if islower ch then toupper ch else tolower ch.

Definition invert_binding (t : topology) : outcome topology :=
  normalize (map (map_letters invert_letter) t).

(** ** Sorting *)

Section Sort.
Context (node_type sort_characteristic : ascii) (ascending : bool).

Definition node_matches (n : Node) : bool := is_char (tolower (n_c n)) (tolower node_type).

(** [node.char_to_count[char_to_index[node_letter]]] *)
Definition get_counter (n : Node) (node_letter : ascii) : Z :=
  nth (Z.to_nat (char_to_index node_letter)) (n_count n) 0.

Definition sort_key : ascii := tolower sort_characteristic.

(** [a] has to come before [b]. *)
Definition comes_before (a b : Node) : bool :=
  let a_matches := node_matches a in
  let b_matches := node_matches b in
  if a_matches && b_matches then
    let power_a := get_counter a "C" + get_counter a "c" in
    let power_b := get_counter b "C" + get_counter b "c" in
    if (power_a =? 0) && (0 <? power_b) then false
    else if (0 <? power_a) && (power_b =? 0) then true
    else
      let value_a := get_counter a sort_key in
      let value_b := get_counter b sort_key in
      if ascending then value_b <? value_a else value_a <? value_b
  else if xorb a_matches b_matches then a_matches
  else false.

(** [std::stable_sort] *)
Fixpoint insert_stable (x : Node) (l : list Node) : list Node :=
  match l with
  | [] => [x]
  | y :: l' => if comes_before y x then y :: insert_stable x l' else x :: l
  end.

Definition stable_sort (l : list Node) : list Node := fold_right insert_stable [] l.

Definition sort_level (current_nodes : list Node) : list Node :=
  if (1 <? length current_nodes)%nat && existsb node_matches current_nodes
  then stable_sort current_nodes else current_nodes.

(** The code sorts a level before the levels below; sorting below a node changes neither its
    letter nor its counters. *)
Fixpoint sort_below (n : Node) : Node :=
  match n with
  | MkNode ch id nodes count => MkNode ch id (sort_level (map sort_below nodes)) count
  end.

Definition sort_tree_nodes (t : topology) : topology := sort_level (map sort_below t).

End Sort.

Definition NONE_STR : string := "NONE".

Definition sort_tree (t : topology) (sort_criterias : string) (sort_characteristic : ascii) : topology :=
  if is_empty t || bool_decide (sort_criterias = "") || bool_decide (sort_criterias = NONE_STR) then t
  else fold_left (fun t sort_criteria =>
         sort_tree_nodes sort_criteria sort_characteristic (islower sort_criteria) t)
         (chars sort_criterias) t.

(** ** Questions *)

Definition contains_valid_node_names (sequence : string) : bool :=
  forallb (fun ch => let upper := toupper ch in
             find upper DATA_NODE_CHARACTERS || find upper HARDWARE_NODE_CHARACTERS)
    (chars sequence).

(** [std::bitset<26> lower, upper] *)
Definition note_letter (acc : list bool * list bool) (ch : ascii) : list bool * list bool :=
  let '(lower, upper) := acc in
  if isalpha ch then
    let idx := Z.to_nat (code (toupper ch) - 65) in
    if islower ch then (<[idx := true]> lower, upper) else (lower, <[idx := true]> upper)
  else acc.

Definition has_contradicting_sort_orders (sort_criterias : string) : bool :=
  let '(lower, upper) :=
    fold_left note_letter (chars sort_criterias) (replicate 26 false, replicate 26 false) in
  existsb id (zip_with andb lower upper).

(** All pairs agree; the lists have the same length. *)
Definition all_pairs {A B} (f : A -> B -> bool) : list A -> list B -> bool :=
  fix go l l' :=
    match l, l' with
    | x :: l, y :: l' => f x y && go l l'
    | _, _ => true
    end.

Fixpoint compare_nodes (n1 n2 : Node) : bool :=
  match n1, n2 with
  | MkNode c1 _ nodes1 _, MkNode c2 _ nodes2 _ =>
      (length nodes1 =? length nodes2)%nat && is_char (toupper c1) (toupper c2) &&
      all_pairs compare_nodes nodes1 nodes2
  end.

Definition is_same_topology (topo1 topo2 : topology) : bool :=
  (length topo1 =? length topo2)%nat && all_pairs compare_nodes topo1 topo2.

(** The first result of the elements in order, and the state after the walk. *)
Definition walk_first {S A B} (f : A -> S -> option B * S) : list A -> S -> option B * S :=
  fix go l st :=
    match l with
    | [] => (None, st)
    | x :: l => match f x st with
                | (Some b, st) => (Some b, st)
                | (None, st) => go l st
                end
    end.

(** The counters [s], [c] and [t]. *)
Definition position := (Z * Z * Z)%type.

Fixpoint find_thread (n : Node) (st : position) : option (Z * position) * position :=
  let '(s, c, t) := st in
  let upper_c := toupper (n_c n) in
  let st :=
    if is_char upper_c "S" then (s + 1, NO_POS, NO_POS)
    else if is_char upper_c "C" || is_char upper_c "E" then (s, c + 1, NO_POS)
    else if is_char upper_c "T" then (s, c, t + 1)
    else st in
  if is_char (n_c n) "T" then (Some (n_id n, st), st)
  else match n with MkNode _ _ nodes _ => walk_first find_thread nodes st end.

(** [id], [socket], [core] and [thread]; [None] when all are set to [NO_POS]. *)
Definition find_first_unused_thread (t : topology) : option (Z * position) :=
  fst (walk_first find_thread t (NO_POS, NO_POS, NO_POS)).

Fixpoint find_core (n : Node) (st : unit) : option Z * unit :=
  let up := toupper (n_c n) in
  if is_char up "C" || is_char up "E" then (Some (n_id n), tt)
  else match n with MkNode _ _ nodes _ => walk_first find_core nodes st end.

Definition find_first_core (t : topology) : Z :=
  default NO_POS (fst (walk_first find_core t tt)).

Definition collect_tuple (collect_cores : bool)
    (acc : Z * Z * Z * list (Z * Z)) (ch : ascii) : Z * Z * Z * list (Z * Z) :=
  let '(socket_id, core_id, thread_id, ids) := acc in
  if is_char ch "S" || is_char ch "s" then (socket_id + 1, -1, -1, ids)
  else if is_char ch "C" || is_char ch "E" || is_char ch "c" || is_char ch "e" then
    (socket_id, core_id + 1, thread_id, ids)
  else if is_char ch "T" then (socket_id, core_id, thread_id + 1, ids)
  else if is_char ch "t" then
    let thread_id := thread_id + 1 in
    let tuple := (socket_id, if collect_cores then core_id else thread_id) in
    (socket_id, core_id, thread_id, if bool_decide (tuple ∈ ids) then ids else ids ++ [tuple])
  else acc.

(** The vector [ids] holds what the set [unique_ids] holds. *)
Definition get_socket_and_cores_or_thread_tuples (with_extensions : option binding_mode_t)
    (t : topology) (collect_cores : bool) : list (Z * Z) :=
  snd (fold_left (collect_tuple collect_cores) (chars (to_product_topology_string with_extensions t))
         (-1, -1, -1, [])).

Definition id_tuple2string (ids : list (Z * Z)) : list Z :=
  fst (fold_left (fun '(ss, is_first) '(a, b) =>
         ((ss ++ (if is_first : bool then [] else [Text.comma]) ++
           Text.dec_int a ++ [Text.colon] ++ Text.dec_int b), false)) ids ([], true)).

End TopologyString.
