(* ===== verification/TopologyUnits.v ===== *)
(** Binding units in topology strings: the units, start and stop positions of a request
    ([libs/sgeobj/ocs_BindingUnit.cc], [ocs_BindingStart.cc], [ocs_BindingStop.cc],
    [ocs_BindingType.cc]) and the functions of [libs/sgeobj/ocs_TopologyString.cc] that search
    and mark units. *)

From Stdlib Require Import Ascii.
From S2P Require Import Prelude TopologyString.
Import TopologyString.

Module TopologyUnits.
Local Open Scope topology_scope.

(** ** Requests *)

Inductive Unit :=
  | UNINITIALIZED | NONE
  | CTHREAD | ETHREAD | CCORE | ECORE | CSOCKET | ESOCKET
  | CCACHE2 | ECACHE2 | CCACHE3 | ECACHE3 | CNUMA | ENUMA.

#[export] Instance Unit_eq_dec : EqDecision Unit.
Proof. solve_decision. Defined.

Definition unit_to_string (mode : Unit) : string :=
  match mode with
  | UNINITIALIZED => "???"
  | NONE => "NONE"
  | CTHREAD => "T" | ETHREAD => "ET"
  | CCORE => "C" | ECORE => "E"
  | CSOCKET => "S" | ESOCKET => "ES"
  | CCACHE2 => "Y" | ECACHE2 => "EY"
  | CCACHE3 => "X" | ECACHE3 => "EX"
  | CNUMA => "N" | ENUMA => "EN"
  end.

(** The first keyword of the table that is [mode]. *)
Definition keyword {A} (table : list (string * A)) (mode : string) (none : A) : A :=
  from_option snd none (List.find (fun e => String.eqb mode (fst e)) table).

Definition unit_from_string (mode : string) : Unit :=
  keyword [("NONE", NONE); ("T", CTHREAD); ("CT", CTHREAD); ("ET", ETHREAD);
           ("C", CCORE); ("CC", CCORE); ("E", ECORE); ("EC", ECORE);
           ("S", CSOCKET); ("CS", CSOCKET); ("ES", ESOCKET);
           ("Y", CCACHE2); ("CY", CCACHE2); ("EY", ECACHE2);
           ("X", CCACHE3); ("CX", CCACHE3); ("EX", ECACHE3);
           ("N", CNUMA); ("CN", CNUMA); ("EN", ENUMA)] mode UNINITIALIZED.

Definition is_power_unit (unit : Unit) : bool :=
  match unit with
  | CSOCKET | CCORE | CTHREAD | CCACHE2 | CCACHE3 | CNUMA => true
  | _ => false
  end.

(** [BindingStart::Start] and [BindingStop::Stop] have the same constants, keywords and
    functions. *)
Inductive Anchor :=
  | AUNINITIALIZED | ANONE
  | FIRST_FREE_SOCKET | FIRST_USED_SOCKET | FIRST_FREE_CORE | FIRST_USED_CORE
  | FIRST_FREE_NUMA | FIRST_USED_NUMA | FIRST_FREE_CACHE3 | FIRST_USED_CACHE3
  | FIRST_FREE_CACHE2 | FIRST_USED_CACHE2.

Definition anchor_to_string (mode : Anchor) : string :=
  match mode with
  | AUNINITIALIZED => "???"
  | ANONE => "NONE"
  | FIRST_FREE_SOCKET => "S" | FIRST_USED_SOCKET => "s"
  | FIRST_FREE_CORE => "C" | FIRST_USED_CORE => "c"
  | FIRST_FREE_NUMA => "N" | FIRST_USED_NUMA => "n"
  | FIRST_FREE_CACHE3 => "X" | FIRST_USED_CACHE3 => "x"
  | FIRST_FREE_CACHE2 => "Y" | FIRST_USED_CACHE2 => "y"
  end.

Definition anchor_from_string (mode : string) : Anchor :=
  keyword [("NONE", ANONE); ("S", FIRST_FREE_SOCKET); ("s", FIRST_USED_SOCKET);
           ("C", FIRST_FREE_CORE); ("E", FIRST_FREE_CORE); ("c", FIRST_USED_CORE);
           ("e", FIRST_USED_CORE); ("N", FIRST_FREE_NUMA); ("n", FIRST_USED_NUMA);
           ("X", FIRST_FREE_CACHE3); ("x", FIRST_USED_CACHE3); ("Y", FIRST_FREE_CACHE2);
           ("y", FIRST_USED_CACHE2)] mode AUNINITIALIZED.

Inductive Type_ := TUNINITIALIZED | TNONE | HOST | SLOT.

Definition type_to_string (mode : Type_) : string :=
  match mode with TUNINITIALIZED => "???" | TNONE => "NONE" | HOST => "host" | SLOT => "slot" end.

Definition type_from_string (mode : string) : Type_ :=
  keyword [("NONE", TNONE); ("host", HOST); ("slot", SLOT)] mode TUNINITIALIZED.

(** ** Searching units *)

(** [is_free_X_socket], [is_free_X_cache2], [is_free_X_cache3] and [is_free_X_numa] differ in
    the letter of the node. *)
Definition is_free_X (letter : ascii) (n : Node) (core_letter : ascii) : bool :=
  is_char (toupper (n_c n)) letter && (get_counter n "t" =? 0) &&
  (get_counter n (tolower core_letter) =? 0) && (0 <? get_counter n (toupper core_letter)).

(** [is_used_socket], [is_used_cache2], [is_used_cache3] and [is_used_numa]. *)
Definition is_used (letter : ascii) (n : Node) : bool :=
  is_char (toupper (n_c n)) letter && (0 <? get_counter n "t").

Definition is_free_X_core (n : Node) (core_letter : ascii) : bool :=
  is_char (toupper (n_c n)) (toupper core_letter) && (get_counter n "t" =? 0).

Definition is_used_X_core (n : Node) (core_letter : ascii) : bool :=
  is_char (toupper (n_c n)) (toupper core_letter) && (0 <? get_counter n "t").

Definition is_free_thread (n : Node) : bool := is_char (n_c n) "T".

(** The node is one of those the position names. *)
Definition at_anchor (a : Anchor) (unit_letter : ascii) (n : Node) : bool :=
  match a with
  | AUNINITIALIZED | ANONE => false
  | FIRST_FREE_NUMA => is_free_X "N" n unit_letter
  | FIRST_USED_NUMA => is_used "N" n
  | FIRST_FREE_CACHE3 => is_free_X "X" n unit_letter
  | FIRST_USED_CACHE3 => is_used "X" n
  | FIRST_FREE_CACHE2 => is_free_X "Y" n unit_letter
  | FIRST_USED_CACHE2 => is_used "Y" n
  | FIRST_FREE_SOCKET => is_free_X "S" n unit_letter
  | FIRST_USED_SOCKET => is_used "S" n
  | FIRST_FREE_CORE => is_free_X_core n unit_letter
  | FIRST_USED_CORE => is_used_X_core n unit_letter
  end.

Definition at_start (a : Anchor) (unit_letter : ascii) (n : Node) : bool :=
  match a with AUNINITIALIZED | ANONE => true | _ => at_anchor a unit_letter n end.

(** The unit is one of those that are asked for. *)
Definition add_id (bunit : Unit) (n : Node) (core_letter : ascii) : bool :=
  match bunit with
  | CSOCKET => is_free_X "S" n "C"
  | ESOCKET => is_free_X "S" n "E"
  | CCORE => is_free_X_core n "C"
  | ECORE => is_free_X_core n "E"
  | CTHREAD => is_free_thread n && is_char core_letter "C"
  | ETHREAD => is_free_thread n && is_char core_letter "E"
  | CCACHE2 => is_free_X "Y" n "C"
  | ECACHE2 => is_free_X "Y" n "E"
  | CCACHE3 => is_free_X "X" n "C"
  | ECACHE3 => is_free_X "X" n "E"
  | CNUMA => is_free_X "N" n "C"
  | ENUMA => is_free_X "N" n "E"
  | UNINITIALIZED | NONE => false
  end.

(** [ids], and whether [start_node] and [stop_node] are set. *)
Record search := Search_ { ids : list Z; start_node : bool; stop_node : bool }.

Definition is_core_letter (up : ascii) : bool := is_char up "C" || is_char up "E".

(** The loop over a level: [f] may change [core_letter] for the rest of the level and may leave
    the level. *)
Definition each_node (f : Node -> ascii -> search -> ascii * search * bool) :
    list Node -> ascii -> search -> search :=
  fix go l core_letter st :=
    match l with
    | [] => st
    | n :: l =>
        let '(core_letter, st, return_) := f n core_letter st in
        if return_ then st else go l core_letter st
    end.

Section Find.
Context (bamount : Z) (bunit : Unit) (bstart bstop : Anchor).

Definition unit_letter : ascii := if is_power_unit bunit then "C" else "E".

(** Start and stop are looked for, then the id is taken. *)
Definition visit (n : Node) (core_letter : ascii) (st : search) : search :=
  let found_start := negb (start_node st) && at_start bstart unit_letter n in
  let start := start_node st || found_start in
  let stop := stop_node st ||
              (negb found_start && start && at_anchor bstop unit_letter n) in
  Search_ (if start && negb stop && add_id bunit n core_letter then ids st ++ [n_id n] else ids st)
    start stop.

Definition enough (st : search) : bool := bamount <=? Z.of_nat (length (ids st)).

Fixpoint process_node (n : Node) (core_letter : ascii) (st : search) : ascii * search * bool :=
  let st := visit n core_letter st in
  if enough st then (core_letter, st, true)
  else if start_node st && stop_node st then (core_letter, st, true)
  else match n with
       | MkNode _ _ [] _ => (core_letter, st, false)
       | MkNode ch _ nodes _ =>
           let core_letter :=
             if is_char core_letter zero && is_core_letter (toupper ch) then toupper ch
             else core_letter in
           (core_letter, each_node process_node nodes core_letter st, false)
       end.

Definition find_n_packed_units (t : topology) : list Z :=
  match t with
  | [] => []
  | _ => ids (each_node process_node t zero (Search_ [] false false))
  end.

End Find.

(** ** Marking units *)

(** The loop over a level that changes the nodes and passes [pos] on. *)
Definition map_pos {A} (f : A -> nat -> A * nat) : list A -> nat -> list A * nat :=
  fix go l pos :=
    match l with
    | [] => ([], pos)
    | x :: l =>
        let '(x, pos) := f x pos in
        let '(l, pos) := go l pos in (x :: l, pos)
    end.

Section Mark.
Context (ids : list Z) (unit_letter : ascii) (mark_used : bool).

Definition no_letter : bool := is_char unit_letter zero.

Fixpoint mark_node (ancestor_was_marked : bool) (parent_letter : ascii) (n : Node) (pos : nat) :
    Node * nat :=
  match n with
  | MkNode ch id nodes count =>
      let at_id := match ids !! pos with Some i => id =? i | None => false end in
      let pos := if at_id then S pos else pos in
      let do_mark :=
        at_id
        || (ancestor_was_marked && (no_letter || is_char parent_letter unit_letter))
        || (ancestor_was_marked && (no_letter || is_char (toupper ch) unit_letter)) in
      let ch := if do_mark then set_case mark_used ch else ch in
      let '(nodes, pos) :=
        map_pos (mark_node (do_mark || ancestor_was_marked) (toupper ch)) nodes pos in
      (MkNode ch id nodes count, pos)
  end.

End Mark.

Definition unit_letter_of (unit : Unit) : ascii :=
  match unit with NONE => zero | _ => if is_power_unit unit then "C" else "E" end.

(** [ids] is sorted in place; the callers only pass it to this function again. *)
Definition mark_units_as_used_or_unused (t : topology) (ids : list Z) (unit : Unit)
    (mark_used handle_characteristics : bool) : outcome topology :=
  if bool_decide (ids = []) || is_empty t then Done t
  else
    let ids := merge_sort Z.le ids in
    let t := correct_topology_upper_lower
               (fst (map_pos (mark_node ids (unit_letter_of unit) mark_used false zero) t 0)) in
    if handle_characteristics then parse_to_tree (to_internal t false) else Done t.

(** ** Units a host does not have *)

Definition adapt_binding_unit (t : topology) (unit : Unit) : Unit :=
  if is_empty t then unit
  else
    let topo_str := chars (to_string t true false false false false true false true) in
    let missing ch := negb (find ch topo_str) in
    match unit with
    | CSOCKET | ESOCKET | CCORE | ECORE | CTHREAD | ETHREAD => unit
    | CNUMA => if missing "N"%char then CSOCKET else unit
    | ENUMA => if missing "N"%char then ESOCKET else unit
    | CCACHE3 => if missing "X"%char then CSOCKET else unit
    | ECACHE3 => if missing "X"%char then ESOCKET else unit
    | CCACHE2 => if missing "Y"%char then CCORE else unit
    | ECACHE2 => if missing "Y"%char then ECORE else unit
    | UNINITIALIZED | NONE => unit
    end.

(** ** On concrete strings *)

Definition units_of (s : string) (n : Z) (u : Unit) (start stop : Anchor) : outcome (list Z) :=
  let* t := reset_topology s in Done (find_n_packed_units n u start stop t).

Definition marked (s : string) (n : Z) (u : Unit) : outcome string :=
  let* t := reset_topology s in
  let* t := mark_units_as_used_or_unused t (find_n_packed_units n u ANONE ANONE t) u true true in
  Done (to_internal t false).

Example packed_cores :
  marked "(N(S(X(C(T)(T))(c(t)(t))))(S(X(C(T)(T))(C(T)(T)))))" 2 CCORE
  = Done "(N(s(x(c(t)(t))(c(t)(t))))(S(X(c(t)(t))(C(T)(T)))))"%string.
Proof. vm_compute. reflexivity. Qed.

(** A thread below a core of one kind is taken for one of the kind of a core before it on the
    same level. *)
Example efficiency_threads_taken :
  marked "(S(C(T)(T))(E(T)))" 3 CTHREAD = Done "(s(c(t)(t))(e(t)))"%string.
Proof. vm_compute. reflexivity. Qed.

(** Only one level is left when the amount is reached: with cores on two levels too many units
    are found. *)
Example more_than_asked :
  units_of "(S(Y(C(T)))(C(T)))" 1 CCORE ANONE ANONE = Done [3; 5].
Proof. vm_compute. reflexivity. Qed.

Example unknown_letter_outside : reset_topology "(S(Q))" = Outside.
Proof. vm_compute. reflexivity. Qed.

End TopologyUnits.
