(* ===== verification/TopologyFacts.v ===== *)
(** Facts on topology strings: the parser reads what the printer writes and gives every tree it
    returns its canonical ids and counters. *)

From Stdlib Require Import Ascii.
From S2P Require Import Prelude TopologyString.
Import TopologyString.

Module TopologyFacts.
Local Open Scope topology_scope.

(** ** Letters *)

(** The letter has a counter. *)
Definition known (ch : ascii) : bool := 0 <=? char_to_index ch.

(** Checks a statement for all 256 characters. *)
Ltac all_chars ch := destruct ch as [[] [] [] [] [] [] [] []]; vm_compute; try done; auto.

Lemma known_alpha ch : known ch = true -> isalpha ch = true.
Proof. all_chars ch. Qed.

Lemma known_upper ch : known (toupper ch) = known ch.
Proof. all_chars ch. Qed.

Lemma known_set_case u ch : known (set_case u ch) = known ch.
Proof. destruct u; all_chars ch. Qed.

Lemma islower_set_case u ch : known ch = true -> islower (set_case u ch) = u.
Proof. destruct u; all_chars ch. Qed.

Lemma toupper_set_case u ch : toupper (set_case u ch) = toupper ch.
Proof. destruct u; all_chars ch. Qed.

Lemma toupper_idem ch : toupper (toupper ch) = toupper ch.
Proof. all_chars ch. Qed.

Lemma set_case_idem u v ch : set_case u (set_case v ch) = set_case u ch.
Proof. destruct u, v; all_chars ch. Qed.

Lemma set_case_of_upper u ch : set_case u (toupper ch) = set_case u ch.
Proof. destruct u; all_chars ch. Qed.

Lemma set_case_same ch : known ch = true -> set_case (islower ch) ch = ch.
Proof. all_chars ch. Qed.

Lemma toupper_invert ch : toupper (invert_letter ch) = toupper ch.
Proof. all_chars ch. Qed.

Lemma islower_invert ch : known ch = true -> islower (invert_letter ch) = negb (islower ch).
Proof. all_chars ch. Qed.

Lemma known_not_structure ch : known ch = true -> is_char ch "[" = false.
Proof. all_chars ch. Qed.

Lemma index_bound ch : char_to_index ch < Z.of_nat char_to_index_size.
Proof. all_chars ch. Qed.

(** The letter of an index. *)
Definition letter_at (i : Z) : ascii :=
  let l := nth (Z.to_nat (i / 2)) (HARDWARE_NODE_CHARACTERS ++ DATA_NODE_CHARACTERS) zero in
  if Z.even i then l else tolower l.

Lemma letter_at_index ch : known ch = true -> letter_at (char_to_index ch) = ch.
Proof. all_chars ch. Qed.

Lemma index_inj a b :
  known a = true -> known b = true -> char_to_index a = char_to_index b -> a = b.
Proof. intros Ha Hb H. by rewrite <- (letter_at_index a), <- (letter_at_index b), H. Qed.

Lemma is_char_eq a b : is_char a b = true <-> a = b.
Proof. apply Ascii.eqb_eq. Qed.

Lemma is_char_refl a : is_char a a = true.
Proof. by apply is_char_eq. Qed.

(** The letter from its upper case and its case. *)
Lemma letter_eq a b :
  known a = true -> toupper a = toupper b -> islower a = islower b -> a = b.
Proof.
  intros Ha Hu Hl.
  assert (known b = true) as Hb by (by rewrite <- known_upper, <- Hu, known_upper).
  by rewrite <- (set_case_same a), <- (set_case_same b), <- (set_case_of_upper _ a),
    <- (set_case_of_upper _ b), Hu, Hl.
Qed.

#[global] Opaque char_to_index char_to_index_size.

(** ** Induction on trees *)

Section Induction.
Context (P : Node -> Prop)
  (Hnode : forall ch id nodes count, Forall P nodes -> P (MkNode ch id nodes count)).

Fixpoint node_induction (n : Node) : P n :=
  match n with
  | MkNode ch id nodes count =>
      Hnode ch id nodes count
        ((fix all (l : list Node) : Forall P l :=
            match l with
            | [] => Forall_nil_2 P
            | n :: l => Forall_cons_2 P n l (node_induction n) (all l)
            end) nodes)
  end.

End Induction.

(** All nodes have letters with a counter. *)
Fixpoint known_node (n : Node) : bool :=
  match n with MkNode ch _ nodes _ => known ch && forallb known_node nodes end.

Definition known_tree (t : topology) : bool := forallb known_node t.

Lemma forallb_Forall {A} (f : A -> bool) l : forallb f l = true <-> Forall (fun x => f x = true) l.
Proof. rewrite forallb_forall, Forall_forall. by setoid_rewrite list_elem_of_In. Qed.

Lemma known_node_eq ch id nodes count :
  known_node (MkNode ch id nodes count) = true <->
  known ch = true /\ Forall (fun n => known_node n = true) nodes.
Proof. cbn [known_node]. by rewrite andb_true_iff, forallb_Forall. Qed.

(** ** Printing *)

(** The text of a node with all its letters and parentheses. *)
Fixpoint show_node (n : Node) : list ascii :=
  match n with
  | MkNode ch _ nodes _ => "("%char :: ch :: concat (map show_node nodes) ++ [")"%char]
  end.

Definition show (t : topology) : list ascii := concat (map show_node t).

Lemma when_true (l : list ascii) : when true l = l.
Proof. done. Qed.

Lemma level_shown l : level_hidden true l = false.
Proof. destruct l as [|n [|]]; [done| |done]. simpl. by rewrite andb_false_r. Qed.

Lemma map_Forall_ext {A B} (f g : A -> B) l : Forall (fun x => f x = g x) l -> map f l = map g l.
Proof. induction 1 as [|x l H _ IH]; simpl; [done|]. by rewrite H, IH. Qed.

Definition print_case (unused : bool) (ch : ascii) : ascii := if unused then toupper ch else ch.

Lemma node_to_string_eq unused indent n :
  node_to_string true true false unused true true indent n
  = show_node (map_letters (print_case unused) n).
Proof.
  revert indent. induction n as [ch id nodes count IH] using node_induction. intros indent.
  cbn [node_to_string map_letters show_node]. unfold show_data_nodes. rewrite level_shown.
  cbn [negb andb]. rewrite !when_true. cbn [when app chars String.list_ascii_of_string].
  f_equal. unfold print_case at 1. f_equal. f_equal. f_equal.
  rewrite map_map. apply map_Forall_ext. eapply Forall_impl; [exact IH|]. intros n H. apply H.
Qed.

Lemma to_string_structure t wc wi unused st :
  to_string t true true wc wi false unused st true = text (show (map (map_letters (print_case unused)) t)).
Proof.
  unfold to_string, nodes_to_string. rewrite orb_true_l, level_shown. cbn [negb when].
  unfold show. f_equal. f_equal. rewrite map_map. apply map_Forall_ext, Forall_true.
  intros n. apply node_to_string_eq.
Qed.

Lemma map_letters_id n : map_letters (fun ch => ch) n = n.
Proof.
  induction n as [ch id nodes count IH] using node_induction. simpl. f_equal.
  transitivity (map (fun n => n) nodes); [by apply map_Forall_ext|]. apply map_id.
Qed.

Lemma to_internal_eq t : to_internal t false = text (show t).
Proof.
  unfold to_internal. rewrite to_string_structure. f_equal. f_equal.
  transitivity (map (fun n => n) t); [|apply map_id]. apply map_ext, map_letters_id.
Qed.

Lemma to_internal_unused t : to_internal t true = text (show (map (map_letters toupper) t)).
Proof. unfold to_internal. by rewrite to_string_structure. Qed.

Lemma chars_text l : chars (text l) = l.
Proof. apply String.list_ascii_of_string_of_list_ascii. Qed.

Lemma text_chars s : text (chars s) = s.
Proof. apply String.string_of_list_ascii_of_string. Qed.

(** ** Parsing *)

Definition parsed_of (r : outcome (list Node * list ascii * Z)) : option (list ascii) :=
  match r with Done (_, s, _) => Some s | _ => None end.

Lemma skip_characteristics_length s : (length (skip_characteristics s) <= length s)%nat.
Proof. induction s as [|ch s IH]; simpl; [done|]. destruct is_char; lia. Qed.

(** The rest of the string after the letter of a node and its characteristics. *)
Definition after_letter (s : list ascii) : list ascii :=
  if is_char (hd zero (tl s)) "[" then skip_characteristics (tl (tl s)) else tl s.

Lemma after_letter_length s : (length (after_letter s) <= length s)%nat.
Proof.
  unfold after_letter. destruct s as [|a [|b s]]; simpl; try lia.
  pose proof (skip_characteristics_length s). destruct is_char; simpl; lia.
Qed.

Lemma parse_nodes_eq fuel ch s id :
  parse_nodes (S fuel) (ch :: s) id =
  if is_char ch "(" && negb (bool_decide (s = [])) then
    let* (children, s', next) := parse_nodes fuel (after_letter s) (id + 1) in
    let* count := count_node (hd zero s) children in
    let* (rest, s', next) := parse_nodes fuel s' next in
    Done (MkNode (hd zero s) id children count :: rest, s', next)
  else if is_char ch ")" then Done ([], s, id)
  else parse_nodes fuel s id.
Proof. done. Qed.

Lemma parse_nodes_rest fuel s id ns s' next :
  parse_nodes fuel s id = Done (ns, s', next) -> (length s' <= length s)%nat.
Proof.
  revert s id ns s' next. induction fuel as [|fuel IH]; [done|]. intros [|ch s] id ns s' next.
  { by injection 1 as <- <- <-. }
  rewrite parse_nodes_eq. destruct (_ && _).
  - destruct (parse_nodes fuel (after_letter s) _) as [[[? s1] ?]| |] eqn:E1; [|done..].
    cbn [obind]. destruct (count_node _ _) as [count| |]; [|done..]. cbn [obind].
    destruct (parse_nodes fuel s1 _) as [[[? s2] ?]| |] eqn:E2; [|done..]. simpl.
    injection 1 as <- <- <-. apply IH in E1, E2. pose proof (after_letter_length s). simpl. lia.
  - destruct (is_char ch ")"); [injection 1 as <- <- <-; simpl; lia|].
    intros H. apply IH in H. simpl. lia.
Qed.

(** Enough fuel. *)
Lemma parse_nodes_any_fuel f f' s id :
  (length s < f)%nat -> (length s < f')%nat -> parse_nodes f s id = parse_nodes f' s id.
Proof.
  revert f' s id. induction f as [|f IH]; [lia|]. intros [|f'] s id Hf Hf'; [lia|].
  destruct s as [|ch s]; [done|]. cbn [length] in *. rewrite !parse_nodes_eq.
  pose proof (after_letter_length s) as Ha. rewrite (IH f' (after_letter s)), (IH f' s) by lia.
  destruct (_ && _); [|done].
  destruct (parse_nodes f' (after_letter s) _) as [[[? s1] ?]| |] eqn:E1; [|done..].
  cbn [obind]. destruct (count_node _ _) as [count| |]; [|done..]. cbn [obind].
  apply parse_nodes_rest in E1. by rewrite (IH f' s1) by lia.
Qed.

Lemma parse_nodes_fuel fuel s id :
  (length s < fuel)%nat -> parse_nodes fuel s id = parse_nodes (S (length s)) s id.
Proof. intros H. apply parse_nodes_any_fuel; lia. Qed.

Definition parse (s : list ascii) (id : Z) := parse_nodes (S (length s)) s id.

Lemma parse_to_tree_eq s :
  parse_to_tree s = let* (nodes, _, _) := parse (chars s) 1 in Done nodes.
Proof. unfold parse_to_tree, parse. by destruct (chars s). Qed.

Lemma parse_eq s id :
  parse s id =
  match s with
  | [] => Done ([], [], id)
  | ch :: s =>
      if is_char ch "(" && negb (bool_decide (s = [])) then
        let* (children, s', next) := parse (after_letter s) (id + 1) in
        let* count := count_node (hd zero s) children in
        let* (rest, s', next) := parse s' next in
        Done (MkNode (hd zero s) id children count :: rest, s', next)
      else if is_char ch ")" then Done ([], s, id)
      else parse s id
  end.
Proof.
  unfold parse at 1. destruct s as [|ch s]; [done|]. cbn [length]. rewrite parse_nodes_eq.
  pose proof (after_letter_length s). rewrite !parse_nodes_fuel by lia. fold (parse (after_letter s) (id + 1)).
  fold (parse s id). destruct (_ && _); [|done].
  destruct (parse (after_letter s) _) as [[[? s1] ?]| |] eqn:E1; [|done..].
  cbn [obind]. destruct (count_node _ _) as [count| |]; [|done..]. cbn [obind].
  apply parse_nodes_rest in E1. by rewrite parse_nodes_fuel by lia.
Qed.

Lemma count_node_returns ch children : count_node ch children <> Exhausted.
Proof. unfold count_node. by destruct (_ <? _). Qed.

(** Reading ends. *)
Lemma parse_returns s id : parse s id <> Exhausted.
Proof.
  revert id. induction s as [s IH] using (induction_ltof1 _ (@length ascii)). unfold ltof in IH.
  intros id. rewrite parse_eq. destruct s as [|ch s]; [discriminate|]. cbn [length] in IH.
  pose proof (after_letter_length s). destruct (_ && _).
  - pose proof (IH (after_letter s) ltac:(lia) (id + 1)) as H1.
    destruct (parse (after_letter s) _) as [[[? s1] ?]| |] eqn:E1; [|discriminate|congruence].
    cbn [obind]. destruct (count_node _ _) as [count| |] eqn:Ec; cbn [obind];
      [|discriminate|by apply count_node_returns in Ec].
    apply parse_nodes_rest in E1. pose proof (IH s1 ltac:(lia) z) as H2.
    destruct (parse s1 z) as [[[? ?] ?]| |]; cbn [obind]; [discriminate..|congruence].
  - destruct (is_char ch ")"); [discriminate|]. apply IH. lia.
Qed.

(** ** Canonical trees *)

(** The counters [count_node] computes. *)
Definition counts (ch : ascii) (children : list Node) : list Z :=
  fold_left (fun acc child => add_counts acc (n_count child)) children
    (<[Z.to_nat (char_to_index ch) := 1]> (replicate char_to_index_size 0)).

Lemma count_known ch children : known ch = true -> count_node ch children = Done (counts ch children).
Proof. unfold known, count_node, counts. intros H. by destruct (Z.ltb_spec (char_to_index ch) 0); [lia|]. Qed.

Lemma count_done ch children k :
  count_node ch children = Done k -> known ch = true /\ k = counts ch children.
Proof.
  unfold known, count_node, counts. destruct (Z.ltb_spec (char_to_index ch) 0); [done|].
  intros [= <-]. split; [lia|done].
Qed.

(** A function that uses up ids along a list. *)
Definition fresh (f : Node -> Z -> Node * Z) : list Node -> Z -> list Node * Z :=
  fix go l id :=
    match l with
    | [] => ([], id)
    | n :: l => let '(n, id) := f n id in let '(l, id) := go l id in (n :: l, id)
    end.

(** The same letters with ids in the order of the text, from [id] on, and the right counters. *)
Fixpoint canon_node (n : Node) (id : Z) : Node * Z :=
  match n with
  | MkNode ch _ nodes _ =>
      let '(children, next) := fresh canon_node nodes (id + 1) in
      (MkNode ch id children (counts ch children), next)
  end.

Definition canon (t : topology) : topology := fst (fresh canon_node t 1).

Lemma fresh_cons f n l id :
  fresh f (n :: l) id =
  let '(n, id) := f n id in let '(l, id) := fresh f l id in (n :: l, id).
Proof. done. Qed.

Definition continue (ns : list Node) (r : outcome (list Node * list ascii * Z)) :=
  let* (rest, s, next) := r in Done (ns ++ rest, s, next).

Lemma continue_app a b r : continue a (continue b r) = continue (a ++ b) r.
Proof. destruct r as [[[? ?] ?]| |]; [|done..]. unfold continue. simpl. by rewrite app_assoc. Qed.

Lemma continue_nil r : continue [] r = r.
Proof. by destruct r as [[[? ?] ?]| |]. Qed.

Definition shown_as (n : Node) : Prop := forall rest id,
  parse (show_node n ++ rest) id =
  let '(n', next) := canon_node n id in continue [n'] (parse rest next).

Lemma parse_show_list l rest id :
  Forall shown_as l ->
  parse (show l ++ rest) id =
  let '(l', next) := fresh canon_node l id in continue l' (parse rest next).
Proof.
  intros H. revert id. induction H as [|n l Hn _ IH]; intros id.
  - simpl. by rewrite continue_nil.
  - unfold show in *. cbn [map concat]. rewrite <- app_assoc, Hn, fresh_cons.
    destruct (canon_node n id) as [n' next]. rewrite IH.
    destruct (fresh canon_node l next) as [l' next']. by rewrite continue_app.
Qed.

(** No characteristics follow a letter. *)
Lemma after_letter_shown ch l rest :
  after_letter (ch :: show l ++ ")"%char :: rest) = show l ++ ")"%char :: rest.
Proof. unfold after_letter. by destruct l as [|[? ? ? ?] l]. Qed.

Lemma parse_close rest id : parse (")"%char :: rest) id = Done ([], rest, id).
Proof. by rewrite parse_eq. Qed.

Lemma parse_open ch s id :
  parse ("("%char :: ch :: s) id =
  let* (children, s', next) := parse (after_letter (ch :: s)) (id + 1) in
  let* count := count_node ch children in
  continue [MkNode ch id children count] (parse s' next).
Proof. by rewrite parse_eq. Qed.

Lemma parse_show_node n : known_node n = true -> shown_as n.
Proof.
  induction n as [ch id0 nodes count IH] using node_induction.
  rewrite known_node_eq. intros [Hch Hn] rest id. cbn [show_node app].
  fold (show nodes). rewrite <- app_assoc. cbn [app].
  rewrite parse_open, after_letter_shown, parse_show_list by (rewrite Forall_forall in *; auto).
  cbn [canon_node]. destruct (fresh canon_node nodes (id + 1)) as [l' next].
  rewrite parse_close. unfold continue at 1. cbn [obind]. rewrite app_nil_r, count_known by done.
  done.
Qed.

(** A printed tree is read back with canonical ids and counters. *)
Lemma parse_show t :
  known_tree t = true -> parse_to_tree (text (show t)) = Done (canon t).
Proof.
  unfold known_tree. rewrite forallb_Forall. intros H. rewrite parse_to_tree_eq, chars_text.
  rewrite <- (app_nil_r (show t)), parse_show_list
    by (eapply Forall_impl; [exact H|apply parse_show_node]).
  unfold canon. destruct (fresh canon_node t 1) as [l next]. rewrite parse_eq.
  unfold continue. cbn [obind]. by rewrite app_nil_r.
Qed.

(** What the parser returns is canonical. *)
Lemma parse_canonical s id ns s' next :
  parse s id = Done (ns, s', next) ->
  Forall (fun n => known_node n = true) ns /\ fresh canon_node ns id = (ns, next).
Proof.
  revert id ns s' next. induction s as [s IH] using (induction_ltof1 _ (@length ascii)).
  unfold ltof in IH. intros id ns s' next. rewrite parse_eq.
  destruct s as [|ch s]; [by injection 1 as <- <- <-|]. cbn [length] in IH.
  pose proof (after_letter_length s). destruct (_ && _).
  - destruct (parse (after_letter s) _) as [[[l s1] z]| |] eqn:E1; [|discriminate..].
    cbn [obind]. destruct (count_node _ _) as [count| |] eqn:Ec; cbn [obind]; [|discriminate..].
    apply count_done in Ec as [Hk ->].
    destruct (parse s1 z) as [[[l2 s2] z2]| |] eqn:E2; cbn [obind]; [|discriminate..].
    injection 1 as <- <- <-. pose proof (parse_nodes_rest _ _ _ _ _ _ E1).
    apply IH in E1 as [Hl1 Hf1]; [|lia]. apply IH in E2 as [Hl2 Hf2]; [|lia]. split.
    + constructor; [|done]. by apply known_node_eq.
    + rewrite fresh_cons. cbn [canon_node]. by rewrite Hf1, Hf2.
  - destruct (is_char ch ")"); [by injection 1 as <- <- <-|]. apply IH. lia.
Qed.

(** The trees the functions of the code leave. *)
Definition well_formed (t : topology) : Prop := known_tree t = true /\ canon t = t.

Lemma parsed_well_formed s t : parse_to_tree s = Done t -> well_formed t.
Proof.
  rewrite parse_to_tree_eq. destruct (parse (chars s) 1) as [[[ns s'] next]| |] eqn:E; [|done..].
  intros [= ->]. apply parse_canonical in E as [Hk Hf]. split.
  - by apply forallb_Forall.
  - unfold canon. by rewrite Hf.
Qed.

End TopologyFacts.
