(* ===== verification/TopologyBits.v ===== *)
(** The threads of a topology as a list of bits, a bit being set when the thread is in use: what
    the operations that mark nodes do to it, and that a normalised topology is determined by its
    shape and these bits. *)

From Stdlib Require Import Ascii.
From S2P Require Import Prelude TopologyString TopologyFacts.
Import TopologyString TopologyFacts.

Module TopologyBits.
Local Open Scope topology_scope.

(** ** The shape *)

Definition same (n n' : Node) : Prop := compare_nodes n n' = true.
Definition same_topology (t t' : topology) : Prop := Forall2 same t t'.

Lemma all_pairs_Forall2 {A B} (f : A -> B -> bool) l l' :
  (length l =? length l')%nat && all_pairs f l l' = true <-> Forall2 (fun a b => f a b = true) l l'.
Proof.
  revert l'. induction l as [|x l IH]; intros [|y l']; simpl.
  - split; [constructor|done].
  - split; [discriminate|by inversion 1].
  - split; [discriminate|by inversion 1].
  - rewrite Forall2_cons, <- IH, !andb_true_iff. tauto.
Qed.

Lemma same_eq c1 i1 ns1 k1 c2 i2 ns2 k2 :
  same (MkNode c1 i1 ns1 k1) (MkNode c2 i2 ns2 k2) <->
  toupper c1 = toupper c2 /\ Forall2 same ns1 ns2.
Proof.
  unfold same at 1. cbn [compare_nodes].
  rewrite <- (all_pairs_Forall2 compare_nodes), !andb_true_iff, is_char_eq. tauto.
Qed.

Lemma is_same_topology_spec t t' : is_same_topology t t' = true <-> same_topology t t'.
Proof. apply all_pairs_Forall2. Qed.

#[export] Instance same_refl : Reflexive same.
Proof.
  intros n. induction n as [ch id nodes count IH] using node_induction. apply same_eq.
  split; [done|]. by apply Forall_Forall2_diag.
Qed.

#[export] Instance same_sym : Symmetric same.
Proof.
  intros n. induction n as [ch id nodes count IH] using node_induction.
  intros [ch' id' nodes' count']. rewrite !same_eq. intros [Hc Hn]. split; [done|].
  clear Hc. induction Hn as [|x y l l' Hxy _ IHn]; [done|]. inversion_clear IH. auto.
Qed.

#[export] Instance same_trans : Transitive same.
Proof.
  intros n. induction n as [ch id nodes count IH] using node_induction.
  intros [ch' id' ns' k'] [ch'' id'' ns'' k'']. rewrite !same_eq. intros [Hc Hn] [Hc' Hn'].
  split; [congruence|]. clear Hc Hc'. revert ns'' Hn'.
  induction Hn as [|x y l l' Hxy _ IHn]; [done|]. inversion_clear IH as [|? ? Hx Hl].
  inversion 1 as [|? z ? l'' Hyz]; subst. constructor; eauto.
Qed.

#[export] Instance same_topology_equiv : Equivalence same_topology.
Proof.
  split.
  - exact (_ : Reflexive (Forall2 same)).
  - exact (_ : Symmetric (Forall2 same)).
  - exact (_ : Transitive (Forall2 same)).
Qed.

Lemma same_map f t :
  Forall (fun n => same n (f n)) t -> same_topology t (map f t).
Proof. induction 1; constructor; auto. Qed.

Lemma same_map_letters f n :
  (forall ch, toupper (f ch) = toupper ch) -> same n (map_letters f n).
Proof.
  intros Hf. induction n as [ch id nodes count IH] using node_induction. simpl.
  apply same_eq. split; [by rewrite Hf|]. by apply same_map.
Qed.

Lemma same_known n n' : same n n' -> known_node n = known_node n'.
Proof.
  revert n'. induction n as [ch id nodes count IH] using node_induction.
  intros [ch' id' nodes' count']. rewrite same_eq. intros [Hc Hn]. simpl.
  rewrite <- (known_upper ch), Hc, known_upper. f_equal. clear Hc.
  induction Hn as [|x y l l' Hxy _ IHn]; [done|]. inversion_clear IH. simpl. f_equal; auto.
Qed.

Lemma same_topology_known t t' : same_topology t t' -> known_tree t = known_tree t'.
Proof. induction 1 as [|x y l l' H _ IH]; [done|].
  unfold known_tree in *. cbn [forallb]. by rewrite (same_known _ _ H), IH. Qed.

(** ** Letters without ids and counters *)

Fixpoint erase (n : Node) : Node :=
  match n with MkNode ch _ nodes _ => MkNode ch 0 (map erase nodes) [] end.

Lemma same_erase n : same n (erase n).
Proof.
  induction n as [ch id nodes count IH] using node_induction. apply same_eq.
  split; [done|]. by apply same_map.
Qed.

Lemma erase_eq c1 i1 ns1 k1 c2 i2 ns2 k2 :
  erase (MkNode c1 i1 ns1 k1) = erase (MkNode c2 i2 ns2 k2) <->
  c1 = c2 /\ Forall2 (fun a b => erase a = erase b) ns1 ns2.
Proof.
  simpl. split.
  - intros [= -> H]. split; [done|]. revert ns2 H. induction ns1 as [|x l IH]; intros [|y l'] H; try done.
    injection H as H1 H2. constructor; auto.
  - intros [-> H]. f_equal. induction H; simpl; congruence.
Qed.

Lemma erase_topology_same t t' : map erase t = map erase t' -> same_topology t t'.
Proof.
  intros H. trans (map erase t); [|rewrite H; symmetry]; apply same_map, Forall_true; intros n;
    apply same_erase.
Qed.

Lemma fresh_erase l l' id :
  Forall2 (fun a b => forall id, canon_node a id = canon_node b id) l l' ->
  fresh canon_node l id = fresh canon_node l' id.
Proof.
  intros H. revert id. induction H as [|x y l l' Hxy _ IH]; intros id; [done|].
  rewrite !fresh_cons, Hxy. destruct (canon_node y id). by rewrite IH.
Qed.

(** The canonical tree depends only on the letters, and has the same ones. *)
Lemma canon_node_ext n n' id : erase n = erase n' -> canon_node n id = canon_node n' id.
Proof.
  revert n' id. induction n as [ch i nodes count IH] using node_induction.
  intros [ch' i' nodes' count'] id. rewrite erase_eq. intros [-> Hn]. simpl.
  rewrite (fresh_erase nodes nodes'); [done|]. clear -IH Hn.
  induction Hn as [|x y l l' Hxy _ IHn]; [done|]. inversion_clear IH. constructor; auto.
Qed.

Lemma fresh_erase_id l id :
  Forall (fun n => forall id, erase (fst (canon_node n id)) = erase n) l ->
  map erase (fst (fresh canon_node l id)) = map erase l.
Proof.
  intros H. revert id. induction H as [|n l Hn _ IH]; intros id; [done|].
  rewrite fresh_cons. specialize (Hn id). destruct (canon_node n id) as [n' next].
  specialize (IH next). destruct (fresh canon_node l next). simpl in *. congruence.
Qed.

Lemma erase_canon_node n id : erase (fst (canon_node n id)) = erase n.
Proof.
  revert id. induction n as [ch i nodes count IH] using node_induction. intros id. simpl.
  pose proof (fresh_erase_id nodes (id + 1) IH). destruct (fresh canon_node nodes (id + 1)).
  simpl in *. congruence.
Qed.

Lemma erase_canon t : map erase (canon t) = map erase t.
Proof. apply fresh_erase_id, Forall_true. intros n id. apply erase_canon_node. Qed.

Lemma canon_ext t t' : map erase t = map erase t' -> canon t = canon t'.
Proof.
  intros H. unfold canon. rewrite (fresh_erase t t'); [done|].
  revert t' H. induction t as [|x l IH]; intros [|y l'] H; try done. injection H as H1 H2.
  constructor; [|auto]. intros id. by apply canon_node_ext.
Qed.

Lemma canon_well_formed t : known_tree t = true -> well_formed (canon t).
Proof.
  intros H. split.
  - by rewrite <- (same_topology_known t) by (apply erase_topology_same; by rewrite erase_canon).
  - apply canon_ext, erase_canon.
Qed.

(** ** The bits *)

Fixpoint node_bits (n : Node) : list bool :=
  match n with
  | MkNode ch _ [] _ => [islower ch]
  | MkNode _ _ nodes _ => concat (map node_bits nodes)
  end.

Definition bits (t : topology) : list bool := concat (map node_bits t).

(** What a topology used as a mask covers: a node in lower case covers all below it. *)
Fixpoint node_mask (n : Node) : list bool :=
  if islower (n_c n) then map (fun _ => true) (node_bits n)
  else match n with
       | MkNode _ _ [] _ => [false]
       | MkNode _ _ nodes _ => concat (map node_mask nodes)
       end.

Definition mask (t : topology) : list bool := concat (map node_mask t).

(** A node that is not a leaf is in lower case exactly when everything below it is in use. *)
Fixpoint normal_node (n : Node) : bool :=
  match n with
  | MkNode _ _ [] _ => true
  | MkNode ch _ nodes _ =>
      Bool.eqb (islower ch) (forallb id (node_bits n)) && forallb normal_node nodes
  end.

Definition normal (t : topology) : Prop := forallb normal_node t = true.

Lemma node_bits_eq ch id nodes count :
  nodes <> [] -> node_bits (MkNode ch id nodes count) = bits nodes.
Proof. by destruct nodes. Qed.

Lemma forallb_concat {A} (f : A -> bool) l : forallb f (concat l) = forallb (forallb f) l.
Proof. induction l as [|x l IH]; [done|]. simpl. by rewrite forallb_app, IH. Qed.

Lemma forallb_map {A B} (f : A -> B) (p : B -> bool) l :
  forallb p (map f l) = forallb (fun x => p (f x)) l.
Proof. induction l as [|x l IH]; simpl; congruence. Qed.

Lemma forallb_ext_Forall {A} (p q : A -> bool) l :
  Forall (fun x => p x = q x) l -> forallb p l = forallb q l.
Proof. induction 1 as [|x l H _ IH]; simpl; congruence. Qed.

Lemma bits_ext t t' : map node_bits t = map node_bits t' -> bits t = bits t'.
Proof. unfold bits. by intros ->. Qed.

Lemma node_bits_erase n : node_bits (erase n) = node_bits n.
Proof.
  induction n as [ch id nodes count IH] using node_induction.
  destruct nodes as [|n0 l]; [done|]. simpl. inversion IH as [|? ? H0 H1]. subst.
  rewrite H0, map_map. f_equal. f_equal. by apply map_Forall_ext.
Qed.

Lemma normal_erase n : normal_node (erase n) = normal_node n.
Proof.
  induction n as [ch id nodes count IH] using node_induction.
  destruct nodes as [|n0 l]; [done|].
  transitivity (Bool.eqb (islower ch) (forallb Datatypes.id (node_bits (erase (MkNode ch id (n0 :: l) count)))) &&
                forallb normal_node (map erase (n0 :: l))); [done|].
  rewrite node_bits_erase, forallb_map. cbn [normal_node]. f_equal. by apply forallb_ext_Forall.
Qed.

Lemma bits_erase t t' : map erase t = map erase t' -> bits t = bits t'.
Proof.
  intros H. apply bits_ext.
  transitivity (map node_bits (map erase t)); [|rewrite H]; rewrite map_map;
    apply map_ext; intros n; by rewrite node_bits_erase.
Qed.

Lemma normal_topology_erase t t' : map erase t = map erase t' -> normal t -> normal t'.
Proof.
  unfold normal. intros H. assert (forall l, forallb normal_node l = forallb normal_node (map erase l)) as E.
  { intros l. rewrite forallb_map. apply forallb_ext_Forall, Forall_true. intros n. by rewrite normal_erase. }
  by rewrite (E t), (E t'), H.
Qed.

(** ** Correcting the letters of inner nodes *)

Definition updated (n : Node) : Prop :=
  same n (fst (update_node_case n)) /\
  node_bits (fst (update_node_case n)) = node_bits n /\
  normal_node (fst (update_node_case n)) = true /\
  snd (update_node_case n) = forallb id (node_bits n).

Lemma update_inner ch i nodes count :
  nodes <> [] ->
  update_node_case (MkNode ch i nodes count) =
  (MkNode (set_case (forallb snd (map update_node_case nodes)) ch) i
     (map (fun n => fst (update_node_case n)) nodes) count,
   forallb snd (map update_node_case nodes)).
Proof. destruct nodes; [done|]. intros _. cbn [update_node_case]. by rewrite map_map. Qed.

Lemma updated_level l :
  Forall updated l ->
  Forall2 same l (map (fun n => fst (update_node_case n)) l) /\
  bits (map (fun n => fst (update_node_case n)) l) = bits l /\
  normal (map (fun n => fst (update_node_case n)) l) /\
  forallb snd (map update_node_case l) = forallb id (bits l).
Proof.
  induction 1 as [|n l (H1 & H2 & H3 & H4) _ (IH1 & IH2 & IH3 & IH4)].
  { split; [constructor|]. done. }
  unfold bits, normal in *. cbn [map concat forallb]. rewrite H2, IH2, H3, IH3, H4, IH4, forallb_app.
  split; [by constructor|done].
Qed.

Lemma update_correct n : known_node n = true -> updated n.
Proof.
  induction n as [ch i nodes count IH] using node_induction.
  rewrite known_node_eq. intros [Hch Hn].
  destruct (decide (nodes = [])) as [->|Hne].
  { split; [done|]. cbn. by rewrite andb_true_r. }
  assert (Forall updated nodes) as Hu by (rewrite Forall_forall in *; auto).
  destruct (updated_level nodes Hu) as (H1 & H2 & H3 & H4). unfold updated.
  rewrite update_inner by done. cbn [fst snd]. rewrite H4, (node_bits_eq ch) by done.
  set (nodes' := map _ nodes) in *.
  assert (nodes' <> []) as Hne' by (by destruct nodes).
  split; [apply same_eq; by rewrite toupper_set_case|].
  rewrite node_bits_eq by done. split; [done|]. split; [|done].
  destruct nodes' as [|n' l'] eqn:E; [done|]. cbn [normal_node].
  rewrite <- E in *. rewrite node_bits_eq, H2, islower_set_case, eqb_reflx by done. done.
Qed.

(** The end of every operation: it succeeds, and only inner letters, ids and counters have
    changed. *)
Definition normalized (t t' : topology) : Prop :=
  well_formed t' /\ normal t' /\ same_topology t t' /\ bits t' = bits t.

Lemma correct_spec t :
  known_tree t = true ->
  let t' := correct_topology_upper_lower t in
  known_tree t' = true /\ normal t' /\ same_topology t t' /\ bits t' = bits t.
Proof.
  unfold known_tree at 1. rewrite forallb_Forall. intros H.
  destruct (updated_level t) as (H1 & H2 & H3 & _).
  { eapply Forall_impl; [exact H|apply update_correct]. }
  cbv zeta. unfold correct_topology_upper_lower. repeat split; try done.
  rewrite <- (same_topology_known t) by done. by apply forallb_Forall.
Qed.

Lemma normalize_canon t :
  known_tree t = true -> normalize t = Done (canon (correct_topology_upper_lower t)).
Proof.
  intros H. unfold normalize. rewrite to_internal_eq. apply parse_show.
  by apply correct_spec in H as [? _].
Qed.

Lemma canon_normalized t : known_tree t = true -> normal t -> normalized t (canon t).
Proof.
  intros Hk Hn. pose proof (erase_canon t) as He.
  split; [by apply canon_well_formed|]. split; [by eapply normal_topology_erase|].
  split; [by apply erase_topology_same|by apply bits_erase].
Qed.

Lemma normalize_letters_spec t :
  known_tree t = true -> exists t', normalize t = Done t' /\ normalized t t'.
Proof.
  intros H. eexists. split; [by apply normalize_canon|].
  destruct (correct_spec t H) as (Hk & Hn & Hs & Hb).
  destruct (canon_normalized _ Hk Hn) as (? & ? & ? & Hb').
  split; [done|]. split; [done|]. split; [by etrans|congruence].
Qed.

(** ** The shape and the bits determine a normalised topology *)

Lemma same_bits_length n n' : same n n' -> length (node_bits n) = length (node_bits n').
Proof.
  revert n'. induction n as [ch id nodes count IH] using node_induction.
  intros [ch' id' nodes' count']. rewrite same_eq. intros [_ Hn].
  destruct Hn as [|x y l l' Hxy Hn]; [done|]. cbn [node_bits].
  assert (Forall2 same (x :: l) (y :: l')) as Hs by (by constructor). clear Hxy Hn.
  revert IH Hs. generalize (x :: l) (y :: l'). clear.
  intros l l' IH Hn. induction Hn as [|x y l l' Hxy _ IHn]; [done|]. inversion_clear IH.
  cbn [map concat]. rewrite !length_app. f_equal; auto.
Qed.

Lemma same_topology_length t t' : same_topology t t' -> length (bits t) = length (bits t').
Proof.
  unfold bits. induction 1 as [|x y l l' H _ IH]; [done|]. cbn [map concat].
  rewrite !length_app. f_equal; [by apply same_bits_length|done].
Qed.

(** Two topologies of one shape have the same bits node by node. *)
Lemma bits_split t t' :
  same_topology t t' -> bits t = bits t' ->
  Forall2 (fun a b => node_bits a = node_bits b) t t'.
Proof.
  unfold bits. induction 1 as [|x y l l' H _ IH]; [done|]. cbn [map concat]. intros Hb.
  apply app_inj_1 in Hb as [? ?]; [|by apply same_bits_length]. auto.
Qed.

Lemma determined_node n n' :
  same n n' -> known_node n = true -> normal_node n = true -> normal_node n' = true ->
  node_bits n = node_bits n' -> erase n = erase n'.
Proof.
  revert n'. induction n as [ch i nodes count IH] using node_induction.
  intros [ch' i' nodes' count']. rewrite same_eq, known_node_eq, erase_eq.
  intros [Hc Hn] [Hk Hkn]. destruct Hn as [|x y l l' Hxy Hl].
  { cbn. intros _ _ [= Hb]. split; [by apply letter_eq|constructor]. }
  assert (Forall2 same (x :: l) (y :: l')) as Hs by (by constructor).
  cbn [normal_node]. rewrite !node_bits_eq by done. rewrite !andb_true_iff, !eqb_true_iff.
  intros [Hl1 Hn1] [Hl2 Hn2] Hb. split; [apply letter_eq; congruence|].
  apply bits_split in Hb; [|done]. apply forallb_Forall in Hn1, Hn2.
  clear Hxy Hl Hl1 Hl2 Hc Hk. revert IH Hkn Hs Hn1 Hn2 Hb.
  generalize (x :: l) (y :: l'). clear. intros l l' IH Hkn Hs. revert IH Hkn.
  induction Hs as [|x y l l' Hxy _ IHs]; intros IH Hkn Hn1 Hn2 Hb; [constructor|].
  inversion_clear IH. inversion_clear Hkn. inversion_clear Hn1. inversion_clear Hn2.
  inversion_clear Hb. constructor; auto.
Qed.

Lemma determined t t' :
  well_formed t -> well_formed t' -> normal t -> normal t' -> same_topology t t' ->
  bits t = bits t' -> t = t'.
Proof.
  intros [Hk Hw] [_ Hw'] Hn Hn' Hs Hb. rewrite <- Hw, <- Hw'. apply canon_ext.
  apply bits_split in Hb; [|done]. unfold known_tree, normal in *. rewrite forallb_Forall in *.
  clear Hw Hw'. induction Hs as [|x y l l' Hxy _ IH]; [done|].
  inversion_clear Hk. inversion_clear Hn. inversion_clear Hn'. inversion_clear Hb.
  cbn [map]. f_equal; [by apply determined_node|auto].
Qed.

(** ** Marking nodes *)

(** The bits after those of [m] have been set or cleared. *)
Definition apply_mask (mark_used : bool) (l m : list bool) : list bool :=
  zip_with (fun a b => if b : bool then mark_used else a) l m.

Lemma zip_with_app_eq {A B C} (f : A -> B -> C) l1 l2 k1 k2 :
  length l1 = length k1 -> zip_with f (l1 ++ l2) (k1 ++ k2) = zip_with f l1 k1 ++ zip_with f l2 k2.
Proof. intros. by apply zip_with_app. Qed.

Lemma node_mask_length n : length (node_mask n) = length (node_bits n).
Proof.
  induction n as [ch id nodes count IH] using node_induction. cbn [node_mask n_c].
  destruct (islower ch); [by rewrite length_map|]. destruct nodes as [|x l]; [done|].
  cbn [node_bits]. revert IH. generalize (x :: l). clear. intros l IH.
  induction IH as [|x l H _ IH]; [done|]. cbn [map concat]. rewrite !length_app. congruence.
Qed.

Lemma bits_map_letters f n b :
  known_node n = true -> (forall ch, known ch = true -> islower (f ch) = b) ->
  node_bits (map_letters f n) = map (fun _ => b) (node_bits n).
Proof.
  intros Hk Hf. induction n as [ch id nodes count IH] using node_induction.
  apply known_node_eq in Hk as [Hch Hn]. destruct nodes as [|x l]; [by cbn; rewrite Hf|].
  cbn [node_bits map_letters]. rewrite concat_map, !map_map. f_equal.
  cbn [map]. change (map (fun n => node_bits (map_letters f n)) (x :: l)
    = map (fun n => map (fun _ => b) (node_bits n)) (x :: l)).
  apply map_Forall_ext. rewrite Forall_forall in *. auto.
Qed.


Lemma apply_mask_all u l (v : list bool) :
  length v = length l -> apply_mask u l (map (fun _ => true) v) = map (fun _ => u) l.
Proof.
  unfold apply_mask. revert v. induction l as [|x l IH]; intros [|b v]; simpl; intros; try done.
  f_equal. apply IH. lia.
Qed.

Lemma in_step_cons {A B} (f : A -> B -> A) x y l l' :
  in_step f (x :: l) (y :: l') = f x y :: in_step f l l'.
Proof. done. Qed.

Definition marked_by (u : bool) (n m : Node) : Prop :=
  same n (walk_pair u n m) /\ node_bits (walk_pair u n m) = apply_mask u (node_bits n) (node_mask m).

Lemma marked_level u l l' :
  Forall2 same l l' -> Forall2 (marked_by u) l l' ->
  Forall2 same l (in_step (walk_pair u) l l') /\
  bits (in_step (walk_pair u) l l') = apply_mask u (bits l) (mask l').
Proof.
  unfold bits, mask. intros Hs. induction Hs as [|x y l l' Hxy _ IH]; [by split|].
  inversion_clear 1 as [|? ? ? ? [H1 H2] Hm]. destruct (IH Hm) as [IH1 IH2].
  rewrite in_step_cons. split; [by constructor|]. cbn [map concat]. rewrite H2, IH2.
  unfold apply_mask. rewrite zip_with_app_eq; [done|].
  by rewrite node_mask_length, (same_bits_length x y).
Qed.

Lemma walk_pair_spec u n m : known_node n = true -> same n m -> marked_by u n m.
Proof.
  revert m. induction n as [ch id nodes count IH] using node_induction.
  intros [ch' id' nodes' count'] Hk Hs. unfold marked_by. cbn [walk_pair n_c node_mask].
  destruct (islower ch') eqn:Hl.
  { split; [apply same_map_letters, toupper_set_case|].
    rewrite apply_mask_all by (symmetry; by apply same_bits_length).
    apply bits_map_letters; [done|]. intros c Hc. by apply islower_set_case. }
  apply known_node_eq in Hk as [Hch Hn]. apply same_eq in Hs as [Hc Hs].
  destruct (marked_level u nodes nodes') as [H1 H2]; [done| |].
  { clear Hc Hl. revert IH Hn. induction Hs as [|x y l l' Hxy _ IHs]; [done|]. intros IH Hn.
    inversion_clear IH. inversion_clear Hn. constructor; auto. }
  split; [by apply same_eq|].
  destruct Hs as [|x y l l' Hxy Hs]; [done|]. rewrite !node_bits_eq by done. exact H2.
Qed.

Lemma walk_pair_level u t m :
  known_tree t = true -> same_topology t m ->
  same_topology t (in_step (walk_pair u) t m) /\
  bits (in_step (walk_pair u) t m) = apply_mask u (bits t) (mask m).
Proof.
  intros Hk Hs. apply marked_level; [done|]. unfold known_tree in Hk. rewrite forallb_Forall in Hk.
  induction Hs as [|x y l l' Hxy _ IH]; [done|]. inversion_clear Hk.
  constructor; [by apply walk_pair_spec|auto].
Qed.

(** What marking leaves: a normalised topology of the same shape with the bits [l]. *)
Definition represents (t t' : topology) (l : list bool) : Prop :=
  well_formed t' /\ normal t' /\ same_topology t t' /\ bits t' = l.

Lemma represents_unique t t1 t2 l : represents t t1 l -> represents t t2 l -> t1 = t2.
Proof.
  intros (Hw1 & Hn1 & Hs1 & Hb1) (Hw2 & Hn2 & Hs2 & Hb2).
  apply determined; try done; [|congruence]. by rewrite <- Hs1.
Qed.

Lemma represents_trans t0 t t' l : same_topology t0 t -> represents t t' l -> represents t0 t' l.
Proof. intros H (? & ? & Hs & ?). repeat split; try done; try apply H0. by rewrite H. Qed.

Lemma normalize_represents t0 t :
  known_tree t = true -> same_topology t0 t ->
  exists t', normalize t = Done t' /\ represents t0 t' (bits t).
Proof.
  intros Hk Hs. destruct (normalize_letters_spec t Hk) as (t' & He & Hw & Hn & Hs' & Hb).
  exists t'. split; [done|]. repeat split; try done; try apply Hw. by rewrite Hs.
Qed.

Lemma mark_nodes_spec t m u :
  t <> [] -> known_tree t = true -> same_topology t m ->
  exists t', mark_nodes_as_used_or_unused t m u = Done t' /\
             represents t t' (apply_mask u (bits t) (mask m)).
Proof.
  intros Hne Hk Hs. destruct (walk_pair_level u t m Hk Hs) as [Hs' Hb].
  destruct (normalize_represents t (in_step (walk_pair u) t m)) as (t' & He & Hr).
  - by rewrite <- (same_topology_known t).
  - done.
  - exists t'. rewrite Hb in Hr. split; [|done]. unfold mark_nodes_as_used_or_unused.
    by destruct t.
Qed.

(** A normalised mask covers its bits. *)
Lemma node_mask_normal n : normal_node n = true -> node_mask n = node_bits n.
Proof.
  induction n as [ch id nodes count IH] using node_induction. intros Hn.
  destruct nodes as [|x l]; [cbn; by destruct (islower ch)|].
  cbn [normal_node] in Hn. apply andb_true_iff in Hn as [Hl Hn]. apply Bool.eqb_prop in Hl.
  apply forallb_Forall in Hn. cbn [node_mask n_c]. destruct (islower ch).
  - symmetry in Hl. apply forallb_Forall in Hl. clear -Hl. induction Hl as [|b k H _ IHk]; [done|].
    cbn [map]. unfold Datatypes.id in H. by rewrite H, IHk at 1.
  - cbn [node_bits]. f_equal. apply map_Forall_ext. rewrite Forall_forall in *. auto.
Qed.

Lemma mask_normal t : normal t -> mask t = bits t.
Proof.
  unfold normal, mask, bits. rewrite forallb_Forall. intros H. f_equal. apply map_Forall_ext.
  eapply Forall_impl; [exact H|apply node_mask_normal].
Qed.

Lemma bits_invert n :
  known_node n = true -> node_bits (map_letters invert_letter n) = map negb (node_bits n).
Proof.
  intros Hk. induction n as [ch id nodes count IH] using node_induction.
  apply known_node_eq in Hk as [Hch Hn].
  destruct nodes as [|x l]; [by cbn; rewrite islower_invert|]. cbn [map_letters].
  rewrite !node_bits_eq by done. unfold bits. rewrite concat_map, !map_map. f_equal.
  apply map_Forall_ext. rewrite Forall_forall in *. auto.
Qed.

Lemma invert_spec t :
  known_tree t = true ->
  exists t', invert_binding t = Done t' /\ represents t t' (map negb (bits t)).
Proof.
  intros Hk. unfold invert_binding.
  assert (same_topology t (map (map_letters invert_letter) t)) as Hs.
  { apply same_map, Forall_true. intros n. apply same_map_letters, toupper_invert. }
  destruct (normalize_represents t (map (map_letters invert_letter) t)) as (t' & He & Hr).
  - by rewrite <- (same_topology_known t).
  - done.
  - exists t'. split; [done|]. replace (map negb (bits t)) with (bits (map (map_letters invert_letter) t)); [done|].
    unfold bits. rewrite concat_map, !map_map. f_equal. apply map_Forall_ext.
    unfold known_tree in Hk. rewrite forallb_Forall in Hk.
    eapply Forall_impl; [exact Hk|apply bits_invert].
Qed.

End TopologyBits.
