(* ===== verification/TopologyUnitFacts.v ===== *)
(** Facts on units: the nodes of a topology in the order of their ids, what marking units does to
    the bits, and what a search finds. *)

From stdpp Require Import sorting.
From Stdlib Require Import Ascii.
From S2P Require Import Prelude TopologyString TopologyUnits TopologyFacts TopologyBits.
Import TopologyString TopologyUnits TopologyFacts TopologyBits.

Module TopologyUnitFacts.
Local Open Scope topology_scope.

(** ** Nodes in order *)

Fixpoint preorder (n : Node) : list Node :=
  match n with MkNode _ _ nodes _ => n :: concat (map preorder nodes) end.

Definition all_nodes (t : topology) : list Node := concat (map preorder t).

Lemma sublist_map {A B} (f : A -> B) l l' : l `sublist_of` l' -> map f l `sublist_of` map f l'.
Proof. induction 1; cbn [map]; by constructor. Qed.

(** A property that passes on to the children holds for every node below. *)
Lemma all_nodes_inherit (P : Node -> Prop) t x :
  (forall ch id nodes count, P (MkNode ch id nodes count) -> Forall P nodes) ->
  x ∈ all_nodes t -> Forall P t -> P x.
Proof.
  intros HP.
  assert (forall n, x ∈ preorder n -> P n -> P x) as Hn.
  { induction n as [ch id nodes count IH] using node_induction. cbn [preorder].
    intros [->|Hx]%elem_of_cons; [done|]. intros H%HP.
    apply list_elem_of_In, in_concat in Hx as (p & Hp & Hx). apply in_map_iff in Hp as (z & <- & Hz).
    apply list_elem_of_In in Hx, Hz. rewrite Forall_forall in *. by apply (IH z), H. }
  intros Hx H. apply list_elem_of_In, in_concat in Hx as (p & Hp & Hx).
  apply in_map_iff in Hp as (z & <- & Hz). apply list_elem_of_In in Hx, Hz.
  rewrite Forall_forall in H. apply (Hn z); [done|by apply H].
Qed.

(** The ids of the nodes are [k], [k + 1], ... *)
Definition numbered (l : list Node) (k : Z) : Prop := map n_id l = seqZ k (length l).

Lemma numbered_nil k : numbered [] k.
Proof. done. Qed.

Lemma numbered_cons n l k : numbered (n :: l) k <-> n_id n = k /\ numbered l (k + 1).
Proof.
  unfold numbered. cbn [map length]. rewrite Nat2Z.inj_succ, seqZ_cons by lia.
  replace (Z.pred (Z.succ (length l))) with (Z.of_nat (length l)) by lia.
  replace (Z.succ k) with (k + 1) by lia. split.
  - by intros [= -> H].
  - by intros [-> ->].
Qed.

Lemma numbered_app l l' k : numbered (l ++ l') k <-> numbered l k /\ numbered l' (k + length l).
Proof.
  revert k. induction l as [|n l IH]; intros k.
  - cbn. rewrite Z.add_0_r. split; [by split; [apply numbered_nil|]|by intros [_ H]].
  - rewrite <- app_comm_cons, !numbered_cons, IH. cbn [length].
    replace (k + 1 + length l) with (k + S (length l)) by lia. tauto.
Qed.

Lemma numbered_id l k n : numbered l k -> n ∈ l -> k <= n_id n < k + length l.
Proof.
  intros H Hn. apply (list_elem_of_fmap_2 n_id) in Hn. change (n_id <$> l) with (map n_id l) in Hn.
  rewrite H in Hn. apply elem_of_seqZ in Hn. lia.
Qed.

Lemma numbered_inj l k a b : numbered l k -> a ∈ l -> b ∈ l -> n_id a = n_id b -> a = b.
Proof.
  intros Hn Ha Hb He. apply list_elem_of_lookup in Ha as [i Hi], Hb as [j Hj].
  assert (forall (i : nat) x, l !! i = Some x -> n_id x = k + i) as H.
  { intros i' x Hx. assert (map n_id l !! i' = Some (n_id x)) as Hm by (by apply list_lookup_fmap_Some_2).
    rewrite Hn in Hm. apply lookup_seqZ in Hm. lia. }
  pose proof (H _ _ Hi). pose proof (H _ _ Hj). assert (i = j) as -> by lia. congruence.
Qed.

Lemma preorder_length n n' : erase n = erase n' -> length (preorder n) = length (preorder n').
Proof.
  revert n'. induction n as [ch i nodes count IH] using node_induction.
  intros [ch' i' nodes' count']. rewrite erase_eq. intros [_ Hn]. cbn. f_equal.
  induction Hn as [|x y l l' Hxy _ IHn]; [done|]. inversion_clear IH. cbn [map concat].
  rewrite !length_app. f_equal; auto.
Qed.

Definition canon_numbered (n : Node) : Prop := forall k,
  numbered (preorder (fst (canon_node n k))) k /\
  snd (canon_node n k) = k + length (preorder (fst (canon_node n k))).

Lemma fresh_numbered l k :
  Forall canon_numbered l ->
  numbered (all_nodes (fst (fresh canon_node l k))) k /\
  snd (fresh canon_node l k) = k + length (all_nodes (fst (fresh canon_node l k))).
Proof.
  intros H. revert k. induction H as [|n l Hn _ IH]; intros k.
  - split; [apply numbered_nil|]. cbn. lia.
  - rewrite fresh_cons. specialize (Hn k). destruct (canon_node n k) as [n' next].
    specialize (IH next). destruct (fresh canon_node l next) as [l' next'].
    unfold all_nodes in *. cbn [fst snd map concat] in *. destruct Hn as [Hn ->].
    destruct IH as [IH ->]. rewrite numbered_app, length_app. split; [done|lia].
Qed.

Lemma canon_node_numbered n : canon_numbered n.
Proof.
  induction n as [ch i nodes count IH] using node_induction. intros k. cbn [canon_node].
  pose proof (fresh_numbered nodes (k + 1) IH) as [H1 H2].
  destruct (fresh canon_node nodes (k + 1)) as [l next]. cbn [fst snd preorder] in *.
  fold (all_nodes l). rewrite numbered_cons. cbn [n_id length]. split; [done|]. lia.
Qed.

Lemma well_formed_numbered t : well_formed t -> numbered (all_nodes t) 1.
Proof.
  intros [_ H]. rewrite <- H. apply fresh_numbered, Forall_true, canon_node_numbered.
Qed.

(** ** Marking units *)

Section MarkSpec.
Context (ids : list Z) (letter : ascii) (used : bool).

(** The node is marked, given whether one above it was and the letter of its parent. *)
Definition to_mark (ancestor : bool) (parent ch : ascii) (id : Z) : bool :=
  bool_decide (id ∈ ids) ||
  (ancestor && (no_letter letter || is_char parent letter || is_char (toupper ch) letter)).

Fixpoint mark_by (ancestor : bool) (parent : ascii) (n : Node) : Node :=
  match n with
  | MkNode ch id nodes count =>
      let m := to_mark ancestor parent ch id in
      MkNode (if m then set_case used ch else ch) id
        (map (mark_by (m || ancestor) (toupper ch)) nodes) count
  end.

(** The threads that are marked. *)
Fixpoint unit_mask (ancestor : bool) (parent : ascii) (n : Node) : list bool :=
  match n with
  | MkNode ch id nodes _ =>
      let m := to_mark ancestor parent ch id in
      match nodes with
      | [] => [m]
      | _ => concat (map (unit_mask (m || ancestor) (toupper ch)) nodes)
      end
  end.

(** The ids before [pos] are those below [k]. *)
Definition splits (pos : nat) (k : Z) : Prop := forall i x,
  ids !! i = Some x -> ((i < pos)%nat <-> x < k).

Hypothesis Hsorted : StronglySorted Z.lt ids.

Lemma sorted_lookup i j x y : ids !! i = Some x -> ids !! j = Some y -> (i < j)%nat -> x < y.
Proof.
  revert i j. induction Hsorted as [|a l Hl IH Ha]; [done|]. intros [|i] [|j] Hx Hy Hij; try lia.
  - injection Hx as ->. rewrite Forall_forall in Ha. by apply Ha, list_elem_of_lookup_2 with j.
  - apply (IH Hl i j); [done..|lia].
Qed.

Lemma at_id_spec pos k :
  splits pos k ->
  match ids !! pos with Some i => k =? i | None => false end = bool_decide (k ∈ ids) /\
  splits (if bool_decide (k ∈ ids) then S pos else pos) (k + 1).
Proof.
  intros H.
  assert (match ids !! pos with Some i => k =? i | None => false end = bool_decide (k ∈ ids)) as E.
  { destruct (ids !! pos) as [x|] eqn:Ex.
    - symmetry. destruct (Z.eqb_spec k x) as [->|Hne]; case_bool_decide as Hin; try done.
      { contradict Hin. by eapply list_elem_of_lookup_2. }
      apply list_elem_of_lookup in Hin as [j Hj]. pose proof (H _ _ Hj). pose proof (H _ _ Ex).
      destruct (decide (j < pos)%nat); [lia|]. destruct (decide (j = pos)) as [->|]; [congruence|].
      pose proof (sorted_lookup pos j _ _ Ex Hj ltac:(lia)). lia.
    - symmetry. apply bool_decide_eq_false. intros [j Hj]%list_elem_of_lookup.
      pose proof (H _ _ Hj). apply lookup_ge_None in Ex. apply lookup_lt_Some in Hj as Hj'. lia. }
  split; [done|]. rewrite <- E. intros i x Hi. pose proof (H i x Hi) as Hx.
  destruct (ids !! pos) as [y|] eqn:Ey.
  - pose proof (H _ _ Ey) as Hy.
    assert ((i = pos /\ x = y) \/ ((i < pos)%nat /\ x < y) \/ ((pos < i)%nat /\ y < x)) as Hc.
    { destruct (lt_eq_lt_dec i pos) as [[?| ->]|?].
      - right; left. split; [done|]. by apply (sorted_lookup i pos).
      - left. split; [done|congruence].
      - right; right. split; [done|]. by apply (sorted_lookup pos i). }
    destruct (Z.eqb_spec k y); lia.
  - apply lookup_ge_None in Ey. apply lookup_lt_Some in Hi as Hi'. lia.
Qed.

Definition marks (n : Node) : Prop := forall ancestor parent pos k,
  numbered (preorder n) k -> splits pos k ->
  exists pos', mark_node ids letter used ancestor parent n pos = (mark_by ancestor parent n, pos') /\
               splits pos' (k + length (preorder n)).

Lemma map_pos_cons {A} (f : A -> nat -> A * nat) x l pos :
  map_pos f (x :: l) pos = let '(x, pos) := f x pos in let '(l, pos) := map_pos f l pos in (x :: l, pos).
Proof. done. Qed.

Lemma marks_level l ancestor parent pos k :
  Forall marks l -> numbered (all_nodes l) k -> splits pos k ->
  exists pos', map_pos (mark_node ids letter used ancestor parent) l pos
               = (map (mark_by ancestor parent) l, pos') /\
               splits pos' (k + length (all_nodes l)).
Proof.
  intros H. revert pos k. induction H as [|n l Hn _ IH]; intros pos k Hl Hp.
  - exists pos. split; [done|]. cbn. by rewrite Z.add_0_r.
  - unfold all_nodes in *. cbn [map concat] in *. apply numbered_app in Hl as [Hl1 Hl2].
    destruct (Hn ancestor parent pos k Hl1 Hp) as (pos1 & E1 & Hp1).
    destruct (IH pos1 _ Hl2 Hp1) as (pos2 & E2 & Hp2). exists pos2.
    rewrite map_pos_cons, E1, E2. split; [done|]. rewrite length_app.
    by replace (k + (length (preorder n) + length (concat (map preorder l)))%nat)
      with (k + length (preorder n) + length (concat (map preorder l))) by lia.
Qed.

Lemma mark_node_spec n : marks n.
Proof.
  induction n as [ch id nodes count IH] using node_induction. intros ancestor parent pos k Hn Hp.
  cbn [preorder] in *. fold (all_nodes nodes) in *. apply numbered_cons in Hn as [Hid Hn].
  cbn [n_id] in Hid. subst id. destruct (at_id_spec pos k Hp) as [E Hp'].
  cbn [mark_node mark_by]. rewrite E.
  assert (bool_decide (k ∈ ids) || (ancestor && (no_letter letter || is_char parent letter))
    || (ancestor && (no_letter letter || is_char (toupper ch) letter))
    = to_mark ancestor parent ch k) as ->.
  { unfold to_mark. destruct (bool_decide _), ancestor, (no_letter letter), (is_char parent letter),
      (is_char (toupper ch) letter); done. }
  assert (toupper (if to_mark ancestor parent ch k then set_case used ch else ch) = toupper ch) as ->.
  { destruct (to_mark _ _ _ _); [apply toupper_set_case|done]. }
  destruct (marks_level nodes (to_mark ancestor parent ch k || ancestor) (toupper ch) _ _ IH Hn Hp')
    as (pos' & -> & Hp2).
  exists pos'. split; [done|]. cbn [length].
  by replace (k + S (length (all_nodes nodes))) with (k + 1 + length (all_nodes nodes)) by lia.
Qed.

End MarkSpec.

Lemma mark_by_shape ids letter used ancestor parent n :
  known_node n = true ->
  same n (mark_by ids letter used ancestor parent n) /\
  node_bits (mark_by ids letter used ancestor parent n)
  = apply_mask used (node_bits n) (unit_mask ids letter ancestor parent n) /\
  length (unit_mask ids letter ancestor parent n) = length (node_bits n).
Proof.
  revert ancestor parent. induction n as [ch id nodes count IH] using node_induction.
  intros ancestor parent. rewrite known_node_eq. intros [Hch Hn]. cbn [mark_by].
  set (m := to_mark ids letter ancestor parent ch id).
  assert (toupper (if m then set_case used ch else ch) = toupper ch) as Hup.
  { destruct m; [apply toupper_set_case|done]. }
  set (f := mark_by ids letter used (m || ancestor) (toupper ch)).
  set (g := unit_mask ids letter (m || ancestor) (toupper ch)).
  assert (Forall (fun n => same n (f n) /\ node_bits (f n) = apply_mask used (node_bits n) (g n) /\
    length (g n) = length (node_bits n)) nodes) as Hall.
  { rewrite Forall_forall in *. intros n Hin. by apply IH, Hn. }
  assert (Forall2 same nodes (map f nodes) /\ bits (map f nodes) = apply_mask used (bits nodes)
    (concat (map g nodes)) /\ length (concat (map g nodes)) = length (bits nodes)) as (H1 & H2 & H3).
  { clear -Hall. unfold bits. induction Hall as [|x l (Ha & Hb & Hc) _ (IH1 & IH2 & IH3)]; [done|].
    cbn [map concat]. rewrite !length_app, Hb, IH2. split; [by constructor|]. split; [|lia].
    unfold apply_mask. by rewrite zip_with_app_eq. }
  split; [by apply same_eq|]. destruct nodes as [|x l].
  - cbn. fold m. split; [|done]. destruct m; [|done]. by rewrite islower_set_case.
  - cbn [unit_mask]. fold m. fold g. rewrite !node_bits_eq by done. done.
Qed.

Definition units_mask (ids : list Z) (unit : Unit) (t : topology) : list bool :=
  concat (map (unit_mask ids (unit_letter_of unit) false zero) t).

(** The same result if the ids come in another order. *)
Lemma unit_mask_ext ids ids' letter ancestor parent n :
  (forall i, i ∈ ids <-> i ∈ ids') ->
  unit_mask ids letter ancestor parent n = unit_mask ids' letter ancestor parent n.
Proof.
  intros Hids. revert ancestor parent. induction n as [ch id nodes count IH] using node_induction.
  intros ancestor parent. cbn [unit_mask].
  assert (to_mark ids letter ancestor parent ch id = to_mark ids' letter ancestor parent ch id) as ->.
  { unfold to_mark. f_equal. by apply bool_decide_ext. }
  destruct nodes as [|x l]; [done|]. f_equal. apply map_Forall_ext.
  eapply Forall_impl; [exact IH|]. intros n H. apply H.
Qed.

(** ** Counters *)

Definition count_letter (ch : ascii) (l : list Node) : nat :=
  length (filter (fun n => n_c n = ch) l).

Lemma count_letter_cons ch n l :
  count_letter ch (n :: l) = ((if decide (n_c n = ch) then 1 else 0) + count_letter ch l)%nat.
Proof. unfold count_letter. rewrite filter_cons. by destruct (decide _). Qed.

Lemma count_letter_app ch l l' : count_letter ch (l ++ l') = (count_letter ch l + count_letter ch l')%nat.
Proof. unfold count_letter. by rewrite filter_app, length_app. Qed.

(** The counters of a node are the numbers of letters in its subtree. *)
Definition counted (n : Node) : Prop :=
  length (n_count n) = char_to_index_size /\
  forall ch, known ch = true -> get_counter n ch = count_letter ch (preorder n).

Lemma nth_add_counts i a b :
  length a = length b -> nth i (add_counts a b) 0 = nth i a 0 + nth i b 0.
Proof.
  unfold add_counts. revert i b. induction a as [|x a IH]; intros i [|y b] H; try done.
  { by destruct i. }
  destruct i as [|i]; [done|]. simpl in *. apply IH. lia.
Qed.

Lemma counts_of_children ch children init :
  Forall counted children -> length init = char_to_index_size -> known ch = true ->
  let r := fold_left (fun acc child => add_counts acc (n_count child)) children init in
  length r = char_to_index_size /\
  nth (Z.to_nat (char_to_index ch)) r 0
  = nth (Z.to_nat (char_to_index ch)) init 0 + count_letter ch (all_nodes children).
Proof.
  intros H Hi Hch. revert init Hi. induction H as [|n l [Hl Hn] _ IH]; intros init Hi; cbv zeta.
  - split; [done|]. cbn. lia.
  - cbn [fold_left]. destruct (IH (add_counts init (n_count n))) as [IH1 IH2].
    { unfold add_counts. rewrite length_zip_with. lia. }
    split; [done|]. rewrite IH2, nth_add_counts by congruence.
    unfold all_nodes. cbn [map concat]. rewrite count_letter_app. specialize (Hn ch Hch).
    unfold get_counter in Hn. rewrite Hn. lia.
Qed.

Lemma nth_insert_zero (i j m : nat) :
  (j < m)%nat -> nth i (<[j := 1]> (replicate m 0)) 0 = if decide (i = j) then 1 else 0.
Proof.
  intros Hj. rewrite nth_lookup. destruct (decide (i = j)) as [->|Hne].
  - by rewrite list_lookup_insert_eq by (by rewrite length_replicate).
  - rewrite list_lookup_insert_ne by done. destruct (replicate m 0 !! i) as [y|] eqn:E; [|done].
    by apply lookup_replicate in E as [-> _].
Qed.

Lemma counted_node ch id children :
  known ch = true -> Forall counted children -> counted (MkNode ch id children (counts ch children)).
Proof.
  intros Hch H. unfold counted, counts. cbn [n_count].
  assert (0 <= char_to_index ch) as Hp by (unfold known in Hch; lia).
  pose proof (index_bound ch) as Hb.
  set (init := <[Z.to_nat (char_to_index ch) := 1]> (replicate char_to_index_size 0)).
  assert (length init = char_to_index_size) as Hl.
  { unfold init. by rewrite length_insert, length_replicate. }
  split; [by apply (counts_of_children ch)|]. intros a Ha. unfold get_counter. cbn [n_count].
  destruct (counts_of_children a children init H Hl Ha) as [_ ->]. cbn [preorder].
  fold (all_nodes children). rewrite count_letter_cons. cbn [n_c]. unfold init.
  rewrite nth_insert_zero by lia.
  assert (0 <= char_to_index a) as Hpa by (unfold known in Ha; lia).
  destruct (decide (ch = a)) as [Hc|Hc], (decide (Z.to_nat (char_to_index a) = Z.to_nat (char_to_index ch)))
    as [He|He]; [lia|subst; lia| |lia].
  contradict Hc. symmetry. apply index_inj; [done..|lia].
Qed.

Lemma canon_counted_list l k :
  Forall (fun n => forall k, Forall counted (preorder (fst (canon_node n k)))) l ->
  Forall counted (all_nodes (fst (fresh canon_node l k))).
Proof.
  intros H. revert k. induction H as [|n l Hn _ IH]; intros k; [constructor|].
  rewrite fresh_cons. specialize (Hn k). destruct (canon_node n k) as [n' next].
  specialize (IH next). destruct (fresh canon_node l next) as [l' next'].
  unfold all_nodes in *. cbn [fst map concat] in *. by apply Forall_app.
Qed.

Lemma children_nodes l : Forall (fun n => n ∈ all_nodes l) l.
Proof.
  apply Forall_forall. intros n Hn. unfold all_nodes. apply list_elem_of_In, in_concat.
  exists (preorder n). split; [apply in_map; by apply list_elem_of_In|]. destruct n. by left.
Qed.

Lemma canon_counted n k : known_node n = true -> Forall counted (preorder (fst (canon_node n k))).
Proof.
  revert k. induction n as [ch i nodes count IH] using node_induction. intros k.
  rewrite known_node_eq. intros [Hch Hn]. cbn [canon_node].
  pose proof (canon_counted_list nodes (k + 1)) as H.
  destruct (fresh canon_node nodes (k + 1)) as [l next]. cbn [fst preorder] in *.
  fold (all_nodes l). assert (Forall counted (all_nodes l)) as Hl.
  { apply H. rewrite Forall_forall in *. intros n Hi j. apply IH; auto. }
  constructor; [|done]. apply counted_node; [done|].
  eapply Forall_impl; [apply children_nodes|]. intros n Hi. rewrite Forall_forall in Hl. auto.
Qed.

Lemma well_formed_counted t : well_formed t -> Forall counted (all_nodes t).
Proof.
  intros [Hk H]. rewrite <- H. apply canon_counted_list. unfold known_tree in Hk.
  apply forallb_Forall in Hk. eapply Forall_impl; [exact Hk|]. intros n Hn k. by apply canon_counted.
Qed.

End TopologyUnitFacts.
