(* ===== verification/TopologySearch.v ===== *)
(** What a search for units finds: free units in the order of the topology, none twice, none
    inside another; which threads marking them takes. *)

From stdpp Require Import sorting.
From Stdlib Require Import Ascii.
From S2P Require Import Prelude TopologyString TopologyUnits TopologyFacts TopologyBits TopologyUnitFacts.
Import TopologyString TopologyUnits TopologyFacts TopologyBits TopologyUnitFacts.

Module TopologySearch.
Local Open Scope topology_scope.

(** ** Marking *)

(** A topology with the letters of a normalised one; ids and counters are left open. *)
Definition shows (t0 t : topology) (l : list bool) : Prop :=
  known_tree t = true /\ normal t /\ same_topology t0 t /\ bits t = l.

Lemma represents_shows t0 t l : represents t0 t l -> shows t0 t l.
Proof. by intros ([? _] & ? & ? & ?). Qed.

Lemma shows_represents t0 t l : shows t0 t l -> represents t0 (canon t) l.
Proof.
  intros (Hk & Hn & Hs & Hb). destruct (canon_normalized t Hk Hn) as (? & ? & Hs' & Hb').
  repeat split; try done; try apply H; [by rewrite Hs|congruence].
Qed.

Lemma shows_parse t0 t l :
  shows t0 t l -> parse_to_tree (to_internal t false) = Done (canon t).
Proof. intros (Hk & _). rewrite to_internal_eq. by apply parse_show. Qed.

(** What is printed depends on shape and bits only. *)
Lemma shows_text t0 t t' l : shows t0 t l -> represents t0 t' l -> to_internal t false = to_internal t' false.
Proof.
  intros H H'. pose proof (represents_unique _ _ _ _ (shows_represents _ _ _ H) H') as <-.
  rewrite !to_internal_eq. f_equal. unfold show. f_equal.
  assert (forall n n', erase n = erase n' -> show_node n = show_node n') as E.
  { clear. induction n as [ch i nodes count IH] using node_induction. intros [ch' i' nodes' count'].
    rewrite erase_eq. intros [-> Hn]. cbn [show_node]. do 3 f_equal. f_equal.
    induction Hn as [|x y l l' Hxy _ IHn]; [done|]. inversion_clear IH. cbn [map]. f_equal; auto. }
  pose proof (erase_canon t) as He. revert He. generalize (canon t) as t'. clear H H'.
  induction t as [|x t IH]; intros [|y t'] He; try done. injection He as H1 H2. cbn [map].
  f_equal; [by apply E|by apply IH].
Qed.

Lemma ids_mark_by ids letter used ancestor parent n :
  map n_id (preorder (mark_by ids letter used ancestor parent n)) = map n_id (preorder n).
Proof.
  revert ancestor parent. induction n as [ch id nodes count IH] using node_induction.
  intros ancestor parent. cbn [mark_by preorder map n_id]. f_equal.
  rewrite !concat_map, !map_map. f_equal. apply map_Forall_ext.
  eapply Forall_impl; [exact IH|]. intros n H. apply H.
Qed.

Lemma ids_update n : map n_id (preorder (fst (update_node_case n))) = map n_id (preorder n).
Proof.
  induction n as [ch id nodes count IH] using node_induction.
  destruct (decide (nodes = [])) as [->|Hne]; [done|]. rewrite update_inner by done.
  cbn [fst preorder]. rewrite !map_cons. f_equal.
  rewrite !concat_map, !map_map. f_equal. by apply map_Forall_ext.
Qed.

Lemma numbered_ext l l' k : map n_id l = map n_id l' -> numbered l k -> numbered l' k.
Proof.
  unfold numbered. intros H Hl.
  assert (length l' = length l) as -> by (by rewrite <- (length_map n_id l'), <- H, length_map).
  congruence.
Qed.

Lemma numbered_map f t k :
  Forall (fun n => map n_id (preorder (f n)) = map n_id (preorder n)) t ->
  numbered (all_nodes t) k -> numbered (all_nodes (map f t)) k.
Proof.
  intros H. apply numbered_ext. unfold all_nodes. rewrite !concat_map, !map_map. f_equal.
  symmetry. by apply map_Forall_ext.
Qed.

(** [merge_sort] gives the ids in strictly ascending order. *)
Lemma sorted_ids (l : list Z) : NoDup l -> StronglySorted Z.lt (merge_sort Z.le l).
Proof.
  intros Hn. assert (NoDup (merge_sort Z.le l)) as Hn' by (by rewrite merge_sort_Permutation).
  pose proof (StronglySorted_merge_sort Z.le l) as Hs. revert Hn'.
  induction Hs as [|x k _ IH Hx]; [constructor|]. intros [Hnin Hnd]%NoDup_cons.
  constructor; [by apply IH|]. rewrite Forall_forall in *. intros y Hy. specialize (Hx y Hy).
  assert (x <> y) by (by intros ->). lia.
Qed.

Definition positive_ids (l : list Z) : Prop := Forall (fun i => 1 <= i) l.

Lemma splits_start l : positive_ids l -> splits l 0 1.
Proof.
  intros H i x Hi. unfold positive_ids in H. rewrite Forall_forall in H.
  specialize (H x (list_elem_of_lookup_2 _ _ _ Hi)). lia.
Qed.

Lemma units_mask_sorted ids unit t : units_mask (merge_sort Z.le ids) unit t = units_mask ids unit t.
Proof.
  unfold units_mask. f_equal. apply map_ext. intros n. apply unit_mask_ext. intros i.
  by rewrite merge_sort_Permutation.
Qed.

Lemma units_mask_length ids unit t : known_tree t = true -> length (units_mask ids unit t) = length (bits t).
Proof.
  unfold known_tree, units_mask, bits. rewrite forallb_Forall.
  induction 1 as [|n l Hn _ IH]; [done|]. cbn [map concat]. rewrite !length_app, IH. f_equal.
  by apply (mark_by_shape ids (unit_letter_of unit) true).
Qed.

Lemma mark_units_spec t ids unit used :
  ids <> [] -> t <> [] -> NoDup ids -> positive_ids ids ->
  known_tree t = true -> numbered (all_nodes t) 1 ->
  exists t', mark_units_as_used_or_unused t ids unit used false = Done t' /\
             mark_units_as_used_or_unused t ids unit used true = Done (canon t') /\
             shows t t' (apply_mask used (bits t) (units_mask ids unit t)) /\
             numbered (all_nodes t') 1.
Proof.
  intros Hi Ht Hnd Hp Hk Hn.
  set (sorted := merge_sort Z.le ids). set (letter := unit_letter_of unit).
  destruct (marks_level sorted letter used t false zero 0 1) as (pos & E & _); [|done| |].
  { apply Forall_true. intros n. apply mark_node_spec. by apply sorted_ids. }
  { apply splits_start. unfold positive_ids, sorted. by rewrite merge_sort_Permutation. }
  set (t1 := map (mark_by sorted letter used false zero) t) in *.
  assert (same_topology t t1 /\ bits t1 = apply_mask used (bits t) (units_mask ids unit t)) as [Hs1 Hb1].
  { unfold t1. rewrite <- units_mask_sorted. fold sorted. unfold units_mask, bits, same_topology. fold letter. clear E t1 Ht Hn.
    unfold known_tree in Hk. rewrite forallb_Forall in Hk.
    induction Hk as [|n l Hkn _ [IH1 IH2]]; [done|]. cbn [map concat].
    destruct (mark_by_shape sorted letter used false zero n Hkn) as (? & Hb & Hl).
    split; [by constructor|]. rewrite Hb, IH2. unfold apply_mask. by rewrite zip_with_app_eq. }
  assert (known_tree t1 = true) as Hk1 by (by rewrite <- (same_topology_known t)).
  destruct (correct_spec t1 Hk1) as (Hk2 & Hn2 & Hs2 & Hb2).
  exists (correct_topology_upper_lower t1).
  assert (shows t (correct_topology_upper_lower t1) (apply_mask used (bits t) (units_mask ids unit t))) as Hsh.
  { repeat split; try done; [by rewrite Hs1|congruence]. }
  unfold mark_units_as_used_or_unused. rewrite bool_decide_eq_false_2 by done.
  destruct t as [|n t']; [done|]. cbn [is_empty orb]. fold sorted letter. rewrite E. cbn [fst].
  split; [done|]. split; [by eapply shows_parse|]. split; [done|].
  apply numbered_map; [apply Forall_true, ids_update|]. unfold t1.
  apply numbered_map; [apply Forall_true; intros; apply ids_mark_by|done].
Qed.

(** ** Units that are found are free *)

Section Found.
Context (bamount : Z) (bunit : Unit) (bstart bstop : Anchor).

(** The ids [st'] has in addition belong to units in [l]. *)
Definition finds (st st' : search) (l : list Node) : Prop :=
  exists found, ids st' = ids st ++ map n_id found /\ found `sublist_of` l /\
                Forall (fun n => exists core, add_id bunit n core = true) found.

Lemma finds_nothing st l : finds st st l.
Proof. exists []. split; [by rewrite app_nil_r|]. split; [apply sublist_nil_l|constructor]. Qed.

Lemma finds_trans st1 st2 st3 l l' : finds st1 st2 l -> finds st2 st3 l' -> finds st1 st3 (l ++ l').
Proof.
  intros (f & E & Hs & Hf) (f' & E' & Hs' & Hf'). exists (f ++ f').
  rewrite E', E, map_app, app_assoc. split; [done|]. split; [by apply sublist_app|by apply Forall_app].
Qed.

Lemma visit_finds n core st : finds st (visit bunit bstart bstop n core st) [n].
Proof.
  unfold visit. destruct (_ && add_id bunit n core) eqn:E; cbn [ids].
  - exists [n]. split; [done|]. split; [done|]. constructor; [|done]. exists core.
    by apply andb_true_iff in E as [_ E].
  - exists []. split; [by rewrite app_nil_r|]. split; [apply sublist_nil_l|constructor].
Qed.

Lemma finds_weaken st st' l l' : finds st st' l -> l `sublist_of` l' -> finds st st' l'.
Proof. intros (f & ? & ? & ?) ?. exists f. split; [done|]. split; [by etrans|done]. Qed.

Notation process := (process_node bamount bunit bstart bstop).

Lemma each_finds l core st :
  Forall (fun n => forall core st, finds st (snd (fst (process n core st))) (preorder n)) l ->
  finds st (each_node process l core st) (all_nodes l).
Proof.
  intros H. revert core st. induction H as [|n l Hn _ IH]; intros core st; [apply finds_nothing|].
  cbn [each_node]. unfold all_nodes. cbn [map concat]. specialize (Hn core st).
  destruct (process n core st) as [[core' st'] []]; cbn [fst snd] in Hn.
  - eapply finds_weaken; [exact Hn|]. by apply sublist_inserts_r.
  - eapply finds_trans; [exact Hn|apply IH].
Qed.

Lemma process_finds n core st : finds st (snd (fst (process n core st))) (preorder n).
Proof.
  revert core st. induction n as [ch id nodes count IH] using node_induction. intros core st.
  set (n := MkNode ch id nodes count). pose proof (visit_finds n core st) as Hv.
  assert (finds st (visit bunit bstart bstop n core st) (preorder n)) as Hv'.
  { eapply finds_weaken; [exact Hv|]. unfold n. cbn [preorder].
    apply sublist_skip, sublist_nil_l. }
  unfold n. cbn [process_node]. fold n.
  destruct (enough bamount _); [exact Hv'|]. destruct (_ && _); [exact Hv'|].
  destruct nodes as [|x l]; [exact Hv'|]. cbn [fst snd].
  change (preorder n) with ([n] ++ all_nodes (x :: l)).
  eapply finds_trans; [exact Hv|by apply each_finds].
Qed.

(** The units the search returns: in the order of their ids, every one asked for. *)
Lemma find_units t :
  exists found, find_n_packed_units bamount bunit bstart bstop t = map n_id found /\
                found `sublist_of` all_nodes t /\
                Forall (fun n => exists core, add_id bunit n core = true) found.
Proof.
  destruct (each_finds t zero (Search_ [] false false)) as (f & E & Hs & Hf).
  { apply Forall_true. intros n core st. apply process_finds. }
  exists f. destruct t as [|n t]; [|done]. by apply sublist_nil_r in Hs as ->.
Qed.

End Found.

(** Every leaf is a thread, and every thread a leaf. *)
Fixpoint thread_leaves (n : Node) : bool :=
  match n with
  | MkNode ch _ [] _ => is_char (toupper ch) "T"
  | MkNode ch _ nodes _ => negb (is_char (toupper ch) "T") && forallb thread_leaves nodes
  end.

Definition with_threads (t : topology) : Prop := forallb thread_leaves t = true.

Lemma thread_letter ch : is_char (toupper ch) "T" = true -> ch <> "t"%char -> islower ch = false.
Proof. all_chars ch. Qed.

Lemma known_t : known "t" = true.
Proof. vm_compute. reflexivity. Qed.

Lemma no_used_thread n :
  thread_leaves n = true -> count_letter "t" (preorder n) = 0%nat -> Forall (eq false) (node_bits n).
Proof.
  induction n as [ch id nodes count IH] using node_induction.
  cbn [preorder thread_leaves]. fold (all_nodes nodes). rewrite count_letter_cons. cbn [n_c].
  intros Hl Hc. destruct nodes as [|x l].
  { constructor; [|done]. symmetry. apply thread_letter; [done|]. intros ->. by destruct (decide _). }
  apply andb_true_iff in Hl as [_ Hl]. apply forallb_Forall in Hl. rewrite node_bits_eq by done.
  assert (count_letter "t" (all_nodes (x :: l)) = 0%nat) as Hz by lia. clear Hc. revert IH Hl Hz.
  generalize (x :: l). clear. intros l IH Hl. induction IH as [|x l Hx _ IHl]; [constructor|].
  inversion_clear Hl. unfold all_nodes, bits in *. cbn [map concat]. rewrite count_letter_app.
  intros Hz. apply Forall_app. split; [apply Hx; [done|lia]|apply IHl; [done|lia]].
Qed.

(** A unit the search takes has no thread in use. *)
Lemma unit_free bunit n core :
  counted n -> thread_leaves n = true -> add_id bunit n core = true -> Forall (eq false) (node_bits n).
Proof.
  intros [_ Hc] Hl Ha.
  assert ((n_c n = "T"%char) \/ get_counter n "t" = 0) as [HT|H0].
  { destruct bunit; cbn in Ha; try done; unfold is_free_X, is_free_X_core, is_free_thread in Ha;
      rewrite ?andb_true_iff in Ha; rewrite ?is_char_eq in Ha; [left|left|right..]; try tauto; lia. }
  - destruct n as [ch id [|x l] count]; cbn in HT; subst ch; [by repeat constructor|].
    cbn in Hl. done.
  - apply no_used_thread; [done|]. rewrite (Hc _ known_t) in H0. lia.
Qed.

(** No bit is set in both. *)
Definition no_clash (l m : list bool) : Prop := Forall2 (fun a b => a && b = false) l m.

Lemma unit_mask_free ids letter ancestor parent n :
  known_node n = true ->
  (forall x, x ∈ preorder n -> n_id x ∈ ids -> Forall (eq false) (node_bits x)) ->
  (ancestor = true -> Forall (eq false) (node_bits n)) ->
  no_clash (node_bits n) (unit_mask ids letter ancestor parent n).
Proof.
  assert (forall l m, Forall (eq false) l -> length l = length m -> no_clash l m) as Hfree.
  { clear. intros l m Hl. revert m. induction Hl as [|b l <- _ IH]; intros [|c m] Hm; try done.
    - constructor.
    - constructor; [done|]. apply IH. by injection Hm. }
  revert ancestor parent. induction n as [ch id nodes count IH] using node_induction.
  intros ancestor parent Hk Hids Ha.
  assert (bool_decide (id ∈ ids) || ancestor = true -> Forall (eq false) (node_bits (MkNode ch id nodes count))) as Hall.
  { rewrite orb_true_iff, bool_decide_eq_true. intros [Hin|Han]; [|by apply Ha].
    apply Hids; [by left|done]. }
  destruct (bool_decide (id ∈ ids) || ancestor) eqn:E.
  { apply Hfree; [by apply Hall|]. symmetry. by apply (mark_by_shape ids letter true). }
  apply orb_false_iff in E as [E ->]. apply known_node_eq in Hk as [Hch Hn].
  cbn [unit_mask]. unfold to_mark. rewrite E. cbn [orb andb].
  destruct nodes as [|x l]; [constructor; [by rewrite andb_false_r|constructor]|].
  rewrite node_bits_eq by done.
  assert (forall y, y ∈ all_nodes (x :: l) -> n_id y ∈ ids -> Forall (eq false) (node_bits y)) as Hids'.
  { intros y Hy. apply Hids. by right. }
  clear Hids Ha Hall E. revert IH Hn Hids'. generalize (x :: l). clear -Hfree. intros l IH Hn.
  unfold bits, all_nodes, no_clash in *. induction IH as [|y l Hy _ IHl]; [constructor|]. inversion_clear Hn.
  cbn [map concat]. intros Hids. apply Forall2_app.
  - apply Hy; [done| |done]. intros z Hz. apply Hids. set_solver.
  - apply IHl; [done|]. intros z Hz. apply Hids. set_solver.
Qed.

Lemma with_threads_all t x : x ∈ all_nodes t -> with_threads t -> thread_leaves x = true.
Proof.
  unfold with_threads. rewrite forallb_Forall. apply all_nodes_inherit.
  intros ch id [|y l] count; [constructor|]. cbn [thread_leaves].
  intros [_ Hl]%andb_true_iff. by apply forallb_Forall.
Qed.

Lemma find_no_clash n unit start stop t :
  well_formed t -> with_threads t ->
  no_clash (bits t) (units_mask (find_n_packed_units n unit start stop t) unit t).
Proof.
  intros Hw Ht. destruct (find_units n unit start stop t) as (found & -> & Hsub & Hf).
  pose proof (well_formed_numbered t Hw) as Hnum. pose proof (well_formed_counted t Hw) as Hcnt.
  assert (forall x, x ∈ all_nodes t -> n_id x ∈ map n_id found -> Forall (eq false) (node_bits x)) as Hids.
  { intros x Hx Hin. apply list_elem_of_In, in_map_iff in Hin as (y & He & Hy%list_elem_of_In).
    assert (y ∈ all_nodes t) as Hy' by (by eapply elem_of_sublist).
    assert (x = y) as -> by (by eapply numbered_inj).
    rewrite Forall_forall in Hf, Hcnt. destruct (Hf y Hy) as [core Ha].
    eapply unit_free; [by apply Hcnt| |done]. by eapply with_threads_all. }
  destruct Hw as [Hk _]. unfold known_tree in Hk. apply forallb_Forall in Hk.
  unfold bits, units_mask, all_nodes, no_clash in *. clear Hsub Hf Hnum Hcnt Ht.
  induction Hk as [|x l Hx _ IH]; [constructor|]. cbn [map concat] in *. apply Forall2_app.
  - apply unit_mask_free; [done| |done]. intros y Hy. apply Hids. set_solver.
  - apply IH. intros y Hy. apply Hids. set_solver.
Qed.

End TopologySearch.
