(* ===== verification/TopologyOrder.v ===== *)
(** The search for units as a reference computation: on a topology whose objects of one kind are
    on one level, with cores of one kind below a node, [find_n_packed_units] returns the first
    units of the section between start and stop. *)

From Stdlib Require Import Ascii.
From S2P Require Import Prelude TopologyString TopologyUnits TopologyFacts TopologyBits TopologyUnitFacts.
Import TopologyString TopologyUnits TopologyFacts TopologyBits TopologyUnitFacts.

Module TopologyOrder.
Local Open Scope topology_scope.

(** ** The reference *)

(** The letter of the core something below a node belongs to. *)
Definition core_below (core ch : ascii) : ascii :=
  if is_char core zero && is_core_letter (toupper ch) then toupper ch else core.

(** The nodes in the order of the text, each with the letter of the core it belongs to. *)
Fixpoint annotated (core : ascii) (n : Node) : list (Node * ascii) :=
  match n with
  | MkNode ch _ nodes _ => (n, core) :: concat (map (annotated (core_below core ch)) nodes)
  end.

Definition annotated_nodes (core : ascii) (l : list Node) : list (Node * ascii) :=
  concat (map (annotated core) l).

Fixpoint drop_until {A} (p : A -> bool) (l : list A) : list A :=
  match l with [] => [] | x :: l' => if p x then l else drop_until p l' end.

Fixpoint take_until {A} (p : A -> bool) (l : list A) : list A :=
  match l with [] => [] | x :: l' => if p x then [] else x :: take_until p l' end.

Section Reference.
Context (bamount : Z) (bunit : Unit) (bstart bstop : Anchor).

Definition starts (x : Node * ascii) : bool := at_start bstart (unit_letter bunit) (fst x).
Definition stops (x : Node * ascii) : bool := at_anchor bstop (unit_letter bunit) (fst x).
Definition wanted (x : Node * ascii) : bool := add_id bunit (fst x) (snd x).

(** From the first start position on to the first stop position behind it. *)
Definition binding_section (l : list (Node * ascii)) : list (Node * ascii) :=
  match drop_until starts l with [] => [] | x :: l => x :: take_until stops l end.

Definition first_units (l : list (Node * ascii)) : list Z :=
  map (fun x => n_id (fst x)) (take (Z.to_nat bamount) (List.filter wanted (binding_section l))).

Definition packed_units (t : topology) : list Z := first_units (annotated_nodes zero t).

(** ** Topologies with levels *)

Definition one_kind (l : list Node) : bool :=
  forallb (fun x => forallb (fun y =>
    implb (is_core_letter (toupper (n_c x))) (is_char (toupper (n_c y)) (toupper (n_c x)))) l) l.

Context (level : ascii -> nat).

Fixpoint uniform_node (k : nat) (n : Node) : bool :=
  match n with
  | MkNode ch _ nodes _ =>
      (level (toupper ch) =? k)%nat && one_kind nodes && forallb (uniform_node (S k)) nodes
  end.

Definition uniform_level (k : nat) (l : list Node) : Prop :=
  one_kind l = true /\ Forall (fun n => uniform_node k n = true) l.

(** ** The search along one list *)

Definition closed (st : search) : bool := enough bamount st || (start_node st && stop_node st).

Notation visit := (visit bunit bstart bstop).

Fixpoint run (st : search) (l : list (Node * ascii)) : search :=
  match l with
  | [] => st
  | (n, core) :: l => let st := visit n core st in if closed st then st else run st l
  end.

Lemma run_app st l l' :
  closed st = false ->
  run st (l ++ l') = if closed (run st l) then run st l else run (run st l) l'.
Proof.
  revert st. induction l as [|[n core] l IH]; intros st Hst; cbn [app run].
  - by rewrite Hst.
  - destruct (closed (visit n core st)) eqn:E; [by rewrite E|by apply IH].
Qed.

Lemma enough_app st n :
  enough bamount st = false ->
  (Z.to_nat bamount - length (ids st))%nat
  = S (Z.to_nat bamount - length (ids st ++ [n_id n])).
Proof. unfold enough. rewrite length_app. cbn [length]. lia. Qed.

Lemma run_started l st :
  start_node st = true -> stop_node st = false -> enough bamount st = false ->
  ids (run st l) = ids st ++ map (fun x => n_id (fst x))
    (take (Z.to_nat bamount - length (ids st)) (List.filter wanted (take_until stops l))).
Proof.
  revert st. induction l as [|[n core] l IH]; intros st Hs Ht He.
  { cbn. by rewrite take_nil, app_nil_r. }
  cbn [run take_until]. unfold stops at 1. cbn [fst].
  assert (visit n core st = Search_ (if negb (at_anchor bstop (unit_letter bunit) n) && add_id bunit n core
    then ids st ++ [n_id n] else ids st) true (at_anchor bstop (unit_letter bunit) n)) as ->.
  { unfold TopologyUnits.visit. by rewrite Hs, Ht. }
  destruct (at_anchor bstop _ n) eqn:Ea; cbn [negb andb].
  { unfold closed. cbn [start_node stop_node andb]. rewrite orb_true_r. cbn. by rewrite take_nil, app_nil_r. }
  cbn [List.filter]. unfold wanted at 1. cbn [fst snd]. destruct (add_id bunit n core) eqn:Ed.
  - rewrite (enough_app st n) by done. cbn [take map fst].
    destruct (closed _) eqn:Ec.
    + unfold closed in Ec. cbn [start_node stop_node andb] in Ec. rewrite orb_false_r in Ec.
      unfold enough in Ec, He. cbn [ids] in *. apply Z.leb_le in Ec. apply Z.leb_gt in He.
      rewrite length_app in Ec |- *. cbn [length] in *.
      replace (Z.to_nat bamount - (length (ids st) + 1))%nat with 0%nat by lia. done.
    + rewrite IH; [|done|done|by apply orb_false_iff in Ec as [? _]]. cbn [ids].
      by rewrite <- app_assoc.
  - destruct (closed _) eqn:Ec.
    + unfold closed in Ec. cbn [start_node stop_node andb] in Ec. rewrite orb_false_r in Ec.
      unfold enough in *. cbn [ids] in *. congruence.
    + by rewrite IH; [|done|done|].
Qed.

Lemma run_first l st :
  start_node st = false -> stop_node st = false -> ids st = [] -> 0 < bamount ->
  ids (run st l) = first_units l.
Proof.
  intros Hs Ht Hi Hb. revert st Hs Ht Hi. induction l as [|[n core] l IH]; intros st Hs Ht Hi.
  { cbn. unfold first_units. cbn. by rewrite take_nil. }
  cbn [run]. unfold first_units, binding_section. cbn [drop_until]. unfold starts at 1. cbn [fst].
  assert (enough bamount st = false) as He by (unfold enough; rewrite Hi; cbn; lia).
  destruct (at_start bstart (unit_letter bunit) n) eqn:Ea.
  - assert (visit n core st = Search_ (if add_id bunit n core then [n_id n] else []) true false) as ->.
    { unfold TopologyUnits.visit. rewrite Hs, Ht, Ea, Hi. cbn. by destruct (add_id bunit n core). }
    cbn [List.filter]. unfold wanted at 1. cbn [fst snd]. destruct (add_id bunit n core).
    + destruct (Z.to_nat bamount) as [|m] eqn:Em; [lia|]. cbn [take map fst].
      destruct (closed _) eqn:Ec.
      * unfold closed, enough in Ec. cbn [ids start_node stop_node andb length] in Ec.
        replace m with 0%nat by lia. done.
      * rewrite run_started; [|done|done|by apply orb_false_iff in Ec as [? _]]. cbn [ids length app].
        rewrite Em. by replace (S m - 1)%nat with m by lia.
    + destruct (closed _) eqn:Ec.
      * unfold closed, enough in Ec. cbn [ids start_node stop_node andb length] in Ec. lia.
      * rewrite run_started; [|done|done|by apply orb_false_iff in Ec as [? _]]. cbn [ids length app].
        by rewrite Nat.sub_0_r.
  - assert (visit n core st = Search_ [] false false) as ->.
    { unfold TopologyUnits.visit. by rewrite Hs, Ht, Ea, Hi. }
    replace (closed _) with false.
    + by rewrite IH.
    + symmetry. unfold closed, enough. cbn. lia.
Qed.

(** ** The search along the tree *)

Definition kind : ascii :=
  match bunit with
  | CSOCKET | ESOCKET => "S" | CCORE => "C" | ECORE => "E" | CTHREAD | ETHREAD => "T"
  | CCACHE2 | ECACHE2 => "Y" | CCACHE3 | ECACHE3 => "X" | CNUMA | ENUMA => "N"
  | _ => zero
  end.

Lemma add_id_kind n core : add_id bunit n core = true -> toupper (n_c n) = kind.
Proof.
  unfold kind. destruct bunit; cbn [add_id]; unfold is_free_X, is_free_X_core, is_free_thread;
    rewrite ?andb_true_iff, ?is_char_eq; try done; try tauto.
  all: by intros [-> _].
Qed.

Lemma add_id_core n core core' :
  toupper (n_c n) <> "T"%char -> add_id bunit n core = add_id bunit n core'.
Proof.
  intros Hn. assert (is_free_thread n = false) as Hf.
  { unfold is_free_thread. destruct (is_char (n_c n) "T") eqn:E; [|done].
    apply is_char_eq in E. by rewrite E in Hn. }
  destruct bunit; cbn [add_id]; rewrite ?Hf; done.
Qed.

Lemma visit_core n core core' st :
  toupper (n_c n) <> "T"%char -> visit n core st = visit n core' st.
Proof. intros Hn. unfold TopologyUnits.visit. by rewrite (add_id_core n core core'). Qed.

Lemma visit_stopped n core st :
  start_node st = true -> stop_node st = true -> visit n core st = st.
Proof. intros Hs Ht. unfold TopologyUnits.visit. rewrite Hs, Ht. by destruct st; cbn in *; subst. Qed.

Notation process := (process_node bamount bunit bstart bstop).

(** A search that has reached its stop position goes no further. *)
Lemma each_stopped l core st :
  start_node st = true -> stop_node st = true -> each_node process l core st = st.
Proof.
  intros Hs Ht. destruct l as [|[ch id nodes count] l]; [done|]. cbn [each_node process_node].
  rewrite visit_stopped, Hs, Ht by done. by destruct (enough bamount st).
Qed.

(** A search that has found enough does not take a unit of a level without such units. *)
Lemma each_enough l core st k :
  uniform_level k l -> enough bamount st = true -> (k < level kind)%nat ->
  ids (each_node process l core st) = ids st.
Proof.
  intros [_ Hu] He Hk. destruct l as [|[ch id nodes count] l]; [done|]. cbn [each_node process_node].
  inversion_clear Hu as [|? ? Hn _].
  assert (ids (visit (MkNode ch id nodes count) core st) = ids st) as Hi.
  { unfold TopologyUnits.visit. cbn [ids]. destruct (add_id bunit _ core) eqn:Ea; [|by rewrite andb_false_r].
    apply add_id_kind in Ea. cbn in Hn, Ea. rewrite Ea in Hn. rewrite !andb_true_iff in Hn.
    destruct Hn as [[Hn _] _]. apply Nat.eqb_eq in Hn. lia. }
  assert (enough bamount (visit (MkNode ch id nodes count) core st) = true) as ->; [|done].
  unfold enough in *. by rewrite Hi.
Qed.

(** The search [st1] on the tree and the one along the list, [st2], at the end of level [k]. *)
Definition agree (k : nat) (st1 st2 : search) : Prop :=
  if closed st2 then
    ids st1 = ids st2 /\
    ((start_node st1 = true /\ stop_node st1 = true) \/
     (enough bamount st1 = true /\ (k <= level kind)%nat))
  else st1 = st2.

Lemma agree_same k st :
  (enough bamount st = true -> (k <= level kind)%nat) -> agree k st st.
Proof.
  intros H. unfold agree. destruct (closed st) eqn:E; [|done]. split; [done|].
  apply orb_true_iff in E as [E|E]; [right; auto|left; by apply andb_true_iff in E].
Qed.

Lemma run_ext l l' st :
  Forall2 (fun x y => fst x = fst y /\ (snd x = snd y \/ toupper (n_c (fst x)) <> "T"%char)) l l' ->
  run st l = run st l'.
Proof.
  intros H. revert st. induction H as [|[n c] [n' c'] l l' [Hn Hc] _ IH]; intros st; [done|].
  cbn [fst snd] in *. subst n'. cbn [run].
  assert (visit n c st = visit n c' st) as -> by (destruct Hc as [->|]; [done|by apply visit_core]).
  destruct (closed _); [done|apply IH].
Qed.

Lemma core_not_thread c : is_core_letter c = true -> c <> "T"%char.
Proof. by intros H ->. Qed.

(** Cores of one kind below one node: passing the letter of a core on to its siblings changes
    nothing. *)
Lemma run_leak n l core st :
  one_kind (n :: l) = true ->
  run st (annotated_nodes (core_below core (n_c n)) l) = run st (annotated_nodes core l).
Proof.
  intros Hk. unfold core_below at 1.
  destruct (is_char core zero && is_core_letter (toupper (n_c n))) eqn:E; [|done].
  apply andb_true_iff in E as [Hz Hc]. apply is_char_eq in Hz. subst core. apply run_ext.
  cbn [one_kind] in Hk. unfold one_kind in Hk. cbn [forallb] in Hk. rewrite !andb_true_iff in Hk.
  destruct Hk as [[_ Hk] _]. apply forallb_Forall in Hk. unfold annotated_nodes.
  induction Hk as [|y l Hy _ IH]; [constructor|]. cbn [map concat]. apply Forall2_app; [|done].
  rewrite Hc in Hy. cbn [implb] in Hy. apply is_char_eq in Hy. destruct y as [ch i nodes count].
  cbn [n_c] in Hy. cbn [annotated]. constructor.
  - cbn [fst snd n_c]. split; [done|]. right. rewrite Hy. by apply core_not_thread.
  - unfold core_below. rewrite Hy, Hc, is_char_refl. cbn [andb].
    replace (is_char (toupper (n_c n)) zero) with false.
    + cbn [andb]. by apply Forall_Forall2_diag, Forall_true; auto.
    + symmetry. apply not_true_is_false. intros Hz%is_char_eq. by rewrite Hz in Hc.
Qed.

Definition follows (k : nat) (n : Node) : Prop := forall core st,
  uniform_node k n = true -> closed st = false ->
  exists core' st1 leave, process n core st = (core', st1, leave) /\
    (core' = core \/ core' = core_below core (n_c n)) /\
    (if leave : bool then st1 = run st (annotated core n) /\ closed st1 = true /\
                   (enough bamount st1 = true -> (k <= level kind)%nat)
     else agree (S k) st1 (run st (annotated core n))).

Lemma follows_level k l core st :
  Forall (follows k) l -> uniform_level k l -> closed st = false ->
  agree k (each_node process l core st) (run st (annotated_nodes core l)).
Proof.
  intros H. revert core st. induction H as [|n l Hn _ IH]; intros core st [Hk Hu] Hc.
  { cbn. unfold agree. by rewrite Hc. }
  inversion_clear Hu as [|? ? Hun Hul]. cbn [each_node].
  destruct (Hn core st Hun Hc) as (core' & st1 & leave & -> & Hcore & Hr).
  unfold annotated_nodes. cbn [map concat]. rewrite run_app by done. fold (annotated_nodes core l).
  assert (uniform_level k l) as Hl.
  { split; [|done]. unfold one_kind in *. cbn [forallb] in Hk. apply andb_true_iff in Hk as [_ Hk].
    apply forallb_Forall in Hk. apply forallb_Forall. eapply Forall_impl; [exact Hk|].
    intros x. by intros [_ ?]%andb_true_iff. }
  destruct leave.
  { destruct Hr as (-> & Hcl & He). rewrite Hcl. by apply agree_same. }
  unfold agree in Hr. destruct (closed (run st (annotated core n))) eqn:Ecl.
  - destruct Hr as [Hi [[Hs Ht]|[He Hlev]]].
    + rewrite each_stopped by done. unfold agree. rewrite Ecl. auto.
    + pose proof (each_enough l core' st1 k Hl He ltac:(lia)) as Hids.
      unfold agree. rewrite Ecl. split; [congruence|]. right. split; [|lia].
      unfold enough in *. by rewrite Hids.
  - subst st1. destruct Hcore as [-> | ->]; [by apply IH|].
    rewrite <- (run_leak n l core) by done. by apply IH.
Qed.

Lemma process_follows n k : follows k n.
Proof.
  revert k. induction n as [ch id nodes count IH] using node_induction. intros k core st Hu Hc.
  set (n := MkNode ch id nodes count) in *. set (st' := visit n core st).
  assert (enough bamount st' = true -> (k <= level kind)%nat) as Hlev.
  { intros He. unfold st', TopologyUnits.visit, enough in He. cbn [ids] in He.
    apply orb_false_iff in Hc as [Hc _]. unfold enough in Hc.
    destruct (_ && add_id bunit n core) eqn:Ea; [|congruence].
    apply andb_true_iff in Ea as [_ Ea]. apply add_id_kind in Ea. unfold n in Ea, Hu. cbn in Ea, Hu.
    rewrite Ea, !andb_true_iff in Hu. destruct Hu as [[Hu _] _]. apply Nat.eqb_eq in Hu. lia. }
  assert (run st (annotated core n) =
          if closed st' then st' else run st' (annotated_nodes (core_below core ch) nodes)) as Hrun by done.
  rewrite Hrun. destruct (closed st') eqn:Ecl.
  { exists core, st', true. split; [|split; [by left|done]]. unfold n. cbn [process_node]. fold n st'.
    unfold closed in Ecl. destruct (enough bamount st'); [done|]. cbn [orb] in Ecl. by rewrite Ecl. }
  apply orb_false_iff in Ecl as [He Hst].
  assert (process n core st = match nodes with [] => (core, st', false) | _ =>
    (core_below core ch, each_node process nodes (core_below core ch) st', false) end) as ->.
  { unfold n. cbn [process_node]. fold n st'. rewrite He, Hst. by destruct nodes. }
  assert (closed st' = false) as Ecl by (unfold closed; by rewrite He, Hst).
  destruct nodes as [|x l].
  { exists core, st', false. split; [done|]. split; [by left|]. cbn. unfold agree. by rewrite Ecl. }
  eexists _, _, false. split; [done|]. split; [by right|].
  unfold n in Hu. cbn [uniform_node] in Hu. rewrite !andb_true_iff in Hu.
  destruct Hu as [[_ Hk] Hu]. apply forallb_Forall in Hu.
  apply follows_level; [|by split|done]. eapply Forall_impl; [exact IH|]. intros y Hy. apply Hy.
Qed.

(** The search returns the units of the reference. *)
Lemma find_packed t :
  0 < bamount -> uniform_level 0 t ->
  find_n_packed_units bamount bunit bstart bstop t = packed_units t.
Proof.
  intros Hb Hu. unfold packed_units. rewrite <- (run_first _ (Search_ [] false false)) by done.
  assert (closed (Search_ [] false false) = false) as Hc by (unfold closed, enough; cbn; lia).
  pose proof (follows_level 0 t zero (Search_ [] false false)) as H.
  destruct t as [|n t]; [done|]. unfold find_n_packed_units.
  specialize (H ltac:(apply Forall_true; intros; apply process_follows) Hu Hc). unfold agree in H.
  destruct (closed (run _ _)); [by destruct H|by rewrite H].
Qed.

End Reference.
End TopologyOrder.
