(* ===== verification/Binding.v ===== *)
(** Binding of jobs to processors: what the scheduler decides ([libs/sched/ocs_BindingSchedd.cc]),
    the defaults of a request ([libs/sgeobj/ocs_BindingObj.cc]), the booking on the host
    ([host_debit_binding] of [libs/sgeobj/sge_host.cc]) and what the execution side is told
    ([libs/sgeobj/ocs_GrantedResources.cc]). *)

From Stdlib Require Import Ascii.
From S2P Require Import Prelude Host TopologyString TopologyUnits.
Import Host TopologyString TopologyUnits.

Module Binding.
Local Open Scope topology_scope.

(** ** Data *)

(** The attributes of [BN_Type] a request sets. *)
Record request := Request {
  BN_new_type : Type_;
  BN_amount : Z;
  BN_unit : Unit;
  BN_filter : option string;
  BN_sort : option string;
  BN_start : Anchor;
  BN_stop : Anchor;
}.

(** The attributes of [BN_Type] that hold a decision; a task is its id and its binding. *)
Record decision := Decision {
  BN_specific_hostname : bytes;
  BN_specific_binding : option string;
  BN_specific_binding_list : option (list (Z * string));
}.

(** An element of [AR_granted_resources_list]; an element of [GRU_binding_inuse] is its
    [ST_name]. *)
Record granted := Granted {
  GRU_type : Z;
  GRU_host : option bytes;
  GRU_binding_inuse : list (option string);
}.

Definition GRU_BINDING_TYPE : Z := 3.

(** [EH_resource_utilization] holds [RUE_name] and [RUE_utilized_now_binding_inuse]. *)
Record host := Host_ {
  EH_name : bytes;
  EH_internal_topology : option string;
  EH_resource_utilization : list (string * option string);
}.

(** An element of [gdil]; the strings may be null. *)
Record destination := Destination {
  JG_qhostname : bytes;
  JG_slots : Z;
  JG_binding_to_use : option (list (Z * option string));
}.

(** The allocation rules of [sge_assignment_t]: a rule that is not null with its parsed value.
    [a_job] is [JB_binding] of the job; without a job it is [None] as well, since no function
    looks at the rest of the job. *)
Record assignment := Assignment {
  a_job : option request;
  a_ar : option (list granted);
  is_binding_enabled : bool;
  do_binding_on_any_host : bool;
  filter_first_core : bool;
  a_slots : Z;
  a_allocation : option Z;
  a_mallocation : option Z;
  binding_to_use : list decision;
  gdil : list destination;
}.

Definition set_binding_to_use (a : assignment) (l : list decision) : assignment :=
  Assignment (a_job a) (a_ar a) (is_binding_enabled a) (do_binding_on_any_host a)
    (filter_first_core a) (a_slots a) (a_allocation a) (a_mallocation a) l (gdil a).

Definition ALLOC_RULE_FILLUP : Z := -1.
Definition ALLOC_RULE_ROUNDROBIN : Z := -2.
Definition INT_MAX : Z := 2147483647.
Definition SGE_ATTR_SLOTS : string := "slots".

(** A string made from a pointer; a null pointer is not allowed. *)
Definition from_pointer (s : option string) : outcome string :=
  match s with Some s => Done s | None => Outside end.

(** ** Requests *)

(** [default_unit] is [mconf_get_default_binding_unit()]. *)
Definition binding_get_type (r : option request) : Type_ :=
  match r with
  | Some r => match BN_new_type r with TNONE | TUNINITIALIZED => SLOT | t => t end
  | None => SLOT
  end.

Definition binding_get_unit (default_unit : Unit) (r : option request) : Unit :=
  match r with
  | Some r => match BN_unit r with NONE | UNINITIALIZED => default_unit | u => u end
  | None => default_unit
  end.

Definition binding_get_sort (r : option request) : string :=
  match r with Some r => default NONE_STR (BN_sort r) | None => NONE_STR end.

Definition get_anchor (a : Anchor) : Anchor :=
  match a with ANONE | AUNINITIALIZED => ANONE | a => a end.

Definition binding_get_start (r : option request) : Anchor :=
  match r with Some r => get_anchor (BN_start r) | None => ANONE end.

Definition binding_get_end (r : option request) : Anchor :=
  match r with Some r => get_anchor (BN_stop r) | None => ANONE end.

Definition binding_get_filter (r : option request) : outcome string :=
  match r with Some r => from_pointer (BN_filter r) | None => Done NONE_STR end.

(** No element has the amount 0. *)
Definition binding_get_amount (r : option request) : Z :=
  match r with Some r => if BN_amount r =? 4294967295 then 0 else BN_amount r | None => 0 end.

(** [binding_set_missing_defaults] on these attributes; [None] is no element. *)
Definition binding_set_missing_defaults (default_unit : Unit) (implicit : bool) (r : option request) :
    option request :=
  match (match r with
         | None => if implicit then Some (Request TUNINITIALIZED 1 UNINITIALIZED None None AUNINITIALIZED AUNINITIALIZED)
                   else None
         | r => r
         end) with
  | None => None
  | Some r =>
      if BN_amount r =? 0 then None
      else Some (Request
        (match BN_new_type r with TNONE | TUNINITIALIZED => SLOT | t => t end)
        (BN_amount r)
        (match BN_unit r with NONE | UNINITIALIZED => default_unit | u => u end)
        (Some (default NONE_STR (BN_filter r)))
        (Some (default NONE_STR (BN_sort r)))
        (match BN_start r with AUNINITIALIZED => ANONE | s => s end)
        (match BN_stop r with AUNINITIALIZED => ANONE | s => s end))
  end.

(** ** What is in use *)

Section Schedd.
Context (cfg : bootstrap) (default_unit : Unit).

(** The first element of [EH_resource_utilization] with the name. *)
Definition utilization_of (name : string) (h : host) : option (option string) :=
  snd <$> List.find (fun e => String.eqb name (fst e)) (EH_resource_utilization h).

Definition ofold {A B} (f : A -> B -> outcome A) : list B -> A -> outcome A :=
  fix go l a := match l with [] => Done a | x :: l => let* a := f a x in go l a end.

(** [ar_in_use], [first_entry] and [found_now_utilization]. *)
Definition add_granted_string (acc : topology * bool * bool) (s : option string) :
    outcome (topology * bool * bool) :=
  let '(ar_in_use, first_entry, found) := acc in
  match s with
  | None => Done acc
  | Some s =>
      let* t := reset_topology s in
      if first_entry : bool then Done (t, false, true)
      else let* ar_in_use := mark_nodes_as_used_or_unused ar_in_use t true in
           Done (ar_in_use, false, true)
  end.

Definition add_granted (hostname : bytes) (acc : topology * bool * bool) (g : granted) :
    outcome (topology * bool * bool) :=
  if negb (GRU_type g =? GRU_BINDING_TYPE) then Done acc
  else if negb (sge_hostcmp cfg (Some hostname) (GRU_host g) =? 0) then Done acc
  else ofold add_granted_string (GRU_binding_inuse g) acc.

(** The result and the new value of [host_in_use]. *)
Definition find_initial_in_use (a : assignment) (h : host) (host_in_use : topology) :
    outcome (bool * topology) :=
  let in_reservation_mode := negb (is_empty host_in_use) in
  let* (host_in_use, found) :=
    if in_reservation_mode then Done (host_in_use, true)
    else match utilization_of SGE_ATTR_SLOTS h with
         | Some (Some src) => let* t := reset_topology src in Done (t, true)
         | _ => Done (host_in_use, false)
         end in
  let* (host_in_use, found) :=
    if negb in_reservation_mode && negb (found : bool) then
      match EH_internal_topology h with
      | Some internal_topo => let* t := reset_topology internal_topo in Done (t, true)
      | None => Done (host_in_use, found)
      end
    else Done (host_in_use, found) in
  match a_ar a with
  | None => Done (found, host_in_use)
  | Some grants =>
      let* (ar_in_use, _, found) := ofold (add_granted (EH_name h)) grants ([], true, found) in
      let* ar_in_use := invert_binding ar_in_use in
      let* host_in_use :=
        if found : bool then mark_nodes_as_used_or_unused host_in_use ar_in_use true
        else reset_topology (to_internal ar_in_use false) in
      Done (true, host_in_use)
  end.

(** The result, [binding_in_use] and [binding_in_use_sorted]. *)
Definition find_final_in_use (a : assignment) (binding_in_use : topology) :
    outcome (bool * topology * topology) :=
  let* binding_in_use :=
    if filter_first_core a then
      let node_id := find_first_core binding_in_use in
      if negb (node_id =? NO_POS) then mark_node_as_used_or_unused binding_in_use node_id true
      else Done binding_in_use
    else Done binding_in_use in
  let* binding_filter := binding_get_filter (a_job a) in
  let* (same, binding_in_use) :=
    if negb (bool_decide (binding_filter = "")) && negb (bool_decide (binding_filter = NONE_STR)) then
      let* binding_filter_mask := reset_topology binding_filter in
      if negb (is_same_topology binding_in_use binding_filter_mask) then Done (false, binding_in_use)
      else let* t := mark_nodes_as_used_or_unused binding_in_use binding_filter_mask true in
           Done (true, t)
    else Done (true, binding_in_use) in
  if negb (same : bool) then Done (false, binding_in_use, [])
  else
    let* sorted := reset_topology (to_internal binding_in_use false) in
    Done (true, binding_in_use, sort_tree sorted (binding_get_sort (a_job a)) "t").

(** The pointers [a] and [host] are not null. *)
Definition ignore_binding (a : assignment) (h : host) : bool :=
  if negb (is_binding_enabled a) || match a_job a with Some _ => false | None => true end then true
  else do_binding_on_any_host a && match EH_internal_topology h with Some _ => false | None => true end.

Definition slots_reduced_to_available_maximum (a : assignment) (slots_max_available : Z) : Z :=
  let slots_max_available := if slots_max_available <=? 0 then INT_MAX else slots_max_available in
  let '(max, slots) :=
    match a_mallocation a with
    | Some rule =>
        if rule =? ALLOC_RULE_ROUNDROBIN then (1, a_slots a - 1)
        else if 0 <? rule then (Z.min slots_max_available rule, a_slots a - rule)
        else (0, a_slots a)
    | None => (0, a_slots a)
    end in
  let max :=
    match a_allocation a with
    | None => 1
    | Some rule =>
        if rule =? ALLOC_RULE_ROUNDROBIN then Z.max max 1
        else if 0 <? rule then Z.max max (Z.min slots_max_available (Z.min rule slots))
        else max
    end in
  if 0 <? max then max else slots_max_available.

(** ** Slots *)

(** [for (max_slots = 0; max_slots < slots; max_slots++)]; [None] leaves the loop. *)
Definition for_slots {S} (round : S -> outcome (option S)) (slots : Z) :
    nat -> Z -> S -> outcome (Z * S) :=
  fix go fuel max_slots st :=
    if max_slots <? slots then
      match fuel with
      | O => Exhausted
      | Datatypes.S fuel =>
          let* r := round st in
          match r with
          | None => Done (max_slots, st)
          | Some st => go fuel (max_slots + 1) st
          end
      end
    else Done (max_slots, st).

Fixpoint leaves (n : Node) : nat :=
  match n with
  | MkNode _ _ [] _ => 1
  | MkNode _ _ nodes _ => sum_list (map leaves nodes)
  end.

(** Every round takes a thread; one more finds nothing. *)
Definition slots_fuel (t : topology) : nat := S (sum_list (map leaves t)).

Section Strategy.
Context (amount : Z) (unit : Unit) (start stop : Anchor).

Definition find_units (t : topology) : list Z := find_n_packed_units amount unit start stop t.

(** One slot of [test_strategy]. *)
Definition test_round (sorted : topology) : outcome (option topology) :=
  let ids := find_units sorted in
  if Z.of_nat (length ids) <? amount then Done None
  else let* sorted := mark_units_as_used_or_unused sorted ids unit true true in
       Done (Some sorted).

(** What the rounds of [apply_strategy] change: [topo_in_use_sorted], [host_binding_to_use],
    [a->binding_to_use] with the position of [binding_done], [next_binding_id_for_task]. *)
Record progress := Progress {
  p_sorted : topology;
  p_host_binding : topology;
  p_decisions : list decision;
  p_done : option nat;
  p_next_id : Z;
}.

Definition add_task (d : decision) (id : Z) (binding : string) : decision :=
  Decision (BN_specific_hostname d) (BN_specific_binding d)
    (Some (default [] (BN_specific_binding_list d) ++ [(id, binding)])).

(** One slot of [apply_strategy]. *)
Definition apply_round (hostname : bytes) (topo_in_use : topology) (p : progress) :
    outcome (option progress) :=
  let ids := find_units (p_sorted p) in
  if Z.of_nat (length ids) <? amount then Done None
  else
    let* task := reset_topology (to_string topo_in_use true true false false false true false true) in
    let* task := mark_units_as_used_or_unused task ids unit true false in
    let '(decisions, i) :=
      match p_done p with
      | Some i => (p_decisions p, i)
      | None => (p_decisions p ++ [Decision hostname None None], length (p_decisions p))
      end in
    let decisions :=
      alter (fun d => add_task d (p_next_id p) (to_string task true true false false false false false true))
        i decisions in
    let* host_binding := mark_units_as_used_or_unused (p_host_binding p) ids unit true false in
    let* sorted := mark_units_as_used_or_unused (p_sorted p) ids unit true true in
    Done (Some (Progress sorted host_binding decisions (Some i) (u32 (p_next_id p + 1)))).

End Strategy.

(** The slots are whole numbers in a [double]. *)
Definition test_strategy (a : assignment) (h : host) (slots : Z) (binding_in_use : topology) : outcome Z :=
  if ignore_binding a h then Done slots
  else
    let amount := binding_get_amount (a_job a) in
    if amount =? 0 then Done slots
    else
      let slots := slots_reduced_to_available_maximum a slots in
      let* t := reset_topology (to_internal binding_in_use false) in
      let* (ret, t, sorted) := find_final_in_use a t in
      if negb (ret : bool) then Done 0
      else
        let unit := adapt_binding_unit t (binding_get_unit default_unit (a_job a)) in
        let start := binding_get_start (a_job a) in
        let stop := binding_get_end (a_job a) in
        match binding_get_type (a_job a) with
        | HOST =>
            if amount <=? Z.of_nat (length (find_units amount unit start stop sorted))
            then Done slots else Done 0
        | SLOT =>
            let* (max_slots, _) :=
              for_slots (test_round amount unit start stop) slots (slots_fuel sorted) 0 sorted in
            if 0 <? max_slots then Done (Z.min max_slots slots) else Done 0
        | _ => Done 0
        end.

(** [lGetElemHostRW]: the first decision for the host. *)
Fixpoint find_decision (hostname : bytes) (l : list decision) : option nat :=
  match l with
  | [] => None
  | d :: l => if same_host cfg hostname (BN_specific_hostname d) then Some O
              else S <$> find_decision hostname l
  end.

Definition set_specific_binding (s : string) (d : decision) : decision :=
  Decision (BN_specific_hostname d) (Some s) (BN_specific_binding_list d).

(** The result, the assignment and [topo_in_use]. *)
Definition apply_strategy (a : assignment) (slots : Z) (h : host) (topo_in_use : topology) :
    outcome (Z * assignment * topology) :=
  let amount := binding_get_amount (a_job a) in
  let hostname := EH_name h in
  let type := binding_get_type (a_job a) in
  let binding_done := find_decision hostname (binding_to_use a) in
  if ignore_binding a h then Done (slots, a, topo_in_use)
  else if amount =? 0 then Done (slots, a, topo_in_use)
  else if match type, binding_done with HOST, Some _ => true | _, _ => false end then
    Done (slots, a, topo_in_use)
  else
    let slots := slots_reduced_to_available_maximum a slots in
    let* (_, topo_in_use) := find_initial_in_use a h topo_in_use in
    let* (ret, topo_in_use, sorted) := find_final_in_use a topo_in_use in
    if negb (ret : bool) then Done (0, a, topo_in_use)
    else
      let unit := adapt_binding_unit topo_in_use (binding_get_unit default_unit (a_job a)) in
      let start := binding_get_start (a_job a) in
      let stop := binding_get_end (a_job a) in
      match type with
      | HOST =>
          let ids := find_units amount unit start stop sorted in
          if Z.of_nat (length ids) <? amount then Done (0, a, topo_in_use)
          else
            let* binding := reset_topology (to_internal topo_in_use true) in
            let* binding := mark_units_as_used_or_unused binding ids unit true false in
            let d := Decision hostname (Some (to_internal binding false)) None in
            Done (slots, set_binding_to_use a (binding_to_use a ++ [d]), topo_in_use)
      | SLOT =>
          let next_id :=
            match binding_done ≫= (binding_to_use a !!.) with
            | Some d => Z.of_nat (length (default [] (BN_specific_binding_list d)))
            | None => 0
            end in
          let* host_binding :=
            match binding_done ≫= (binding_to_use a !!.) with
            | None => reset_topology (to_string topo_in_use true true false false false false false true)
            | Some d => let* s := from_pointer (BN_specific_binding d) in reset_topology s
            end in
          let* (max_slots, p) :=
            for_slots (apply_round amount unit start stop hostname topo_in_use) slots (slots_fuel sorted) 0
              (Progress sorted host_binding (binding_to_use a) binding_done next_id) in
          if max_slots =? 0 then Done (0, set_binding_to_use a (p_decisions p), topo_in_use)
          else
            let decisions :=
              match p_done p with
              | Some i =>
                  alter (set_specific_binding
                    (to_string (p_host_binding p) true true false false false false false true))
                    i (p_decisions p)
              | None => p_decisions p
              end in
            Done (max_slots, set_binding_to_use a decisions, topo_in_use)
      | _ => Done (0, a, topo_in_use)
      end.

(** The slots of one element take the first task bindings of the host; [None] when there are
    not enough. *)
Fixpoint move_tasks (slots : nat) (tasks : list (Z * string)) (moved : list (Z * option string)) :
    outcome (option (list (Z * string) * list (Z * option string))) :=
  match slots with
  | O => Done (Some (tasks, moved))
  | S slots =>
      match tasks with
      | [] => Done None
      | (id, s) :: tasks =>
          let* _ := reset_topology s in move_tasks slots tasks (moved ++ [(id, Some s)])
      end
  end.

(** The loop over [gdil]; the two flags keep their values from one element to the next.  The
    result, the decisions and the elements. *)
Fixpoint copy_destinations (host_specific : bool) (decisions : list decision) (l : list destination) :
    outcome (bool * list decision * list destination) :=
  match l with
  | [] => Done (true, decisions, [])
  | jg :: l =>
      match find_decision (JG_qhostname jg) decisions with
      | None => Done (true, decisions, jg :: l)
      | Some i =>
          match decisions !! i with
          | None => Done (true, decisions, jg :: l)
          | Some d =>
              let host_specific :=
                match BN_specific_binding_list d with None => true | Some _ => host_specific end in
              if host_specific then
                let jg' := Destination (JG_qhostname jg) (JG_slots jg)
                             (Some (default [] (JG_binding_to_use jg) ++ [(0, BN_specific_binding d)])) in
                let* (ok, decisions, l) := copy_destinations host_specific decisions l in
                Done (ok, decisions, jg' :: l)
              else
                let tasks := default [] (BN_specific_binding_list d) in
                let* moved := move_tasks (Z.to_nat (JG_slots jg)) tasks [] in
                match moved with
                | None =>
                    let jg' := Destination (JG_qhostname jg) (JG_slots jg)
                                 (Some (default [] (JG_binding_to_use jg) ++ map (fun t => (fst t, Some (snd t))) tasks)) in
                    Done (false, alter (fun d => Decision (BN_specific_hostname d) (BN_specific_binding d)
                                                  (Some [])) i decisions, jg' :: l)
                | Some (rest, moved) =>
                    let jg' := Destination (JG_qhostname jg) (JG_slots jg)
                                 (Some (default [] (JG_binding_to_use jg) ++ moved)) in
                    let decisions := alter (fun d => Decision (BN_specific_hostname d)
                                              (BN_specific_binding d) (Some rest)) i decisions in
                    let* (ok, decisions, l) := copy_destinations host_specific decisions l in
                    Done (ok, decisions, jg' :: l)
                end
          end
      end
  end.

Definition copy_strategy (a : assignment) : outcome (bool * assignment) :=
  let* (ok, decisions, l) := copy_destinations false (binding_to_use a) (gdil a) in
  Done (ok, Assignment (a_job a) (a_ar a) (is_binding_enabled a) (do_binding_on_any_host a)
              (filter_first_core a) (a_slots a) (a_allocation a) (a_mallocation a) decisions l).

(** ** Booking on the host *)

Definition set_utilization (name : string) (v : option string) : list (string * option string) -> list (string * option string) :=
  fix go l :=
    match l with
    | [] => []
    | (n, w) :: l => if String.eqb name n then (n, v) :: l else (n, w) :: go l
    end.

(** [host_debit_binding] without [just_check]; [resl] is [ST_name] of the element. *)
Definition host_debit_binding (h : host) (ce_name : string) (resl : option string) (slots : Z) :
    outcome host :=
  let l := match utilization_of ce_name h with
           | Some _ => EH_resource_utilization h
           | None => EH_resource_utilization h ++ [(ce_name, None)]
           end in
  let in_use := default None (utilization_of ce_name h) in
  let* to_use := from_pointer resl in
  let* topo_to_use := reset_topology to_use in
  let* topo_now := match in_use with Some s => reset_topology s | None => Done topo_to_use end in
  let* (attr, _) := elem_mark_nodes_as_used_or_unused in_use topo_now topo_to_use (0 <? slots) in
  Done (Host_ (EH_name h) (EH_internal_topology h) (set_utilization ce_name attr l)).

(** [host_debit_binding] with [just_check]: the bookings and the value of [*just_check]. *)
Definition host_check_binding (h : host) (ce_name : string) (resl : option string) : outcome (Z * bool) :=
  match default None (utilization_of ce_name h) with
  | None => Done (1, true)
  | Some s => let* to_use := from_pointer resl in
              if bool_decide (to_use = s) then Done (0, false) else Done (1, true)
  end.

Definition host_get_topology_in_use (with_extensions : option binding_mode_t) (h : option host) : outcome string :=
  match h with
  | None => Done ""
  | Some h =>
      match utilization_of SGE_ATTR_SLOTS h with
      | Some (Some s) => let* t := reset_topology s in Done (to_product_topology_string with_extensions t)
      | _ => Done ""
      end
  end.

(** ** What the execution side is told *)

Definition add_binding_to_use (l : list granted) (host_name : option bytes)
    (binding_touse : option (list (option string))) : list granted :=
  match binding_touse, host_name with
  | Some b, Some h => l ++ [Granted GRU_BINDING_TYPE (Some h) b]
  | _, _ => l
  end.

Definition add_binding_string (binding_to_use : topology) (s : option string) : outcome topology :=
  let* s := from_pointer s in
  let* t := reset_topology s in
  if is_empty binding_to_use then Done t else mark_nodes_as_used_or_unused binding_to_use t true.

Definition get_combined_binding_for_host (gr_list : list granted) (hostname : bytes)
    (binding_to_use : topology) : outcome topology :=
  ofold (fun t g =>
      if match GRU_host g with Some s => same_host cfg hostname s | None => false end
         && (GRU_type g =? GRU_BINDING_TYPE)
      then ofold add_binding_string (GRU_binding_inuse g) t else Done t)
    gr_list binding_to_use.

End Schedd.

End Binding.
