(* ===== verification/BindingFacts.v ===== *)
(** Facts on bindings: which topologies the functions return, and the rounds of the loop over the
    slots. *)

From Stdlib Require Import Ascii.
From S2P Require Import Prelude Host TopologyString TopologyUnits TopologyFacts TopologyBits TopologyUnitFacts TopologySearch Binding.
Import Host TopologyString TopologyUnits TopologyFacts TopologyBits TopologyUnitFacts TopologySearch Binding.

Module BindingFacts.
Local Open Scope topology_scope.

(** ** Bits *)

Definition bits_or (l m : list bool) : list bool := zip_with orb l m.
Definition used_count (l : list bool) : nat := length (List.filter id l).

Lemma apply_mask_true l m : apply_mask true l m = bits_or l m.
Proof.
  unfold apply_mask, bits_or. revert m. induction l as [|a l IH]; intros [|b m]; simpl; try done.
  rewrite IH. by destruct a, b.
Qed.

Lemma bits_or_length l m : length l = length m -> length (bits_or l m) = length l.
Proof. intros H. unfold bits_or. rewrite length_zip_with. lia. Qed.

Lemma no_clash_length l m : no_clash l m -> length l = length m.
Proof. apply Forall2_length. Qed.

Lemma no_clash_or a b m :
  no_clash a m -> length b = length m -> (no_clash (bits_or a b) m <-> no_clash b m).
Proof.
  intros H. revert b. induction H as [|x y l l' Hxy _ IH]; intros [|z b] Hb; try done.
  injection Hb as Hb. specialize (IH b Hb). unfold no_clash, bits_or in *. cbn [zip_with].
  rewrite !Forall2_cons, IH. destruct x, y, z; cbn in *; tauto.
Qed.

Lemma no_clash_or_l a b m : length a = length b -> no_clash (bits_or a b) m -> no_clash a m /\ no_clash b m.
Proof.
  revert b m. induction a as [|x a IH]; intros [|y b] m Hl; try done.
  injection Hl as Hl. unfold bits_or. cbn [zip_with]. inversion 1 as [|? z ? m' Hz Hm]; subst.
  destruct (IH b m' Hl Hm). split; constructor; try done; destruct x, y, z; done.
Qed.

Lemma used_count_or l m : no_clash l m -> used_count (bits_or l m) = (used_count l + used_count m)%nat.
Proof.
  unfold used_count, bits_or. induction 1 as [|x y l m H _ IH]; [done|].
  cbn [zip_with List.filter]. destruct x, y; cbn in *; try done; rewrite ?IH; lia.
Qed.

Lemma used_count_le l : (used_count l <= length l)%nat.
Proof. apply List.filter_length_le. Qed.

Lemma used_count_existsb l : existsb id l = true -> (0 < used_count l)%nat.
Proof.
  unfold used_count. induction l as [|[] l IH]; cbn; [done|lia|]. apply IH.
Qed.

Lemma mask_of_free (l m : list bool) :
  length l = length m -> apply_mask true (map (fun _ => false) l) m = m.
Proof.
  unfold apply_mask. revert m. induction l as [|a l IH]; intros [|b m] H; try done.
  cbn. rewrite IH by (by injection H). by destruct b.
Qed.

(** ** Topologies of one shape *)

Lemma thread_leaves_same n n' : same n n' -> thread_leaves n = thread_leaves n'.
Proof.
  revert n'. induction n as [ch id nodes count IH] using node_induction.
  intros [ch' id' nodes' count']. rewrite same_eq. intros [Hc Hn].
  destruct Hn as [|x y l l' Hxy Hn]; [cbn; by rewrite Hc|].
  assert (forallb thread_leaves (x :: l) = forallb thread_leaves (y :: l')) as E.
  { assert (Forall2 same (x :: l) (y :: l')) as Hs by (by constructor). revert IH Hs.
    generalize (x :: l) (y :: l'). clear. intros l l' IH Hs. induction Hs as [|x y l l' Hxy _ IHs]; [done|].
    inversion_clear IH. cbn. f_equal; auto. }
  cbn [thread_leaves]. by rewrite Hc, E.
Qed.

Lemma with_threads_same t t' : same_topology t t' -> with_threads t -> with_threads t'.
Proof.
  unfold with_threads. intros Hs. assert (forallb thread_leaves t = forallb thread_leaves t') as ->; [|done].
  induction Hs as [|x y l l' H _ IH]; [done|]. cbn. by rewrite (thread_leaves_same x y), IH.
Qed.

Lemma unit_mask_same ids letter ancestor parent n n' k :
  same n n' -> numbered (preorder n) k -> numbered (preorder n') k ->
  unit_mask ids letter ancestor parent n = unit_mask ids letter ancestor parent n' /\
  length (preorder n) = length (preorder n').
Proof.
  revert n' ancestor parent k. induction n as [ch id nodes count IH] using node_induction.
  intros [ch' id' nodes' count'] ancestor parent k. rewrite same_eq. intros [Hc Hs].
  cbn [preorder]. rewrite !numbered_cons. cbn [n_id]. intros [-> Hn] [-> Hn'].
  cbn [unit_mask length]. unfold to_mark. rewrite Hc. set (m := _ || _).
  assert (concat (map (unit_mask ids letter (m || ancestor) (toupper ch')) nodes)
          = concat (map (unit_mask ids letter (m || ancestor) (toupper ch')) nodes') /\
          length (concat (map preorder nodes)) = length (concat (map preorder nodes'))) as [E1 E2].
  { revert Hn Hn'. generalize (k + 1). clear Hc. generalize (m || ancestor). clear m.
    intros b j Hn Hn'. revert j Hn Hn'. induction Hs as [|x y l l' Hxy _ IHs]; [done|].
    intros j. inversion_clear IH as [|? ? Hx Hl]. cbn [map concat]. rewrite !numbered_app.
    intros [Hn1 Hn2] [Hn1' Hn2']. destruct (Hx y b (toupper ch') j Hxy Hn1 Hn1') as [Em El].
    rewrite <- El in Hn2'. destruct (IHs Hl _ Hn2 Hn2') as [Em' El']. rewrite !length_app. split; congruence. }
  destruct Hs as [|x y l l' Hxy Hs]; [done|]. split; [exact E1|lia].
Qed.

Lemma units_mask_same ids unit t t' :
  same_topology t t' -> numbered (all_nodes t) 1 -> numbered (all_nodes t') 1 ->
  units_mask ids unit t = units_mask ids unit t'.
Proof.
  unfold units_mask, all_nodes. generalize 1. intros k Hs. revert k.
  induction Hs as [|x y l l' Hxy _ IH]; intros k; [done|]. cbn [map concat]. rewrite !numbered_app.
  intros [Hx Hl] [Hy Hl'].
  destruct (unit_mask_same ids (unit_letter_of unit) false zero x y k Hxy Hx Hy) as [-> El].
  rewrite <- El in Hl'. by rewrite (IH _ Hl Hl').
Qed.

(** ** Units take threads *)

(** The children of a core are threads. *)
Fixpoint core_threads (n : Node) : bool :=
  match n with
  | MkNode ch _ nodes _ =>
      implb (is_core_letter (toupper ch))
        (forallb (fun c => match n_nodes c with [] => true | _ => false end) nodes)
      && forallb core_threads nodes
  end.

Definition hardware (t : topology) : Prop :=
  with_threads t /\ forallb core_threads t = true.

Lemma core_threads_same n n' : same n n' -> core_threads n = core_threads n'.
Proof.
  revert n'. induction n as [ch id nodes count IH] using node_induction.
  intros [ch' id' nodes' count']. rewrite same_eq. intros [Hc Hn]. cbn [core_threads]. rewrite Hc.
  f_equal; [f_equal|].
  - clear IH. induction Hn as [|x y l l' Hxy _ IHn]; [done|]. cbn. rewrite IHn. f_equal.
    destruct x as [? ? xs ?], y as [? ? ys ?]. apply same_eq in Hxy as [_ Hxy]. by destruct Hxy.
  - induction Hn as [|x y l l' Hxy _ IHn]; [done|]. inversion_clear IH. cbn. f_equal; auto.
Qed.

Lemma hardware_same t t' : same_topology t t' -> hardware t -> hardware t'.
Proof.
  intros Hs [H1 H2]. split; [by eapply with_threads_same|]. rewrite <- H2. symmetry.
  clear H1 H2. induction Hs as [|x y l l' H _ IH]; [done|]. cbn. by rewrite (core_threads_same x y), IH.
Qed.

Lemma core_threads_all t x : x ∈ all_nodes t -> forallb core_threads t = true -> core_threads x = true.
Proof.
  rewrite forallb_Forall. apply all_nodes_inherit. intros ch id nodes count. cbn [core_threads].
  intros [_ Hl]%andb_true_iff. by apply forallb_Forall.
Qed.

Lemma existsb_concat_map {A} (f : A -> list bool) l x :
  x ∈ l -> existsb id (f x) = true -> existsb id (concat (map f l)) = true.
Proof.
  intros Hx Hf. induction l as [|y l IH]; [by apply elem_of_nil in Hx|]. cbn [map concat].
  rewrite existsb_app. apply elem_of_cons in Hx as [->|Hx]; [by rewrite Hf|].
  rewrite (IH Hx). apply orb_true_r.
Qed.

(** A core below a marked node gives at least one thread. *)
Lemma core_takes ids letter parent ancestor n :
  toupper (n_c n) = letter -> is_core_letter letter = true ->
  thread_leaves n = true -> core_threads n = true ->
  ancestor = true \/ n_id n ∈ ids ->
  existsb id (unit_mask ids letter ancestor parent n) = true.
Proof.
  destruct n as [ch i nodes count]. cbn [n_c n_id]. intros Hl Hc Ht Hct Ha.
  cbn [core_threads] in Hct. rewrite Hl, Hc in Hct. cbn [implb] in Hct.
  apply andb_true_iff in Hct as [Hct _].
  destruct nodes as [|x l].
  { cbn in Ht. apply is_char_eq in Ht. rewrite Ht in Hl. by rewrite <- Hl in Hc. }
  cbn [unit_mask]. apply (existsb_concat_map _ _ x); [by left|].
  cbn [forallb] in Hct. apply andb_true_iff in Hct as [Hx _]. destruct x as [cx ix [|? ?] kx]; [|done].
  cbn [unit_mask existsb]. rewrite orb_false_r. unfold Datatypes.id, to_mark. rewrite Hl, is_char_refl.
  rewrite (orb_true_r (no_letter letter)), !orb_true_l, !andb_true_r.
  destruct Ha as [->|Hin]; [by rewrite !orb_true_r|]. rewrite (bool_decide_eq_true_2 _ Hin). cbn [orb].
  by rewrite !orb_true_r.
Qed.

(** Something below a marked node. *)
Lemma below_takes ids letter parent ancestor n y :
  y ∈ preorder n -> toupper (n_c y) = letter -> is_core_letter letter = true ->
  thread_leaves n = true -> core_threads n = true ->
  ancestor = true \/ n_id n ∈ ids ->
  existsb id (unit_mask ids letter ancestor parent n) = true.
Proof.
  revert parent ancestor. induction n as [ch i nodes count IH] using node_induction.
  intros parent ancestor Hy Hl Hc Ht Hct Ha. cbn [preorder] in Hy. apply elem_of_cons in Hy as [->|Hy].
  { by apply core_takes. }
  apply list_elem_of_In, in_concat in Hy as (p & Hp & Hy). apply in_map_iff in Hp as (z & <- & Hz).
  apply list_elem_of_In in Hy, Hz. destruct nodes as [|x l]; [by apply elem_of_nil in Hz|].
  cbn [unit_mask]. apply (existsb_concat_map _ _ z); [done|].
  cbn [thread_leaves core_threads] in Ht, Hct. apply andb_true_iff in Ht as [_ Ht], Hct as [_ Hct].
  apply forallb_Forall in Ht, Hct. rewrite Forall_forall in *.
  apply (IH z Hz); [done|done|done|by apply Ht|by apply Hct|]. left. unfold to_mark.
  destruct Ha as [->|Hin]; [by rewrite !orb_true_r|]. cbn [n_id] in Hin. by rewrite (bool_decide_eq_true_2 _ Hin).
Qed.

Lemma count_positive ch l : (0 < count_letter ch l)%nat -> exists y, y ∈ l /\ n_c y = ch.
Proof.
  unfold count_letter. destruct (filter _ l) as [|y k] eqn:E; cbn; [lia|]. intros _. exists y.
  assert (y ∈ filter (fun n => n_c n = ch) l) as Hy by (rewrite E; by left).
  apply list_elem_of_filter in Hy as [? ?]. done.
Qed.

Lemma unit_takes ids unit core ancestor parent n :
  counted n -> thread_leaves n = true -> core_threads n = true ->
  add_id unit n core = true -> n_id n ∈ ids ->
  existsb id (unit_mask ids (unit_letter_of unit) ancestor parent n) = true.
Proof.
  intros [_ Hc] Ht Hct Ha Hin.
  assert (forall letter, known letter = true -> is_core_letter (toupper letter) = true ->
    0 < get_counter n letter -> existsb id (unit_mask ids (toupper letter) ancestor parent n) = true) as Hbelow.
  { intros letter Hk Hl Hpos. rewrite (Hc _ Hk) in Hpos.
    destruct (count_positive letter (preorder n)) as (y & Hy & <-); [lia|].
    apply (below_takes _ _ _ _ _ y); auto. }
  assert (forall letter, is_core_letter letter = true -> toupper (n_c n) = letter ->
    existsb id (unit_mask ids letter ancestor parent n) = true) as Hcore by (intros; apply core_takes; auto).
  assert (is_free_thread n = true -> forall letter, existsb id (unit_mask ids letter ancestor parent n) = true) as Hthread.
  { intros HT letter. apply is_char_eq in HT. destruct n as [ch i [|x l] k]; cbn in HT; subst ch; [|by cbn in Ht].
    cbn [n_id] in Hin. cbn [unit_mask existsb]. unfold to_mark. by rewrite (bool_decide_eq_true_2 _ Hin). }
  destruct unit; cbn [add_id] in Ha; try done; unfold is_free_X, is_free_X_core in Ha;
    rewrite ?andb_true_iff, ?is_char_eq in Ha; cbn [unit_letter_of is_power_unit].
  all: first [apply Hthread; tauto | apply Hcore; [done|by destruct Ha as [-> _]]
    | apply (Hbelow "C"%char); [by vm_compute|done|destruct Ha as [_ Ha]; by apply Z.ltb_lt in Ha]
    | apply (Hbelow "E"%char); [by vm_compute|done|destruct Ha as [_ Ha]; by apply Z.ltb_lt in Ha]].
Qed.

(** ** What the functions return *)

Lemma well_formed_nil : well_formed [].
Proof. done. Qed.

Lemma reparse t : well_formed t -> reset_topology (to_internal t false) = Done t.
Proof.
  intros [Hk Hc]. unfold reset_topology. rewrite to_internal_eq, parse_show by done. by rewrite Hc.
Qed.

(** The topology with everything free, as it is read back. *)
Definition all_free (t : topology) : topology := canon (map (map_letters toupper) t).

Lemma upper_same t : same_topology t (map (map_letters toupper) t).
Proof. apply same_map, Forall_true. intros n. apply same_map_letters, toupper_idem. Qed.

Lemma upper_known t : known_tree t = true -> known_tree (map (map_letters toupper) t) = true.
Proof. intros H. rewrite <- (same_topology_known t); [done|apply upper_same]. Qed.

Lemma reparse_unused t : known_tree t = true -> reset_topology (to_internal t true) = Done (all_free t).
Proof.
  intros H. unfold reset_topology. rewrite to_internal_unused. by apply parse_show, upper_known.
Qed.

Lemma all_free_spec t :
  known_tree t = true ->
  well_formed (all_free t) /\ same_topology t (all_free t) /\
  bits (all_free t) = map (fun _ => false) (bits t).
Proof.
  intros H. split; [by apply canon_well_formed, upper_known|]. split.
  - etrans; [apply upper_same|]. apply erase_topology_same. unfold all_free. by rewrite erase_canon.
  - transitivity (bits (map (map_letters toupper) t)); [apply bits_erase, erase_canon|].
    unfold bits. rewrite concat_map, !map_map. f_equal. apply map_Forall_ext.
    apply forallb_Forall in H. eapply Forall_impl; [exact H|].
    intros n Hn. apply bits_map_letters; [done|]. intros ch Hch. exact (islower_set_case false ch Hch).
Qed.

Lemma to_string_plain t :
  to_string t true true false false false false false true = to_internal t false.
Proof. unfold to_internal. by rewrite !to_string_structure. Qed.

Lemma to_string_unused t :
  to_string t true true false false false true false true = to_internal t true.
Proof. unfold to_internal. by rewrite !to_string_structure. Qed.

Lemma obind_done {A B} (r : outcome A) (f : A -> outcome B) b :
  obind r f = Done b -> exists a, r = Done a /\ f a = Done b.
Proof. destruct r; [|done..]. eauto. Qed.

Lemma mark_nodes_well_formed t m u t' :
  mark_nodes_as_used_or_unused t m u = Done t' -> well_formed t'.
Proof.
  unfold mark_nodes_as_used_or_unused. destruct (is_empty t).
  - intros (t1 & E & H)%obind_done. destruct u; [injection H as <-|]; by eapply parsed_well_formed.
  - apply parsed_well_formed.
Qed.

Lemma mark_node_well_formed t id u t' :
  mark_node_as_used_or_unused t id u = Done t' -> well_formed t -> well_formed t'.
Proof.
  unfold mark_node_as_used_or_unused. destruct (id <=? 0); [by intros [= <-]|].
  destruct (change_first _ t) as [t1 []]; [|by intros [= <-]]. intros H _. by eapply parsed_well_formed.
Qed.

Lemma initial_well_formed cfg a h t b t' :
  find_initial_in_use cfg a h t = Done (b, t') -> well_formed t -> well_formed t'.
Proof.
  unfold find_initial_in_use. intros ([t1 f1] & E1 & H)%obind_done Hw.
  assert (well_formed t1) as Hw1.
  { destruct (negb (is_empty t)); [by injection E1 as <- _|].
    destruct (utilization_of SGE_ATTR_SLOTS h) as [[src|]|]; [|by injection E1 as <- _..].
    apply obind_done in E1 as (t2 & E2 & [= <- <-]). by eapply parsed_well_formed. }
  apply obind_done in H as ([t2 f2] & E2 & H).
  assert (well_formed t2) as Hw2.
  { destruct (negb (negb (is_empty t)) && negb f1); [|by injection E2 as <- _].
    destruct (EH_internal_topology h); [|by injection E2 as <- _].
    apply obind_done in E2 as (t3 & E3 & [= <- <-]). by eapply parsed_well_formed. }
  destruct (a_ar a) as [grants|]; [|by injection H as _ <-].
  apply obind_done in H as ([[ar fe] f3] & _ & H). apply obind_done in H as (ar' & _ & H).
  apply obind_done in H as (t3 & E3 & [= _ <-]). destruct f3; [by eapply mark_nodes_well_formed|by eapply parsed_well_formed].
Qed.

(** Nothing is sorted. *)
Definition unsorted (a : assignment) : Prop :=
  binding_get_sort (a_job a) = "" \/ binding_get_sort (a_job a) = NONE_STR.

Lemma insert_known nt sc asc x l :
  known_tree (insert_stable nt sc asc x l) = known_node x && known_tree l.
Proof.
  unfold known_tree. induction l as [|y l IH]; [done|]. cbn [insert_stable].
  destruct (comes_before nt sc asc y x); [|done]. cbn [forallb]. rewrite IH.
  by destruct (known_node x), (known_node y).
Qed.

Lemma sort_level_known nt sc asc l : known_tree (sort_level nt sc asc l) = known_tree l.
Proof.
  unfold sort_level. destruct (_ && _); [|done]. unfold stable_sort.
  induction l as [|x l IH]; [done|]. cbn [fold_right]. by rewrite insert_known, IH.
Qed.

Lemma sort_below_known nt sc asc n : known_node (sort_below nt sc asc n) = known_node n.
Proof.
  induction n as [ch id nodes count IH] using node_induction. cbn [sort_below known_node].
  f_equal. fold (known_tree (sort_level nt sc asc (map (sort_below nt sc asc) nodes))).
  rewrite sort_level_known. unfold known_tree. rewrite forallb_map. by apply forallb_ext_Forall.
Qed.

Lemma sort_tree_known t crit ch : known_tree (sort_tree t crit ch) = known_tree t.
Proof.
  unfold sort_tree. destruct (_ || _); [done|]. generalize (chars crit) as l. intros l. revert t.
  induction l as [|c l IH]; intros t; [done|]. cbn [fold_left]. rewrite IH. unfold sort_tree_nodes.
  rewrite sort_level_known. unfold known_tree. rewrite forallb_map.
  apply forallb_ext_Forall, Forall_true. intros n. apply sort_below_known.
Qed.

Lemma final_spec a t t' sorted :
  find_final_in_use a t = Done (true, t', sorted) -> well_formed t ->
  well_formed t' /\ known_tree sorted = true /\ (unsorted a -> sorted = t').
Proof.
  unfold find_final_in_use. intros (t1 & E1 & H)%obind_done Hw.
  assert (well_formed t1) as Hw1.
  { destruct (filter_first_core a); [|by injection E1 as <-].
    destruct (negb _); [by eapply mark_node_well_formed|by injection E1 as <-]. }
  apply obind_done in H as (f & _ & H). apply obind_done in H as ([same t2] & E2 & H).
  destruct same; [|done]. cbn [negb] in H.
  assert (well_formed t2) as Hw2.
  { destruct (_ && _); [|by injection E2 as <-]. apply obind_done in E2 as (m & _ & E2).
    destruct (negb (is_same_topology t1 m)); [discriminate|]. apply obind_done in E2 as (t3 & E3 & [= <-]).
    by eapply mark_nodes_well_formed. }
  rewrite reparse in H by done. injection H as <- <-. split; [done|]. split.
  - rewrite sort_tree_known. by destruct Hw2.
  - intros Hs. unfold sort_tree. destruct Hs as [-> | ->]; [|rewrite !orb_true_r; done].
    by rewrite orb_true_r.
Qed.

Lemma mark_node_same ids letter used ancestor parent n pos :
  same n (fst (mark_node ids letter used ancestor parent n pos)).
Proof.
  revert ancestor parent pos. induction n as [ch id nodes count IH] using node_induction.
  intros ancestor parent pos. cbn [mark_node].
  match goal with |- context [if ?c then set_case used ch else ch] => generalize c as b end. intros b.
  match goal with |- context [map_pos _ nodes ?q] => generalize q as p end. intros p.
  destruct (map_pos _ nodes p) as [l q] eqn:E. cbn [fst]. apply same_eq. split.
  { destruct b; [by rewrite toupper_set_case|done]. }
  revert p l q E. induction IH as [|x xs Hx _ IHx]; intros p l q; [by intros [= <- _]|].
  rewrite map_pos_cons. destruct (mark_node _ _ _ _ _ x p) as [y p1] eqn:Ey.
  destruct (map_pos _ xs p1) as [ys p2] eqn:Eys. intros [= <- _]. constructor; [|by eapply IHx].
  match type of Ey with mark_node _ _ _ ?c ?d _ _ = _ => specialize (Hx c d p) end. by rewrite Ey in Hx.
Qed.

Lemma mark_units_total t ids unit u hc :
  known_tree t = true ->
  exists t', mark_units_as_used_or_unused t ids unit u hc = Done t' /\ known_tree t' = true.
Proof.
  intros Hk. unfold mark_units_as_used_or_unused. destruct (_ || _); [by exists t|]. cbv zeta.
  set (t1 := fst (map_pos _ t 0)).
  assert (same_topology t t1) as Hs.
  { unfold t1. generalize 0%nat as p. clear. induction t as [|n t IH]; intros p; [constructor|].
    rewrite map_pos_cons. destruct (mark_node _ _ _ _ _ n p) as [y p1] eqn:E.
    specialize (IH p1). destruct (map_pos _ t p1). constructor; [|done].
    pose proof (mark_node_same (merge_sort Z.le ids) (unit_letter_of unit) u false zero n p) as H.
    by rewrite E in H. }
  assert (known_tree t1 = true) as Hk1 by (by rewrite <- (same_topology_known t)).
  destruct (correct_spec t1 Hk1) as (Hk2 & _). destruct hc; [|by eexists].
  eexists. rewrite to_internal_eq. split; [by apply parse_show|]. by apply canon_well_formed.
Qed.

Lemma leaves_bits n : leaves n = length (node_bits n).
Proof.
  induction n as [ch id nodes count IH] using node_induction. destruct nodes as [|x l]; [done|].
  cbn [leaves node_bits]. revert IH. generalize (x :: l). clear. intros l IH.
  induction IH as [|x l H _ IHl]; [done|]. cbn. by rewrite length_app, H, IHl.
Qed.

Lemma slots_fuel_bits t : slots_fuel t = S (length (bits t)).
Proof.
  unfold slots_fuel, bits. f_equal. induction t as [|n t IH]; [done|]. cbn [map concat].
  change (leaves n + sum_list (map leaves t) = length (node_bits n ++ concat (map node_bits t)))%nat.
  by rewrite length_app, leaves_bits, IH.
Qed.

Lemma for_slots_le {T} (round : T -> outcome (option T)) slots fuel n st k st' :
  for_slots round slots fuel n st = Done (k, st') -> n <= k /\ (k <= n \/ k <= slots).
Proof.
  revert n st. induction fuel as [|fuel IH]; intros n st; cbn [for_slots].
  - destruct (Z.ltb_spec n slots); [done|]. intros [= <- _]. lia.
  - destruct (Z.ltb_spec n slots); [|intros [= <- _]; lia].
    intros ([st1|] & _ & E)%obind_done; [|injection E as <- _; lia]. apply IH in E. lia.
Qed.

Lemma slots_positive a slots : 0 < slots_reduced_to_available_maximum a slots.
Proof.
  unfold slots_reduced_to_available_maximum. destruct (match a_mallocation a with Some _ => _ | None => _ end) as [m s].
  set (max := match a_allocation a with Some _ => _ | None => _ end). clearbody max.
  destruct (Z.ltb_spec 0 max); [done|]. destruct (Z.leb_spec slots 0); [done|lia].
Qed.

End BindingFacts.
