(* ===== verification/BindingProps.v ===== *)
(** What bindings promise: the tasks of a job get free processors of their own, and what is tested
    is what is applied. *)

From Stdlib Require Import Ascii.
From S2P Require Import Prelude Host TopologyString TopologyUnits TopologyFacts TopologyBits TopologyUnitFacts TopologySearch Binding BindingFacts.
Import Host TopologyString TopologyUnits TopologyFacts TopologyBits TopologyUnitFacts TopologySearch Binding BindingFacts.

Module BindingProps.
Local Open Scope topology_scope.

(** ** Tasks *)






Section Slots.
Context (amount : Z) (unit : Unit) (start stop : Anchor) (hostname : bytes) (t : topology).
Hypothesis Hwf : well_formed t.
Hypothesis Hhw : hardware t.
Hypothesis Hamount : 0 < amount.










Notation round := (apply_round amount unit start stop hostname t).



Notation found_in := (find_n_packed_units amount unit start stop).




End Slots.

(** ** The strategy *)

Section Strategy.
Context (cfg : bootstrap) (default_unit : Unit).




(** ** Testing and applying *)

(** The rounds of both functions agree. *)
Lemma rounds_agree amount unit start stop hostname t p :
  known_tree t = true -> known_tree (p_sorted p) = true -> known_tree (p_host_binding p) = true ->
  match test_round amount unit start stop (p_sorted p) with
  | Done None => apply_round amount unit start stop hostname t p = Done None
  | Done (Some s) => exists p', apply_round amount unit start stop hostname t p = Done (Some p') /\
      p_sorted p' = s /\ known_tree s = true /\ known_tree (p_host_binding p') = true
  | _ => False
  end.
Proof.
  intros Ht Hs Hh. unfold test_round, apply_round. set (ids := find_units _ _ _ _ _).
  destruct (_ <? amount); [done|].
  destruct (mark_units_total (p_sorted p) ids unit true true Hs) as (s & -> & Hks). cbn [obind].
  destruct (mark_units_total (p_host_binding p) ids unit true false Hh) as (h & -> & Hkh).
  rewrite to_string_unused, reparse_unused by done. cbn [obind].
  destruct (mark_units_total (all_free t) ids unit true false) as (b & -> & _);
    [by apply all_free_spec|].
  cbn [obind]. destruct (match p_done p with Some i => _ | None => _ end) as [ds i].
  eexists. split; [reflexivity|]. done.
Qed.

Lemma loops_agree amount unit start stop hostname t slots fuel n p :
  known_tree t = true -> known_tree (p_sorted p) = true -> known_tree (p_host_binding p) = true ->
  forall k s, for_slots (test_round amount unit start stop) slots fuel n (p_sorted p) = Done (k, s) ->
  exists p', for_slots (apply_round amount unit start stop hostname t) slots fuel n p = Done (k, p').
Proof.
  intros Ht. revert n p. induction fuel as [|fuel IH]; intros n p Hs Hh k s; cbn [for_slots].
  - destruct (n <? slots); [done|]. intros [= <- _]. eauto.
  - destruct (n <? slots); [|intros [= <- _]; eauto].
    pose proof (rounds_agree amount unit start stop hostname t p Ht Hs Hh) as Hr.
    destruct (test_round _ _ _ _ _) as [[s1|]| |]; [|rewrite Hr|done..]; cbn [obind].
    + destruct Hr as (p1 & -> & <- & Hs1 & Hh1). cbn [obind]. by apply IH.
    + intros [= <- _]. eauto.
Qed.

(** C11: The number of slots [test_strategy] promises for a host in a certain state is the number
    [apply_strategy] then binds there, sorted or not, whatever the job requests, as long as the
    assignment has no binding on this host yet. *)
Theorem tested_slots_applied a h slots topo b now n :
  find_initial_in_use cfg a h topo = Done (b, now) -> well_formed topo ->
  find_decision cfg (EH_name h) (binding_to_use a) = None ->
  test_strategy default_unit a h slots now = Done n ->
  exists a' t, apply_strategy cfg default_unit a slots h topo = Done (n, a', t).
Proof.
  intros Hi Hw Hd. pose proof (initial_well_formed _ _ _ _ _ _ Hi Hw) as Hwn.
  unfold test_strategy, apply_strategy. rewrite Hd.
  destruct (ignore_binding a h); [intros [= <-]; eauto|].
  destruct (binding_get_amount (a_job a) =? 0); [intros [= <-]; eauto|].
  assert (match binding_get_type (a_job a), @None nat with HOST, Some _ => true | _, _ => false end = false) as ->.
  { by destruct (binding_get_type _). }
  rewrite reparse, Hi by done. cbn [obind].
  destruct (find_final_in_use a now) as [[[ret t] sorted]| |] eqn:Hf; [|done..]. cbn [obind].
  destruct ret; cbn [negb]; [|intros [= <-]; eauto].
  destruct (final_spec _ _ _ _ Hf Hwn) as (Hwt & Hks & _).
  pose proof (slots_positive a slots) as Hpos. set (avail := slots_reduced_to_available_maximum a slots) in *.
  set (amount := binding_get_amount (a_job a)).
  set (unit := adapt_binding_unit t _). set (start := binding_get_start _). set (stop := binding_get_end _).
  destruct (binding_get_type (a_job a)); try (intros [= <-]; by eauto).
  - set (ids := find_units _ _ _ _ _). destruct (Z.leb_spec amount (length ids)), (Z.ltb_spec (length ids) amount);
      try lia; intros [= <-]; [|eauto].
    rewrite reparse_unused by apply Hwt. cbn [obind].
    destruct (mark_units_total (all_free t) ids unit true false) as (b' & -> & _);
      [by apply all_free_spec; apply Hwt|]. cbn [obind]. eauto.
  - cbn [mbind option_bind]. rewrite to_string_plain, reparse by done. cbn [obind].
    intros ([k s] & E & Hn)%obind_done. apply for_slots_le in E as Hle.
    destruct (loops_agree amount unit start stop (EH_name h) t avail _ 0
      (Progress sorted t (binding_to_use a) None 0) (proj1 Hwt) Hks (proj1 Hwt) k s E) as (p & ->).
    cbn [obind]. destruct (Z.ltb_spec 0 k), (Z.eqb_spec k 0); try lia; injection Hn as <-; [|eauto].
    rewrite Z.min_l by lia. eauto.
Qed.

End Strategy.

End BindingProps.
