(* ===== verification/BindingHostProps.v ===== *)
(** The processors booked on a host ([host_debit_binding]) and those an advance reservation leaves
    to its jobs ([find_initial_in_use]). *)

From Stdlib Require Import Ascii.
From S2P Require Import Prelude Host TopologyString TopologyUnits TopologyFacts TopologyBits Binding BindingFacts.
Import Host TopologyString TopologyUnits TopologyFacts TopologyBits Binding BindingFacts.

Module BindingHostProps.
Local Open Scope topology_scope.

(** ** The utilization of a host *)

Lemma utilization_find name h :
  utilization_of name h = snd <$> List.find (fun e => String.eqb name (fst e)) (EH_resource_utilization h).
Proof. done. Qed.

Lemma set_utilization_find name name' v l :
  (exists w, List.find (fun e => String.eqb name (fst e)) l = Some w) ->
  List.find (fun e => String.eqb name' (fst e)) (set_utilization name v l) =
  if String.eqb name name' then Some (name', v) else List.find (fun e => String.eqb name' (fst e)) l.
Proof.
  intros [w H]. induction l as [|[n u] l IH]; [done|]. cbn [set_utilization List.find fst] in *.
  destruct (String.eqb_spec name n) as [->|Hn].
  - cbn [List.find fst]. destruct (String.eqb_spec n name') as [->|Hn'].
    + by rewrite String.eqb_refl.
    + by destruct (String.eqb_spec name' n); [congruence|].
  - cbn [List.find fst]. destruct (String.eqb_spec name' n) as [->|Hn'].
    + by destruct (String.eqb_spec name n).
    + by apply IH.
Qed.

Lemma set_utilization_twice name v w l :
  set_utilization name v (set_utilization name w l) = set_utilization name v l.
Proof.
  induction l as [|[n u] l IH]; [done|]. cbn [set_utilization].
  destruct (String.eqb name n) eqn:E; cbn [set_utilization]; rewrite E; [done|by rewrite IH].
Qed.

Lemma set_utilization_same name v l :
  snd <$> List.find (fun e => String.eqb name (fst e)) l = Some v -> set_utilization name v l = l.
Proof.
  induction l as [|[n u] l IH]; [done|]. cbn [set_utilization List.find fst].
  destruct (String.eqb name n); [by intros [= ->]|]. intros H. by rewrite IH.
Qed.

(** The entry is created when the host has none. *)
Definition with_entry (h : host) (name : string) : list (string * option string) :=
  match utilization_of name h with
  | Some _ => EH_resource_utilization h
  | None => EH_resource_utilization h ++ [(name, None)]
  end.

Lemma with_entry_find h name :
  exists w, List.find (fun e => String.eqb name (fst e)) (with_entry h name) = Some w.
Proof.
  unfold with_entry, utilization_of. destruct (List.find _ (EH_resource_utilization h)) as [w|] eqn:E.
  - exists w. exact E.
  - cbn. exists (name, None). revert E. induction (EH_resource_utilization h) as [|[n u] l IH]; intros E.
    + cbn. by rewrite String.eqb_refl.
    + cbn in *. destruct (String.eqb name n); [done|by apply IH].
Qed.

Lemma with_entry_other h name name' :
  name <> name' ->
  List.find (fun e => String.eqb name' (fst e)) (with_entry h name)
  = List.find (fun e => String.eqb name' (fst e)) (EH_resource_utilization h).
Proof.
  intros Hn. unfold with_entry. destruct (utilization_of name h); [done|].
  induction (EH_resource_utilization h) as [|[n u] l IH]; cbn.
  - by destruct (String.eqb_spec name' name); [congruence|].
  - by destruct (String.eqb name' n).
Qed.

(** One booking on a host: its new text, the rest as before. *)
Lemma debit_effect h name s slots t m :
  reset_topology s = Done m -> m <> [] ->
  match default None (utilization_of name h) with
  | Some s0 => reset_topology s0 = Done t /\ t <> []
  | None => t = m
  end ->
  same_topology t m ->
  exists h' t', host_debit_binding h name (Some s) slots = Done h' /\
    h' = Host_ (EH_name h) (EH_internal_topology h)
           (set_utilization name (Some (to_internal t' false)) (with_entry h name)) /\
    represents t t' (apply_mask (0 <? slots) (bits t) (mask m)).
Proof.
  intros Hs Hm Hu Hsame.
  assert (t <> [] /\ known_tree t = true) as [Hne Hk].
  { destruct (default None _) as [s0|]; [destruct Hu as [Hu ?]; split; [done|]; by apply parsed_well_formed in Hu as [? _]|].
    subst t. split; [done|]. by apply parsed_well_formed in Hs as [? _]. }
  destruct (mark_nodes_spec t m (0 <? slots) Hne Hk Hsame) as (t' & Ht' & Hr).
  unfold host_debit_binding. cbn [from_pointer obind]. rewrite Hs. cbn [obind].
  assert (match default None (utilization_of name h) with Some s0 => reset_topology s0 | None => Done m end
          = Done t) as ->.
  { destruct (default None _); [by destruct Hu|by subst]. }
  cbn [obind]. unfold elem_mark_nodes_as_used_or_unused.
  destruct m as [|n m]; [done|]. cbn [is_empty]. destruct t as [|n' t0]; [done|]. cbn [is_empty].
  rewrite Ht'. cbn [obind]. eexists _, t'. split; [reflexivity|]. done.
Qed.

(** What the entry of the host says: nothing, or which threads are in use. *)
Definition booked (t : topology) (h : host) (name : string) (l : option (list bool)) : Prop :=
  match default None (utilization_of name h), l with
  | None, None => True
  | Some s, Some l => exists t', reset_topology s = Done t' /\ same_topology t t' /\ bits t' = l
  | _, _ => False
  end.

(** Booking as an operation on sets of threads; the first booking sets up the entry. *)
Definition book (l : option (list bool)) (op : topology * Z) : option (list bool) :=
  let '(m, slots) := op in
  Some (apply_mask (0 <? slots) (default (bits m) l) (mask m)).

Definition other_parts (name : string) (h h' : host) : Prop :=
  EH_name h' = EH_name h /\ EH_internal_topology h' = EH_internal_topology h /\
  forall name', name' <> name -> utilization_of name' h' = utilization_of name' h.

Lemma debit_step t h name l s slots m :
  t <> [] -> booked t h name l -> reset_topology s = Done m -> same_topology t m ->
  exists h', host_debit_binding h name (Some s) slots = Done h' /\
    booked t h' name (book l (m, slots)) /\ other_parts name h h'.
Proof.
  intros Hne Hb Hs Hm. set (t0 := match default None (utilization_of name h) with
    | Some s0 => match reset_topology s0 with Done t => t | _ => m end | None => m end).
  assert (m <> []) as Hme by (intros E; rewrite E in Hm; by apply Forall2_nil_inv_r in Hm).
  assert (same_topology t t0 /\ bits t0 = default (bits m) l /\
    match default None (utilization_of name h) with Some s0 => reset_topology s0 = Done t0 /\ t0 <> []
    | None => t0 = m end) as (Ht0 & Hb0 & Hu).
  { unfold t0, booked in *. destruct (default None _) as [s0|], l as [l|]; try done.
    destruct Hb as (t' & -> & Hs' & <-). split; [done|]. split; [done|]. split; [done|].
    intros E. rewrite E in Hs'. by apply Forall2_nil_inv_r in Hs'. }
  clearbody t0. destruct (debit_effect h name s slots t0 m) as (h' & t' & E & -> & Hr); try done.
  { by rewrite <- Ht0. }
  eexists. split; [exact E|]. destruct (with_entry_find h name) as [w Hw].
  split; [|split; [done|split; [done|]]].
  - unfold booked, utilization_of. cbn [EH_resource_utilization].
    rewrite set_utilization_find, String.eqb_refl by eauto. cbn [fmap option_fmap option_map snd default from_option id book].
    destruct Hr as ([Hk Hc] & Hn & Hs' & Hb'). exists t'. split; [by apply reparse|].
    split; [by rewrite Ht0|]. by rewrite Hb', Hb0.
  - intros name' Hn. unfold utilization_of. cbn [EH_resource_utilization].
    rewrite set_utilization_find by eauto. destruct (String.eqb_spec name name'); [congruence|].
    by rewrite with_entry_other.
Qed.

Definition debit_all (name : string) : list (string * Z) -> host -> outcome host :=
  ofold (fun h op => host_debit_binding h name (Some (fst op)) (snd op)).

(** C7: Whatever bindings are booked on and released from a host, in whatever order, its entry
    says exactly which threads are in use: a booking adds the threads of the binding, a release
    takes them away, the first booking sets up the entry.  No other entry of the host changes. *)
Theorem bookings_tracked t h name l ops ms :
  t <> [] -> booked t h name l ->
  Forall2 (fun op m => reset_topology (fst op) = Done m /\ same_topology t m) ops ms ->
  exists h', debit_all name ops h = Done h' /\
    booked t h' name (fold_left book (zip ms (map snd ops)) l) /\ other_parts name h h'.
Proof.
  intros Hne Hb H. revert h l Hb. induction H as [|[s slots] m ops ms [Hs Hm] _ IH]; intros h l Hb.
  { exists h. by repeat split. }
  cbn [fst] in Hs. destruct (debit_step t h name l s slots m Hne Hb Hs Hm) as (h1 & E & Hb1 & Ho1 & Ho2 & Ho3).
  destruct (IH h1 _ Hb1) as (h2 & E2 & Hb2 & Ho4 & Ho5 & Ho6).
  exists h2. unfold debit_all in *. cbn [ofold fst snd]. rewrite E. cbn [obind]. split; [done|].
  split; [done|]. split; [congruence|]. split; [congruence|].
  intros name' Hn. by rewrite Ho6, Ho3.
Qed.

(** C25: Releasing a binding that contains no thread in use before it was booked restores the host:
    every text is what it was. *)
Theorem release_undoes_booking h name t s m slots slots' :
  utilization_of name h = Some (Some (to_internal t false)) ->
  well_formed t -> normal t -> t <> [] ->
  reset_topology s = Done m -> normal m -> same_topology t m ->
  Forall2 (fun a b => a && b = false) (bits t) (bits m) ->
  0 < slots -> slots' <= 0 ->
  exists h', host_debit_binding h name (Some s) slots = Done h' /\
             host_debit_binding h' name (Some s) slots' = Done h.
Proof.
  intros Hu Hw Hn Hne Hs Hnm Hm Hclash Hp Hp'.
  assert (m <> []) as Hme by (intros E; rewrite E in Hm; by apply Forall2_nil_inv_r in Hm).
  destruct (debit_effect h name s slots t m Hs Hme) as (h1 & t1 & E1 & Eh1 & Hr1); [|done|].
  { rewrite Hu. cbn. split; [by apply reparse|done]. }
  assert (with_entry h name = EH_resource_utilization h) as Hent by (unfold with_entry; by rewrite Hu).
  rewrite Hent in Eh1. destruct (with_entry_find h name) as [w Hfw]. rewrite Hent in Hfw.
  assert (utilization_of name h1 = Some (Some (to_internal t1 false))) as Hu1.
  { rewrite Eh1. unfold utilization_of. cbn [EH_resource_utilization].
    rewrite set_utilization_find, String.eqb_refl by eauto. done. }
  destruct Hr1 as (Hw1 & Hn1 & Hs1 & Hb1).
  destruct (debit_effect h1 name s slots' t1 m Hs Hme) as (h2 & t2 & E2 & Eh2 & Hr2).
  { rewrite Hu1. cbn. split; [by apply reparse|]. intros E. rewrite E in Hs1. by apply Forall2_nil_inv_r in Hs1. }
  { by rewrite <- Hs1. }
  exists h1. split; [done|]. rewrite E2, Eh2. f_equal.
  assert (with_entry h1 name = EH_resource_utilization h1) as -> by (unfold with_entry; by rewrite Hu1).
  assert (t2 = t) as ->.
  { destruct Hr2 as (Hw2 & Hn2 & Hs2 & Hb2). apply determined; try done.
    { symmetry. by rewrite Hs1. }
    rewrite Hb2, Hb1, mask_normal by done. destruct (Z.ltb_spec 0 slots), (Z.ltb_spec 0 slots'); try lia.
    clear -Hclash. unfold apply_mask. induction Hclash as [|a b l k Hab _ IH]; [done|].
    cbn. rewrite IH. by destruct a, b. }
  rewrite Eh1. cbn [EH_name EH_internal_topology EH_resource_utilization].
  rewrite set_utilization_twice, set_utilization_same by done. by destruct h.
Qed.

(** ** Advance reservations *)

Section Reservation.
Context (cfg : bootstrap).

(** The bindings granted on the host. *)
Definition granted_on (hostname : bytes) (grants : list granted) : list string :=
  concat (map (fun g =>
    if (GRU_type g =? GRU_BINDING_TYPE) && (sge_hostcmp cfg (Some hostname) (GRU_host g) =? 0)
    then omap id (GRU_binding_inuse g) else []) grants).

Lemma ofold_app {A B} (f : A -> B -> outcome A) l l' a :
  ofold f (l ++ l') a = let* a := ofold f l a in ofold f l' a.
Proof.
  revert a. induction l as [|x l IH]; intros a; [done|]. cbn [app ofold].
  destruct (f a x); [apply IH|done..].
Qed.

Lemma granted_strings l acc :
  ofold add_granted_string l acc = ofold (fun acc s => add_granted_string acc (Some s)) (omap id l) acc.
Proof.
  revert acc. induction l as [|[s|] l IH]; intros acc; [done| |].
  - cbn [omap list_omap id ofold]. destruct (add_granted_string acc (Some s)); [apply IH|done..].
  - cbn [omap list_omap id ofold]. destruct acc as [[? ?] ?]. cbn [add_granted_string obind]. apply IH.
Qed.

Lemma granted_all hostname grants acc :
  ofold (add_granted cfg hostname) grants acc
  = ofold (fun acc s => add_granted_string acc (Some s)) (granted_on hostname grants) acc.
Proof.
  revert acc. induction grants as [|g grants IH]; intros acc; [done|].
  unfold granted_on. cbn [map concat]. fold (granted_on hostname grants). rewrite ofold_app.
  cbn [ofold]. unfold add_granted at 1.
  destruct (GRU_type g =? GRU_BINDING_TYPE); cbn [negb andb]; [|cbn [obind ofold]; apply IH].
  destruct (sge_hostcmp cfg (Some hostname) (GRU_host g) =? 0); cbn [negb]; [|cbn [obind ofold]; apply IH].
  rewrite granted_strings. destruct (ofold _ (omap id (GRU_binding_inuse g)) acc); [|done..].
  cbn [obind]. apply IH.
Qed.

Lemma granted_union t strings ms ar :
  t <> [] -> known_tree ar = true -> same_topology t ar ->
  Forall2 (fun s m => reset_topology s = Done m /\ normal m /\ same_topology t m) strings ms ->
  exists ar', ofold (fun acc s => add_granted_string acc (Some s)) strings (ar, false, true)
              = Done (ar', false, true) /\ known_tree ar' = true /\ same_topology t ar' /\
              bits ar' = fold_left bits_or (map bits ms) (bits ar).
Proof.
  intros Hne Hk Hs H. revert ar Hk Hs.
  induction H as [|s m strings ms (Er & Hn & Hm) _ IH]; intros ar Hk Hs; [by exists ar|].
  assert (ar <> []) as Hae by (intros E; rewrite E in Hs; by apply Forall2_nil_inv_r in Hs).
  destruct (mark_nodes_spec ar m true Hae Hk) as (ar1 & E1 & [Hk1 _] & _ & Hs1 & Hb1).
  { by rewrite <- Hs. }
  destruct (IH ar1 Hk1) as (ar2 & E2 & Hk2 & Hs2 & Hb2); [by rewrite Hs|].
  exists ar2. cbn [ofold add_granted_string]. rewrite Er. cbn [obind]. rewrite E1. cbn [obind].
  split; [done|]. split; [done|]. split; [done|].
  by rewrite Hb2, Hb1, apply_mask_true, mask_normal.
Qed.

(** Marking the units of an empty topology changes no thread. *)
Lemma mark_nothing now :
  now <> [] -> well_formed now ->
  exists t, mark_nodes_as_used_or_unused now [] true = Done t /\ represents now t (bits now).
Proof.
  intros Hne [Hk _]. unfold mark_nodes_as_used_or_unused.
  destruct (normalize_represents now now Hk) as (t & E & Hr); [done|]. exists t.
  split; [|done]. by destruct now.
Qed.

(** C22: A job in an advance reservation sees the host as it is seen without the reservation. If
    bindings were granted to the reservation on this host, then every thread that belongs to none
    of them is in use in addition: the free threads are the free ones among those of the
    reservation. If no binding was granted on this host, then nothing is masked and the job may
    use every thread that is free. *)
Theorem reservation_masks_rest a h topo now grants ms :
  find_initial_in_use cfg (Assignment (a_job a) None (is_binding_enabled a) (do_binding_on_any_host a)
    (filter_first_core a) (a_slots a) (a_allocation a) (a_mallocation a) (binding_to_use a) (gdil a)) h topo
  = Done (true, now) ->
  well_formed now -> now <> [] -> a_ar a = Some grants ->
  Forall2 (fun s m => reset_topology s = Done m /\ normal m /\ same_topology now m)
    (granted_on (EH_name h) grants) ms ->
  exists t, find_initial_in_use cfg a h topo = Done (true, t) /\
    represents now t
      match ms with
      | [] => bits now
      | m :: ms => bits_or (bits now) (map negb (fold_left bits_or (map bits ms) (bits m)))
      end.
Proof.
  intros Hi Hw Hne Har Hms. revert Hi. unfold find_initial_in_use. cbn [a_ar]. rewrite Har.
  match goal with |- context [obind ?r _] => destruct r as [[t1 f1]| |] eqn:E1; [|done..] end. cbn [obind].
  match goal with |- context [obind ?r _] => destruct r as [[t2 f2]| |] eqn:E2; [|done..] end. cbn [obind].
  intros [= -> ->]. rewrite granted_all. destruct Hms as [|s m strings ms (Er & Hn & Hm) Hms'].
  { cbn [ofold obind]. destruct (mark_nothing now Hne Hw) as (t & E & Hr).
    change (invert_binding []) with (Done ([] : topology)). cbn [obind]. rewrite E. cbn [obind].
    by exists t. }
  cbn [ofold add_granted_string].
  rewrite Er. cbn [obind]. assert (known_tree m = true) as Hkm by by apply parsed_well_formed in Er as [? _].
  destruct (granted_union now strings ms m Hne Hkm Hm Hms') as (ar & -> & Hka & Hsa & Hba). cbn [obind].
  destruct (invert_spec ar Hka) as (inv & -> & [Hki _] & Hni & Hsi & Hbi). cbn [obind].
  destruct (mark_nodes_spec now inv true Hne (proj1 Hw)) as (t & -> & Hr); [by rewrite Hsa|].
  cbn [obind]. exists t. split; [done|].
  by rewrite apply_mask_true, mask_normal, Hbi, Hba in Hr.
Qed.

End Reservation.

End BindingHostProps.
