(* ===== verification/TopologyProps.v ===== *)
(** What topology strings promise: text and tree agree, a search returns exactly the first free
    units of its section; and topology strings as the [Topology] of the resource diagrams. *)

From Stdlib Require Import Ascii.
From S2P Require Import Prelude Host Utilization TopologyString TopologyUnits TopologyFacts TopologyBits TopologyUnitFacts TopologySearch TopologyOrder Binding BindingFacts BindingProps BindingHostProps.
Import Host TopologyString TopologyUnits TopologyFacts TopologyBits TopologyUnitFacts TopologySearch TopologyOrder Binding BindingFacts BindingProps BindingHostProps.

Module TopologyProps.
Local Open Scope topology_scope.

(** ** Texts *)

(** C31: Reading a topology string ends; the tree it gives has the ids 1, 2, ... in the order of the
    text and counters that say how often each letter occurs below a node; printed and read again
    it is the same tree, and printed as unused it is the same hardware with every thread free. *)
Theorem topology_string_roundtrip s :
  reset_topology s <> Exhausted /\
  forall t, reset_topology s = Done t ->
    reset_topology (to_internal t false) = Done t /\
    map n_id (all_nodes t) = seqZ 1 (length (all_nodes t)) /\
    Forall counted (all_nodes t) /\
    exists u, reset_topology (to_unused_internal_topology_string t) = Done u /\
              is_same_topology t u = true /\ Forall (eq false) (bits u).
Proof.
  split.
  - unfold reset_topology. rewrite parse_to_tree_eq. pose proof (parse_returns (chars s) 1).
    by destruct (parse (chars s) 1) as [[[? ?] ?]| |].
  - intros t Ht. apply parsed_well_formed in Ht as Hw. split; [by apply reparse|].
    split; [by apply well_formed_numbered|]. split; [by apply well_formed_counted|].
    exists (all_free t). destruct (all_free_spec t) as (_ & Hs & Hb); [apply Hw|].
    unfold to_unused_internal_topology_string. rewrite to_string_unused. split; [by apply reparse_unused, Hw|].
    rewrite is_same_topology_spec. split; [done|]. rewrite Hb. clear. induction (bits t); by constructor.
Qed.

Definition sample : string := "(N(S(X(C(T)(T))(c(t)(t))))(S(X(C(T)(T))(C(T)(T)))))".

(** The level of every object of [sample]. *)
Definition sample_level (ch : ascii) : nat :=
  if is_char ch "N" then 0 else if is_char ch "S" then 1 else if is_char ch "X" then 2
  else if is_char ch "C" then 3 else 4.

Definition tree_of (s : string) : topology :=
  match reset_topology s with Done t => t | _ => [] end.

Lemma topology_string_roundtrip_witness :
  reset_topology sample = Done (tree_of sample) /\
  reset_topology (to_internal (tree_of sample) false) = Done (tree_of sample).
Proof.
  split; [by vm_compute|]. apply (topology_string_roundtrip sample). by vm_compute.
Defined.

(** ** Searching *)

(** C17: On a host whose objects of one kind are on one level, with cores of one kind below a node,
    the search for [n] units returns the first [n] free units of the requested kind in the order
    of the text, from the first start position on up to the first stop position behind it. *)
Theorem packed_units_exact n unit start stop level t :
  0 < n -> uniform_level level 0 t ->
  find_n_packed_units n unit start stop t = packed_units n unit start stop t.
Proof. apply find_packed. Qed.

Lemma packed_units_exact_witness :
  uniform_level sample_level 0 (tree_of sample) /\
  find_n_packed_units 2 CCORE ANONE ANONE (tree_of sample) = [4; 12] /\
  packed_units 2 CCORE ANONE ANONE (tree_of sample) = [4; 12].
Proof.
  assert (uniform_level sample_level 0 (tree_of sample)) as Hu.
  { split; [by vm_compute|]. vm_compute. repeat constructor. }
  split; [done|]. rewrite (packed_units_exact 2 CCORE ANONE ANONE sample_level) by done.
  split; vm_compute; reflexivity.
Defined.

(** ** Witnesses of the properties of bindings *)

Definition cell : bootstrap := Bootstrap false None.
Definition node1 : bytes := [110; 49].
Definition sample_host : host := Host_ node1 (Some sample) [].
Definition job (sort : string) (amount : Z) : assignment :=
  Assignment (Some (Request SLOT amount CCORE (Some NONE_STR) (Some sort) ANONE ANONE)) None true true false 4
    (Some ALLOC_RULE_FILLUP) None [] [].


Lemma tested_slots_applied_witness :
  test_strategy CCORE (job NONE_STR 1) sample_host 4 (tree_of sample) = Done 3 /\
  exists a' t, apply_strategy cell CCORE (job NONE_STR 1) 4 sample_host [] = Done (3, a', t).
Proof.
  split; [by vm_compute|].
  apply (tested_slots_applied cell CCORE (job NONE_STR 1) sample_host 4 [] true (tree_of sample) 3);
    try (vm_compute; reflexivity). done.
Defined.

Definition one_core : string := "(N(S(X(c(t)(t))(C(T)(T))))(S(X(C(T)(T))(C(T)(T)))))".
Definition other_core : string := "(N(S(X(C(T)(T))(C(T)(T))))(S(X(c(t)(t))(C(T)(T)))))".

Lemma bookings_tracked_witness :
  exists h', debit_all "slots" [(one_core, 1); (other_core, 1); (one_core, -1)] sample_host = Done h' /\
    booked (tree_of sample) h' "slots" (Some [false; false; false; false; true; true; false; false]) /\
    other_parts "slots" sample_host h'.
Proof.
  assert (fold_left book (zip [tree_of one_core; tree_of other_core; tree_of one_core]
    (map snd [(one_core, 1); (other_core, 1); (one_core, -1)])) None
    = Some [false; false; false; false; true; true; false; false]) as <- by (vm_compute; reflexivity).
  apply bookings_tracked; [vm_compute; discriminate|exact I|].
  repeat constructor; try (vm_compute; reflexivity); apply is_same_topology_spec; vm_compute; reflexivity.
Defined.

Lemma release_undoes_booking_witness :
  let h := Host_ node1 (Some sample) [("slots"%string, Some (to_internal (tree_of sample) false))] in
  exists h', host_debit_binding h "slots" (Some one_core) 1 = Done h' /\
             host_debit_binding h' "slots" (Some one_core) (-1) = Done h.
Proof.
  intros h.
  apply (release_undoes_booking h "slots" (tree_of sample) one_core (tree_of one_core)).
  - vm_compute. reflexivity.
  - apply (parsed_well_formed sample). vm_compute. reflexivity.
  - vm_compute. reflexivity.
  - vm_compute. discriminate.
  - vm_compute. reflexivity.
  - vm_compute. reflexivity.
  - apply is_same_topology_spec. vm_compute. reflexivity.
  - vm_compute. repeat constructor.
  - lia.
  - lia.
Defined.

Definition in_reservation : assignment :=
  Assignment (Some (Request SLOT 1 CCORE (Some NONE_STR) None ANONE ANONE))
    (Some [Granted GRU_BINDING_TYPE (Some node1) [Some one_core; Some other_core]])
    true true false 4 (Some ALLOC_RULE_FILLUP) None [] [].

(** Of the free threads only the four of the reservation are left. *)
Lemma reservation_masks_rest_witness :
  exists t, find_initial_in_use cell in_reservation sample_host [] = Done (true, t) /\
    represents (tree_of sample) t [false; false; true; true; false; false; true; true].
Proof.
  apply (reservation_masks_rest cell in_reservation sample_host [] (tree_of sample)
    [Granted GRU_BINDING_TYPE (Some node1) [Some one_core; Some other_core]]
    [tree_of one_core; tree_of other_core]).
  - vm_compute. reflexivity.
  - apply (parsed_well_formed sample). vm_compute. reflexivity.
  - vm_compute. discriminate.
  - reflexivity.
  - repeat constructor; try (vm_compute; reflexivity); apply is_same_topology_spec; vm_compute; reflexivity.
Defined.

(** ** Behaviour to know about *)

Definition half_used : host := Host_ node1 (Some "(S(C(t))(C(t))(C(T)))(S(C(T))(C(T))(C(T)))"%string) [].

Definition tasks_of (r : outcome (Z * assignment * topology)) : outcome (list (option (list (Z * string)))) :=
  let* (_, a, _) := r in Done (map BN_specific_binding_list (binding_to_use a)).

(** With sorting, the ids found for the second slot count the sorted tree, but are marked in the
    unsorted one: a core in use is bound. *)
Example sorted_slot_binds_used_core :
  tasks_of (apply_strategy cell CCORE (job "S" 1) 2 half_used [])
  = Done [Some [(0, "(S(C(T))(C(T))(C(T)))(S(c(t))(C(T))(C(T)))"%string);
                (1, "(S(C(T))(c(t))(C(T)))(S(C(T))(C(T))(C(T)))"%string)]].
Proof. vm_compute. reflexivity. Qed.

(** A second call for a host, as for a job that is placed slot by slot, does not know what the
    first one has bound. *)
Example second_call_binds_again :
  (let* (_, a, _) := apply_strategy cell CCORE (job NONE_STR 1) 1 half_used [] in
   tasks_of (apply_strategy cell CCORE a 1 half_used []))
  = Done [Some [(0, "(S(C(T))(C(T))(c(t)))(S(C(T))(C(T))(C(T)))"%string);
                (1, "(S(C(T))(C(T))(c(t)))(S(C(T))(C(T))(C(T)))"%string)]].
Proof. vm_compute. reflexivity. Qed.

(** A core without threads below it is found again after it has been marked. *)
Example core_without_threads_found_again :
  (let* t := reset_topology "(S(C)(C))" in
   let* t := mark_units_as_used_or_unused t (find_n_packed_units 1 CCORE ANONE ANONE t) CCORE true true in
   Done (to_internal t false, find_n_packed_units 1 CCORE ANONE ANONE t)) = Done ("(S(c)(C))"%string, [2]).
Proof. vm_compute. reflexivity. Qed.

(** A lower case letter puts the units in use first. *)
Example lower_case_sorts_used_first :
  (let* t := reset_topology "(S(C(T))(C(T)))(S(C(T))(c(t)))" in
   Done (to_internal (sort_tree t "s" "t") false)) = Done "(S(C(T))(c(t)))(S(C(T))(C(T)))"%string.
Proof. vm_compute. reflexivity. Qed.

(** ** The topologies of the resource diagrams *)

(** A text that could not be read has no meaning to print. *)
#[export] Instance topology_strings : Utilization.Topology (outcome topology) := {
  Utilization.topo_empty := Done [];
  Utilization.topo_is_empty := fun t => match t with Done t => is_empty t | _ => false end;
  Utilization.topo_of := reset_topology;
  Utilization.topo_show := fun t => match t with Done t => to_internal t false | _ => EmptyString end;
  Utilization.topo_show_free := fun t => match t with Done t => to_internal t true | _ => EmptyString end;
  Utilization.topo_mark := fun t m used => let* t := t in let* m := m in mark_nodes_as_used_or_unused t m used;
}.

(** The diagrams change the attribute of an entry as the code does. *)
Lemma elem_mark_agrees attr now to_use used attr' now' :
  TopologyString.elem_mark_nodes_as_used_or_unused attr now to_use used = Done (attr', now') ->
  Utilization.elem_mark_nodes_as_used_or_unused attr (Done now) (Done to_use) used = attr'.
Proof.
  unfold TopologyString.elem_mark_nodes_as_used_or_unused, Utilization.elem_mark_nodes_as_used_or_unused.
  cbn [Utilization.topo_is_empty Utilization.topo_show Utilization.topo_show_free Utilization.topo_of Utilization.topo_mark topology_strings obind].
  destruct (is_empty to_use); [by intros [= <- _]|].
  destruct (is_empty now), used; cbn [negb]; intros (t & E & H)%obind_done; injection H as <- _; by rewrite E.
Qed.

(** The bindings of the tasks of a job, united, are in use in every one of their threads. *)
Lemma binding_union_bits t strings ms :
  t <> [] -> strings <> [] ->
  Forall2 (fun s m => reset_topology s = Done m /\ normal m /\ same_topology t m) strings ms ->
  exists u, Utilization.binding_union strings = Done u /\ same_topology t u /\
            bits u = fold_left bits_or (tail (map bits ms)) (hd [] (map bits ms)).
Proof.
  intros Hne Hs H. destruct H as [|s m strings ms (Er & Hn & Hm) H]; [done|].
  unfold Utilization.binding_union. cbn [fold_left map hd tail]. cbn [Utilization.topo_mark Utilization.topo_of Utilization.topo_empty topology_strings obind].
  rewrite Er. cbn [obind]. unfold mark_nodes_as_used_or_unused at 2. cbn [is_empty].
  apply parsed_well_formed in Er as Hw. rewrite reparse by done. cbn [obind].
  assert (known_tree m = true) as Hk by apply Hw. clear Er Hn Hw Hs s. revert m Hm Hk.
  induction H as [|s k strings ms (Er & Hn & Hk) _ IH]; intros m Hm Hkm; [by exists m|].
  cbn [fold_left map]. cbn [Utilization.topo_mark Utilization.topo_of topology_strings obind]. rewrite Er. cbn [obind].
  assert (m <> []) as Hme by (intros E; rewrite E in Hm; by apply Forall2_nil_inv_r in Hm).
  destruct (mark_nodes_spec m k true Hme Hkm) as (m1 & -> & [Hk1 _] & _ & Hs1 & Hb1); [by rewrite <- Hm|].
  destruct (IH m1) as (u & E & Hu & Hb); [by rewrite Hm|done|].
  exists u. split; [exact E|]. split; [done|]. by rewrite Hb, Hb1, apply_mask_true, mask_normal.
Qed.

End TopologyProps.
